(* ===== verification/_CoqProject ===== *)
-Q . S2P
Prelude.v
Probe.v
PgState.v
Own.v
Ranges.v
AccessLayout.v
SharedLayout.v
SharedPages.v
SourceLineage.v
CpuModel.v
Proto.v
SourceTransfer.v
Native.v
Traces.v
SourceContext.v
SourceRegistry.v
SourceMemoryTarget.v
ExecutionMm.v
ExecutionTarget.v
SourceAdmission.v
MonitorOwner.v
SourceSnapshot.v
Construction.v
AccessJournal.v
Buckets.v
Loans.v
Cow.v
CowRuns.v
Retain.v
Regions.v
Vacate.v
Receipts.v
FaultDispatch.v
SnapshotQuiesce.v
ReplyMap.v
GuestTlb.v
Vmcs.v
NestedTables.v
Device.v
GuestExit.v
GuestEntry.v
SourceTables.v
SourceFault.v
PageTake.v
PageSettle.v
SourcePage.v
Exceptions.v
SourceServe.v
