(* ===== verification/Prelude.v ===== *)
(** * vmctx: a verification library

    vmctx runs an unmodified Linux program whose memory and whose execution are
    on two machines.  The _source_ (the home machine, user/vmhome.c with the
    source-*.h headers) owns the process: its kernel memory, its system calls
    and its native page states.  The _executor_ (the remote machine,
    user/vmremote.c with the other headers) runs the instructions in contexts of
    a kernel module (kernel/vmctx.c) and obtains pages from the source on
    demand.  The two monitors exchange the records of user/vmrproto.h.  A page's
    right to be written is a single token that moves between them.

    This library models the monitors' own state and decisions: tables, state
    machines, journals, registries, and the order in which they are changed.
    The definitions keep the names of the C functions; paths below are relative
    to src/vmctx.

    ** How code is modelled

    - Machine integers are [Z] with the wrap-around of their width written out
      ([u64], [u32], [i32]); an index outside an array is [Corrupt], a loop that
      exceeds the fuel of its model is [Hung], [abort] is [Aborted], -1 with
      errno is [Err].  None of these is dropped: theorems that say an operation
      returns exclude them.
    - A function that holds one mutex throughout is one function on the state.
      A function with several critical sections is a step per section, and a
      step relation interleaves the steps of any number of threads.
    - Kernel calls, the control device, the allocator and the other machine are
      not part of the program.  They are parameters, usually functions from the
      whole history of calls, so that a theorem covers every sequence of
      answers, failures included (Native.v, [world] of Cow.v, [adapter] of
      SourceAdmission.v, [native] of SourceTransfer.v).
    - Counters and traces that are only printed are left out.

    ** The executor

    - PgState.v: pgstate.h, the page-transfer table.  At most one transfer per
      page is in flight and only the episode that claimed it finishes it; the
      probing array implements a finite map.
    - Own.v: own.h, the ownership segment shared between processes.  [Own] is
      the segment (own_begin, own_land, own_abort, own_forget, own_get): a page has one
      record and at most one move.  [OwnMutex] and [OwnWait] are its futex mutex and the wait
      on the generation word at the grain of single atomic accesses: mutual
      exclusion, and no lost wake-up.  [Ownf] is the gate of vmremote.c around
      the service of a fault.
    - Receipts.v: vmremote.c, ack_pend: the receipts of landed pages are
      acknowledged exactly once.
    - FaultDispatch.v: fault-dispatch.h, the service of a page fault, which
      composes PgState, Own and Receipts around the inner service: services of
      one page exclude each other, no reservation outlives its fault, every fault
      ends and asks the source at most once.
    - AccessLayout.v, SharedLayout.v: access-layout.h and shared-layout.h, the
      interval tables of access restrictions and shared mappings, on the common
      interval rows of Ranges.v.  What each update changes, address by address.
    - SharedPages.v: shared-pages.h, stable backing slots of shared objects.
    - Construction.v: vmremote.c, cons_note_locked, cons_covering,
      cons_kill and range_vacated_seq: the live mapping records, and the order
      of a late vacate against newer constructions.
    - AccessJournal.v: access-journal.h, batches of access changes: validated,
      applied, acknowledged in that order, with pointwise effect.
    - Loans.v: vmremote.c, struct loan and page_lend_at, page_holder and the
      rest: refinement of a finite map, on the chained buckets of Buckets.v.
    - Cow.v, CowRuns.v: vmremote.c, copy-on-write between address spaces
      (cow_give_page_mode, cow_break_copies, cow_protect_address_space, the
      publication part of spawn_forked_context, the break the source asks for).
      Every program is a run of elementary transitions, for every answer of the
      system; through a run in which no access to an object fails, a copy is
      handed each inherited page once, with the bytes of its fork, but for the
      pages a break for the source strands ([CowRuns.stranded]).
    - Retain.v: vmremote.c, the take generations and the retained bytes of the last
      capture (retain_put, retain_get_gen, pgen_bump, ...).
    - Regions.v: vmremote.c, the layout table (region_add, region_forget_range).
    - Vacate.v: vmremote.c, range_vacated_1, which retires a range from all of
      Cow, Retain, Loans, Regions and SharedLayout in one critical section; the
      state afterwards is given exactly, page by page and row by row.
    - ReplyMap.v: vmremote.c, reply_note_map and the section of forward around it:
      the mapping effects of a completed call, checked and applied to all the
      records above.  The effects the source builds (Proto.v) pass the checks; a
      new mapping starts clean; a move carries its bytes.
    - SnapshotQuiesce.v: snapshot-quiesce.h, the lease that pauses every member
      of an address space while the source takes a snapshot.
    - ExecutionMm.v, ExecutionTarget.v: execution-mm.h, execution-target.h, the
      memory records and the immutable targets that native controls are fenced
      by.
    - MonitorOwner.v: monitor-owner.h, the queue of the attaching thread.
    - PageTake.v: vmremote.c, page_take_mode and its callers (page_take_away,
      page_protect_read, page_make_writable): moving a page out of the contexts
      and the object of an address space, freezing it, and granting a write, in a
      memory the guest's threads change between any two calls.  What a hand-over
      leaves behind, and which stores a write grant can lose.
    - PageSettle.v: page-settle.h, page_recall_all, with the pull of a page
      (source_page_fetch, ctx_page_pull): the loans settled before a snapshot, in
      the order reserve, pull, store, acknowledge, grant, retire.

    ** The source

    - SourceLineage.v: source-lineage.h, fork ancestry and broken pages.
    - SourceTransfer.v: source-transfer.h and source-custody.h, native transfer
      tickets: each is settled once and forgotten only when settled.
    - SourceContext.v, SourceRegistry.v, SourceMemoryTarget.v: retained tasks
      and their identity, the registry of source ids with its references, and
      native calls fenced by a captured memory identity (on Native.v).
    - SourceAdmission.v: source-admission.h, admission of guest calls: an
      admitted call never runs twice, whatever the connection asks.
    - SourceSnapshot.v: source-snapshot.h, the pages of a newborn child.
    - SourceTables.v: vmhome.c, the sealed ranges (relro_mm_note, ...), the ranges
      of shared file mappings (sh_file_note, sh_file_forget, sh_file_reclaim, ...)
      and the identities of shared objects (sh_shared_identity,
      note_shared_mapping): each table denotes a set of addresses.
    - SourceFault.v: vmhome.c, the fault service (ctx_monitor) with its readahead
      (prefetch_issue, prefetch_read_replies, prefetch_settle), the page request
      (pg_get_op) and the fetch for a call (ctx_pull_page_mode).  Every program is
      proved against a predicate on its events ([safe]): what lands was received,
      what was admitted is settled before a context runs on, every wait ends.
    - SourcePage.v: vmhome.c, the page operations of serve (ctx_page, ctx_page_ack,
      ctx_write_prep and the checks, dispatch and reply around them) on the custody
      of SourceTransfer.v: a page is answered only with a transfer in custody, the
      acknowledgement settles it, and other work waits until all are settled.
    - SourceServe.v: vmhome.c, three requests that change the source's tables: the
      access journal (its batches are what AccessJournal.v accepts), the CPU model
      (negotiated once, on CpuModel.v) and a completed call (ctx_forward: the log of
      vacated ranges drained into SourceTables.v before the new mapping is noted).

    ** Both

    - Exceptions.v: owner_takes_fault and home_call_target_runtime of vmremote.c
      against source_exception_reply, ctx_deliver_exception and
      source_publish_reply of vmhome.c: one exchange, state for state, against a
      specification that names no code ([judged]).
    - CpuModel.v: kernel/vmctx_cpu_model.h, negotiation of the CPU model.
    - Proto.v: vmrproto.h and the small wire headers: the checks on received
      records, and encoding.

    ** The kernel module

    kernel/vmctx.c runs the contexts, with SVM on AMD and VMX on Intel.

    - GuestEntry.v: the control block of a guest and one SVM entry
      (svm_build_vmcb_usercode, svm_vmrun_once_gpr, vmctx_guest_cr4, ...): every
      path puts the host's registers back, and the guest has the features of its
      negotiated model (CpuModel.v) and no other.
    - Vmcs.v: the VMX side of entry (vmx_build_vmcs, vmx_make_current,
      vmx_release, vmx_enter_once): a VMCS is active on one CPU at most, under
      every interleaving of CPUs, and the guest is entered with its own fields.
    - GuestExit.v: the exit handlers of both vendors
      (vmctx_be_run_usercode_once, vmx_run_usercode_once) and the task's frame
      around them.  Both refine one abstract response to an event ([respond]);
      the guest goes on only as the owner said.
    - GuestTlb.v: vmctx_kick_guests against the entries: the counter and the
      generation that retire cached translations, one step per shared access.
    - NestedTables.v: the second-level page tables and the processor's walk.
    - Device.v: /dev/vmctx: detection, bring-up, contexts and their requests.

    ** Shared libraries

    Prelude.v has the results, the machine integers and the tactics; Probe.v
    linear probing over arrays that never delete, with the finite map they
    denote ([chain], [tab_map]); Ranges.v interval rows with the class
    [RangeRow]; Buckets.v chained buckets; Native.v the kernel interface and
    the weakest preconditions of programs over it; Traces.v programs that keep the
    history of their calls ([safe], [ends]), for SourceFault.v and PageSettle.v.

    ** Fuel

    Loops whose recursion is not structural carry fuel and the theorems show it
    suffices: a probe loop visits each slot once, so its fuel is the length of
    the table (an occupied table always has a free slot); cons_kill and
    range_vacated_seq end because each turn removes or passes a row, fuel = rows + 1;
    the spans of a journal record advance by at least a byte, fuel = length of
    the range; walks up the fork chain visit each registered space once, fuel =
    spaces + 1 ([chain_fuel]); loops over the pages of a range use len / page + 2
    ([range_fuel]), the relocation of a move one turn per page of the old range
    ([move_fuel]); region_forget_range re-examines at most one new row per turn, fuel
    = MAX_REGIONS + 1 ([forget_fuel]); the loops of Ranges.v visit each row and
    the tails they append ([scan_range]); the waits of SourceFault.v are bounded by
    their deadlines over the sleep of a turn ([get_fuel], [admit_fuel]), which
    [fault_service_ends] shows for every clock that does not go back; settling a
    loan waits a millisecond a turn for four seconds, fuel = 4002 ([settle_fuel]);
    the retries of PageTake.v are the code's own counters.  Retry loops that wait for another
    machine are step relations or take the finite sequence of rounds as an
    argument, never a fuel that a result silently depends on.

    ** What modelling showed

    Some behaviours differ from the intention stated in the
    comments around them, each with a run of the modelled code:
    [CowRuns.rearm_reaches_older_copy] (a second fork's mark gives a page to the
    first copy, which did not inherit it), [CowRuns.vacated_page_comes_back] (a
    copy that unmapped a page it was owed is given it afterwards) and
    [CowRuns.wire_break_strands_grandcopy] (a page given over the channel is not
    passed on to the copy's own copies).  [ReplyMap.replaced_page_reaches_copy]
    (a move over a page a copy is owed hands the copy the moved bytes) and
    [ReplyMap.moved_sharing_is_lost] (a moved shared mapping is private afterwards)
    are of the same kind.  [Retain.full_table_forgets_a_capture]
    shows a moved page reported as never moved once the table is full,
    [Vmcs.write_cache_never_hits] a cache that every entry drops, and
    [Device.bringup_leaves_host_save_area] a register left naming a freed page.
    [SourceTables.full_table_loses_tail] shows a full table dropping the rest of a
    forgotten range, and [SourceFault.timed_out_wait_invents_page] a wait that
    times out and lets the kernel fill a page that the other machine holds.
    [CowRuns.failed_send_loses_page] shows a page recorded as given whose reply
    was not written.  [PageTake.failed_putback_loses_page] shows a write grant whose
    put-back fails and which drops the only copy of the page, and
    [PageTake.racing_putback_overwrites] one that overwrites a store, as the code's
    own counters expect.  [PageSettle.grant_waits_locked] shows the coherence lock
    held across the retries of a write grant, which page-settle.h denies.

    ** Not modelled

    - The inner service of a fault (fault_from_home_inner), the page channel
      server (but for the breaking of copies), the recall channels and the
      forwarding of calls in vmremote.c: they are long compositions of the operations
      modelled here with wire calls, waits and retries, and add no table of their own.
    - vmhome.c's request loop but for the operations above, the loading of the
      program and the tracing of calls.
    - In kernel/vmctx.c: the self test, the rings and reports that are only
      printed, and the sampling of guest memory for diagnostics.  The assembly of
      the world switch and the kernel patches are outside; what instructions such
      as VMPTRLD or VMRUN do to the state is written out where a theorem needs it.
    - vmmig.c, vmmon.c, vmtake.c, vmsys.c, vmthreads.c, vmbench.c, vmselftest.c,
      dumpvm.c, homeapp.c: command-line tools and test programs around the
      control device.
    - linux-execution-*.h, source-address-space.h, monitor-maps.h, map-trace.h,
      monitor-diagnostics.h, deadline.h, cpu-state.h, common.h: wrappers of
      system calls, parsing of /proc files and diagnostics. *)
From stdpp Require Export base numbers list gmap.
Open Scope Z_scope.

#[global] Arguments Nat.div : simpl never.
#[global] Arguments Nat.modulo : simpl never.
#[global] Arguments Nat.pow : simpl never.
#[global] Arguments Z.pow : simpl never.
#[global] Arguments Z.mul : simpl never.
#[global] Arguments Z.add : simpl never.
#[global] Arguments Z.sub : simpl never.
#[global] Arguments Z.div : simpl never.
#[global] Arguments Z.modulo : simpl never.
#[global] Arguments Z.land : simpl never.
#[global] Arguments Z.lor : simpl never.
#[global] Arguments Z.lxor : simpl never.
#[global] Arguments Z.shiftr : simpl never.
#[global] Arguments Z.eqb : simpl never.
#[global] Arguments Z.leb : simpl never.
#[global] Arguments Z.ltb : simpl never.

(** ** Error numbers

    The Linux values, as the sources compare and store them in [errno]. *)
Definition EPERM : Z := 1.
Definition ENOENT : Z := 2.
Definition ESRCH : Z := 3.
Definition EINTR : Z := 4.
Definition EIO : Z := 5.
Definition EBADF : Z := 9.
Definition EAGAIN : Z := 11.
Definition ENOMEM : Z := 12.
Definition EFAULT : Z := 14.
Definition EBUSY : Z := 16.
Definition EXDEV : Z := 18.
Definition EINVAL : Z := 22.
Definition EPROTO : Z := 71.
Definition EOVERFLOW : Z := 75.
Definition ESHUTDOWN : Z := 108.
Definition ETIMEDOUT : Z := 110.
Definition EALREADY : Z := 114.
Definition ESTALE : Z := 116.
Definition ECANCELED : Z := 125.

(** ** Outcomes

    [Ok v] is a normal return, [Err e] the return of -1 (or NULL) with
    [errno = e], [Aborted] the end of the monitor process in [abort],
    [Corrupt] an access outside an array, and [Hung] a loop that did not end
    within the fuel of its model.  [Corrupt] and [Hung] are never silently
    dropped: the theorems that say an operation returns exclude them. *)
Inductive result (A : Type) : Type :=
| Ok (a : A)
| Err (e : Z)
| Aborted
| Corrupt
| Hung.
Arguments Ok {A} a.
Arguments Err {A} e.
Arguments Aborted {A}.
Arguments Corrupt {A}.
Arguments Hung {A}.

#[global] Instance result_eq_dec {A} `{EqDecision A} : EqDecision (result A).
Proof. solve_decision. Defined.

Definition result_bind {A B} (c : result A) (k : A -> result B) : result B :=
  match c with Ok a => k a | Err e => Err e | Aborted => Aborted
  | Corrupt => Corrupt | Hung => Hung end.

Definition is_ok {A} (c : result A) : bool :=
  match c with Ok _ => true | _ => false end.

Declare Scope vmctx_scope.
Delimit Scope vmctx_scope with vmctx.
Notation "'let!' x := c 'in' k" := (result_bind c (fun x => k))
  (at level 10, x pattern, c at level 100, k at level 200) : vmctx_scope.
Open Scope vmctx_scope.

Lemma result_bind_ok {A B} (c : result A) (k : A -> result B) b :
  result_bind c k = Ok b -> exists a, c = Ok a /\ k a = Ok b.
Proof. destruct c; simpl; intros; simplify_eq; eauto. Qed.

(** ** Machine integers

    Unsigned words are kept in [Z]; every operation of the sources that can
    overflow goes through [u64] or [u32]. *)
Definition U64MAX : Z := 2 ^ 64 - 1.
Definition U32MAX : Z := 2 ^ 32 - 1.
Definition I64MAX : Z := 2 ^ 63 - 1.
Definition I32MAX : Z := 2 ^ 31 - 1.
Definition u64 (x : Z) : Z := x mod 2 ^ 64.
Definition u32 (x : Z) : Z := x mod 2 ^ 32.
Definition is_u64 (x : Z) : Prop := 0 <= x <= U64MAX.
Definition is_u32 (x : Z) : Prop := 0 <= x <= U32MAX.

Notation "a .& b" := (Z.land a b) (at level 40, left associativity) : vmctx_scope.
Notation "a .| b" := (Z.lor a b) (at level 50, left associativity) : vmctx_scope.
Notation "a .^ b" := (Z.lxor a b) (at level 45, left associativity) : vmctx_scope.
Notation "a .>> b" := (Z.shiftr a b) (at level 40, left associativity) : vmctx_scope.
(** C truth of an integer. *)
Notation "'nz' x" := (negb (x =? 0)) (at level 9, x at level 9) : vmctx_scope.

Definition PAGE : Z := 4096.
(** [x & ~UINT64_C(4095)] *)
Definition page_base (x : Z) : Z := x .& 0xfffffffffffff000.
(** [!(x & 4095)] *)
Definition page_aligned (x : Z) : bool := (x .& 4095) =? 0.

Create HintDb vmctx.
Create HintDb vmctx_rw.

Lemma u64_range x : is_u64 (u64 x).
Proof. unfold is_u64, u64, U64MAX. pose proof (Z.mod_pos_bound x (2 ^ 64)). lia. Qed.
Lemma u32_range x : is_u32 (u32 x).
Proof. unfold is_u32, u32, U32MAX. pose proof (Z.mod_pos_bound x (2 ^ 32)). lia. Qed.
Lemma u64_small x : is_u64 x -> u64 x = x.
Proof. unfold is_u64, u64, U64MAX. intros. apply Z.mod_small. lia. Qed.
Lemma u32_small x : is_u32 x -> u32 x = x.
Proof. unfold is_u32, u32, U32MAX. intros. apply Z.mod_small. lia. Qed.
#[export] Hint Resolve u64_range u32_range : vmctx.

Lemma land_mask_mod x k : 0 <= k -> x .& (2 ^ k - 1) = x mod 2 ^ k.
Proof. intros. rewrite <- Z.land_ones by done. by rewrite Z.ones_equiv, Z.sub_1_r. Qed.

Lemma page_mask_mod x : x .& 4095 = x mod PAGE.
Proof. apply (land_mask_mod x 12). lia. Qed.

Lemma page_aligned_spec x : page_aligned x = true <-> x mod PAGE = 0.
Proof. unfold page_aligned. rewrite page_mask_mod. lia. Qed.

(** Clearing the low twelve bits of a 64-bit word subtracts the offset in the
    page. *)
Lemma page_base_sub x : is_u64 x -> page_base x = x - x mod PAGE.
Proof.
  unfold is_u64, U64MAX, page_base, PAGE. intros Hx.
  assert (Hh : x .& 0xfffffffffffff000 = Z.ldiff x (2 ^ 12 - 1)).
  { apply Z.bits_inj'. intros n Hn. rewrite Z.land_spec, Z.ldiff_spec.
    destruct (decide (n < 64)) as [H64|H64].
    - change 0xfffffffffffff000 with (Z.shiftl (Z.ones 52) 12).
      change (2 ^ 12 - 1) with (Z.ones 12).
      rewrite Z.shiftl_spec by done. destruct (decide (n < 12)).
      + rewrite (Z.testbit_neg_r _ (n - 12)) by lia.
        rewrite (Z.ones_spec_low 12) by lia. simpl. by rewrite !andb_false_r.
      + rewrite (Z.ones_spec_low 52) by lia. by rewrite (Z.ones_spec_high 12) by lia.
    - assert (Z.testbit x n = false) as ->; [|done].
      destruct (decide (x = 0)) as [->|]; [apply Z.bits_0|].
      apply Z.bits_above_log2; [lia|].
      assert (Z.log2 x < 64); [|lia]. apply Z.log2_lt_pow2; lia. }
  rewrite Hh. change (2 ^ 12 - 1) with (Z.ones 12).
  rewrite Z.ldiff_ones_r by lia. rewrite Z.shiftl_mul_pow2, Z.shiftr_div_pow2 by lia.
  change (2 ^ 12) with 4096. pose proof (Z.div_mod x 4096). lia.
Qed.

Lemma page_base_aligned x : is_u64 x -> page_aligned (page_base x) = true.
Proof.
  intros. rewrite page_aligned_spec, page_base_sub by done. unfold PAGE.
  rewrite Zminus_mod_idemp_r, Z.sub_diag. done.
Qed.

Lemma page_base_range x : is_u64 x -> is_u64 (page_base x).
Proof.
  intros H. rewrite page_base_sub by done. unfold is_u64, PAGE in *.
  pose proof (Z.mod_pos_bound x 4096). pose proof (Z.mod_le x 4096). lia.
Qed.

Lemma page_base_id x : is_u64 x -> page_aligned x = true -> page_base x = x.
Proof. intros H Ha%page_aligned_spec. rewrite page_base_sub by done. lia. Qed.

Lemma page_base_idem x : is_u64 x -> page_base (page_base x) = page_base x.
Proof. intros. apply page_base_id; auto using page_base_range, page_base_aligned. Qed.
#[export] Hint Resolve page_base_range page_base_aligned : vmctx.

(** ** Arrays

    A C array with [n] live elements is the list of those elements. *)
Section arrays.
Context {A : Type}.
Implicit Types (l : list A) (x : A).

(** [a[i] = a[--n]] *)
Definition swap_remove (i : nat) l : list A :=
  match last l with
  | Some x => take (length l - 1) (<[i := x]> l)
  | None => l
  end.

Lemma swap_remove_snoc i l x :
  (i < length l)%nat -> swap_remove i (l ++ [x]) = <[i := x]> l.
Proof.
  intros Hi. unfold swap_remove. rewrite last_snoc, insert_app_l by done.
  rewrite length_app. simpl. rewrite take_app_le by (rewrite length_insert; lia).
  apply take_ge. rewrite length_insert. lia.
Qed.

Lemma swap_remove_last l x : swap_remove (length l) (l ++ [x]) = l.
Proof.
  unfold swap_remove. rewrite last_snoc, insert_app_r_alt by lia.
  rewrite length_app, Nat.sub_diag. simpl.
  rewrite take_app_le by lia. apply take_ge. lia.
Qed.

Lemma swap_remove_perm i l x :
  l !! i = Some x -> x :: swap_remove i l ≡ₚ l.
Proof.
  induction l as [|y l' _] using rev_ind; [done|].
  intros Hl. pose proof (lookup_lt_Some _ _ _ Hl) as Hlt.
  rewrite length_app in Hlt. simpl in Hlt.
  destruct (decide (i = length l')) as [->|].
  - rewrite swap_remove_last. rewrite lookup_app_r, Nat.sub_diag in Hl by lia.
    simplify_eq/=. by rewrite Permutation_app_comm.
  - rewrite swap_remove_snoc by lia. rewrite lookup_app_l in Hl by lia.
    rewrite insert_take_drop by lia.
    rewrite <- (take_drop_middle l' i x) at 3 by done.
    solve_Permutation.
Qed.

Lemma swap_remove_length i l :
  (i < length l)%nat -> length (swap_remove i l) = (length l - 1)%nat.
Proof.
  intros [x Hx]%lookup_lt_is_Some. apply swap_remove_perm in Hx.
  apply Permutation_length in Hx. simpl in Hx. lia.
Qed.

Lemma swap_remove_lookup_lt i j l :
  (i < length l)%nat -> (j < i)%nat -> swap_remove i l !! j = l !! j.
Proof.
  induction l as [|y l' _] using rev_ind; [done|]. rewrite length_app. simpl.
  intros Hi Hj. destruct (decide (i = length l')) as [->|].
  - rewrite swap_remove_last, lookup_app_l by lia. done.
  - rewrite swap_remove_snoc by lia.
    rewrite list_lookup_insert_ne, lookup_app_l by lia. done.
Qed.

Lemma swap_remove_split i l x :
  l !! i = Some x ->
  take i (swap_remove i l) = take i l /\ drop i (swap_remove i l) ≡ₚ drop (S i) l.
Proof.
  intros Hl. pose proof (lookup_lt_Some _ _ _ Hl) as Hlt.
  assert (Ht : take i (swap_remove i l) = take i l).
  { apply list_eq. intros j. destruct (decide (j < i)%nat).
    - rewrite !lookup_take_lt by done. by apply swap_remove_lookup_lt.
    - rewrite !lookup_take_ge by lia. done. }
  split; [done|]. pose proof (swap_remove_perm i l x Hl) as Hp.
  rewrite <- (take_drop i (swap_remove i l)), Ht in Hp.
  rewrite <- (take_drop_middle l i x Hl) in Hp at 3.
  rewrite Permutation_middle in Hp. apply Permutation_app_inv_l in Hp.
  by apply Permutation_cons_inv in Hp.
Qed.

Lemma drop_insert_next i l x : drop (S i) (<[i := x]> l) = drop (S i) l.
Proof. apply drop_insert_lt. lia. Qed.
Lemma take_insert_next i l x :
  (i < length l)%nat -> take (S i) (<[i := x]> l) = take i l ++ [x].
Proof.
  intros Hi. rewrite (take_S_r _ _ x) by (by apply list_lookup_insert_eq).
  by rewrite take_insert_ge by lia.
Qed.
End arrays.

(** ** Filters *)
Lemma filter_swap {A} (P Q : A -> Prop) `{!forall x, Decision (P x), !forall x, Decision (Q x)} (l : list A) :
  filter P (filter Q l) = filter Q (filter P l).
Proof.
  induction l as [|x l IH]; [done|]. rewrite !filter_cons.
  destruct (decide (P x)), (decide (Q x)); rewrite ?filter_cons, ?decide_True, ?decide_False by done; by rewrite ?IH.
Qed.
Lemma filter_all {A} (P : A -> Prop) `{!forall x, Decision (P x)} (l : list A) :
  (forall x, x ∈ l -> P x) -> filter P l = l.
Proof.
  induction l as [|x l IH]; intros Hl; [done|]. rewrite filter_cons, decide_True by (apply Hl; by left).
  f_equal. apply IH. intros y Hy. apply Hl. by right.
Qed.
Lemma filter_none {A} (P : A -> Prop) `{!forall x, Decision (P x)} (l : list A) :
  (forall x, x ∈ l -> ~ P x) -> filter P l = [].
Proof.
  induction l as [|x l IH]; intros Hl; [done|]. rewrite filter_cons, decide_False by (apply Hl; by left).
  apply IH. intros y Hy. apply Hl. by right.
Qed.
Lemma filter_filter {A} (f g : A -> bool) (l : list A) :
  filter (fun x => f x = false) (filter (fun x => g x = false) l) = filter (fun x => f x || g x = false) l.
Proof.
  induction l as [|x l IH]; [done|]. rewrite !filter_cons.
  destruct (decide (g x = false)) as [Hg|Hg]; rewrite ?filter_cons, IH;
    repeat case_decide; try done; destruct (f x), (g x); done.
Qed.
Lemma existsb_perm {A} (f : A -> bool) (l l' : list A) : l ≡ₚ l' -> existsb f l = existsb f l'.
Proof.
  induction 1 as [|x l l' _ IH|x y l|l l1 l2 _ IH1 _ IH2]; simpl; [done|by rewrite IH| |congruence].
  by destruct (f x), (f y).
Qed.
Lemma existsb_filter {A} (f g : A -> bool) (l : list A) :
  (forall x, f x = true -> g x = false) -> existsb f (filter (fun x => g x = false) l) = existsb f l.
Proof.
  intros Hfg. induction l as [|x l IH]; [done|]. rewrite filter_cons. destruct (g x) eqn:Hg; simpl; rewrite IH; [|done].
  destruct (f x) eqn:Hf; [|done]. apply Hfg in Hf. congruence.
Qed.

(** ** Transition sequences *)
Section steps.
Context {S : Type} (step : S -> S -> Prop).

Inductive steps : S -> S -> Prop :=
| steps_refl s : steps s s
| steps_next s1 s2 s3 : steps s1 s2 -> step s2 s3 -> steps s1 s3.

Lemma steps_trans s1 s2 s3 : steps s1 s2 -> steps s2 s3 -> steps s1 s3.
Proof. intros H. induction 1; eauto using steps. Qed.

(** An inductive invariant holds in every reachable state. *)
Lemma steps_invariant (P : S -> Prop) :
  (forall s s', P s -> step s s' -> P s') ->
  forall s s', P s -> steps s s' -> P s'.
Proof. intros Hstep s s' HP. induction 1; eauto. Qed.
End steps.
#[export] Hint Constructors steps : vmctx.

(** ** Automation

    [break] splits the boolean tests of an executable definition, in the goal
    and in the hypotheses; [break_solve] closes the branches that are
    contradictory or arithmetic. *)
Ltac break_step :=
  match goal with
  | H : context [ match ?x with _ => _ end ] |- _ =>
      lazymatch x with context [ match _ with _ => _ end ] => fail | _ => idtac end;
      destruct x eqn:?
  | |- context [ match ?x with _ => _ end ] =>
      lazymatch x with context [ match _ with _ => _ end ] => fail | _ => idtac end;
      destruct x eqn:?
  end.
Ltac break := repeat (break_step; simplify_eq/=).
Ltac break_solve := break; try done; try lia; auto with vmctx.
