(* ===== verification/Probe.v ===== *)
(** * Linear probing

    Four tables of the program are open-addressed arrays that never delete an
    entry: the ownership segment (own.h), the page-transfer table (pgstate.h),
    the shared page slots (shared-pages.h) and the broken copy-on-write pages
    (source-lineage.h).  This file holds the probe loop they all run, the
    invariant that makes it complete, and the finite map the array denotes.
    The component files instantiate it with their own entries, hash and step. *)
From S2P Require Import Prelude.

Section probe.
Context {K E : Type} `{Countable K}.
Context (used : E -> bool) (key : E -> K).
(** first probed position of a key in a table of the given capacity *)
Context (start : K -> nat -> nat).
Implicit Types (tab : list E) (stop : E -> bool) (k : K) (e : E).

(** The loop: advance until [stop].  [None] is running out of fuel (or of
    the array), which [probe_total] excludes for tables with a stop slot. *)
Fixpoint probe tab stop (next : nat -> nat) (fuel pos : nat) : option nat :=
  match fuel with
  | O => None
  | S fuel' =>
      match tab !! pos with
      | None => None
      | Some e => if stop e then Some pos else probe tab stop next fuel' (next pos)
      end
  end.

(** The position reached after [d] steps in a table of [n] slots. *)
Definition at_ (n p d : nat) : nat := (p + d) mod n.

Definition used_count tab : nat := length (filter (fun e => used e = true) tab).
Definition tab_map tab : gmap K E :=
  list_to_map ((fun e => (key e, e)) <$> filter (fun e => used e = true) tab).

(** Every entry is reachable from its start through used slots that hold
    other keys. *)
Definition chain tab : Prop :=
  forall i e, tab !! i = Some e -> used e = true ->
    (start (key e) (length tab) < length tab)%nat /\
    exists d, (d < length tab)%nat /\ i = at_ (length tab) (start (key e) (length tab)) d /\
      forall d', (d' < d)%nat -> exists e',
        tab !! at_ (length tab) (start (key e) (length tab)) d' = Some e' /\
        used e' = true /\ key e' <> key e.

Definition start_ok (n : nat) : Prop := forall k, (start k n < n)%nat.
(** The step of the loop advances by one, wrapping at [n]. *)
Definition next_ok (n : nat) (next : nat -> nat) : Prop :=
  forall p, (p < n)%nat -> next p = ((p + 1) mod n)%nat.

Lemma at_lt n p d : (0 < n)%nat -> (at_ n p d < n)%nat.
Proof. intros. unfold at_. apply Nat.mod_upper_bound. lia. Qed.
Lemma at_0 n p : (p < n)%nat -> at_ n p 0 = p.
Proof. intros. unfold at_. rewrite Nat.add_0_r. by apply Nat.mod_small. Qed.
Lemma at_next n next p d :
  next_ok n next -> (0 < n)%nat -> next (at_ n p d) = at_ n p (S d).
Proof.
  intros Hn Hpos. rewrite Hn by (by apply at_lt). unfold at_.
  rewrite Nat.Div0.add_mod_idemp_l. f_equal. lia.
Qed.
(** Every slot is met within [n] steps. *)
Lemma at_surj n p i : (p < n)%nat -> (i < n)%nat ->
  exists d, (d < n)%nat /\ at_ n p d = i.
Proof.
  intros. unfold at_. destruct (decide (p <= i)%nat).
  - exists (i - p)%nat. split; [lia|]. replace (p + (i - p))%nat with i by lia.
    by apply Nat.mod_small.
  - exists (i + n - p)%nat. split; [lia|].
    replace (p + (i + n - p))%nat with (i + 1 * n)%nat by lia.
    rewrite Nat.Div0.mod_add. by apply Nat.mod_small.
Qed.

Lemma at_case n p d : (p < n)%nat -> (d < n)%nat -> at_ n p d = if decide (p + d < n)%nat then (p + d)%nat else (p + d - n)%nat.
Proof.
  intros Hp Hd. unfold at_. case_decide as Hs; [by apply Nat.mod_small|].
  replace (p + d)%nat with (p + d - n + 1 * n)%nat at 1 by lia. rewrite Nat.Div0.mod_add. apply Nat.mod_small. lia.
Qed.
Lemma at_inj n p d d' : at_ n p d = at_ n p d' -> (p < n)%nat -> (d < n)%nat -> (d' < n)%nat -> d = d'.
Proof. intros Heq Hp Hd Hd'. rewrite !at_case in Heq by done. repeat case_decide; lia. Qed.

(** ** The loop *)
Lemma probe_run tab stop next p fuel d :
  next_ok (length tab) next -> (0 < length tab)%nat ->
  (exists d', (d <= d' < d + fuel)%nat /\
     exists e, tab !! at_ (length tab) p d' = Some e /\ stop e = true) ->
  exists d', (d <= d' < d + fuel)%nat /\
    probe tab stop next fuel (at_ (length tab) p d) = Some (at_ (length tab) p d') /\
    (exists e, tab !! at_ (length tab) p d' = Some e /\ stop e = true) /\
    forall d'', (d <= d'' < d')%nat -> exists e,
      tab !! at_ (length tab) p d'' = Some e /\ stop e = false.
Proof.
  intros Hn Hpos. revert d. induction fuel as [|fuel IH]; intros d (d' & Hd & e & He & Hs).
  { lia. }
  simpl. destruct (lookup_lt_is_Some_2 tab (at_ (length tab) p d)) as [e0 He0].
  { by apply at_lt. }
  rewrite He0. destruct (stop e0) eqn:Hs0.
  { exists d. split; [lia|]. split; [done|]. split; [eauto|]. intros. lia. }
  rewrite (at_next _ _ _ _ Hn Hpos).
  destruct (IH (S d)) as (d1 & Hd1 & Hp & Hst & Hbef).
  { exists d'. assert (d <> d') by (intros ->; congruence). split; [lia|eauto]. }
  exists d1. split; [lia|]. split; [done|]. split; [done|].
  intros d'' Hd''. destruct (decide (d'' = d)) as [->|]; [eauto|]. apply Hbef. lia.
Qed.

(** A table with one stopping slot answers every probe within [length]
    steps, with the first stopping slot of the cyclic order. *)
Lemma probe_total tab stop next p i e :
  next_ok (length tab) next -> (p < length tab)%nat ->
  tab !! i = Some e -> stop e = true ->
  exists d, (d < length tab)%nat /\
    probe tab stop next (length tab) p = Some (at_ (length tab) p d) /\
    (exists e, tab !! at_ (length tab) p d = Some e /\ stop e = true) /\
    forall d', (d' < d)%nat -> exists e,
      tab !! at_ (length tab) p d' = Some e /\ stop e = false.
Proof.
  intros Hn Hp Hi Hs.
  destruct (at_surj (length tab) p i) as (d0 & Hd0 & Heq).
  { done. } { by eapply lookup_lt_Some. }
  destruct (probe_run tab stop next p (length tab) 0) as (d & Hd & Hpr & Hst & Hb).
  { done. } { lia. } { exists d0. rewrite Heq. split; [lia|eauto]. }
  rewrite at_0 in Hpr by done. exists d. split; [lia|].
  split; [done|]. split; [done|]. intros. apply Hb. lia.
Qed.

Lemma probe_stop tab stop next fuel p j :
  probe tab stop next fuel p = Some j -> exists e, tab !! j = Some e /\ stop e = true.
Proof. revert p. induction fuel; intros p Hp; simpl in Hp; [done|]. repeat case_match; naive_solver. Qed.

(** A probe that gives up has seen the whole table without a stop. *)
Lemma probe_exhausted tab stop next p i e :
  next_ok (length tab) next -> (p < length tab)%nat ->
  probe tab stop next (length tab) p = None -> tab !! i = Some e -> stop e = false.
Proof.
  intros Hn Hp Hnone Hi. destruct (stop e) eqn:Hs; [|done].
  destruct (probe_total tab stop next p i e Hn Hp Hi Hs) as (d & _ & Hsome & _). congruence.
Qed.

(** ** Reading the map *)
Lemma chain_unique tab i j ei ej :
  chain tab -> tab !! i = Some ei -> tab !! j = Some ej ->
  used ei = true -> used ej = true -> key ei = key ej -> i = j.
Proof.
  intros Hc Hi Hj Hui Huj Hk.
  destruct (Hc i ei Hi Hui) as (_ & di & _ & -> & Hdi).
  destruct (Hc j ej Hj Huj) as (_ & dj & _ & -> & Hdj).
  rewrite <- Hk in *.
  destruct (lt_eq_lt_dec di dj) as [[Hlt| ->]|Hlt]; [exfalso|done|exfalso].
  - destruct (Hdj di Hlt) as (e' & He' & _ & Hne). congruence.
  - destruct (Hdi dj Hlt) as (e' & He' & _ & Hne). congruence.
Qed.

Definition used_entry tab k e : Prop :=
  exists i, tab !! i = Some e /\ used e = true /\ key e = k.

Lemma chain_nodup_keys tab :
  chain tab -> NoDup (key <$> filter (fun e => used e = true) tab).
Proof.
  intros Hc.
  assert (Hinj : forall i j ei ej, tab !! i = Some ei -> tab !! j = Some ej ->
    used ei = true -> used ej = true -> key ei = key ej -> i = j)
    by eauto using chain_unique. clear Hc.
  induction tab as [|e tab IH]; [constructor|].
  rewrite filter_cons. case_decide as Hu.
  - rewrite fmap_cons. constructor.
    + intros (e' & Hk & He')%list_elem_of_fmap.
      apply list_elem_of_filter in He' as [Hu' [j Hj]%list_elem_of_lookup].
      specialize (Hinj 0%nat (S j) e e' eq_refl Hj Hu Hu' Hk). lia.
    + apply IH. intros i j ei ej Hi Hj ? ? ?.
      specialize (Hinj (S i) (S j) ei ej Hi Hj). naive_solver lia.
  - apply IH. intros i j ei ej Hi Hj ? ? ?.
    specialize (Hinj (S i) (S j) ei ej Hi Hj). naive_solver lia.
Qed.

Lemma tab_map_spec tab k e :
  chain tab -> tab_map tab !! k = Some e <-> used_entry tab k e.
Proof.
  intros Hc. unfold tab_map. rewrite <- elem_of_list_to_map.
  - rewrite list_elem_of_fmap. unfold used_entry. split.
    + intros (e' & [= -> ->] & [Hu [i Hi]%list_elem_of_lookup]%list_elem_of_filter). eauto.
    + intros (i & Hi & Hu & <-). exists e. split; [done|].
      apply list_elem_of_filter. split; [done|]. apply list_elem_of_lookup. eauto.
  - rewrite <- list_fmap_compose. by apply chain_nodup_keys.
Qed.

Lemma tab_map_none tab k :
  chain tab -> tab_map tab !! k = None <-> forall e, ~ used_entry tab k e.
Proof.
  intros Hc. rewrite eq_None_not_Some. split.
  - intros Hn e He. apply Hn. exists e. by apply tab_map_spec.
  - intros Hn [e He%tab_map_spec]; [by eapply Hn|done].
Qed.

(** The outcome of the search for [k]: its entry; or a free slot that ends
    its chain, and the map has no binding; or no slot at all. *)
Definition search tab next k : option nat :=
  probe tab (fun e => negb (used e) || bool_decide (key e = k)) next
    (length tab) (start k (length tab)).
Definition chain_end tab k (j : nat) : Prop :=
  exists d, (d < length tab)%nat /\ j = at_ (length tab) (start k (length tab)) d /\
    forall d', (d' < d)%nat -> exists e',
      tab !! at_ (length tab) (start k (length tab)) d' = Some e' /\
      used e' = true /\ key e' <> k.

Lemma search_spec tab next k :
  start_ok (length tab) -> chain tab -> next_ok (length tab) next ->
  match search tab next k with
  | Some j => exists e, tab !! j = Some e /\
      (used e = true /\ key e = k /\ tab_map tab !! k = Some e \/
       used e = false /\ tab_map tab !! k = None /\ chain_end tab k j)
  | None => tab_map tab !! k = None /\ forall i e, tab !! i = Some e -> used e = true
  end.
Proof.
  intros Hs Hc Hn. destruct (search tab next k) as [j|] eqn:Hp; unfold search in Hp; cycle 1.
  { assert (Hno : forall i e, tab !! i = Some e -> used e = true /\ key e <> k).
    { intros i e Hi. eapply probe_exhausted in Hp; [|done|apply Hs|done].
      apply orb_false_iff in Hp as [Hu%negb_false_iff Hk%bool_decide_eq_false]. done. }
    split; [|intros i e Hi; apply (Hno i e Hi)]. apply tab_map_none; [done|].
    intros e (i & Hi & _ & Hk). by apply (Hno i e Hi). }
  destruct (probe_stop _ _ _ _ _ _ Hp) as (e & He & Hst).
  destruct (probe_total tab (fun e => negb (used e) || bool_decide (key e = k))
    next (start k (length tab)) j e Hn (Hs k) He Hst) as (d & Hd & Hp' & _ & Hb).
  assert (j = at_ (length tab) (start k (length tab)) d) as Hj by congruence.
  assert (Hend : chain_end tab k j).
  { exists d. split; [done|]. split; [done|]. intros d' Hd'. destruct (Hb d' Hd') as (e' & He' & Hf).
    exists e'. apply orb_false_iff in Hf as [Hf1%negb_false_iff Hf2%bool_decide_eq_false]. done. }
  exists e. split; [done|]. destruct (used e) eqn:Hu; simpl in Hst.
  - apply bool_decide_eq_true in Hst. left. split; [done|]. split; [done|].
    apply tab_map_spec; [done|]. eexists. eauto.
  - right. split; [done|]. split; [|done]. apply tab_map_none; [done|].
    intros e2 (i2 & Hi2 & Hu2 & Hk2). destruct Hend as (d0 & _ & Hj0 & Hbef).
    destruct (Hc i2 e2 Hi2 Hu2) as (_ & d2 & _ & -> & Hd2). rewrite Hk2 in *.
    destruct (lt_eq_lt_dec d2 d0) as [[Hlt| ->]|Hlt].
    + destruct (Hbef d2 Hlt) as (e' & He' & _ & Hne). congruence.
    + congruence.
    + destruct (Hd2 d0 Hlt) as (e' & He' & Hu' & _). congruence.
Qed.

Lemma used_count_full tab :
  (forall i e, tab !! i = Some e -> used e = true) -> used_count tab = length tab.
Proof.
  induction tab as [|e tab IH]; intros Hall; [done|]. unfold used_count in *.
  rewrite filter_cons_True by (by apply (Hall 0%nat)). simpl. f_equal. apply IH.
  intros i e' Hi. by apply (Hall (S i)).
Qed.

(** With a free slot the search always ends on a slot. *)
Lemma search_room tab next k :
  start_ok (length tab) -> chain tab -> next_ok (length tab) next ->
  (used_count tab < length tab)%nat ->
  exists j e, search tab next k = Some j /\ tab !! j = Some e /\
    (used e = true /\ key e = k /\ tab_map tab !! k = Some e \/
     used e = false /\ tab_map tab !! k = None /\ chain_end tab k j).
Proof.
  intros Hs Hc Hn Hcnt. pose proof (search_spec tab next k Hs Hc Hn) as Hsp.
  destruct (search tab next k) as [j|]; [destruct Hsp as (e & ?); eauto|].
  destruct Hsp as [_ Hall]. apply used_count_full in Hall. lia.
Qed.

(** ** Writing entries *)
Lemma chain_insert tab j e0 e :
  chain tab -> start_ok (length tab) ->
  tab !! j = Some e0 -> used e0 = false -> used e = true -> chain_end tab (key e) j ->
  chain (<[j := e]> tab).
Proof.
  intros Hc Hst Hj He0 He (d & Hd & -> & Hbef) i ei Hi Hu. rewrite length_insert.
  set (n := length tab) in *.
  assert (Hkeep : forall p e', tab !! p = Some e' -> used e' = true ->
    <[at_ n (start (key e) n) d := e]> tab !! p = Some e').
  { intros p e' Hp Hue'. rewrite list_lookup_insert_ne; [done|]. intros <-. congruence. }
  apply list_lookup_insert_Some in Hi as [(<- & <- & Hlt)|[Hne Hi]].
  - split; [apply Hst|]. exists d. split; [done|]. split; [done|].
    intros d' Hd'. destruct (Hbef d' Hd') as (e' & He' & Hu' & Hk'). eauto.
  - destruct (Hc i ei Hi Hu) as (Hs & d1 & Hd1 & -> & Hd1b). split; [done|].
    exists d1. split; [done|]. split; [done|].
    intros d' Hd'. destruct (Hd1b d' Hd') as (e' & He' & Hu' & Hk'). eauto.
Qed.

Lemma chain_update tab j e0 e :
  chain tab -> tab !! j = Some e0 -> used e0 = true -> used e = true -> key e = key e0 ->
  chain (<[j := e]> tab).
Proof.
  intros Hc Hj He0 He Hk.
  assert (Hkeep : forall p e', tab !! p = Some e' -> used e' = true -> exists e'',
    <[j := e]> tab !! p = Some e'' /\ used e'' = true /\ key e'' = key e').
  { intros p e' Hp Hu'. destruct (decide (j = p)) as [<-|].
    - exists e. rewrite list_lookup_insert_eq by (by eapply lookup_lt_Some).
      split; [done|]. split; [done|]. congruence.
    - exists e'. by rewrite list_lookup_insert_ne. }
  intros i ei Hi Hu. rewrite length_insert.
  assert (exists eo, tab !! i = Some eo /\ used eo = true /\ key eo = key ei) as (eo & Ho & Huo & Hko).
  { apply list_lookup_insert_Some in Hi as [(<- & <- & _)|[_ Hi]]; eauto. }
  destruct (Hc i eo Ho Huo) as (Hs & d & Hd & Hi' & Hdb). rewrite Hko in *.
  split; [done|]. exists d. split; [done|]. split; [done|].
  intros d' Hd'. destruct (Hdb d' Hd') as (e' & He' & Hu' & Hk').
  destruct (Hkeep _ _ He' Hu') as (e'' & He'' & Hu'' & Hk''). exists e''. naive_solver congruence.
Qed.

(** A write that introduces a key or keeps the slot's key is the map's
    insertion. *)
Lemma tab_map_write tab j e0 e :
  chain tab -> chain (<[j := e]> tab) -> tab !! j = Some e0 ->
  (used e0 = true -> key e0 = key e) -> used e = true ->
  tab_map (<[j := e]> tab) = <[key e := e]> (tab_map tab).
Proof.
  intros Hc Hc' Hj Hk He. apply map_eq. intros k. apply option_eq. intros e'.
  rewrite tab_map_spec by done.
  pose proof (lookup_lt_Some _ _ _ Hj) as Hlt. split.
  - intros (i & Hi & Hu & Hk'). destruct (decide (k = key e)) as [->|Hne].
    + rewrite lookup_insert_eq. f_equal.
      assert (i = j) as ->; [|rewrite list_lookup_insert_eq in Hi; congruence].
      eapply (chain_unique (<[j := e]> tab)); eauto using list_lookup_insert_eq.
    + rewrite lookup_insert_ne by done. apply tab_map_spec; [done|].
      apply list_lookup_insert_Some in Hi as [(_ & -> & _)|[_ Hi]]; [done|].
      exists i. eauto.
  - rewrite lookup_insert_Some. intros [[<- <-]|[Hne He']].
    + exists j. eauto using list_lookup_insert_eq.
    + apply tab_map_spec in He' as (i & Hi & Hu & <-); [|done]. exists i.
      rewrite list_lookup_insert_ne; [done|]. intros <-. naive_solver congruence.
Qed.

Lemma used_count_write tab j e0 e :
  tab !! j = Some e0 -> used e = true ->
  used_count (<[j := e]> tab) = (used_count tab + if used e0 then 0 else 1)%nat.
Proof.
  intros Hj He. unfold used_count. rewrite insert_take_drop by (by eapply lookup_lt_Some).
  rewrite <- (take_drop_middle tab j e0) at 3 by done.
  rewrite !list.filter_app, !length_app, !filter_cons, (decide_True _ _ He).
  destruct (used e0) eqn:Hu; simpl; lia.
Qed.

Lemma used_count_size tab : chain tab -> size (tab_map tab) = used_count tab.
Proof.
  intros Hc. unfold tab_map, used_count. rewrite map_size_list_to_map.
  - by rewrite length_fmap.
  - rewrite <- list_fmap_compose. by apply chain_nodup_keys.
Qed.

(** ** Dead entries

    A slot whose entry may be dropped can be taken over by an absent key whose
    chain it lies on: it stays used, so every other chain through it holds. *)
Lemma chain_replace tab j e0 e :
  chain tab -> start_ok (length tab) -> tab !! j = Some e0 -> used e0 = true -> used e = true ->
  chain_end tab (key e) j -> tab_map tab !! key e = None -> chain (<[j := e]> tab).
Proof.
  intros Hc Hst Hj He0 He (d & Hd & Hjd & Hbef) Hnew i ei Hi Hu. rewrite length_insert.
  set (n := length tab) in *.
  assert (Hkeep : forall k p e', k <> key e -> tab !! p = Some e' -> used e' = true -> key e' <> k -> exists e'',
    <[j := e]> tab !! p = Some e'' /\ used e'' = true /\ key e'' <> k).
  { intros k p e' Hk Hp Hue' Hke'. destruct (decide (j = p)) as [<-|].
    - exists e. rewrite list_lookup_insert_eq by (by eapply lookup_lt_Some). done.
    - exists e'. by rewrite list_lookup_insert_ne. }
  apply list_lookup_insert_Some in Hi as [(<- & <- & Hlt)|[Hne Hi]].
  - split; [apply Hst|]. exists d. split; [done|]. split; [done|]. intros d' Hd'.
    destruct (Hbef d' Hd') as (e' & He' & Hu' & Hk'). exists e'. split; [|done]. rewrite list_lookup_insert_ne; [done|].
    intros Heq. subst j. apply at_inj in Heq; [lia|apply Hst|done|unfold n in *; lia].
  - destruct (Hc i ei Hi Hu) as (Hs & d1 & Hd1 & -> & Hd1b). split; [done|].
    exists d1. split; [done|]. split; [done|]. intros d' Hd'. destruct (Hd1b d' Hd') as (e' & He' & Hu' & Hk').
    eapply Hkeep; [|done|done|done]. intros Hk. apply (proj1 (tab_map_none tab (key e) Hc) Hnew ei). eexists. eauto.
Qed.
Lemma tab_map_replace tab j e0 e :
  chain tab -> chain (<[j := e]> tab) -> tab !! j = Some e0 -> used e0 = true -> used e = true ->
  tab_map tab !! key e = None -> tab_map (<[j := e]> tab) = <[key e := e]> (delete (key e0) (tab_map tab)).
Proof.
  intros Hc Hc' Hj He0 He Hnew. pose proof (lookup_lt_Some _ _ _ Hj) as Hlt. apply map_eq. intros k. apply option_eq. intros e'.
  rewrite tab_map_spec by done. split.
  - intros (i & Hi & Hu & Hk). apply list_lookup_insert_Some in Hi as [(<- & <- & _)|[Hne Hi]].
    + subst k. by rewrite lookup_insert_eq.
    + assert (Hm : tab_map tab !! k = Some e') by (apply tab_map_spec; [done|]; eexists; eauto).
      rewrite lookup_insert_ne by congruence. rewrite lookup_delete_ne; [done|]. intros Hk0. apply Hne.
      eapply (chain_unique tab); eauto. congruence.
  - rewrite lookup_insert_Some, lookup_delete_Some. intros [[<- <-]|(Hne & Hk0 & Hm)].
    + exists j. eauto using list_lookup_insert_eq.
    + apply tab_map_spec in Hm as (i & Hi & Hu & <-); [|done]. exists i. rewrite list_lookup_insert_ne; [done|].
      intros <-. congruence.
Qed.
(** An update of every entry in place. *)
Lemma chain_fmap (f : E -> E) tab :
  (forall e, used (f e) = used e) -> (forall e, key (f e) = key e) -> chain tab ->
  chain (f <$> tab) /\ tab_map (f <$> tab) = f <$> tab_map tab.
Proof.
  intros Hu Hk Hc. assert (Hc' : chain (f <$> tab)).
  { intros i e Hi He. rewrite length_fmap. rewrite list_lookup_fmap in Hi. apply fmap_Some in Hi as (e0 & Hi & ->).
    rewrite Hu in He. rewrite !Hk. destruct (Hc i e0 Hi He) as (Hs & d & Hd & Hid & Hb). split; [done|]. exists d.
    split; [done|]. split; [done|]. intros d' Hd'. destruct (Hb d' Hd') as (e' & He' & Hue' & Hke').
    exists (f e'). rewrite list_lookup_fmap, He', Hu, Hk. done. }
  split; [done|]. apply map_eq. intros k. apply option_eq. intros e. rewrite tab_map_spec, lookup_fmap, fmap_Some by done.
  setoid_rewrite (fun e => tab_map_spec tab k e Hc). split.
  - intros (i & Hi & He & Hke). rewrite list_lookup_fmap in Hi. apply fmap_Some in Hi as (e0 & Hi & ->).
    rewrite Hu in He. rewrite Hk in Hke. exists e0. split; [|done]. exists i. done.
  - intros (e0 & (i & Hi & He & Hke) & ->). exists i. by rewrite list_lookup_fmap, Hi, Hu, Hk.
Qed.

(** ** Growth

    The growth loops insert each used entry of the old array at the first
    free slot of the fresh one, without comparing keys. *)
Definition place (next : nat -> nat) tab e : option (list E) :=
  match probe tab (fun e' => negb (used e')) next (length tab) (start (key e) (length tab)) with
  | Some j => Some (<[j := e]> tab)
  | None => None
  end.
Fixpoint rehash (next : nat -> nat) (old : list E) tab : option (list E) :=
  match old with
  | [] => Some tab
  | e :: old' =>
      if used e
      then match place next tab e with Some tab' => rehash next old' tab' | None => None end
      else rehash next old' tab
  end.

(** For a key the map does not bind, the first free slot ends its chain. *)
Lemma probe_free tab next k :
  start_ok (length tab) -> chain tab -> next_ok (length tab) next ->
  (used_count tab < length tab)%nat -> tab_map tab !! k = None ->
  exists j e, probe tab (fun e' => negb (used e')) next (length tab) (start k (length tab)) = Some j /\
    tab !! j = Some e /\ used e = false /\ chain_end tab k j.
Proof.
  intros Hs Hc Hn Hcnt Hfresh.
  destruct (search_room tab next k Hs Hc Hn Hcnt) as
    (j & e1 & _ & Hj & [(Hu & Hk & Hm)|(Hu & _ & _)]); [congruence|].
  destruct (probe_total tab (fun e' => negb (used e')) next (start k (length tab)) j e1)
    as (d & Hd & Hp & (e2 & He2 & Hst) & Hb); try done. { by rewrite Hu. }
  apply negb_true_iff in Hst. exists (at_ (length tab) (start k (length tab)) d), e2.
  repeat (split; [done|]). exists d. repeat (split; [done|]). intros d' Hd'.
  destruct (Hb d' Hd') as (e' & He' & Hu'). apply negb_false_iff in Hu'.
  exists e'. split; [done|]. split; [done|]. intros Hk.
  apply (proj1 (tab_map_none _ _ Hc) Hfresh e'). eexists; eauto.
Qed.

Lemma place_spec next tab e :
  start_ok (length tab) -> chain tab -> next_ok (length tab) next ->
  (used_count tab < length tab)%nat -> used e = true -> tab_map tab !! key e = None ->
  exists tab', place next tab e = Some tab' /\ chain tab' /\ length tab' = length tab /\
    tab_map tab' = <[key e := e]> (tab_map tab) /\ used_count tab' = S (used_count tab).
Proof.
  intros Hs Hc Hn Hcnt He Hfresh. unfold place.
  destruct (probe_free tab next (key e)) as (j & e0 & -> & Hj & Hu & Hend); auto.
  eexists. split; [done|].
  assert (Hchain : chain (<[j := e]> tab)) by (eapply chain_insert; eauto).
  split; [done|]. split; [apply length_insert|]. split.
  - eapply tab_map_write; eauto. congruence.
  - erewrite used_count_write by eauto. rewrite Hu. lia.
Qed.

Lemma used_count_cons e tab :
  used_count (e :: tab) = ((if used e then 1 else 0) + used_count tab)%nat.
Proof. unfold used_count. rewrite filter_cons. by destruct (used e). Qed.
Lemma tab_map_cons e tab :
  tab_map (e :: tab) = if used e then <[key e := e]> (tab_map tab) else tab_map tab.
Proof. unfold tab_map. rewrite filter_cons. by destruct (used e). Qed.
Lemma tab_map_fresh_key tab k :
  k ∉ key <$> filter (fun e => used e = true) tab -> tab_map tab !! k = None.
Proof. intros. apply not_elem_of_list_to_map. by rewrite <- list_fmap_compose. Qed.

Lemma rehash_spec next old tab :
  start_ok (length tab) -> chain tab -> next_ok (length tab) next ->
  NoDup (key <$> filter (fun e => used e = true) old) ->
  (forall e, e ∈ old -> used e = true -> tab_map tab !! key e = None) ->
  (used_count old + used_count tab <= length tab)%nat ->
  exists tab', rehash next old tab = Some tab' /\ chain tab' /\ length tab' = length tab /\
    tab_map tab' = tab_map old ∪ tab_map tab /\
    used_count tab' = (used_count old + used_count tab)%nat.
Proof.
  revert tab. induction old as [|e old IH]; intros tab Hs Hc Hn Hnd Hdisj Hcnt; simpl.
  { exists tab. change (tab_map []) with (∅ : gmap K E). rewrite (left_id_L ∅ (∪)). done. }
  rewrite used_count_cons in *. rewrite tab_map_cons.
  rewrite filter_cons in Hnd. destruct (used e) eqn:Hu; simpl in *.
  - apply NoDup_cons in Hnd as [Hne Hnd].
    destruct (place_spec next tab e) as (tab1 & -> & Hc1 & Hl1 & Hm1 & Hu1);
      auto with lia. { apply Hdisj; [constructor|done]. }
    rewrite <- Hl1 in Hn, Hs.
    destruct (IH tab1) as (tab' & Hr & Hc' & Hl' & Hm' & Hu'); auto with lia.
    { intros e' He' Hue'. rewrite Hm1, lookup_insert_ne.
      - apply Hdisj; [by constructor|done].
      - intros Hk. apply Hne. rewrite Hk. apply list_elem_of_fmap. exists e'. split; [done|].
        by apply list_elem_of_filter. }
    exists tab'. split; [done|]. split; [done|]. split; [congruence|]. split; [|lia].
    rewrite Hm', Hm1, <- insert_union_r, <- insert_union_l; [done|].
    by apply tab_map_fresh_key.
  - destruct (IH tab) as (tab' & Hr & Hc' & Hl' & Hm' & Hu'); auto with lia.
    { intros e' He' Hue'. apply Hdisj; [by constructor|done]. }
    exists tab'. eauto 10.
Qed.

(** A fresh (all unused) array. *)
Lemma chain_fresh n e : used e = false -> chain (replicate n e).
Proof. intros He i e' [-> _]%lookup_replicate Hu. congruence. Qed.
Lemma fresh_filter n e : used e = false -> filter (fun e => used e = true) (replicate n e) = [].
Proof.
  intros He. induction n; simpl; [done|]. rewrite filter_cons_False by congruence. done.
Qed.
Lemma tab_map_fresh n e : used e = false -> tab_map (replicate n e) = ∅.
Proof. intros He. unfold tab_map. by rewrite fresh_filter. Qed.
Lemma used_count_fresh n e : used e = false -> used_count (replicate n e) = 0%nat.
Proof. intros He. unfold used_count. by rewrite fresh_filter. Qed.

(** Growing a table keeps its map, for any capacity that holds it. *)
Lemma rehash_fresh next tab n e :
  start_ok n -> chain tab -> next_ok n next -> used e = false -> (used_count tab <= n)%nat ->
  exists tab', rehash next tab (replicate n e) = Some tab' /\ chain tab' /\ length tab' = n /\
    tab_map tab' = tab_map tab /\ used_count tab' = used_count tab.
Proof.
  intros Hs Hc Hn He Hcnt.
  destruct (rehash_spec next tab (replicate n e)) as (tab' & ? & ? & Hl & Hm & Hu);
    rewrite ?length_replicate in *; auto using chain_fresh, chain_nodup_keys.
  { intros. by rewrite tab_map_fresh. }
  { rewrite used_count_fresh by done. lia. }
  exists tab'. rewrite tab_map_fresh, (right_id_L ∅ (∪)) in Hm by done.
  rewrite used_count_fresh, Nat.add_0_r in Hu by done. auto.
Qed.
End probe.

(** ** The masked step

    [(pos + 1) & (cap - 1)], and the start [h & (cap - 1)], on a power of two. *)
Definition mask_next (cap pos : nat) : nat :=
  Z.to_nat ((Z.of_nat pos + 1) .& (Z.of_nat cap - 1)).
Definition mask_start (h : Z) (cap : nat) : nat := Z.to_nat (h .& (Z.of_nat cap - 1)).
Definition pow2 (n : nat) : Prop := exists k : nat, n = (2 ^ k)%nat.

Lemma pow2_Z (n : nat) : pow2 n -> exists k, 0 <= k /\ Z.of_nat n = 2 ^ k.
Proof. intros [k ->]. exists (Z.of_nat k). rewrite Nat2Z.inj_pow. split; [lia|done]. Qed.
Lemma pow2_pos n : pow2 n -> (0 < n)%nat.
Proof. intros [k ->]. apply Nat.neq_0_lt_0, Nat.pow_nonzero. lia. Qed.
Lemma pow2_double n : pow2 n -> pow2 (n * 2).
Proof. intros [k ->]. exists (S k). rewrite Nat.pow_succ_r'. lia. Qed.

Lemma mask_next_ok n : pow2 n -> next_ok n (mask_next n).
Proof.
  intros Hp p Hlt. destruct (pow2_Z n Hp) as (k & Hk & Hn). unfold mask_next.
  rewrite Hn, land_mask_mod, <- Hn by done. pose proof (pow2_pos n Hp).
  rewrite <- (Nat2Z.id (((p + 1) mod n)%nat)), Nat2Z.inj_mod by lia. f_equal. f_equal. lia.
Qed.
Lemma mask_start_lt h n : pow2 n -> (mask_start h n < n)%nat.
Proof.
  intros Hp. destruct (pow2_Z n Hp) as (k & Hk & Hn). unfold mask_start.
  rewrite Hn, land_mask_mod, <- Hn by done. pose proof (pow2_pos n Hp).
  pose proof (Z.mod_pos_bound h (Z.of_nat n)). lia.
Qed.

(** ** Half-full tables

    The discipline of three of the tables: the capacity is 0 or a power of
    two, at most half of the slots are used, and growth doubles it. *)
Section half.
Context {K E : Type} `{Countable K}.
Context (used : E -> bool) (key : E -> K) (hash : K -> Z) (zero : E) (Hzero : used zero = false).
Implicit Types (tab : list E) (k : K) (e : E).

Definition half_start k (cap : nat) : nat := mask_start (hash k) cap.
Record half_ok tab : Prop := {
  ho_cap : length tab = 0%nat \/ pow2 (length tab) /\ (2 <= length tab)%nat;
  ho_chain : chain used key half_start tab;
  ho_load : (used_count used tab <= length tab / 2)%nat
}.

Lemma half_start_ok n : pow2 n -> start_ok half_start n.
Proof. intros Hn k. by apply mask_start_lt. Qed.

Lemma half_nil : half_ok [].
Proof. split; [by left| |done]. intros i e Hi. by rewrite lookup_nil in Hi. Qed.

(** A non-empty table has a free slot, so every probe of it ends. *)
Lemma half_room tab :
  half_ok tab -> length tab <> 0%nat ->
  (used_count used tab < length tab)%nat /\ pow2 (length tab) /\
  start_ok half_start (length tab) /\ next_ok (length tab) (mask_next (length tab)).
Proof.
  intros [[?|[Hp H2]] _ Hl] Hne; [done|]. pose proof (Nat.div_lt (length tab) 2).
  split; [lia|]. split; [done|]. split; [by apply half_start_ok|by apply mask_next_ok].
Qed.

Lemma half_grow tab init :
  half_ok tab -> pow2 init -> (4 <= init)%nat ->
  let cap := if (length tab =? 0)%nat then init else (length tab * 2)%nat in
  exists tab', rehash used key half_start (mask_next cap) tab (replicate cap zero) = Some tab' /\
    half_ok tab' /\ length tab' = cap /\ tab_map used key tab' = tab_map used key tab /\
    used_count used tab' = used_count used tab /\ (used_count used tab' < cap / 2)%nat.
Proof.
  intros [Hcap Hch Hl] Hpi Hi cap.
  assert (Hp : pow2 cap /\ (2 <= cap)%nat /\ (used_count used tab < cap / 2)%nat).
  { subst cap. destruct (Nat.eqb_spec (length tab) 0) as [Hz|Hz].
    - rewrite Hz in *. change (0 / 2)%nat with 0%nat in *. split; [done|]. split; [lia|].
      apply Nat.le_lt_trans with 0%nat; [done|]. apply Nat.div_str_pos. lia.
    - destruct Hcap as [?|[Hp ?]]; [done|]. split; [by apply pow2_double|].
      rewrite Nat.div_mul by lia. pose proof (Nat.div_lt (length tab) 2). lia. }
  destruct Hp as (Hp & H2 & Hroom).
  destruct (rehash_fresh used key half_start (mask_next cap) tab cap zero)
    as (tab' & -> & Hc & Hlen & Hm & Hu); auto using half_start_ok, mask_next_ok.
  { pose proof (Nat.div_lt cap 2). lia. }
  exists tab'. split; [done|]. split; [|rewrite Hu; auto].
  split; [right; by rewrite Hlen|done|rewrite Hu, Hlen; lia].
Qed.

(** Placing an entry with a new key at the free slot its probe ends on. *)
Lemma half_insert tab e :
  half_ok tab -> (used_count used tab < length tab / 2)%nat -> used e = true ->
  tab_map used key tab !! key e = None ->
  exists j, probe tab (fun e' => negb (used e')) (mask_next (length tab)) (length tab)
      (half_start (key e) (length tab)) = Some j /\
    half_ok (<[j := e]> tab) /\ length (<[j := e]> tab) = length tab /\
    tab_map used key (<[j := e]> tab) = <[key e := e]> (tab_map used key tab) /\
    used_count used (<[j := e]> tab) = S (used_count used tab).
Proof.
  intros Hok Hl He Hnew. assert (Hne : length tab <> 0%nat).
  { intros Hz. rewrite Hz in Hl. by apply Nat.nlt_0_r in Hl. }
  destruct (half_room tab Hok Hne) as (Hr & Hp & Hs & Hn).
  pose proof (place_spec used key half_start (mask_next (length tab)) tab e Hs (ho_chain _ Hok) Hn
    Hr He Hnew) as (tab' & Hpl & Hc & Hlen & Hm & Hu).
  unfold place in Hpl. destruct (probe _ _ _ _ _) as [j|]; [|done]. simplify_eq.
  exists j. split; [done|]. split; [|by auto].
  split; [rewrite Hlen; apply Hok|done|rewrite Hu, Hlen; lia].
Qed.
End half.
