(* ===== verification/PgState.v ===== *)
(** * The page-transfer table of the executor (user/pgstate.h)

    Process-local exclusion for page transfers: one slot per (address space,
    page), a transient state while a hand-off is in flight, and an episode
    number that names one acquisition.  The whole header is modelled: the
    hash, growth, the search, claims, completion and the scoped release.

    Each function holds [pgstate_mx] for its whole body, so it is one step on
    the table; [steps] below interleaves the steps of all workers. *)
From S2P Require Import Prelude Probe.

Module PgState.

(** ** Data *)
Inductive pg_st :=
| PST_INVALID | PST_SHARED | PST_OWNED
| PST_UNINSTALLING | PST_TRANSFERRING | PST_DOWNGRADING | PST_REQUESTING.
#[global] Instance pg_st_eq_dec : EqDecision pg_st.
Proof. solve_decision. Defined.

(** The enum's numbering; callers pass it as a C integer. *)
Definition pg_st_code (s : pg_st) : Z :=
  match s with
  | PST_INVALID => 0 | PST_SHARED => 1 | PST_OWNED => 2 | PST_UNINSTALLING => 3
  | PST_TRANSFERRING => 4 | PST_DOWNGRADING => 5 | PST_REQUESTING => 6
  end.
Definition pg_st_of (z : Z) : option pg_st :=
  match z with
  | 0 => Some PST_INVALID | 1 => Some PST_SHARED | 2 => Some PST_OWNED
  | 3 => Some PST_UNINSTALLING | 4 => Some PST_TRANSFERRING
  | 5 => Some PST_DOWNGRADING | 6 => Some PST_REQUESTING | _ => None
  end.

Definition pg_transient (code : Z) : bool := 3 <=? code.

Record pg_slot := mk_slot {
  ps_as : Z; ps_page : Z; ps_episode : Z; ps_st : pg_st; ps_used : bool }.
Record pg_claim := mk_claim {
  pc_as : Z; pc_page : Z; pc_episode : Z; pc_prior : pg_st }.
Record pgstate := mk_pgstate {
  pgstate_tab : list pg_slot; pgstate_capacity : nat;
  pgstate_used : nat; pgstate_grows : nat }.
Definition pgstate_init : pgstate := mk_pgstate [] 0 0 0.

Definition PGSTATE_N : nat := 2 ^ 13.
Definition SIZE_MAX : Z := 2 ^ 64 - 1.
Definition sizeof_pg_slot : Z := 32.
(** a slot of [calloc]ed memory *)
Definition slot_zero : pg_slot := mk_slot 0 0 0 PST_INVALID false.
Definition claim_zero : pg_claim := mk_claim 0 0 0 PST_INVALID.

(** ** Operations *)
Definition pg_slot_hash (as_ page : Z) : Z :=
  let h := u64 (as_ * 1099511628211) .^ u64 ((page .>> 12) * 14695981039346656037) in
  let h := h .^ (h .>> 33) in
  let h := u64 (h * 0xff51afd7ed558ccd) in
  h .^ (h .>> 33).

Definition slot_key (s : pg_slot) : Z * Z := (ps_as s, ps_page s).
Definition slot_start (k : Z * Z) (cap : nat) : nat :=
  mask_start (pg_slot_hash (fst k) (snd k)) cap.

Section ops.
(** whether [calloc] of this many slots succeeds *)
Context (alloc : nat -> bool).

Definition pgstate_grow (s : pgstate) : result pgstate :=
  if SIZE_MAX / 2 / sizeof_pg_slot <? Z.of_nat (pgstate_capacity s) then Aborted
  else
    let cap := if (pgstate_capacity s =? 0)%nat then PGSTATE_N else (pgstate_capacity s * 2)%nat in
    if negb (alloc cap) then Aborted
    else
      match rehash ps_used slot_key slot_start (mask_next cap)
              (pgstate_tab s) (replicate cap slot_zero) with
      | None => Hung
      | Some next => Ok (mk_pgstate next cap (pgstate_used s) (S (pgstate_grows s)))
      end.

(** Returns the index of the slot, or [None] for NULL. *)
Definition pg_slot_find (as_ page : Z) (create : bool) (s : pgstate)
  : result (pgstate * option nat) :=
  let page := page_base page in
  let h := pg_slot_hash as_ page in
  if (pgstate_capacity s =? 0)%nat && negb create then Ok (s, None)
  else
    let! s := if (pgstate_capacity s =? 0)%nat then pgstate_grow s else Ok s in
    match probe (pgstate_tab s)
            (fun e => negb (ps_used e) || bool_decide (slot_key e = (as_, page)))
            (mask_next (pgstate_capacity s)) (pgstate_capacity s)
            (mask_start h (pgstate_capacity s)) with
    | None => Hung
    | Some pos =>
        if match pgstate_tab s !! pos with Some e => ps_used e | None => false end
        then Ok (s, Some pos)
        else if negb create then Ok (s, None)
        else
          let! (s, pos) :=
            if (pgstate_capacity s / 2 <=? pgstate_used s)%nat then
              let! s := pgstate_grow s in
              match probe (pgstate_tab s) (fun e => negb (ps_used e))
                      (mask_next (pgstate_capacity s)) (pgstate_capacity s)
                      (mask_start h (pgstate_capacity s)) with
              | None => Hung
              | Some pos => Ok (s, pos)
              end
            else Ok (s, pos) in
          Ok (mk_pgstate (<[pos := mk_slot as_ page 0 PST_INVALID true]> (pgstate_tab s))
                (pgstate_capacity s) (S (pgstate_used s)) (pgstate_grows s), Some pos)
    end.

Definition set_slot (pos : nat) (e : pg_slot) (s : pgstate) : pgstate :=
  mk_pgstate (<[pos := e]> (pgstate_tab s)) (pgstate_capacity s)
    (pgstate_used s) (pgstate_grows s).

(** The claim pointer is [None] when NULL; the answer is the prior stable
    state, with the new table and the caller's claim. *)
Definition pg_try_claim (as_ page mine : Z) (claim : option pg_claim) (s : pgstate)
  : result pg_st * pgstate * option pg_claim :=
  match claim with
  | None => (Err EINVAL, s, claim)
  | Some c =>
      match (if negb (pg_transient mine) || (6 <? mine) then None else pg_st_of mine) with
      | None => (Err EINVAL, s, claim)
      | Some mine =>
          if nz (pc_episode c) then (Err EALREADY, s, claim)
          else
            let page := page_base page in
            match pg_slot_find as_ page true s with
            | Ok (s, Some pos) =>
                match pgstate_tab s !! pos with
                | None => (Hung, s, claim)
                | Some e =>
                    if pg_transient (pg_st_code (ps_st e)) then (Err EBUSY, s, claim)
                    else if ps_episode e =? U64MAX then (Aborted, s, claim)
                    else
                      let ep := u64 (ps_episode e + 1) in
                      (Ok (ps_st e),
                       set_slot pos (mk_slot (ps_as e) (ps_page e) ep mine (ps_used e)) s,
                       Some (mk_claim as_ page ep (ps_st e)))
                end
            | Ok (s, None) => (Hung, s, claim)
            | Err e => (Err e, s, claim)
            | Aborted => (Aborted, s, claim)
            | Corrupt => (Corrupt, s, claim)
            | Hung => (Hung, s, claim)
            end
      end
  end.

Definition pg_finish (claim : option pg_claim) (st : Z) (s : pgstate)
  : result unit * pgstate * option pg_claim :=
  match claim with
  | None => (Err EINVAL, s, claim)
  | Some c =>
      match (if negb (nz (pc_episode c)) || (st <? 0) || pg_transient st
             then None else pg_st_of st) with
      | None => (Err EINVAL, s, claim)
      | Some st =>
          match pg_slot_find (pc_as c) (pc_page c) false s with
          | Ok (s, Some pos) =>
              match pgstate_tab s !! pos with
              | None => (Hung, s, claim)
              | Some e =>
                  if negb (pg_transient (pg_st_code (ps_st e))) ||
                     negb (ps_episode e =? pc_episode c)
                  then (Err ESTALE, s, claim)
                  else
                    (Ok tt,
                     set_slot pos (mk_slot (ps_as e) (ps_page e) (ps_episode e) st (ps_used e)) s,
                     Some (mk_claim (pc_as c) (pc_page c) 0 (pc_prior c)))
              end
          | Ok (s, None) => (Err ESTALE, s, claim)
          | Err e => (Err e, s, claim)
          | Aborted => (Aborted, s, claim)
          | Corrupt => (Corrupt, s, claim)
          | Hung => (Hung, s, claim)
          end
      end
  end.

(** Production callers cannot continue after losing their reservation. *)
Definition pg_finish_required (claim : option pg_claim) (st : Z) (s : pgstate)
  : result unit * pgstate * option pg_claim :=
  match pg_finish claim st s with
  | (Err _, s, c) => (Aborted, s, c)
  | r => r
  end.

Record pg_request_claim := mk_request { rq_claim : pg_claim; rq_final : pg_st }.

Definition pg_request_release (rq : pg_request_claim) (s : pgstate)
  : result unit * pgstate * pg_request_claim :=
  if nz (pc_episode (rq_claim rq)) then
    match pg_finish_required (Some (rq_claim rq)) (pg_st_code (rq_final rq)) s with
    | (r, s, Some c) => (r, s, mk_request c (rq_final rq))
    | (r, s, None) => (r, s, rq)
    end
  else (Ok tt, s, rq).

(** The bounded spin.  [env i] is what the other workers do to the table
    during the [i]-th [usleep]; [None] is the final -1. *)
Fixpoint pg_claim_wait_loop (n : nat) (env : nat -> pgstate -> pgstate)
  (as_ page mine : Z) (claim : option pg_claim) (s : pgstate)
  : option (result pg_st) * pgstate * option pg_claim :=
  match n with
  | O => (None, s, claim)
  | S n' =>
      match pg_try_claim as_ page mine claim s with
      | (Err e, s, claim) =>
          if e =? EBUSY then pg_claim_wait_loop n' env as_ page mine claim (env n' s)
          else (Some (Err e), s, claim)
      | (r, s, claim) => (Some r, s, claim)
      end
  end.
Definition pg_claim_wait (env : nat -> pgstate -> pgstate) (as_ page mine max_ms : Z)
  (claim : option pg_claim) (s : pgstate) :=
  pg_claim_wait_loop (Z.to_nat (max_ms * 10)) env as_ page mine claim s.
End ops.
#[global] Arguments pgstate_grow : simpl never.
#[global] Arguments pg_slot_find : simpl never.
#[global] Arguments pg_try_claim : simpl never.
#[global] Arguments pg_finish : simpl never.

(** ** The table invariant *)
Definition slot_ok (e : pg_slot) : Prop :=
  is_u64 (ps_as e) /\ is_u64 (ps_page e) /\ page_aligned (ps_page e) = true /\ is_u64 (ps_episode e).

Record pg_wf (s : pgstate) : Prop := {
  wf_capacity : length (pgstate_tab s) = pgstate_capacity s;
  wf_pow2 : pgstate_capacity s = 0%nat \/ pow2 (pgstate_capacity s) /\ (2 <= pgstate_capacity s)%nat;
  wf_chain : chain ps_used slot_key slot_start (pgstate_tab s);
  wf_used : pgstate_used s = used_count ps_used (pgstate_tab s);
  wf_load : (pgstate_used s <= pgstate_capacity s / 2)%nat;
  wf_slots : forall i e, pgstate_tab s !! i = Some e -> ps_used e = true -> slot_ok e
}.

(** The finite map a table denotes. *)
Definition pg_abs (s : pgstate) : gmap (Z * Z) pg_slot := tab_map ps_used slot_key (pgstate_tab s).
Definition slot_fresh (as_ page : Z) : pg_slot := mk_slot as_ page 0 PST_INVALID true.

Lemma slot_start_ok n : pow2 n -> start_ok slot_start n.
Proof. intros Hn k. by apply mask_start_lt. Qed.

Lemma pg_init_wf : pg_wf pgstate_init.
Proof.
  split; simpl; auto.
  - intros i e Hi. by rewrite lookup_nil in Hi.
  - intros i e Hi. by rewrite lookup_nil in Hi.
Qed.

Lemma pg_abs_spec s k e : pg_wf s ->
  pg_abs s !! k = Some e <-> used_entry ps_used slot_key (pgstate_tab s) k e.
Proof. intros Hwf. eapply tab_map_spec, wf_chain, Hwf. Qed.

Lemma pg_abs_ok s k e : pg_wf s -> pg_abs s !! k = Some e ->
  slot_ok e /\ ps_used e = true /\ slot_key e = k.
Proof.
  intros Hwf (i & Hi & Hu & Hk)%pg_abs_spec; [|done].
  split; [by eapply wf_slots|done].
Qed.

(** The loop leaves room: some slot is always free. *)
Lemma pg_room s : pg_wf s -> pgstate_capacity s <> 0%nat ->
  (used_count ps_used (pgstate_tab s) < length (pgstate_tab s))%nat.
Proof.
  intros Hwf Hc. rewrite <- (wf_used s Hwf), (wf_capacity s Hwf).
  pose proof (wf_load s Hwf). destruct (wf_pow2 s Hwf) as [?|[_ ?]]; [done|].
  pose proof (Nat.div_lt (pgstate_capacity s) 2). lia.
Qed.

Lemma pg_next_ok s : pg_wf s -> pgstate_capacity s <> 0%nat ->
  next_ok (length (pgstate_tab s)) (mask_next (pgstate_capacity s)) /\
  start_ok slot_start (length (pgstate_tab s)) /\ pow2 (pgstate_capacity s).
Proof.
  intros Hwf Hc. rewrite (wf_capacity s Hwf). destruct (wf_pow2 s Hwf) as [?|[Hp ?]]; [done|].
  eauto using mask_next_ok, slot_start_ok.
Qed.

Lemma PGSTATE_N_facts : pow2 PGSTATE_N /\ (2 <= PGSTATE_N)%nat /\ (0 < PGSTATE_N / 2)%nat.
Proof.
  split; [by exists 13%nat|]. split; [apply Nat.leb_le|apply Nat.ltb_lt]; vm_compute; reflexivity.
Qed.

(** Growth keeps the map and makes room for one more entry. *)
Lemma pgstate_grow_spec alloc s r :
  pg_wf s -> pgstate_grow alloc s = r ->
  r = Aborted \/ exists s', r = Ok s' /\ pg_wf s' /\ pg_abs s' = pg_abs s /\
    pgstate_used s' = pgstate_used s /\ pgstate_capacity s' <> 0%nat /\
    (pgstate_used s' < pgstate_capacity s' / 2)%nat.
Proof.
  intros Hwf <-. unfold pgstate_grow. case_match; [by left|].
  set (cap := if (pgstate_capacity s =? 0)%nat then PGSTATE_N else (pgstate_capacity s * 2)%nat).
  case_match; [by left|]. right.
  assert (Hp : pow2 cap /\ (2 <= cap)%nat /\ (pgstate_used s < cap / 2)%nat).
  { subst cap. pose proof (wf_load s Hwf). destruct (Nat.eqb_spec (pgstate_capacity s) 0) as [Hz|Hz].
    - rewrite Hz in *. destruct PGSTATE_N_facts as (? & ? & ?). split; [done|]. split; [done|].
      change (0 / 2)%nat with 0%nat in *. lia.
    - destruct (wf_pow2 s Hwf) as [?|[Hp ?]]; [done|]. split; [by apply pow2_double|].
      rewrite Nat.div_mul by lia.
      pose proof (Nat.div_lt (pgstate_capacity s) 2). lia. }
  destruct Hp as (Hp & H2 & Hroom).
  destruct (rehash_fresh ps_used slot_key slot_start (mask_next cap) (pgstate_tab s) cap slot_zero)
    as (tab' & -> & Hc & Hl & Hm & Hu).
  { by apply slot_start_ok. } { apply Hwf. } { by apply mask_next_ok. } { done. }
  { rewrite <- (wf_used s Hwf). pose proof (Nat.div_lt cap 2). lia. }
  eexists. split; [done|]. split; [|split; [done|]; simpl; split; [done|]; lia].
  split; simpl; [done|by right|done| |lia|].
  - by rewrite Hu, <- (wf_used s Hwf).
  - intros i e Hi He. assert (Hin : tab_map ps_used slot_key tab' !! slot_key e = Some e).
    { apply (tab_map_spec _ _ slot_start); [done|]. eexists; eauto. }
    rewrite Hm in Hin. by apply (pg_abs_ok s _ _ Hwf) in Hin as (? & _ & _).
Qed.

Lemma pg_wf_write s pos e0 e :
  pg_wf s -> pgstate_tab s !! pos = Some e0 -> ps_used e0 = true ->
  ps_used e = true -> slot_key e = slot_key e0 -> slot_ok e ->
  pg_wf (set_slot pos e s) /\ pg_abs (set_slot pos e s) = <[slot_key e := e]> (pg_abs s).
Proof.
  intros Hwf Hpos Hu0 Hu Hk Hok.
  assert (Hc : chain ps_used slot_key slot_start (<[pos := e]> (pgstate_tab s))).
  { eapply chain_update; eauto. apply Hwf. }
  split.
  - destruct Hwf as [H1 H2 H3 H4 H5 H6]. split; simpl; auto.
    + by rewrite length_insert.
    + erewrite used_count_write by eauto. rewrite Hu0. lia.
    + intros i ei [(_ & <- & _)|[_ Hi]]%list_lookup_insert_Some; eauto.
  - eapply tab_map_write; eauto. apply Hwf.
Qed.

Definition pg_insert (pos : nat) (e : pg_slot) (s : pgstate) : pgstate :=
  mk_pgstate (<[pos := e]> (pgstate_tab s)) (pgstate_capacity s) (S (pgstate_used s)) (pgstate_grows s).

Lemma pg_wf_insert s pos e0 e :
  pg_wf s -> pgstate_capacity s <> 0%nat -> (pgstate_used s < pgstate_capacity s / 2)%nat ->
  pgstate_tab s !! pos = Some e0 -> ps_used e0 = false -> ps_used e = true -> slot_ok e ->
  chain_end ps_used slot_key slot_start (pgstate_tab s) (slot_key e) pos ->
  pg_wf (pg_insert pos e s) /\ pgstate_tab (pg_insert pos e s) !! pos = Some e /\
  pg_abs (pg_insert pos e s) = <[slot_key e := e]> (pg_abs s).
Proof.
  intros Hwf Hcap Hroom Hpos Hu0 Hu Hok Hend.
  destruct (pg_next_ok s Hwf Hcap) as (_ & Hst & _).
  assert (Hc : chain ps_used slot_key slot_start (<[pos := e]> (pgstate_tab s))).
  { eapply chain_insert; eauto. apply Hwf. }
  split; [|split].
  - destruct Hwf as [H1 H2 H3 H4 H5 H6]. split; simpl; auto.
    + by rewrite length_insert.
    + erewrite used_count_write by eauto. rewrite Hu0. lia.
    + intros i ei [(_ & <- & _)|[_ Hi]]%list_lookup_insert_Some; eauto.
  - apply list_lookup_insert_eq. by eapply lookup_lt_Some.
  - eapply tab_map_write; eauto; [apply Hwf|congruence].
Qed.

(** The two probes of the search, on a table with room. *)
Lemma pg_probe_find s k :
  pg_wf s -> pgstate_capacity s <> 0%nat ->
  exists j e, probe (pgstate_tab s) (fun e => negb (ps_used e) || bool_decide (slot_key e = k))
                (mask_next (pgstate_capacity s)) (pgstate_capacity s)
                (slot_start k (pgstate_capacity s)) = Some j /\
    pgstate_tab s !! j = Some e /\
    (ps_used e = true /\ slot_key e = k /\ pg_abs s !! k = Some e \/
     ps_used e = false /\ pg_abs s !! k = None /\
     chain_end ps_used slot_key slot_start (pgstate_tab s) k j).
Proof.
  intros Hwf Hz. destruct (pg_next_ok s Hwf Hz) as (Hnx & Hso & _).
  destruct (search_room ps_used slot_key slot_start (pgstate_tab s)
    (mask_next (pgstate_capacity s)) k Hso (wf_chain _ Hwf) Hnx (pg_room _ Hwf Hz))
    as (j & e & Hp & Hj & Hcase).
  unfold search in Hp. rewrite (wf_capacity s Hwf) in Hp. eauto.
Qed.

Lemma pg_probe_free s k :
  pg_wf s -> pgstate_capacity s <> 0%nat -> pg_abs s !! k = None ->
  exists j e, probe (pgstate_tab s) (fun e => negb (ps_used e))
              (mask_next (pgstate_capacity s)) (pgstate_capacity s)
              (slot_start k (pgstate_capacity s)) = Some j /\
    pgstate_tab s !! j = Some e /\ ps_used e = false /\
    chain_end ps_used slot_key slot_start (pgstate_tab s) k j.
Proof.
  intros Hwf Hz Hnone. destruct (pg_next_ok s Hwf Hz) as (Hnx & Hso & _).
  destruct (probe_free ps_used slot_key slot_start (pgstate_tab s)
    (mask_next (pgstate_capacity s)) k Hso (wf_chain _ Hwf) Hnx (pg_room _ Hwf Hz) Hnone)
    as (j & e & Hp & Hj & Hu & Hend).
  rewrite (wf_capacity s Hwf) in Hp. exists j, e. auto.
Qed.

Lemma slot_fresh_ok as_ page :
  is_u64 as_ -> is_u64 page -> slot_ok (slot_fresh as_ (page_base page)).
Proof.
  repeat split; simpl; auto with vmctx; try apply page_base_range;
  unfold is_u64, U64MAX in *; try lia; done.
Qed.

(** The specification of the search: it ends, and either names the slot of
    the normalized key, or reports that the map has none; with [create] the
    key is then bound to a fresh slot.  The only other outcome is [Aborted],
    and only when the key is new. *)
Lemma pg_slot_find_spec alloc as_ page create s :
  pg_wf s -> is_u64 as_ -> is_u64 page ->
  let k := (as_, page_base page) in
  match pg_slot_find alloc as_ page create s with
  | Ok (s', Some pos) =>
      pg_wf s' /\ exists e, pgstate_tab s' !! pos = Some e /\ ps_used e = true /\ slot_key e = k /\
      (pg_abs s !! k = Some e /\ s' = s \/
       create = true /\ pg_abs s !! k = None /\ e = slot_fresh as_ (page_base page) /\
       pg_abs s' = <[k := e]> (pg_abs s))
  | Ok (s', None) => create = false /\ s' = s /\ pg_abs s !! k = None
  | Aborted => create = true /\ pg_abs s !! k = None
  | _ => False
  end.
Proof.
  intros Hwf Has Hpg k. unfold pg_slot_find. cbv zeta. fold k.
  pose proof (slot_fresh_ok as_ page Has Hpg) as Hfresh.
  change (mask_start (pg_slot_hash as_ (page_base page))) with (slot_start k).
  assert (Hempty : pgstate_capacity s = 0%nat -> pg_abs s !! k = None).
  { intros Hz. unfold pg_abs. pose proof (wf_capacity s Hwf) as Hl. rewrite Hz in Hl.
    apply nil_length_inv in Hl. by rewrite Hl. }
  pose proof (pgstate_grow_spec alloc s _ Hwf eq_refl) as Hgrow.
  destruct (Nat.eqb_spec (pgstate_capacity s) 0) as [Hz|Hz]; simpl.
  { destruct create; simpl; [|auto].
    destruct Hgrow as [->|(s1 & -> & Hwf1 & Habs1 & _ & Hc1 & Hr1)]; simpl; [auto|].
    destruct (pg_probe_find s1 k Hwf1 Hc1) as (j & e & -> & Hj & Hcase).
    rewrite Hj, (proj2 (Nat.leb_gt _ _) Hr1). rewrite Habs1, (Hempty Hz) in Hcase.
    destruct Hcase as [(_ & _ & [=])|(Hu & _ & Hend)]. rewrite Hu. simpl.
    destruct (pg_wf_insert s1 j e (slot_fresh as_ (page_base page))) as (Hwf2 & Hl2 & Habs2); auto.
    rewrite Habs1 in Habs2. split; [done|]. eexists. split; [exact Hl2|]. auto 10. }
  destruct (pg_probe_find s k Hwf Hz) as (j & e & -> & Hj & Hcase). rewrite Hj.
  destruct Hcase as [(Hu & Hk & Hm)|(Hu & Hm & Hend)]; rewrite Hu.
  { split; [done|]. exists e. auto 10. }
  destruct create; simpl; [|auto].
  destruct (Nat.leb_spec (pgstate_capacity s / 2) (pgstate_used s)) as [Hfull|Hroom]; simpl.
  - destruct Hgrow as [->|(s1 & -> & Hwf1 & Habs1 & _ & Hc1 & Hr1)]; simpl; [auto|].
    rewrite <- Habs1 in Hm. destruct (pg_probe_free s1 k Hwf1 Hc1 Hm) as (j1 & e1 & -> & Hj1 & Hu1 & Hend1). simpl.
    destruct (pg_wf_insert s1 j1 e1 (slot_fresh as_ (page_base page))) as (Hwf2 & Hl2 & Habs2); auto.
    split; [done|]. eexists. split; [exact Hl2|]. rewrite <- Habs1. auto 10.
  - destruct (pg_wf_insert s j e (slot_fresh as_ (page_base page))) as (Hwf2 & Hl2 & Habs2); auto.
    split; [done|]. eexists. split; [exact Hl2|]. auto 10.
Qed.

(** ** Claims against the map *)
Definition slot_at (s : pgstate) (as_ page : Z) : pg_slot :=
  default (slot_fresh as_ page) (pg_abs s !! (as_, page)).
Definition transient_slot (e : pg_slot) : bool := pg_transient (pg_st_code (ps_st e)).

Lemma pg_st_of_code m : pg_st_of (pg_st_code m) = Some m.
Proof. by destruct m. Qed.
Lemma pg_st_code_range m : 0 <= pg_st_code m <= 6.
Proof. destruct m; simpl; lia. Qed.
#[local] Hint Resolve slot_fresh_ok : vmctx.

Lemma pg_try_claim_spec alloc as_ page m c s r s' c' :
  pg_wf s -> is_u64 as_ -> is_u64 page -> pg_transient (pg_st_code m) = true -> pc_episode c = 0 ->
  pg_try_claim alloc as_ page (pg_st_code m) (Some c) s = (r, s', c') ->
  let k := (as_, page_base page) in
  let e := slot_at s as_ (page_base page) in
  match r with
  | Ok prior =>
      prior = ps_st e /\ transient_slot e = false /\ ps_episode e < U64MAX /\ pg_wf s' /\
      pg_abs s' = <[k := mk_slot as_ (page_base page) (ps_episode e + 1) m true]> (pg_abs s) /\
      c' = Some (mk_claim as_ (page_base page) (ps_episode e + 1) (ps_st e))
  | Err x => x = EBUSY /\ transient_slot e = true /\ s' = s /\ c' = Some c
  | Aborted => ps_episode e = U64MAX \/ pg_abs s !! k = None
  | Corrupt | Hung => False
  end.
Proof.
  intros Hwf Has Hpg Hm Hc Hcall k e. unfold pg_try_claim in Hcall.
  rewrite Hm, pg_st_of_code, Hc in Hcall.
  pose proof (pg_st_code_range m). rewrite (proj2 (Z.ltb_ge _ _)) in Hcall by lia.
  simpl in Hcall. change (0 =? 0) with true in Hcall. simpl in Hcall.
  pose proof (pg_slot_find_spec alloc as_ (page_base page) true s Hwf Has
    (page_base_range _ Hpg)) as Hf. rewrite page_base_idem in Hf by done. simpl in Hf.
  destruct (pg_slot_find _ _ _ _ _) as [[s1 [pos|]]|x| | |].
  2: by destruct Hf. 2, 4, 5: done. 2: { simplify_eq/=. destruct Hf. auto. }
  destruct Hf as (Hwf1 & e1 & Hl & Hu & Hk & Hcase). rewrite Hl in Hcall.
  assert (e1 = e /\ (s1 = s \/ pg_abs s1 = <[k := e]> (pg_abs s))) as [-> Hs1].
  { unfold e, slot_at. destruct Hcase as [(-> & ->)|(_ & -> & -> & ->)]; auto. }
  injection Hk as Hk1 Hk2.
  assert (is_u64 (ps_episode e)) as Hep by (by eapply wf_slots).
  fold (transient_slot e) in Hcall. destruct (transient_slot e) eqn:Ht; simplify_eq/=.
  { split; [done|]. split; [done|]. split; [|done]. destruct Hcase as [[_ ?]|(_ & _ & -> & _)]; [done|].
    by vm_compute in Ht. }
  destruct (Z.eqb_spec (ps_episode e) U64MAX); simplify_eq; [by left|].
  rewrite u64_small by (unfold is_u64, U64MAX in *; lia). rewrite Hk1, Hk2, Hu.
  destruct (pg_wf_write s1 pos e (mk_slot as_ (page_base page) (ps_episode e + 1) m true))
    as [Hwf' Habs']; auto.
  { unfold slot_key. simpl. congruence. }
  { repeat split; simpl; auto with vmctx; try apply page_base_range; auto; unfold is_u64, U64MAX in *; lia. }
  split; [done|]. split; [done|]. split; [unfold is_u64, U64MAX in *; lia|].
  split; [done|]. split; [|done]. rewrite Habs'. unfold slot_key. simpl. fold k.
  destruct Hs1 as [->| ->]; [done|]. by rewrite insert_insert_eq.
Qed.

Lemma pg_finish_spec alloc c m s r s' c' :
  pg_wf s -> is_u64 (pc_as c) -> is_u64 (pc_page c) -> pc_episode c <> 0 ->
  pg_transient (pg_st_code m) = false ->
  pg_finish alloc (Some c) (pg_st_code m) s = (r, s', c') ->
  let k := (pc_as c, page_base (pc_page c)) in
  match pg_abs s !! k with
  | Some e =>
      if transient_slot e && (ps_episode e =? pc_episode c) then
        r = Ok tt /\ pg_wf s' /\ c' = Some (mk_claim (pc_as c) (pc_page c) 0 (pc_prior c)) /\
        pg_abs s' = <[k := mk_slot (ps_as e) (ps_page e) (ps_episode e) m true]> (pg_abs s)
      else r = Err ESTALE /\ s' = s /\ c' = Some c
  | None => r = Err ESTALE /\ s' = s /\ c' = Some c
  end.
Proof.
  intros Hwf Has Hpg Hep Hm Hcall k. unfold pg_finish in Hcall.
  rewrite Hm, pg_st_of_code in Hcall. pose proof (pg_st_code_range m).
  rewrite (proj2 (Z.ltb_ge _ _)), (proj2 (Z.eqb_neq _ _) Hep) in Hcall by lia. simpl in Hcall.
  pose proof (pg_slot_find_spec alloc (pc_as c) (pc_page c) false s Hwf Has Hpg) as Hf.
  cbv zeta in Hf. fold k in Hf.
  destruct (pg_slot_find _ _ _ _ _) as [[s1 [pos|]]|x| | |].
  - destruct Hf as (_ & e & Hl & Hu & Hk & [[Habs ->]|(? & _)]); [|done].
    rewrite Habs. rewrite Hl in Hcall. fold (transient_slot e) in Hcall.
    destruct (transient_slot e), (Z.eqb_spec (ps_episode e) (pc_episode c)); simplify_eq/=; auto.
    rewrite Hu. pose proof (wf_slots _ Hwf _ _ Hl Hu) as Hok.
    destruct (pg_wf_write s pos e (mk_slot (ps_as e) (ps_page e) (ps_episode e) m true))
      as [Hwf' Habs']; auto.
    split; [done|]. split; [done|]. split; [done|].
    rewrite Habs'. unfold slot_key at 1. simpl. unfold slot_key in Hk. by rewrite Hk.
  - destruct Hf as (_ & -> & ->). simplify_eq. auto.
  - done.
  - by destruct Hf.
  - done.
  - done.
Qed.

(** ** All workers together

    Workers claim, finish what they hold, and may repeat the completion of a
    reservation that already ended.  [held] are the outstanding reservations
    and [spent] the finished ones. *)
Record pg_world := mk_world { w_tab : pgstate; w_held : list pg_claim; w_spent : list pg_claim }.

Inductive pg_step : pg_world -> pg_world -> Prop :=
| step_claim alloc as_ page m prior c s s' held spent :
    is_u64 as_ -> is_u64 page -> pg_transient (pg_st_code m) = true ->
    pg_try_claim alloc as_ page (pg_st_code m) (Some claim_zero) s = (Ok prior, s', Some c) ->
    pg_step (mk_world s held spent) (mk_world s' (c :: held) spent)
| step_refused alloc as_ page m x c s s' held spent :
    is_u64 as_ -> is_u64 page -> pg_transient (pg_st_code m) = true ->
    pg_try_claim alloc as_ page (pg_st_code m) (Some claim_zero) s = (Err x, s', c) ->
    pg_step (mk_world s held spent) (mk_world s' held spent)
| step_finish alloc m c c' s s' held1 held2 spent :
    pg_transient (pg_st_code m) = false ->
    pg_finish alloc (Some c) (pg_st_code m) s = (Ok tt, s', c') ->
    pg_step (mk_world s (held1 ++ c :: held2) spent) (mk_world s' (held1 ++ held2) (c :: spent))
| step_repeat alloc m c r c' s s' held spent :
    c ∈ spent -> pg_transient (pg_st_code m) = false ->
    pg_finish alloc (Some c) (pg_st_code m) s = (r, s', c') ->
    pg_step (mk_world s held spent) (mk_world s' held spent).

Definition claim_key (c : pg_claim) : Z * Z := (pc_as c, pc_page c).
Definition claim_ok (c : pg_claim) : Prop :=
  is_u64 (pc_as c) /\ is_u64 (pc_page c) /\ page_aligned (pc_page c) = true /\ 0 < pc_episode c.

Definition held_ok (s : pgstate) (c : pg_claim) : Prop :=
  claim_ok c /\ exists e, pg_abs s !! claim_key c = Some e /\
    transient_slot e = true /\ ps_episode e = pc_episode c.
Definition spent_ok (s : pgstate) (c : pg_claim) : Prop :=
  claim_ok c /\ exists e, pg_abs s !! claim_key c = Some e /\
    (pc_episode c < ps_episode e \/ pc_episode c = ps_episode e /\ transient_slot e = false).

Record world_ok (w : pg_world) : Prop := {
  wo_wf : pg_wf (w_tab w);
  wo_held : Forall (held_ok (w_tab w)) (w_held w);
  wo_excl : NoDup (claim_key <$> w_held w);
  wo_spent : Forall (spent_ok (w_tab w)) (w_spent w);
  wo_transient : forall k e, pg_abs (w_tab w) !! k = Some e -> transient_slot e = true -> k ∈ claim_key <$> w_held w
}.
Definition world_init : pg_world := mk_world pgstate_init [] [].

Lemma claim_ok_base c : claim_ok c -> page_base (pc_page c) = pc_page c.
Proof. intros (_ & ? & ? & _). by apply page_base_id. Qed.

(** A step that binds [k] to a new slot keeps what is said of other keys. *)
Lemma held_ok_frame s s' k e c :
  held_ok s c -> pg_abs s' = <[k := e]> (pg_abs s) -> claim_key c <> k -> held_ok s' c.
Proof.
  intros (Hok & e0 & He0 & Ht & Hep) Habs Hne. split; [done|]. exists e0.
  by rewrite Habs, lookup_insert_ne.
Qed.
Lemma spent_ok_frame s s' k e c :
  spent_ok s c -> pg_abs s' = <[k := e]> (pg_abs s) ->
  (claim_key c = k -> pc_episode c < ps_episode e \/
     pc_episode c = ps_episode e /\ transient_slot e = false) -> spent_ok s' c.
Proof.
  intros (Hok & e0 & He0 & Hcase) Habs Hk. split; [done|]. rewrite Habs.
  destruct (decide (claim_key c = k)) as [<-|Hne].
  - rewrite lookup_insert_eq. eauto.
  - rewrite lookup_insert_ne by done. eauto.
Qed.

Lemma pg_abs_episode_nonneg s k e : pg_wf s -> pg_abs s !! k = Some e -> 0 <= ps_episode e.
Proof. intros Hwf ((_ & _ & _ & Hep) & _)%pg_abs_ok; [|done]. destruct Hep. done. Qed.

Lemma world_step_claim alloc as_ page m prior c s s' held spent :
  world_ok (mk_world s held spent) ->
  is_u64 as_ -> is_u64 page -> pg_transient (pg_st_code m) = true ->
  pg_try_claim alloc as_ page (pg_st_code m) (Some claim_zero) s = (Ok prior, s', Some c) ->
  world_ok (mk_world s' (c :: held) spent).
Proof.
  intros [Hwf Hheld Hex Hsp Htr] Has Hpg Hm Hcall. simpl in *.
  pose proof (pg_try_claim_spec _ _ _ _ claim_zero _ _ _ _ Hwf Has Hpg Hm eq_refl Hcall)
    as (_ & Ht & Hlt & Hwf' & Habs & [= ->]).
  set (e := slot_at s as_ (page_base page)) in *.
  set (k := (as_, page_base page)) in *.
  assert (He : forall e', pg_abs s !! k = Some e' -> e' = e).
  { intros e' He'. unfold e, slot_at. fold k. by rewrite He'. }
  assert (0 <= ps_episode e).
  { unfold e, slot_at. fold k. destruct (pg_abs s !! k) eqn:Hk; simpl; [|lia].
    exact (pg_abs_episode_nonneg s k _ Hwf Hk). }
  assert (Hnew : forall c, c ∈ held -> claim_key c <> k).
  { intros c Hin Hk. rewrite Forall_forall in Hheld. destruct (Hheld c Hin) as (_ & e0 & He0 & Ht0 & _).
    rewrite Hk in He0. apply He in He0 as ->. congruence. }
  split; simpl; [done| | | |].
  - constructor.
    + split; [repeat split; simpl; auto with vmctx; try apply page_base_range; auto;
        unfold is_u64 in *; lia|]. eexists. unfold claim_key. simpl. fold k.
      rewrite Habs, lookup_insert_eq. split; [done|]. by destruct m.
    + rewrite Forall_forall in *. intros c Hin. eapply held_ok_frame; eauto.
  - constructor; [|done]. intros (c & Hk & Hin)%list_elem_of_fmap.
    by apply (Hnew c Hin).
  - eapply Forall_impl; [exact Hsp|]. intros c Hc. eapply spent_ok_frame; eauto.
    intros Hk. simpl. left. destruct Hc as (_ & e0 & He0 & Hcase).
    rewrite Hk in He0. apply He in He0 as ->. lia.
  - intros k' e'. rewrite Habs. destruct (decide (k' = k)) as [->|Hne]; [by left|].
    rewrite lookup_insert_ne by done. intros He' Ht'. right. by eapply Htr.
Qed.

Lemma pg_finish_held alloc m c s s' r c' :
  pg_wf s -> held_ok s c -> pg_transient (pg_st_code m) = false ->
  pg_finish alloc (Some c) (pg_st_code m) s = (r, s', c') ->
  r = Ok tt /\ pg_wf s' /\ c' = Some (mk_claim (pc_as c) (pc_page c) 0 (pc_prior c)) /\
  pg_abs s' = <[claim_key c := mk_slot (pc_as c) (pc_page c) (pc_episode c) m true]> (pg_abs s).
Proof.
  intros Hwf (Hok & e & He & Ht & Hep) Hm Hcall.
  assert (pc_episode c <> 0) by (destruct Hok as (_ & _ & _ & ?); lia).
  pose proof (pg_finish_spec alloc c m s r s' c' Hwf (proj1 Hok) (proj1 (proj2 Hok)) ltac:(done) Hm Hcall) as Hf.
  cbv zeta in Hf. rewrite (claim_ok_base c Hok) in Hf. fold (claim_key c) in Hf. rewrite He, Ht, Hep, Z.eqb_refl in Hf.
  apply (pg_abs_ok s _ _ Hwf) in He as (_ & _ & Hk). injection Hk as Hk1 Hk2. by rewrite Hk1, Hk2 in Hf.
Qed.

Lemma pg_finish_spent alloc m c s s' r c' :
  pg_wf s -> spent_ok s c -> pg_transient (pg_st_code m) = false ->
  pg_finish alloc (Some c) (pg_st_code m) s = (r, s', c') -> r = Err ESTALE /\ s' = s /\ c' = Some c.
Proof.
  intros Hwf (Hok & e & He & Hcase) Hm Hcall.
  assert (pc_episode c <> 0) by (destruct Hok as (_ & _ & _ & ?); lia).
  pose proof (pg_finish_spec alloc c m s r s' c' Hwf (proj1 Hok) (proj1 (proj2 Hok)) ltac:(done) Hm Hcall) as Hf.
  cbv zeta in Hf. rewrite (claim_ok_base c Hok) in Hf. fold (claim_key c) in Hf. rewrite He in Hf.
  destruct Hcase as [Hlt|[_ Ht]]; [|by rewrite Ht in Hf].
  rewrite (proj2 (Z.eqb_neq (ps_episode e) _)), andb_false_r in Hf by lia. done.
Qed.

Lemma world_step_ok w w' : world_ok w -> pg_step w w' -> world_ok w'.
Proof.
  intros Hw Hstep. destruct Hstep as
    [alloc as_ page m prior c s s' held spent Has Hpg Hm Hcall
    |alloc as_ page m x c s s' held spent Has Hpg Hm Hcall
    |alloc m c c' s s' held1 held2 spent Hm Hcall
    |alloc m c r c' s s' held spent Hin Hm Hcall].
  - exact (world_step_claim _ _ _ _ _ _ _ _ _ _ Hw Has Hpg Hm Hcall).
  - pose proof (pg_try_claim_spec _ _ _ _ claim_zero _ _ _ _ (wo_wf _ Hw) Has Hpg Hm eq_refl Hcall)
      as (_ & _ & -> & _). destruct Hw. by split.
  - destruct Hw as [Hwf Hheld Hex Hsp Htr]. simpl in *.
    rewrite Forall_app, Forall_cons in Hheld. destruct Hheld as (Hh1 & Hc & Hh2).
    rewrite fmap_app, fmap_cons in Hex.
    assert (Hkeys : (claim_key c ∉ (claim_key <$> (held1 ++ held2))) /\ NoDup (claim_key <$> (held1 ++ held2))).
    { rewrite fmap_app. rewrite <- Permutation_middle, NoDup_cons in Hex. done. }
    destruct Hkeys as [Hfresh Hnd].
    destruct (pg_finish_held _ _ _ _ _ _ _ Hwf Hc Hm Hcall) as (_ & Hwf' & _ & Habs).
    split; simpl; [done| |done| |].
    + rewrite Forall_forall. intros c0 Hin. eapply held_ok_frame; [|exact Habs|].
      * apply elem_of_app in Hin as [Hin|Hin]; [by eapply (proj1 (Forall_forall _ _) Hh1)|].
        by eapply (proj1 (Forall_forall _ _) Hh2).
      * intros Hk. apply Hfresh. rewrite <- Hk. apply list_elem_of_fmap. eauto.
    + constructor.
      * destruct Hc as (Hok & _). split; [done|]. eexists. rewrite Habs, lookup_insert_eq.
        split; [done|]. right. split; [done|]. by destruct m.
      * eapply Forall_impl; [exact Hsp|]. intros c0 Hc0. eapply spent_ok_frame; [done|exact Habs|].
        intros Hk. simpl. destruct Hc0 as (_ & e0 & He0 & Hcase), Hc as (_ & e1 & He1 & Ht1 & Hep1).
        rewrite Hk, He1 in He0. injection He0 as ->.
        destruct Hcase as [?|[_ ?]]; [left; congruence|congruence].
    + intros k e. rewrite Habs. destruct (decide (k = claim_key c)) as [->|Hne].
      * rewrite lookup_insert_eq. intros [= <-]. by destruct m.
      * rewrite lookup_insert_ne by done. intros He Ht. specialize (Htr k e He Ht). revert Htr.
        rewrite !fmap_app, fmap_cons, !elem_of_app, elem_of_cons. naive_solver.
  - destruct (pg_finish_spent _ _ _ _ _ _ _ (wo_wf _ Hw)
      (proj1 (Forall_forall _ _) (wo_spent _ Hw) c Hin) Hm Hcall) as (_ & -> & _).
    destruct Hw. by split.
Qed.

Lemma world_init_ok : world_ok world_init.
Proof.
  split; simpl; auto using pg_init_wf, NoDup_nil_2. intros k e. done.
Qed.
Lemma world_reachable_ok w : steps pg_step world_init w -> world_ok w.
Proof. apply (steps_invariant pg_step world_ok world_step_ok), world_init_ok. Qed.

(** ** Abstract specification

    What the table promises: per (address space, page) an episode count and a
    state; a claim takes a stable page into the requested transient state
    under the next episode, and is refused while another holds the page. *)
Abbreviation pg_spec := (gmap (Z * Z) (Z * pg_st)).
Definition pg_view (s : pgstate) : pg_spec := (fun e => (ps_episode e, ps_st e)) <$> pg_abs s.
Definition spec_claim (k : Z * Z) (mine : pg_st) (σ : pg_spec) : option (pg_st * Z * pg_spec) :=
  let '(ep, st) := default (0, PST_INVALID) (σ !! k) in
  if pg_transient (pg_st_code st) then None
  else Some (st, ep + 1, <[k := (ep + 1, mine)]> σ).

Lemma pg_view_slot s as_ page :
  default (0, PST_INVALID) (pg_view s !! (as_, page)) =
  (ps_episode (slot_at s as_ page), ps_st (slot_at s as_ page)).
Proof. unfold pg_view, slot_at. rewrite lookup_fmap. by destruct (pg_abs s !! (as_, page)). Qed.

(** Growth fails only when memory does, or past the representable size. *)
Definition grow_refused (alloc : nat -> bool) (s : pgstate) : Prop :=
  (exists n, alloc n = false) \/ SIZE_MAX / 2 / sizeof_pg_slot < Z.of_nat (pgstate_capacity s).

Lemma pgstate_grow_aborts alloc s : pgstate_grow alloc s = Aborted -> grow_refused alloc s.
Proof.
  unfold pgstate_grow, grow_refused. destruct (Z.ltb_spec (SIZE_MAX / 2 / sizeof_pg_slot)
    (Z.of_nat (pgstate_capacity s))); [by right|].
  destruct (alloc _) eqn:Ha; simpl; [intros; by case_match|]. left. eauto.
Qed.
Lemma pg_slot_find_aborts alloc as_ page create s :
  pg_wf s -> pg_slot_find alloc as_ page create s = Aborted -> grow_refused alloc s.
Proof.
  intros Hwf. unfold pg_slot_find. cbv zeta.
  pose proof (pgstate_grow_spec alloc s _ Hwf eq_refl) as Hgrow.
  destruct (Nat.eqb_spec (pgstate_capacity s) 0) as [Hz|Hz]; simpl.
  - destruct create; simpl; [|done].
    destruct Hgrow as [Ha|(s1 & -> & _ & _ & _ & _ & Hr)]; [eauto using pgstate_grow_aborts|].
    simpl. rewrite (proj2 (Nat.leb_gt _ _) Hr). simpl. intros. by repeat case_match.
  - destruct (probe _ _ _ _ _) as [pos|]; [|done].
    destruct (match pgstate_tab s !! pos with Some e => ps_used e | None => false end); [done|].
    destruct create; simpl; [|done]. destruct (Nat.leb _ _); simpl; [|done].
    destruct Hgrow as [Ha|(s1 & -> & _)]; [eauto using pgstate_grow_aborts|].
    simpl. by destruct (probe _ _ _ _ _).
Qed.

Lemma pg_try_claim_aborts alloc as_ page m c s s' c' :
  pg_wf s -> is_u64 as_ -> is_u64 page -> pg_transient (pg_st_code m) = true -> pc_episode c = 0 ->
  pg_try_claim alloc as_ page (pg_st_code m) (Some c) s = (Aborted, s', c') ->
  ps_episode (slot_at s as_ (page_base page)) = U64MAX \/ grow_refused alloc s.
Proof.
  intros Hwf Has Hpg Hm Hc Hcall.
  destruct (decide (ps_episode (slot_at s as_ (page_base page)) = U64MAX)) as [|Hne]; [by left|right].
  unfold pg_try_claim in Hcall. rewrite Hm, pg_st_of_code, Hc in Hcall.
  pose proof (pg_st_code_range m). rewrite (proj2 (Z.ltb_ge _ _)) in Hcall by lia.
  change (0 =? 0) with true in Hcall. simpl in Hcall.
  pose proof (pg_slot_find_spec alloc as_ (page_base page) true s Hwf Has (page_base_range _ Hpg)) as Hf.
  rewrite page_base_idem in Hf by done. simpl in Hf.
  destruct (pg_slot_find _ _ _ _ _) as [[s1 [pos|]]|x| | |] eqn:Hfind; try done.
  - destruct Hf as (_ & e & Hl & _ & _ & Hcase). rewrite Hl in Hcall.
    assert (e = slot_at s as_ (page_base page)) as ->.
    { unfold slot_at. destruct Hcase as [(-> & _)|(_ & -> & -> & _)]; done. }
    case_match; [done|]. rewrite (proj2 (Z.eqb_neq _ _) Hne) in Hcall. done.
  - by eapply pg_slot_find_aborts.
Qed.

(** C23: [pg_try_claim] refines the abstract claim.  It always returns: on
    success the prior state and the new episode are those of the
    specification and the table denotes the specification's next map (so a
    successful claim is never unrecorded, whatever growth did); a refusal is
    [EBUSY], exactly when another hand-off holds the page, and changes
    nothing; the monitor ends only on an exhausted episode counter or when
    the table cannot grow. *)
Theorem pg_try_claim_refines alloc as_ page m c s :
  pg_wf s -> is_u64 as_ -> is_u64 page -> pg_transient (pg_st_code m) = true -> pc_episode c = 0 ->
  let k := (as_, page_base page) in
  match pg_try_claim alloc as_ page (pg_st_code m) (Some c) s with
  | (Ok prior, s', Some c') =>
      pg_wf s' /\ spec_claim k m (pg_view s) = Some (prior, pc_episode c', pg_view s') /\
      claim_key c' = k /\ pc_prior c' = prior
  | (Err x, s', c') => x = EBUSY /\ spec_claim k m (pg_view s) = None /\ s' = s /\ c' = Some c
  | (Aborted, _, _) =>
      fst (default (0, PST_INVALID) (pg_view s !! k)) = U64MAX \/ grow_refused alloc s
  | _ => False
  end.
Proof.
  intros Hwf Has Hpg Hm Hc k. unfold spec_claim, k. rewrite pg_view_slot.
  destruct (pg_try_claim _ _ _ _ _ _) as [[r s'] c'] eqn:Hcall.
  pose proof (pg_try_claim_spec _ _ _ _ _ _ _ _ _ Hwf Has Hpg Hm Hc Hcall) as Hspec. cbv zeta in Hspec.
  fold (transient_slot (slot_at s as_ (page_base page))).
  destruct r as [prior|x| | |].
  - destruct Hspec as (-> & -> & _ & Hwf' & Habs & ->). split; [done|]. split; [|done].
    simpl. unfold pg_view. by rewrite Habs, fmap_insert.
  - by destruct Hspec as (-> & -> & -> & ->).
  - by apply pg_try_claim_aborts in Hcall.
  - done.
  - done.
Qed.

(** C2: page-transfer exclusion.  In every state the workers can reach, two
    outstanding reservations never name the same page, a page is in a transient
    state exactly when a reservation of it is outstanding, and then under the
    episode of that reservation; the holder of one can always finish it (the required completion never aborts it), which
    publishes exactly the final state it names; and repeating the completion
    of a spent reservation is [ESTALE] and leaves the table as it was, even
    after growth or a later transfer of the page. *)
Theorem pg_transfer_exclusion w :
  steps pg_step world_init w ->
  NoDup (claim_key <$> w_held w) /\
  (forall k, (exists ep st, pg_view (w_tab w) !! k = Some (ep, st) /\ pg_transient (pg_st_code st) = true) <->
     exists c, c ∈ w_held w /\ claim_key c = k) /\
  (forall c, c ∈ w_held w -> exists st, pg_view (w_tab w) !! claim_key c = Some (pc_episode c, st) /\
     pg_transient (pg_st_code st) = true) /\
  (forall alloc c m, c ∈ w_held w -> pg_transient (pg_st_code m) = false ->
     exists s' c', pg_finish_required alloc (Some c) (pg_st_code m) (w_tab w) = (Ok tt, s', Some c') /\
       pc_episode c' = 0 /\
       pg_view s' = <[claim_key c := (pc_episode c, m)]> (pg_view (w_tab w))) /\
  (forall alloc c m, c ∈ w_spent w -> pg_transient (pg_st_code m) = false ->
     pg_finish alloc (Some c) (pg_st_code m) (w_tab w) = (Err ESTALE, w_tab w, Some c)).
Proof.
  intros Hw%world_reachable_ok. destruct Hw as [Hwf Hheld Hex Hsp Htr]. rewrite Forall_forall in Hheld, Hsp.
  assert (Hview : forall c, c ∈ w_held w -> exists st, pg_view (w_tab w) !! claim_key c = Some (pc_episode c, st) /\
     pg_transient (pg_st_code st) = true).
  { intros c Hin. destruct (Hheld c Hin) as (_ & e & He & Ht & <-). exists (ps_st e).
    unfold pg_view. by rewrite lookup_fmap, He. }
  split; [done|]. split.
  { intros k. split.
    - intros (ep & st & Hv & Ht). unfold pg_view in Hv. rewrite lookup_fmap in Hv.
      destruct (pg_abs (w_tab w) !! k) as [e|] eqn:He; [|done]. simplify_eq/=.
      destruct (proj1 (list_elem_of_fmap _ _ _) (Htr k e He Ht)) as (c & -> & Hin). eauto.
    - intros (c & Hin & <-). destruct (Hview c Hin) as (st & ? & ?). eauto. }
  split; [done|]. split; intros alloc c m Hin Hm.
  - destruct (pg_finish alloc (Some c) (pg_st_code m) (w_tab w)) as [[r s'] c'] eqn:Hcall.
    destruct (pg_finish_held _ _ _ _ _ _ _ Hwf (Hheld c Hin) Hm Hcall) as (-> & Hwf' & -> & Habs).
    unfold pg_finish_required. rewrite Hcall. eexists _, _. split; [done|]. split; [done|].
    unfold pg_view. by rewrite Habs, fmap_insert.
  - destruct (pg_finish alloc (Some c) (pg_st_code m) (w_tab w)) as [[r s'] c'] eqn:Hcall.
    by destruct (pg_finish_spent _ _ _ _ _ _ _ Hwf (Hsp c Hin) Hm Hcall) as (-> & -> & ->).
Qed.

(** the scoped release of a request.  Releasing an outstanding request
    with a stable final state settles its episode and clears it, so a second
    release is a no-op; a request whose claim was refused releases nothing. *)
Theorem pg_request_release_once alloc rq s :
  pg_wf s -> pg_transient (pg_st_code (rq_final rq)) = false ->
  pc_episode (rq_claim rq) = 0 \/ held_ok s (rq_claim rq) ->
  exists s' rq', pg_request_release alloc rq s = (Ok tt, s', rq') /\ pg_wf s' /\
    pc_episode (rq_claim rq') = 0 /\
    pg_request_release alloc rq' s' = (Ok tt, s', rq') /\
    pg_view s' = (if nz (pc_episode (rq_claim rq))
      then <[claim_key (rq_claim rq) := (pc_episode (rq_claim rq), rq_final rq)]> (pg_view s)
      else pg_view s).
Proof.
  intros Hwf Hfin [Hz|Hheld]; unfold pg_request_release.
  - rewrite Hz. exists s, rq. rewrite Hz. done.
  - assert (pc_episode (rq_claim rq) <> 0) by (destruct Hheld as ((_ & _ & _ & ?) & _); lia).
    rewrite (proj2 (Z.eqb_neq _ _)) by done. simpl.
    destruct (pg_finish alloc (Some (rq_claim rq)) (pg_st_code (rq_final rq)) s) as [[r s'] c'] eqn:Hcall.
    destruct (pg_finish_held _ _ _ _ _ _ _ Hwf Hheld Hfin Hcall) as (-> & Hwf' & -> & Habs).
    unfold pg_finish_required. rewrite Hcall. eexists _, _. split; [done|]. split; [done|].
    split; [done|]. split; [done|]. unfold pg_view. by rewrite Habs, fmap_insert.
Qed.

(** ** Witnesses *)
Definition demo_claim : result pg_st * pgstate * option pg_claim :=
  pg_try_claim (fun _ => true) 7 0x5123 (pg_st_code PST_REQUESTING) (Some claim_zero) pgstate_init.
Lemma demo_claim_eq : exists s' c', demo_claim = (Ok PST_INVALID, s', Some c').
Proof.
  assert (match demo_claim with (Ok PST_INVALID, _, Some _) => True | _ => False end)
    by (vm_compute; exact I).
  destruct demo_claim as [[[[]|x| | |] s'] [c'|]]; try done. by exists s', c'.
Qed.

Lemma pg_try_claim_refines_witness :
  exists s' c', demo_claim = (Ok PST_INVALID, s', Some c') /\ pc_episode c' = 1 /\
    pg_view s' = {[ (7, 0x5000) := (1, PST_REQUESTING) ]}.
Proof.
  pose proof (pg_try_claim_refines (fun _ => true) 7 0x5123 PST_REQUESTING claim_zero pgstate_init
    pg_init_wf ltac:(unfold is_u64, U64MAX; lia) ltac:(unfold is_u64, U64MAX; lia) eq_refl eq_refl) as H.
  destruct demo_claim_eq as (s' & c' & Hd). fold demo_claim in H. rewrite Hd in H.
  destruct H as (_ & [= Hep Hview] & _). exists s', c'.
  split; [exact Hd|]. split; [exact (eq_sym Hep)|exact (eq_sym Hview)].
Defined.

Lemma demo_reachable s' c' :
  demo_claim = (Ok PST_INVALID, s', Some c') -> steps pg_step world_init (mk_world s' [c'] []).
Proof.
  intros Hd. eapply steps_next; [apply steps_refl|].
  apply (step_claim (fun _ => true) 7 0x5123 PST_REQUESTING PST_INVALID);
    [unfold is_u64, U64MAX; lia|unfold is_u64, U64MAX; lia|done|exact Hd].
Qed.

Lemma pg_transfer_exclusion_witness :
  exists s' c', demo_claim = (Ok PST_INVALID, s', Some c') /\
    NoDup (claim_key <$> [c']) /\
    exists s'' c'', pg_finish_required (fun _ => true) (Some c') (pg_st_code PST_SHARED) s'
      = (Ok tt, s'', Some c'').
Proof.
  destruct demo_claim_eq as (s' & c' & Hd). exists s', c'. split; [exact Hd|].
  destruct (pg_transfer_exclusion (mk_world s' [c'] [])) as (Hnd & _ & _ & Hfin & _).
  - by apply demo_reachable.
  - split; [done|]. destruct (Hfin (fun _ => true) c' PST_SHARED) as (s'' & c'' & H & _).
    { by constructor. } { done. } exists s'', c''. exact H.
Defined.

Lemma pg_request_release_once_witness :
  exists s' c', demo_claim = (Ok PST_INVALID, s', Some c') /\
  exists s'' rq', pg_request_release (fun _ => true) (mk_request c' PST_OWNED) s'
    = (Ok tt, s'', rq') /\ pg_request_release (fun _ => true) rq' s'' = (Ok tt, s'', rq').
Proof.
  destruct demo_claim_eq as (s' & c' & Hd). exists s', c'. split; [exact Hd|].
  pose proof (world_reachable_ok _ (demo_reachable _ _ Hd)) as Hw.
  destruct (pg_request_release_once (fun _ => true) (mk_request c' PST_OWNED) s')
    as (s'' & rq' & H & _ & _ & H2 & _).
  - apply Hw.
  - reflexivity.
  - right. pose proof (wo_held _ Hw) as Hh. apply Forall_cons in Hh. apply Hh.
  - exists s'', rq'. exact (conj H H2).
Defined.
End PgState.
