(* ===== verification/Own.v ===== *)
(** * The ownership segment (user/own.h) and its fault-service wrappers

    One record per (address space, page): where the page's token is, whether
    one move of it is in flight, and the generation word its waiters sleep on.
    [Own] models the segment and every operation on it; each runs under the
    header's futex mutex and is one step on the segment.  [OwnMutex] is that
    mutex, [OwnWait] the sleep and wake-up handshake on the generation word;
    both are interleavings of the atomic accesses of the source.  [Ownf] are
    the wrappers of vmremote.c that gate a page fault's service. *)
From S2P Require Import Prelude Probe.

Module Own.

(** ** Data *)
Inductive own_begin_result := OWN_BEGIN_CLAIMED | OWN_BEGIN_BUSY | OWN_BEGIN_FULL.
Inductive own_site := OWN_NONE | OWN_HOME | OWN_REMOTE.
Inductive own_transit := OWN_T_NONE | OWN_T_TO_HOME | OWN_T_TO_REMOTE.
#[global] Instance own_site_eq_dec : EqDecision own_site.
Proof. solve_decision. Defined.
#[global] Instance own_transit_eq_dec : EqDecision own_transit.
Proof. solve_decision. Defined.

Record own_ent := mk_ent {
  oe_as : Z; oe_page : Z; oe_site : own_site; oe_transit : own_transit; oe_gen : Z;
  oe_transit_owner : Z; oe_transit_us : Z; oe_waiters : Z }.
Record own_hdr := mk_hdr {
  oh_magic : Z; oh_nslots : nat; oh_lock : Z; oh_private_futex : bool;
  oh_n_begin : Z; oh_n_begin_busy : Z; oh_n_land : Z; oh_n_wait : Z;
  oh_n_wait_woken : Z; oh_n_wait_timeout : Z; oh_n_full : Z }.
Record own_segment := mk_seg { own_seg : own_hdr; own_tab : list own_ent }.

Definition OWN_MAGIC : Z := 0x4e574f76.
(** an entry of the zero-filled segment *)
Definition ent_zero : own_ent := mk_ent 0 0 OWN_NONE OWN_T_NONE 0 0 0 0.

(** The creator's header, over a zero-filled entry array of [slots]. *)
Definition own_init_create (slots : nat) : own_segment :=
  mk_seg (mk_hdr OWN_MAGIC slots 0 true 0 0 0 0 0 0 0) (replicate slots ent_zero).
(** [own_init]: [mapped] is the segment this process already has, [attached]
    the one behind an inherited descriptor ([None] creates), [env] whether
    creating and mapping succeed.  The result is the mapping it leaves and the
    return value: a segment with a foreign magic stays mapped. *)
Definition own_init (slots : nat) (mapped attached : option own_segment) (env : bool)
  : option own_segment * Z :=
  match mapped with
  | Some s => (Some s, 0)
  | None =>
      if negb env then (None, -1)
      else
        let s := match attached with Some s => s | None => own_init_create slots end in
        (Some s, if oh_magic (own_seg s) =? OWN_MAGIC then 0 else -1)
  end.
Definition own_mark_shared (s : own_segment) : own_segment :=
  let h := own_seg s in
  mk_seg (mk_hdr (oh_magic h) (oh_nslots h) (oh_lock h) false (oh_n_begin h) (oh_n_begin_busy h)
    (oh_n_land h) (oh_n_wait h) (oh_n_wait_woken h) (oh_n_wait_timeout h) (oh_n_full h)) (own_tab s).

(** ** The table *)
Definition ent_used (e : own_ent) : bool := nz (oe_as e).
Definition ent_key (e : own_ent) : Z * Z := (oe_as e, oe_page e).
Definition own_hash (as_ page : Z) : Z :=
  u64 (u64 (as_ * 1099511628211) + u64 ((page .>> 12) * 14695981039346656037)).
(** [(h + i) % n], the addition in 64 bits *)
Definition own_pos (h : Z) (n i : nat) : nat := Z.to_nat (u64 (h + Z.of_nat i) mod Z.of_nat n).

(** The [for] loop of [own_slot]: the first slot that is free or holds the
    key, after [i] rounds. *)
Fixpoint own_scan (tab : list own_ent) (h as_ page : Z) (n i rounds : nat) : option nat :=
  match rounds with
  | O => None
  | S rounds' =>
      match tab !! own_pos h n i with
      | None => None
      | Some e =>
          if ent_used e && (oe_as e =? as_) && (oe_page e =? page) then Some (own_pos h n i)
          else if negb (ent_used e) then Some (own_pos h n i)
          else own_scan tab h as_ page n (S i) rounds'
      end
  end.

Definition bump_full (h : own_hdr) : own_hdr :=
  mk_hdr (oh_magic h) (oh_nslots h) (oh_lock h) (oh_private_futex h) (oh_n_begin h)
    (oh_n_begin_busy h) (oh_n_land h) (oh_n_wait h) (oh_n_wait_woken h) (oh_n_wait_timeout h)
    (u64 (oh_n_full h + 1)).
Definition bump_begin (h : own_hdr) : own_hdr :=
  mk_hdr (oh_magic h) (oh_nslots h) (oh_lock h) (oh_private_futex h) (u64 (oh_n_begin h + 1))
    (oh_n_begin_busy h) (oh_n_land h) (oh_n_wait h) (oh_n_wait_woken h) (oh_n_wait_timeout h)
    (oh_n_full h).
Definition bump_busy (h : own_hdr) : own_hdr :=
  mk_hdr (oh_magic h) (oh_nslots h) (oh_lock h) (oh_private_futex h) (oh_n_begin h)
    (u64 (oh_n_begin_busy h + 1)) (oh_n_land h) (oh_n_wait h) (oh_n_wait_woken h)
    (oh_n_wait_timeout h) (oh_n_full h).
Definition bump_land (h : own_hdr) : own_hdr :=
  mk_hdr (oh_magic h) (oh_nslots h) (oh_lock h) (oh_private_futex h) (oh_n_begin h)
    (oh_n_begin_busy h) (u64 (oh_n_land h + 1)) (oh_n_wait h) (oh_n_wait_woken h)
    (oh_n_wait_timeout h) (oh_n_full h).

Definition own_slot (as_ page : Z) (create : bool) (s : own_segment) : own_segment * option nat :=
  let page := page_base page in
  let n := oh_nslots (own_seg s) in
  match own_scan (own_tab s) (own_hash as_ page) as_ page n 0 n with
  | None => (mk_seg (bump_full (own_seg s)) (own_tab s), None)
  | Some pos =>
      match own_tab s !! pos with
      | None => (s, None)
      | Some e =>
          if ent_used e then (s, Some pos)
          else if negb create then (s, None)
          else (mk_seg (own_seg s)
                  (<[pos := mk_ent as_ page OWN_NONE OWN_T_NONE 0 (oe_transit_owner e)
                              (oe_transit_us e) (oe_waiters e)]> (own_tab s)), Some pos)
      end
  end.

Definition put_ent (pos : nat) (e : own_ent) (s : own_segment) : own_segment :=
  mk_seg (own_seg s) (<[pos := e]> (own_tab s)).
Definition with_hdr (f : own_hdr -> own_hdr) (s : own_segment) : own_segment :=
  mk_seg (f (own_seg s)) (own_tab s).

(** ** Operations *)
Definition own_get (as_ page : Z) (s : own_segment) : (own_site * own_transit * Z) * own_segment :=
  let '(s, slot) := own_slot as_ page false s in
  match slot ≫= (fun pos => own_tab s !! pos) with
  | Some e => ((oe_site e, oe_transit e, oe_gen e), s)
  | None => ((OWN_NONE, OWN_T_NONE, 0), s)
  end.

(** [wait_gen] is written only on BUSY. *)
Definition own_begin (as_ page : Z) (to : own_transit) (tid now : Z) (s : own_segment)
  : own_begin_result * option Z * own_segment :=
  let '(s, slot) := own_slot as_ page true s in
  match slot with
  | None => (OWN_BEGIN_FULL, None, s)
  | Some pos =>
      match own_tab s !! pos with
      | None => (OWN_BEGIN_FULL, None, s)
      | Some e =>
          if negb (bool_decide (oe_transit e = OWN_T_NONE))
          then (OWN_BEGIN_BUSY, Some (oe_gen e), with_hdr bump_busy s)
          else (OWN_BEGIN_CLAIMED, None,
                with_hdr bump_begin
                  (put_ent pos (mk_ent (oe_as e) (oe_page e) (oe_site e) to (oe_gen e) tid now
                                  (oe_waiters e)) s))
      end
  end.

Definition own_gen_bump (g : Z) : Z := u32 (g + 1).
(** Whether the FUTEX_WAKE of all sleepers on the entry's word is issued: the
    counter is read after the lock is dropped, in a later state. *)
Definition own_gen_wake (pos : nat) (s : own_segment) : bool :=
  match own_tab s !! pos with Some e => nz (oe_waiters e) | None => false end.
(** The entry as a landing, an abort or a vacated range leaves it. *)
Definition settled (site : own_site) (e : own_ent) : own_ent :=
  mk_ent (oe_as e) (oe_page e) site OWN_T_NONE (own_gen_bump (oe_gen e)) 0 0 (oe_waiters e).

(** The locked part of a landing; the result names the entry whose sleepers
    are then woken ([gw]). *)
Definition own_land (as_ page : Z) (new_site : own_site) (s : own_segment) : option nat * own_segment :=
  let '(s, slot) := own_slot as_ page true s in
  match slot ≫= (fun pos => (fun e => (pos, e)) <$> own_tab s !! pos) with
  | Some (pos, e) => (Some pos, with_hdr bump_land (put_ent pos (settled new_site e) s))
  | None => (None, s)
  end.

Definition own_abort (as_ page : Z) (s : own_segment) : option nat * own_segment :=
  let '(s, slot) := own_slot as_ page true s in
  match slot ≫= (fun pos => (fun e => (pos, e)) <$> own_tab s !! pos) with
  | Some (pos, e) =>
      if negb (bool_decide (oe_transit e = OWN_T_NONE))
      then (Some pos, put_ent pos (settled (oe_site e) e) s)
      else (None, s)
  | None => (None, s)
  end.

Definition own_forget (as_ page : Z) (s : own_segment) : option nat * own_segment :=
  let '(s, slot) := own_slot as_ page false s in
  match slot ≫= (fun pos => (fun e => (pos, e)) <$> own_tab s !! pos) with
  | Some (pos, e) => (Some pos, put_ent pos (settled OWN_NONE e) s)
  | None => (None, s)
  end.

#[global] Arguments own_slot : simpl never.
#[global] Arguments own_begin : simpl never.
#[global] Arguments own_land : simpl never.
#[global] Arguments own_abort : simpl never.
#[global] Arguments own_forget : simpl never.
#[global] Arguments own_get : simpl never.

(** ** Invariant and abstraction *)
Definition own_start (k : Z * Z) (n : nat) : nat := own_pos (own_hash (fst k) (snd k)) n 0.

Record own_wf (s : own_segment) : Prop := {
  ow_len : length (own_tab s) = oh_nslots (own_seg s);
  ow_pow2 : pow2 (oh_nslots (own_seg s));
  ow_u32 : Z.of_nat (oh_nslots (own_seg s)) <= 2 ^ 32;
  ow_chain : chain ent_used ent_key own_start (own_tab s)
}.
Definition own_abs (s : own_segment) : gmap (Z * Z) own_ent := tab_map ent_used ent_key (own_tab s).
(** What [own_get] reports: a missing record reads NONE, idle, generation 0. *)
Definition own_at (s : own_segment) (k : Z * Z) : own_site * own_transit * Z :=
  match own_abs s !! k with
  | Some e => (oe_site e, oe_transit e, oe_gen e)
  | None => (OWN_NONE, OWN_T_NONE, 0)
  end.
Definition own_full (s : own_segment) : Prop :=
  used_count ent_used (own_tab s) = oh_nslots (own_seg s).

Lemma pow2_divides_2_64 n : pow2 n -> Z.of_nat n <= 2 ^ 32 -> (Z.of_nat n | 2 ^ 64).
Proof.
  intros (k & Hk & Hn)%pow2_Z Hle. rewrite Hn in *.
  assert (k <= 32) by (apply (Z.pow_le_mono_r_iff 2); lia).
  exists (2 ^ (64 - k)). rewrite <- Z.pow_add_r by lia. f_equal. lia.
Qed.

(** The 64-bit wrap of [h + i] does not disturb the probe order. *)
Lemma own_pos_at h n i :
  pow2 n -> Z.of_nat n <= 2 ^ 32 -> own_pos h n i = at_ n (own_pos h n 0) i.
Proof.
  intros Hp Hle. pose proof (pow2_pos n Hp). unfold own_pos, at_, u64.
  rewrite !Z.mod_mod_divide by (by apply pow2_divides_2_64).
  rewrite Z.add_0_r. apply Nat2Z.inj. rewrite Nat2Z.inj_mod, Nat2Z.inj_add.
  rewrite !Z2Nat.id by (apply Z.mod_pos_bound; lia).
  by rewrite Z.add_mod_idemp_l by lia.
Qed.

Definition own_next (n p : nat) : nat := ((p + 1) mod n)%nat.
Lemma own_scan_probe tab h as_ page n i rounds :
  pow2 n -> Z.of_nat n <= 2 ^ 32 ->
  own_scan tab h as_ page n i rounds =
  probe tab (fun e => negb (ent_used e) || bool_decide (ent_key e = (as_, page)))
    (own_next n) rounds (at_ n (own_pos h n 0) i).
Proof.
  intros Hp Hle. revert i. induction rounds as [|r IH]; intros i; simpl; [done|].
  rewrite <- (own_pos_at h n i) by done. destruct (tab !! own_pos h n i) as [e|]; [|done].
  replace (own_next n (own_pos h n i)) with (at_ n (own_pos h n 0) (S i)).
  2:{ rewrite (own_pos_at h n i) by done. symmetry. apply at_next; [by intros p _|by apply pow2_pos]. }
  rewrite <- IH. destruct (ent_used e); simpl; [|done].
  unfold ent_key. destruct (Z.eqb_spec (oe_as e) as_), (Z.eqb_spec (oe_page e) page); simpl.
  1: rewrite bool_decide_eq_true_2 by congruence; done.
  all: rewrite bool_decide_eq_false_2 by congruence; done.
Qed.

Lemma own_start_lt k n : pow2 n -> (own_start k n < n)%nat.
Proof.
  intros Hp. pose proof (pow2_pos n Hp). unfold own_start, own_pos.
  pose proof (Z.mod_pos_bound (u64 (own_hash k.1 k.2 + Z.of_nat 0)) (Z.of_nat n)). lia.
Qed.

Lemma own_write s pos e0 e :
  own_wf s -> own_tab s !! pos = Some e0 -> ent_used e = true ->
  (ent_used e0 = true /\ ent_key e = ent_key e0 \/
   ent_used e0 = false /\ chain_end ent_used ent_key own_start (own_tab s) (ent_key e) pos) ->
  own_wf (put_ent pos e s) /\ own_tab (put_ent pos e s) !! pos = Some e /\
  own_abs (put_ent pos e s) = <[ent_key e := e]> (own_abs s).
Proof.
  intros Hwf Hpos Hu Hcase.
  assert (Hc : chain ent_used ent_key own_start (<[pos := e]> (own_tab s))).
  { destruct Hcase as [[Hu0 Hk]|[Hu0 Hend]].
    - eapply chain_update; eauto. apply Hwf.
    - eapply chain_insert; eauto; [apply Hwf|]. intros k. rewrite (ow_len s Hwf).
      apply own_start_lt, Hwf. }
  split; [|split].
  - destruct Hwf. split; simpl; auto. by rewrite length_insert.
  - apply list_lookup_insert_eq. by eapply lookup_lt_Some.
  - eapply tab_map_write; eauto; [apply Hwf|].
    intros Hu0. destruct Hcase as [[_ ?]|[? _]]; congruence.
Qed.

Lemma own_abs_spec s k e : own_wf s ->
  own_abs s !! k = Some e <-> used_entry ent_used ent_key (own_tab s) k e.
Proof. intros Hwf. eapply tab_map_spec, ow_chain, Hwf. Qed.

(** The slot search: it names the record of the normalized page, creates an
    idle one when asked, and gives up only on a full table that has none. *)
Lemma own_slot_spec as_ page create s :
  own_wf s -> is_u64 as_ -> as_ <> 0 ->
  let k := (as_, page_base page) in
  match own_slot as_ page create s with
  | (s', Some pos) =>
      own_wf s' /\ exists e, own_tab s' !! pos = Some e /\ ent_used e = true /\ ent_key e = k /\
        own_abs s' !! k = Some e /\
        own_at s k = (oe_site e, oe_transit e, oe_gen e) /\
        (forall k', k' <> k -> own_abs s' !! k' = own_abs s !! k')
  | (s', None) =>
      own_wf s' /\ own_tab s' = own_tab s /\ own_abs s !! k = None /\ (create = true -> own_full s)
  end.
Proof.
  intros Hwf Has Hnz k. unfold own_slot. cbv zeta.
  rewrite own_scan_probe by apply Hwf. rewrite at_0 by (apply (own_start_lt k), Hwf).
  assert (Hnx : next_ok (length (own_tab s)) (own_next (oh_nslots (own_seg s)))).
  { intros p _. by rewrite (ow_len s Hwf). }
  assert (Hst : start_ok own_start (length (own_tab s))).
  { intros k'. rewrite (ow_len s Hwf). apply own_start_lt, Hwf. }
  pose proof (search_spec ent_used ent_key own_start (own_tab s) _ k Hst (ow_chain s Hwf) Hnx) as Hs.
  unfold search in Hs. rewrite (ow_len s Hwf) in Hs. fold k.
  change (own_pos (own_hash as_ (page_base page)) (oh_nslots (own_seg s)) 0)
    with (own_start k (oh_nslots (own_seg s))).
  destruct (probe _ _ _ _ _) as [pos|].
  - destruct Hs as (e & He & Hcase). rewrite He.
    destruct Hcase as [(Hu & Hk & Hm)|(Hu & Hm & Hend)]; rewrite Hu.
    + split; [done|]. exists e. unfold own_at. unfold own_abs at 2. rewrite Hm. auto 10.
    + destruct create; simpl; [|by split; [|split; [|split]]].
      set (e' := mk_ent as_ (page_base page) OWN_NONE OWN_T_NONE 0 (oe_transit_owner e)
        (oe_transit_us e) (oe_waiters e)).
      assert (Hu' : ent_used e' = true).
      { unfold ent_used. simpl. by rewrite (proj2 (Z.eqb_neq _ _) Hnz). }
      destruct (own_write s pos e e') as (Hwf' & Hl & Habs); [done|done|done|by right|].
      split; [done|]. exists e'. split; [done|]. split; [done|]. split; [done|].
      unfold put_ent in Habs. rewrite Habs. change (ent_key e') with k.
      split; [by rewrite lookup_insert_eq|]. split.
      * unfold own_at, own_abs. by rewrite Hm.
      * intros k' Hne. by rewrite lookup_insert_ne.
  - destruct Hs as [Hm Hall]. split; [|split; [done|split; [done|]]].
    + destruct Hwf. by split.
    + intros _. unfold own_full. rewrite <- (ow_len s Hwf). by apply used_count_full.
Qed.

Lemma own_at_write s s' pos e0 e k :
  own_wf s -> own_tab s !! pos = Some e0 -> ent_used e0 = true -> ent_key e0 = k -> ent_key e = k ->
  own_tab s' = own_tab (put_ent pos e s) -> own_seg s' = own_seg s \/
    (oh_nslots (own_seg s') = oh_nslots (own_seg s)) ->
  own_wf s' /\ own_at s' k = (oe_site e, oe_transit e, oe_gen e) /\
  (forall k', k' <> k -> own_abs s' !! k' = own_abs s !! k').
Proof.
  intros Hwf Hpos Hu Hk0 Hk Htab Hseg.
  assert (ent_used e = true) as Hue.
  { assert (oe_as e = oe_as e0) as Heq by (unfold ent_key in *; congruence).
    unfold ent_used in *. by rewrite Heq. }
  destruct (own_write s pos e0 e) as (Hwf' & Hl & Habs); auto. { left. split; congruence. }
  assert (Hn : oh_nslots (own_seg s') = oh_nslots (own_seg s)) by (destruct Hseg; congruence).
  assert (Habs' : own_abs s' = <[k := e]> (own_abs s)).
  { unfold own_abs in *. rewrite Htab, Habs, Hk. done. }
  split; [|split].
  - destruct Hwf' as [H1 H2 H3 H4]. split; rewrite ?Htab, ?Hn; auto.
  - unfold own_at. by rewrite Habs', lookup_insert_eq.
  - intros k' Hne. by rewrite Habs', lookup_insert_ne.
Qed.

(** ** What each operation does to the record *)
Lemma own_begin_spec as_ page to tid now s :
  own_wf s -> is_u64 as_ -> as_ <> 0 ->
  let k := (as_, page_base page) in
  let '(site, transit, gen) := own_at s k in
  match own_begin as_ page to tid now s with
  | (OWN_BEGIN_CLAIMED, None, s') =>
      own_wf s' /\ transit = OWN_T_NONE /\ own_at s' k = (site, to, gen) /\
      forall k', k' <> k -> own_abs s' !! k' = own_abs s !! k'
  | (OWN_BEGIN_BUSY, Some g, s') =>
      own_wf s' /\ transit <> OWN_T_NONE /\ g = gen /\ forall k', own_at s' k' = own_at s k'
  | (OWN_BEGIN_FULL, None, s') =>
      own_wf s' /\ own_full s /\ own_abs s !! k = None /\ forall k', own_at s' k' = own_at s k'
  | _ => False
  end.
Proof.
  intros Hwf Has Hnz k. unfold own_begin.
  pose proof (own_slot_spec as_ page true s Hwf Has Hnz) as Hs. cbv zeta in Hs. fold k in Hs.
  destruct (own_slot as_ page true s) as [s1 [pos|]].
  - destruct Hs as (Hwf1 & e & He & Hu & Hk & Habs & Hat & Hoth). rewrite He, Hat.
    case_bool_decide as Ht; simpl.
    + destruct (own_at_write s1 (with_hdr bump_begin (put_ent pos (mk_ent (oe_as e) (oe_page e)
        (oe_site e) to (oe_gen e) tid now (oe_waiters e)) s1)) pos e
        (mk_ent (oe_as e) (oe_page e) (oe_site e) to (oe_gen e) tid now (oe_waiters e)) k)
        as (Hwf' & Hat' & Hoth'); auto.
      split; [done|]. split; [done|]. split; [done|]. intros k' Hne. by rewrite Hoth', Hoth.
    + split. { destruct Hwf1. by split. } split; [done|]. split; [done|]. intros k'.
      unfold own_at. change (own_abs (with_hdr bump_busy s1)) with (own_abs s1).
      destruct (decide (k' = k)) as [->|Hne]; [|by rewrite Hoth].
      rewrite Habs. unfold own_at in Hat. by rewrite <- Hat.
  - destruct Hs as (Hwf1 & Htab & Hnone & Hfull). destruct (own_at s k) as [[site tr] gen].
    split; [done|]. split; [by apply Hfull|]. split; [done|].
    intros k'. unfold own_at, own_abs. by rewrite Htab.
Qed.

Lemma own_land_spec as_ page site' s :
  own_wf s -> is_u64 as_ -> as_ <> 0 -> own_abs s !! (as_, page_base page) <> None ->
  let k := (as_, page_base page) in
  let '(site, transit, gen) := own_at s k in
  let s' := snd (own_land as_ page site' s) in
  own_wf s' /\ own_at s' k = (site', OWN_T_NONE, own_gen_bump gen) /\
  forall k', k' <> k -> own_abs s' !! k' = own_abs s !! k'.
Proof.
  intros Hwf Has Hnz Hsome k. unfold own_land.
  pose proof (own_slot_spec as_ page true s Hwf Has Hnz) as Hs. cbv zeta in Hs. fold k in Hs, Hsome.
  destruct (own_slot as_ page true s) as [s1 [pos|]]; [|by destruct Hs as (_ & _ & ? & _)].
  destruct Hs as (Hwf1 & e & He & Hu & Hk & Habs & Hat & Hoth). rewrite Hat. simpl. rewrite He. simpl.
  destruct (own_at_write s1 (with_hdr bump_land (put_ent pos (settled site' e) s1)) pos e
    (settled site' e) k) as (Hwf' & Hat' & Hoth'); auto.
  split; [done|]. split; [done|]. intros k' Hne. by rewrite Hoth', Hoth.
Qed.

Lemma own_abort_spec as_ page s :
  own_wf s -> is_u64 as_ -> as_ <> 0 -> own_abs s !! (as_, page_base page) <> None ->
  let k := (as_, page_base page) in
  let '(site, transit, gen) := own_at s k in
  let s' := snd (own_abort as_ page s) in
  own_wf s' /\ own_at s' k = (if decide (transit = OWN_T_NONE) then (site, transit, gen)
                              else (site, OWN_T_NONE, own_gen_bump gen)) /\
  forall k', k' <> k -> own_abs s' !! k' = own_abs s !! k'.
Proof.
  intros Hwf Has Hnz Hsome k. unfold own_abort.
  pose proof (own_slot_spec as_ page true s Hwf Has Hnz) as Hs. cbv zeta in Hs. fold k in Hs, Hsome.
  destruct (own_slot as_ page true s) as [s1 [pos|]]; [|by destruct Hs as (_ & _ & ? & _)].
  destruct Hs as (Hwf1 & e & He & Hu & Hk & Habs & Hat & Hoth). rewrite Hat. simpl. rewrite He. simpl.
  case_bool_decide as Ht; simpl.
  - rewrite decide_True by done. split; [done|]. split; [|done]. unfold own_at. by rewrite Habs.
  - rewrite decide_False by done.
    destruct (own_at_write s1 (put_ent pos (settled (oe_site e) e) s1) pos e
      (settled (oe_site e) e) k) as (Hwf' & Hat' & Hoth'); auto.
    split; [done|]. split; [done|]. intros k' Hne. by rewrite Hoth', Hoth.
Qed.

Lemma own_gen_bump_changes g : own_gen_bump g <> g.
Proof.
  unfold own_gen_bump. pose proof (u32_range (g + 1)) as Hr. intros Heq. rewrite Heq in Hr.
  unfold u32, is_u32, U32MAX in *.
  destruct (decide (g = 2 ^ 32 - 1)) as [->|]; [by vm_compute in Heq|].
  rewrite Z.mod_small in Heq by lia. lia.
Qed.

(** ** Participants

    Each worker that was answered CLAIMED owns the move until it lands or
    aborts it.  The waiters' counters change at any time, without the lock. *)
Definition own_waiters_add (pos : nat) (d : Z) (s : own_segment) : own_segment :=
  match own_tab s !! pos with
  | Some e => put_ent pos (mk_ent (oe_as e) (oe_page e) (oe_site e) (oe_transit e) (oe_gen e)
                (oe_transit_owner e) (oe_transit_us e) (u32 (oe_waiters e + d))) s
  | None => s
  end.

Record mover := mk_mover { mv_as : Z; mv_page : Z; mv_to : own_transit }.
Definition mover_key (m : mover) : Z * Z := (mv_as m, page_base (mv_page m)).
Record own_world := mk_world { w_seg : own_segment; w_movers : list mover }.

Inductive own_step : own_world -> own_world -> Prop :=
| step_begin as_ page to tid now s r g s' ms :
    is_u64 as_ -> as_ <> 0 -> to <> OWN_T_NONE ->
    own_begin as_ page to tid now s = (r, g, s') ->
    own_step (mk_world s ms)
      (mk_world s' (match r with OWN_BEGIN_CLAIMED => mk_mover as_ page to :: ms | _ => ms end))
| step_land m site wake s s' ms1 ms2 :
    own_land (mv_as m) (mv_page m) site s = (wake, s') ->
    own_step (mk_world s (ms1 ++ m :: ms2)) (mk_world s' (ms1 ++ ms2))
| step_abort m wake s s' ms1 ms2 :
    own_abort (mv_as m) (mv_page m) s = (wake, s') ->
    own_step (mk_world s (ms1 ++ m :: ms2)) (mk_world s' (ms1 ++ ms2))
| step_waiters pos d s ms :
    own_step (mk_world s ms) (mk_world (own_waiters_add pos d s) ms).

Definition transit_of (s : own_segment) (k : Z * Z) : own_transit := snd (fst (own_at s k)).

Record world_ok (w : own_world) : Prop := {
  wo_wf : own_wf (w_seg w);
  wo_as : Forall (fun m => is_u64 (mv_as m) /\ mv_as m <> 0 /\ mv_to m <> OWN_T_NONE) (w_movers w);
  wo_one : NoDup (mover_key <$> w_movers w);
  wo_dir : forall m, m ∈ w_movers w -> transit_of (w_seg w) (mover_key m) = mv_to m;
  wo_flight : forall k, transit_of (w_seg w) k <> OWN_T_NONE -> exists m, m ∈ w_movers w /\ mover_key m = k
}.

Lemma own_init_wf slots : pow2 slots -> Z.of_nat slots <= 2 ^ 32 -> own_wf (own_init_create slots).
Proof.
  intros Hp Hle. split; simpl; auto; [apply length_replicate|]. by apply chain_fresh.
Qed.
Lemma own_at_init slots k : own_at (own_init_create slots) k = (OWN_NONE, OWN_T_NONE, 0).
Proof. unfold own_at, own_abs. simpl. by rewrite tab_map_fresh. Qed.

Definition own_world_init (slots : nat) : own_world := mk_world (own_init_create slots) [].
Lemma own_world_init_ok slots :
  pow2 slots -> Z.of_nat slots <= 2 ^ 32 -> world_ok (own_world_init slots).
Proof.
  intros. split; simpl; auto using own_init_wf, NoDup_nil_2.
  - by intros m ?%elem_of_nil.
  - intros k. unfold transit_of. by rewrite own_at_init.
Qed.

Lemma transit_abs s k : transit_of s k <> OWN_T_NONE -> own_abs s !! k <> None.
Proof. unfold transit_of, own_at. by destruct (own_abs s !! k). Qed.
Lemma transit_frame s s' k :
  own_abs s' !! k = own_abs s !! k -> transit_of s' k = transit_of s k.
Proof. intros H. unfold transit_of, own_at. by rewrite H. Qed.

(** The end of a move, shared by landing and abort. *)
Lemma world_end_move s s' m ms1 ms2 :
  world_ok (mk_world s (ms1 ++ m :: ms2)) -> own_wf s' ->
  transit_of s' (mover_key m) = OWN_T_NONE ->
  (forall k', k' <> mover_key m -> own_abs s' !! k' = own_abs s !! k') ->
  world_ok (mk_world s' (ms1 ++ ms2)).
Proof.
  intros [Hwf Has Hone Hdir Hfl] Hwf' Ht Hoth. simpl in *.
  rewrite Forall_app, Forall_cons in Has. destruct Has as (Ha1 & Ha & Ha2).
  rewrite fmap_app, fmap_cons, <- Permutation_middle, NoDup_cons in Hone.
  rewrite <- fmap_app in Hone. destruct Hone as [Hfresh Hone].
  assert (Hin : forall m', m' ∈ ms1 ++ ms2 -> m' ∈ ms1 ++ m :: ms2).
  { intros m'. rewrite !elem_of_app, elem_of_cons. tauto. }
  assert (Hne : forall m', m' ∈ ms1 ++ ms2 -> mover_key m' <> mover_key m).
  { intros m' Hm' Hk. apply Hfresh. rewrite <- Hk. apply list_elem_of_fmap. eauto. }
  split; simpl; auto.
  - by apply Forall_app.
  - intros m' Hm'. rewrite (transit_frame s); [|by auto]. by auto.
  - intros k Hk. destruct (decide (k = mover_key m)) as [->|Hkm]; [done|].
    rewrite (transit_frame s) in Hk by auto. destruct (Hfl k Hk) as (m' & Hm' & <-).
    exists m'. split; [|done]. apply elem_of_app in Hm' as [?|[->|?]%elem_of_cons]; [|done|];
      apply elem_of_app; auto.
Qed.

Lemma mover_in_flight w m :
  world_ok w -> m ∈ w_movers w ->
  is_u64 (mv_as m) /\ mv_as m <> 0 /\ own_abs (w_seg w) !! mover_key m <> None.
Proof.
  intros Hok Hm. pose proof (wo_as w Hok) as Ha. rewrite Forall_forall in Ha.
  destruct (Ha m Hm) as (H1 & H2 & H3). split; [done|]. split; [done|].
  apply transit_abs. by rewrite (wo_dir w Hok).
Qed.

Lemma world_begin s s' as_ page to ms r g tid now :
  world_ok (mk_world s ms) -> is_u64 as_ -> as_ <> 0 -> to <> OWN_T_NONE ->
  own_begin as_ page to tid now s = (r, g, s') ->
  world_ok (mk_world s' (match r with OWN_BEGIN_CLAIMED => mk_mover as_ page to :: ms | _ => ms end)).
Proof.
  intros [Hwf Has Hone Hdir Hfl] Ha Hnz Hto Hb. simpl in *.
  pose proof (own_begin_spec as_ page to tid now s Hwf Ha Hnz) as Hs. cbv zeta in Hs.
  destruct (own_at s (as_, page_base page)) as [[site tr] gen] eqn:Hat. rewrite Hb in Hs.
  assert (Hframe : forall k, own_at s' k = own_at s k -> transit_of s' k = transit_of s k).
  { unfold transit_of. by intros k ->. }
  destruct r; [destruct g; [done|]|destruct g; [|done]|destruct g; [done|]]; cycle 1.
  1,2: destruct Hs as (Hwf' & _ & _ & Hoth); split; simpl; auto;
    [intros m Hm; rewrite Hframe by done; auto|intros k; rewrite Hframe by done; auto].
  destruct Hs as (Hwf' & -> & Hat' & Hoth).
  assert (Hnew : forall m, m ∈ ms -> mover_key m <> (as_, page_base page)).
  { intros m Hm Hk. pose proof (Hdir m Hm) as Hd. rewrite Hk in Hd. unfold transit_of in Hd.
    rewrite Hat in Hd. rewrite Forall_forall in Has. destruct (Has m Hm) as (_ & _ & Hn). by destruct Hn. }
  assert (Hfr : forall k, k <> (as_, page_base page) -> transit_of s' k = transit_of s k).
  { intros. by apply transit_frame, Hoth. }
  split; simpl; auto.
  - apply NoDup_cons. split; [|done]. intros (m & Hk & Hm)%list_elem_of_fmap. by eapply Hnew.
  - intros m [->|Hm]%elem_of_cons; [|rewrite Hfr by auto; auto].
    unfold transit_of, mover_key. simpl. by rewrite Hat'.
  - intros k Hk. destruct (decide (k = (as_, page_base page))) as [->|Hne].
    + exists (mk_mover as_ page to). split; [by left|done].
    + rewrite Hfr in Hk by done. destruct (Hfl k Hk) as (m & Hm & <-). exists m. by split; [right|].
Qed.

Lemma waiters_frame pos d s k :
  own_wf s -> own_wf (own_waiters_add pos d s) /\ own_at (own_waiters_add pos d s) k = own_at s k.
Proof.
  intros Hwf. unfold own_waiters_add. destruct (own_tab s !! pos) as [e|] eqn:He; [|done].
  set (e' := mk_ent _ _ _ _ _ _ _ _).
  destruct (ent_used e) eqn:Hu.
  - destruct (own_at_write s (put_ent pos e' s) pos e e' (ent_key e)) as (Hwf' & Hat & Hoth); auto.
    split; [done|]. destruct (decide (k = ent_key e)) as [->|Hne].
    + rewrite Hat. unfold own_at.
      rewrite (proj2 (own_abs_spec s (ent_key e) e Hwf)); [done|]. by exists pos.
    + unfold own_at. by rewrite Hoth.
  - assert (Hent : forall k e1, used_entry ent_used ent_key (<[pos := e']> (own_tab s)) k e1 <->
      used_entry ent_used ent_key (own_tab s) k e1).
    { intros k1 e1. assert (ent_used e' = false) as Hu' by done. split; intros (i & Hi & Hui & Hk).
      - apply list_lookup_insert_Some in Hi as [(<- & <- & _)|[_ Hi]]; [congruence|]. by exists i.
      - exists i. rewrite list_lookup_insert_ne; [done|]. intros <-. congruence. }
    assert (Hc : chain ent_used ent_key own_start (<[pos := e']> (own_tab s))).
    { intros i e1 Hi Hu1. rewrite length_insert.
      apply list_lookup_insert_Some in Hi as [(<- & <- & _)|[_ Hi]]; [change (ent_used e') with (ent_used e) in Hu1; congruence|].
      destruct (ow_chain s Hwf i e1 Hi Hu1) as (H1 & dd & H2 & H3 & H4). split; [done|].
      exists dd. split; [done|]. split; [done|]. intros d' Hd'.
      destruct (H4 d' Hd') as (e2 & He2 & Hu2 & Hk2). exists e2.
      rewrite list_lookup_insert_ne; [done|]. intros Heq. rewrite <- Heq in He2. congruence. }
    split. { destruct Hwf. split; simpl; auto. by rewrite length_insert. }
    unfold own_at, own_abs. simpl. f_equal.
    replace (tab_map ent_used ent_key (<[pos:=e']> (own_tab s)) !! k)
      with (tab_map ent_used ent_key (own_tab s) !! k); [done|].
    apply option_eq. intros e1. rewrite !(tab_map_spec _ _ own_start) by (done || apply Hwf).
    symmetry. apply Hent.
Qed.

Lemma world_step w w' : world_ok w -> own_step w w' -> world_ok w'.
Proof.
  intros Hok Hst. destruct Hst as [as_ page to tid now s r g s' ms Ha Hnz Hto Hb
    |m site wake s s' ms1 ms2 Hl|m wake s s' ms1 ms2 Hl|pos d s ms].
  - by eapply world_begin.
  - destruct (mover_in_flight _ m Hok) as (Ha & Hnz & Hs); [set_solver|].
    pose proof (own_land_spec _ _ site s (wo_wf _ Hok) Ha Hnz Hs) as Hsp. cbv zeta in Hsp.
    destruct (own_at s _) as [[x y] z]. rewrite Hl in Hsp. simpl in Hsp. destruct Hsp as (Hwf' & Hat & Hoth).
    eapply world_end_move; eauto. unfold transit_of, mover_key. by rewrite Hat.
  - destruct (mover_in_flight _ m Hok) as (Ha & Hnz & Hs); [set_solver|].
    pose proof (own_abort_spec _ _ s (wo_wf _ Hok) Ha Hnz Hs) as Hsp. cbv zeta in Hsp.
    destruct (own_at s _) as [[x y] z]. rewrite Hl in Hsp. simpl in Hsp. destruct Hsp as (Hwf' & Hat & Hoth).
    eapply world_end_move; eauto. unfold transit_of, mover_key. rewrite Hat. by case_decide.
  - assert (Hf := fun k => proj2 (waiters_frame pos d s k (wo_wf _ Hok))).
    destruct Hok as [Hwf Has Hone Hdir Hfl]. simpl in *.
    split; simpl; auto.
    + by apply (waiters_frame pos d s (0, 0)).
    + intros m Hm. unfold transit_of. rewrite Hf. by apply Hdir.
    + intros k Hk. unfold transit_of in Hk. rewrite Hf in Hk. by apply Hfl.
Qed.

Lemma own_reachable_ok slots w :
  pow2 slots -> Z.of_nat slots <= 2 ^ 32 -> steps own_step (own_world_init slots) w -> world_ok w.
Proof. intros Hp Hle. apply steps_invariant; [apply world_step|by apply own_world_init_ok]. Qed.

(** ** Properties *)

(** own_begin on a well-formed segment answers CLAIMED exactly when the
    page has no move in flight and it then records the requested direction,
    keeping the token's site and generation; it answers BUSY exactly when a
    move is in flight, handing out the generation of that very state and
    changing no record; and it answers FULL only when every slot of the table
    holds another page's record, inventing none.  Records of other pages never
    change. *)
Theorem own_begin_decides as_ page to tid now s :
  own_wf s -> is_u64 as_ -> as_ <> 0 ->
  let k := (as_, page_base page) in
  let '(site, transit, gen) := own_at s k in
  exists r g s', own_begin as_ page to tid now s = (r, g, s') /\ own_wf s' /\
    (forall k', k' <> k -> own_at s' k' = own_at s k') /\
    match r with
    | OWN_BEGIN_CLAIMED => transit = OWN_T_NONE /\ g = None /\ own_at s' k = (site, to, gen)
    | OWN_BEGIN_BUSY => transit <> OWN_T_NONE /\ g = Some gen /\ own_at s' k = own_at s k
    | OWN_BEGIN_FULL => own_full s /\ own_abs s !! k = None /\ g = None /\ own_at s' k = own_at s k
    end.
Proof.
  intros Hwf Ha Hnz k. pose proof (own_begin_spec as_ page to tid now s Hwf Ha Hnz) as Hs.
  cbv zeta in Hs. fold k in Hs. destruct (own_at s k) as [[site tr] gen] eqn:Hat.
  destruct (own_begin as_ page to tid now s) as [[r g] s'].
  exists r, g, s'. split; [done|].
  destruct r; [destruct g; [done|]|destruct g; [|done]|destruct g; [done|]].
  - destruct Hs as (? & ? & ? & Hoth). split; [done|]. split; [|done].
    intros k' Hne. unfold own_at. by rewrite Hoth.
  - destruct Hs as (? & ? & -> & Hoth). split; [done|]. split; [done|]. by rewrite Hoth, Hat.
  - destruct Hs as (? & ? & ? & Hoth). split; [done|]. split; [done|]. by rewrite Hoth, Hat.
Qed.

Lemma own_begin_decides_witness :
  own_at (own_init_create 4) (7, 0x5000) = (OWN_NONE, OWN_T_NONE, 0) /\
  exists r g s', own_begin 7 0x5123 OWN_T_TO_HOME 1 2 (own_init_create 4) = (r, g, s') /\ own_wf s'.
Proof.
  split; [reflexivity|].
  assert (Hwf : own_wf (own_init_create 4)) by (apply own_init_wf; [by exists 2%nat|lia]).
  pose proof (own_begin_decides 7 0x5123 OWN_T_TO_HOME 1 2 (own_init_create 4) Hwf) as H.
  destruct H as (r & g & s' & H1 & H2 & _); [unfold is_u64, U64MAX; lia|lia|].
  exists r, g, s'. split; [exact H1|exact H2].
Defined.

(** C3: In every state the participants can reach from a fresh segment by
    beginning, landing and aborting moves (the waiters' counters changing in
    between), a page has a move in flight exactly when one and only one
    participant holds it, in the recorded direction: BUSY is answered only
    while somebody is bound to land.  When that participant lands the page,
    the record shows the new site and no move, and the generation word the
    waiters sleep on leaves its old value. *)
Theorem own_single_move slots w :
  pow2 slots -> Z.of_nat slots <= 2 ^ 32 ->
  steps own_step (own_world_init slots) w ->
  NoDup (mover_key <$> w_movers w) /\
  (forall k, transit_of (w_seg w) k <> OWN_T_NONE <-> exists m, m ∈ w_movers w /\ mover_key m = k) /\
  (forall m, m ∈ w_movers w ->
     transit_of (w_seg w) (mover_key m) = mv_to m /\
     forall site, exists gen' gw s',
       own_land (mv_as m) (mv_page m) site (w_seg w) = (gw, s') /\
       own_at s' (mover_key m) = (site, OWN_T_NONE, gen') /\
       gen' <> snd (own_at (w_seg w) (mover_key m))).
Proof.
  intros Hp Hle Hr. assert (world_ok w) as Hok by (by eapply own_reachable_ok).
  split; [apply Hok|]. split.
  - intros k. split; [apply Hok|]. intros (m & Hm & <-). rewrite (wo_dir w Hok) by done.
    pose proof (wo_as w Hok) as Ha. rewrite Forall_forall in Ha. by apply (Ha m Hm).
  - intros m Hm. split; [by apply Hok|]. intros site.
    destruct (mover_in_flight w m Hok Hm) as (Ha & Hnz & Hs).
    pose proof (own_land_spec (mv_as m) (mv_page m) site (w_seg w) (wo_wf w Hok) Ha Hnz Hs) as Hsp.
    cbv zeta in Hsp. fold (mover_key m) in Hsp.
    destruct (own_at (w_seg w) (mover_key m)) as [[x y] g].
    destruct (own_land _ _ _ _) as [gw s']. simpl in *. destruct Hsp as (_ & Hat & _).
    exists (own_gen_bump g), gw, s'. split; [done|]. split; [done|]. apply own_gen_bump_changes.
Qed.

Lemma own_single_move_witness :
  exists w, w_movers w <> [] /\ NoDup (mover_key <$> w_movers w).
Proof.
  set (b := own_begin 7 0x5123 OWN_T_TO_HOME 1 2 (own_init_create 4)).
  exists (mk_world (snd b) [mk_mover 7 0x5123 OWN_T_TO_HOME]). split; [done|].
  refine (proj1 (own_single_move 4 _ _ _ _)); [by exists 2%nat|lia|].
  eapply steps_next; [apply steps_refl|].
  apply (step_begin 7 0x5123 OWN_T_TO_HOME 1 2 (own_init_create 4) OWN_BEGIN_CLAIMED None (snd b) []);
    [unfold is_u64, U64MAX; lia|lia|done|reflexivity].
Defined.

End Own.

(** * The segment's lock

    The futex mutex over the header word: 0 free, 1 held, 2 held with a
    possible sleeper.  A participant is at one of the points below; the kernel
    parks a waiter atomically with reading the word. *)
Module OwnMutex.

Inductive pc :=
| PIdle                (* outside, about to try the compare-exchange *)
| PXchg                (* contended: about to exchange 2 into the word *)
| PWait                (* saw the word held: about to call FUTEX_WAIT *)
| PSleep               (* parked by the kernel *)
| PCrit                (* holds the lock *)
| PWake.               (* released a contended word: about to call FUTEX_WAKE *)
#[global] Instance pc_eq_dec : EqDecision pc.
Proof. solve_decision. Defined.

(** One atomic access of [own_lock] or [own_unlock]: the new word and the
    point reached. *)
Definition lock_access (p : pc) (w : Z) : Z * pc :=
  match p with
  | PIdle => if w =? 0 then (1, PCrit) else (w, PXchg)
  | PXchg => (2, if w =? 0 then PCrit else PWait)
  | PWait => (w, if w =? 2 then PSleep else PXchg)
  | PSleep => (w, PXchg)
  | PCrit => (0, if w =? 2 then PWake else PIdle)
  | PWake => (w, PIdle)
  end.

Record mutex := mk_mutex { mx_word : Z; mx_pcs : list pc }.

Inductive mutex_step : mutex -> mutex -> Prop :=
| mutex_access i p w ps :
    ps !! i = Some p -> (p = PWake -> forall j, ps !! j <> Some PSleep) ->
    mutex_step (mk_mutex w ps)
      (mk_mutex (fst (lock_access p w)) (<[i := snd (lock_access p w)]> ps))
| mutex_wake i j w ps :   (* FUTEX_WAKE 1 with a sleeper *)
    ps !! i = Some PWake -> ps !! j = Some PSleep ->
    mutex_step (mk_mutex w ps) (mk_mutex w (<[j := PXchg]> (<[i := PIdle]> ps))).

Definition mutex_init (n : nat) : mutex := mk_mutex 0 (replicate n PIdle).
Definition someone (p : pc) (ps : list pc) : Prop := exists i, ps !! i = Some p.

Record mutex_ok (m : mutex) : Prop := {
  mo_word : mx_word m = 0 \/ mx_word m = 1 \/ mx_word m = 2;
  mo_free : mx_word m = 0 <-> ~ someone PCrit (mx_pcs m);
  mo_one : forall i j, mx_pcs m !! i = Some PCrit -> mx_pcs m !! j = Some PCrit -> i = j;
  mo_sleep : someone PSleep (mx_pcs m) ->
    mx_word m = 2 \/ someone PWake (mx_pcs m) \/ someone PXchg (mx_pcs m)
}.

Lemma someone_insert i p q ps p0 :
  ps !! i = Some p0 ->
  someone q (<[i := p]> ps) <-> q = p \/ exists j, j <> i /\ ps !! j = Some q.
Proof.
  intros Hi. unfold someone. split.
  - intros (j & [(<- & <- & _)|[Hne Hj]]%list_lookup_insert_Some); eauto.
  - intros [->|(j & Hne & Hj)].
    + exists i. apply list_lookup_insert_eq. by eapply lookup_lt_Some.
    + exists j. by rewrite list_lookup_insert_ne.
Qed.
Lemma someone_split i q ps p0 :
  ps !! i = Some p0 -> someone q ps <-> q = p0 \/ exists j, j <> i /\ ps !! j = Some q.
Proof. intros Hi. rewrite <- (list_insert_id ps i p0 Hi) at 1. by apply someone_insert with p0. Qed.

(** The step of one participant leaves the others where they are, so the
    invariant is a statement about its own point and what the others are. *)
Lemma mutex_one_insert i p p0 ps :
  ps !! i = Some p0 -> (forall i j, ps !! i = Some PCrit -> ps !! j = Some PCrit -> i = j) ->
  (p = PCrit -> p0 = PCrit \/ ~ someone PCrit ps) ->
  forall j k, <[i := p]> ps !! j = Some PCrit -> <[i := p]> ps !! k = Some PCrit -> j = k.
Proof.
  intros Hi Hone Hp j k Hj Hk. unfold someone in Hp.
  apply list_lookup_insert_Some in Hj as [(<- & -> & _)|[Hne Hj]];
  apply list_lookup_insert_Some in Hk as [(<- & Hpk & _)|[Hne' Hk]]; try done; [| |by eauto].
  - destruct (Hp eq_refl) as [->|Hn]; [by eauto|]. by destruct Hn; exists k.
  - subst p. destruct (Hp eq_refl) as [->|Hn]; [by eauto|]. by destruct Hn; exists j.
Qed.

Lemma mutex_own_access i p w ps :
  ps !! i = Some p -> (p = PWake -> ~ someone PSleep ps) -> mutex_ok (mk_mutex w ps) ->
  mutex_ok (mk_mutex (fst (lock_access p w)) (<[i := snd (lock_access p w)]> ps)).
Proof.
  intros Hi Hnw [Hw Hfree Hone Hsl]. simpl in *.
  assert (Hins := fun q => someone_insert i (snd (lock_access p w)) q ps p Hi).
  assert (Hcrit : snd (lock_access p w) = PCrit -> w = 0).
  { destruct p; simpl; break_solve. }
  assert (Hself : p = PCrit -> ~ exists j, j <> i /\ ps !! j = Some PCrit).
  { intros -> (j & Hne & Hj). by apply Hne, Hone. }
  split; simpl.
  - destruct p; simpl; break_solve.
  - rewrite Hins. rewrite (someone_split i _ ps p Hi) in Hfree. clear Hins Hone Hsl Hnw.
    revert Hfree Hself. generalize (exists j, j <> i /\ ps !! j = Some PCrit) as O. intros O Hfree Hself.
    destruct p; simpl in *; break; intuition (try congruence; try lia).
  - apply mutex_one_insert with p; [done|done|]. intros Hp. right. apply Hfree. auto.
  - rewrite !Hins. rewrite !(someone_split i _ ps p Hi) in Hsl.
    rewrite (someone_split i _ ps p Hi) in Hfree. rewrite (someone_split i _ ps p Hi) in Hnw. clear Hins Hone Hcrit.
    revert Hfree Hsl Hnw. generalize (exists j, j <> i /\ ps !! j = Some PCrit) as OC.
    generalize (exists j, j <> i /\ ps !! j = Some PSleep) as OS.
    generalize (exists j, j <> i /\ ps !! j = Some PWake) as OW.
    generalize (exists j, j <> i /\ ps !! j = Some PXchg) as OX. intros OX OW OS OC Hfree Hsl Hnw.
    destruct p; simpl in *; break; intuition (try congruence; try lia).
Qed.

Lemma mutex_step_ok m m' : mutex_ok m -> mutex_step m m' -> mutex_ok m'.
Proof.
  intros [Hw Hfree Hone Hsl] Hst. destruct Hst as [i p w ps Hi Hnw|i j w ps Hi Hj]; simpl in *.
  - apply mutex_own_access; [done| |by split]. intros -> (j & Hj). by eapply Hnw.
  - assert (i <> j) as Hij by congruence.
    assert (Hj' : <[i := PIdle]> ps !! j = Some PSleep) by (by rewrite list_lookup_insert_ne).
    split; simpl; auto.
    + rewrite Hfree. unfold someone. split; intros Hn (k & Hk); apply Hn; exists k.
      * apply list_lookup_insert_Some in Hk as [(_ & ? & _)|[_ Hk]]; [done|].
        by apply list_lookup_insert_Some in Hk as [(_ & ? & _)|[_ Hk]].
      * rewrite !list_lookup_insert_ne; congruence.
    + eapply mutex_one_insert; [exact Hj'| |done]. by eapply mutex_one_insert.
    + intros _. right; right. exists j. apply list_lookup_insert_eq. by eapply lookup_lt_Some.
Qed.

(** In every interleaving of the accesses of [own_lock] and [own_unlock]
    by any number of participants, at most one is inside the critical section,
    the word is 0 exactly when none is, and no wake-up is lost: while somebody
    is parked, the word is 2 (the holder's unlock will wake one), or a waker
    is about to wake one, or a participant is about to retry and mark the word
    contended again. *)
Theorem own_lock_exclusive n m :
  steps mutex_step (mutex_init n) m ->
  (forall i j, mx_pcs m !! i = Some PCrit -> mx_pcs m !! j = Some PCrit -> i = j) /\
  (mx_word m = 0 <-> ~ someone PCrit (mx_pcs m)) /\
  (someone PSleep (mx_pcs m) ->
     mx_word m = 2 /\ someone PCrit (mx_pcs m) \/
     someone PWake (mx_pcs m) \/ someone PXchg (mx_pcs m)).
Proof.
  intros Hs. assert (mutex_ok m) as [Hw Hf Ho Hsl].
  { revert Hs. apply steps_invariant; [apply mutex_step_ok|].
    assert (Hno : forall p, someone p (replicate n PIdle) -> p = PIdle).
    { intros p (i & Hi). by apply lookup_replicate in Hi as [? _]. }
    split; simpl; [auto| | |].
    - split; [|done]. by intros _ ?%Hno.
    - intros i j Hi. by apply lookup_replicate in Hi as [? _].
    - by intros ?%Hno. }
  split; [done|]. split; [done|]. intros Hsleep.
  destruct (Hsl Hsleep) as [H2|H]; [|by right]. left. split; [done|].
  destruct (decide (Exists (eq PCrit) (mx_pcs m))) as [He|Hn].
  - apply Exists_exists in He as (p & [i Hi]%list_elem_of_lookup & <-). by exists i.
  - exfalso. assert (mx_word m = 0); [|lia]. apply Hf. intros (i & Hi). apply Hn.
    apply Exists_exists. exists PCrit. split; [|done]. by eapply list_elem_of_lookup_2.
Qed.

Lemma own_lock_exclusive_witness :
  exists m, mx_pcs m = [PCrit; PSleep] /\ (mx_word m = 0 <-> ~ someone PCrit (mx_pcs m)).
Proof.
  exists (mk_mutex 2 [PCrit; PSleep]). split; [done|].
  refine (proj1 (proj2 (own_lock_exclusive 2 _ _))).
  eapply steps_next; [eapply steps_next; [eapply steps_next;
    [eapply steps_next; [apply steps_refl|]|]|]|].
  - apply (mutex_access 0 PIdle 0); [reflexivity|done].
  - apply (mutex_access 1 PIdle 1); [reflexivity|done].
  - apply (mutex_access 1 PXchg 1); [reflexivity|done].
  - apply (mutex_access 1 PWait 2); [reflexivity|done].
Defined.

End OwnMutex.

(** * Sleeping on the generation word

    [own_wait] and the end of a landing ([own_gen_bump], then [own_gen_wake]
    outside the lock) as interleavings of their atomic accesses on one entry.
    A waiter carries the generation it was handed with BUSY. *)
Module OwnWait.
Import Own.

Inductive wpc :=
| WEnter (g : Z)         (* about to count itself in *)
| WCount (g : Z)         (* counted; about to read the generation *)
| WFutex (g : Z)         (* read its own generation; about to call FUTEX_WAIT *)
| WSleep (g : Z)         (* parked by the kernel *)
| WLeave (woken : bool)  (* about to count itself out *)
| WDone (woken : bool)
| LBump                  (* a lander inside the lock *)
| LCheck                 (* outside: about to read the waiters' count *)
| LWake                  (* about to wake every sleeper *)
| LDone.
#[global] Instance wpc_eq_dec : EqDecision wpc.
Proof. solve_decision. Defined.

Record went := mk_went { we_gen : Z; we_waiters : Z; we_pcs : list wpc }.

(** One atomic access: the new generation, the new count, the point reached. *)
Definition wait_access (p : wpc) (gen waiters : Z) : Z * Z * wpc :=
  match p with
  | WEnter g => (gen, u32 (waiters + 1), WCount g)
  | WCount g => (gen, waiters, if negb (gen =? g) then WLeave true else WFutex g)
  | WFutex g => (gen, waiters, if gen =? g then WSleep g else WCount g)
  | WSleep g => (gen, waiters, WCount g)
  | WLeave b => (gen, u32 (waiters - 1), WDone b)
  | LBump => (own_gen_bump gen, waiters, LCheck)
  | LCheck => (gen, waiters, if nz waiters then LWake else LDone)
  | LWake => (gen, waiters, LDone)
  | WDone _ | LDone => (gen, waiters, p)
  end.
(** FUTEX_WAKE of everybody. *)
Definition wake_all (p : wpc) : wpc := match p with WSleep g => WCount g | _ => p end.

Inductive wait_step : went -> went -> Prop :=
| wait_access_step i p gen ws ps :
    ps !! i = Some p -> p <> LWake ->
    wait_step (mk_went gen ws ps)
      (let '(gen', ws', p') := wait_access p gen ws in mk_went gen' ws' (<[i := p']> ps))
| wait_timeout_step i g ws ps :      (* the bound expired after reading its own generation *)
    ps !! i = Some (WCount g) ->
    wait_step (mk_went g ws ps) (mk_went g ws (<[i := WLeave false]> ps))
| wait_wake_step i gen ws ps :
    ps !! i = Some LWake ->
    wait_step (mk_went gen ws ps) (mk_went gen ws (<[i := LDone]> (wake_all <$> ps))).

Definition counted (p : wpc) : Z :=
  match p with WCount _ | WFutex _ | WSleep _ | WLeave _ => 1 | _ => 0 end.
Definition total (ps : list wpc) : Z := foldr (fun p n => counted p + n) 0 ps.
Definition waking (ps : list wpc) : Prop :=
  exists i, ps !! i = Some LCheck \/ ps !! i = Some LWake.

Record went_ok (w : went) : Prop := {
  wn_size : Z.of_nat (length (we_pcs w)) <= U32MAX;
  wn_count : we_waiters w = total (we_pcs w);
  wn_sleep : forall i g, we_pcs w !! i = Some (WSleep g) -> we_gen w <> g -> waking (we_pcs w)
}.

Lemma counted_range p : 0 <= counted p <= 1.
Proof. destruct p; simpl; lia. Qed.
Lemma total_insert i p p0 ps :
  ps !! i = Some p0 -> total (<[i := p]> ps) = total ps - counted p0 + counted p.
Proof.
  revert i. induction ps as [|q ps IH]; intros [|i] Hi; simplify_eq/=; [lia|].
  change (total (q :: <[i:=p]> ps)) with (counted q + total (<[i:=p]> ps)).
  change (total (q :: ps)) with (counted q + total ps). rewrite (IH i) by done. lia.
Qed.
Lemma total_range ps : 0 <= total ps <= Z.of_nat (length ps).
Proof.
  induction ps as [|p ps IH]; simpl; [lia|]. pose proof (counted_range p).
  change (total (p :: ps)) with (counted p + total ps). lia.
Qed.
Lemma total_wake ps : total (wake_all <$> ps) = total ps.
Proof.
  induction ps as [|p ps IH]; [done|]. rewrite fmap_cons. unfold total in *.
  cbn [foldr]. rewrite IH. by destruct p.
Qed.
Lemma total_sleep ps i g : ps !! i = Some (WSleep g) -> 1 <= total ps.
Proof.
  intros Hi. pose proof (total_insert i LDone _ ps Hi) as Ht.
  pose proof (total_range (<[i := LDone]> ps)). simpl in Ht. lia.
Qed.

Lemma waking_insert ps i p p0 :
  ps !! i = Some p0 -> waking ps -> (p0 = LCheck -> p = LWake) -> p0 <> LWake ->
  waking (<[i := p]> ps).
Proof.
  intros Hi (j & Hj) Hc Hw. destruct (decide (i = j)) as [<-|Hne].
  - exists i. rewrite list_lookup_insert_eq by (by eapply lookup_lt_Some).
    right. f_equal. apply Hc. destruct Hj; congruence.
  - exists j. by rewrite list_lookup_insert_ne.
Qed.

Lemma wait_step_ok w w' : went_ok w -> wait_step w w' -> went_ok w'.
Proof.
  intros [Hsz Hcnt Hsl] Hst. destruct Hst as [i p gen ws ps Hi Hnw|i g ws ps Hi|i gen ws ps Hi];
    simpl in *.
  - pose proof (total_range ps) as Htot.
    assert (Htot' := fun p' => total_insert i p' p ps Hi).
    assert (Hrng := fun p' => total_range (<[i := p']> ps)).
    destruct (wait_access p gen ws) as [[gen' ws'] p'] eqn:Hacc.
    assert (Hws : ws' = ws - counted p + counted p').
    { specialize (Htot' p'). specialize (Hrng p'). rewrite length_insert in Hrng.
      destruct p; simpl in Hacc, Htot'; break; simplify_eq/=; unfold u32; try lia;
      rewrite Z.mod_small; unfold U32MAX in *; simpl in *; lia. }
    split; simpl.
    + by rewrite length_insert.
    + by rewrite Htot', Hws, Hcnt.
    + intros j g Hj Hg.
      apply list_lookup_insert_Some in Hj as [(<- & -> & _)|[Hne Hj]].
      { destruct p; simpl in Hacc; break; simplify_eq/=; lia. }
      pose proof (total_sleep ps j g Hj).
      destruct (decide (p = LBump)) as [->|Hnb].
      { simpl in Hacc. simplify_eq. exists i. left. apply list_lookup_insert_eq. by eapply lookup_lt_Some. }
      assert (gen' = gen) as -> by (destruct p; simpl in Hacc; by simplify_eq).
      apply waking_insert with p; eauto. intros ->. simpl in Hacc.
      destruct (Z.eqb_spec ws 0); simplify_eq/=; [lia|done].
  - split; simpl.
    + by rewrite length_insert.
    + rewrite (total_insert i _ _ ps Hi). simpl. lia.
    + intros j g' [(_ & ? & _)|[Hne Hj]]%list_lookup_insert_Some Hg; [done|].
      apply waking_insert with (WCount g); eauto; done.
  - assert (Hi' : (wake_all <$> ps) !! i = Some LWake) by (by rewrite list_lookup_fmap, Hi).
    split; simpl.
    + by rewrite length_insert, length_fmap.
    + rewrite (total_insert i _ _ _ Hi'), total_wake. simpl. lia.
    + intros j g [(_ & ? & _)|[Hne Hj]]%list_lookup_insert_Some _; [done|].
      rewrite list_lookup_fmap in Hj. destruct (ps !! j) as [[]|]; naive_solver.
Qed.

Definition went_init (gen : Z) (ps : list wpc) : went := mk_went gen 0 ps.
Definition fresh_pc (p : wpc) : bool :=
  match p with WEnter _ | LBump => true | _ => false end.

(** However waiters of one entry and landers of its moves interleave, no
    wake-up is lost: when a waiter is parked although the generation has left
    the one it was handed, a lander that bumped it has still to look at the
    waiters' count or to wake, and the count it will read is not zero.  (The
    participants on one entry are fewer than 2^32, so the count never wraps.) *)
Theorem own_wait_not_lost gen ps w i g :
  forallb fresh_pc ps = true -> Z.of_nat (length ps) <= U32MAX ->
  steps wait_step (went_init gen ps) w ->
  we_pcs w !! i = Some (WSleep g) -> we_gen w <> g ->
  we_waiters w <> 0 /\
  exists j, we_pcs w !! j = Some LCheck \/ we_pcs w !! j = Some LWake.
Proof.
  intros Hf Hsz Hs Hi Hg. assert (went_ok w) as [_ Hc Hsl].
  { revert Hs. apply steps_invariant; [apply wait_step_ok|]. split; simpl; [done| |].
    - clear -Hf. induction ps as [|p ps IH]; [done|]. simpl in Hf. apply andb_prop in Hf as [Hp Hf].
      specialize (IH Hf). destruct p; simpl in *; done || lia.
    - intros j g' Hj _. assert (WSleep g' ∈ ps) as Hin by (by eapply list_elem_of_lookup_2).
      apply forallb_forall with (x := WSleep g') in Hf; [done|].
      by apply list_elem_of_In. }
  split; [|by eapply Hsl]. pose proof (total_sleep _ _ _ Hi). lia.
Qed.

Lemma own_wait_not_lost_witness :
  exists w, we_pcs w = [WSleep 0; LCheck] /\ we_waiters w <> 0.
Proof.
  exists (mk_went 1 1 [WSleep 0; LCheck]). split; [done|].
  refine (proj1 (own_wait_not_lost 0 [WEnter 0; LBump] _ 0 0 _ _ _ _ _));
    [reflexivity|unfold U32MAX; simpl; lia| |reflexivity|done].
  eapply steps_next; [eapply steps_next; [eapply steps_next;
    [eapply steps_next; [apply steps_refl|]|]|]|].
  - apply (wait_access_step 0 (WEnter 0)); [reflexivity|done].
  - apply (wait_access_step 0 (WCount 0)); [reflexivity|done].
  - apply (wait_access_step 0 (WFutex 0)); [reflexivity|done].
  - apply (wait_access_step 1 LBump); [reflexivity|done].
Defined.

End OwnWait.

(** * The fault-service gate (vmremote.c, the ownf family)

    A fault's service is a move TO_REMOTE of the page's token; the counters
    are the monitor's statistics. *)
Module Ownf.
Import Own.

Inductive ownf_answer := OWNF_OFF | OWNF_CLAIMED | OWNF_BUSY (g : Z).
Record ownf_stats := mk_stats {
  n_ownf_claimed : Z; n_ownf_waited : Z; n_ownf_woken : Z; n_ownf_wait_timeout : Z;
  n_ownf_full : Z; n_ownf_landed : Z; n_ownf_aborted : Z }.
(** [of_seg] is [None] when the channel could not be mapped. *)
Record ownf_state := mk_ownf { of_seg : option own_segment; of_stats : ownf_stats }.

Definition st_claimed (n : ownf_stats) : ownf_stats :=
  mk_stats (u64 (n_ownf_claimed n + 1)) (n_ownf_waited n) (n_ownf_woken n) (n_ownf_wait_timeout n)
    (n_ownf_full n) (n_ownf_landed n) (n_ownf_aborted n).
Definition st_full (n : ownf_stats) : ownf_stats :=
  mk_stats (n_ownf_claimed n) (n_ownf_waited n) (n_ownf_woken n) (n_ownf_wait_timeout n)
    (u64 (n_ownf_full n + 1)) (n_ownf_landed n) (n_ownf_aborted n).
Definition st_waited (woken : bool) (n : ownf_stats) : ownf_stats :=
  mk_stats (n_ownf_claimed n) (u64 (n_ownf_waited n + 1))
    (if woken then u64 (n_ownf_woken n + 1) else n_ownf_woken n)
    (if woken then n_ownf_wait_timeout n else u64 (n_ownf_wait_timeout n + 1))
    (n_ownf_full n) (n_ownf_landed n) (n_ownf_aborted n).
Definition st_released (present : bool) (n : ownf_stats) : ownf_stats :=
  mk_stats (n_ownf_claimed n) (n_ownf_waited n) (n_ownf_woken n) (n_ownf_wait_timeout n)
    (n_ownf_full n)
    (if present then u64 (n_ownf_landed n + 1) else n_ownf_landed n)
    (if present then n_ownf_aborted n else u64 (n_ownf_aborted n + 1)).

Definition ownf_claim (ak pk tid now : Z) (st : ownf_state) : ownf_answer * ownf_state :=
  match of_seg st with
  | None => (OWNF_OFF, st)
  | Some s =>
      match own_begin ak pk OWN_T_TO_REMOTE tid now s with
      | (OWN_BEGIN_CLAIMED, _, s') => (OWNF_CLAIMED, mk_ownf (Some s') (st_claimed (of_stats st)))
      | (OWN_BEGIN_BUSY, g, s') => (OWNF_BUSY (default 0 g), mk_ownf (Some s') (of_stats st))
      | (OWN_BEGIN_FULL, _, s') => (OWNF_OFF, mk_ownf (Some s') (st_full (of_stats st)))
      end
  end.
(** [woken] is the answer of [own_wait] (module [OwnWait]). *)
Definition ownf_wait (woken : bool) (st : ownf_state) : Z * ownf_state :=
  ((if woken then 1 else 0), mk_ownf (of_seg st) (st_waited woken (of_stats st))).
Definition ownf_release (ak pk : Z) (present : bool) (st : ownf_state) : ownf_state :=
  match of_seg st with
  | None => st
  | Some s =>
      mk_ownf (Some (snd (if present then own_land ak pk OWN_REMOTE s else own_abort ak pk s)))
        (st_released present (of_stats st))
  end.

(** A fault service that was CLAIMED and is released leaves the page with
    no move in flight and its generation moved on, so that every waiter
    re-decides: the token is recorded REMOTE when the page is present, and
    where it was before the claim when the service did not install it.  Other
    pages keep their records. *)
Theorem ownf_service_settles ak pk tid now s n present st' :
  own_wf s -> is_u64 ak -> ak <> 0 ->
  ownf_claim ak pk tid now (mk_ownf (Some s) n) = (OWNF_CLAIMED, st') ->
  let k := (ak, page_base pk) in
  let '(site, _, gen) := own_at s k in
  exists s2, of_seg (ownf_release ak pk present st') = Some s2 /\ own_wf s2 /\
    own_at s2 k = ((if present then OWN_REMOTE else site), OWN_T_NONE, own_gen_bump gen) /\
    own_gen_bump gen <> gen /\ forall k', k' <> k -> own_at s2 k' = own_at s k'.
Proof.
  intros Hwf Ha Hnz Hc k. unfold ownf_claim in Hc. simpl in Hc.
  pose proof (own_begin_spec ak pk OWN_T_TO_REMOTE tid now s Hwf Ha Hnz) as Hb.
  cbv zeta in Hb. fold k in Hb. destruct (own_at s k) as [[site tr] gen].
  destruct (own_begin _ _ _ _ _ _) as [[r g] s1]. destruct r; [|done|done].
  simplify_eq. destruct g; [done|]. destruct Hb as (Hwf1 & -> & Hat1 & Hoth1).
  assert (Hin : own_abs s1 !! k <> None). { apply transit_abs. unfold transit_of. by rewrite Hat1. }
  pose proof (own_land_spec ak pk OWN_REMOTE s1 Hwf1 Ha Hnz Hin) as Hl.
  pose proof (own_abort_spec ak pk s1 Hwf1 Ha Hnz Hin) as Hab.
  cbv zeta in Hl, Hab. fold k in Hl, Hab. rewrite Hat1 in Hl, Hab. rewrite decide_False in Hab by done.
  eexists. split; [reflexivity|].
  destruct present; [destruct Hl as (? & ? & Hoth)|destruct Hab as (? & ? & Hoth)];
    (split; [done|]; split; [done|]; split; [apply own_gen_bump_changes|]);
    intros k' Hne; unfold own_at; by rewrite Hoth, Hoth1.
Qed.

Definition demo_stats : ownf_stats := mk_stats 0 0 0 0 0 0 0.
Lemma ownf_service_settles_witness :
  exists st' s2, ownf_claim 7 0x5123 1 2 (mk_ownf (Some (own_init_create 4)) demo_stats) =
    (OWNF_CLAIMED, st') /\ of_seg (ownf_release 7 0x5123 true st') = Some s2 /\ own_wf s2.
Proof.
  eexists. assert (Hwf : own_wf (own_init_create 4)) by (apply own_init_wf; [by exists 2%nat|lia]).
  pose proof (fun st' => ownf_service_settles 7 0x5123 1 2 (own_init_create 4) demo_stats true st' Hwf)
    as H. edestruct H as (s2 & H1 & H2 & _); [unfold is_u64, U64MAX; lia|lia|reflexivity|].
  exists s2. split; [reflexivity|]. split; [exact H1|exact H2].
Defined.

End Ownf.
