(* ===== verification/Ranges.v ===== *)
(** * Interval rows

    Two tables of the executor are unordered arrays of disjoint address
    intervals, one row per interval of one address space: the access
    restrictions (access-layout.h) and the shared mappings (shared-layout.h).
    They share the removal loop, the growth of the array and the linear search;
    the row type is an instance of [RangeRow], whose laws say what cutting a
    row keeps.  [carve] is the reference definition of a removal: what is left
    of each row on its own. *)
From S2P Require Import Prelude.

Class RangeRow (R V : Type) := {
  row_as : R -> Z;
  row_st : R -> Z;
  row_en : R -> Z;
  cut_hi : Z -> R -> R;        (* the part below an address *)
  cut_lo : Z -> R -> R;        (* the part from an address on *)
  row_at : R -> Z -> V         (* what the row says of an address in it *)
}.

Class RangeRowLaws (R V : Type) `{RangeRow R V} := {
  cut_hi_as x r : row_as (cut_hi x r) = row_as r;
  cut_hi_st x r : row_st (cut_hi x r) = row_st r;
  cut_hi_en x r : row_en (cut_hi x r) = x;
  cut_lo_as x r : row_as (cut_lo x r) = row_as r;
  cut_lo_st x r : row_st (cut_lo x r) = x;
  cut_lo_en x r : row_en (cut_lo x r) = row_en r;
  cut_hi_at x r a : row_at (cut_hi x r) a = row_at r a;
  cut_lo_at x r a : row_at (cut_lo x r) a = row_at r a
}.

Section ranges.
Context {R V : Type} `{RangeRowLaws R V}.
Implicit Types (r : R) (rows : list R).

(** ** Operations *)

(** [a[n++] = r] in an array of [cap] elements *)
Definition push (cap : Z) r rows : result (list R) :=
  if Z.of_nat (length rows) <? cap then Ok (rows ++ [r]) else Corrupt.

(** The test the loops make before touching a row, negated. *)
Definition row_hit (as_ st en : Z) r : bool :=
  negb (negb (row_as r =? as_) || (row_en r <=? st) || (en <=? row_st r)).

(** The removal loop over the rows from [i] on. *)
Fixpoint remove_loop (cap as_ st en : Z) (fuel i : nat) rows : result (list R) :=
  match fuel with
  | O => Hung
  | S fuel' =>
      match rows !! i with
      | None => Ok rows
      | Some r =>
          if negb (row_hit as_ st en r) then remove_loop cap as_ st en fuel' (S i) rows
          else if row_st r <? st then
            let rows := <[i := cut_hi st r]> rows in
            let! rows := (if en <? row_en r then push cap (cut_lo en r) rows else Ok rows) in
            remove_loop cap as_ st en fuel' (S i) rows
          else if en <? row_en r then
            remove_loop cap as_ st en fuel' (S i) (<[i := cut_lo en r]> rows)
          else remove_loop cap as_ st en fuel' i (swap_remove i rows)
      end
  end.
(** Every iteration moves past a row, or drops one, or leaves a row behind it
    that it will not touch again. *)
Definition remove_fuel rows : nat := S (2 * length rows).
Definition range_remove (cap as_ st en : Z) rows : result (list R) :=
  remove_loop cap as_ st en (remove_fuel rows) 0 rows.

(** The linear search: the first row that covers an address. *)
Definition row_in (as_ a : Z) r : bool :=
  (row_as r =? as_) && (row_st r <=? a) && (a <? row_en r).
Fixpoint row_find (as_ a : Z) rows : option R :=
  match rows with
  | [] => None
  | r :: rows' => if row_in as_ a r then Some r else row_find as_ a rows'
  end.
(** What the table says of an address. *)
Definition denote rows (as_ a : Z) : option V := (fun r => row_at r a) <$> row_find as_ a rows.

(** The inheritance loop: for each of the first rows of the parent, append its
    copy for the child, [f r].  The appends leave the first rows alone. *)
Fixpoint copy_loop (cap parent : Z) (f : R -> R) (first : list R) rows : result (list R) :=
  match first with
  | [] => Ok rows
  | r :: first' =>
      if negb (row_as r =? parent) then copy_loop cap parent f first' rows
      else
        let! rows := push cap (f r) rows in
        copy_loop cap parent f first' rows
  end.

(** Capacity growth: doubling from the current capacity, or from 64. *)
Fixpoint grow_loop (fuel : nat) (n count : Z) : Z :=
  match fuel with
  | O => n
  | S fuel' =>
      if (n <? count) && (n <=? U64MAX / 2) then grow_loop fuel' (n * 2) count else n
  end.
(** [alloc] is whether the allocator serves a request of that many bytes. *)
Definition reserve (alloc : Z -> bool) (size count cap : Z) : result Z :=
  if count <=? cap then Ok cap
  else
    let n := grow_loop 64 (if nz cap then cap else 64) count in
    if (n <? count) || (U64MAX / size <? n) then Aborted
    else if alloc (n * size) then Ok n else Aborted.

(** ** Invariant *)
Definition row_ok r : Prop := row_st r < row_en r.
Definition sep (r1 r2 : R) : Prop :=
  row_as r1 = row_as r2 -> row_en r1 <= row_st r2 \/ row_en r2 <= row_st r1.
Fixpoint pairwise rows : Prop :=
  match rows with [] => True | r :: rows' => Forall (sep r) rows' /\ pairwise rows' end.
Definition rows_wf rows : Prop := Forall row_ok rows /\ pairwise rows.

(** ** The reference: what a removal leaves of one row *)
Definition carve (as_ st en : Z) r : list R :=
  if row_hit as_ st en r then
    (if row_st r <? st then [cut_hi st r] else []) ++
    (if en <? row_en r then [cut_lo en r] else [])
  else [r].

Lemma sep_sym r1 r2 : sep r1 r2 -> sep r2 r1.
Proof. unfold sep. intros Hs Heq. destruct (Hs (eq_sym Heq)); auto. Qed.

Lemma pairwise_perm rows rows' : rows ≡ₚ rows' -> pairwise rows -> pairwise rows'.
Proof.
  induction 1 as [|r l l' Hp IH|r r' l|]; simpl; auto.
  - intros [Hf Hr]. split; [|auto]. by rewrite <- Hp.
  - rewrite !Forall_cons. intros ((Hs & ?) & ? & ?). auto using sep_sym.
Qed.
Lemma rows_wf_perm rows rows' : rows ≡ₚ rows' -> rows_wf rows -> rows_wf rows'.
Proof. intros Hp [? ?]. split; [by rewrite <- Hp|by eapply pairwise_perm]. Qed.

Lemma pairwise_app rows1 rows2 :
  pairwise (rows1 ++ rows2) <->
  pairwise rows1 /\ pairwise rows2 /\ forall x y, x ∈ rows1 -> y ∈ rows2 -> sep x y.
Proof.
  induction rows1 as [|r rows1 IH]; simpl.
  - split; [|naive_solver]. intros. split; [done|]. split; [done|]. by intros ? ? ?%elem_of_nil.
  - rewrite IH, Forall_app, !Forall_forall. split.
    + intros ((Ha & Hb) & Hc & Hd & He). split; [done|]. split; [done|].
      intros x y [->|Hx]%elem_of_cons Hy; auto.
    + intros ((Ha & Hb) & Hc & Hd). split; [split; [done|]|split; [done|split; [done|]]].
      * intros y Hy. apply Hd; [by left|done].
      * intros x y Hx Hy. apply Hd; [by right|done].
Qed.

(** Rows of the pieces lie inside the row they come from. *)
Lemma carve_elem as_ st en r x :
  st <= en -> row_ok r -> x ∈ carve as_ st en r ->
  row_as x = row_as r /\ row_st r <= row_st x /\ row_en x <= row_en r /\ row_ok x /\
  row_hit as_ st en x = false /\ forall a, row_at x a = row_at r a.
Proof.
  unfold carve, row_ok. intros Hle Hr Hx. destruct (row_hit as_ st en r) eqn:Hh.
  - unfold row_hit in *. apply elem_of_app in Hx as [Hx|Hx]; break; try set_solver;
      apply list_elem_of_singleton in Hx as ->.
    + rewrite cut_hi_as, cut_hi_st, cut_hi_en. setoid_rewrite cut_hi_at.
      repeat split; lia.
    + rewrite cut_lo_as, cut_lo_st, cut_lo_en. setoid_rewrite cut_lo_at.
      repeat split; lia.
  - apply list_elem_of_singleton in Hx as ->. repeat split; auto; lia.
Qed.

(** ** The loop is the reference *)
Definition spans (st en : Z) r : bool := (row_st r <? st) && (en <? row_en r).
Definition weight (as_ st en : Z) rows : nat :=
  (length rows + length (filter (fun r => row_hit as_ st en r = true) rows))%nat.
(** Room for the one row a split adds, or no row left to split. *)
Definition room (cap as_ st en : Z) (n : nat) rows : Prop :=
  Z.of_nat n < cap \/ Z.of_nat n <= cap /\
  Forall (fun r => row_hit as_ st en r = true -> spans st en r = false) rows.

Lemma weight_perm as_ st en rows rows' :
  rows ≡ₚ rows' -> weight as_ st en rows = weight as_ st en rows'.
Proof. intros Hp. unfold weight. by rewrite Hp. Qed.
Lemma weight_cons as_ st en r rows :
  weight as_ st en (r :: rows) =
  (weight as_ st en rows + if row_hit as_ st en r then 2 else 1)%nat.
Proof.
  unfold weight. rewrite filter_cons. case_decide as Hh.
  - rewrite Hh. simpl. lia.
  - apply not_true_is_false in Hh. rewrite Hh. simpl. lia.
Qed.
Lemma weight_snoc as_ st en r rows :
  weight as_ st en (rows ++ [r]) = weight as_ st en (r :: rows).
Proof. apply weight_perm. by rewrite Permutation_app_comm. Qed.
Lemma weight_le as_ st en rows : (weight as_ st en rows <= 2 * length rows)%nat.
Proof. unfold weight. pose proof (length_filter (fun r => row_hit as_ st en r = true) rows). lia. Qed.

Lemma room_perm cap as_ st en n rows rows' :
  rows ≡ₚ rows' -> room cap as_ st en n rows -> room cap as_ st en n rows'.
Proof. intros Hp [?|[? Hf]]; [by left|]. right. split; [done|]. by rewrite <- Hp. Qed.
Lemma room_tail cap as_ st en n r rows :
  room cap as_ st en n (r :: rows) -> room cap as_ st en n rows.
Proof. intros [?|[? Hf]]; [by left|]. right. split; [done|]. by apply Forall_cons in Hf as [_ ?]. Qed.

(** A row that spans the whole removed interval is alone on it. *)
Lemma spanned_alone as_ st en r rows :
  row_hit as_ st en r = true -> spans st en r = true -> Forall (sep r) rows ->
  Forall (fun r' => row_hit as_ st en r' = false) rows.
Proof.
  intros Hh Hs Hf. eapply Forall_impl; [exact Hf|]. intros r' Hsep. simpl in Hsep.
  unfold row_hit, spans, sep in *. lia.
Qed.

Lemma remove_loop_spec cap as_ st en fuel i rows :
  st <= en -> (i <= length rows)%nat -> (weight as_ st en (drop i rows) < fuel)%nat ->
  pairwise (drop i rows) -> room cap as_ st en (length rows) (drop i rows) ->
  exists rows', remove_loop cap as_ st en fuel i rows = Ok rows' /\
    rows' ≡ₚ take i rows ++ (drop i rows ≫= carve as_ st en) /\
    Z.of_nat (length rows') <= cap.
Proof.
  intros Hle. revert i rows. induction fuel as [|fuel IH]; intros i rows Hi Hw Hp Hr; [lia|].
  simpl. destruct (rows !! i) as [r|] eqn:Hlk; cycle 1.
  { exists rows. apply lookup_ge_None in Hlk. rewrite drop_ge, take_ge by lia. simpl.
    rewrite app_nil_r. split; [done|]. split; [done|]. destruct Hr as [?|[? _]]; lia. }
  pose proof (lookup_lt_Some _ _ _ Hlk) as Hlt.
  rewrite (drop_S _ r) in Hw, Hp, Hr |- * by done. rewrite weight_cons in Hw.
  destruct Hp as [Hsep Hp]. rewrite bind_cons. unfold carve at 1.
  destruct (row_hit as_ st en r) eqn:Hh; simpl; cycle 1.
  { destruct (IH (S i) rows) as (rows' & -> & Hperm & Hlen); [lia|lia|done|by eapply room_tail|].
    exists rows'. split; [done|]. split; [|done]. rewrite Hperm, (take_S_r _ _ r) by done.
    by rewrite <- app_assoc. }
  destruct (row_st r <? st) eqn:Hst; [destruct (en <? row_en r) eqn:Hen|
    destruct (en <? row_en r) eqn:Hen]; simpl.
  - (* split *)
    assert (Hlc : Z.of_nat (length rows) < cap).
    { destruct Hr as [?|[_ Hf]]; [done|]. apply Forall_cons in Hf as [Hf _].
      specialize (Hf Hh). unfold spans in Hf. lia. }
    unfold push. rewrite length_insert, (proj2 (Z.ltb_lt _ _) Hlc). simpl.
    assert (Hnh : row_hit as_ st en (cut_lo en r) = false).
    { unfold row_hit. rewrite cut_lo_as, cut_lo_st, cut_lo_en. lia. }
    assert (Hd : drop (S i) (<[i := cut_hi st r]> rows ++ [cut_lo en r]) =
      drop (S i) rows ++ [cut_lo en r]).
    { rewrite drop_app_le by (rewrite length_insert; lia). by rewrite drop_insert_next. }
    assert (Hal := spanned_alone as_ st en r _ Hh ltac:(unfold spans; lia) Hsep).
    destruct (IH (S i) (<[i := cut_hi st r]> rows ++ [cut_lo en r])) as (rows' & -> & Hperm & Hlen).
    + rewrite length_app, length_insert. simpl. lia.
    + rewrite Hd, weight_snoc, weight_cons, Hnh. lia.
    + rewrite Hd. apply pairwise_app. split; [done|]. split; [by repeat constructor|].
      intros x y Hx ->%list_elem_of_singleton. rewrite Forall_forall in Hsep, Hal.
      specialize (Hsep x Hx). specialize (Hal x Hx). unfold sep, row_hit in *.
      rewrite cut_lo_as, cut_lo_st, cut_lo_en. lia.
    + right. rewrite Hd, length_app, length_insert. simpl. split; [lia|].
      apply Forall_app. split; [|by repeat constructor; congruence].
      eapply Forall_impl; [exact Hal|]. simpl. congruence.
    + exists rows'. split; [done|]. split; [|done]. rewrite Hperm, Hd, bind_app. simpl.
      unfold carve at 2. rewrite Hnh. rewrite take_app_le by (rewrite length_insert; lia).
      rewrite take_insert_next by done. simpl. solve_Permutation.
  - (* keep the low part *)
    destruct (IH (S i) (<[i := cut_hi st r]> rows)) as (rows' & -> & Hperm & Hlen).
    + rewrite length_insert. lia.
    + rewrite drop_insert_next. lia.
    + by rewrite drop_insert_next.
    + rewrite drop_insert_next, length_insert. by eapply room_tail.
    + exists rows'. split; [done|]. split; [|done].
      rewrite Hperm, drop_insert_next, take_insert_next by done. by rewrite <- app_assoc.
  - (* keep the high part *)
    destruct (IH (S i) (<[i := cut_lo en r]> rows)) as (rows' & -> & Hperm & Hlen).
    + rewrite length_insert. lia.
    + rewrite drop_insert_next. lia.
    + by rewrite drop_insert_next.
    + rewrite drop_insert_next, length_insert. by eapply room_tail.
    + exists rows'. split; [done|]. split; [|done].
      rewrite Hperm, drop_insert_next, take_insert_next by done. by rewrite <- app_assoc.
  - (* drop the row *)
    destruct (swap_remove_split i rows r Hlk) as [Ht Hd].
    pose proof (swap_remove_length i rows Hlt) as Hlen1.
    destruct (IH i (swap_remove i rows)) as (rows' & -> & Hperm & Hlen).
    + lia.
    + rewrite (weight_perm _ _ _ _ _ Hd). lia.
    + by eapply pairwise_perm.
    + eapply room_perm; [symmetry; exact Hd|]. apply room_tail in Hr.
      destruct Hr as [?|[? ?]]; [left; lia|right; split; [lia|done]].
    + exists rows'. split; [done|]. split; [|done]. rewrite Hperm, Ht. by rewrite Hd.
Qed.

Lemma range_remove_spec cap as_ st en rows :
  st <= en -> pairwise rows -> room cap as_ st en (length rows) rows ->
  exists rows', range_remove cap as_ st en rows = Ok rows' /\
    rows' ≡ₚ rows ≫= carve as_ st en /\ Z.of_nat (length rows') <= cap.
Proof.
  intros Hle Hp Hr. unfold range_remove.
  destruct (remove_loop_spec cap as_ st en (remove_fuel rows) 0 rows) as (rows' & He & Hperm & Hl);
    rewrite ?drop_0; auto; [lia| |eauto].
  pose proof (weight_le as_ st en rows). unfold remove_fuel. lia.
Qed.

(** [f] cuts rows into separate pieces of themselves. *)
Definition cuts (f : R -> list R) rows : Prop :=
  forall r, r ∈ rows -> pairwise (f r) /\ forall x, x ∈ f r ->
    row_as x = row_as r /\ row_st r <= row_st x /\ row_en x <= row_en r /\ row_ok x.

Lemma cuts_wf f rows : cuts f rows -> rows_wf rows -> rows_wf (rows ≫= f).
Proof.
  intros Hcut [_ Hp]. split.
  - apply Forall_forall. intros x (r & Hx & Hr)%list_elem_of_bind. by apply (Hcut r Hr).
  - induction rows as [|r rows IH]; [done|]. rewrite bind_cons. destruct Hp as [Hf Hp].
    apply pairwise_app. split; [apply Hcut; by left|]. split.
    + apply IH; [|done]. intros r' Hr'. apply Hcut. by right.
    + intros x y Hx (r' & Hy & Hr')%list_elem_of_bind. rewrite Forall_forall in Hf.
      specialize (Hf r' Hr'). destruct (Hcut r (list_elem_of_here _ _)) as [_ H1].
      destruct (H1 x Hx) as (Ha & Hb & Hc & _).
      destruct (Hcut r' (list_elem_of_further _ _ _ Hr')) as [_ H2].
      destruct (H2 y Hy) as (Ha' & Hb' & Hc' & _).
      unfold sep in *. rewrite Ha, Ha'. intros Heq. destruct (Hf Heq); lia.
Qed.

Lemma carve_cuts as_ st en rows : st <= en -> Forall row_ok rows -> cuts (carve as_ st en) rows.
Proof.
  intros Hle Hok r Hr. rewrite Forall_forall in Hok. specialize (Hok r Hr). split.
  - unfold carve, row_ok in *.
    break; simpl; rewrite ?Forall_nil, ?Forall_singleton; auto. split; [|auto]. unfold sep.
    rewrite cut_hi_en, cut_lo_st. intros _. left. lia.
  - intros x Hx. destruct (carve_elem as_ st en r x) as (? & ? & ? & ? & _); auto.
Qed.
Lemma carve_wf as_ st en rows :
  st <= en -> rows_wf rows -> rows_wf (rows ≫= carve as_ st en).
Proof. intros Hle Hwf. apply cuts_wf; [|done]. apply carve_cuts; [done|apply Hwf]. Qed.

(** ** Reading the table *)
Lemma row_find_Some as_ a r rows :
  pairwise rows -> row_find as_ a rows = Some r <-> r ∈ rows /\ row_in as_ a r = true.
Proof.
  induction rows as [|r0 rows IH]; simpl; intros Hp.
  { split; [done|]. by intros [?%elem_of_nil _]. }
  destruct Hp as [Hf Hp]. destruct (row_in as_ a r0) eqn:Hin0.
  - split; [intros; simplify_eq; split; [by left|done]|].
    intros [[->|Hr]%elem_of_cons Hin]; [done|]. exfalso. rewrite Forall_forall in Hf.
    specialize (Hf r Hr). unfold sep, row_in in *. lia.
  - rewrite IH by done. rewrite elem_of_cons. split; [naive_solver|].
    intros [[->|?] ?]; [congruence|done].
Qed.
Lemma row_find_None as_ a rows :
  row_find as_ a rows = None <-> forall r, r ∈ rows -> row_in as_ a r = false.
Proof.
  induction rows as [|r0 rows IH]; simpl.
  { split; [|done]. by intros _ r ?%elem_of_nil. }
  destruct (row_in as_ a r0) eqn:Hin0.
  - split; [done|]. intros Hn. rewrite Hn in Hin0; [done|by left].
  - rewrite IH. split; [intros Hn r [->|?]%elem_of_cons; auto|]. intros Hn r Hr. apply Hn. by right.
Qed.
Lemma denote_Some rows as_ a v :
  pairwise rows ->
  denote rows as_ a = Some v <-> exists r, r ∈ rows /\ row_in as_ a r = true /\ row_at r a = v.
Proof.
  intros Hp. unfold denote. rewrite fmap_Some. setoid_rewrite row_find_Some; [|done].
  naive_solver.
Qed.
Lemma denote_perm rows rows' as_ a :
  rows ≡ₚ rows' -> pairwise rows -> denote rows as_ a = denote rows' as_ a.
Proof.
  intros Hp Hd. apply option_eq. intros v.
  rewrite !denote_Some by eauto using pairwise_perm. by setoid_rewrite Hp.
Qed.

Lemma denote_app rows1 rows2 as_ a :
  denote (rows1 ++ rows2) as_ a =
  match denote rows1 as_ a with Some v => Some v | None => denote rows2 as_ a end.
Proof.
  unfold denote. induction rows1 as [|r0 rows1 IH]; simpl; [done|].
  by destruct (row_in as_ a r0).
Qed.
Lemma denote_none rows as_ a :
  (forall r, r ∈ rows -> row_in as_ a r = false) -> denote rows as_ a = None.
Proof. intros Hn. unfold denote. by rewrite (proj2 (row_find_None as_ a rows) Hn). Qed.

(** The meaning of cutting every row follows from what becomes of the row
    that covers the address. *)
Lemma denote_cuts (f : R -> list R) (g : V -> option V) rows as_ a :
  cuts f rows -> pairwise rows ->
  (forall r, r ∈ rows -> row_in as_ a r = true -> denote (f r) as_ a = g (row_at r a)) ->
  denote (rows ≫= f) as_ a = denote rows as_ a ≫= g.
Proof.
  intros Hcut. induction rows as [|r rows IH]; [done|]. intros [Hf Hp] Hg.
  assert (Hout : forall r', r' ∈ r :: rows -> row_in as_ a r' = false ->
    forall x, x ∈ f r' -> row_in as_ a x = false).
  { intros r' Hr' Hin x Hx. destruct (Hcut r' Hr') as [_ Hc].
    destruct (Hc x Hx) as (Ha & Hb & Hd & _). unfold row_in in *. rewrite Ha. lia. }
  rewrite bind_cons, denote_app. unfold denote at 3. simpl.
  destruct (row_in as_ a r) eqn:Hr; simpl.
  - rewrite (Hg r) by (done || by left). destruct (g (row_at r a)); [done|].
    apply denote_none. intros x (r' & Hx & Hr')%list_elem_of_bind.
    apply (Hout r'); [by right| |done]. rewrite Forall_forall in Hf. specialize (Hf r' Hr').
    unfold row_in, sep in *. lia.
  - rewrite (denote_none (f r)) by (apply Hout; [by left|done]). apply IH; [|done|].
    + intros r' Hr'. apply Hcut. by right.
    + intros r' Hr'. apply Hg. by right.
Qed.

Lemma denote_single r as_ a :
  denote [r] as_ a = if row_in as_ a r then Some (row_at r a) else None.
Proof. unfold denote. simpl. by destruct (row_in as_ a r). Qed.

Lemma denote_carve as_ st en rows as' a :
  st <= en -> rows_wf rows ->
  denote (rows ≫= carve as_ st en) as' a =
  if (as' =? as_) && (st <=? a) && (a <? en) then None else denote rows as' a.
Proof.
  intros Hle [Hok Hp].
  rewrite (denote_cuts _ (fun v => if (as' =? as_) && (st <=? a) && (a <? en) then None else Some v)).
  - destruct (_ && _ && _); by destruct (denote rows as' a).
  - by apply carve_cuts.
  - done.
  - intros r Hr Hin. unfold carve. destruct (row_hit as_ st en r) eqn:Hh.
    + rewrite denote_app. unfold row_hit, row_in in *.
      destruct (row_st r <? st) eqn:H1, (en <? row_en r) eqn:H2; rewrite ?denote_single;
        unfold row_in; rewrite ?cut_hi_as, ?cut_hi_st, ?cut_hi_en, ?cut_lo_as, ?cut_lo_st,
          ?cut_lo_en, ?cut_hi_at, ?cut_lo_at; unfold denote; simpl; break; try done; lia.
    + rewrite denote_single, Hin. unfold row_hit, row_in in *.
      rewrite (proj2 (andb_false_iff _ _)); [done|]. lia.
Qed.

(** A removal of wider extent than the rows leaves none of the space. *)
Lemma carve_length as_ st en rows :
  Forall (fun r => row_hit as_ st en r = true -> spans st en r = false) rows ->
  (length (rows ≫= carve as_ st en) <= length rows)%nat.
Proof.
  induction 1 as [|r rows Hr _ IH]; [done|]. rewrite bind_cons, length_app. cbn [length].
  assert (length (carve as_ st en r) <= 1)%nat; [|lia]. unfold carve. unfold spans in Hr.
  destruct (row_hit as_ st en r); [specialize (Hr eq_refl)|done].
  destruct (row_st r <? st), (en <? row_en r); simpl in *; try done; lia.
Qed.

Lemma carve_length_split as_ st en rows :
  pairwise rows -> (length (rows ≫= carve as_ st en) <= S (length rows))%nat.
Proof.
  induction rows as [|r rows IH]; [simpl; lia|]. intros [Hf Hp].
  rewrite bind_cons, length_app. cbn [length].
  destruct (row_hit as_ st en r && spans st en r) eqn:Hsp.
  - apply andb_prop in Hsp as [Hh Hs]. pose proof (spanned_alone as_ st en r rows Hh Hs Hf) as Hal.
    assert (length (rows ≫= carve as_ st en) <= length rows)%nat.
    { apply carve_length. eapply Forall_impl; [exact Hal|]. simpl. congruence. }
    assert (length (carve as_ st en r) <= 2)%nat; [|lia].
    unfold carve. rewrite Hh. break; simpl; lia.
  - specialize (IH Hp). assert (length (carve as_ st en r) <= 1)%nat; [|lia].
    unfold carve, spans in *. destruct (row_hit as_ st en r); [|done].
    destruct (row_st r <? st), (en <? row_en r); simpl in *; try done; lia.
Qed.

Lemma carve_free as_ st en rows x :
  st <= en -> rows_wf rows -> x ∈ rows ≫= carve as_ st en -> row_hit as_ st en x = false.
Proof.
  intros Hle [Hok _] (r & Hx & Hr)%list_elem_of_bind. rewrite Forall_forall in Hok.
  apply (carve_elem as_ st en r x); auto.
Qed.

(** Of disjoint rows, at most one has a given address strictly inside. *)
Definition crosses (as_ x : Z) r : Prop := row_as r = as_ /\ row_st r < x < row_en r.
#[global] Instance crosses_dec as_ x r : Decision (crosses as_ x r).
Proof. unfold crosses. solve_decision. Defined.
Lemma crosses_one as_ x rows :
  pairwise rows -> (length (filter (crosses as_ x) rows) <= 1)%nat.
Proof.
  induction rows as [|r rows IH]; [simpl; lia|]. intros [Hf Hp]. rewrite filter_cons.
  case_decide as Hc; [|by auto]. simpl.
  destruct (filter (crosses as_ x) rows) as [|r' l] eqn:Hl; [done|].
  assert (r' ∈ filter (crosses as_ x) rows) as [Hc' Hr']%list_elem_of_filter
    by (rewrite Hl; by left).
  rewrite Forall_forall in Hf. specialize (Hf r' Hr'). unfold crosses, sep in *. lia.
Qed.

(** A new row on a free interval. *)
Lemma snoc_wf rows r :
  rows_wf rows -> row_ok r ->
  (forall x, x ∈ rows -> row_hit (row_as r) (row_st r) (row_en r) x = false) ->
  rows_wf (rows ++ [r]).
Proof.
  intros [Hok Hp] Hr Hfree. split; [apply Forall_app; auto|].
  apply pairwise_app. split; [done|]. split; [by repeat constructor|].
  intros x y Hx ->%list_elem_of_singleton. specialize (Hfree x Hx).
  rewrite Forall_forall in Hok. specialize (Hok x Hx). unfold sep, row_hit, row_ok in *. lia.
Qed.
Lemma denote_snoc rows r as_ a :
  denote (rows ++ [r]) as_ a =
  match denote rows as_ a with
  | Some v => Some v
  | None => if row_in as_ a r then Some (row_at r a) else None
  end.
Proof. by rewrite denote_app, denote_single. Qed.

(** ** Inheritance *)
Definition of_parent (parent : Z) rows : list R := filter (fun r => row_as r = parent) rows.
(** [f] moves a row to the space [child] and maps what it says through [h]. *)
Definition relabels (child : Z) (f : R -> R) (h : V -> V) : Prop := forall r,
  row_as (f r) = child /\ row_st (f r) = row_st r /\ row_en (f r) = row_en r /\
  forall a, row_at (f r) a = h (row_at r a).

Lemma copy_loop_spec cap parent f first rows :
  Z.of_nat (length rows) + Z.of_nat (length (of_parent parent first)) <= cap ->
  copy_loop cap parent f first rows = Ok (rows ++ (f <$> of_parent parent first)).
Proof.
  revert rows. induction first as [|r first IH]; intros rows Hc; simpl.
  { by rewrite app_nil_r. }
  unfold of_parent in *. rewrite filter_cons in Hc |- *.
  destruct (Z.eqb_spec (row_as r) parent) as [Heq|Hne]; simpl.
  - rewrite decide_True in Hc |- * by done. simpl in Hc. unfold push.
    rewrite (proj2 (Z.ltb_lt _ _)) by lia. simpl.
    rewrite IH; [by rewrite <- app_assoc|]. rewrite length_app. simpl. lia.
  - rewrite decide_False in Hc |- * by done. by apply IH.
Qed.

Lemma of_parent_length parent rows : (length (of_parent parent rows) <= length rows)%nat.
Proof. apply length_filter. Qed.

Section relabel.
Context (child parent : Z) (f : R -> R) (h : V -> V) (Hf : relabels child f h).

Lemma elem_of_relabelled x rows :
  x ∈ f <$> of_parent parent rows <-> exists r, r ∈ rows /\ row_as r = parent /\ x = f r.
Proof.
  rewrite list_elem_of_fmap. unfold of_parent. setoid_rewrite list_elem_of_filter. naive_solver.
Qed.
Lemma pairwise_relabelled rows : pairwise rows -> pairwise (f <$> of_parent parent rows).
Proof.
  induction rows as [|r rows IH]; [done|]. intros [Hs Hp]. unfold of_parent in *.
  rewrite filter_cons. case_decide as Hr; [|by auto]. rewrite fmap_cons. split; [|by auto].
  apply Forall_forall. intros x (y & Hin & Hy & ->)%elem_of_relabelled.
  rewrite Forall_forall in Hs. specialize (Hs y Hin).
  destruct (Hf r) as (_ & H1 & H2 & _), (Hf y) as (_ & H3 & H4 & _).
  unfold sep in *. rewrite H1, H2, H3, H4. intros _. apply Hs. congruence.
Qed.

Lemma relabel_rows_wf rows :
  rows_wf rows -> (forall x, x ∈ rows -> row_as x <> child) ->
  rows_wf (rows ++ (f <$> of_parent parent rows)).
Proof.
  intros [Hok Hp] Hno. split.
  - apply Forall_app. split; [done|]. apply Forall_forall. rewrite Forall_forall in Hok.
    intros x (r & Hr & _ & ->)%elem_of_relabelled. destruct (Hf r) as (_ & H1 & H2 & _).
    unfold row_ok. rewrite H1, H2. by apply Hok.
  - apply pairwise_app. split; [done|]. split; [by apply pairwise_relabelled|].
    intros x y Hx (r & _ & _ & ->)%elem_of_relabelled Heq.
    destruct (Hf r) as (H1 & _). destruct (Hno x Hx). congruence.
Qed.

Lemma denote_relabelled rows as_ a :
  child <> parent -> rows_wf rows -> (forall x, x ∈ rows -> row_as x <> child) ->
  denote (rows ++ (f <$> of_parent parent rows)) as_ a =
  if as_ =? child then h <$> denote rows parent a else denote rows as_ a.
Proof.
  intros Hne [Hok Hp] Hno. rewrite denote_app. destruct (Z.eqb_spec as_ child) as [->|Has].
  - rewrite denote_none; [|intros x Hx; specialize (Hno x Hx); unfold row_in; lia].
    apply option_eq. intros v. rewrite denote_Some by (by apply pairwise_relabelled).
    rewrite fmap_Some. setoid_rewrite denote_Some; [|done].
    setoid_rewrite elem_of_relabelled. split.
    + intros (x & (r & Hr & Hpa & ->) & Hin & <-). destruct (Hf r) as (H1 & H2 & H3 & H4).
      unfold row_in in Hin. exists (row_at r a). split; [|done].
      exists r. unfold row_in. split; [done|]. split; [lia|done].
    + intros (v0 & (r & Hr & Hin & <-) & ->). destruct (Hf r) as (H1 & H2 & H3 & H4).
      unfold row_in in *. exists (f r). split; [exists r; split; [done|]; split; [lia|done]|].
      split; [lia|done].
  - destruct (denote rows as_ a); [done|]. apply denote_none.
    intros x (r & _ & _ & ->)%elem_of_relabelled. destruct (Hf r) as (H1 & _).
    unfold row_in. lia.
Qed.
End relabel.

(** ** Growth *)
Lemma grow_loop_ge fuel n count :
  0 < n -> 0 <= count <= U64MAX / 2 ->
  n <= grow_loop fuel n count /\
  (count <= n * 2 ^ Z.of_nat fuel -> count <= grow_loop fuel n count).
Proof.
  intros Hn Hc. revert n Hn. induction fuel as [|fuel IH]; intros n Hn.
  { simpl. change (2 ^ Z.of_nat 0) with 1. lia. }
  rewrite Nat2Z.inj_succ, Z.pow_succ_r by lia. simpl.
  destruct (n <? count) eqn:Hc1; simpl; [|lia].
  rewrite (proj2 (Z.leb_le _ _)) by lia. destruct (IH (n * 2)) as [Ha Hb]; [lia|].
  split; [lia|]. intros. apply Hb. lia.
Qed.
Lemma grow_loop_le fuel n count :
  0 < n -> n <= Z.max 64 (2 * count) -> grow_loop fuel n count <= Z.max 64 (2 * count).
Proof.
  revert n. induction fuel as [|fuel IH]; intros n Hn Hle; simpl; [done|].
  break; [|done]. apply IH; lia.
Qed.

Lemma grow_loop_mono fuel n count : 0 < n -> n <= grow_loop fuel n count.
Proof.
  revert n. induction fuel as [|fuel IH]; intros n Hn; simpl; [done|].
  break; [|done]. specialize (IH (n * 2)). lia.
Qed.
Lemma reserve_ok alloc size count cap cap' :
  0 <= cap -> reserve alloc size count cap = Ok cap' -> count <= cap' /\ cap <= cap' /\ 0 <= cap'.
Proof.
  unfold reserve. intros Hc Hr. destruct (count <=? cap) eqn:Hle; [simplify_eq; lia|].
  set (n0 := if nz cap then cap else 64) in *. assert (Hn0 : 0 < n0 /\ cap <= n0).
  { unfold n0. destruct (Z.eqb_spec cap 0); simpl; lia. }
  pose proof (grow_loop_mono 64 n0 count) as Hm. destruct (grow_loop 64 n0 count); break; lia.
Qed.
(** It aborts only for a request near the address space's size, or when the
    allocator refuses. *)
Lemma reserve_serves alloc size count cap :
  0 < size <= 1024 -> 0 <= cap -> 0 <= count <= 2 ^ 48 -> (forall n, alloc n = true) ->
  exists cap', reserve alloc size count cap = Ok cap'.
Proof.
  intros Hs Hcap Hc Hal. unfold reserve. destruct (count <=? cap) eqn:Hc1; [by eauto|].
  set (n0 := if nz cap then cap else 64). assert (0 < n0 <= Z.max 64 (2 * count)) as Hn0.
  { unfold n0. destruct (Z.eqb_spec cap 0); simpl; lia. }
  rewrite Hal. pose proof (grow_loop_le 64 n0 count) as Hle.
  destruct (grow_loop_ge 64 n0 count) as [Ha Hb]; [lia|split; [lia|]; transitivity (2 ^ 48); [lia|by vm_compute]|].
  change (2 ^ Z.of_nat 64) with (2 ^ 64) in Hb.
  rewrite (proj2 (Z.ltb_ge _ _)) by (apply Hb; lia).
  rewrite (proj2 (Z.ltb_ge _ _)); [cbn [orb]; eauto|].
  etransitivity; [apply Hle; lia|]. apply Z.div_le_lower_bound; [lia|]. unfold U64MAX. nia.
Qed.
End ranges.
#[export] Hint Resolve sep_sym : vmctx.
#[global] Arguments grow_loop : simpl never.
#[global] Arguments reserve : simpl never.
#[global] Arguments range_remove : simpl never.
