(* ===== verification/AccessLayout.v ===== *)
(** * Access restrictions (user/access-layout.h)

    The executor's table of base rights and guards, by address space and
    address interval.  Every operation runs under [access_state_lock] and is
    one function on the table; the array's capacity is part of the state, so
    that a write past it shows as [Corrupt]. *)
From S2P Require Import Prelude Ranges.

Module AccessLayout.

Record access_range := mk_access {
  ar_as : Z; ar_start : Z; ar_end : Z; ar_sequence : Z; ar_protection : Z; ar_denied : Z }.
(** What a row says of each of its addresses. *)
Abbreviation access_value := (Z * Z * Z)%type (only parsing).

#[global] Instance access_row : RangeRow access_range access_value := {|
  row_as := ar_as; row_st := ar_start; row_en := ar_end;
  cut_hi x r := mk_access (ar_as r) (ar_start r) x (ar_sequence r) (ar_protection r) (ar_denied r);
  cut_lo x r := mk_access (ar_as r) x (ar_end r) (ar_sequence r) (ar_protection r) (ar_denied r);
  row_at r _ := (ar_sequence r, ar_protection r, ar_denied r) |}.
#[global] Instance access_row_laws : RangeRowLaws access_range access_value.
Proof. by split. Qed.

Record access_table := mk_table { access_ranges : list access_range; access_capacity : Z }.

Definition sizeof_access_range : Z := 40.

Section ops.
(** Whether realloc serves a request of that many bytes. *)
Context (alloc : Z -> bool).

Definition access_reserve (count : Z) (t : access_table) : result access_table :=
  let! cap := reserve alloc sizeof_access_range count (access_capacity t) in
  Ok (mk_table (access_ranges t) cap).
Definition access_count (t : access_table) : Z := Z.of_nat (length (access_ranges t)).

Definition access_remove_locked (as_ start end_ : Z) (t : access_table) : result access_table :=
  let! t := access_reserve (access_count t + 1) t in
  let! rows := range_remove (access_capacity t) as_ start end_ (access_ranges t) in
  Ok (mk_table rows (access_capacity t)).

Definition access_forget (as_ : Z) (t : access_table) : result access_table :=
  access_remove_locked as_ 0 U64MAX t.

(** The search loop: [out] is the gap known so far. *)
Fixpoint access_scan (as_ addr : Z) (out : access_range) (rows : list access_range)
  : bool * access_range :=
  match rows with
  | [] => (false, out)
  | r :: rows' =>
      if negb (ar_as r =? as_) || (ar_end r <=? addr) then access_scan as_ addr out rows'
      else if ar_start r <=? addr then (true, r)
      else
        access_scan as_ addr
          (if ar_start r <? ar_end out
           then mk_access (ar_as out) (ar_start out) (ar_start r) (ar_sequence out)
                  (ar_protection out) (ar_denied out)
           else out) rows'
  end.
Definition access_lookup (as_ addr end_ : Z) (t : access_table) : bool * access_range :=
  access_scan as_ addr (mk_access as_ addr end_ 0 0 0) (access_ranges t).

(** [access_ranges[access_count++] = r] *)
Definition access_push (r : access_range) (t : access_table) : result access_table :=
  let! rows := push (access_capacity t) r (access_ranges t) in
  Ok (mk_table rows (access_capacity t)).

Definition access_note (r : access_range) (t : access_table) : result access_table :=
  let! t := access_reserve (access_count t + 2) t in
  let! t := access_remove_locked (ar_as r) (ar_start r) (ar_end r) t in
  access_push r t.

(** The child's copy of a row: the child has its own journal and sequence. *)
Definition inherited (child : Z) (r : access_range) : access_range :=
  mk_access child (ar_start r) (ar_end r) 0 (ar_protection r) (ar_denied r).
Definition access_inherit (child parent : Z) (t : access_table) : result access_table :=
  if child =? parent then Ok t
  else
    let! t := access_remove_locked child 0 U64MAX t in
    let n := access_count t in
    let! t := access_reserve (n * 2 + 1) t in
    let! rows := copy_loop (access_capacity t) parent (inherited child) (access_ranges t)
                   (access_ranges t) in
    Ok (mk_table rows (access_capacity t)).

(** ** Invariant *)
Definition row_bounded (r : access_range) : Prop := 0 <= ar_start r /\ ar_end r <= U64MAX.
Record access_wf (t : access_table) : Prop := {
  aw_rows : rows_wf (access_ranges t);
  aw_bounds : Forall row_bounded (access_ranges t);
  aw_capacity : access_count t <= access_capacity t
}.
(** The table as a partial function from address spaces and addresses. *)
Definition access_at (t : access_table) (as_ a : Z) : option access_value :=
  denote (access_ranges t) as_ a.

Lemma access_reserve_ok count t t' :
  access_wf t -> access_reserve count t = Ok t' ->
  access_wf t' /\ access_ranges t' = access_ranges t /\ count <= access_capacity t' /\
  access_capacity t <= access_capacity t'.
Proof.
  intros [Hr Hb Hc] (cap & Hres & Hok)%result_bind_ok. simplify_eq/=.
  apply reserve_ok in Hres; [|unfold access_count in Hc; lia].
  split; [|simpl; intuition lia]. split; simpl; auto. unfold access_count in *. simpl. lia.
Qed.

(** Never an access outside the array, never an endless loop. *)
Lemma access_reserve_outcome count t :
  (exists t', access_reserve count t = Ok t') \/ access_reserve count t = Aborted.
Proof.
  unfold access_reserve, reserve. destruct (count <=? _); simpl; [by left; eauto|].
  destruct (_ || _); simpl; [by right|]. destruct (alloc _); simpl; eauto.
Qed.
End ops.
#[global] Arguments access_reserve : simpl never.

Section specs.
Context (alloc : Z -> bool).

Lemma access_remove_spec as_ st en t :
  access_wf t -> 0 <= st <= en -> en <= U64MAX ->
  match access_remove_locked alloc as_ st en t with
  | Ok t' => access_wf t' /\ access_capacity t <= access_capacity t' /\
      access_count t' <= access_count t + 1 /\
      (forall x, x ∈ access_ranges t' -> row_hit as_ st en x = false) /\
      forall as' a, access_at t' as' a =
        if (as' =? as_) && (st <=? a) && (a <? en) then None else access_at t as' a
  | Aborted => access_reserve alloc (access_count t + 1) t = Aborted
  | _ => False
  end.
Proof.
  intros Hwf Hst Hen. unfold access_remove_locked.
  destruct (access_reserve_outcome alloc (access_count t + 1) t) as [[t1 Hr]|Hr]; rewrite Hr; [|done].
  simpl. apply access_reserve_ok in Hr as (Hwf1 & Heq & Hcap & Hge); [|done]. rewrite Heq.
  destruct Hwf1 as [Hrows Hb Hc]. rewrite Heq in Hrows, Hb.
  destruct (range_remove_spec (access_capacity t1) as_ st en (access_ranges t))
    as (rows' & -> & Hperm & Hlen); [lia|apply Hrows|left; unfold access_count in Hcap; lia|].
  simpl. pose proof (carve_wf as_ st en _ (proj2 Hst) Hrows) as Hcw.
  pose proof (rows_wf_perm _ _ (symmetry Hperm) Hcw) as Hw'.
  split; [|split; [done|split; [|split]]].
  - split; simpl; [done| |done]. rewrite Hperm. apply Forall_forall.
    intros x (r & Hx & Hin)%list_elem_of_bind. rewrite Forall_forall in Hb.
    destruct Hrows as [Hok _]. rewrite Forall_forall in Hok.
    destruct (carve_elem as_ st en r x) as (_ & H1 & H2 & _); auto; [lia|].
    specialize (Hb r Hin). unfold row_bounded in *. simpl in *. lia.
  - unfold access_count. simpl. rewrite Hperm.
    pose proof (carve_length_split as_ st en _ (proj2 Hrows)). lia.
  - intros x Hx. rewrite Hperm in Hx. eapply carve_free; [|exact Hrows|exact Hx]. lia.
  - intros as' a. unfold access_at. simpl. rewrite (denote_perm _ _ _ _ Hperm) by apply Hw'.
    apply denote_carve; [lia|done].
Qed.

Lemma access_push_spec r t :
  access_wf t -> row_ok r -> row_bounded r -> access_count t < access_capacity t ->
  (forall x, x ∈ access_ranges t -> row_hit (ar_as r) (ar_start r) (ar_end r) x = false) ->
  exists t', access_push r t = Ok t' /\ access_wf t' /\
    access_capacity t' = access_capacity t /\ access_count t' = access_count t + 1 /\
    access_ranges t' = access_ranges t ++ [r].
Proof.
  intros [Hr Hb Hc] Hok Hbr Hlt Hfree. unfold access_push, push.
  fold (access_count t). rewrite (proj2 (Z.ltb_lt _ _) Hlt). simpl. eexists. split; [reflexivity|].
  assert (Hn : forall rs c, access_count (mk_table (rs ++ [r]) c) =
    Z.of_nat (length rs) + 1).
  { intros. unfold access_count. simpl. rewrite length_app. simpl. lia. }
  split; [|rewrite Hn; auto]. split; simpl.
  - by apply snoc_wf.
  - apply Forall_app. auto.
  - rewrite Hn. fold (access_count t). lia.
Qed.

Lemma denote_free rows as_ a r :
  (forall x, x ∈ rows -> row_hit (ar_as r) (ar_start r) (ar_end r) x = false) ->
  row_in as_ a r = true -> denote rows as_ a = None.
Proof.
  intros Hfree Hin. unfold denote. rewrite (proj2 (row_find_None as_ a rows)); [done|].
  intros x Hx. specialize (Hfree x Hx). unfold row_in, row_hit in *. simpl in *. lia.
Qed.

Definition alloc_serves : Prop := forall n, alloc n = true.
Lemma access_reserve_aborted count t :
  access_wf t -> 0 <= count <= 2 ^ 48 -> alloc_serves -> access_reserve alloc count t <> Aborted.
Proof.
  intros Hwf Hc Hs. unfold access_reserve.
  destruct (reserve_serves alloc sizeof_access_range count (access_capacity t)) as [cap ->]; [| | | |done].
  - unfold sizeof_access_range. lia.
  - pose proof (aw_capacity t Hwf). unfold access_count in *. lia.
  - done.
  - done.
Qed.

Lemma access_note_result r t :
  access_wf t -> row_ok r -> row_bounded r ->
  match access_note alloc r t with
  | Ok t' => access_wf t' /\ forall as_ a,
      access_at t' as_ a =
      if row_in as_ a r then Some (ar_sequence r, ar_protection r, ar_denied r)
      else access_at t as_ a
  | Aborted => ~ (alloc_serves /\ access_count t + 2 <= 2 ^ 48)
  | _ => False
  end.
Proof.
  intros Hwf Hok Hb. unfold access_note.
  destruct (access_reserve_outcome alloc (access_count t + 2) t) as [[t1 Hr]|Hr]; rewrite Hr; simpl.
  2:{ intros [Hs Hc]. eapply access_reserve_aborted in Hr; eauto. unfold access_count in *. lia. }
  apply access_reserve_ok in Hr as (Hwf1 & Heq & Hcap & _); [|done].
  pose proof (access_remove_spec (ar_as r) (ar_start r) (ar_end r) t1 Hwf1) as Hrm.
  unfold row_ok, row_bounded in *. simpl in *.
  assert (Hcnt : access_count t1 = access_count t) by (unfold access_count; by rewrite Heq).
  destruct (access_remove_locked alloc _ _ _ t1) as [t2|e| | |]; [|by apply Hrm; lia| |by apply Hrm; lia..].
  - destruct Hrm as (Hwf2 & Hge & Hlen & Hfree & Hat); [lia|lia|].
    destruct (access_push_spec r t2) as (t3 & Hpush & Hwf3 & _ & _ & Hrows); auto; [lia|].
    simpl. rewrite Hpush. split; [done|]. intros as_ a. unfold access_at. rewrite Hrows, denote_snoc.
    destruct (row_in as_ a r) eqn:Hin.
    + by rewrite (denote_free (access_ranges t2) as_ a r).
    + fold (access_at t2 as_ a). rewrite Hat. unfold row_in in Hin. simpl in Hin.
      rewrite (Z.eqb_sym as_), Hin. unfold access_at. rewrite Heq. by destruct (denote _ _ _).
  - exfalso. specialize (Hrm ltac:(lia) ltac:(lia)). unfold access_reserve, reserve in Hrm.
    rewrite (proj2 (Z.leb_le _ _)) in Hrm by lia. done.
Qed.

Lemma access_scan_spec as_ addr out rows :
  match access_scan as_ addr out rows with
  | (true, r) => r ∈ rows /\ row_in as_ addr r = true
  | (false, out') =>
      (forall r, r ∈ rows -> row_in as_ addr r = false) /\
      ar_start out' = ar_start out /\ ar_end out' <= ar_end out /\
      (forall r, r ∈ rows -> ar_as r = as_ -> ar_end r <= addr \/ ar_end out' <= ar_start r) /\
      (ar_end out' = ar_end out \/
       exists r, r ∈ rows /\ ar_as r = as_ /\ addr < ar_end r /\ ar_start r = ar_end out')
  end.
Proof.
  revert out. induction rows as [|r rows IH]; intros out; simpl.
  { repeat split; auto; try lia; by intros r ?%elem_of_nil. }
  destruct (negb (ar_as r =? as_) || (ar_end r <=? addr)) eqn:H1.
  { specialize (IH out). destruct (access_scan as_ addr out rows) as [[] o'].
    - destruct IH. split; [by right|done].
    - destruct IH as (Ha & Hb & Hc & Hd & He). split; [|split; [done|split; [done|split]]].
      + intros r' [->|?]%elem_of_cons; [|by auto]. unfold row_in. simpl. lia.
      + intros r' [->|?]%elem_of_cons; [|by auto]. lia.
      + destruct He as [|(r' & ? & ?)]; [by left|]. right. exists r'. by split; [right|]. }
  destruct (ar_start r <=? addr) eqn:H2.
  { split; [by left|]. unfold row_in. simpl. lia. }
  set (o1 := if ar_start r <? ar_end out then _ else out).
  assert (Ho : ar_start o1 = ar_start out /\ ar_end o1 = Z.min (ar_end out) (ar_start r)).
  { unfold o1. destruct (ar_start r <? ar_end out) eqn:?; simpl; lia. }
  specialize (IH o1). destruct (access_scan as_ addr o1 rows) as [[] o'].
  - destruct IH. split; [by right|done].
  - destruct IH as (Ha & Hb & Hc & Hd & He). split; [|split; [lia|split; [lia|split]]].
    + intros r' [->|?]%elem_of_cons; [|by auto]. unfold row_in. simpl. lia.
    + intros r' [->|?]%elem_of_cons; [|by auto]. lia.
    + destruct He as [He|(r' & ? & ?)]; [|right; exists r'; by split; [right|]].
      destruct (decide (ar_end out <= ar_start r)); [left; lia|].
      right. exists r. split; [by left|]. lia.
Qed.

Lemma access_scan_gap as_ addr out rows :
  match access_scan as_ addr out rows with (true, _) => True | (false, out') => ar_denied out' = ar_denied out end.
Proof.
  revert out. induction rows as [|r rows IH]; intros out; simpl; [done|]. destruct (_ || _); [apply IH|].
  destruct (_ <=? _); [done|]. specialize (IH (if ar_start r <? ar_end out
    then mk_access (ar_as out) (ar_start out) (ar_start r) (ar_sequence out) (ar_protection out) (ar_denied out) else out)).
  destruct (access_scan _ _ _ _) as [[] ?]; [done|]. rewrite IH. by destruct (_ <? _).
Qed.
(** The part of a range the answer of a lookup holds for. *)
Lemma access_lookup_span as_ start end_ t :
  access_wf t -> start < end_ ->
  let '(have, r) := access_lookup as_ start end_ t in
  let next := if ar_end r <? end_ then ar_end r else end_ in
  start < next <= end_ /\ (have = false -> ar_denied r = 0) /\
  forall a, start <= a < next ->
    access_at t as_ a = if have then Some (ar_sequence r, ar_protection r, ar_denied r) else None.
Proof.
  intros Hwf Hlt. unfold access_lookup.
  pose proof (access_scan_spec as_ start (mk_access as_ start end_ 0 0 0) (access_ranges t)) as Hs.
  pose proof (access_scan_gap as_ start (mk_access as_ start end_ 0 0 0) (access_ranges t)) as Hg.
  destruct Hwf as [[Hok Hp] _ _]. rewrite Forall_forall in Hok.
  destruct (access_scan _ _ _ _) as [[] r]; cbv zeta.
  - destruct Hs as [Hin Hr]. unfold row_in in Hr. simpl in Hr.
    split; [destruct (Z.ltb_spec (ar_end r) end_); lia|]. split; [done|]. intros a Ha.
    apply denote_Some; [done|]. exists r. split; [done|]. split; [|done]. unfold row_in. simpl.
    destruct (Z.ltb_spec (ar_end r) end_); lia.
  - destruct Hs as (Hno & Hst & Hen & Hgap & Hend). simpl in *. split; [|split; [done|]].
    + destruct (Z.ltb_spec (ar_end r) end_) as [He|He]; [|lia]. split; [|lia].
      destruct Hend as [|(x & Hx & Has & Hlt' & Hse)]; [lia|]. specialize (Hno x Hx). unfold row_in in Hno. simpl in Hno. lia.
    + intros a Ha. unfold access_at, denote. rewrite (proj2 (row_find_None as_ a _)); [done|].
      intros x Hx. specialize (Hgap x Hx). unfold row_in. simpl.
      destruct (Z.ltb_spec (ar_end r) end_); lia.
Qed.

(** ** Properties *)

(** Noting a restriction on a non-empty interval keeps the rows disjoint
    and inside the array, and the table then answers with the new sequence,
    rights and guard on exactly that interval and as before everywhere else,
    other address spaces included.  The only other outcome is the abort of a
    failed allocation: it does not happen while the allocator serves and the
    table has fewer than 2^48 rows. *)
Theorem access_note_updates r t :
  access_wf t -> row_ok r -> row_bounded r ->
  match access_note alloc r t with
  | Ok t' => access_wf t' /\ forall as_ a,
      access_at t' as_ a =
      if row_in as_ a r then Some (ar_sequence r, ar_protection r, ar_denied r)
      else access_at t as_ a
  | Aborted => ~ (alloc_serves /\ access_count t + 2 <= 2 ^ 48)
  | _ => False
  end.
Proof. apply access_note_result. Qed.

(** The lookup of an address returns the one row that covers it when
    there is one; otherwise the gap it returns starts at the address, is free
    of restrictions to its end, and ends at the caller's limit or where the
    next row of the space begins. *)
Theorem access_lookup_covers as_ addr end_ t :
  access_wf t ->
  match access_lookup as_ addr end_ t with
  | (true, r) => row_in as_ addr r = true /\ r ∈ access_ranges t /\
      access_at t as_ addr = Some (ar_sequence r, ar_protection r, ar_denied r)
  | (false, out) =>
      ar_start out = addr /\ ar_end out <= end_ /\
      (forall a, addr <= a < ar_end out -> access_at t as_ a = None) /\
      (ar_end out = end_ \/ access_at t as_ (ar_end out) <> None) /\
      access_at t as_ addr = None
  end.
Proof.
  intros Hwf. unfold access_lookup.
  pose proof (access_scan_spec as_ addr (mk_access as_ addr end_ 0 0 0) (access_ranges t)) as Hs.
  destruct Hwf as [[Hok Hp] _ _]. rewrite Forall_forall in Hok.
  destruct (access_scan _ _ _ _) as [[] r].
  - destruct Hs as [Hin Hr]. split; [done|]. split; [done|].
    apply denote_Some; [done|]. exists r. auto.
  - destruct Hs as (Hno & Hst & Hen & Hgap & Hend). simpl in *.
    split; [done|]. split; [done|].
    assert (Hnone : forall a, (forall r, r ∈ access_ranges t -> row_in as_ a r = false) ->
      access_at t as_ a = None).
    { intros a Ha. unfold access_at, denote. by rewrite (proj2 (row_find_None as_ a _) Ha). }
    split; [|split; [|by apply Hnone]].
    + intros a Ha. apply Hnone. intros x Hx. specialize (Hgap x Hx). unfold row_in. simpl. lia.
    + destruct Hend as [|(x & Hx & Has & Hlt & Hse)]; [by left|]. right. rewrite <- Hse.
      assert (access_at t as_ (ar_start x) =
        Some (ar_sequence x, ar_protection x, ar_denied x)) as Heq.
      { apply denote_Some; [done|]. exists x. split; [done|]. split; [|done].
        specialize (Hok x Hx). unfold row_ok, row_in in *. simpl in *. lia. }
      by rewrite Heq.
Qed.

(** A child address space inherits exactly its parent's restrictions,
    with the journal sequence restarted at 0; whatever the child's number
    had recorded before is gone, every other space keeps its restrictions,
    and the copy stays inside the array. *)
Theorem access_inherit_copies child parent t :
  access_wf t -> child <> parent ->
  match access_inherit alloc child parent t with
  | Ok t' => access_wf t' /\ forall as_ a,
      access_at t' as_ a =
      if as_ =? child then (fun v => (0, snd (fst v), snd v)) <$> access_at t parent a
      else access_at t as_ a
  | Aborted => ~ (alloc_serves /\ 2 * access_count t + 3 <= 2 ^ 48)
  | _ => False
  end.
Proof.
  intros Hwf Hne. unfold access_inherit. rewrite (proj2 (Z.eqb_neq _ _) Hne).
  pose proof (access_remove_spec child 0 U64MAX t Hwf ltac:(unfold U64MAX; lia) ltac:(lia)) as Hrm.
  assert (0 <= access_count t) by (unfold access_count; lia).
  destruct (access_remove_locked alloc child 0 U64MAX t) as [t1|e| | |]; try done; simpl; cycle 1.
  { intros [Hs Hc]. eapply access_reserve_aborted in Hrm; eauto. lia. }
  destruct Hrm as (Hwf1 & _ & Hlen & Hfree & Hat).
  destruct (access_reserve_outcome alloc (access_count t1 * 2 + 1) t1) as [[t2 Hr]|Hr];
    rewrite Hr; simpl.
  2:{ intros [Hs Hc]. eapply access_reserve_aborted in Hr; eauto. unfold access_count in *. lia. }
  apply access_reserve_ok in Hr as (Hwf2 & Heq & Hcap & _); [|done].
  pose proof (of_parent_length parent (access_ranges t2)) as Hop.
  rewrite copy_loop_spec by (unfold access_count in *; rewrite Heq in *; lia). cbn [result_bind].
  assert (Hgone : forall x, x ∈ access_ranges t1 -> ar_as x <> child).
  { intros x Hx Hc. specialize (Hfree x Hx). destruct Hwf1 as [[Hok _] Hb _].
    rewrite Forall_forall in Hok, Hb. specialize (Hok x Hx). specialize (Hb x Hx).
    unfold row_hit, row_ok, row_bounded in *. simpl in *. lia. }
  assert (Hrel : relabels child (inherited child) (fun v => (0, snd (fst v), snd v))) by done.
  split.
  - rewrite <- Heq in Hgone. split; simpl.
    + eapply relabel_rows_wf; [exact Hrel|apply Hwf2|done].
    + apply Forall_app. split; [apply Hwf2|]. apply Forall_forall.
      intros x (r & Hin & _ & ->)%elem_of_relabelled. destruct Hwf2 as [_ Hb _].
      rewrite Forall_forall in Hb. by apply (Hb r).
    + unfold access_count in *. simpl. rewrite length_app, length_fmap. rewrite Heq in *. lia.
  - intros as_ a. unfold access_at at 1. simpl.
    rewrite (denote_relabelled child parent _ _ Hrel) by (rewrite ?Heq; try apply Hwf1; done).
    rewrite Heq.
    fold (access_at t1 parent a) (access_at t1 as_ a). rewrite !Hat.
    destruct (Z.eqb_spec as_ child) as [->|Ha]; [|done].
    rewrite (proj2 (Z.eqb_neq parent child)) by done. done.
Qed.
End specs.

Definition demo_rows : list access_range := [mk_access 1 0x1000 0x5000 9 3 0; mk_access 2 0x1000 0x2000 4 1 1].
Definition demo_table : access_table := mk_table demo_rows 64.
Lemma demo_access_wf : access_wf demo_table.
Proof.
  split; [split|..]; unfold demo_table, demo_rows, row_ok, row_bounded, sep, access_count, U64MAX; simpl;
    repeat (constructor || (intros; simpl in *; lia)).
Qed.

Lemma access_note_updates_witness :
  exists t', access_note (fun _ => true) (mk_access 1 0x2000 0x3000 10 1 1) demo_table = Ok t' /\
    access_at t' 1 0x2fff = Some (10, 1, 1) /\ access_at t' 1 0x3000 = Some (9, 3, 0) /\ access_wf t'.
Proof.
  pose proof (access_note_updates (fun _ => true) (mk_access 1 0x2000 0x3000 10 1 1) demo_table
    demo_access_wf ltac:(unfold row_ok; simpl; lia) ltac:(unfold row_bounded, U64MAX; simpl; lia)) as H.
  eexists. split; [reflexivity|]. split; [reflexivity|]. split; [reflexivity|]. exact (proj1 H).
Defined.

Lemma access_lookup_covers_witness :
  access_lookup 2 0x800 0x8000 demo_table = (false, mk_access 2 0x800 0x1000 0 0 0) /\
  forall a, 0x800 <= a < 0x1000 -> access_at demo_table 2 a = None.
Proof.
  split; [reflexivity|].
  exact (proj1 (proj2 (proj2 (access_lookup_covers 2 0x800 0x8000 demo_table demo_access_wf)))).
Defined.

Lemma access_inherit_copies_witness :
  exists t', access_inherit (fun _ => true) 2 1 demo_table = Ok t' /\
    access_at t' 2 0x4fff = Some (0, 3, 0) /\ access_wf t'.
Proof.
  pose proof (access_inherit_copies (fun _ => true) 2 1 demo_table demo_access_wf ltac:(lia)) as H.
  eexists. split; [reflexivity|]. split; [reflexivity|]. exact (proj1 H).
Defined.

End AccessLayout.
