(* ===== verification/SharedLayout.v ===== *)
(** * Shared mappings (user/shared-layout.h)

    The executor's record of which part of which shared object each interval
    of an address space maps.  A row's offset is that of its first byte, so
    cutting a row's low end shifts it, modulo 2^64 as in the source. *)
From S2P Require Import Prelude Ranges.

Module SharedLayout.

Record shared_range := mk_shared {
  sr_as : Z; sr_st : Z; sr_en : Z; sr_off : Z; sr_object_id : Z; sr_prot : Z }.

(** What a row says of an address: object, offset in it, rights. *)
#[global] Instance shared_row : RangeRow shared_range (Z * Z * Z) := {|
  row_as := sr_as; row_st := sr_st; row_en := sr_en;
  cut_hi x r := mk_shared (sr_as r) (sr_st r) x (sr_off r) (sr_object_id r) (sr_prot r);
  cut_lo x r := mk_shared (sr_as r) x (sr_en r) (u64 (sr_off r + u64 (x - sr_st r)))
                  (sr_object_id r) (sr_prot r);
  row_at r a := (sr_object_id r, u64 (sr_off r + (a - sr_st r)), sr_prot r) |}.
#[global] Instance shared_row_laws : RangeRowLaws shared_range (Z * Z * Z).
Proof.
  split; try done. intros x r a. simpl. f_equal. f_equal. unfold u64.
  rewrite Z.add_mod_idemp_r, Z.add_mod_idemp_l by done. f_equal. lia.
Qed.

Record shared_table := mk_table { shared_rr : list shared_range; shared_capacity : Z }.
Definition sizeof_shared_range : Z := 48.
Definition shared_rn (t : shared_table) : Z := Z.of_nat (length (shared_rr t)).

Section ops.
(** Whether calloc serves a request of that many bytes. *)
Context (alloc : Z -> bool).

Definition shared_layout_reserve (need : Z) (t : shared_table) : result shared_table :=
  let! cap := reserve alloc sizeof_shared_range need (shared_capacity t) in
  Ok (mk_table (shared_rr t) cap).

Definition shared_layout_remove_locked (as_ st en : Z) (t : shared_table) : result shared_table :=
  let! rows := range_remove (shared_capacity t) as_ st en (shared_rr t) in
  Ok (mk_table rows (shared_capacity t)).

Definition shared_push (r : shared_range) (t : shared_table) : result shared_table :=
  let! rows := push (shared_capacity t) r (shared_rr t) in
  Ok (mk_table rows (shared_capacity t)).

Definition shared_layout_forget (as_ st en : Z) (t : shared_table) : result shared_table :=
  if en <=? st then Ok t
  else
    let! t := shared_layout_reserve (shared_rn t + 2) t in
    shared_layout_remove_locked as_ st en t.

Definition shared_layout_note (as_ st en off prot object_id : Z) (t : shared_table)
  : result shared_table :=
  if (object_id =? 0) || (en <=? st) || (I64MAX <? off) || (u64 (I64MAX - off) <? u64 (en - st))
  then Aborted
  else
    let! t := shared_layout_reserve (shared_rn t + 2) t in
    let! t := shared_layout_remove_locked as_ st en t in
    shared_push (mk_shared as_ st en off object_id prot) t.

Definition shared_layout_lookup (as_ addr : Z) (t : shared_table) : option shared_range :=
  row_find as_ addr (shared_rr t).

Definition inherited (child : Z) (r : shared_range) : shared_range :=
  mk_shared child (sr_st r) (sr_en r) (sr_off r) (sr_object_id r) (sr_prot r).
Fixpoint shared_count_of (parent : Z) (rows : list shared_range) : Z :=
  match rows with
  | [] => 0
  | r :: rows' => (if sr_as r =? parent then 1 else 0) + shared_count_of parent rows'
  end.
Definition shared_layout_inherit (child parent : Z) (t : shared_table) : result shared_table :=
  if child =? parent then Ok t
  else
    let count := shared_count_of parent (shared_rr t) in
    let! t := shared_layout_reserve (shared_rn t + count + 2) t in
    let! t := shared_layout_remove_locked child 0 U64MAX t in
    let! rows := copy_loop (shared_capacity t) parent (inherited child) (shared_rr t)
                   (shared_rr t) in
    Ok (mk_table rows (shared_capacity t)).

(** The body of the protection loop on row [i]: the pieces outside go to the
    end of the array, the row becomes the piece inside. *)
Definition protect_mid (as_ st en prot : Z) (old : shared_range) : shared_range :=
  let lo := if st <? sr_st old then sr_st old else st in
  let hi := if sr_en old <? en then sr_en old else en in
  mk_shared as_ lo hi (u64 (sr_off old + lo - sr_st old)) (sr_object_id old) prot.
Definition protect_one (as_ st en prot : Z) (i : nat) (old : shared_range) (t : shared_table)
  : result shared_table :=
  if row_hit as_ st en old then
    let lo := if st <? sr_st old then sr_st old else st in
    let hi := if sr_en old <? en then sr_en old else en in
    let! t := (if sr_st old <? lo then shared_push (cut_hi lo old) t else Ok t) in
    let! t := (if hi <? sr_en old then shared_push (cut_lo hi old) t else Ok t) in
    Ok (mk_table (<[i := protect_mid as_ st en prot old]> (shared_rr t)) (shared_capacity t))
  else Ok t.
(** Rows [i], ..., of the [n] the loop started with. *)
Fixpoint protect_loop (as_ st en prot : Z) (todo i : nat) (t : shared_table) : result shared_table :=
  match todo with
  | O => Ok t
  | S todo' =>
      match shared_rr t !! i with
      | None => Corrupt
      | Some old =>
          let! t := protect_one as_ st en prot i old t in
          protect_loop as_ st en prot todo' (S i) t
      end
  end.
Definition shared_layout_protect (as_ st en prot : Z) (t : shared_table) : result shared_table :=
  if en <=? st then Ok t
  else
    let! t := shared_layout_reserve (shared_rn t + 2) t in
    protect_loop as_ st en prot (length (shared_rr t)) 0 t.

(** ** Invariant *)
Definition row_bounded (r : shared_range) : Prop := 0 <= sr_st r /\ sr_en r <= U64MAX.
Record shared_wf (t : shared_table) : Prop := {
  sw_rows : rows_wf (shared_rr t);
  sw_bounds : Forall row_bounded (shared_rr t);
  sw_capacity : shared_rn t <= shared_capacity t
}.
Definition shared_at (t : shared_table) (as_ a : Z) : option (Z * Z * Z) :=
  denote (shared_rr t) as_ a.
Definition alloc_serves : Prop := forall n, alloc n = true.

Lemma shared_reserve_spec need t :
  shared_wf t -> 0 <= need ->
  match shared_layout_reserve need t with
  | Ok t' => shared_wf t' /\ shared_rr t' = shared_rr t /\ need <= shared_capacity t'
  | Aborted => ~ (alloc_serves /\ need <= 2 ^ 48)
  | _ => False
  end.
Proof.
  intros [Hr Hb Hc] Hn. unfold shared_layout_reserve.
  destruct (reserve alloc sizeof_shared_range need (shared_capacity t)) as [cap|e| | |] eqn:Hres;
    simpl.
  - apply reserve_ok in Hres; [|unfold shared_rn in Hc; lia].
    split; [|by split; [|lia]]. split; simpl; auto. unfold shared_rn in *. simpl. lia.
  - unfold reserve in Hres. by break.
  - intros [Hs Hle]. destruct (reserve_serves alloc sizeof_shared_range need (shared_capacity t))
      as [cap Heq]; [unfold sizeof_shared_range; lia|unfold shared_rn in Hc; lia|lia|done|congruence].
  - unfold reserve in Hres. by break.
  - unfold reserve in Hres. by break.
Qed.

Lemma shared_remove_spec as_ st en t :
  shared_wf t -> 0 <= st <= en -> shared_rn t < shared_capacity t ->
  exists t', shared_layout_remove_locked as_ st en t = Ok t' /\ shared_wf t' /\
    shared_capacity t' = shared_capacity t /\ shared_rn t' <= shared_rn t + 1 /\
    shared_rr t' ≡ₚ shared_rr t ≫= carve as_ st en /\
    forall as' a, shared_at t' as' a =
      if (as' =? as_) && (st <=? a) && (a <? en) then None else shared_at t as' a.
Proof.
  intros [Hr Hb Hc] Hst Hlt. unfold shared_layout_remove_locked.
  destruct (range_remove_spec (shared_capacity t) as_ st en (shared_rr t))
    as (rows' & -> & Hperm & Hlen); [lia|apply Hr|by left|].
  simpl. eexists. split; [reflexivity|]. simpl.
  pose proof (carve_wf as_ st en _ (proj2 Hst) Hr) as Hcw.
  pose proof (rows_wf_perm _ _ (symmetry Hperm) Hcw) as Hw'.
  split; [|split; [done|split; [|split; [done|]]]].
  - split; simpl; [done| |done]. rewrite Hperm. apply Forall_forall.
    intros x (r & Hx & Hin)%list_elem_of_bind. rewrite Forall_forall in Hb.
    destruct Hr as [Hok _]. rewrite Forall_forall in Hok.
    destruct (carve_elem as_ st en r x) as (_ & H1 & H2 & _); auto; [lia|].
    specialize (Hb r Hin). unfold row_bounded in *. simpl in *. lia.
  - unfold shared_rn. simpl. rewrite Hperm.
    pose proof (carve_length_split as_ st en _ (proj2 Hr)). lia.
  - intros as' a. unfold shared_at. simpl. rewrite (denote_perm _ _ _ _ Hperm) by apply Hw'.
    apply denote_carve; [lia|done].
Qed.
End ops.


(** ** Protection changes

    [pieces] is the reference: each row becomes the parts outside the interval
    as they were and the part inside with the new rights. *)
Section protect.
Context (as_ st en prot : Z) (Hse : st < en).

Definition pieces (r : shared_range) : list shared_range :=
  if row_hit as_ st en r then
    (if sr_st r <? st then [cut_hi st r] else []) ++
    (if en <? sr_en r then [cut_lo en r] else []) ++ [protect_mid as_ st en prot r]
  else [r].

Lemma protect_mid_at r a :
  row_at (protect_mid as_ st en prot r) a =
  (sr_object_id r, u64 (sr_off r + (a - sr_st r)), prot).
Proof.
  unfold protect_mid. simpl. f_equal. f_equal. unfold u64.
  rewrite Z.add_mod_idemp_l by done. f_equal. lia.
Qed.

Lemma pieces_cuts rows : Forall row_ok rows -> cuts pieces rows.
Proof.
  intros Hok r Hr. rewrite Forall_forall in Hok. specialize (Hok r Hr).
  unfold pieces, row_ok in *. simpl in Hok. destruct (row_hit as_ st en r) eqn:Hh; cycle 1.
  { split; [by repeat constructor|]. intros x ->%list_elem_of_singleton. simpl. lia. }
  unfold row_hit in Hh. simpl in Hh. unfold protect_mid.
  destruct (sr_st r <? st) eqn:H1, (en <? sr_en r) eqn:H2, (st <? sr_st r) eqn:H3,
    (sr_en r <? en) eqn:H4; try lia;
    (split; [simpl; rewrite ?Forall_cons, ?Forall_nil; unfold sep; simpl; intuition lia|
      intros x Hx; rewrite ?elem_of_app, ?list_elem_of_singleton, ?elem_of_nil in Hx;
      repeat destruct Hx as [Hx|Hx]; try done; subst x; simpl; lia]).
Qed.

Lemma denote_pieces rows as' a :
  rows_wf rows ->
  denote (rows ≫= pieces) as' a =
  (if (as' =? as_) && (st <=? a) && (a <? en)
   then (fun v => (fst (fst v), snd (fst v), prot)) <$> denote rows as' a
   else denote rows as' a).
Proof.
  intros [Hok Hp].
  rewrite (denote_cuts pieces (fun v => Some (if (as' =? as_) && (st <=? a) && (a <? en)
    then (fst (fst v), snd (fst v), prot) else v))).
  - destruct (_ && _ && _); by destruct (denote rows as' a).
  - by apply pieces_cuts.
  - done.
  - intros r Hr Hin. unfold pieces. destruct (row_hit as_ st en r) eqn:Hh.
    + rewrite !denote_app, denote_single, protect_mid_at.
      unfold row_hit, row_in in *. simpl in Hh, Hin.
      destruct (sr_st r <? st) eqn:H1, (en <? sr_en r) eqn:H2; rewrite ?denote_single, ?cut_lo_at;
        unfold denote, row_in, protect_mid; simpl; break; try done; lia.
    + rewrite denote_single, Hin. unfold row_hit, row_in in *. simpl in Hh, Hin.
      destruct ((as' =? as_) && (st <=? a) && (a <? en)) eqn:Hc; [lia|done].
Qed.

(** At each boundary at most one row splits. *)
Lemma pieces_length rows :
  pairwise rows -> (length (rows ≫= pieces) <= length rows + 2)%nat.
Proof.
  intros Hp. pose proof (crosses_one as_ st rows Hp). pose proof (crosses_one as_ en rows Hp).
  assert (length (rows ≫= pieces) <= length rows + length (filter (crosses as_ st) rows) +
    length (filter (crosses as_ en) rows))%nat; [|lia]. clear.
  induction rows as [|r rows IH]; [simpl; lia|].
  rewrite bind_cons, length_app, !filter_cons. cbn [length].
  assert (length (pieces r) <= 1 + (if decide (crosses as_ st r) then 1 else 0) +
    (if decide (crosses as_ en r) then 1 else 0))%nat.
  { unfold pieces. destruct (row_hit as_ st en r) eqn:Hh; [|simpl; lia].
    unfold crosses, row_hit in *. simpl in *. rewrite !length_app.
    destruct (sr_st r <? st) eqn:H1, (en <? sr_en r) eqn:H2; simpl;
      repeat case_decide; lia. }
  repeat case_decide; cbn [length]; lia.
Qed.

Lemma pieces_pos r : (1 <= length (pieces r))%nat.
Proof. unfold pieces. break; simpl; lia. Qed.
Lemma pieces_length_ge rows : (length rows <= length (rows ≫= pieces))%nat.
Proof.
  induction rows as [|r rows IH]; [done|]. rewrite bind_cons, length_app. cbn [length].
  pose proof (pieces_pos r). lia.
Qed.
Lemma shared_push_room x l cap :
  (length l < Z.to_nat cap)%nat -> shared_push x (mk_table l cap) = Ok (mk_table (l ++ [x]) cap).
Proof. intros Hl. unfold shared_push, push. simpl. rewrite (proj2 (Z.ltb_lt _ _)) by lia. done. Qed.

(** One row: it is replaced in place, its outer parts appended. *)
Lemma protect_one_spec cap pre r rest :
  (length pre + length (pieces r) + length rest <= Z.to_nat cap)%nat ->
  exists mid tl,
    protect_one as_ st en prot (length pre) r (mk_table (pre ++ r :: rest) cap) =
      Ok (mk_table (pre ++ mid :: rest ++ tl) cap) /\ pieces r ≡ₚ mid :: tl.
Proof.
  intros Hc. unfold protect_one, pieces in *. destruct (row_hit as_ st en r) eqn:Hh.
  2:{ exists r, []. rewrite app_nil_r. auto. }
  set (lo := if st <? sr_st r then sr_st r else st).
  set (hi := if sr_en r <? en then sr_en r else en).
  assert (Hlo : lo = Z.max st (sr_st r)) by (unfold lo; break; lia).
  assert (Hhi : hi = Z.min en (sr_en r)) by (unfold hi; break; lia). clearbody lo hi.
  set (left := if sr_st r <? lo then [cut_hi lo r] else []).
  set (right := if hi <? sr_en r then [cut_lo hi r] else []).
  assert (Hpc : (if sr_st r <? st then [cut_hi st r] else []) = left /\
    (if en <? sr_en r then [cut_lo en r] else []) = right).
  { unfold left, right. unfold row_hit in Hh. simpl in Hh. split.
    - destruct (Z.ltb_spec (sr_st r) st), (Z.ltb_spec (sr_st r) lo); try lia; [|done].
      by replace lo with st by lia.
    - destruct (Z.ltb_spec en (sr_en r)), (Z.ltb_spec hi (sr_en r)); try lia; [|done].
      by replace hi with en by lia. }
  destruct Hpc as [Hl Hr]. rewrite Hl, Hr in Hc |- *. rewrite !length_app in Hc. simpl in Hc.
  assert (H1 : (if sr_st r <? lo then shared_push (cut_hi lo r) (mk_table (pre ++ r :: rest) cap)
    else Ok (mk_table (pre ++ r :: rest) cap)) = Ok (mk_table (pre ++ r :: rest ++ left) cap)).
  { unfold left in *. destruct (sr_st r <? lo); [|by rewrite app_nil_r].
    rewrite shared_push_room; [by rewrite <- app_assoc|]. rewrite length_app. simpl in *. lia. }
  assert (H2 : (if hi <? sr_en r then shared_push (cut_lo hi r) (mk_table (pre ++ r :: rest ++ left) cap)
    else Ok (mk_table (pre ++ r :: rest ++ left) cap)) =
    Ok (mk_table (pre ++ r :: rest ++ left ++ right) cap)).
  { unfold right in *. destruct (hi <? sr_en r); [|by rewrite app_nil_r].
    rewrite shared_push_room; [by rewrite <- !app_assoc; simpl; rewrite <- app_assoc|].
    rewrite length_app. simpl in *. rewrite length_app. lia. }
  cbv zeta. rewrite H1. cbn [result_bind]. rewrite H2. cbn [result_bind shared_rr shared_capacity].
  exists (protect_mid as_ st en prot r), (left ++ right). split.
  - rewrite insert_app_r_alt, Nat.sub_diag by lia. done.
  - solve_Permutation.
Qed.

Lemma protect_loop_spec cap pre rest tail :
  (length pre + length (rest ≫= pieces) + length tail <= Z.to_nat cap)%nat ->
  exists rows', protect_loop as_ st en prot (length rest) (length pre)
      (mk_table (pre ++ rest ++ tail) cap) = Ok (mk_table rows' cap) /\
    rows' ≡ₚ pre ++ (rest ≫= pieces) ++ tail.
Proof.
  revert pre tail. induction rest as [|r rest IH]; intros pre tail Hc.
  { simpl in *. eauto. }
  assert (Hlk : (pre ++ (r :: rest) ++ tail) !! length pre = Some r)
    by (by rewrite lookup_app_r, Nat.sub_diag by lia).
  rewrite bind_cons, length_app in Hc. pose proof (pieces_length_ge rest).
  destruct (protect_one_spec cap pre r (rest ++ tail)) as (mid & tl & Hone & Hperm).
  { rewrite length_app. lia. }
  cbn [protect_loop length shared_rr]. rewrite Hlk. cbn [app]. rewrite Hone. cbn [result_bind].
  destruct (IH (pre ++ [mid]) (tail ++ tl)) as (rows' & Hl & Hp').
  { rewrite Hperm in Hc. rewrite !length_app. simpl in *. lia. }
  exists rows'. split.
  - rewrite <- Hl, length_app. simpl. rewrite Nat.add_1_r, <- !app_assoc. done.
  - rewrite Hp', bind_cons, Hperm. simpl. solve_Permutation.
Qed.
End protect.

Section specs.
Context (alloc : Z -> bool).

Lemma shared_push_spec r t :
  shared_wf t -> row_ok r -> row_bounded r -> shared_rn t < shared_capacity t ->
  (forall x, x ∈ shared_rr t -> row_hit (sr_as r) (sr_st r) (sr_en r) x = false) ->
  exists t', shared_push r t = Ok t' /\ shared_wf t' /\
    forall as_ a, shared_at t' as_ a =
      if row_in as_ a r then Some (row_at r a) else shared_at t as_ a.
Proof.
  intros [Hr Hb Hc] Hok Hbr Hlt Hfree. destruct t as [rows cap]. simpl in *.
  rewrite shared_push_room by (unfold shared_rn in Hlt; simpl in Hlt; lia).
  eexists. split; [reflexivity|]. split.
  - split; simpl; [by apply snoc_wf|by apply Forall_app; auto|].
    unfold shared_rn in *. simpl in *. rewrite length_app. simpl. lia.
  - intros as_ a. unfold shared_at. simpl. rewrite denote_snoc.
    destruct (row_in as_ a r) eqn:Hin; [|by destruct (denote _ _ _)].
    rewrite denote_none; [done|]. intros x Hx. specialize (Hfree x Hx).
    unfold row_in, row_hit in *. simpl in *. lia.
Qed.

(** Forgetting an interval leaves no row on it and all others as they were. *)
Lemma shared_forget_spec as_ st en t :
  shared_wf t -> 0 <= st ->
  match shared_layout_forget alloc as_ st en t with
  | Ok t' => shared_wf t' /\ forall as' a, shared_at t' as' a =
      if (as' =? as_) && (st <=? a) && (a <? en) then None else shared_at t as' a
  | Aborted => ~ (alloc_serves alloc /\ shared_rn t + 2 <= 2 ^ 48)
  | _ => False
  end.
Proof.
  intros Hwf Hst. unfold shared_layout_forget. destruct (en <=? st) eqn:Hle.
  { split; [done|]. intros as' a. destruct (_ && _ && _) eqn:Hc; [lia|done]. }
  pose proof (shared_reserve_spec alloc (shared_rn t + 2) t Hwf) as Hr.
  destruct (shared_layout_reserve alloc (shared_rn t + 2) t) as [t1|e| | |]; simpl;
    try (apply Hr; unfold shared_rn; lia).
  destruct Hr as (Hwf1 & Heq & Hcap); [unfold shared_rn; lia|].
  assert (shared_rn t1 = shared_rn t) by (unfold shared_rn; by rewrite Heq).
  destruct (shared_remove_spec as_ st en t1) as (t2 & -> & Hwf2 & _ & _ & _ & Hat); auto; [lia|lia|].
  split; [done|]. intros as' a. rewrite Hat. unfold shared_at. by rewrite Heq.
Qed.

(** ** Properties *)

Lemma shared_note_result as_ st en off prot object_id t :
  shared_wf t -> 0 <= st -> en <= U64MAX -> 0 <= off -> 0 <= object_id ->
  let valid := object_id <> 0 /\ st < en /\ off <= I64MAX /\ off + (en - st) <= I64MAX in
  match shared_layout_note alloc as_ st en off prot object_id t with
  | Ok t' => valid /\ shared_wf t' /\ forall as' a, shared_at t' as' a =
      if (as' =? as_) && (st <=? a) && (a <? en) then Some (object_id, off + (a - st), prot)
      else shared_at t as' a
  | Aborted => ~ (valid /\ alloc_serves alloc /\ shared_rn t + 2 <= 2 ^ 48)
  | _ => False
  end.
Proof.
  intros Hwf Hst Hen Hoff Hobj valid. unfold shared_layout_note.
  destruct ((object_id =? 0) || (en <=? st) || (I64MAX <? off) || (u64 (I64MAX - off) <? u64 (en - st)))
    eqn:Hg.
  { intros ((H1 & H2 & H3 & H4) & _). rewrite !u64_small in Hg by (unfold is_u64, I64MAX, U64MAX in *; lia). lia. }
  assert (Hv : valid).
  { unfold valid. apply orb_false_iff in Hg as [Hg Hg4]. unfold I64MAX, U64MAX in *.
    rewrite !u64_small in Hg4 by (unfold is_u64, U64MAX; lia). lia. }
  destruct Hv as (H1 & H2 & H3 & H4).
  pose proof (shared_reserve_spec alloc (shared_rn t + 2) t Hwf) as Hr.
  destruct (shared_layout_reserve alloc (shared_rn t + 2) t) as [t1|e| | |]; simpl;
    try (intros (_ & Hx); revert Hx); try (apply Hr; unfold shared_rn; lia).
  destruct Hr as (Hwf1 & Heq & Hcap); [unfold shared_rn; lia|].
  assert (shared_rn t1 = shared_rn t) by (unfold shared_rn; by rewrite Heq).
  destruct (shared_remove_spec as_ st en t1) as (t2 & -> & Hwf2 & Hc2 & Hn2 & Hperm & Hat);
    auto; [lia|lia|]. cbn [result_bind].
  destruct (shared_push_spec (mk_shared as_ st en off object_id prot) t2) as (t3 & -> & Hwf3 & Hat3).
  - done.
  - unfold row_ok. simpl. lia.
  - unfold row_bounded. simpl. lia.
  - lia.
  - intros x Hx. rewrite Hperm in Hx. simpl. eapply carve_free; [|apply Hwf1|exact Hx]. lia.
  - split; [done|]. split; [done|]. intros as' a. rewrite Hat3, Hat. unfold row_in. simpl.
    rewrite (Z.eqb_sym as_). destruct ((as' =? as_) && (st <=? a) && (a <? en)) eqn:Hc.
    + rewrite u64_small; [done|]. unfold is_u64, I64MAX, U64MAX in *. lia.
    + unfold shared_at. by rewrite Heq.
Qed.
(** Noting a shared mapping with an object, a non-empty interval and an
    offset range inside the signed 64-bit file range replaces exactly that
    interval: each of its addresses maps the object at the offset of its
    distance from the start, with the given rights, every other address maps
    what it mapped before (a mapping split around the interval keeps the
    offset of each byte), the rows stay disjoint and no write leaves the
    array.  It ends the monitor only for a call outside those limits or when
    memory is exhausted. *)
Theorem shared_note_updates as_ st en off prot object_id t :
  shared_wf t -> 0 <= st -> en <= U64MAX -> 0 <= off -> 0 <= object_id ->
  let valid := object_id <> 0 /\ st < en /\ off <= I64MAX /\ off + (en - st) <= I64MAX in
  match shared_layout_note alloc as_ st en off prot object_id t with
  | Ok t' => valid /\ shared_wf t' /\ forall as' a, shared_at t' as' a =
      if (as' =? as_) && (st <=? a) && (a <? en) then Some (object_id, off + (a - st), prot)
      else shared_at t as' a
  | Aborted => ~ (valid /\ alloc_serves alloc /\ shared_rn t + 2 <= 2 ^ 48)
  | _ => False
  end.
Proof. apply shared_note_result. Qed.

Lemma shared_protect_result as_ st en prot t :
  shared_wf t -> 0 <= st ->
  match shared_layout_protect alloc as_ st en prot t with
  | Ok t' => shared_wf t' /\ forall as' a, shared_at t' as' a =
      if (as' =? as_) && (st <=? a) && (a <? en)
      then (fun v => (fst (fst v), snd (fst v), prot)) <$> shared_at t as' a
      else shared_at t as' a
  | Aborted => ~ (alloc_serves alloc /\ shared_rn t + 2 <= 2 ^ 48)
  | _ => False
  end.
Proof.
  intros Hwf Hst. unfold shared_layout_protect. destruct (en <=? st) eqn:Hle.
  { split; [done|]. intros as' a. destruct (_ && _ && _) eqn:Hc; [lia|done]. }
  pose proof (shared_reserve_spec alloc (shared_rn t + 2) t Hwf) as Hr.
  destruct (shared_layout_reserve alloc (shared_rn t + 2) t) as [t1|e| | |]; simpl;
    try (apply Hr; unfold shared_rn; lia).
  destruct Hr as (Hwf1 & Heq & Hcap); [unfold shared_rn; lia|].
  destruct Hwf1 as [Hrows Hb _]. destruct t1 as [rows cap]. simpl in *. subst rows.
  pose proof (pieces_length as_ st en prot (shared_rr t) (proj2 Hrows)) as Hpl.
  destruct (protect_loop_spec as_ st en prot cap [] (shared_rr t) []) as (rows' & Hl & Hperm).
  { unfold shared_rn in Hcap. simpl. lia. }
  simpl in Hl, Hperm. rewrite app_nil_r in Hl, Hperm. rewrite Hl.
  pose proof (cuts_wf _ _ (pieces_cuts as_ st en prot ltac:(lia) _ (proj1 Hrows)) Hrows) as Hw.
  pose proof (rows_wf_perm _ _ (symmetry Hperm) Hw) as Hw'.
  split.
  - split; simpl; [done| |unfold shared_rn in *; simpl; rewrite Hperm; lia].
    rewrite Hperm. apply Forall_forall. intros x (r & Hx & Hin)%list_elem_of_bind.
    rewrite Forall_forall in Hb. specialize (Hb r Hin).
    destruct (pieces_cuts as_ st en prot ltac:(lia) _ (proj1 Hrows) r Hin) as [_ Hc].
    destruct (Hc x Hx) as (_ & ? & ? & _). unfold row_bounded in *. simpl in *. lia.
  - intros as' a. unfold shared_at. simpl. rewrite (denote_perm _ _ _ _ Hperm) by apply Hw'.
    apply denote_pieces; [lia|done].
Qed.

(** Changing the protection of an interval changes the rights of the
    mapped addresses inside it and nothing else: every address keeps its
    object and offset, holes stay holes, and the splits at the two boundaries
    fit the two rows reserved for them. *)
Theorem shared_protect_changes as_ st en prot t :
  shared_wf t -> 0 <= st ->
  match shared_layout_protect alloc as_ st en prot t with
  | Ok t' => shared_wf t' /\ forall as' a, shared_at t' as' a =
      if (as' =? as_) && (st <=? a) && (a <? en)
      then (fun v => (fst (fst v), snd (fst v), prot)) <$> shared_at t as' a
      else shared_at t as' a
  | Aborted => ~ (alloc_serves alloc /\ shared_rn t + 2 <= 2 ^ 48)
  | _ => False
  end.
Proof. apply shared_protect_result. Qed.

Lemma shared_count_of_length parent rows :
  shared_count_of parent rows = Z.of_nat (length (of_parent parent rows)).
Proof.
  unfold of_parent. induction rows as [|r rows IH]; [done|]. cbn [shared_count_of].
  rewrite filter_cons. destruct (Z.eqb_spec (sr_as r) parent) as [He|Hn].
  - rewrite decide_True by done. cbn [length]. lia.
  - rewrite decide_False by done. lia.
Qed.
Lemma of_parent_perm parent (rows rows' : list shared_range) :
  rows ≡ₚ rows' -> length (of_parent parent rows) = length (of_parent parent rows').
Proof. intros Hp. unfold of_parent. by rewrite Hp. Qed.
Lemma of_parent_carve child parent (rows : list shared_range) :
  child <> parent -> of_parent parent (rows ≫= carve child 0 U64MAX) = of_parent parent rows.
Proof.
  intros Hne. unfold of_parent. induction rows as [|r rows IH]; [done|].
  rewrite bind_cons, filter_app, filter_cons, IH. unfold carve at 1.
  destruct (row_hit child 0 U64MAX r) eqn:Hh.
  - assert (sr_as r = child) by (unfold row_hit in Hh; simpl in Hh; lia).
    rewrite decide_False by (simpl; congruence).
    break; simpl; rewrite ?filter_cons, ?filter_nil, ?decide_False by (simpl; congruence); done.
  - rewrite filter_cons, filter_nil. by case_decide.
Qed.

(** A child address space inherits exactly its parent's shared
    mappings (object, offset and rights of every address), in place of
    anything recorded under its number; other spaces are untouched, and the
    rows counted before the child's own are removed are enough for the
    copies. *)
Theorem shared_inherit_copies child parent t :
  shared_wf t -> child <> parent ->
  match shared_layout_inherit alloc child parent t with
  | Ok t' => shared_wf t' /\ forall as_ a,
      shared_at t' as_ a = if as_ =? child then shared_at t parent a else shared_at t as_ a
  | Aborted => ~ (alloc_serves alloc /\ 2 * shared_rn t + 2 <= 2 ^ 48)
  | _ => False
  end.
Proof.
  intros Hwf Hne. unfold shared_layout_inherit. rewrite (proj2 (Z.eqb_neq _ _) Hne).
  rewrite shared_count_of_length. pose proof (of_parent_length parent (shared_rr t)) as Hop.
  set (n := Z.of_nat (length (of_parent parent (shared_rr t)))).
  pose proof (shared_reserve_spec alloc (shared_rn t + n + 2) t Hwf) as Hr.
  assert (n <= shared_rn t) by (unfold n, shared_rn; lia).
  destruct (shared_layout_reserve alloc (shared_rn t + n + 2) t) as [t1|e| | |]; simpl;
    try (apply Hr; unfold shared_rn; lia).
  2:{ intros [? ?]. apply Hr; [unfold shared_rn; lia|]. split; [done|lia]. }
  destruct Hr as (Hwf1 & Heq & Hcap); [unfold shared_rn; lia|].
  assert (shared_rn t1 = shared_rn t) by (unfold shared_rn; by rewrite Heq).
  destruct (shared_remove_spec child 0 U64MAX t1) as (t2 & -> & Hwf2 & Hc2 & _ & Hperm & Hat);
    auto; [unfold U64MAX; lia|lia|]. cbn [result_bind].
  assert (Hgone : forall x, x ∈ shared_rr t2 -> sr_as x <> child).
  { intros x Hx Hc. destruct Hwf2 as [[Hok _] Hb _]. rewrite Forall_forall in Hok, Hb.
    specialize (Hok x Hx). specialize (Hb x Hx). rewrite Hperm in Hx.
    apply carve_free in Hx; [|unfold U64MAX; lia|apply Hwf1].
    unfold row_hit, row_ok, row_bounded in *. simpl in *. lia. }
  assert (Hn2 : Z.of_nat (length (of_parent parent (shared_rr t2))) = n).
  { rewrite (of_parent_perm _ _ _ Hperm), of_parent_carve, Heq by done. done. }
  assert (Hl2 : shared_rn t2 <= shared_rn t).
  { unfold shared_rn. rewrite Hperm, Heq. apply inj_le, carve_length.
    apply Forall_forall. intros r Hin _. destruct Hwf as [_ Hb _]. rewrite Forall_forall in Hb.
    specialize (Hb r Hin). unfold spans, row_bounded in *. simpl. lia. }
  rewrite copy_loop_spec by (unfold shared_rn in *; lia). cbn [result_bind].
  assert (Hrel : relabels child (inherited child) (fun v => v)) by done. split.
  - split; simpl.
    + eapply relabel_rows_wf; [exact Hrel|apply Hwf2|done].
    + apply Forall_app. split; [apply Hwf2|]. apply Forall_forall.
      intros x (r & Hin & _ & ->)%elem_of_relabelled. destruct Hwf2 as [_ Hb _].
      rewrite Forall_forall in Hb. by apply (Hb r).
    + unfold shared_rn in *. simpl. rewrite length_app, length_fmap. lia.
  - intros as_ a. unfold shared_at at 1. simpl.
    rewrite (denote_relabelled child parent _ _ Hrel) by (try apply Hwf2; done).
    rewrite option_fmap_id. fold (shared_at t2 parent a) (shared_at t2 as_ a). rewrite !Hat.
    unfold shared_at. rewrite Heq.
    destruct (Z.eqb_spec as_ child) as [->|Ha]; [|done].
    by rewrite (proj2 (Z.eqb_neq parent child)) by done.
Qed.
End specs.

Definition demo_table : shared_table :=
  mk_table [mk_shared 1 0x1000 0x5000 0x10000 77 3; mk_shared 2 0x1000 0x2000 0 78 1] 64.
Lemma demo_shared_wf : shared_wf demo_table.
Proof.
  split; [split|..]; unfold demo_table, row_ok, row_bounded, sep, shared_rn, U64MAX; simpl;
    repeat (constructor || (intros; simpl in *; lia)).
Qed.

Lemma shared_note_updates_witness :
  exists t', shared_layout_note (fun _ => true) 1 0x2000 0x3000 0 1 79 demo_table = Ok t' /\
    shared_at t' 1 0x2010 = Some (79, 0x10, 1) /\ shared_at t' 1 0x3000 = Some (77, 0x12000, 3) /\
    shared_wf t'.
Proof.
  pose proof (shared_note_updates (fun _ => true) 1 0x2000 0x3000 0 1 79 demo_table demo_shared_wf
    ltac:(lia) ltac:(unfold U64MAX; lia) ltac:(lia) ltac:(lia)) as H.
  eexists. split; [reflexivity|]. split; [reflexivity|]. split; [reflexivity|]. exact (proj1 (proj2 H)).
Defined.

Lemma shared_protect_changes_witness :
  exists t', shared_layout_protect (fun _ => true) 1 0x2000 0x3000 1 demo_table = Ok t' /\
    shared_at t' 1 0x2010 = Some (77, 0x11010, 1) /\ shared_at t' 1 0x3000 = Some (77, 0x12000, 3) /\
    shared_wf t'.
Proof.
  pose proof (shared_protect_changes (fun _ => true) 1 0x2000 0x3000 1 demo_table demo_shared_wf
    ltac:(lia)) as H.
  eexists. split; [reflexivity|]. split; [reflexivity|]. split; [reflexivity|]. exact (proj1 H).
Defined.

Lemma shared_inherit_copies_witness :
  exists t', shared_layout_inherit (fun _ => true) 2 1 demo_table = Ok t' /\
    shared_at t' 2 0x4fff = Some (77, 0x13fff, 3) /\ shared_wf t'.
Proof.
  pose proof (shared_inherit_copies (fun _ => true) 2 1 demo_table demo_shared_wf ltac:(lia)) as H.
  eexists. split; [reflexivity|]. split; [reflexivity|]. exact (proj1 H).
Defined.

End SharedLayout.
