(* ===== verification/SharedPages.v ===== *)
(** * Shared page slots (user/shared-pages.h)

    One stable backing slot of the session's descriptor per (object, page
    offset).  The table is an open-addressed array at most half full; every
    call runs under [shared_pages_lock].  The allocator, fstat and ftruncate
    are parameters: what they answer is theirs, what the table does with the
    answer is the model. *)
From S2P Require Import Prelude Probe.

Module SharedPages.

Record shared_page_identity := mk_ident { sp_object : Z; sp_offset : Z; sp_slot : Z }.
Record shared_pages_state := mk_pages {
  shared_pages : list shared_page_identity;
  shared_pages_used : Z;
  shared_pages_extent : Z;
  shared_pages_fd : Z }.
Definition shared_pages_capacity (s : shared_pages_state) : nat := length (shared_pages s).
Definition shared_pages_init : shared_pages_state := mk_pages [] 0 0 (-1).

Definition ident_zero : shared_page_identity := mk_ident 0 0 0.
Definition sp_used (e : shared_page_identity) : bool := nz (sp_object e).
Definition sp_key (e : shared_page_identity) : Z * Z := (sp_object e, sp_offset e).

Definition shared_page_hash (object offset : Z) : Z :=
  let x := object .^ u64 (offset + 0x9e3779b97f4a7c15) in
  let x := u64 ((x .^ (x .>> 30)) * 0xbf58476d1ce4e5b9) in
  let x := u64 ((x .^ (x .>> 27)) * 0x94d049bb133111eb) in
  x .^ (x .>> 31).
Definition sp_hash (k : Z * Z) : Z := shared_page_hash (fst k) (snd k).

Definition sizeof_identity : Z := 24.

(** What the system calls answer. *)
Record sp_env := mk_env {
  env_calloc : nat -> bool;
  env_fstat : Z -> result Z;            (* the size, or errno *)
  env_ftruncate : Z -> Z -> result unit }.

Section ops.
Context (env : sp_env).

Definition shared_pages_grow (s : shared_pages_state) : result shared_pages_state :=
  let old := shared_pages_capacity s in
  let cap := if (old =? 0)%nat then 256%nat else (old * 2)%nat in
  if (u64 (Z.of_nat cap) <? Z.of_nat old) || (U64MAX / sizeof_identity <? Z.of_nat cap)
  then Err EOVERFLOW
  else if negb (env_calloc env cap) then Err ENOMEM
  else
    match rehash sp_used sp_key (half_start sp_hash) (mask_next cap) (shared_pages s)
            (replicate cap ident_zero) with
    | None => Hung
    | Some next => Ok (mk_pages next (shared_pages_used s) (shared_pages_extent s) (shared_pages_fd s))
    end.

(** The lookup loop: the slot bound to the identity, if any. *)
Definition shared_page_search (object offset : Z) (s : shared_pages_state) : result (option Z) :=
  if (shared_pages_capacity s =? 0)%nat then Ok None
  else
    match probe (shared_pages s)
            (fun e => negb (sp_used e) || bool_decide (sp_key e = (object, offset)))
            (mask_next (shared_pages_capacity s)) (shared_pages_capacity s)
            (half_start sp_hash (object, offset) (shared_pages_capacity s)) with
    | None => Hung
    | Some at_ =>
        match shared_pages s !! at_ with
        | Some e => Ok (if sp_used e then Some (sp_slot e) else None)
        | None => Hung
        end
    end.

(** Binding the session's descriptor at the first allocation. *)
Definition bind_fd (fd : Z) (s : shared_pages_state) : result shared_pages_state :=
  if shared_pages_fd s <? 0 then
    let! size := env_fstat env fd in
    if size <? 0 then Err EINVAL
    else Ok (mk_pages (shared_pages s) (shared_pages_used s) size fd)
  else Ok s.

(** Extending the descriptor to hold the next slot. *)
Definition extend_fd (fd slot : Z) (s : shared_pages_state) : result shared_pages_state :=
  if shared_pages_extent s <? u64 (slot + 4096) then
    let! _ := env_ftruncate env fd (u64 (slot + 4096)) in
    Ok (mk_pages (shared_pages s) (shared_pages_used s) (u64 (slot + 4096)) (shared_pages_fd s))
  else Ok s.

(** The allocating tail; the state is what the failing step leaves. *)
Definition shared_page_create (fd object offset : Z) (s : shared_pages_state)
  : result Z * shared_pages_state :=
  if I64MAX / 4096 <=? shared_pages_used s then (Err EOVERFLOW, s)
  else
    match (if Z.of_nat (shared_pages_capacity s / 2) <=? shared_pages_used s
           then shared_pages_grow s else Ok s) with
    | Ok s =>
        match bind_fd fd s with
        | Ok s =>
            let slot := u64 (shared_pages_used s * 4096) in
            match extend_fd fd slot s with
            | Ok s =>
                match probe (shared_pages s) (fun e => negb (sp_used e))
                        (mask_next (shared_pages_capacity s)) (shared_pages_capacity s)
                        (half_start sp_hash (object, offset) (shared_pages_capacity s)) with
                | None => (Hung, s)
                | Some at_ =>
                    (Ok slot, mk_pages (<[at_ := mk_ident object offset slot]> (shared_pages s))
                                (u64 (shared_pages_used s + 1)) (shared_pages_extent s)
                                (shared_pages_fd s))
                end
            | Err e => (Err e, s) | Aborted => (Aborted, s) | Corrupt => (Corrupt, s)
            | Hung => (Hung, s)
            end
        | Err e => (Err e, s) | Aborted => (Aborted, s) | Corrupt => (Corrupt, s)
        | Hung => (Hung, s)
        end
    | Err e => (Err e, s) | Aborted => (Aborted, s) | Corrupt => (Corrupt, s)
    | Hung => (Hung, s)
    end.

Definition shared_page_slot (fd object offset : Z) (create : bool) (s : shared_pages_state)
  : result Z * shared_pages_state :=
  if (fd <? 0) || (object =? 0) || negb (page_aligned offset) || (I64MAX - 4095 <? offset)
  then (Err EINVAL, s)
  else if (0 <=? shared_pages_fd s) && negb (shared_pages_fd s =? fd) then (Err EINVAL, s)
  else
    match shared_page_search object offset s with
    | Ok (Some slot) => (Ok slot, s)
    | Ok None => if negb create then (Err ENOENT, s) else shared_page_create fd object offset s
    | Err e => (Err e, s) | Aborted => (Aborted, s) | Corrupt => (Corrupt, s) | Hung => (Hung, s)
    end.
End ops.
#[global] Arguments shared_pages_grow : simpl never.

(** ** Invariant and abstraction *)
Definition sp_abs (s : shared_pages_state) : gmap (Z * Z) Z :=
  sp_slot <$> tab_map sp_used sp_key (shared_pages s).

Record sp_wf (s : shared_pages_state) : Prop := {
  sw_half : half_ok sp_used sp_key sp_hash (shared_pages s);
  sw_used : shared_pages_used s = Z.of_nat (used_count sp_used (shared_pages s));
  sw_room : shared_pages_used s <= I64MAX / 4096;
  (** slots are pages below the extent, one per identity *)
  sw_slots : forall k slot, sp_abs s !! k = Some slot ->
    exists i, 0 <= i < shared_pages_used s /\ slot = i * 4096;
  sw_inj : forall k1 k2 slot, sp_abs s !! k1 = Some slot -> sp_abs s !! k2 = Some slot -> k1 = k2;
  sw_extent : shared_pages_used s * 4096 <= shared_pages_extent s;
  sw_fd : shared_pages_fd s < 0 -> shared_pages_used s = 0
}.

(** The environment's documented answers: fstat reports a size or an error,
    ftruncate succeeds or fails; neither aborts the process. *)
Record env_ok (env : sp_env) : Prop := {
  eo_fstat : forall fd, (exists n, env_fstat env fd = Ok n) \/ (exists e, env_fstat env fd = Err e);
  eo_ftruncate : forall fd n, env_ftruncate env fd n = Ok tt \/ (exists e, env_ftruncate env fd n = Err e)
}.

Lemma pages_limit : I64MAX / 4096 = 2251799813685247.
Proof. reflexivity. Qed.

Lemma shared_pages_init_wf : sp_wf shared_pages_init.
Proof.
  split; simpl; auto; try done. apply half_nil.
Qed.

Lemma shared_page_search_spec object offset s :
  sp_wf s -> shared_page_search object offset s = Ok (sp_abs s !! (object, offset)).
Proof.
  intros Hwf. unfold shared_page_search, shared_pages_capacity, sp_abs. rewrite lookup_fmap.
  destruct (Nat.eqb_spec (length (shared_pages s)) 0) as [Hz|Hz].
  { apply nil_length_inv in Hz. by rewrite Hz. }
  destruct (half_room _ _ _ _ (sw_half s Hwf) Hz) as (Hr & _ & Hs & Hn).
  destruct (search_room sp_used sp_key (half_start sp_hash) (shared_pages s)
    (mask_next (length (shared_pages s))) (object, offset)) as (j & e & Hsr & He & Hcase); auto.
  { apply (sw_half s Hwf). }
  unfold search in Hsr. rewrite Hsr, He.
  destruct Hcase as [(-> & _ & ->)|(-> & -> & _)]; done.
Qed.

Lemma shared_pages_grow_spec env s :
  sp_wf s ->
  (exists e, shared_pages_grow env s = Err e) \/
  exists s', shared_pages_grow env s = Ok s' /\ sp_wf s' /\ sp_abs s' = sp_abs s /\
    shared_pages_used s' = shared_pages_used s /\ shared_pages_extent s' = shared_pages_extent s /\
    shared_pages_fd s' = shared_pages_fd s /\
    (used_count sp_used (shared_pages s') < shared_pages_capacity s' / 2)%nat.
Proof.
  intros Hwf. unfold shared_pages_grow. cbv zeta.
  destruct (_ || _); [by left; eauto|]. destruct (negb _); [by left; eauto|]. right.
  unfold shared_pages_capacity.
  destruct (half_grow sp_used sp_key sp_hash ident_zero eq_refl (shared_pages s) 256)
    as (tab' & -> & Hok & Hl & Hm & Hu & Hroom).
  { apply Hwf. } { by exists 8%nat. } { lia. }
  eexists. split; [reflexivity|].
  assert (Habs : forall u x f, sp_abs (mk_pages tab' u x f) = sp_abs s).
  { intros. unfold sp_abs. simpl. by rewrite Hm. }
  split; [|rewrite Habs; simpl; rewrite Hl; auto 10].
  destruct Hwf as [H1 H2 H3 H4 H5 H6 H7]. split; simpl; auto; [by rewrite Hu| |].
  - intros k sl. rewrite Habs. apply H4.
  - intros k1 k2 sl. rewrite !Habs. apply H5.
Qed.

(** Recording an identity at the next slot. *)
Lemma shared_page_write_spec object offset s :
  sp_wf s -> object <> 0 -> sp_abs s !! (object, offset) = None ->
  (used_count sp_used (shared_pages s) < shared_pages_capacity s / 2)%nat ->
  shared_pages_used s < I64MAX / 4096 ->
  shared_pages_used s * 4096 + 4096 <= shared_pages_extent s -> 0 <= shared_pages_fd s ->
  let slot := shared_pages_used s * 4096 in
  exists at_, probe (shared_pages s) (fun e => negb (sp_used e))
      (mask_next (shared_pages_capacity s)) (shared_pages_capacity s)
      (half_start sp_hash (object, offset) (shared_pages_capacity s)) = Some at_ /\
    let s' := mk_pages (<[at_ := mk_ident object offset slot]> (shared_pages s))
                (u64 (shared_pages_used s + 1)) (shared_pages_extent s) (shared_pages_fd s) in
    sp_wf s' /\ sp_abs s' = <[(object, offset) := slot]> (sp_abs s).
Proof.
  intros Hwf Hobj Hnone Hload Hlt Hext Hfd slot.
  assert (Hn : tab_map sp_used sp_key (shared_pages s) !! (object, offset) = None).
  { unfold sp_abs in Hnone. rewrite lookup_fmap in Hnone. by apply fmap_None in Hnone. }
  destruct (half_insert sp_used sp_key sp_hash (shared_pages s) (mk_ident object offset slot))
    as (j & Hp & Hok & Hl & Hm & Hu); auto.
  { apply Hwf. } { unfold sp_used. simpl. by rewrite (proj2 (Z.eqb_neq _ _) Hobj). }
  exists j. split; [done|]. intros s'.
  assert (Habs : sp_abs s' = <[(object, offset) := slot]> (sp_abs s)).
  { unfold sp_abs, s'. simpl. rewrite Hm, fmap_insert. done. }
  split; [|done]. destruct Hwf as [H1 H2 H3 H4 H5 H6 H7].
  assert (Hu' : shared_pages_used s' = shared_pages_used s + 1).
  { unfold s'. simpl. apply u64_small. rewrite pages_limit in *. unfold is_u64, U64MAX. lia. }
  split.
  - done.
  - rewrite Hu'. unfold s'. simpl. rewrite Hu. lia.
  - rewrite Hu'. lia.
  - intros k sl. rewrite Habs, Hu'. intros [[<- <-]|[Hne Hk]]%lookup_insert_Some.
    + exists (shared_pages_used s). split; [lia|done].
    + destruct (H4 k sl Hk) as (i & ? & ->). exists i. split; [lia|done].
  - intros k1 k2 sl. rewrite Habs.
    intros [[<- <-]|[Hne1 Hk1]]%lookup_insert_Some [[<- Heq]|[Hne2 Hk2]]%lookup_insert_Some; try done.
    + destruct (H4 k2 slot Hk2) as (i & ? & Hi). unfold slot in Hi. lia.
    + subst sl. destruct (H4 k1 slot Hk1) as (i & ? & Hi). unfold slot in Hi. lia.
    + eauto.
  - rewrite Hu'. unfold s'. simpl. lia.
  - unfold s' at 1. simpl. lia.
Qed.

Lemma bind_fd_spec env fd s :
  env_ok env -> sp_wf s -> 0 <= fd -> (0 <= shared_pages_fd s -> shared_pages_fd s = fd) ->
  (exists e, bind_fd env fd s = Err e) \/
  exists s', bind_fd env fd s = Ok s' /\ sp_wf s' /\ shared_pages s' = shared_pages s /\
    shared_pages_used s' = shared_pages_used s /\ shared_pages_fd s' = fd.
Proof.
  intros He Hwf Hfd Hsame. unfold bind_fd.
  destruct (Z.ltb_spec (shared_pages_fd s) 0) as [Hneg|Hpos]; [|right; eauto 10].
  destruct (eo_fstat env He fd) as [[n ->]|[e ->]]; simpl; [|by left; eauto].
  destruct (Z.ltb_spec n 0); [by left; eauto|]. right. eexists. split; [reflexivity|].
  split; [|done]. destruct Hwf as [H1 H2 H3 H4 H5 H6 H7]. specialize (H7 Hneg).
  split; simpl; auto; lia.
Qed.

Lemma extend_fd_spec env fd s :
  env_ok env -> sp_wf s -> shared_pages_used s < I64MAX / 4096 ->
  (exists e, extend_fd env fd (shared_pages_used s * 4096) s = Err e) \/
  exists s', extend_fd env fd (shared_pages_used s * 4096) s = Ok s' /\ sp_wf s' /\
    shared_pages s' = shared_pages s /\ shared_pages_used s' = shared_pages_used s /\
    shared_pages_fd s' = shared_pages_fd s /\
    shared_pages_used s * 4096 + 4096 <= shared_pages_extent s'.
Proof.
  intros He Hwf Hlt. unfold extend_fd. pose proof (sw_used s Hwf).
  rewrite u64_small by (rewrite pages_limit in *; unfold is_u64, U64MAX; lia).
  destruct (Z.ltb_spec (shared_pages_extent s) (shared_pages_used s * 4096 + 4096)).
  - destruct (eo_ftruncate env He fd (shared_pages_used s * 4096 + 4096)) as [->|[e ->]]; simpl;
      [|by left; eauto]. right. eexists. split; [reflexivity|]. simpl. split; [|auto with lia].
    destruct Hwf. split; simpl; auto; lia.
  - right. exists s. auto 10.
Qed.

(** The table never loses or changes a binding; it may gain the asked one. *)
Definition sp_extends (k : Z * Z) (r : result Z) (s s' : shared_pages_state) : Prop :=
  match r with
  | Ok slot => sp_abs s' = <[k := slot]> (sp_abs s) /\
      (sp_abs s !! k = Some slot \/
       sp_abs s !! k = None /\ slot = shared_pages_used s * 4096 /\
       slot + 4096 <= shared_pages_extent s')
  | Err _ => sp_abs s' = sp_abs s
  | _ => False
  end.

Lemma shared_page_create_spec env fd object offset s :
  env_ok env -> sp_wf s -> object <> 0 -> 0 <= fd ->
  (0 <= shared_pages_fd s -> shared_pages_fd s = fd) -> sp_abs s !! (object, offset) = None ->
  let '(r, s') := shared_page_create env fd object offset s in
  sp_wf s' /\ sp_extends (object, offset) r s s'.
Proof.
  intros He Hwf Hobj Hfd Hsame Hnone. unfold shared_page_create.
  destruct (Z.leb_spec (I64MAX / 4096) (shared_pages_used s)) as [|Hlt]; [done|].
  set (g := if Z.of_nat (shared_pages_capacity s / 2) <=? shared_pages_used s
            then shared_pages_grow env s else Ok s).
  assert (Hg : (exists e, g = Err e) \/ exists s1, g = Ok s1 /\ sp_wf s1 /\ sp_abs s1 = sp_abs s /\
    shared_pages_used s1 = shared_pages_used s /\ shared_pages_fd s1 = shared_pages_fd s /\
    (used_count sp_used (shared_pages s1) < shared_pages_capacity s1 / 2)%nat).
  { unfold g. destruct (Z.leb_spec (Z.of_nat (shared_pages_capacity s / 2)) (shared_pages_used s)) as [|Hl].
    - destruct (shared_pages_grow_spec env s Hwf) as [?|(s1 & -> & ? & ? & ? & _ & ? & ?)]; [by left|].
      right. eauto 10.
    - right. exists s. rewrite (sw_used s Hwf) in Hl. repeat (split; [done|]). lia. }
  clearbody g. destruct Hg as [[e ->]|(s1 & -> & Hwf1 & Habs1 & Hu1 & Hfd1 & Hload)]; [done|].
  rewrite <- Hfd1 in Hsame.
  destruct (bind_fd_spec env fd s1 He Hwf1 Hfd Hsame) as [[e ->]|(s2 & -> & Hwf2 & Ht2 & Hu2 & Hf2)]; [done|].
  assert (Habs2 : sp_abs s2 = sp_abs s) by (rewrite <- Habs1; unfold sp_abs; by rewrite Ht2).
  pose proof (sw_used s Hwf). rewrite u64_small by (rewrite pages_limit in *; unfold is_u64, U64MAX; lia).
  destruct (extend_fd_spec env fd s2 He Hwf2 ltac:(lia)) as [[e ->]|(s3 & -> & Hwf3 & Ht3 & Hu3 & Hf3 & Hx3)]; [done|].
  assert (Habs3 : sp_abs s3 = sp_abs s) by (rewrite <- Habs2; unfold sp_abs; by rewrite Ht3).
  destruct (shared_page_write_spec object offset s3) as (at_ & Hp & Hwf' & Habs'); auto.
  { by rewrite Habs3. } { unfold shared_pages_capacity. rewrite Ht3, Ht2. done. } { lia. }
  { rewrite Hu3. done. } { lia. }
  rewrite Hp. rewrite Hu3 in Hwf', Habs' |- *. split; [done|]. simpl. rewrite Habs', Habs3.
  split; [done|]. right. split; [done|]. rewrite Hu2, Hu1 in *. auto.
Qed.

Lemma shared_page_slot_outcome env fd object offset create s :
  env_ok env -> sp_wf s ->
  let k := (object, offset) in
  let valid := 0 <= fd /\ object <> 0 /\ page_aligned offset = true /\ offset <= I64MAX - 4095 /\
               (0 <= shared_pages_fd s -> shared_pages_fd s = fd) in
  let '(r, s') := shared_page_slot env fd object offset create s in
  sp_wf s' /\ sp_extends k r s s' /\
  (~ valid -> r = Err EINVAL /\ s' = s) /\
  (valid -> sp_abs s !! k <> None -> s' = s /\ is_ok r = true) /\
  (valid -> sp_abs s !! k = None -> create = false -> r = Err ENOENT /\ s' = s).
Proof.
  intros He Hwf k valid. unfold shared_page_slot.
  destruct ((fd <? 0) || (object =? 0) || negb (page_aligned offset) || (I64MAX - 4095 <? offset)) eqn:Hg.
  { split; [done|]. split; [done|]. assert (~ valid); [|tauto].
    intros (? & ? & Ha & ? & _). rewrite Ha in Hg. lia. }
  destruct ((0 <=? shared_pages_fd s) && negb (shared_pages_fd s =? fd)) eqn:Hf.
  { split; [done|]. split; [done|]. assert (~ valid); [|tauto]. intros (_ & _ & _ & _ & Hs). lia. }
  assert (Hv : valid).
  { unfold valid. destruct (page_aligned offset); simpl in Hg; [|lia]. repeat split; lia. }
  pose proof Hv as (H1 & H2 & H3 & H4 & H5).
  rewrite shared_page_search_spec by done. fold k.
  destruct (sp_abs s !! k) as [slot|] eqn:Hk.
  - split; [done|]. split; [simpl; rewrite insert_id by done; auto|].
    split; [by intros []|done].
  - destruct create; simpl.
    + pose proof (shared_page_create_spec env fd object offset s He Hwf H2 H1 H5 Hk) as Hc.
      destruct (shared_page_create env fd object offset s) as [r s'].
      destruct Hc as [? ?]. split; [done|]. split; [done|]. split; [by intros []|done].
    + split; [done|]. split; [done|]. split; [by intros []|done].
Qed.

(** A session: any sequence of calls. *)
Inductive sp_step : shared_pages_state -> shared_pages_state -> Prop :=
| sp_call env fd object offset create s r s' :
    env_ok env -> shared_page_slot env fd object offset create s = (r, s') -> sp_step s s'.

Lemma sp_step_wf s s' : sp_wf s -> sp_step s s' -> sp_wf s'.
Proof.
  intros Hwf Hst. destruct Hst as [env fd object offset create s0 r s1 He Hc].
  pose proof (shared_page_slot_outcome env fd object offset create s0 He Hwf) as Hs.
  rewrite Hc in Hs. apply Hs.
Qed.
Lemma sp_step_keeps s s' k slot :
  sp_wf s -> sp_step s s' -> sp_abs s !! k = Some slot -> sp_abs s' !! k = Some slot.
Proof.
  intros Hwf Hst Hk. destruct Hst as [env fd object offset create s0 r s1 He Hc].
  pose proof (shared_page_slot_outcome env fd object offset create s0 He Hwf) as Hs.
  rewrite Hc in Hs. destruct Hs as (_ & Hext & _). unfold sp_extends in Hext.
  destruct r as [sl|e| | |]; try done; [|by rewrite Hext].
  destruct Hext as [-> Hcase]. destruct (decide (k = (object, offset))) as [->|Hne].
  - rewrite lookup_insert_eq. destruct Hcase as [?|[? _]]; congruence.
  - by rewrite lookup_insert_ne.
Qed.

(** ** Properties *)

(** A call on a well-formed table that has the session's descriptor (or
    none yet) answers EINVAL for a bad descriptor, object or offset; a bound
    identity gets its slot with nothing changed; an unbound one gets ENOENT
    when creation was not asked, and otherwise the next page of the
    descriptor, which no identity had and which lies inside the extent the
    descriptor was given.  Whatever fails (capacity, allocation, fstat,
    ftruncate), no binding is lost or changed, and every probe loop ends. *)
Theorem shared_page_slot_spec env fd object offset create s :
  env_ok env -> sp_wf s ->
  let k := (object, offset) in
  let valid := 0 <= fd /\ object <> 0 /\ page_aligned offset = true /\ offset <= I64MAX - 4095 /\
               (0 <= shared_pages_fd s -> shared_pages_fd s = fd) in
  let '(r, s') := shared_page_slot env fd object offset create s in
  sp_wf s' /\ sp_extends k r s s' /\
  (~ valid -> r = Err EINVAL /\ s' = s) /\
  (valid -> sp_abs s !! k <> None -> s' = s /\ is_ok r = true) /\
  (valid -> sp_abs s !! k = None -> create = false -> r = Err ENOENT /\ s' = s).
Proof. apply shared_page_slot_outcome. Qed.

Definition demo_env : sp_env := mk_env (fun _ => true) (fun _ => Ok 0) (fun _ _ => Ok tt).
Lemma demo_env_ok : env_ok demo_env.
Proof. split; simpl; eauto. Qed.

Lemma shared_page_slot_spec_witness :
  fst (shared_page_slot demo_env 3 7 0x5000 false shared_pages_init) = Err ENOENT /\
  sp_wf (snd (shared_page_slot demo_env 3 7 0x5000 false shared_pages_init)).
Proof.
  split; [reflexivity|].
  exact (proj1 (shared_page_slot_spec demo_env 3 7 0x5000 false shared_pages_init demo_env_ok
    shared_pages_init_wf)).
Defined.

(** Along any sequence of calls of a session, whatever the system calls
    answer, a slot once handed out for an identity stays its slot for ever,
    and two identities never share a slot: no page of the descriptor is an
    alias of two (object, offset) pairs. *)
Theorem shared_slots_stable s s' k slot :
  steps sp_step shared_pages_init s -> steps sp_step s s' -> sp_abs s !! k = Some slot ->
  sp_abs s' !! k = Some slot /\
  forall k2, sp_abs s' !! k2 = Some slot -> k2 = k.
Proof.
  intros H1 H2 Hk.
  assert (Hwf : sp_wf s) by (revert H1; apply steps_invariant; [apply sp_step_wf|apply shared_pages_init_wf]).
  assert (sp_wf s' /\ sp_abs s' !! k = Some slot) as [Hwf' Hk'].
  { revert H2. apply (steps_invariant sp_step (fun s => sp_wf s /\ sp_abs s !! k = Some slot)); [|done].
    intros s1 s2 [? ?] Hst. eauto using sp_step_wf, sp_step_keeps. }
  split; [done|]. intros k2 Hk2. by apply (sw_inj s' Hwf' k2 k slot).
Qed.

Definition demo_state : shared_pages_state :=
  snd (shared_page_slot demo_env 3 7 0x5000 true shared_pages_init).
Lemma shared_slots_stable_witness :
  sp_abs demo_state !! (7, 0x5000) = Some 0 /\
  forall k2, sp_abs demo_state !! k2 = Some 0 -> k2 = (7, 0x5000).
Proof.
  refine (shared_slots_stable demo_state demo_state (7, 0x5000) 0 _ (steps_refl _ _) _);
    [|vm_compute; reflexivity].
  eapply steps_next; [apply steps_refl|].
  apply (sp_call demo_env 3 7 0x5000 true shared_pages_init
    (fst (shared_page_slot demo_env 3 7 0x5000 true shared_pages_init))); [apply demo_env_ok|].
  unfold demo_state. by destruct (shared_page_slot _ _ _ _ _ _).
Defined.

End SharedPages.
