(* ===== verification/SourceLineage.v ===== *)
(** * Fork lineage and broken copy-on-write pages (user/source-lineage.h)

    Two tables of the source.  [fork_rel] records, once and for ever, which
    memory lifetime each forked one came from; the lifetimes are numbered in
    creation order and a child is younger than its parent.  [cow_broken] is
    the set of (lifetime, page) whose copy-on-write was broken, an
    open-addressed array at most half full.  Both fail only by ending the
    process ([source_adapter_failed], [abort]). *)
From S2P Require Import Prelude Probe.

Module SourceLineage.

(** ** Fork lineage *)
Record source_lineage := mk_lineage { sl_child : Z; sl_parent : Z }.
Record lineage_table := mk_rel { fork_rel : list source_lineage; fork_rel_capacity : Z }.
Definition sizeof_lineage : Z := 16.
Definition fork_init : lineage_table := mk_rel [] 0.

(** 0 when the lifetime was not forked. *)
Fixpoint parent_scan (child : Z) (rows : list source_lineage) : Z :=
  match rows with
  | [] => 0
  | r :: rows' => if sl_child r =? child then sl_parent r else parent_scan child rows'
  end.
Definition fork_parent_mm (child : Z) (t : lineage_table) : Z := parent_scan child (fork_rel t).

(** The loop of [fork_rel_note]: [Some p] is an existing row's parent. *)
Fixpoint child_scan (child : Z) (rows : list source_lineage) : option Z :=
  match rows with
  | [] => None
  | r :: rows' => if negb (sl_child r =? child) then child_scan child rows' else Some (sl_parent r)
  end.
Definition fork_rel_note (alloc : Z -> bool) (cm pm : Z) (t : lineage_table) : result lineage_table :=
  if (cm =? 0) || (pm =? 0) || (cm <=? pm) then Aborted
  else
    match child_scan cm (fork_rel t) with
    | Some p => if negb (p =? pm) then Aborted else Ok t
    | None =>
        let n := Z.of_nat (length (fork_rel t)) in
        let! cap :=
          (if n =? fork_rel_capacity t then
             let cap := if nz (fork_rel_capacity t) then u64 (fork_rel_capacity t * 2) else 64 in
             if (cap <? fork_rel_capacity t) || (U64MAX / sizeof_lineage <? cap) then Aborted
             else if alloc cap then Ok cap else Aborted
           else Ok (fork_rel_capacity t)) in
        if n <? cap then Ok (mk_rel (fork_rel t ++ [mk_lineage cm pm]) cap) else Corrupt
    end.

(** The children of a lifetime, in an array of [max]; more of them end the
    process. *)
Fixpoint children_scan (pm : Z) (max : Z) (out : list Z) (rows : list source_lineage)
  : result (list Z) :=
  match rows with
  | [] => Ok out
  | r :: rows' =>
      if negb (sl_parent r =? pm) then children_scan pm max out rows'
      else if Z.of_nat (length out) =? max then Aborted
      else children_scan pm max (out ++ [sl_child r]) rows'
  end.
Definition fork_rel_children (pm max : Z) (t : lineage_table) : result (list Z) :=
  children_scan pm max [] (fork_rel t).

Record rel_wf (t : lineage_table) : Prop := {
  rw_rows : Forall (fun r => 0 < sl_parent r < sl_child r) (fork_rel t);
  rw_nodup : NoDup (sl_child <$> fork_rel t);
  rw_cap : Z.of_nat (length (fork_rel t)) <= fork_rel_capacity t <= U64MAX / sizeof_lineage
}.

Lemma fork_init_wf : rel_wf fork_init.
Proof. split; simpl; [constructor|constructor|]. split; [done|]. by vm_compute. Qed.

(** What the table says of a lifetime. *)
Lemma parent_scan_child child rows : parent_scan child rows = default 0 (child_scan child rows).
Proof. induction rows as [|r rows IH]; simpl; [done|]. by destruct (sl_child r =? child). Qed.
Lemma child_scan_app child rows1 rows2 :
  child_scan child (rows1 ++ rows2) =
  match child_scan child rows1 with Some p => Some p | None => child_scan child rows2 end.
Proof. induction rows1 as [|r rows1 IH]; simpl; [done|]. by destruct (sl_child r =? child). Qed.
Lemma child_scan_None child rows :
  child_scan child rows = None <-> child ∉ sl_child <$> rows.
Proof.
  induction rows as [|r rows IH]; simpl; [split; [set_solver|done]|].
  rewrite not_elem_of_cons. destruct (Z.eqb_spec (sl_child r) child) as [->|Hne]; simpl; [naive_solver|].
  rewrite IH. naive_solver.
Qed.
Lemma child_scan_Some child rows p :
  NoDup (sl_child <$> rows) -> child_scan child rows = Some p <-> mk_lineage child p ∈ rows.
Proof.
  induction rows as [|[c q] rows IH]; simpl; intros Hnd; [split; [done|set_solver]|].
  apply NoDup_cons in Hnd as [Hn Hnd]. rewrite elem_of_cons.
  destruct (Z.eqb_spec c child) as [->|Hne]; simpl.
  - split; [intros; simplify_eq; by left|]. intros [?|Hin]; [congruence|]. destruct Hn.
    apply list_elem_of_fmap. by exists (mk_lineage child p).
  - rewrite IH by done. split; [by right|]. intros [?|?]; [congruence|done].
Qed.

Lemma fork_rel_note_spec alloc cm pm t :
  rel_wf t -> 0 <= pm ->
  match fork_rel_note alloc cm pm t with
  | Ok t' => rel_wf t' /\ 0 < pm < cm /\ child_scan cm (fork_rel t') = Some pm /\
      forall c, c <> cm -> child_scan c (fork_rel t') = child_scan c (fork_rel t)
  | Aborted => True
  | _ => False
  end /\ forall t' c p, fork_rel_note alloc cm pm t = Ok t' ->
    child_scan c (fork_rel t) = Some p -> child_scan c (fork_rel t') = Some p.
Proof.
  intros Hwf Hpm. unfold fork_rel_note.
  destruct ((cm =? 0) || (pm =? 0) || (cm <=? pm)) eqn:Hg; [done|].
  assert (Hlt : 0 < pm < cm) by lia. clear Hg. destruct (child_scan cm (fork_rel t)) as [p|] eqn:Hc.
  { destruct (Z.eqb_spec p pm) as [->|]; simpl; [|done]. split; [auto|]. by intros; simplify_eq. }
  set (n := Z.of_nat (length (fork_rel t))).
  set (g := if n =? fork_rel_capacity t then _ else _).
  assert (Hgrow : g = Aborted \/ exists cap, g = Ok cap /\ n < cap <= U64MAX / sizeof_lineage).
  { pose proof (rw_cap t Hwf) as Hcap. fold n in Hcap. unfold g. clear g.
    assert (Hlim : U64MAX / sizeof_lineage = 1152921504606846975) by reflexivity. rewrite Hlim in *.
    assert (0 <= n) by (unfold n; lia).
    destruct (Z.eqb_spec n (fork_rel_capacity t)) as [He|Hne]; [|right; eexists; split; [done|lia]].
    assert (Hu : u64 (fork_rel_capacity t * 2) = fork_rel_capacity t * 2)
      by (apply u64_small; unfold is_u64, U64MAX; lia).
    destruct (Z.eqb_spec (fork_rel_capacity t) 0); simpl; rewrite ?Hu;
      destruct (_ || _) eqn:Hov; try (by left); destruct (alloc _); try (by left);
      right; eexists; (split; [reflexivity|lia]). }
  clearbody g. destruct Hgrow as [->|(cap & -> & Hcap)]; simpl; [done|].
  rewrite (proj2 (Z.ltb_lt n cap)) by lia.
  assert (Hkeep : forall c, child_scan c (fork_rel t ++ [mk_lineage cm pm]) =
    match child_scan c (fork_rel t) with Some p => Some p | None => if cm =? c then Some pm else None end).
  { intros c. rewrite child_scan_app. simpl. by destruct (cm =? c). }
  split; [split|].
  - destruct Hwf as [H1 H2 H3]. split; simpl.
    + apply Forall_app. split; [done|]. by apply Forall_singleton.
    + rewrite fmap_app. apply NoDup_app. split; [done|]. split; [|apply NoDup_singleton].
      intros x Hx ->%list_elem_of_singleton. simpl in Hx. by apply child_scan_None in Hc.
    + rewrite length_app. simpl. unfold n in Hcap. lia.
  - split; [done|]. simpl. rewrite Hkeep, Hc, Z.eqb_refl. split; [done|].
    intros c Hne. rewrite Hkeep, (proj2 (Z.eqb_neq cm c)) by done. by destruct (child_scan c _).
  - intros t' c p ? Hcp. simplify_eq/=. by rewrite Hkeep, Hcp.
Qed.

Lemma children_scan_spec pm max out rows :
  Z.of_nat (length out) <= max ->
  children_scan pm max out rows =
  if Z.of_nat (length out) + Z.of_nat (length (filter (fun r => sl_parent r = pm) rows)) <=? max
  then Ok (out ++ (sl_child <$> filter (fun r => sl_parent r = pm) rows))
  else Aborted.
Proof.
  revert out. induction rows as [|r rows IH]; intros out Hm.
  { simpl. rewrite app_nil_r, (proj2 (Z.leb_le _ _)) by lia. done. }
  rewrite filter_cons. cbn [children_scan].
  destruct (Z.eqb_spec (sl_parent r) pm) as [He|Hne]; cbn [negb].
  - rewrite decide_True by done. cbn [length].
    destruct (Z.eqb_spec (Z.of_nat (length out)) max).
    + by rewrite (proj2 (Z.leb_gt _ _)) by lia.
    + rewrite IH by (rewrite length_app; simpl; lia). rewrite length_app, <- app_assoc. cbn [length app].
      rewrite fmap_cons. match goal with |- (if ?a then _ else _) = (if ?b then _ else _) =>
        replace b with a; [done|] end. f_equal. lia.
  - rewrite decide_False by done. by apply IH.
Qed.

(** ** The set of broken pages *)
Record source_cow_entry := mk_cow { ce_mm : Z; ce_page : Z }.
Record cow_table := mk_cowtab { cow_broken : list source_cow_entry; cow_count : Z; n_cow_pages_owed : Z }.
Definition cow_capacity (t : cow_table) : nat := length (cow_broken t).
Definition cow_init : cow_table := mk_cowtab [] 0 0.
Definition cow_zero : source_cow_entry := mk_cow 0 0.
Definition ce_used (e : source_cow_entry) : bool := nz (ce_mm e).
Definition ce_key (e : source_cow_entry) : Z * Z := (ce_mm e, ce_page e).
Definition sizeof_cow_entry : Z := 16.

Definition cow_hash (k : Z * Z) : Z :=
  let hash := u64 (fst k * 0x9e3779b97f4a7c15) .^ (snd k .>> 12) in
  let hash := hash .^ (hash .>> 30) in
  let hash := u64 (hash * 0xbf58476d1ce4e5b9) in
  hash .^ (hash .>> 27).
Definition source_cow_slot (mm page : Z) (capacity : nat) : nat :=
  half_start cow_hash (mm, page) capacity.

(** The search both operations make: the first slot that is free or holds the
    page. *)
Definition cow_probe (mm page : Z) (tab : list source_cow_entry) : option nat :=
  probe tab (fun e => negb (ce_used e) || bool_decide (ce_key e = (mm, page)))
    (mask_next (length tab)) (length tab) (source_cow_slot mm page (length tab)).

Definition cow_mm_is_broken (mm page : Z) (t : cow_table) : result bool :=
  let page := page_base page in
  if (cow_capacity t =? 0)%nat then Ok false
  else
    match cow_probe mm page (cow_broken t) with
    | None => Hung
    | Some i =>
        match cow_broken t !! i with
        | Some e => Ok (ce_used e)
        | None => Hung
        end
    end.

Definition cow_grow (alloc : nat -> bool) (t : cow_table) : result cow_table :=
  let old := cow_capacity t in
  let cap := if (old =? 0)%nat then 256%nat else (old * 2)%nat in
  if (u64 (Z.of_nat cap) <? Z.of_nat old) || (U64MAX / sizeof_cow_entry <? Z.of_nat cap) then Aborted
  else if negb (alloc cap) then Aborted
  else
    match rehash ce_used ce_key (half_start cow_hash) (mask_next cap) (cow_broken t)
            (replicate cap cow_zero) with
    | None => Hung
    | Some grown => Ok (mk_cowtab grown (cow_count t) (n_cow_pages_owed t))
    end.

Definition cow_mm_note_break (alloc : nat -> bool) (mm page : Z) (t : cow_table) : result cow_table :=
  if mm =? 0 then Aborted
  else
    let page := page_base page in
    let! t := (if (cow_capacity t =? 0)%nat || (Z.of_nat (cow_capacity t / 2) <=? cow_count t)
               then cow_grow alloc t else Ok t) in
    match cow_probe mm page (cow_broken t) with
    | None => Hung
    | Some i =>
        match cow_broken t !! i with
        | Some e =>
            if ce_used e then Ok t
            else Ok (mk_cowtab (<[i := mk_cow mm page]> (cow_broken t))
                       (u64 (cow_count t + 1)) (u64 (n_cow_pages_owed t + 1)))
        | None => Hung
        end
    end.
(** [as_of] is the address space of a context. *)
Definition cow_note_break (alloc : nat -> bool) (as_of : Z -> Z) (child page : Z) (t : cow_table)
  : result cow_table := cow_mm_note_break alloc (as_of child) page t.
#[global] Arguments cow_grow : simpl never.

Record cow_wf (t : cow_table) : Prop := {
  cw_half : half_ok ce_used ce_key cow_hash (cow_broken t);
  cw_count : cow_count t = Z.of_nat (used_count ce_used (cow_broken t));
  cw_size : Z.of_nat (cow_capacity t) <= U64MAX / sizeof_cow_entry
}.
Definition cow_set (t : cow_table) : gset (Z * Z) := dom (tab_map ce_used ce_key (cow_broken t)).

Lemma cow_probe_spec mm page t :
  cow_wf t -> cow_capacity t <> 0%nat ->
  exists i e, cow_probe mm page (cow_broken t) = Some i /\ cow_broken t !! i = Some e /\
    (ce_used e = true /\ (mm, page) ∈ cow_set t \/
     ce_used e = false /\ ((mm, page) ∉ cow_set t) /\
     chain_end ce_used ce_key (half_start cow_hash) (cow_broken t) (mm, page) i).
Proof.
  intros Hwf Hc. destruct (half_room _ _ _ _ (cw_half t Hwf) Hc) as (Hr & _ & Hs & Hn).
  destruct (search_room ce_used ce_key (half_start cow_hash) (cow_broken t)
    (mask_next (length (cow_broken t))) (mm, page)) as (j & e & Hsr & He & Hcase); auto.
  { apply (cw_half t Hwf). }
  exists j, e. split; [exact Hsr|]. split; [done|]. unfold cow_set.
  rewrite elem_of_dom. destruct Hcase as [(? & _ & Hm)|(? & Hm & ?)]; rewrite Hm; [left|right]; eauto.
Qed.

Lemma cow_is_broken_spec mm page t :
  cow_wf t -> cow_mm_is_broken mm page t = Ok (bool_decide ((mm, page_base page) ∈ cow_set t)).
Proof.
  intros Hwf. unfold cow_mm_is_broken. cbv zeta.
  destruct (Nat.eqb_spec (cow_capacity t) 0) as [Hz|Hz].
  { apply nil_length_inv in Hz. unfold cow_set. by rewrite Hz. }
  destruct (cow_probe_spec mm (page_base page) t Hwf Hz) as (i & e & -> & -> & [[-> ?]|(-> & ? & _)]).
  - by rewrite bool_decide_eq_true_2.
  - by rewrite bool_decide_eq_false_2.
Qed.

Lemma cow_grow_spec alloc t :
  cow_wf t ->
  (cow_grow alloc t = Aborted) \/
  exists t', cow_grow alloc t = Ok t' /\ cow_wf t' /\ cow_set t' = cow_set t /\
    cow_capacity t' <> 0%nat /\ cow_count t' < Z.of_nat (cow_capacity t' / 2).
Proof.
  intros Hwf. unfold cow_grow. cbv zeta. unfold cow_capacity.
  destruct (half_grow ce_used ce_key cow_hash cow_zero eq_refl (cow_broken t) 256)
    as (tab' & Hre & Hok & Hl & Hm & Hu & Hroom).
  { apply Hwf. } { by exists 8%nat. } { lia. }
  set (cap := if (length (cow_broken t) =? 0)%nat then 256%nat else (length (cow_broken t) * 2)%nat) in *.
  destruct (_ || _) eqn:Hov; [by left|]. destruct (alloc cap); simpl; [|by left]. right. rewrite Hre.
  eexists. split; [reflexivity|]. simpl. unfold cow_set. simpl. rewrite Hm, Hl.
  destruct Hwf as [H1 H2 H3]. assert (Hc : cow_count t = Z.of_nat (used_count ce_used tab')) by congruence.
  split; [|split; [done|]].
  - split; simpl; auto. unfold cow_capacity. simpl. rewrite Hl. lia.
  - split; [|lia]. intros Hz. rewrite Hz in Hroom. by apply Nat.nlt_0_r in Hroom.
Qed.

Lemma cow_note_spec alloc mm page t :
  cow_wf t ->
  cow_mm_note_break alloc mm page t = Aborted \/
  exists t', cow_mm_note_break alloc mm page t = Ok t' /\ cow_wf t' /\ mm <> 0 /\
    cow_set t' = {[ (mm, page_base page) ]} ∪ cow_set t.
Proof.
  intros Hwf. unfold cow_mm_note_break. destruct (Z.eqb_spec mm 0) as [|Hmm]; [by left|]. cbv zeta.
  set (g := if _ || _ then cow_grow alloc t else Ok t).
  assert (Hg : g = Aborted \/ exists t', g = Ok t' /\ cow_wf t' /\ cow_set t' = cow_set t /\
    cow_capacity t' <> 0%nat /\ cow_count t' < Z.of_nat (cow_capacity t' / 2)).
  { unfold g. destruct (Nat.eqb_spec (cow_capacity t) 0); simpl; [by apply cow_grow_spec|].
    destruct (Z.leb_spec (Z.of_nat (cow_capacity t / 2)) (cow_count t)); [by apply cow_grow_spec|].
    right. eauto 10. }
  clearbody g. destruct Hg as [->|(t1 & -> & Hwf1 & Hset & Hc & Hload)]; [by left|]. right. simpl.
  destruct (cow_probe_spec mm (page_base page) t1 Hwf1 Hc) as (i & e & -> & He & Hcase). rewrite He.
  destruct Hcase as [[-> Hin]|(Hu & Hnin & Hend)].
  { eexists. split; [reflexivity|]. split; [done|]. split; [done|]. rewrite Hset in Hin |- *. set_solver. }
  rewrite Hu. eexists. split; [reflexivity|].
  destruct (half_room _ _ _ _ (cw_half t1 Hwf1) Hc) as (_ & Hp & Hs & _).
  set (e' := mk_cow mm (page_base page)).
  assert (Hue : ce_used e' = true) by (unfold ce_used; simpl; by rewrite (proj2 (Z.eqb_neq _ _) Hmm)).
  destruct Hwf1 as [H1 H2 H3].
  assert (Hch : chain ce_used ce_key (half_start cow_hash) (<[i := e']> (cow_broken t1))).
  { eapply chain_insert; eauto. apply H1. }
  assert (Hcount := used_count_write ce_used (cow_broken t1) i e e' He Hue). rewrite Hu in Hcount.
  assert (Hc1 : u64 (cow_count t1 + 1) = cow_count t1 + 1).
  { apply u64_small. pose proof (Nat.Div0.div_le_upper_bound (cow_capacity t1) 2 (cow_capacity t1)).
    assert (U64MAX / sizeof_cow_entry = 1152921504606846975) as Hlim by reflexivity.
    rewrite Hlim in *. unfold is_u64, U64MAX. lia. }
  split; [|split; [done|]].
  - split; unfold cow_capacity in *; simpl; rewrite ?length_insert; auto; [|lia].
    split; rewrite ?length_insert; [apply H1|done|]. rewrite Hcount. lia.
  - unfold cow_set. simpl. erewrite tab_map_write; eauto; [|apply H1|congruence].
    rewrite dom_insert_L. change (ce_key e') with (mm, page_base page). fold (cow_set t1). by rewrite Hset.
Qed.

(** ** Properties *)

(** The notes a source makes, in any order and with any allocator. *)
Inductive fork_step : lineage_table -> lineage_table -> Prop :=
| fork_noted alloc cm pm t t' : 0 <= pm -> fork_rel_note alloc cm pm t = Ok t' -> fork_step t t'.

Lemma fork_step_wf t t' : rel_wf t -> fork_step t t' -> rel_wf t'.
Proof.
  intros Hwf Hst. destruct Hst as [alloc cm pm t t' Hpm Hn].
  pose proof (proj1 (fork_rel_note_spec alloc cm pm t Hwf Hpm)) as Hs. rewrite Hn in Hs. apply Hs.
Qed.
Lemma fork_step_keeps t t' c p :
  rel_wf t -> fork_step t t' -> child_scan c (fork_rel t) = Some p -> child_scan c (fork_rel t') = Some p.
Proof.
  intros Hwf Hst Hc. destruct Hst as [alloc cm pm t t' Hpm Hn].
  by apply (proj2 (fork_rel_note_spec alloc cm pm t Hwf Hpm) t' c p).
Qed.
Lemma fork_reachable_wf t : steps fork_step fork_init t -> rel_wf t.
Proof. apply steps_invariant; [apply fork_step_wf|apply fork_init_wf]. Qed.

Lemma fork_parent_older t c :
  rel_wf t -> fork_parent_mm c t <> 0 -> 0 < fork_parent_mm c t < c.
Proof.
  intros Hwf. unfold fork_parent_mm. rewrite parent_scan_child.
  destruct (child_scan c (fork_rel t)) as [p|] eqn:Hc; simpl; [|done]. intros _.
  apply child_scan_Some in Hc; [|apply Hwf]. pose proof (rw_rows t Hwf) as Hr.
  rewrite Forall_forall in Hr. apply (Hr _ Hc).
Qed.

Lemma children_sublist pm rows :
  (sl_child <$> filter (fun r => sl_parent r = pm) rows) `sublist_of` (sl_child <$> rows).
Proof.
  induction rows as [|r rows IH]; [done|]. rewrite filter_cons.
  case_decide; [by apply sublist_skip|by apply sublist_cons].
Qed.

(** In every lineage the source can record, parents are older than their
    children, so following [fork_parent_mm] from any lifetime ends at 0, never
    in a cycle; a recorded parent is never changed by later notes (a
    conflicting note ends the process); and [fork_rel_children] returns
    exactly the children of a lifetime, each once, or ends the process when
    they are more than the batch holds: it never omits one. *)
Theorem fork_lineage_forest t :
  steps fork_step fork_init t ->
  (forall c, exists n, Nat.iter n (fun m => fork_parent_mm m t) c = 0) /\
  (forall c t', fork_parent_mm c t <> 0 -> steps fork_step t t' ->
     fork_parent_mm c t' = fork_parent_mm c t) /\
  (forall pm max, pm <> 0 -> 0 <= max ->
     match fork_rel_children pm max t with
     | Ok out => NoDup out /\ (forall c, c ∈ out <-> fork_parent_mm c t = pm)
     | Aborted => exists kids, NoDup kids /\ max < Z.of_nat (length kids) /\
         forall c, c ∈ kids -> fork_parent_mm c t = pm
     | _ => False
     end).
Proof.
  intros Hr. pose proof (fork_reachable_wf t Hr) as Hwf. split; [|split].
  - intros c. induction (Z.lt_wf 0 c) as [c _ IH].
    destruct (decide (fork_parent_mm c t = 0)) as [H0|Hp]; [by exists 1%nat|].
    pose proof (fork_parent_older t c Hwf Hp). destruct (IH (fork_parent_mm c t)) as [n Hn]; [lia|].
    exists (S n). by rewrite Nat.iter_succ_r.
  - intros c t' Hp Hst. unfold fork_parent_mm in *. rewrite !parent_scan_child in *.
    destruct (child_scan c (fork_rel t)) as [p|] eqn:Hc; [|done].
    assert (rel_wf t' /\ child_scan c (fork_rel t') = Some p) as [_ ->]; [|done].
    revert Hst. apply (steps_invariant fork_step (fun t => rel_wf t /\ child_scan c (fork_rel t) = Some p)); [|done].
    intros t1 t2 [? ?] ?. eauto using fork_step_wf, fork_step_keeps.
  - intros pm max Hpm Hmax. unfold fork_rel_children.
    rewrite children_scan_spec by (simpl; lia). set (kids := filter _ (fork_rel t)).
    assert (Hnd : NoDup (sl_child <$> kids)).
    { eapply sublist_NoDup; [apply (rw_nodup t Hwf)|]. apply children_sublist. }
    assert (Hin : forall c, c ∈ sl_child <$> kids <-> fork_parent_mm c t = pm).
    { intros c. unfold kids, fork_parent_mm. rewrite parent_scan_child, list_elem_of_fmap. split.
      - intros ([c' p'] & -> & [Hp Hc]%list_elem_of_filter). simpl in *.
        apply child_scan_Some in Hc; [|apply Hwf]. rewrite Hc. done.
      - intros Hd. destruct (child_scan c (fork_rel t)) as [p|] eqn:Hc; simpl in Hd; [|congruence].
        subst p. exists (mk_lineage c pm). split; [done|]. apply list_elem_of_filter.
        split; [done|]. by apply child_scan_Some in Hc; [|apply Hwf]. }
    cbn [app length]. destruct (_ <=? max) eqn:Hle; [split; [done|apply Hin]|]. exists (sl_child <$> kids).
    split; [done|]. rewrite length_fmap. split; [apply Z.leb_gt in Hle; unfold kids in *; lia|]. intros c Hc. by apply Hin.
Qed.

Lemma fork_lineage_forest_witness :
  exists t, fork_rel_children 5 4 t = Ok [7; 9] /\ exists n, Nat.iter n (fun m => fork_parent_mm m t) 9 = 0.
Proof.
  exists (mk_rel [mk_lineage 7 5; mk_lineage 9 5] 64). split; [reflexivity|].
  refine (proj1 (fork_lineage_forest _ _) 9).
  eapply steps_next; [eapply steps_next; [apply steps_refl|]|].
  - apply (fork_noted (fun _ => true) 7 5 fork_init (mk_rel [mk_lineage 7 5] 64)); [lia|reflexivity].
  - apply (fork_noted (fun _ => true) 9 5); [lia|reflexivity].
Defined.

(** The table of broken pages is a set: noting a page of a lifetime adds
    exactly that page (any address of it), keeps all others and is idempotent,
    the query answers membership without changing anything, both searches
    always end, and growth loses no entry.  A note fails only by ending the
    process: for a missing lifetime or when memory is exhausted. *)
Theorem cow_breaks_are_a_set alloc mm page t :
  cow_wf t ->
  (forall mm' page', cow_mm_is_broken mm' page' t = Ok (bool_decide ((mm', page_base page') ∈ cow_set t))) /\
  match cow_mm_note_break alloc mm page t with
  | Ok t' => cow_wf t' /\ cow_set t' = {[ (mm, page_base page) ]} ∪ cow_set t /\
      cow_mm_is_broken mm page t' = Ok true
  | Aborted => True
  | _ => False
  end.
Proof.
  intros Hwf. split; [by intros; apply cow_is_broken_spec|].
  destruct (cow_note_spec alloc mm page t Hwf) as [->|(t' & -> & Hwf' & _ & Hset)]; [done|].
  split; [done|]. split; [done|]. rewrite cow_is_broken_spec by done.
  rewrite bool_decide_eq_true_2; [done|]. rewrite Hset. set_solver.
Qed.

Lemma cow_init_wf : cow_wf cow_init.
Proof. split; simpl; [apply half_nil|done|]. by vm_compute. Qed.
Definition demo_cow : cow_table :=
  match cow_mm_note_break (fun _ => true) 5 0x7123 cow_init with Ok t => t | _ => cow_init end.
Lemma cow_breaks_are_a_set_witness :
  cow_mm_note_break (fun _ => true) 5 0x7123 cow_init = Ok demo_cow /\
  cow_mm_is_broken 5 0x7fff demo_cow = Ok true /\ cow_wf demo_cow.
Proof.
  assert (Hr : cow_mm_note_break (fun _ => true) 5 0x7123 cow_init = Ok demo_cow)
    by (vm_compute; reflexivity).
  pose proof (cow_breaks_are_a_set (fun _ => true) 5 0x7123 cow_init cow_init_wf) as [_ H].
  rewrite Hr in H. split; [exact Hr|]. split; [vm_compute; reflexivity|]. exact (proj1 H).
Defined.

End SourceLineage.
