(* ===== verification/CpuModel.v ===== *)
(** * The negotiated CPU model (kernel/vmctx_cpu_model.h)

    The instruction features and state components the guest may use, as
    CPUID-style masks.  Both machines describe themselves, the model is the
    trimmed intersection, and each adapter validates it independently.  The
    masks are kept as 32- and 64-bit words; inclusion of features is inclusion
    of bits. *)
From S2P Require Import Prelude.

Module CpuModel.

Record vmctx_cpu_model := mk_model {
  version : Z; reserved : Z;
  leaf1_ecx : Z; leaf1_edx : Z;
  leaf7_ebx : Z; leaf7_ecx : Z; leaf7_edx : Z;
  ext1_ecx : Z; ext1_edx : Z; reserved2 : Z;
  xcr0 : Z }.

Definition VMCTX_CPU_MODEL_VERSION : Z := 1.
Definition VMCTX_CPU_BIT (n : Z) : Z := Z.shiftl 1 n.
Definition VMCTX_CPU_1C : Z :=
  VMCTX_CPU_BIT 0 .| VMCTX_CPU_BIT 1 .| VMCTX_CPU_BIT 9 .| VMCTX_CPU_BIT 12 .| VMCTX_CPU_BIT 13 .|
  VMCTX_CPU_BIT 19 .| VMCTX_CPU_BIT 20 .| VMCTX_CPU_BIT 22 .| VMCTX_CPU_BIT 23 .| VMCTX_CPU_BIT 25 .|
  VMCTX_CPU_BIT 26 .| VMCTX_CPU_BIT 27 .| VMCTX_CPU_BIT 28 .| VMCTX_CPU_BIT 29 .| VMCTX_CPU_BIT 30.
Definition VMCTX_CPU_1D : Z :=
  VMCTX_CPU_BIT 0 .| VMCTX_CPU_BIT 4 .| VMCTX_CPU_BIT 8 .| VMCTX_CPU_BIT 15 .| VMCTX_CPU_BIT 23 .|
  VMCTX_CPU_BIT 24 .| VMCTX_CPU_BIT 25 .| VMCTX_CPU_BIT 26.
Definition VMCTX_CPU_7B : Z :=
  VMCTX_CPU_BIT 3 .| VMCTX_CPU_BIT 5 .| VMCTX_CPU_BIT 8 .| VMCTX_CPU_BIT 9 .| VMCTX_CPU_BIT 18 .|
  VMCTX_CPU_BIT 19 .| VMCTX_CPU_BIT 29.
Definition VMCTX_CPU_EC : Z := VMCTX_CPU_BIT 0 .| VMCTX_CPU_BIT 5.
Definition VMCTX_CPU_ED : Z := VMCTX_CPU_BIT 11 .| VMCTX_CPU_BIT 20 .| VMCTX_CPU_BIT 29.
Definition VMCTX_CPU_AVX_DEP : Z := VMCTX_CPU_BIT 12 .| VMCTX_CPU_BIT 28 .| VMCTX_CPU_BIT 29.
Definition VMCTX_CPU_XSAVE : Z := VMCTX_CPU_BIT 26 .| VMCTX_CPU_BIT 27.

(** [~x] of a 32-bit word *)
Definition not32 (x : Z) : Z := x .^ U32MAX.
Definition not64 (x : Z) : Z := x .^ U64MAX.

Definition vmctx_cpu_model_trim (m : vmctx_cpu_model) : vmctx_cpu_model :=
  let ecx := leaf1_ecx m .& VMCTX_CPU_1C in
  let ebx := leaf7_ebx m .& VMCTX_CPU_7B in
  let xcr := xcr0 m .& 7 in
  let '(ecx, xcr) :=
    if negb ((ecx .& VMCTX_CPU_XSAVE) =? VMCTX_CPU_XSAVE)
    then (ecx .& not32 VMCTX_CPU_XSAVE, xcr .& 3) else (ecx, xcr) in
  let '(ecx, ebx, xcr) :=
    if negb ((xcr .& 7) =? 7) || negb (nz (ecx .& VMCTX_CPU_BIT 28))
    then (ecx .& not32 VMCTX_CPU_AVX_DEP, ebx .& not32 (VMCTX_CPU_BIT 5), xcr .& 3)
    else (ecx, ebx, xcr) in
  mk_model VMCTX_CPU_MODEL_VERSION 0 ecx (leaf1_edx m .& VMCTX_CPU_1D) ebx 0 0
    (ext1_ecx m .& VMCTX_CPU_EC) (ext1_edx m .& VMCTX_CPU_ED) 0 xcr.

Definition vmctx_cpu_model_intersect (a b : vmctx_cpu_model) : vmctx_cpu_model :=
  vmctx_cpu_model_trim
    (mk_model (version a) (reserved a) (leaf1_ecx a .& leaf1_ecx b) (leaf1_edx a .& leaf1_edx b)
       (leaf7_ebx a .& leaf7_ebx b) (leaf7_ecx a .& leaf7_ecx b) (leaf7_edx a .& leaf7_edx b)
       (ext1_ecx a .& ext1_ecx b) (ext1_edx a .& ext1_edx b) (reserved2 a) (xcr0 a .& xcr0 b)).

Definition vmctx_cpu_model_valid (m : vmctx_cpu_model) : bool :=
  let c := vmctx_cpu_model_trim m in
  (version m =? version c) && (reserved m =? 0) && (reserved2 m =? 0) &&
  (leaf1_ecx m =? leaf1_ecx c) && (leaf1_edx m =? leaf1_edx c) &&
  (leaf7_ebx m =? leaf7_ebx c) && (leaf7_ecx m =? 0) && (leaf7_edx m =? 0) &&
  (ext1_ecx m =? ext1_ecx c) && (ext1_edx m =? ext1_edx c) &&
  (xcr0 m =? xcr0 c) && ((xcr0 m .& 3) =? 3) &&
  ((leaf1_edx m .& VMCTX_CPU_1D) =? VMCTX_CPU_1D) &&
  ((ext1_edx m .& VMCTX_CPU_ED) =? VMCTX_CPU_ED).

Definition vmctx_cpu_model_subset (m caps : vmctx_cpu_model) : bool :=
  vmctx_cpu_model_valid m &&
  ((leaf1_ecx m .& not32 (leaf1_ecx caps)) =? 0) && ((leaf1_edx m .& not32 (leaf1_edx caps)) =? 0) &&
  ((leaf7_ebx m .& not32 (leaf7_ebx caps)) =? 0) &&
  ((ext1_ecx m .& not32 (ext1_ecx caps)) =? 0) && ((ext1_edx m .& not32 (ext1_edx caps)) =? 0) &&
  ((xcr0 m .& not64 (xcr0 caps)) =? 0).

(** The four registers of one CPUID leaf. *)
Definition vmctx_cpu_model_cpuid (m : vmctx_cpu_model) (leaf subleaf : Z) : Z * Z * Z * Z :=
  if leaf =? 0 then (0xd, 0x756e6547, 0x6c65746e, 0x49656e69)
  else if leaf =? 1 then (0x600, Z.shiftl 1 16, leaf1_ecx m, leaf1_edx m)
  else if leaf =? 7 then (0, (if subleaf =? 0 then leaf7_ebx m else 0), 0, 0)
  else if leaf =? 0xd then
    if negb (nz (leaf1_ecx m .& VMCTX_CPU_BIT 26)) then (0, 0, 0, 0)
    else if subleaf =? 0 then
      let size := if nz (xcr0 m .& 4) then 832 else 576 in (u32 (xcr0 m), size, size, 0)
    else if (subleaf =? 2) && nz (xcr0 m .& 4) then (256, 576, 0, 0)
    else (0, 0, 0, 0)
  else if leaf =? 0x80000000 then (0x80000001, 0, 0, 0)
  else if leaf =? 0x80000001 then (0, 0, ext1_ecx m, ext1_edx m)
  else (0, 0, 0, 0).

(** ** Inclusion of bits *)
Definition incl (x y : Z) : Prop := x .& y = x.

(** Boolean algebra of words, bit by bit. *)
Ltac word_bits :=
  apply Z.bits_inj; intros n;
  repeat match goal with
  | H : ?x = ?y :> Z |- _ => apply (f_equal (fun z => Z.testbit z n)) in H
  end;
  rewrite ?Z.land_spec, ?Z.lxor_spec, ?Z.bits_0 in *;
  repeat match goal with H : context [Z.testbit ?x n] |- _ => revert H end;
  repeat match goal with |- context [Z.testbit ?x n] => destruct (Z.testbit x n) end;
  simpl; intuition congruence.

Lemma incl_refl x : incl x x.
Proof. apply Z.land_diag. Qed.
Lemma incl_trans x y z : incl x y -> incl y z -> incl x z.
Proof. unfold incl. intros. word_bits. Qed.
Lemma incl_land_l x k : incl (x .& k) x.
Proof. unfold incl. word_bits. Qed.
Lemma incl_land_mono x y k : incl x y -> incl (x .& k) (y .& k).
Proof. unfold incl. intros. word_bits. Qed.
Lemma incl_land_both x y z : incl x y -> incl x z -> incl x (y .& z).
Proof. unfold incl. intros. word_bits. Qed.
Lemma incl_land_out x y z : incl x (y .& z) -> incl x y /\ incl x z.
Proof. unfold incl. intros H. split; word_bits. Qed.
(** Tests for all bits of a mask, and for some bit, are monotone. *)
Lemma incl_full x y k : incl x y -> x .& k = k -> y .& k = k.
Proof. unfold incl. intros. word_bits. Qed.
Lemma incl_some x y k : incl x y -> x .& k <> 0 -> y .& k <> 0.
Proof. unfold incl. intros Hi Hx Hy. apply Hx. word_bits. Qed.
#[local] Hint Resolve incl_refl incl_land_l incl_land_mono incl_land_both : vmctx.

Lemma lnot_incl x y w : 0 <= x < 2 ^ w -> 0 <= w -> x .& (y .^ (2 ^ w - 1)) = 0 <-> incl x y.
Proof.
  intros Hx Hw. unfold incl. rewrite Z.sub_1_r, <- Z.ones_equiv.
  assert (Hhigh : forall n, ~ (0 <= n < w) -> Z.testbit x n = false).
  { intros n Hn. destruct (decide (n < 0)); [by apply Z.testbit_neg_r|].
    destruct (decide (x = 0)) as [->|]; [apply Z.bits_0|]. apply Z.bits_above_log2; [lia|].
    assert (Z.log2 x < w); [|lia]. apply Z.log2_lt_pow2; lia. }
  split; intros H; apply Z.bits_inj; intros n;
    apply (f_equal (fun z => Z.testbit z n)) in H; rewrite ?Z.land_spec, ?Z.lxor_spec, ?Z.bits_0 in *;
    destruct (decide (0 <= n < w)) as [Hn|Hn];
    try (rewrite (Hhigh n Hn); done); rewrite Z.ones_spec_low in * by lia;
    destruct (Z.testbit x n), (Z.testbit y n); done.
Qed.

(** ** Trimming

    The three shapes a trimmed model has. *)
Definition has_xsave (m : vmctx_cpu_model) : bool :=
  (leaf1_ecx m .& VMCTX_CPU_XSAVE) =? VMCTX_CPU_XSAVE.
Definition has_avx (m : vmctx_cpu_model) : bool :=
  has_xsave m && ((xcr0 m .& 7) =? 7) && nz (leaf1_ecx m .& VMCTX_CPU_BIT 28).

Definition trim_ecx (m : vmctx_cpu_model) : Z :=
  if has_avx m then VMCTX_CPU_1C
  else if has_xsave m then VMCTX_CPU_1C .& not32 VMCTX_CPU_AVX_DEP
  else VMCTX_CPU_1C .& not32 VMCTX_CPU_XSAVE .& not32 VMCTX_CPU_AVX_DEP.
Definition trim_ebx (m : vmctx_cpu_model) : Z :=
  if has_avx m then VMCTX_CPU_7B else VMCTX_CPU_7B .& not32 (VMCTX_CPU_BIT 5).
Definition trim_xcr (m : vmctx_cpu_model) : Z := if has_avx m then 7 else 3.

Lemma land_const x a b c : a .& b = c -> x .& a .& b = x .& c.
Proof. intros <-. by rewrite Z.land_assoc. Qed.

Lemma trim_shape m :
  vmctx_cpu_model_trim m =
  mk_model VMCTX_CPU_MODEL_VERSION 0 (leaf1_ecx m .& trim_ecx m) (leaf1_edx m .& VMCTX_CPU_1D)
    (leaf7_ebx m .& trim_ebx m) 0 0 (ext1_ecx m .& VMCTX_CPU_EC) (ext1_edx m .& VMCTX_CPU_ED) 0
    (xcr0 m .& trim_xcr m).
Proof.
  unfold vmctx_cpu_model_trim, trim_ecx, trim_ebx, trim_xcr, has_avx, has_xsave. cbv zeta.
  rewrite (land_const (leaf1_ecx m) VMCTX_CPU_1C VMCTX_CPU_XSAVE VMCTX_CPU_XSAVE eq_refl).
  destruct (leaf1_ecx m .& VMCTX_CPU_XSAVE =? VMCTX_CPU_XSAVE); cbn [negb andb].
  - rewrite (land_const (xcr0 m) 7 7 7 eq_refl).
    rewrite (land_const (leaf1_ecx m) VMCTX_CPU_1C (VMCTX_CPU_BIT 28) (VMCTX_CPU_BIT 28) eq_refl).
    destruct (xcr0 m .& 7 =? 7), (leaf1_ecx m .& VMCTX_CPU_BIT 28 =? 0); cbn [negb andb orb]; try done;
      by rewrite ?Z.land_assoc, (land_const (xcr0 m) 7 3 3 eq_refl).
  - rewrite (land_const (xcr0 m) 7 3 3 eq_refl), (land_const (xcr0 m) 3 7 3 eq_refl).
    replace (xcr0 m .& 3 =? 7) with false.
    + cbn [negb orb]. by rewrite !Z.land_assoc, (land_const (xcr0 m) 3 3 3 eq_refl).
    + symmetry. apply Z.eqb_neq. intros H. apply (f_equal (fun z => Z.testbit z 2)) in H.
      rewrite Z.land_spec, andb_false_r in H. done.
Qed.

Lemma has_xsave_trim m : has_xsave (vmctx_cpu_model_trim m) = has_xsave m.
Proof.
  rewrite trim_shape. unfold has_xsave at 1. cbn [leaf1_ecx]. unfold trim_ecx.
  destruct (has_avx m) eqn:Ha; [|destruct (has_xsave m) eqn:Hx].
  - rewrite (land_const _ VMCTX_CPU_1C VMCTX_CPU_XSAVE VMCTX_CPU_XSAVE eq_refl). done.
  - rewrite (land_const _ _ VMCTX_CPU_XSAVE VMCTX_CPU_XSAVE) by reflexivity. exact Hx.
  - rewrite (land_const _ _ VMCTX_CPU_XSAVE 0) by reflexivity. by rewrite Z.land_0_r.
Qed.
Lemma has_avx_trim m : has_avx (vmctx_cpu_model_trim m) = has_avx m.
Proof.
  unfold has_avx at 1. rewrite has_xsave_trim, trim_shape. cbn [leaf1_ecx xcr0].
  unfold trim_ecx, trim_xcr. destruct (has_avx m) eqn:Ha.
  - rewrite (land_const _ VMCTX_CPU_1C (VMCTX_CPU_BIT 28) (VMCTX_CPU_BIT 28) eq_refl).
    rewrite (land_const _ 7 7 7 eq_refl). exact Ha.
  - rewrite (land_const (xcr0 m) 3 7 3 eq_refl).
    replace (xcr0 m .& 3 =? 7) with false; [by rewrite andb_false_r|].
    symmetry. apply Z.eqb_neq. intros H. apply (f_equal (fun z => Z.testbit z 2)) in H.
    rewrite Z.land_spec, andb_false_r in H. done.
Qed.

Lemma trim_idem m : vmctx_cpu_model_trim (vmctx_cpu_model_trim m) = vmctx_cpu_model_trim m.
Proof.
  rewrite (trim_shape (vmctx_cpu_model_trim m)). unfold trim_ecx, trim_ebx, trim_xcr.
  rewrite has_avx_trim, has_xsave_trim, trim_shape. cbn.
  fold (trim_ecx m) (trim_ebx m) (trim_xcr m). by rewrite <- !Z.land_assoc, !Z.land_diag.
Qed.

(** What a model must have to be usable at all: x87 and SSE state and the
    baseline instruction features. *)
Definition baseline (m : vmctx_cpu_model) : Prop :=
  xcr0 m .& 3 = 3 /\ leaf1_edx m .& VMCTX_CPU_1D = VMCTX_CPU_1D /\ ext1_edx m .& VMCTX_CPU_ED = VMCTX_CPU_ED.

Lemma valid_spec m :
  vmctx_cpu_model_valid m = true <-> vmctx_cpu_model_trim m = m /\ baseline m.
Proof.
  unfold vmctx_cpu_model_valid, baseline. cbv zeta. rewrite trim_shape. cbn.
  rewrite !andb_true_iff, !Z.eqb_eq. destruct m; cbn. unfold VMCTX_CPU_MODEL_VERSION. split.
  - intros. destruct_and!. split; [|done]. congruence.
  - intros [Hm ?]. injection Hm as. destruct_and?. repeat split; congruence.
Qed.

Lemma trim_valid m : vmctx_cpu_model_valid (vmctx_cpu_model_trim m) = true <-> baseline m.
Proof.
  rewrite valid_spec. split.
  - intros [_ Hb]. rewrite trim_shape in Hb. unfold baseline in *. cbn in Hb.
    rewrite (land_const (xcr0 m) _ 3 3) in Hb by (unfold trim_xcr; by destruct (has_avx m)).
    rewrite !(land_const _ VMCTX_CPU_1D VMCTX_CPU_1D VMCTX_CPU_1D eq_refl) in Hb.
    by rewrite !(land_const _ VMCTX_CPU_ED VMCTX_CPU_ED VMCTX_CPU_ED eq_refl) in Hb.
  - intros Hb. split; [apply trim_idem|]. rewrite trim_shape. unfold baseline in *. cbn.
    rewrite (land_const (xcr0 m) _ 3 3) by (unfold trim_xcr; by destruct (has_avx m)).
    rewrite !(land_const _ VMCTX_CPU_1D VMCTX_CPU_1D VMCTX_CPU_1D eq_refl).
    by rewrite !(land_const _ VMCTX_CPU_ED VMCTX_CPU_ED VMCTX_CPU_ED eq_refl).
Qed.

(** Inclusion of all features and state components. *)
Record features_incl (m c : vmctx_cpu_model) : Prop := {
  fi_1c : incl (leaf1_ecx m) (leaf1_ecx c);
  fi_1d : incl (leaf1_edx m) (leaf1_edx c);
  fi_7b : incl (leaf7_ebx m) (leaf7_ebx c);
  fi_ec : incl (ext1_ecx m) (ext1_ecx c);
  fi_ed : incl (ext1_edx m) (ext1_edx c);
  fi_xcr : incl (xcr0 m) (xcr0 c)
}.
(** The fields are words of their width. *)
Definition is_model (m : vmctx_cpu_model) : Prop :=
  is_u32 (leaf1_ecx m) /\ is_u32 (leaf1_edx m) /\ is_u32 (leaf7_ebx m) /\
  is_u32 (ext1_ecx m) /\ is_u32 (ext1_edx m) /\ is_u64 (xcr0 m).

Lemma not32_incl x y : is_u32 x -> ((x .& not32 y) =? 0) = true <-> incl x y.
Proof.
  intros Hx. rewrite Z.eqb_eq. unfold not32, is_u32, U32MAX in *.
  apply (lnot_incl x y 32); [clear y|]; lia.
Qed.
Lemma not64_incl x y : is_u64 x -> ((x .& not64 y) =? 0) = true <-> incl x y.
Proof.
  intros Hx. rewrite Z.eqb_eq. unfold not64, is_u64, U64MAX in *.
  apply (lnot_incl x y 64); [clear y|]; lia.
Qed.

Lemma subset_spec m caps :
  is_model m ->
  vmctx_cpu_model_subset m caps = true <-> vmctx_cpu_model_valid m = true /\ features_incl m caps.
Proof.
  intros (H1 & H2 & H3 & H4 & H5 & H6). unfold vmctx_cpu_model_subset. rewrite !andb_true_iff.
  rewrite !not32_incl, not64_incl by done. split; [intros; destruct_and!; split; [done|by split]|].
  by intros [? []].
Qed.

Lemma land_range x y n : 0 <= x <= 2 ^ n - 1 -> 0 <= y -> 0 <= n -> 0 <= x .& y <= 2 ^ n - 1.
Proof.
  intros Hx Hy Hn. assert (Hnn : 0 <= x .& y) by (apply Z.land_nonneg; left; lia). split; [done|].
  destruct (decide (x .& y = 0)) as [H0|Hne]; [lia|].
  assert (x <> 0) by (intros ->; by rewrite Z.land_0_l in Hne).
  assert (x .& y < 2 ^ n); [|lia]. apply Z.log2_lt_pow2; [lia|].
  pose proof (Z.log2_land x y). assert (Z.log2 x < n) by (apply Z.log2_lt_pow2; lia). lia.
Qed.
Lemma land_u32 x y : is_u32 x -> 0 <= y -> is_u32 (x .& y).
Proof. intros Hx Hy. unfold is_u32, U32MAX in *. by apply (land_range x y 32). Qed.
Lemma land_u64 x y : is_u64 x -> 0 <= y -> is_u64 (x .& y).
Proof. intros Hx Hy. unfold is_u64, U64MAX in *. by apply (land_range x y 64). Qed.
Lemma trim_is_model m : is_model m -> is_model (vmctx_cpu_model_trim m).
Proof.
  intros (H1 & H2 & H3 & H4 & H5 & H6). rewrite trim_shape. unfold is_model. cbn.
  unfold trim_ecx, trim_ebx, trim_xcr.
  refine (conj (land_u32 _ _ H1 _) (conj (land_u32 _ _ H2 _) (conj (land_u32 _ _ H3 _)
    (conj (land_u32 _ _ H4 _) (conj (land_u32 _ _ H5 _) (land_u64 _ _ H6 _))))));
    destruct (has_avx m), (has_xsave m); by vm_compute.
Qed.

Lemma trim_incl m : features_incl (vmctx_cpu_model_trim m) m.
Proof. rewrite trim_shape. split; cbn; apply incl_land_l. Qed.

Lemma incl_land2 x y k l : incl x y -> incl k l -> incl (x .& k) (y .& l).
Proof. unfold incl. intros. word_bits. Qed.

Lemma trim_mono m c :
  features_incl m c -> features_incl (vmctx_cpu_model_trim m) (vmctx_cpu_model_trim c).
Proof.
  intros [H1 H2 H3 H4 H5 H6].
  assert (Hx : has_xsave m = true -> has_xsave c = true).
  { unfold has_xsave. rewrite !Z.eqb_eq. by apply incl_full. }
  assert (Ha : has_avx m = true -> has_avx c = true).
  { unfold has_avx. rewrite !andb_true_iff, !negb_true_iff, !Z.eqb_eq, !Z.eqb_neq.
    intros ((Hm & H7) & H28). split; [split; [by apply Hx|by eapply incl_full]|].
    by eapply incl_some. }
  rewrite !trim_shape. split; cbn; try (apply incl_land_mono; assumption); apply incl_land2; try assumption.
  - unfold trim_ecx. destruct (has_avx m); [rewrite Ha by done; done|].
    destruct (has_xsave m); [rewrite Hx by done; by destruct (has_avx c)|].
    destruct (has_avx c), (has_xsave c); by vm_compute.
  - unfold trim_ebx. destruct (has_avx m); [rewrite Ha by done; done|]. by destruct (has_avx c).
  - unfold trim_xcr. destruct (has_avx m); [rewrite Ha by done; done|]. by destruct (has_avx c).
Qed.

(** ** Properties *)

(** The negotiated model is the greatest one both machines can honour.
    For two machine descriptions, the intersection is a valid model exactly
    when both have the baseline features and the x87 and SSE state; it is then
    a subset of each machine's capabilities, and every valid model that is a
    subset of both is included in it.  So neither adapter's independent check
    can reject it, and no common feature is lost. *)
Theorem cpu_intersect_greatest a b :
  is_model a -> is_model b ->
  let out := vmctx_cpu_model_intersect a b in
  (vmctx_cpu_model_valid out = true <-> baseline a /\ baseline b) /\
  (vmctx_cpu_model_valid out = true ->
     vmctx_cpu_model_subset out a = true /\ vmctx_cpu_model_subset out b = true) /\
  (forall m, is_model m -> vmctx_cpu_model_subset m a = true -> vmctx_cpu_model_subset m b = true ->
     vmctx_cpu_model_subset m out = true).
Proof.
  intros Ha Hb out. unfold out, vmctx_cpu_model_intersect. set (c := mk_model _ _ _ _ _ _ _ _ _ _ _).
  assert (Hc : is_model c).
  { destruct Ha as (? & ? & ? & ? & ? & ?), Hb as ([? _] & [? _] & [? _] & [? _] & [? _] & [? _]).
    unfold is_model, c. cbn. auto 10 using land_u32, land_u64. }
  assert (Hca : features_incl c a) by (split; cbn; apply incl_land_l).
  assert (Hcb : features_incl c b) by (split; cbn; rewrite Z.land_comm; apply incl_land_l).
  assert (Hup : forall m, features_incl m a -> features_incl m b -> features_incl m c).
  { intros m [] []. split; cbn; by apply incl_land_both. }
  split; [|split].
  - rewrite trim_valid. unfold baseline, c. cbn. split.
    + intros (H1 & H2 & H3). split; (split; [|split]);
        eapply incl_full; eauto; try apply incl_land_l; rewrite Z.land_comm; apply incl_land_l.
    + intros [(H1 & H2 & H3) (H4 & H5 & H6)].
      split; [|split]; rewrite <- Z.land_assoc; congruence.
  - intros Hv. rewrite !subset_spec by (by apply trim_is_model).
    assert (Ht : forall x, features_incl c x -> features_incl (vmctx_cpu_model_trim c) x).
    { intros x []. destruct (trim_incl c). split; eapply incl_trans; eauto. }
    auto.
  - intros m Hm. rewrite !subset_spec by done. intros [Hv Hia] [_ Hib]. split; [done|].
    pose proof (proj1 (proj1 (valid_spec m) Hv)) as Htrim.
    pose proof (trim_mono m c (Hup m Hia Hib)) as Hmono. by rewrite Htrim in Hmono.
Qed.

Definition demo_caps : vmctx_cpu_model :=
  mk_model 0 0 U32MAX U32MAX U32MAX U32MAX U32MAX U32MAX U32MAX 0 7.
Definition demo_small : vmctx_cpu_model :=
  mk_model 0 0 (VMCTX_CPU_BIT 0) U32MAX U32MAX 0 0 0 U32MAX 0 3.
Lemma cpu_intersect_greatest_witness :
  vmctx_cpu_model_valid (vmctx_cpu_model_intersect demo_caps demo_small) = true /\
  vmctx_cpu_model_subset (vmctx_cpu_model_intersect demo_caps demo_small) demo_small = true.
Proof.
  assert (H1 : is_model demo_caps) by (repeat split; vm_compute; discriminate).
  assert (H2 : is_model demo_small) by (repeat split; vm_compute; discriminate).
  split; [reflexivity|].
  exact (proj2 (proj1 (proj2 (cpu_intersect_greatest demo_caps demo_small H1 H2)) eq_refl)).
Defined.

(** What a valid model shows the guest is consistent: it always has the
    x87 and SSE components, it enables the YMM component exactly when it also
    has XSAVE, OSXSAVE and AVX, every feature that needs YMM state (FMA, F16C,
    AVX2) is absent without it, and the CPUID leaf 0xd reports the size of the
    components it enables. *)
Theorem cpu_valid_consistent m :
  vmctx_cpu_model_valid m = true ->
  xcr0 m .& 3 = 3 /\ (xcr0 m = 3 \/ xcr0 m = 7) /\
  (xcr0 m = 7 <-> leaf1_ecx m .& VMCTX_CPU_XSAVE = VMCTX_CPU_XSAVE /\ leaf1_ecx m .& VMCTX_CPU_BIT 28 <> 0) /\
  (xcr0 m = 3 -> leaf1_ecx m .& VMCTX_CPU_AVX_DEP = 0 /\ leaf7_ebx m .& VMCTX_CPU_BIT 5 = 0) /\
  (leaf1_ecx m .& VMCTX_CPU_BIT 26 <> 0 ->
     vmctx_cpu_model_cpuid m 0xd 0 =
       (xcr0 m, (if xcr0 m =? 7 then 832 else 576), (if xcr0 m =? 7 then 832 else 576), 0)).
Proof.
  intros [Htrim (Hx3 & _ & _)]%valid_spec. rewrite trim_shape in Htrim.
  assert (Hecx : leaf1_ecx m = leaf1_ecx m .& trim_ecx m) by (rewrite <- Htrim at 1; done).
  assert (Hebx : leaf7_ebx m = leaf7_ebx m .& trim_ebx m) by (rewrite <- Htrim at 1; done).
  assert (Hxcr : xcr0 m = xcr0 m .& trim_xcr m) by (rewrite <- Htrim at 1; done). clear Htrim.
  unfold trim_ecx, trim_ebx, trim_xcr in *. destruct (has_avx m) eqn:Ha.
  - unfold has_avx in Ha. rewrite !andb_true_iff, negb_true_iff, !Z.eqb_eq, Z.eqb_neq in Ha.
    destruct Ha as [[Hs H7] H28]. unfold has_xsave in Hs. apply Z.eqb_eq in Hs.
    assert (Hx7 : xcr0 m = 7) by congruence. rewrite Hx7.
    split; [done|]. split; [by right|]. split; [done|]. split; [done|]. intros H26.
    unfold vmctx_cpu_model_cpuid. cbn -[Z.land]. by rewrite (proj2 (Z.eqb_neq _ _) H26), Hx7.
  - assert (Hx7 : xcr0 m = 3) by congruence. rewrite Hx7.
    split; [done|]. split; [by left|]. split; [|split].
    + split; [done|]. intros [Hs H28]. exfalso. apply H28.
      rewrite Hecx. destruct (has_xsave m); rewrite (land_const _ _ (VMCTX_CPU_BIT 28) 0) by reflexivity;
        apply Z.land_0_r.
    + intros _. split.
      * rewrite Hecx. destruct (has_xsave m); rewrite (land_const _ _ VMCTX_CPU_AVX_DEP 0) by reflexivity;
          apply Z.land_0_r.
      * rewrite Hebx, (land_const _ _ (VMCTX_CPU_BIT 5) 0) by reflexivity. apply Z.land_0_r.
    + intros H26. unfold vmctx_cpu_model_cpuid. cbn -[Z.land].
      by rewrite (proj2 (Z.eqb_neq _ _) H26), Hx7.
Qed.

Lemma cpu_valid_consistent_witness :
  xcr0 (vmctx_cpu_model_trim demo_caps) = 7 /\ xcr0 (vmctx_cpu_model_trim demo_caps) .& 3 = 3.
Proof.
  split; [reflexivity|].
  refine (proj1 (cpu_valid_consistent (vmctx_cpu_model_trim demo_caps) _)). reflexivity.
Defined.

End CpuModel.
