(* ===== verification/Proto.v ===== *)
(** * The wire protocol's records and their checks (user/vmrproto.h,
      memory-identity.h, page-receipt.h, child-pages.h, cpu-wire.h,
      source-map-effects.h)

    What travels between the two machines and the predicates each side applies
    before acting on it.  Payload bytes that no check looks at are left out of
    the records. *)
From S2P Require Import Prelude.

Module Proto.

(** ** MM bindings (memory-identity.h) *)
Record vmr_mm_binding := mk_binding { mb_context : Z; mb_mm : Z; mb_parent_mm : Z; mb_epoch : Z }.
#[global] Instance binding_eq_dec : EqDecision vmr_mm_binding.
Proof. solve_decision. Defined.
Definition no_binding : vmr_mm_binding := mk_binding 0 0 0 0.
Definition vmr_binding_valid (b : vmr_mm_binding) : bool :=
  nz (mb_context b) && nz (mb_mm b) && nz (mb_epoch b) && negb (mb_parent_mm b =? mb_mm b).
Definition vmr_binding_empty (b : vmr_mm_binding) : bool :=
  (mb_context b .| mb_mm b .| mb_parent_mm b .| mb_epoch b) =? 0.
Definition vmr_binding_equal (a b : vmr_mm_binding) : bool :=
  (mb_context a =? mb_context b) && (mb_mm a =? mb_mm b) &&
  (mb_parent_mm a =? mb_parent_mm b) && (mb_epoch a =? mb_epoch b).

Lemma binding_equal_spec a b : vmr_binding_equal a b = true <-> a = b.
Proof.
  unfold vmr_binding_equal. rewrite !andb_true_iff, !Z.eqb_eq. destruct a, b; simpl. naive_solver.
Qed.
Lemma binding_empty_spec b : vmr_binding_empty b = true <-> b = no_binding.
Proof.
  unfold vmr_binding_empty, no_binding. rewrite Z.eqb_eq, !Z.lor_eq_0_iff. destruct b; simpl. naive_solver.
Qed.

(** ** Requests and replies (vmrproto.h) *)
Definition VMR_OP_START : Z := 0x1000.
Definition VMR_OP_LAYOUT : Z := 0x1001.
Definition VMR_OP_PAGE : Z := 0x1002.
Definition VMR_OP_FINISH : Z := 0x1004.
Definition VMR_OP_CTXPAGE : Z := 0x1009.
Definition VMR_OP_WRITEPREP : Z := 0x100a.
Definition VMR_OP_INSTALLED : Z := 0x100b.
Definition VMR_OP_STALETRAIL : Z := 0x100c.
Definition VMR_OP_ACCESS_READ : Z := 0x1011.
Definition VMR_OP_ACCESS_ACK : Z := 0x1012.
Definition VMR_OP_CHILD_PAGES : Z := 0x1015.
Definition VMR_EFFECT_CHILD : Z := 2.
Definition VMR_PG_MAGIC : Z := 0x49504d56.
Definition VMR_PG_SIZE : Z := 4096.

Record vmr_req := mk_req {
  rq_magic : Z; rq_nr : Z; rq_call_nr : Z; rq_ticket : Z; rq_execution_epoch : Z;
  rq_execution_ns : Z; rq_args : list Z; rq_datalen : Z; rq_target : vmr_mm_binding }.
Record vmr_rsp := mk_rsp {
  rs_magic : Z; rs_call_state : Z; rs_ticket : Z; rs_prepare_flags : Z;
  rs_memory_target : vmr_mm_binding; rs_memory_op : Z; rs_memory_args : list Z;
  rs_child_shared_mm : Z; rs_retval : Z; rs_child_source : Z; rs_datalen : Z;
  rs_regs_valid : Z; rs_ended : Z; rs_ended_status : Z; rs_effects : Z;
  rs_pages_taken : Z; rs_page_episode : Z; rs_mmseq : Z; rs_ngen : Z;
  rs_binding : vmr_mm_binding; rs_child_binding : vmr_mm_binding }.

Definition vmr_rsp_bindings_valid (r : vmr_rsp) : bool :=
  if negb (vmr_binding_empty (rs_binding r)) && negb (vmr_binding_valid (rs_binding r)) then false
  else if negb (nz (rs_effects r .& VMR_EFFECT_CHILD)) then vmr_binding_empty (rs_child_binding r)
  else if negb (vmr_binding_valid (rs_binding r)) || negb (vmr_binding_valid (rs_child_binding r)) ||
          (rs_child_source r <=? 0) ||
          negb (mb_context (rs_child_binding r) =? u64 (rs_child_source r)) ||
          (mb_context (rs_child_binding r) =? mb_context (rs_binding r)) then false
  else if nz (rs_child_shared_mm r) then
    (rs_child_shared_mm r =? 1) && (mb_mm (rs_child_binding r) =? mb_mm (rs_binding r)) &&
    (mb_parent_mm (rs_child_binding r) =? mb_parent_mm (rs_binding r))
  else
    negb (mb_mm (rs_child_binding r) =? mb_mm (rs_binding r)) &&
    (mb_parent_mm (rs_child_binding r) =? mb_mm (rs_binding r)).

Definition vmr_memory_operation (op : Z) : bool :=
  (op =? VMR_OP_LAYOUT) || (op =? VMR_OP_PAGE) || (op =? VMR_OP_CTXPAGE) ||
  (op =? VMR_OP_WRITEPREP) || (op =? VMR_OP_INSTALLED) || (op =? VMR_OP_STALETRAIL) ||
  (op =? VMR_OP_ACCESS_READ) || (op =? VMR_OP_ACCESS_ACK) || (op =? VMR_OP_CHILD_PAGES).

Definition vmr_memory_receipt (request : vmr_req) (r : vmr_rsp) : vmr_rsp :=
  mk_rsp (rs_magic r) (rs_call_state r) (rs_ticket r) (rs_prepare_flags r)
    (rq_target request) (rq_nr request) (rq_args request)
    (rs_child_shared_mm r) (rs_retval r) (rs_child_source r) (rs_datalen r) (rs_regs_valid r)
    (rs_ended r) (rs_ended_status r) (rs_effects r) (rs_pages_taken r) (rs_page_episode r)
    (rs_mmseq r) (rs_ngen r) (rs_binding r) (rs_child_binding r).

(** The loops over the six arguments. *)
Definition args_zero (a : list Z) : bool := forallb (fun x => x =? 0) a.
Fixpoint args_equal (a b : list Z) : bool :=
  match a, b with
  | [], [] => true
  | x :: a', y :: b' => (x =? y) && args_equal a' b'
  | _, _ => false
  end.

Definition vmr_memory_reply_matches (request : vmr_req) (reply : vmr_rsp) : bool :=
  if negb (vmr_memory_operation (rq_nr request)) then
    if negb (vmr_binding_empty (rs_memory_target reply)) || nz (rs_memory_op reply) then false
    else if negb (args_zero (rs_memory_args reply)) then false
    else vmr_binding_empty (rq_target request)
  else
    vmr_binding_valid (rq_target request) && (rs_memory_op reply =? rq_nr request) &&
    vmr_binding_equal (rq_target request) (rs_memory_target reply) &&
    args_equal (rs_memory_args reply) (rq_args request).

Record vmr_pgreq := mk_pgreq {
  pq_magic : Z; pq_op : Z; pq_addr : Z; pq_len : Z; pq_target : vmr_mm_binding; pq_owner : Z }.
Record vmr_pgrsp := mk_pgrsp {
  pr_magic : Z; pr_status : Z; pr_gen : Z; pr_why : Z; pr_target : vmr_mm_binding; pr_addr : Z;
  pr_op : Z; pr_reserved : Z }.
Definition vmr_page_reply_matches (request : vmr_pgreq) (reply : vmr_pgrsp) : bool :=
  (pr_magic reply =? VMR_PG_MAGIC) && (pr_reserved reply =? 0) &&
  vmr_binding_valid (pq_target request) && vmr_binding_equal (pq_target request) (pr_target reply) &&
  (pr_addr reply =? pq_addr request) && (pr_op reply =? pq_op request).

(** ** Page receipts (page-receipt.h) *)
Definition source_page_response_valid (request : vmr_req) (reply : vmr_rsp) : bool :=
  if negb (rq_nr request =? VMR_OP_CTXPAGE) then true
  else if rs_retval reply <=? 0 then
    (rs_datalen reply =? 0) && (rs_ngen reply =? 0) && (rs_pages_taken reply =? 0) &&
    (rs_page_episode reply =? 0)
  else
    let arg i := default 0 (rq_args request !! i) in
    if negb (arg 1%nat =? 4096) || nz (arg 0%nat .& 4095) ||
       negb (u64 (rs_retval reply) =? rs_datalen reply) || nz (rs_datalen reply .& 4095) ||
       negb (rs_datalen reply =? 4096) then false
    else
      let count := u32 (rs_datalen reply / 4096) in
      (rs_ngen reply =? count) && (rs_pages_taken reply =? 1) && nz (rs_page_episode reply).

(** ** Batches of a child's pages (child-pages.h) *)
Definition VMR_CHILD_PAGES_MAX : nat := 256.
Record vmr_child_pages := mk_child_pages {
  cp_next : Z; cp_count : nat; cp_reserved : Z; cp_pages : list Z }.

Fixpoint child_pages_scan (previous : Z) (pages : list Z) : option Z :=
  match pages with
  | [] => Some previous
  | p :: pages' =>
      if nz (p .& 4095) || (2 ^ 63 <=? p) || (p <? previous) then None
      else child_pages_scan (u64 (p + 4096)) pages'
  end.
Definition child_pages_valid (b : vmr_child_pages) (cursor : Z) : bool :=
  if (VMR_CHILD_PAGES_MAX <? cp_count b)%nat || nz (cp_reserved b) || nz (cursor .& 4095) then false
  else
    match child_pages_scan cursor (take (cp_count b) (cp_pages b)) with
    | None => false
    | Some previous =>
        if nz (cp_next b) &&
           (nz (cp_next b .& 4095) || (cp_next b <=? cursor) || (cp_next b <? previous) ||
            (2 ^ 63 <=? cp_next b)) then false
        else args_zero (drop (cp_count b) (cp_pages b))
    end.

(** ** CPU state on the wire (cpu-wire.h) *)
Definition VMR_XSTATE_MAX : Z := 16384.
Definition xstate_offset : Z := 176.
Definition sizeof_cpu_state : Z := 16560.
Record vmr_cpu_state := mk_cpu {
  cs_xstate_size : Z; cs_reserved : Z; cs_regs : list Z; cs_xstate : list Z }.

(** 0 with errno EPROTO when the header is bad *)
Definition vmr_cpu_wire_size (cpu : vmr_cpu_state) : Z :=
  if nz (cs_reserved cpu) || (cs_xstate_size cpu <? 576) || (VMR_XSTATE_MAX <? cs_xstate_size cpu)
  then 0 else xstate_offset + cs_xstate_size cpu.
(** The received buffer; the bytes past [len] are cleared. *)
Definition vmr_cpu_wire_decode (cpu : vmr_cpu_state) (len : Z) : result vmr_cpu_state :=
  if (len <? xstate_offset) || (sizeof_cpu_state <? len) || negb (len =? vmr_cpu_wire_size cpu)
  then Err EPROTO
  else
    let n := Z.to_nat (len - xstate_offset) in
    Ok (mk_cpu (cs_xstate_size cpu) (cs_reserved cpu) (cs_regs cpu)
          (take n (cs_xstate cpu) ++ replicate (length (cs_xstate cpu) - n) 0)).

(** ** Mapping effects (source-map-effects.h) *)
Definition VMR_MAP_NONE : Z := 0.
Definition VMR_MAP_SET : Z := 1.
Definition VMR_MAP_MOVE : Z := 3.
Definition VMR_MAP_SHARED : Z := 1.
Definition VMR_MAP_REPLACE : Z := 2.
Definition VMR_PROT_READ : Z := 1.
Definition VMR_PROT_WRITE : Z := 2.
Definition VMR_PROT_EXEC : Z := 4.
(** Linux values *)
Definition PROT_READ : Z := 1.
Definition PROT_WRITE : Z := 2.
Definition PROT_EXEC : Z := 4.
Definition SYS_mmap : Z := 9.
Definition SYS_mremap : Z := 25.
Definition SYS_shmat : Z := 30.
Definition SHM_RDONLY : Z := 0x1000.
Definition SHM_EXEC : Z := 0x8000.
Definition MREMAP_FIXED : Z := 2.
Record vmr_map_effect := mk_effect {
  me_kind : Z; me_flags : Z; me_protection : Z; me_address : Z; me_length : Z;
  me_object_offset : Z; me_prior_address : Z; me_prior_length : Z; me_object_id : Z }.
Definition no_effect : vmr_map_effect := mk_effect 0 0 0 0 0 0 0 0 0.

Definition source_wire_protection (prot : Z) : Z :=
  (if nz (prot .& PROT_READ) then VMR_PROT_READ else 0) .|
  (if nz (prot .& PROT_WRITE) then VMR_PROT_WRITE else 0) .|
  (if nz (prot .& PROT_EXEC) then VMR_PROT_EXEC else 0).

(** [nr] and [args] are the request's, [ret] the call's 64-bit result. *)
Definition source_map_effect (nr : Z) (args : list Z) (ret object_id object_offset shared_length : Z)
  : vmr_map_effect :=
  let arg i := default 0 (args !! i) in
  let finish kind protection length :=
    mk_effect kind (if nz object_id then VMR_MAP_SHARED else 0) protection (u64 ret) length
      (if nz object_id then object_offset else u64 ret) 0 0 object_id in
  if u64 (-4095) <=? u64 ret then no_effect
  else if nr =? SYS_mmap then
    finish VMR_MAP_SET (source_wire_protection (arg 2%nat)) (arg 1%nat)
  else if nr =? SYS_shmat then
    if (object_id =? 0) || (shared_length =? 0) then no_effect
    else finish VMR_MAP_SET
           (VMR_PROT_READ .| (if nz (arg 2%nat .& SHM_RDONLY) then 0 else VMR_PROT_WRITE) .|
            (if nz (arg 2%nat .& SHM_EXEC) then VMR_PROT_EXEC else 0)) shared_length
  else if nr =? SYS_mremap then
    mk_effect VMR_MAP_MOVE (if nz (arg 3%nat .& MREMAP_FIXED) then VMR_MAP_REPLACE else 0) 0
      (u64 ret) (arg 2%nat) 0 (arg 0%nat) (arg 1%nat) 0
  else no_effect.

(** ** Properties *)
Lemma args_equal_spec a b : args_equal a b = true <-> a = b.
Proof.
  revert b. induction a as [|x a IH]; intros [|y b]; simpl; try done.
  rewrite andb_true_iff, Z.eqb_eq, IH. naive_solver.
Qed.

(** A memory reply answers one request: a reply stamped with a request's
    receipt matches every such request whose target is a valid binding, and if
    one reply matches two memory requests, they name the same operation, the
    same arguments and the same saved target.  A memory reply never matches a
    request that is not a memory operation, and conversely. *)
Theorem memory_reply_identifies request reply :
  (vmr_memory_operation (rq_nr request) = true -> vmr_binding_valid (rq_target request) = true ->
     vmr_memory_reply_matches request (vmr_memory_receipt request reply) = true) /\
  (forall other, vmr_memory_reply_matches request reply = true ->
     vmr_memory_reply_matches other reply = true ->
     vmr_memory_operation (rq_nr request) = vmr_memory_operation (rq_nr other) /\
     rq_target request = rq_target other /\
     (vmr_memory_operation (rq_nr request) = true ->
        rq_nr request = rq_nr other /\ rq_args request = rq_args other)).
Proof.
  split.
  - intros Hop Hv. unfold vmr_memory_reply_matches. rewrite Hop. simpl. rewrite Hv, Z.eqb_refl. simpl.
    rewrite (proj2 (binding_equal_spec _ _) eq_refl), (proj2 (args_equal_spec _ _) eq_refl). done.
  - assert (Hmem : forall rq, vmr_memory_reply_matches rq reply = true ->
      if vmr_memory_operation (rq_nr rq)
      then rs_memory_op reply = rq_nr rq /\ rs_memory_target reply = rq_target rq /\
        rs_memory_args reply = rq_args rq /\ vmr_binding_valid (rq_target rq) = true
      else rs_memory_target reply = no_binding /\ rq_target rq = no_binding).
    { intros rq. unfold vmr_memory_reply_matches. destruct (vmr_memory_operation (rq_nr rq)); simpl.
      - rewrite !andb_true_iff, Z.eqb_eq, binding_equal_spec, args_equal_spec. naive_solver.
      - destruct (vmr_binding_empty (rs_memory_target reply)) eqn:He; simpl; [|done].
        repeat case_match; try done. intros Ht. by rewrite <- !binding_empty_spec. }
    assert (Hno : vmr_binding_valid no_binding = false) by done.
    intros other H1%Hmem H2%Hmem.
    destruct (vmr_memory_operation (rq_nr request)) eqn:E1, (vmr_memory_operation (rq_nr other)) eqn:E2;
      destruct_and!; [|congruence..|].
    + split; [done|]. split; [congruence|]. intros _. split; congruence.
    + split; [done|]. split; [congruence|done].
Qed.

(** A scan accepts aligned pages in increasing order, from the cursor on. *)
Lemma child_pages_scan_spec previous pages p' :
  0 <= previous <= 2 ^ 63 -> Forall (fun p => 0 <= p) pages ->
  child_pages_scan previous pages = Some p' ->
  previous <= p' <= 2 ^ 63 /\
  Forall (fun p => previous <= p < 2 ^ 63 /\ p + 4096 <= p' /\ page_aligned p = true) pages /\
  forall i j x y, (i < j)%nat -> pages !! i = Some x -> pages !! j = Some y -> x + 4096 <= y.
Proof.
  revert previous. induction pages as [|p pages IH]; intros previous Hp Hnn; simpl.
  { intros. simplify_eq. split; [lia|]. split; [constructor|]. by intros i j x y _ ?. }
  apply Forall_cons in Hnn as [Hp0 Hnn].
  destruct (nz (p .& 4095) || (2 ^ 63 <=? p) || (p <? previous)) eqn:Hg; [done|].
  apply orb_false_iff in Hg as [Hg Hprev]. apply orb_false_iff in Hg as [Hal Hlim].
  assert (Ha : page_aligned p = true) by (unfold page_aligned; by destruct (p .& 4095 =? 0)).
  assert (Hmod : p mod 4096 = 0) by (by apply page_aligned_spec in Ha).
  assert (Hle : p + 4096 <= 2 ^ 63).
  { assert (p < 2 ^ 63) by lia. assert (2 ^ 63 = 4096 * 2251799813685248) by reflexivity.
    pose proof (Z.div_mod p 4096 ltac:(lia)). lia. }
  rewrite u64_small by (unfold is_u64, U64MAX; lia). intros Hs.
  destruct (IH (p + 4096) ltac:(lia) Hnn Hs) as (H1 & H2 & H3). split; [lia|]. split.
  - constructor; [split; [lia|split; [lia|done]]|]. eapply Forall_impl; [exact H2|]. simpl.
    intros x (? & ? & ?). split; [lia|]. split; [lia|done].
  - intros i j x y Hij Hi Hj. destruct i as [|i], j as [|j]; simpl in *; [lia| |lia|].
    + simplify_eq. rewrite Forall_lookup in H2. specialize (H2 j y Hj). simpl in H2. lia.
    + apply (H3 i j); [lia|done|done].
Qed.

(** The batches of one enumeration: each is checked against the cursor the
    one before it returned, and the last returns 0. *)
Fixpoint child_batches_valid (cursor : Z) (bs : list vmr_child_pages) : bool :=
  match bs with
  | [] => true
  | b :: bs' => child_pages_valid b cursor &&
      (if cp_next b =? 0 then match bs' with [] => true | _ => false end
       else child_batches_valid (cp_next b) bs')
  end.
Definition batch_pages (b : vmr_child_pages) : list Z := take (cp_count b) (cp_pages b).
Definition batch_words (b : vmr_child_pages) : Prop :=
  0 <= cp_next b /\ Forall (fun p => 0 <= p) (cp_pages b).

Lemma child_pages_valid_spec b cursor :
  0 <= cursor < 2 ^ 63 -> batch_words b -> child_pages_valid b cursor = true ->
  exists previous, cursor <= previous <= 2 ^ 63 /\
    Forall (fun p => cursor <= p < 2 ^ 63 /\ p + 4096 <= previous /\ page_aligned p = true) (batch_pages b) /\
    (forall i j x y, (i < j)%nat -> batch_pages b !! i = Some x -> batch_pages b !! j = Some y -> x < y) /\
    (cp_next b <> 0 -> cursor < cp_next b < 2 ^ 63 /\ previous <= cp_next b) /\
    (length (batch_pages b) <= VMR_CHILD_PAGES_MAX)%nat.
Proof.
  intros Hc [Hn Hpg] Hv. unfold child_pages_valid in Hv.
  destruct ((VMR_CHILD_PAGES_MAX <? cp_count b)%nat || nz (cp_reserved b) || nz (cursor .& 4095)) eqn:Hg; [done|].
  destruct (child_pages_scan cursor (take (cp_count b) (cp_pages b))) as [previous|] eqn:Hs; [|done].
  destruct (child_pages_scan_spec cursor _ previous ltac:(lia) ltac:(by apply Forall_take) Hs) as (H1 & H2 & H3).
  exists previous. split; [done|]. split; [done|]. split; [|split].
  - intros i j x y Hij Hi Hj. specialize (H3 i j x y Hij Hi Hj). lia.
  - intros Hne. destruct (cp_next b =? 0) eqn:?; [lia|]. simpl in Hv.
    destruct (nz (cp_next b .& 4095) || (cp_next b <=? cursor) || (cp_next b <? previous) ||
      (2 ^ 63 <=? cp_next b)) eqn:Hnx; [done|]. lia.
  - unfold batch_pages. rewrite length_take. apply orb_false_iff in Hg as [Hg _].
    apply orb_false_iff in Hg as [Hg%Nat.ltb_ge _]. lia.
Qed.

(** The page batches of a child's enumeration, as the executor accepts
    them (each valid for the cursor the previous one returned), list
    page-aligned addresses below 2^63 in strictly increasing order across all
    batches: no page is listed twice, none lies before the starting cursor,
    and every batch that announces a successor moves the cursor strictly
    forward, so the enumeration ends. *)
Theorem child_batches_increase cursor bs :
  0 <= cursor < 2 ^ 63 -> Forall batch_words bs -> child_batches_valid cursor bs = true ->
  let pages := bs ≫= batch_pages in
  Forall (fun p => cursor <= p < 2 ^ 63 /\ page_aligned p = true) pages /\
  (forall i j x y, (i < j)%nat -> pages !! i = Some x -> pages !! j = Some y -> x < y) /\
  Z.of_nat (length bs) <= 2 ^ 63 - cursor.
Proof.
  intros Hc Hw Hv. revert cursor Hc Hv. induction bs as [|b bs IH]; intros cursor Hc Hv; cbv zeta.
  { split; [constructor|]. split; [by intros i j x y _ ?|]. simpl. lia. }
  apply Forall_cons in Hw as [Hb Hw]. simpl in Hv. apply andb_prop in Hv as [Hv Hrest].
  destruct (child_pages_valid_spec b cursor Hc Hb Hv) as (previous & H1 & H2 & H3 & H4 & H5).
  rewrite bind_cons. destruct (Z.eqb_spec (cp_next b) 0) as [H0|Hn0].
  - destruct bs; [|done]. simpl. rewrite app_nil_r. split; [|split; [done|lia]].
    eapply Forall_impl; [exact H2|]. simpl. tauto.
  - destruct (H4 Hn0) as [Hn Hpn].
    destruct (IH Hw (cp_next b) ltac:(lia) Hrest) as (I1 & I2 & I3). split; [|split].
    + apply Forall_app. split; [eapply Forall_impl; [exact H2|]; simpl; tauto|].
      eapply Forall_impl; [exact I1|]. simpl. intros x ?. split; [lia|tauto].
    + intros i j x y Hij Hi Hj. rewrite Forall_lookup in H2, I1.
      apply lookup_app_Some in Hi as [Hi|[Hgi Hi]]; apply lookup_app_Some in Hj as [Hj|[Hgj Hj]].
      * by eapply H3.
      * specialize (H2 _ _ Hi). specialize (I1 _ _ Hj). simpl in *. lia.
      * apply lookup_lt_Some in Hj. lia.
      * eapply (I2 (i - length (batch_pages b))%nat (j - length (batch_pages b))%nat); [lia|done|done].
    + simpl length. lia.
Qed.

Lemma child_batches_increase_witness :
  let bs := [mk_child_pages 0x9000 2 0 [0x1000; 0x4000]; mk_child_pages 0 1 0 [0x9000]] in
  child_batches_valid 0x1000 bs = true /\
  Forall (fun p => 0x1000 <= p < 2 ^ 63 /\ page_aligned p = true) (bs ≫= batch_pages).
Proof.
  split; [reflexivity|].
  refine (proj1 (child_batches_increase 0x1000 [mk_child_pages 0x9000 2 0 [0x1000; 0x4000];
    mk_child_pages 0 1 0 [0x9000]] _ _ _)); [lia| |reflexivity].
  repeat constructor; simpl; lia.
Defined.

(** Sending a CPU state as its architectural prefix and decoding it into
    a buffer of native capacity, whatever the buffer held before, rebuilds the
    header, the registers and the transmitted state components exactly and
    clears the rest; any other length than the one the header announces is
    refused with EPROTO, before the state can reach the kernel. *)
Theorem cpu_wire_roundtrip cpu garbage len :
  length (cs_xstate cpu) = Z.to_nat VMR_XSTATE_MAX -> length garbage = Z.to_nat VMR_XSTATE_MAX ->
  0 <= cs_xstate_size cpu ->
  let n := Z.to_nat (cs_xstate_size cpu) in
  let received := mk_cpu (cs_xstate_size cpu) (cs_reserved cpu) (cs_regs cpu)
                    (take n (cs_xstate cpu) ++ drop n garbage) in
  (vmr_cpu_wire_size cpu <> 0 ->
   vmr_cpu_wire_decode received (vmr_cpu_wire_size cpu) =
     Ok (mk_cpu (cs_xstate_size cpu) 0 (cs_regs cpu)
           (take n (cs_xstate cpu) ++ replicate (Z.to_nat VMR_XSTATE_MAX - n) 0))) /\
  (len <> vmr_cpu_wire_size cpu \/ vmr_cpu_wire_size cpu = 0 ->
   vmr_cpu_wire_decode received len = Err EPROTO).
Proof.
  intros Hl Hg Hs n received.
  assert (Hsize : vmr_cpu_wire_size received = vmr_cpu_wire_size cpu) by done. split.
  - intros Hne. unfold vmr_cpu_wire_decode. rewrite Hsize. unfold vmr_cpu_wire_size in *.
    destruct (nz (cs_reserved cpu) || (cs_xstate_size cpu <? 576) || (VMR_XSTATE_MAX <? cs_xstate_size cpu))
      eqn:Hb; [done|]. unfold VMR_XSTATE_MAX, xstate_offset, sizeof_cpu_state in *.
    rewrite (proj2 (Z.ltb_ge _ _)), (proj2 (Z.ltb_ge _ _)), Z.eqb_refl by lia. cbn [orb negb].
    replace (176 + cs_xstate_size cpu - 176) with (cs_xstate_size cpu) by lia. fold n.
    assert (cs_reserved cpu = 0) as Hr by (destruct (Z.eqb_spec (cs_reserved cpu) 0); [done|simpl in Hb; done]).
    f_equal. cbn [cs_xstate_size cs_reserved cs_regs cs_xstate received]. unfold received. simpl.
    rewrite Hr. f_equal.
    assert (Hn : (n <= length (cs_xstate cpu))%nat) by (rewrite Hl; unfold n; lia).
    rewrite take_app_le by (rewrite length_take; lia). rewrite take_take, Nat.min_id. f_equal.
    rewrite length_app, length_take, length_drop. f_equal. lia.
  - intros Hbad. unfold vmr_cpu_wire_decode. rewrite Hsize.
    destruct (Z.eqb_spec len (vmr_cpu_wire_size cpu)) as [->|Hne]; simpl; [|by rewrite orb_true_r].
    destruct Hbad as [?|H0]; [done|]. rewrite H0. done.
Qed.

Definition demo_xstate (b : Z) : list Z := replicate (Z.to_nat VMR_XSTATE_MAX) b.
Definition demo_cpu : vmr_cpu_state := mk_cpu 576 0 [] (demo_xstate 1).
Lemma cpu_wire_roundtrip_witness :
  vmr_cpu_wire_size demo_cpu = 752 /\
  vmr_cpu_wire_decode (mk_cpu 576 0 [] (take 576 (demo_xstate 1) ++ drop 576 (demo_xstate 9))) 753
    = Err EPROTO.
Proof.
  split; [reflexivity|].
  refine (proj2 (cpu_wire_roundtrip demo_cpu (demo_xstate 9) 753 _ _ _) _).
  - exact (length_replicate _ _).
  - exact (length_replicate _ _).
  - simpl. lia.
  - left. vm_compute. discriminate.
Defined.

End Proto.
