(* ===== verification/SourceTransfer.v ===== *)
(** * Source page custody (user/source-transfer.h, source-custody.h)

    A transfer handle names one native operation of the source kernel on one
    page: BEGIN issues a ticket, CAPTURE and READ obtain the page, ACK or
    CANCEL settles it, FORGET releases it.  A connection keeps its handles in
    a custody collection.  The kernel is a parameter: [native] answers each
    call from the whole history of calls, so every theorem holds for any
    behaviour of the kernel, failures and malformed replies included. *)
From S2P Require Import Prelude Proto.
From stdpp Require Import gmultiset.
Open Scope Z_scope.

Module SourceTransfer.
Import Proto.

Definition VMCTX_TRANSFER_ABI : Z := 1.
Definition VMCTX_TRANSFER_BEGIN : Z := 1.
Definition VMCTX_TRANSFER_CAPTURE : Z := 2.
Definition VMCTX_TRANSFER_READ : Z := 3.
Definition VMCTX_TRANSFER_ACK : Z := 4.
Definition VMCTX_TRANSFER_CANCEL : Z := 5.
Definition VMCTX_TRANSFER_FORGET : Z := 6.
Definition VMCTX_TRANSFER_ABANDON : Z := 7.
Definition VMCTX_TRANSFER_FEATURES : Z := 1 .| 2 .| 4.
Definition sizeof_transfer : Z := 80.

(** The native control block. *)
Record vmctx_transfer := mk_xfer {
  vt_version : Z; vt_size : Z; vt_op : Z; vt_features : Z;
  vt_mm_identity : Z; vt_address : Z; vt_ticket : Z; vt_buf : Z;
  vt_status : Z; vt_flags : Z; vt_class : Z; vt_state : Z; vt_gen : Z; vt_sum : Z; vt_reserved : Z }.
Definition xfer_zero : vmctx_transfer := mk_xfer 0 0 0 0 0 0 0 0 0 0 0 0 0 0 0.

(** The calls, with what distinguishes them. *)
Inductive ncall :=
| NCaps
| NBegin (context mm epoch address : Z)
| NStep (op mm address ticket buf : Z)
| NAbandon.
(** An error number, or success with the block and the page bytes written. *)
Inductive nanswer := NErr (e : Z) | NOk (q : vmctx_transfer) (bytes : list Z).
(** Newest call first. *)
Definition history : Type := list (ncall * nanswer).

Record source_transfer := mk_transfer {
  st_mm : Z; st_address : Z; st_ticket : Z; st_result : vmctx_transfer;
  st_begun : bool; st_captured : bool; st_read : bool; st_settled : bool; st_cancelled : bool;
  st_settlement_error : Z }.
Definition transfer_zero : source_transfer :=
  mk_transfer 0 0 0 xfer_zero false false false false false 0.

Definition set_result (q : vmctx_transfer) (t : source_transfer) : source_transfer :=
  mk_transfer (st_mm t) (st_address t) (st_ticket t) q (st_begun t) true (st_read t) (st_settled t)
    (st_cancelled t) (st_settlement_error t).
Definition set_read (t : source_transfer) : source_transfer :=
  mk_transfer (st_mm t) (st_address t) (st_ticket t) (st_result t) (st_begun t) (st_captured t) true
    (st_settled t) (st_cancelled t) (st_settlement_error t).
Definition set_settled (error : Z) (t : source_transfer) : source_transfer :=
  mk_transfer (st_mm t) (st_address t) (st_ticket t) (st_result t) (st_begun t) (st_captured t)
    (st_read t) true (st_cancelled t) error.
Definition set_cancelled (t : source_transfer) : source_transfer :=
  mk_transfer (st_mm t) (st_address t) (st_ticket t) (st_result t) (st_begun t) (st_captured t)
    (st_read t) true true (st_settlement_error t).

(** The status, class and state values a capture may report. *)
Definition VMCTX_SERVE_TAKEN : Z := 1.
Definition VMCTX_SERVE_COPIED : Z := 2.
Definition VMCTX_SERVE_ABSENT : Z := 3.
Definition VMCTX_SERVE_NOMAP : Z := 6.
Definition VMCTX_SERVE_GRANT : Z := 2.
Definition VMCTX_PG_TRANSIT : Z := 4.
Definition VMCTX_PGC_MASK : Z := 1 .| 4 .| 2 .| 8 .| 16 .| 32.

Section native.
Context (native : history -> ncall -> nanswer).

Definition issue (c : ncall) (h : history) : nanswer * history :=
  let a := native h c in (a, (c, a) :: h).

Definition source_transfer_caps (h : history) : result unit * history :=
  let '(a, h) := issue NCaps h in
  match a with
  | NErr e => (Err e, h)
  | NOk q _ =>
      if negb (vt_version q =? VMCTX_TRANSFER_ABI) || negb (vt_size q =? sizeof_transfer) ||
         nz (vt_op q) || negb (vt_features q =? VMCTX_TRANSFER_FEATURES) ||
         nz (vt_mm_identity q) || nz (vt_address q) || nz (vt_ticket q) || nz (vt_buf q) ||
         nz (vt_status q) || nz (vt_flags q) || nz (vt_class q) || nz (vt_state q) ||
         nz (vt_gen q) || nz (vt_sum q) || nz (vt_reserved q)
      then (Err EPROTO, h) else (Ok tt, h)
  end.

Definition source_transfer_begin (context mm epoch address : Z) (t : source_transfer) (h : history)
  : result unit * source_transfer * history :=
  if (mm =? 0) || st_begun t || nz (st_ticket t) || nz (address .& 4095) then (Err EINVAL, t, h)
  else
    let '(a, h) := issue (NBegin context mm epoch address) h in
    match a with
    | NErr e => (Err e, t, h)
    | NOk q _ =>
        let t := mk_transfer mm address (vt_ticket q) xfer_zero true false false false false 0 in
        if negb (vt_version q =? VMCTX_TRANSFER_ABI) || negb (vt_size q =? sizeof_transfer) ||
           negb (vt_op q =? VMCTX_TRANSFER_BEGIN) || negb (vt_mm_identity q =? mm) ||
           negb (vt_address q =? address) || (vt_ticket q =? 0) || nz (vt_buf q) ||
           nz (vt_features q) || nz (vt_status q) || nz (vt_flags q) || nz (vt_class q) ||
           nz (vt_state q) || nz (vt_gen q) || nz (vt_sum q) || nz (vt_reserved q)
        then (Err EPROTO, t, h) else (Ok tt, t, h)
    end.

Definition source_transfer_step (t : source_transfer) (op buf : Z) (h : history)
  : result (vmctx_transfer * list Z) * history :=
  if (st_ticket t =? 0) || (st_mm t =? 0) then (Err EINVAL, h)
  else
    let '(a, h) := issue (NStep op (st_mm t) (st_address t) (st_ticket t) buf) h in
    match a with
    | NErr e => (Err e, h)
    | NOk q bytes =>
        if negb (op =? VMCTX_TRANSFER_FORGET) &&
           (negb (vt_version q =? VMCTX_TRANSFER_ABI) || negb (vt_size q =? sizeof_transfer) ||
            negb (vt_op q =? op) || negb (vt_mm_identity q =? st_mm t) ||
            negb (vt_address q =? st_address t) || negb (vt_ticket q =? st_ticket t) ||
            negb (vt_buf q =? buf) || nz (vt_reserved q) ||
            negb (vt_features q =? VMCTX_TRANSFER_FEATURES))
        then (Err EPROTO, h) else (Ok (q, bytes), h)
    end.

(** The six fields of the captured result that no replay may change. *)
Definition same_result (q r : vmctx_transfer) : bool :=
  (vt_status q =? vt_status r) && (vt_flags q =? vt_flags r) && (vt_class q =? vt_class r) &&
  (vt_state q =? vt_state r) && (vt_gen q =? vt_gen r) && (vt_sum q =? vt_sum r).

Definition source_transfer_capture (t : source_transfer) (h : history)
  : result unit * source_transfer * history :=
  let '(r, h) := source_transfer_step t VMCTX_TRANSFER_CAPTURE 0 h in
  match r with
  | Ok (q, _) =>
      if (vt_status q <? VMCTX_SERVE_TAKEN) || (VMCTX_SERVE_NOMAP <? vt_status q) ||
         nz (Z.ldiff (vt_flags q) VMCTX_SERVE_GRANT) || nz (Z.ldiff (vt_class q) VMCTX_PGC_MASK) ||
         (VMCTX_PG_TRANSIT <? vt_state q) || (0xffff <? vt_sum q) ||
         (nz (vt_flags q .& VMCTX_SERVE_GRANT) &&
          negb (vt_status q =? VMCTX_SERVE_COPIED) && negb (vt_status q =? VMCTX_SERVE_ABSENT))
      then (Err EPROTO, t, h)
      else if st_captured t && negb (same_result q (st_result t)) then (Err EPROTO, t, h)
      else (Ok tt, set_result q t, h)
  | Err e => (Err e, t, h) | Aborted => (Aborted, t, h) | Corrupt => (Corrupt, t, h)
  | Hung => (Hung, t, h)
  end.

(** [buf] is the address of the staging buffer; the result is what the caller's
    page receives, if anything. *)
Definition source_transfer_read (t : source_transfer) (buf : Z) (h : history)
  : result (option (list Z)) * source_transfer * history :=
  if negb (st_captured t) then (Err EINVAL, t, h)
  else
    let '(r, h) := source_transfer_step t VMCTX_TRANSFER_READ buf h in
    match r with
    | Ok (q, bytes) =>
        if negb (same_result q (st_result t)) then (Err EPROTO, t, h)
        else
          (Ok (if (vt_status q =? VMCTX_SERVE_TAKEN) || (vt_status q =? VMCTX_SERVE_COPIED)
               then Some bytes else None), set_read t, h)
    | Err e => (Err e, t, h) | Aborted => (Aborted, t, h) | Corrupt => (Corrupt, t, h)
    | Hung => (Hung, t, h)
    end.

Definition source_transfer_ack (t : source_transfer) (h : history)
  : result unit * source_transfer * history :=
  if st_cancelled t then (Err ECANCELED, t, h)
  else if negb (st_read t) then (Err EINVAL, t, h)
  else if st_settled t then
    ((if nz (st_settlement_error t) then Err (st_settlement_error t) else Ok tt), t, h)
  else
    let '(r, h) := source_transfer_step t VMCTX_TRANSFER_ACK 0 h in
    match r with
    | Ok _ => (Ok tt, set_settled 0 t, h)
    | Err e => (Err e, (if e =? ESTALE then set_settled e t else t), h)
    | Aborted => (Aborted, t, h) | Corrupt => (Corrupt, t, h) | Hung => (Hung, t, h)
    end.

Definition source_transfer_cancel (t : source_transfer) (h : history)
  : result unit * source_transfer * history :=
  if st_settled t then (Ok tt, t, h)
  else
    let '(r, h) := source_transfer_step t VMCTX_TRANSFER_CANCEL 0 h in
    match r with
    | Ok _ => (Ok tt, set_cancelled t, h)
    | Err e => (Err e, t, h) | Aborted => (Aborted, t, h) | Corrupt => (Corrupt, t, h)
    | Hung => (Hung, t, h)
    end.

Definition source_transfer_forget (t : source_transfer) (h : history)
  : result unit * source_transfer * history :=
  if negb (st_settled t) then (Err EINVAL, t, h)
  else
    let '(r, h) := source_transfer_step t VMCTX_TRANSFER_FORGET 0 h in
    match r with
    | Ok _ => (Ok tt, transfer_zero, h)
    | Err e => (Err e, t, h) | Aborted => (Aborted, t, h) | Corrupt => (Corrupt, t, h)
    | Hung => (Hung, t, h)
    end.

Definition source_transfer_abandon (h : history) : result unit * history :=
  let '(a, h) := issue NAbandon h in
  (match a with NErr e => Err e | NOk _ _ => Ok tt end, h).

(** ** The collection *)
Record source_custody_entry := mk_entry { ce_target : vmr_mm_binding; ce_transfer : source_transfer }.
(** [cu_owner] is [None] until the first use binds the calling thread. *)
Record source_custody := mk_custody {
  cu_pending : list source_custody_entry; cu_count : Z; cu_owner : option Z; cu_closed : bool }.
Definition custody_zero : source_custody := mk_custody [] 0 None false.

Definition source_custody_thread (self : Z) (cu : source_custody) : result unit * source_custody :=
  match cu_owner cu with
  | Some o => if o =? self then (Ok tt, cu) else (Err EPERM, cu)
  | None => (Ok tt, mk_custody (cu_pending cu) (cu_count cu) (Some self) (cu_closed cu))
  end.

Definition with_pending (p : list source_custody_entry) (n : Z) (cu : source_custody) : source_custody :=
  mk_custody p n (cu_owner cu) (cu_closed cu).

(** [alloc] is whether calloc serves the entry.  The result is the native
    return; the entry it leaves is the new head of the collection. *)
Definition source_custody_begin (alloc : bool) (self : Z) (target : vmr_mm_binding) (address : Z)
    (cu : source_custody) (h : history) : result unit * source_custody * history :=
  match source_custody_thread self cu with
  | (Ok _, cu) =>
      if cu_closed cu then (Err ESHUTDOWN, cu, h)
      else if negb (vmr_binding_valid target) || (I32MAX <? mb_context target) || nz (address .& 4095)
      then (Err EINVAL, cu, h)
      else if cu_count cu =? U64MAX then (Err EOVERFLOW, cu, h)
      else if negb alloc then (Err ENOMEM, cu, h)
      else
        let '(r, t, h) := source_transfer_begin (mb_context target) (mb_mm target) (mb_epoch target)
                            address transfer_zero h in
        match r with
        | Ok _ => (Ok tt, with_pending (mk_entry target t :: cu_pending cu) (u64 (cu_count cu + 1)) cu, h)
        | Err e =>
            if negb (st_begun t) then (Err e, cu, h)
            else (Err e, with_pending (mk_entry target t :: cu_pending cu) (u64 (cu_count cu + 1)) cu, h)
        | Aborted => (Aborted, cu, h) | Corrupt => (Corrupt, cu, h) | Hung => (Hung, cu, h)
        end
  | (Err e, cu) => (Err e, cu, h)
  | (_, cu) => (Hung, cu, h)
  end.

(** The search loop of [source_custody_find]: the position of the ticket. *)
Fixpoint custody_scan (target : vmr_mm_binding) (address ticket : Z) (i : nat)
    (pending : list source_custody_entry) : result nat :=
  match pending with
  | [] => Err ENOENT
  | e :: rest =>
      if negb (st_ticket (ce_transfer e) =? ticket) then custody_scan target address ticket (S i) rest
      else if negb (st_address (ce_transfer e) =? address) || negb (vmr_binding_equal (ce_target e) target)
      then Err ESTALE else Ok i
  end.
Definition source_custody_find (self : Z) (target : vmr_mm_binding) (address ticket : Z)
    (cu : source_custody) : result nat * source_custody :=
  match source_custody_thread self cu with
  | (Ok _, cu) =>
      if cu_closed cu then (Err ESHUTDOWN, cu)
      else if negb (vmr_binding_valid target) || (ticket =? 0) || nz (address .& 4095) then (Err EINVAL, cu)
      else (custody_scan target address ticket 0 (cu_pending cu), cu)
  | (Err e, cu) => (Err e, cu)
  | (_, cu) => (Hung, cu)
  end.

Definition update_at (i : nat) (t : source_transfer) (cu : source_custody) : source_custody :=
  match cu_pending cu !! i with
  | Some e => with_pending (<[i := mk_entry (ce_target e) t]> (cu_pending cu)) (cu_count cu) cu
  | None => cu
  end.

Definition source_custody_retire (i : nat) (cu : source_custody) (h : history)
  : result unit * source_custody * history :=
  match cu_pending cu !! i with
  | None => (Corrupt, cu, h)
  | Some e =>
      let '(r, t, h) := source_transfer_forget (ce_transfer e) h in
      match r with
      | Ok _ => (Ok tt, with_pending (delete i (cu_pending cu)) (u64 (cu_count cu - 1)) cu, h)
      | r => (r, update_at i t cu, h)
      end
  end.

Definition source_custody_ack (self : Z) (target : vmr_mm_binding) (address ticket : Z)
    (cu : source_custody) (h : history) : result unit * source_custody * history :=
  match source_custody_find self target address ticket cu with
  | (Ok i, cu) =>
      match cu_pending cu !! i with
      | None => (Corrupt, cu, h)
      | Some e =>
          let '(r, t, h) := source_transfer_ack (ce_transfer e) h in
          let cu := update_at i t cu in
          if negb (st_settled t) then (r, cu, h)
          else
            let '(r2, cu, h) := source_custody_retire i cu h in
            match r2 with Ok _ => (r, cu, h) | r2 => (r2, cu, h) end
      end
  | (Err e, cu) => (Err e, cu, h)
  | (_, cu) => (Hung, cu, h)
  end.

Definition source_custody_cancel (self : Z) (target : vmr_mm_binding) (address ticket : Z)
    (cu : source_custody) (h : history) : result unit * source_custody * history :=
  match source_custody_find self target address ticket cu with
  | (Ok i, cu) =>
      match cu_pending cu !! i with
      | None => (Corrupt, cu, h)
      | Some e =>
          let '(r, t, h) := source_transfer_cancel (ce_transfer e) h in
          let cu := update_at i t cu in
          match r with
          | Ok _ => source_custody_retire i cu h
          | r => (r, cu, h)
          end
      end
  | (Err e, cu) => (Err e, cu, h)
  | (_, cu) => (Hung, cu, h)
  end.

Definition source_custody_abandon (self : Z) (cu : source_custody) (h : history)
  : result unit * source_custody * history :=
  match source_custody_thread self cu with
  | (Ok _, cu) =>
      let cu := mk_custody (cu_pending cu) (cu_count cu) (cu_owner cu) true in
      let '(r, h) := source_transfer_abandon h in
      match r with
      | Ok _ => (Ok tt, with_pending [] 0 cu, h)
      | r => (r, cu, h)
      end
  | (Err e, cu) => (Err e, cu, h)
  | (_, cu) => (Hung, cu, h)
  end.
End native.

(** ** What the history proves *)

(** Tickets the kernel issued and has not been told to forget. *)
Fixpoint live (h : history) : gmultiset Z :=
  match h with
  | [] => ∅
  | (c, a) :: h' =>
      match c, a with
      | NBegin _ _ _ _, NOk q _ => {[+ vt_ticket q +]} ⊎ live h'
      | NStep op _ _ ticket _, NOk _ _ =>
          if op =? VMCTX_TRANSFER_FORGET then live h' ∖ {[+ ticket +]} else live h'
      | NAbandon, NOk _ _ => ∅
      | _, _ => live h'
      end
  end.

(** The call settled the transfer: an acknowledgement the kernel took, or
    refused as stale, or a cancellation it took. *)
Definition settles (mm address ticket : Z) (x : ncall * nanswer) : Prop :=
  exists buf, (x.1 = NStep VMCTX_TRANSFER_ACK mm address ticket buf /\
               ((exists q b, x.2 = NOk q b) \/ x.2 = NErr ESTALE)) \/
              (x.1 = NStep VMCTX_TRANSFER_CANCEL mm address ticket buf /\ exists q b, x.2 = NOk q b).
Definition settled_in (h : history) (t : source_transfer) : Prop :=
  exists x, x ∈ h /\ settles (st_mm t) (st_address t) (st_ticket t) x.

(** Every FORGET was asked for a transfer settled before it. *)
Fixpoint forgets_settled (h : history) : Prop :=
  match h with
  | [] => True
  | (c, _) :: h' =>
      (match c with
       | NStep op mm address ticket _ =>
           op = VMCTX_TRANSFER_FORGET -> exists x, x ∈ h' /\ settles mm address ticket x
       | _ => True
       end) /\ forgets_settled h'
  end.

(** A call that is neither BEGIN, FORGET nor ABANDON, or none. *)
Definition quiet (h h' : history) : Prop :=
  h' = h \/ exists op mm address ticket buf a,
    h' = (NStep op mm address ticket buf, a) :: h /\ op <> VMCTX_TRANSFER_FORGET.
Lemma quiet_live h h' : quiet h h' -> live h' = live h.
Proof.
  intros [->|(op & mm & ad & tk & buf & a & -> & Hop)]; [done|]. simpl. destruct a; [done|].
  by rewrite (proj2 (Z.eqb_neq _ _) Hop).
Qed.
Lemma quiet_forgets h h' : quiet h h' -> forgets_settled h -> forgets_settled h'.
Proof. by intros [->|(op & mm & ad & tk & buf & a & -> & Hop)]. Qed.
Lemma quiet_settled h h' t : quiet h h' -> settled_in h t -> settled_in h' t.
Proof.
  intros [->|(op & mm & ad & tk & buf & a & -> & _)] (x & Hx & Hs); [by exists x|].
  exists x. split; [by right|done].
Qed.

Definition same_handle (t t' : source_transfer) : Prop :=
  st_mm t' = st_mm t /\ st_address t' = st_address t /\ st_ticket t' = st_ticket t.
Lemma same_handle_settled h t t' : same_handle t t' -> settled_in h t -> settled_in h t'.
Proof. intros (H1 & H2 & H3). unfold settled_in. by rewrite H1, H2, H3. Qed.

Section facts.
Context (native : history -> ncall -> nanswer).

Lemma step_calls t op buf h r h' :
  source_transfer_step native t op buf h = (r, h') ->
  (h' = h /\ r = Err EINVAL) \/
  exists a, h' = (NStep op (st_mm t) (st_address t) (st_ticket t) buf, a) :: h /\
    match r with
    | Ok (q, b) => a = NOk q b
    | Err e => a = NErr e \/ e = EPROTO /\ op <> VMCTX_TRANSFER_FORGET
    | _ => False
    end.
Proof.
  unfold source_transfer_step, issue. destruct (_ || _); [intros; simplify_eq; auto|].
  destruct (native h _) as [e|q b] eqn:Hn; intros Heq; [simplify_eq; right; eauto|].
  destruct (negb (op =? VMCTX_TRANSFER_FORGET)) eqn:Hop; simpl in Heq.
  - destruct (_ || _) in Heq; simplify_eq; right; eexists; (split; [reflexivity|]); [right|done].
    split; [done|]. apply negb_true_iff, Z.eqb_neq in Hop. done.
  - simplify_eq. right. eauto.
Qed.
Lemma step_quiet t op buf h r h' :
  source_transfer_step native t op buf h = (r, h') -> op <> VMCTX_TRANSFER_FORGET -> quiet h h'.
Proof.
  intros [[-> _]|(a & -> & _)]%step_calls Hop; [by left|]. right.
  exists op, (st_mm t), (st_address t), (st_ticket t), buf, a. done.
Qed.

(** What an operation on a handle may do: keep its identity, make a quiet
    call, and settle only with a settling call. *)
Definition handle_ok (h h' : history) (t t' : source_transfer) : Prop :=
  same_handle t t' /\ quiet h h' /\ (st_settled t' = true -> st_settled t = true \/ settled_in h' t').

Lemma capture_ok t h r t' h' :
  source_transfer_capture native t h = (r, t', h') -> handle_ok h h' t t'.
Proof.
  unfold source_transfer_capture. destruct (source_transfer_step _ _ _ _ _) as [r0 h0] eqn:Hs.
  apply step_quiet in Hs; [|done].
  intros Heq. assert (h' = h0 /\ (t' = t \/ exists q, t' = set_result q t)) as [-> [->|[q ->]]].
  { repeat case_match; simplify_eq; eauto. }
  all: split; [done|]; split; [done|]; by left.
Qed.
Lemma read_ok t buf h r t' h' :
  source_transfer_read native t buf h = (r, t', h') -> handle_ok h h' t t'.
Proof.
  unfold source_transfer_read. destruct (negb _).
  { intros. simplify_eq. split; [done|]. split; [by left|by left]. }
  destruct (source_transfer_step _ _ _ _ _) as [r0 h0] eqn:Hs. apply step_quiet in Hs; [|done].
  intros Heq. assert (h' = h0 /\ (t' = t \/ t' = set_read t)) as [-> [->| ->]].
  { repeat case_match; simplify_eq; eauto. }
  all: split; [done|]; split; [done|]; by left.
Qed.
Lemma ack_ok t h r t' h' :
  source_transfer_ack native t h = (r, t', h') -> handle_ok h h' t t'.
Proof.
  unfold source_transfer_ack.
  destruct (st_cancelled t); [intros; simplify_eq; split; [done|]; split; [by left|by left]|].
  destruct (negb (st_read t)); [intros; simplify_eq; split; [done|]; split; [by left|by left]|].
  destruct (st_settled t) eqn:Hst; [intros; simplify_eq; split; [done|]; split; [by left|by left]|].
  destruct (source_transfer_step _ _ _ _ _) as [r0 h0] eqn:Hs. pose proof Hs as Hq.
  apply step_quiet in Hq; [|done]. apply step_calls in Hs.
  assert (Hset : forall t1 a, same_handle t t1 ->
    h0 = (NStep VMCTX_TRANSFER_ACK (st_mm t) (st_address t) (st_ticket t) 0, a) :: h ->
    ((exists q b, a = NOk q b) \/ a = NErr ESTALE) -> settled_in h0 t1).
  { intros t1 a (H1 & H2 & H3) -> Ha. unfold settled_in. rewrite H1, H2, H3.
    eexists. split; [by left|]. exists 0. left. split; done. }
  destruct r0 as [[q b]|e| | |]; intros; simplify_eq; (split; [done || by case_match|]); (split; [done|]).
  - intros _. right. destruct Hs as [[_ ?]|(a & Hh & ->)]; [done|]. eapply Hset; eauto. done.
  - destruct (Z.eqb_spec e ESTALE) as [->|]; [|by rewrite Hst]. intros _. right.
    destruct Hs as [[_ ?]|(a & Hh & [->|[? _]])]; [done| |done]. eapply Hset; eauto. done.
  - by rewrite Hst.
  - by rewrite Hst.
  - by rewrite Hst.
Qed.
Lemma cancel_ok t h r t' h' :
  source_transfer_cancel native t h = (r, t', h') -> handle_ok h h' t t'.
Proof.
  unfold source_transfer_cancel.
  destruct (st_settled t) eqn:Hst; [intros; simplify_eq; split; [done|]; split; [by left|by left]|].
  destruct (source_transfer_step _ _ _ _ _) as [r0 h0] eqn:Hs. pose proof Hs as Hq.
  apply step_quiet in Hq; [|done]. apply step_calls in Hs.
  destruct r0 as [[q b]|e| | |]; intros; simplify_eq; (split; [done|]); (split; [done|]);
    try (by rewrite Hst).
  intros _. right. destruct Hs as [[_ ?]|(a & Hh & ->)]; [done|].
  eexists. rewrite Hh. split; [by left|]. exists 0. right. eauto.
Qed.

Lemma forget_spec t h r t' h' :
  source_transfer_forget native t h = (r, t', h') ->
  match r with
  | Ok _ => st_settled t = true /\ exists q b,
      h' = (NStep VMCTX_TRANSFER_FORGET (st_mm t) (st_address t) (st_ticket t) 0, NOk q b) :: h
  | Err _ => t' = t /\ (h' = h \/ st_settled t = true /\ exists e,
      h' = (NStep VMCTX_TRANSFER_FORGET (st_mm t) (st_address t) (st_ticket t) 0, NErr e) :: h)
  | _ => False
  end.
Proof.
  unfold source_transfer_forget. destruct (st_settled t); simpl; [|intros; simplify_eq; auto].
  destruct (source_transfer_step _ _ _ _ _) as [r0 h0] eqn:Hs. apply step_calls in Hs.
  destruct r0 as [[q b]|e| | |]; intros; simplify_eq.
  - destruct Hs as [[_ ?]|(a & Hh & ->)]; [done|]. eauto.
  - split; [done|]. destruct Hs as [[-> _]|(a & Hh & [->|[_ ?]])]; [by left| |done]. right. eauto.
  - destruct Hs as [[_ ?]|(a & _ & [])]. done.
  - destruct Hs as [[_ ?]|(a & _ & [])]. done.
  - destruct Hs as [[_ ?]|(a & _ & [])]. done.
Qed.

(** ** Everything a connection does *)
Definition tickets (cu : source_custody) : gmultiset Z :=
  list_to_set_disj ((fun e => st_ticket (ce_transfer e)) <$> cu_pending cu).
Record custody_ok (cu : source_custody) (h : history) : Prop := {
  co_count : cu_count cu = Z.of_nat (length (cu_pending cu));
  co_room : cu_count cu <= U64MAX;
  co_live : live h = tickets cu;
  co_settled : forall e, e ∈ cu_pending cu -> st_settled (ce_transfer e) = true ->
    settled_in h (ce_transfer e);
  co_forgets : forgets_settled h
}.

Inductive custody_step : source_custody * history -> source_custody * history -> Prop :=
| cs_begin alloc self target address cu h r cu' h' :
    source_custody_begin native alloc self target address cu h = (r, cu', h') ->
    custody_step (cu, h) (cu', h')
| cs_capture i e cu h r t h' :
    cu_pending cu !! i = Some e ->
    source_transfer_capture native (ce_transfer e) h = (r, t, h') ->
    custody_step (cu, h) (update_at i t cu, h')
| cs_read i e buf cu h r t h' :
    cu_pending cu !! i = Some e ->
    source_transfer_read native (ce_transfer e) buf h = (r, t, h') ->
    custody_step (cu, h) (update_at i t cu, h')
| cs_ack self target address ticket cu h r cu' h' :
    source_custody_ack native self target address ticket cu h = (r, cu', h') ->
    custody_step (cu, h) (cu', h')
| cs_cancel self target address ticket cu h r cu' h' :
    source_custody_cancel native self target address ticket cu h = (r, cu', h') ->
    custody_step (cu, h) (cu', h')
| cs_abandon self cu h r cu' h' :
    source_custody_abandon native self cu h = (r, cu', h') ->
    custody_step (cu, h) (cu', h').

Lemma tickets_update i e t cu :
  cu_pending cu !! i = Some e -> st_ticket t = st_ticket (ce_transfer e) ->
  tickets (update_at i t cu) = tickets cu.
Proof.
  intros Hi Ht. unfold update_at, tickets. rewrite Hi. simpl. rewrite list_fmap_insert. simpl.
  rewrite Ht. f_equal. apply list_insert_id. by rewrite list_lookup_fmap, Hi.
Qed.
Lemma tickets_delete i e cu n :
  cu_pending cu !! i = Some e ->
  tickets (with_pending (delete i (cu_pending cu)) n cu) =
  tickets cu ∖ {[+ st_ticket (ce_transfer e) +]}.
Proof.
  intros Hi. unfold tickets. simpl.
  rewrite (list_to_set_disj_perm (_ <$> cu_pending cu)
    ((fun e => st_ticket (ce_transfer e)) <$> e :: delete i (cu_pending cu))).
  - rewrite fmap_cons, list_to_set_disj_cons. apply gmultiset_eq. intros x.
    rewrite multiplicity_difference, multiplicity_disj_union. lia.
  - by rewrite (delete_Permutation _ _ _ Hi) at 1.
Qed.

(** An operation on the handle at [i] keeps the invariant. *)
Lemma update_ok i e t cu h h' :
  custody_ok cu h -> cu_pending cu !! i = Some e -> handle_ok h h' (ce_transfer e) t ->
  custody_ok (update_at i t cu) h'.
Proof.
  intros [H1 H2 H3 H4 H5] Hi ((Hm & Ha & Ht) & Hq & Hs). split.
  - unfold update_at. rewrite Hi. simpl. by rewrite length_insert.
  - unfold update_at. by rewrite Hi.
  - rewrite (quiet_live h h'), H3 by done. symmetry. by apply tickets_update with e.
  - unfold update_at. rewrite Hi. simpl. intros e' (j & Hj)%list_elem_of_lookup Hst.
    apply list_lookup_insert_Some in Hj as [(-> & <- & _)|[_ Hj]]; simpl in *.
    + destruct (Hs Hst) as [Hold|?]; [|done]. eapply quiet_settled; [done|].
      eapply same_handle_settled; [done|]. apply H4; [by eapply list_elem_of_lookup_2|done].
    + eapply quiet_settled; [done|]. apply H4; [by eapply list_elem_of_lookup_2|done].
  - by eapply quiet_forgets.
Qed.

Lemma thread_ok self cu h r cu' :
  source_custody_thread self cu = (r, cu') -> custody_ok cu h -> custody_ok cu' h.
Proof.
  unfold source_custody_thread. destruct (cu_owner cu) as [o|]; [by destruct (o =? self); intros; simplify_eq|].
  intros ? []. simplify_eq. by split.
Qed.
Lemma find_ok self target address ticket cu h r cu' :
  source_custody_find self target address ticket cu = (r, cu') -> custody_ok cu h -> custody_ok cu' h.
Proof.
  unfold source_custody_find. intros Hf Hok. destruct (source_custody_thread self cu) as [r0 cu0] eqn:Ht.
  pose proof (thread_ok _ _ _ _ _ Ht Hok). repeat case_match; by simplify_eq.
Qed.

Lemma find_tickets self target address ticket cu r cu' :
  source_custody_find self target address ticket cu = (r, cu') -> tickets cu' = tickets cu.
Proof.
  unfold source_custody_find, source_custody_thread. intros Hf. repeat case_match; by simplify_eq.
Qed.
Lemma ack_success t h t' h' :
  source_transfer_ack native t h = (Ok tt, t', h') -> st_settled t' = true.
Proof.
  unfold source_transfer_ack. intros Ha. repeat case_match; by simplify_eq.
Qed.

Lemma retire_ok i cu h r cu' h' :
  source_custody_retire native i cu h = (r, cu', h') -> custody_ok cu h -> custody_ok cu' h'.
Proof.
  unfold source_custody_retire. intros Hr Hok. destruct (cu_pending cu !! i) as [e|] eqn:Hi; [|by simplify_eq].
  destruct (source_transfer_forget native (ce_transfer e) h) as [[r0 t] h0] eqn:Hf.
  apply forget_spec in Hf. destruct Hok as [H1 H2 H3 H4 H5].
  assert (Hin : e ∈ cu_pending cu) by (by eapply list_elem_of_lookup_2).
  assert (Hmono : forall x hh t0, settled_in hh t0 -> settled_in (x :: hh) t0).
  { intros x hh t0 (y & Hy & Hs). exists y. split; [by right|done]. }
  destruct r0 as [u|er| | |]; try done; simplify_eq.
  - destruct Hf as (Hst & q & b & ->). pose proof (lookup_lt_Some _ _ _ Hi) as Hlt. split.
    + simpl. rewrite H1, length_delete by (by eexists). rewrite u64_small; [lia|].
      unfold is_u64. lia.
    + simpl. rewrite u64_small; unfold is_u64; lia.
    + rewrite (tickets_delete i e) by done. simpl. by rewrite H3.
    + simpl. intros e' He' Hs'. apply Hmono, H4; [|done].
      rewrite (delete_Permutation _ _ _ Hi). by right.
    + simpl. split; [|done]. intros _. apply (H4 e Hin Hst).
  - destruct Hf as [-> Hh].
    assert (Hup : update_at i (ce_transfer e) cu = cu).
    { unfold update_at. rewrite Hi. destruct e as [tg tr], cu as [p n o c]. unfold with_pending. simpl in *.
      by rewrite list_insert_id. }
    rewrite Hup. destruct Hh as [->|(Hst & e0 & ->)]; [by split|].
    split; simpl; auto. split; [|done]. intros _. apply (H4 e Hin Hst).
Qed.

Lemma begin_ok alloc self target address cu h r cu' h' :
  source_custody_begin native alloc self target address cu h = (r, cu', h') ->
  custody_ok cu h -> custody_ok cu' h'.
Proof.
  unfold source_custody_begin. intros Hb Hok.
  destruct (source_custody_thread self cu) as [r0 cu0] eqn:Ht.
  pose proof (thread_ok _ _ _ _ _ Ht Hok) as Hok0. clear Hok Ht cu.
  destruct r0 as [u|e| | |]; try (simplify_eq; done).
  destruct (cu_closed cu0); [by simplify_eq|]. destruct (_ || _ || _); [by simplify_eq|].
  destruct (Z.eqb_spec (cu_count cu0) U64MAX) as [|Hroom]; [by simplify_eq|].
  destruct (negb alloc); [by simplify_eq|].
  destruct (source_transfer_begin native _ _ _ _ _ _) as [[r1 t] h1] eqn:Hbeg.
  assert (Hcase : (t = transfer_zero /\ (h1 = h \/ exists c e, h1 = (NBegin c (mb_mm target) (mb_epoch target) address, NErr e) :: h) /\ exists e, r1 = Err e) \/
    exists c q b, h1 = (NBegin c (mb_mm target) (mb_epoch target) address, NOk q b) :: h /\
      st_ticket t = vt_ticket q /\ st_begun t = true /\ st_settled t = false /\
      (r1 = Ok tt \/ exists e, r1 = Err e)).
  { unfold source_transfer_begin, issue in Hbeg. destruct (_ || _ || _ || _).
    { simplify_eq. left. eauto. }
    destruct (native h _) as [e|q b] eqn:Hn.
    - simplify_eq. left. split; [done|]. split; [|by eexists]. right. eexists _, _. done.
    - right. exists (mb_context target), q, b.
      repeat case_match; simplify_eq; simpl; eauto 10. }
  destruct Hok0 as [H1 H2 H3 H4 H5]. destruct Hcase as [(-> & Hh & e & ->)|(c & q & b & -> & Htk & Hbg & Hst & Hr)].
  - simpl in Hb. simplify_eq. destruct Hh as [->|(c & e0 & ->)]; [by split|].
    split; simpl; auto. intros e' He' Hs'. destruct (H4 e' He' Hs') as (x & Hx & Hs). exists x.
    split; [by right|done].
  - assert (cu' = with_pending (mk_entry target t :: cu_pending cu0) (u64 (cu_count cu0 + 1)) cu0 /\
      h' = (NBegin c (mb_mm target) (mb_epoch target) address, NOk q b) :: h) as [-> ->].
    { destruct Hr as [->|[e ->]]; rewrite ?Hbg in Hb; simpl in Hb; by simplify_eq. }
    assert (Hu : u64 (cu_count cu0 + 1) = cu_count cu0 + 1) by (apply u64_small; unfold is_u64; lia).
    split; simpl.
    + rewrite Hu. lia.
    + rewrite Hu. lia.
    + unfold tickets. simpl. rewrite H3, Htk. done.
    + intros e' [->|He']%elem_of_cons Hs'; simpl in *; [congruence|].
      destruct (H4 e' He' Hs') as (x & Hx & Hs). exists x. split; [by right|done].
    + done.
Qed.

Lemma custody_step_ok w w' :
  custody_ok w.1 w.2 -> custody_step w w' -> custody_ok w'.1 w'.2.
Proof.
  intros Hok Hst. destruct Hst as [alloc self target address cu h r cu' h' Hs|i e cu h r t h' Hi Hs|
    i e buf cu h r t h' Hi Hs|self target address ticket cu h r cu' h' Hs|
    self target address ticket cu h r cu' h' Hs|self cu h r cu' h' Hs]; simpl in *.
  - by eapply begin_ok.
  - eapply update_ok; eauto. by eapply capture_ok.
  - eapply update_ok; eauto. by eapply read_ok.
  - unfold source_custody_ack in Hs. destruct (source_custody_find _ _ _ _ _) as [r0 cu0] eqn:Hf.
    pose proof (find_ok _ _ _ _ _ _ _ _ Hf Hok) as Hok0. destruct r0 as [i|e| | |]; try (by simplify_eq).
    destruct (cu_pending cu0 !! i) as [e|] eqn:Hi; [|by simplify_eq].
    destruct (source_transfer_ack native (ce_transfer e) h) as [[r1 t] h1] eqn:Ha.
    pose proof (update_ok i e t cu0 h h1 Hok0 Hi (ack_ok _ _ _ _ _ Ha)) as Hok1.
    destruct (negb (st_settled t)); [by simplify_eq|].
    destruct (source_custody_retire native i _ h1) as [[r2 cu2] h2] eqn:Hr.
    pose proof (retire_ok _ _ _ _ _ _ Hr Hok1). destruct r2; by simplify_eq.
  - unfold source_custody_cancel in Hs. destruct (source_custody_find _ _ _ _ _) as [r0 cu0] eqn:Hf.
    pose proof (find_ok _ _ _ _ _ _ _ _ Hf Hok) as Hok0. destruct r0 as [i|e| | |]; try (by simplify_eq).
    destruct (cu_pending cu0 !! i) as [e|] eqn:Hi; [|by simplify_eq].
    destruct (source_transfer_cancel native (ce_transfer e) h) as [[r1 t] h1] eqn:Ha.
    pose proof (update_ok i e t cu0 h h1 Hok0 Hi (cancel_ok _ _ _ _ _ Ha)) as Hok1.
    destruct r1; try (by simplify_eq). by eapply retire_ok.
  - unfold source_custody_abandon in Hs. destruct (source_custody_thread self cu) as [r0 cu0] eqn:Ht.
    pose proof (thread_ok _ _ _ _ _ Ht Hok) as Hok0. destruct r0 as [u|e| | |]; try (by simplify_eq).
    unfold source_transfer_abandon, issue in Hs. destruct Hok0 as [H1 H2 H3 H4 H5].
    assert (Hmono : forall e', e' ∈ cu_pending cu0 -> st_settled (ce_transfer e') = true ->
      forall x, settled_in (x :: h) (ce_transfer e')).
    { intros e' He' Hs' x. destruct (H4 e' He' Hs') as (y & Hy & ?). exists y. split; [by right|done]. }
    destruct (native h NAbandon) as [e|q b]; simplify_eq; split; simpl; auto.
    + unfold U64MAX. lia.
    + by intros e' ?%elem_of_nil.
Qed.

Lemma custody_reachable cu h :
  steps custody_step (custody_zero, []) (cu, h) -> custody_ok cu h.
Proof.
  intros Hs. change (custody_ok (cu, h).1 (cu, h).2). revert Hs.
  apply (steps_invariant custody_step (fun w => custody_ok w.1 w.2)); [apply custody_step_ok|].
  split; simpl; try done. by intros e ?%elem_of_nil.
Qed.

(** ** Properties *)

(** Whatever the kernel answers, a connection neither leaks nor invents
    custody: at every point of any sequence of begins, captures, reads,
    acknowledgements, cancellations and abandonments, the tickets of its
    collection are exactly those the kernel issued and has not confirmed
    forgotten (since the last confirmed abandonment), malformed BEGIN replies
    included, and the count is their number. *)
Theorem custody_conserves_tickets cu h :
  steps custody_step (custody_zero, []) (cu, h) ->
  live h = tickets cu /\ cu_count cu = Z.of_nat (length (cu_pending cu)).
Proof. intros Hs. destruct (custody_reachable cu h Hs). done. Qed.

Lemma custody_scan_found target address ticket i pending k e :
  custody_scan target address ticket i pending = Ok k -> pending !! (k - i)%nat = Some e ->
  (i <= k)%nat /\ st_ticket (ce_transfer e) = ticket /\ st_address (ce_transfer e) = address /\
  vmr_binding_equal (ce_target e) target = true.
Proof.
  revert i. induction pending as [|e0 rest IH]; intros i Hs Hk; [done|]. simpl in Hs.
  destruct (Z.eqb_spec (st_ticket (ce_transfer e0)) ticket) as [Ht|Ht]; simpl in Hs.
  - destruct (Z.eqb_spec (st_address (ce_transfer e0)) address) as [Ha|Ha]; simpl in Hs; [|done].
    destruct (vmr_binding_equal (ce_target e0) target) eqn:Hb; simpl in Hs; [|done].
    simplify_eq. rewrite Nat.sub_diag in Hk. simpl in Hk. by simplify_eq.
  - assert (Hle : (S i <= k)%nat).
    { clear -Hs. revert i Hs. induction rest as [|e1 rest IH]; intros i Hs; [done|]. simpl in Hs.
      repeat case_match; simplify_eq; [|lia]. apply IH in Hs. lia. }
    replace (k - i)%nat with (S (k - S i)) in Hk by lia. simpl in Hk.
    destruct (IH _ Hs Hk) as (? & ?). split; [lia|done].
Qed.
Lemma custody_find_found self target address ticket cu i cu' e :
  source_custody_find self target address ticket cu = (Ok i, cu') -> cu_pending cu' !! i = Some e ->
  st_ticket (ce_transfer e) = ticket /\ st_address (ce_transfer e) = address.
Proof.
  unfold source_custody_find. intros Hf Hi. destruct (source_custody_thread self cu) as [r1 cu1].
  destruct r1; try done. destruct (cu_closed cu1); [done|]. destruct (_ || _); [done|].
  injection Hf as Hf ->.
  eapply (custody_scan_found target address ticket 0) in Hf as (_ & ? & ? & _); [done|].
  by rewrite Nat.sub_0_r.
Qed.

(** The kernel is never asked to forget a transfer that is not settled:
    before every FORGET of the history the same page and ticket was
    acknowledged (or its acknowledgement refused as stale) or cancelled; and a
    successful acknowledgement by the collection ends with the kernel
    confirming that it forgot exactly the ticket the caller named, and the
    ticket is no longer held. *)
Theorem custody_forgets_only_settled cu h self target address ticket cu' h' :
  steps custody_step (custody_zero, []) (cu, h) ->
  source_custody_ack native self target address ticket cu h = (Ok tt, cu', h') ->
  forgets_settled h' /\
  (exists mm q b h0, h' = (NStep VMCTX_TRANSFER_FORGET mm address ticket 0, NOk q b) :: h0 /\
     exists x, x ∈ h0 /\ settles mm address ticket x) /\
  tickets cu' = tickets cu ∖ {[+ ticket +]}.
Proof.
  intros Hs Ha. pose proof (custody_reachable cu h Hs) as Hok.
  assert (Hok' : custody_ok cu' h').
  { apply (custody_step_ok (cu, h) (cu', h')); [done|]. by eapply cs_ack. }
  split; [apply Hok'|]. unfold source_custody_ack in Ha.
  destruct (source_custody_find self target address ticket cu) as [r0 cu0] eqn:Hf.
  pose proof (find_ok _ _ _ _ _ _ _ _ Hf Hok) as Hok0.
  pose proof (find_tickets _ _ _ _ _ _ _ Hf) as Htk.
  destruct r0 as [i|e| | |]; try done. destruct (cu_pending cu0 !! i) as [e|] eqn:Hi; [|done].
  destruct (custody_find_found _ _ _ _ _ _ _ _ Hf Hi) as [Ht Had].
  destruct (source_transfer_ack native (ce_transfer e) h) as [[r1 t] h1] eqn:Hack.
  destruct (ack_ok _ _ _ _ _ Hack) as ((Hm & Ha' & Ht') & Hq & _).
  destruct (st_settled t) eqn:Hst; simpl in Ha.
  2:{ simplify_eq. by rewrite (ack_success _ _ _ _ Hack) in Hst. }
  unfold source_custody_retire in Ha.
  assert (Hup : cu_pending (update_at i t cu0) !! i = Some (mk_entry (ce_target e) t)).
  { unfold update_at. rewrite Hi. simpl. rewrite list_lookup_insert_eq; [done|]. by eapply lookup_lt_Some. }
  rewrite Hup in Ha. simpl in Ha. destruct (source_transfer_forget native t h1) as [[r2 t2] h2] eqn:Hfg.
  apply forget_spec in Hfg. destruct r2 as [u|e2| | |]; simplify_eq.
  destruct Hfg as (_ & q & b & ->). rewrite Ha', Ht'. split.
  - exists (st_mm t), q, b, h1. split; [done|]. pose proof (co_forgets _ _ Hok') as [Hx _].
    rewrite Ha', Ht' in Hx. by apply Hx.
  - rewrite (tickets_delete i (mk_entry (ce_target e) t)) by done. simpl.
    rewrite (tickets_update i e t cu0) by done. by rewrite Htk, Ht'.
Qed.
End facts.

(** A kernel that issues ticket 7 and takes everything. *)
Definition demo_native (h : history) (c : ncall) : nanswer :=
  match c with
  | NCaps => NOk (mk_xfer 1 80 0 7 0 0 0 0 0 0 0 0 0 0 0) []
  | NBegin _ mm _ address => NOk (mk_xfer 1 80 1 0 mm address 7 0 0 0 0 0 0 0 0) []
  | NStep op mm address ticket buf =>
      NOk (mk_xfer 1 80 op 7 mm address ticket buf 2 0 1 0 5 9 0) [1; 2; 3]
  | NAbandon => NOk xfer_zero []
  end.
Definition demo_target : vmr_mm_binding := mk_binding 1 3 4 5.
Definition demo_world : source_custody * history :=
  let '(_, cu, h) := source_custody_begin demo_native true 1 demo_target 4096 custody_zero [] in
  match cu_pending cu with
  | e :: _ =>
      let '(_, t, h) := source_transfer_capture demo_native (ce_transfer e) h in
      let cu := update_at 0 t cu in
      let '(_, t, h) := source_transfer_read demo_native t 64 h in
      (update_at 0 t cu, h)
  | [] => (cu, h)
  end.
Definition begun_world := source_custody_begin demo_native true 1 demo_target 4096 custody_zero [].
Lemma demo_custody_reachable : steps (custody_step demo_native) (custody_zero, []) demo_world.
Proof.
  assert (Hb : steps (custody_step demo_native) (custody_zero, []) (begun_world.1.2, begun_world.2)).
  { eapply steps_next; [apply steps_refl|]. eapply (cs_begin _ true 1 demo_target 4096). reflexivity. }
  eapply steps_next; [eapply steps_next; [exact Hb|]|].
  - eapply (cs_capture _ 0); reflexivity.
  - eapply (cs_read _ 0 _ 64); reflexivity.
Qed.
Lemma custody_conserves_tickets_witness :
  live demo_world.2 = tickets demo_world.1 /\ cu_count demo_world.1 = 1.
Proof.
  destruct (custody_conserves_tickets demo_native demo_world.1 demo_world.2) as [H1 H2].
  - exact demo_custody_reachable.
  - split; [exact H1|]. rewrite H2. reflexivity.
Defined.
Lemma custody_forgets_only_settled_witness :
  exists cu' h',
    source_custody_ack demo_native 1 demo_target 4096 7 demo_world.1 demo_world.2 = (Ok tt, cu', h') /\
    forgets_settled h' /\ tickets cu' = tickets demo_world.1 ∖ {[+ 7 +]}.
Proof.
  eexists _, _. split; [vm_compute; reflexivity|].
  edestruct (custody_forgets_only_settled demo_native demo_world.1 demo_world.2 1 demo_target 4096 7) as (H1 & _ & H2).
  - exact demo_custody_reachable.
  - vm_compute. reflexivity.
  - split; [exact H1|exact H2].
Defined.
End SourceTransfer.
