(* ===== verification/Native.v ===== *)
(** * Calls of the source monitor into its kernel

    The source adapter works through system calls: the control device of the
    module, and open, fstat, read and close.  They are not part of the program;
    here they are a [kernel], a record of functions that answer each call from
    the whole history of calls, so that a theorem for every kernel covers
    every sequence of answers.  Programs run in a state and error monad over
    the history; [wp] states what a program leaves behind. *)
From S2P Require Import Prelude.
From stdpp Require Export gmultiset strings.
Open Scope Z_scope.

(** Conversion of a word to [int] (and [pid_t]). *)
Definition i32 (x : Z) : Z := (x + 2 ^ 31) mod 2 ^ 32 - 2 ^ 31.

(** ** Programs

    A program of state [S] returns a [result]; [Err e] is the return of -1
    with [errno = e]. *)
Definition prog (S A : Type) : Type := S -> result A * S.
#[global] Instance prog_ret S : MRet (prog S) := fun A a s => (Ok a, s).
#[global] Instance prog_bind S : MBind (prog S) := fun A B k m s =>
  match m s with
  | (Ok a, s) => k a s
  | (Err e, s) => (Err e, s)
  | (Aborted, s) => (Aborted, s)
  | (Corrupt, s) => (Corrupt, s)
  | (Hung, s) => (Hung, s)
  end.
Definition fail {S A} (e : Z) : prog S A := fun s => (Err e, s).
Definition stop {S A} (r : result A) : prog S A := fun s => (r, s).
(** The answer of a call whose failure the caller handles. *)
Definition attempt {S A} (m : prog S A) : prog S (Z + A) := fun s =>
  match m s with
  | (Ok a, s) => (Ok (inr a), s)
  | (Err e, s) => (Ok (inl e), s)
  | (Aborted, s) => (Aborted, s)
  | (Corrupt, s) => (Corrupt, s)
  | (Hung, s) => (Hung, s)
  end.

Definition wp {S A} (m : prog S A) (Q : result A -> S -> Prop) (s : S) : Prop :=
  Q (m s).1 (m s).2.

Section rules.
Context {S : Type}.
Implicit Types (s : S).

Lemma wp_ret {A} (a : A) Q s : Q (Ok a) s -> wp (mret a : prog S A) Q s.
Proof. done. Qed.
Lemma wp_fail {A} e (Q : result A -> S -> Prop) s : Q (Err e) s -> wp (fail e) Q s.
Proof. done. Qed.
Lemma wp_bind {A B} (m : prog S A) (k : A -> prog S B) Q s :
  wp m (fun r s' => match r with
    | Ok a => wp (k a) Q s' | Err e => Q (Err e) s' | Aborted => Q Aborted s'
    | Corrupt => Q Corrupt s' | Hung => Q Hung s' end) s ->
  wp (m ≫= k) Q s.
Proof. unfold wp, mbind, prog_bind. by destruct (m s) as [[] s']. Qed.
Lemma wp_attempt {A} (m : prog S A) (Q : result (Z + A) -> S -> Prop) s :
  wp m (fun r s' => match r with
    | Ok a => Q (Ok (inr a)) s' | Err e => Q (Ok (inl e)) s' | Aborted => Q Aborted s'
    | Corrupt => Q Corrupt s' | Hung => Q Hung s' end) s ->
  wp (attempt m) Q s.
Proof. unfold wp, attempt. by destruct (m s) as [[] s']. Qed.
Lemma wp_mono {A} (m : prog S A) (Q Q' : result A -> S -> Prop) s :
  wp m Q s -> (forall r s', Q r s' -> Q' r s') -> wp m Q' s.
Proof. unfold wp. auto. Qed.
Lemma wp_run {A} (m : prog S A) Q s r s' : wp m Q s -> m s = (r, s') -> Q r s'.
Proof. unfold wp. intros HQ Hm. by rewrite Hm in HQ. Qed.
End rules.

(** ** Control blocks *)
Definition VMCTX_CTL_CONTEXT : Z := 46.
Definition VMCTX_CONTEXT_ABI : Z := 2.
Definition VMCTX_CONTEXT_OPEN : Z := 1.
Definition VMCTX_CONTEXT_INFO : Z := 2.
Definition VMCTX_CONTEXT_CHILD : Z := 3.
Definition VMCTX_CONTEXT_MMINFO : Z := 4.
Definition VMCTX_CONTEXT_SIGNAL : Z := 5.
Definition VMCTX_CONTEXT_ENDED : Z := 2.
Definition VMCTX_CONTEXT_MM_LIVE : Z := 4.
Definition VMCTX_CONTEXT_MM_ENDED : Z := 8.
Definition sizeof_context : Z := 56.
Record vmctx_context := mk_context {
  vc_version : Z; vc_size : Z; vc_op : Z; vc_flags : Z;
  vc_ticket : Z; vc_identity : Z; vc_mm_identity : Z;
  vc_fd : Z; vc_native_pid : Z; vc_exit_status : Z; vc_native_tgid : Z }.

Definition VMCTX_CTL_MEMORY : Z := 48.
Definition VMCTX_MEMORY_ABI : Z := 1.
Definition VMCTX_MEMORY_CAPS : Z := 0.
Definition VMCTX_MEMORY_CALL : Z := 1.
Definition VMCTX_MEMORY_EXPECTED_MM : Z := 1.
Definition VMCTX_MEMORY_RETAINED_METADATA : Z := 2.
Definition sizeof_memory : Z := 40.
Record vmctx_memory := mk_memory {
  vm_version : Z; vm_size : Z; vm_op : Z; vm_command : Z;
  vm_mm_identity : Z; vm_argument : Z; vm_features : Z; vm_reserved : Z }.

(** ** Calls and their answers

    A left answer is the error number of a failed call. *)
Inductive event :=
| EvContext (selector : Z) (q : vmctx_context) (r : Z + vmctx_context)
| EvMemory (selector : Z) (q : vmctx_memory) (r : Z + Z * vmctx_memory)
| EvControl (selector command argument : Z) (r : Z + Z)
| EvOpen (dir : Z) (path : string) (r : Z + N)
| EvFstatfs (fd : Z) (r : Z + Z)
| EvFstat (fd : Z) (r : Z + Z * Z)
| EvRead (fd size : Z) (r : Z + list Z)
| EvClose (fd : Z)
| EvAlloc (ok : bool).
(** Newest call first. *)
Abbreviation history := (list event).

Record kernel := mk_kernel {
  k_context : history -> Z -> vmctx_context -> Z + vmctx_context;
  k_memory : history -> Z -> vmctx_memory -> Z + Z * vmctx_memory;
  k_control : history -> Z -> Z -> Z -> Z + Z;
  k_open : history -> Z -> string -> Z + N;
  k_fstatfs : history -> Z -> Z + Z;
  k_fstat : history -> Z -> Z + Z * Z;
  k_read : history -> Z -> Z -> Z + list Z;
  k_alloc : history -> bool
}.

(** Descriptors the calls opened and did not close. *)
Fixpoint open_fds (h : history) : gmultiset Z :=
  match h with
  | [] => ∅
  | EvContext _ q (inr a) :: h' =>
      if ((vc_op q =? VMCTX_CONTEXT_OPEN) || (vc_op q =? VMCTX_CONTEXT_CHILD)) && (0 <=? vc_fd a)
      then {[+ vc_fd a +]} ⊎ open_fds h' else open_fds h'
  | EvOpen _ _ (inr fd) :: h' => {[+ Z.of_N fd +]} ⊎ open_fds h'
  | EvClose fd :: h' => open_fds h' ∖ {[+ fd +]}
  | _ :: h' => open_fds h'
  end.

(** Programs on a state that contains the history. *)
Class HasHistory (S : Type) := {
  get_history : S -> history;
  set_history : history -> S -> S;
  get_set_history : forall h s, get_history (set_history h s) = h;
  set_set_history : forall h h' s, set_history h (set_history h' s) = set_history h s;
  set_get_history : forall s, set_history (get_history s) s = s
}.
#[global] Program Instance history_history : HasHistory history :=
  {| get_history := fun h => h; set_history := fun h _ => h |}.
Solve Obligations with done.

Section calls.
Context (K : kernel) {S : Type} `{HasHistory S}.

Definition answer {A} (r : Z + A) (ev : event) : prog S A := fun s =>
  (match r with inl e => Err e | inr a => Ok a end, set_history (ev :: get_history s) s).
Definition sys_context (selector : Z) (q : vmctx_context) : prog S vmctx_context := fun s =>
  let r := k_context K (get_history s) selector q in answer r (EvContext selector q r) s.
Definition sys_memory (selector : Z) (q : vmctx_memory) : prog S (Z * vmctx_memory) := fun s =>
  let r := k_memory K (get_history s) selector q in answer r (EvMemory selector q r) s.
Definition sys_control (selector command argument : Z) : prog S Z := fun s =>
  let r := k_control K (get_history s) selector command argument in
  answer r (EvControl selector command argument r) s.
Definition sys_open (dir : Z) (path : string) : prog S Z := fun s =>
  let r := k_open K (get_history s) dir path in
  answer (match r with inl e => inl e | inr fd => inr (Z.of_N fd) end) (EvOpen dir path r) s.
Definition sys_fstatfs (fd : Z) : prog S Z := fun s =>
  let r := k_fstatfs K (get_history s) fd in answer r (EvFstatfs fd r) s.
Definition sys_fstat (fd : Z) : prog S (Z * Z) := fun s =>
  let r := k_fstat K (get_history s) fd in answer r (EvFstat fd r) s.
Definition sys_read (fd size : Z) : prog S (list Z) := fun s =>
  let r := k_read K (get_history s) fd size in answer r (EvRead fd size r) s.
(** Whether the allocator serves the request. *)
Definition sys_alloc : prog S bool := fun s =>
  let ok := k_alloc K (get_history s) in (Ok ok, set_history (EvAlloc ok :: get_history s) s).
Definition sys_close (fd : Z) : prog S unit := answer (inr ()) (EvClose fd).
End calls.

(** ** Rules for the calls *)
Section call_rules.
Context (K : kernel) {S : Type} `{HasHistory S}.
Implicit Types (s : S).
(** The state after one more call. *)
Definition push_event (ev : event) (s : S) : S := set_history (ev :: get_history s) s.

Definition answered {A} (r : Z + A) : result A := match r with inl e => Err e | inr a => Ok a end.
Lemma wp_context selector q Q s :
  (forall r, Q (answered r) (push_event (EvContext selector q r) s)) ->
  wp (sys_context K selector q) Q s.
Proof. intros HQ. unfold wp, sys_context, answer. apply HQ. Qed.
Lemma wp_memory selector q Q s :
  (forall r, Q (answered r) (push_event (EvMemory selector q r) s)) ->
  wp (sys_memory K selector q) Q s.
Proof. intros HQ. unfold wp, sys_memory, answer. apply HQ. Qed.
Lemma wp_control selector c a Q s :
  (forall r, Q (answered r) (push_event (EvControl selector c a r) s)) ->
  wp (sys_control K selector c a) Q s.
Proof. intros HQ. unfold wp, sys_control, answer. apply HQ. Qed.
Lemma wp_open dir path Q s :
  (forall r, Q (match r with inl e => Err e | inr fd => Ok (Z.of_N fd) end)
     (push_event (EvOpen dir path r) s)) ->
  wp (sys_open K dir path) Q s.
Proof.
  intros HQ. unfold wp, sys_open, answer. specialize (HQ (k_open K (get_history s) dir path)).
  by destruct (k_open K (get_history s) dir path).
Qed.
Lemma wp_fstatfs fd Q s :
  (forall r, Q (answered r) (push_event (EvFstatfs fd r) s)) -> wp (sys_fstatfs K fd) Q s.
Proof. intros HQ. unfold wp, sys_fstatfs, answer. apply HQ. Qed.
Lemma wp_fstat fd Q s :
  (forall r, Q (answered r) (push_event (EvFstat fd r) s)) -> wp (sys_fstat K fd) Q s.
Proof. intros HQ. unfold wp, sys_fstat, answer. apply HQ. Qed.
Lemma wp_read fd n Q s :
  (forall r, Q (answered r) (push_event (EvRead fd n r) s)) -> wp (sys_read K fd n) Q s.
Proof. intros HQ. unfold wp, sys_read, answer. apply HQ. Qed.
Lemma wp_close fd (Q : result unit -> S -> Prop) s :
  Q (Ok tt) (push_event (EvClose fd) s) -> wp (sys_close fd) Q s.
Proof. done. Qed.

Lemma wp_alloc (Q : result bool -> S -> Prop) s :
  (forall ok, Q (Ok ok) (push_event (EvAlloc ok) s)) -> wp (sys_alloc K) Q s.
Proof. intros HQ. apply HQ. Qed.

(** The state after a list of calls, newest first. *)
Definition after (evs : list event) (s : S) : S := set_history (evs ++ get_history s) s.
Lemma after_nil s : after [] s = s.
Proof. apply set_get_history. Qed.
Lemma after_push ev evs s : push_event ev (after evs s) = after (ev :: evs) s.
Proof. unfold push_event, after. by rewrite get_set_history, set_set_history. Qed.
Lemma push_after ev s : push_event ev s = after [ev] s.
Proof. done. Qed.
Lemma after_after evs evs' s : after evs (after evs' s) = after (evs ++ evs') s.
Proof. unfold after. by rewrite get_set_history, set_set_history, <- app_assoc. Qed.
Lemma after_history evs s : get_history (after evs s) = evs ++ get_history s.
Proof. apply get_set_history. Qed.
End call_rules.
