(* ===== verification/Traces.v ===== *)
(** * Programs that keep their history

    A program of a state that records every call it makes ([hist], the last call
    first) is specified by what it may do after which history ([safe]), by the
    result it leaves, and by the time it takes ([ends], for a clock that the
    calls advance). *)
From S2P Require Import Prelude Native.
Open Scope Z_scope.

Module Traces.

(** ** Histories
    [since P new h]: every event of [new] was allowed by [P] where it happened,
    after the history [h]. *)
Section histories.
Context {E : Type} (P : list E -> E -> Prop).
Fixpoint since (new h : list E) : Prop :=
  match new with [] => True | e :: new => P (new ++ h) e /\ since new h end.
Definition grown (h h' : list E) : Prop := exists new, h' = new ++ h /\ since new h.
Lemma since_app new new' h : since (new' ++ new) h <-> since new' (new ++ h) /\ since new h.
Proof. induction new' as [|e new' IH]; simpl; [tauto|]. rewrite IH, <- app_assoc. tauto. Qed.
Lemma grown_refl h : grown h h.
Proof. by exists []. Qed.
Lemma grown_trans h1 h2 h3 : grown h1 h2 -> grown h2 h3 -> grown h1 h3.
Proof.
  intros (n1 & -> & H1) (n2 & -> & H2). exists (n2 ++ n1). rewrite app_assoc. split; [done|]. by apply since_app.
Qed.
Lemma grown_one e h : P h e -> grown h (e :: h).
Proof. intros H. exists [e]. done. Qed.
End histories.
Lemma since_impl {E} (P P' : list E -> E -> Prop) new h : (forall h e, P h e -> P' h e) -> since P new h -> since P' new h.
Proof. intros H. induction new as [|e new IH]; simpl; [done|]. intros [? ?]. auto. Qed.
Lemma grown_impl {E} (P P' : list E -> E -> Prop) h h' : (forall h e, P h e -> P' h e) -> grown P h h' -> grown P' h h'.
Proof. intros H (new & -> & Hs). exists new. split; [done|]. by eapply since_impl. Qed.

(** something of the kind [F] happened between two histories *)
Definition happened {E} (F : E -> Prop) (h h' : list E) : Prop := exists new, h' = new ++ h /\ Exists F new.
Lemma happened_grown {E} (P : list E -> E -> Prop) F h1 h2 h3 : grown P h2 h3 -> happened F h1 h2 -> happened F h1 h3.
Proof. intros (n & -> & _) (new & -> & He). exists (n ++ new). rewrite app_assoc. split; [done|]. apply Exists_app. auto. Qed.
Lemma happened_since {E} (P : list E -> E -> Prop) F h1 h2 h3 : grown P h1 h2 -> happened F h2 h3 -> happened F h1 h3.
Proof. intros (n & -> & _) (new & -> & He). exists (new ++ n). rewrite app_assoc. split; [done|]. apply Exists_app. auto. Qed.
Lemma happened_one {E} (F : E -> Prop) e h : F e -> happened F h (e :: h).
Proof. intros H. exists [e]. split; [done|]. by constructor. Qed.

(** ** Safety
    [safe m Q s]: every event is allowed, and [Q] holds of a result. *)
Section safety.
Context {St E : Type} {hist : St -> list E} (P : list E -> E -> Prop).
Definition safe {A} (m : prog St A) (Q : A -> St -> Prop) (s : St) : Prop :=
  grown P (hist s) (hist (m s).2) /\ match (m s).1 with Ok a => Q a (m s).2 | _ => True end.
Lemma safe_ret {A} (a : A) Q s : Q a s -> safe (mret a) Q s.
Proof. intros H. split; [apply grown_refl|done]. Qed.
Lemma safe_stop {A} (r : result A) Q s : (forall a, r <> Ok a) -> safe (stop r) Q s.
Proof. intros H. split; [apply grown_refl|]. unfold stop. simpl. destruct r; try done. by destruct (H a). Qed.
Lemma safe_bind {A B} (m : prog St A) (k : A -> prog St B) Q s :
  safe m (fun a s' => safe (k a) Q s') s -> safe (m ≫= k) Q s.
Proof.
  unfold safe, mbind, prog_bind. destruct (m s) as [[a| | | |] s'] eqn:Hm; simpl; try tauto.
  intros (H1 & H2 & H3). split; [by eapply grown_trans|done].
Qed.
Lemma safe_mono {A} (m : prog St A) (Q Q' : A -> St -> Prop) s :
  safe m Q s -> (forall a s', grown P (hist s) (hist s') -> Q a s' -> Q' a s') -> safe m Q' s.
Proof. intros [H1 H2] H. split; [done|]. destruct (m s) as [[] s']; simpl in *; auto. Qed.
End safety.
Arguments safe {St E} hist P {A} m Q s.
Lemma safe_impl {St E A} {hist : St -> list E} (P P' : list E -> E -> Prop) (m : prog St A) Q s :
  (forall h e, P h e -> P' h e) -> safe hist P m Q s -> safe hist P' m Q s.
Proof. intros H [Hg HQ]. split; [by eapply grown_impl|done]. Qed.

(** ** Termination
    [ends m s]: the program returns, or gives the process up, at no earlier time. *)
Create HintDb ends.
Section termination.
Context {St E : Type} {hist : St -> list E} (time : list E -> Z).
Definition ends {A} (m : prog St A) (s : St) : Prop :=
  match (m s).1 with Ok _ | Aborted => True | _ => False end /\ time (hist s) <= time (hist (m s).2).
Lemma ends_ret {A} (a : A) s : ends (mret a) s.
Proof. split; [done|]. simpl. lia. Qed.
(** the rest may use the time the first part took *)
Lemma ends_bind' {A B} (m : prog St A) (k : A -> prog St B) s : ends m s ->
  (forall a s', m s = (Ok a, s') -> time (hist s) <= time (hist s') -> ends (k a) s') -> ends (m ≫= k) s.
Proof.
  unfold ends, mbind, prog_bind. destruct (m s) as [[a| | | |] s'] eqn:Hm; simpl; try tauto.
  intros [_ Ht] H. destruct (H a s' eq_refl Ht). split; [done|lia].
Qed.
Lemma ends_bind {A B} (m : prog St A) (k : A -> prog St B) s : ends m s -> (forall a s', ends (k a) s') -> ends (m ≫= k) s.
Proof. intros H1 H2. apply ends_bind'; auto. Qed.
End termination.
Arguments ends {St E} hist time {A} m s.
End Traces.
