(* ===== verification/SourceContext.v ===== *)
(** * Retained contexts (user/source-context.h, user/source-memory.h)

    A source context owns a descriptor of the control device that retains one
    task.  Native names (process ids) are only candidates: a file of /proc is
    used only when the identity behind the name was proved before and after
    opening it. *)
From S2P Require Import Prelude Native.
From Stdlib Require Import Ascii.
From stdpp Require Import pretty.
Open Scope Z_scope.

Module SourceContext.

Definition ENAMETOOLONG : Z := 36.
Definition PROC_SUPER_MAGIC : Z := 0x9fa0.
Definition AT_FDCWD : Z := -100.

Record source_context := mk_source { sc_fd : Z; sc_pid : Z; sc_tgid : Z; sc_identity : Z }.
Definition no_source : source_context := mk_source (-1) 0 0 0.

Definition source_context_selector (s : source_context) : Z := - sc_fd s - 1.

Section context.
Context (K : kernel) {S : Type} `{HasHistory S}.
Local Abbreviation M := (prog S).

Definition source_context_close (s : source_context) : M source_context :=
  (if 0 <=? sc_fd s then sys_close (sc_fd s) else mret ());; mret no_source.

Definition source_context_request (selector op ticket : Z) : M vmctx_context :=
  sys_context K selector (mk_context VMCTX_CONTEXT_ABI sizeof_context op 0 ticket 0 0 0 0 0 0).

Definition source_context_info (s : source_context) : M vmctx_context :=
  if sc_fd s <? 0 then fail EBADF
  else
    q ← source_context_request (source_context_selector s) VMCTX_CONTEXT_INFO 0;
    if (sc_identity s =? 0) || negb (vc_identity q =? sc_identity s) then fail EPROTO
    else mret q.

Definition source_context_open (pid : Z) : M source_context :=
  if pid <=? 0 then fail EINVAL
  else
    q ← source_context_request pid VMCTX_CONTEXT_OPEN 0;
    if (vc_fd q <? 0) || (vc_identity q =? 0) then
      (if 0 <=? vc_fd q then sys_close (vc_fd q) else mret ());; fail EPROTO
    else mret (mk_source (vc_fd q) pid (i32 (vc_native_tgid q)) (vc_identity q)).

Definition source_context_child (parent : source_context) (ticket : Z) : M source_context :=
  q ← source_context_request (source_context_selector parent) VMCTX_CONTEXT_CHILD ticket;
  if (vc_fd q <? 0) || (vc_identity q =? 0) then
    (if 0 <=? vc_fd q then sys_close (vc_fd q) else mret ());; fail EPROTO
  else mret (mk_source (vc_fd q) (i32 (vc_native_pid q)) (i32 (vc_native_tgid q)) (vc_identity q)).

Definition source_context_signal (s : source_context) (sig : Z) : M unit :=
  sys_context K (source_context_selector s)
    (mk_context VMCTX_CONTEXT_ABI sizeof_context VMCTX_CONTEXT_SIGNAL 0 0 0 0 0 0 (u32 sig) 0);;
  mret ().

Definition source_mm_live (identity : Z) : M bool :=
  q ← sys_context K 0 (mk_context VMCTX_CONTEXT_ABI sizeof_context VMCTX_CONTEXT_MMINFO 0 0 0 identity 0 0 0 0);
  if vc_flags q =? VMCTX_CONTEXT_MM_LIVE then mret true
  else if vc_flags q =? VMCTX_CONTEXT_MM_ENDED then mret false
  else fail EPROTO.

(** The part of the validation between opening and closing the probe. *)
Definition validate_probe (s probe : source_context) (expected_mm : Z) : M Z :=
  if negb (sc_identity probe =? sc_identity s) then fail ESTALE
  else
    q ← source_context_info probe;
    if nz (vc_flags q .& VMCTX_CONTEXT_ENDED) || (vc_mm_identity q =? 0) then fail ESRCH
    else if nz expected_mm && negb (vc_mm_identity q =? expected_mm) then fail ESTALE
    else mret (vc_mm_identity q).
Definition source_context_validate (s : source_context) (pid expected_mm : Z) : M Z :=
  probe ← source_context_open pid;
  r ← attempt (validate_probe s probe expected_mm);
  source_context_close probe;;
  match r with inl e => fail e | inr mm => mret mm end.

(** The test that /proc names our process namespace. *)
Definition proc_matching (proc : Z) : M bool :=
  own ← attempt (sys_open K proc "self/ns/pid");
  mount ← attempt (sys_open K proc "1/ns/pid");
  matching ← (match own, mount with
    | inr own, inr mount =>
        f ← attempt (sys_fstatfs K proc);
        match f with
        | inr magic =>
            if magic =? PROC_SUPER_MAGIC then
              a ← attempt (sys_fstat K own);
              match a with
              | inr a =>
                  b ← attempt (sys_fstat K mount);
                  match b with
                  | inr b => mret ((a.1 =? b.1) && (a.2 =? b.2))
                  | inl _ => mret false
                  end
              | inl _ => mret false
              end
            else mret false
        | inl _ => mret false
        end
    | _, _ => mret false
    end);
  (match own with inr fd => sys_close fd | inl _ => mret () end);;
  (match mount with inr fd => sys_close fd | inl _ => mret () end);;
  mret matching.

Definition proc_path (pid : Z) (leaf : string) : string := pretty pid +:+ "/" +:+ leaf.
Definition proc_path_size : nat := 96.
Definition names_a_file (leaf : string) : bool :=
  negb (bool_decide (leaf = "")) && forallb (fun c => negb (bool_decide (c = "/"%char))) (String.list_ascii_of_string leaf).

(** The loop over the candidate names: [saved] is the error so far.  The result
    is the descriptor, the memory identity and the name used. *)
Fixpoint proc_candidates (s : source_context) (proc : Z) (leaf : string) (saved : Z)
    (names : list (bool * Z)) : M (Z + Z * Z * Z) :=
  match names with
  | [] => mret (inl saved)
  | (skip, pid) :: rest =>
      if (pid <=? 0) || skip then proc_candidates s proc leaf saved rest
      else
        before ← attempt (source_context_validate s pid 0);
        match before with
        | inl e => proc_candidates s proc leaf e rest
        | inr before =>
            if (proc_path_size <=? String.length (proc_path pid leaf))%nat
            then mret (inl ENAMETOOLONG)
            else
              fd ← attempt (sys_open K proc (proc_path pid leaf));
              match fd with
              | inl e => proc_candidates s proc leaf e rest
              | inr fd =>
                  after ← attempt (source_context_validate s pid before);
                  match after with
                  | inr after => mret (inr (fd, after, pid))
                  | inl e => sys_close fd;; proc_candidates s proc leaf e rest
                  end
              end
        end
  end.

Definition source_context_proc_open (s : source_context) (leaf : string) : M (Z * Z * Z) :=
  if (sc_fd s <? 0) || (sc_identity s =? 0) || negb (names_a_file leaf) then fail EINVAL
  else
    proc ← sys_open K AT_FDCWD "/proc";
    matching ← proc_matching proc;
    if negb matching then sys_close proc;; fail EXDEV
    else
      r ← proc_candidates s proc leaf ESRCH
            [(false, sc_pid s); (sc_tgid s =? sc_pid s, sc_tgid s)];
      sys_close proc;;
      match r with inr x => mret x | inl e => fail e end.

(** The read loop: an interrupted read is repeated. *)
Fixpoint read_retry (fuel : nat) (fd size : Z) : M (list Z) :=
  match fuel with
  | O => stop Hung
  | Datatypes.S fuel =>
      r ← attempt (sys_read K fd size);
      match r with
      | inl e => if e =? EINTR then read_retry fuel fd size else fail e
      | inr bytes => mret bytes
      end
  end.
(** The result is what [out] receives before its terminator. *)
Definition source_context_read_proc (fuel : nat) (s : source_context) (leaf : string) (capacity : Z)
    : M (list Z) :=
  if capacity =? 0 then fail EINVAL
  else
    '(fd, mm, pid) ← source_context_proc_open s leaf;
    r ← attempt (read_retry fuel fd (capacity - 1));
    sys_close fd;;
    match r with
    | inl e => fail e
    | inr bytes => source_context_validate s pid mm;; mret bytes
    end.

Definition source_context_group (s : source_context) : M source_context :=
  q ← source_context_info s;
  if nz (vc_flags q .& VMCTX_CONTEXT_ENDED) then fail ESRCH
  else if (vc_native_tgid q =? 0) || (I32MAX <? vc_native_tgid q) then fail EPROTO
  else mret (mk_source (sc_fd s) (sc_pid s) (i32 (vc_native_tgid q)) (sc_identity s)).

(** CAPS returns 0 or fails. *)
Definition source_memory_capabilities : M unit :=
  '(_, q) ← sys_memory K 0 (mk_memory VMCTX_MEMORY_ABI sizeof_memory VMCTX_MEMORY_CAPS 0 0 0 0 0);
  let wanted := VMCTX_MEMORY_EXPECTED_MM .| VMCTX_MEMORY_RETAINED_METADATA in
  if negb (vm_version q =? VMCTX_MEMORY_ABI) || negb (vm_size q =? sizeof_memory) ||
     negb (vm_op q =? VMCTX_MEMORY_CAPS) || nz (vm_command q) || nz (vm_mm_identity q) ||
     nz (vm_argument q) || nz (vm_reserved q) || negb ((vm_features q .& wanted) =? wanted)
  then fail EPROTO else mret ().

Definition source_memory_call (context : source_context) (expected_mm command argument : Z) : M Z :=
  if (sc_fd context <? 0) || (sc_identity context =? 0) then fail EBADF
  else if expected_mm =? 0 then fail EINVAL
  else
    '(result, _) ← sys_memory K (source_context_selector context)
        (mk_memory VMCTX_MEMORY_ABI sizeof_memory VMCTX_MEMORY_CALL command expected_mm argument 0 0);
    mret result.
End context.

(** ** What the calls leave behind *)
Lemma wp_request (K : kernel) {S : Type} `{HasHistory S} selector op ticket Q (w : S) :
  (forall r, Q (answered r) (push_event (EvContext selector
     (mk_context VMCTX_CONTEXT_ABI sizeof_context op 0 ticket 0 0 0 0 0 0) r) w)) ->
  wp (source_context_request K selector op ticket) Q w.
Proof. apply wp_context. Qed.
Ltac wp_step :=
  lazymatch goal with
  | |- wp (mret _) _ _ => apply wp_ret
  | |- wp (fail _) _ _ => apply wp_fail
  | |- wp (mbind _ _) _ _ => apply wp_bind
  | |- wp (attempt _) _ _ => apply wp_attempt
  | |- wp (sys_context _ _ _) _ _ => apply wp_context; intros [?|?]; cbn [answered]
  | |- wp (source_context_request _ _ _ _) _ _ => apply wp_request; intros [?|?]; cbn [answered]
  | |- wp (sys_memory _ _ _) _ _ => apply wp_memory; intros [?|[? ?]]; cbn [answered]
  | |- wp (sys_open _ _ _) _ _ => apply wp_open; intros [?|?]
  | |- wp (sys_fstatfs _ _) _ _ => apply wp_fstatfs; intros [?|?]; cbn [answered]
  | |- wp (sys_fstat _ _) _ _ => apply wp_fstat; intros [?|?]; cbn [answered]
  | |- wp (sys_read _ _ _) _ _ => apply wp_read; intros [?|?]; cbn [answered]
  | |- wp (sys_close _) _ _ => apply wp_close
  | |- wp (sys_alloc _) _ _ => apply wp_alloc; intros []; cbn [negb]
  | |- wp (if ?b then _ else _) _ _ => destruct b eqn:?
  end; rewrite ?after_push, ?push_after.
Ltac wp_steps := repeat wp_step.
Ltac fds :=
  let h := fresh "h" in let x := fresh "x" in
  intros h; cbn [app open_fds vc_op]; unfold VMCTX_CONTEXT_OPEN, VMCTX_CONTEXT_CHILD, VMCTX_CONTEXT_INFO in *;
  repeat (case_match; simpl); try lia; apply gmultiset_eq; intros x;
  rewrite ?multiplicity_difference, ?multiplicity_disj_union, ?multiplicity_empty; lia.

(** The calls [evs] leave [d] more descriptors open. *)
Definition leaves (evs : list event) (d : gmultiset Z) : Prop :=
  forall h, open_fds (evs ++ h) = d ⊎ open_fds h.
Lemma leaves_app evs evs' d d' : leaves evs d -> leaves evs' d' -> leaves (evs ++ evs') (d ⊎ d').
Proof.
  intros H1 H2 h. rewrite <- app_assoc, H1, H2. apply gmultiset_eq. intros x.
  rewrite !multiplicity_disj_union. lia.
Qed.
Lemma leaves_nil : leaves [] ∅.
Proof. intros h. by rewrite (left_id_L ∅ (⊎)). Qed.

(** The calls prove that name [pid] is the task [identity], alive with memory [mm]. *)
Definition proof_of (identity pid mm : Z) (evs : list event) : Prop :=
  exists q a q' b,
    evs = [EvClose (vc_fd a); EvContext (- vc_fd a - 1) q' (inr b); EvContext pid q (inr a)] /\
    vc_op q = VMCTX_CONTEXT_OPEN /\ vc_identity a = identity /\
    vc_op q' = VMCTX_CONTEXT_INFO /\ vc_identity b = identity /\
    vc_flags b .& VMCTX_CONTEXT_ENDED = 0 /\ vc_mm_identity b = mm /\ mm <> 0.

Section facts.
Context (K : kernel) {S : Type} `{HasHistory S}.
Implicit Types (w : S).

Lemma validate_spec s pid expected w :
  wp (source_context_validate K s pid expected) (fun r w' => exists evs,
    w' = after evs w /\ leaves evs ∅ /\
    match r with
    | Ok mm => proof_of (sc_identity s) pid mm evs /\ (expected = 0 \/ mm = expected)
    | Err _ => True
    | _ => False
    end) w.
Proof.
  unfold source_context_validate, source_context_open, source_context_close, validate_probe,
    source_context_info, source_context_selector.
  wp_steps; cbn [sc_fd sc_identity] in *; rewrite ?orb_false_iff, ?orb_true_iff in *.
  all: lazymatch goal with
    | |- exists evs, after _ _ = after evs _ /\ _ => eexists; split; [done|]; split; [fds|]
    | _ => exists []; rewrite after_nil; split; [done|]; split; [apply leaves_nil|]
    end; try done.
  - split; [|lia]. eexists _, _, _, _. split; [done|]. cbn [vc_op]. repeat split; lia.
  - exfalso. lia.
Qed.

Lemma matching_spec proc w :
  wp (proc_matching K proc) (fun r w' => exists evs,
    w' = after evs w /\ leaves evs ∅ /\ exists b, r = Ok b) w.
Proof.
  unfold proc_matching. wp_step. wp_step. wp_step; wp_step; wp_step; wp_step; wp_step; wp_steps;
    try (eexists; split; [done|]; split; [fds|by eexists]).
  all: wp_step; wp_steps; try (eexists; split; [done|]; split; [fds|by eexists]).
  all: wp_step; wp_steps; try (eexists; split; [done|]; split; [fds|by eexists]).
  all: wp_step; wp_steps; (eexists; split; [done|]; split; [fds|by eexists]).
Qed.

(** The calls that found the file: the proofs around its opening. *)
Definition bracketed (s : source_context) (leaf : string) (fd mm pid : Z) (evs : list event) : Prop :=
  exists rest proc fd' before later,
    evs = later ++ EvOpen proc (proc_path pid leaf) (inr fd') :: before ++ rest /\ fd = Z.of_N fd' /\
    proof_of (sc_identity s) pid mm before /\ proof_of (sc_identity s) pid mm later.

Lemma proof_of_nonzero identity pid mm evs : proof_of identity pid mm evs -> mm <> 0.
Proof. intros (q & a & q' & b & H1). tauto. Qed.

Lemma candidates_spec s proc leaf names saved w :
  wp (proc_candidates K s proc leaf saved names) (fun r w' => exists evs,
    w' = after evs w /\
    match r with
    | Ok (inr (fd, mm, pid)) => leaves evs {[+ fd +]} /\ bracketed s leaf fd mm pid evs /\
        exists b, (b, pid) ∈ names
    | Ok (inl _) => leaves evs ∅
    | _ => False
    end) w.
Proof.
  revert saved w. induction names as [|[skip pid] rest IH]; intros saved w; cbn [proc_candidates].
  { wp_step. exists []. rewrite after_nil. split; [done|]. apply leaves_nil. }
  assert (IH' : forall evs0 saved w0, w0 = after evs0 w -> leaves evs0 ∅ ->
    wp (proc_candidates K s proc leaf saved rest) (fun r w' => exists evs,
      w' = after evs w /\
      match r with
      | Ok (inr (fd, mm, p)) => leaves evs {[+ fd +]} /\ bracketed s leaf fd mm p evs /\
          exists b, (b, p) ∈ (skip, pid) :: rest
      | Ok (inl _) => leaves evs ∅
      | _ => False
      end) w0).
  { intros evs0 sv w0 -> Hl. eapply wp_mono; [apply IH|]. intros r w' (evs & -> & Hr).
    exists (evs ++ evs0). split; [apply after_after|]. destruct r as [[e|[[fd mm] p]]| | | |]; try done.
    - rewrite <- (left_id_L ∅ (⊎) ∅). by apply leaves_app.
    - destruct Hr as (H1 & (rs & pr & fd' & bf & lt & -> & -> & Hb & Ha) & b & Hin).
      split; [|split; [|exists b; by right]].
      + rewrite <- (right_id_L ∅ (⊎) {[+ Z.of_N fd' +]}). by apply leaves_app.
      + exists (rs ++ evs0), pr, fd', bf, lt. split; [|done]. by rewrite <- app_assoc, <- app_comm_cons, <- app_assoc. }
  wp_step. { apply (IH' []); [by rewrite after_nil|apply leaves_nil]. }
  wp_step. wp_step. eapply wp_mono; [apply validate_spec|].
  intros r w1 (ev1 & -> & Hl1 & Hr1). destruct r as [before|e| | |]; try done; [|by apply (IH' ev1)].
  destruct Hr1 as [Hp1 _].
  wp_step. { wp_step. by exists ev1. }
  wp_step. wp_step. wp_step.
  { apply (IH' (EvOpen proc (proc_path pid leaf) (inl z) :: ev1)); done. }
  wp_step. wp_step. eapply wp_mono; [apply validate_spec|].
  intros r w2 (ev2 & -> & Hl2 & Hr2). rewrite after_after. destruct r as [later|e| | |]; try done.
  - wp_step. eexists. split; [done|]. destruct Hr2 as [Hp2 [Hz|Heq]].
    { by apply proof_of_nonzero in Hp1. }
    subst later. split; [|split; [|exists skip; by left]].
    + intros h. rewrite <- app_assoc, Hl2. simpl. rewrite Hl1. by rewrite !(left_id_L ∅ (⊎)).
    + exists [], proc, n, ev1, ev2. by rewrite app_nil_r.
  - wp_step. wp_step. apply (IH' (EvClose (Z.of_N n) :: ev2 ++ EvOpen proc (proc_path pid leaf) (inr n) :: ev1)).
    + done.
    + intros h. simpl. rewrite <- app_assoc, Hl2. simpl. rewrite Hl1. apply gmultiset_eq. intros x.
      rewrite !multiplicity_difference, !multiplicity_disj_union, !multiplicity_empty. lia.
Qed.

Lemma proc_open_spec s leaf w :
  wp (source_context_proc_open K s leaf) (fun r w' => exists evs,
    w' = after evs w /\
    match r with
    | Ok (fd, mm, pid) => leaves evs {[+ fd +]} /\ (pid = sc_pid s \/ pid = sc_tgid s) /\
        exists proc evs', evs = EvClose proc :: evs' /\ bracketed s leaf fd mm pid evs'
    | Err _ => leaves evs ∅
    | _ => False
    end) w.
Proof.
  unfold source_context_proc_open. wp_step.
  { wp_step. exists []. rewrite after_nil. split; [done|]. apply leaves_nil. }
  wp_step. wp_step; [eexists; split; [done|fds]|].
  wp_step. eapply wp_mono; [apply matching_spec|]. intros r w1 (ev1 & -> & Hl1 & b & ->).
  rewrite after_after. wp_step.
  { wp_steps. eexists. split; [done|]. intros h. simpl. rewrite <- app_assoc, Hl1. simpl.
    apply gmultiset_eq. intros x.
    rewrite !multiplicity_difference, !multiplicity_disj_union, !multiplicity_empty. lia. }
  wp_step. eapply wp_mono; [apply candidates_spec|]. intros r w2 (ev2 & -> & Hr).
  rewrite after_after. destruct r as [[e|[[fd mm] pid]]| | | |]; try done.
  - wp_steps. eexists. split; [done|]. intros h. simpl. rewrite <- !app_assoc, Hr, Hl1. simpl.
    apply gmultiset_eq. intros x.
    rewrite !multiplicity_difference, !multiplicity_disj_union, !multiplicity_empty. lia.
  - destruct Hr as (Hl2 & (rs & pr & fd' & bf & lt & -> & -> & Hb & Ha) & b' & Hin).
    wp_steps. eexists. split; [done|]. split; [|split].
    + intros h. cbn [app open_fds]. rewrite <- (app_assoc (lt ++ _)), Hl2. rewrite <- app_assoc, Hl1. simpl.
      apply gmultiset_eq. intros x.
      rewrite !multiplicity_difference, !multiplicity_disj_union, !multiplicity_empty. lia.
    + set_unfold in Hin. naive_solver.
    + eexists _, _. split; [done|]. eexists _, pr, fd', bf, lt. split; [|done].
      by rewrite <- app_assoc, <- app_comm_cons, <- app_assoc.
Qed.

Lemma read_retry_spec fuel fd size w :
  wp (read_retry K fuel fd size) (fun r w' => exists evs,
    w' = after evs w /\ leaves evs ∅ /\ (r = Hung -> (fuel = length evs)%nat /\
      Forall (fun ev => ev = EvRead fd size (inl EINTR)) evs) /\
    (forall bytes, r = Ok bytes -> EvRead fd size (inr bytes) ∈ evs) /\
    r <> Aborted /\ r <> Corrupt) w.
Proof.
  revert w. induction fuel as [|fuel IH]; intros w; cbn [read_retry].
  { exists []. rewrite after_nil. split; [done|]. split; [apply leaves_nil|]. done. }
  wp_step. wp_step. wp_step.
  - wp_step.
    + eapply wp_mono; [apply IH|]. intros r w' (evs & -> & Hl & Hr & Hr'). rewrite after_after.
      destruct Hr' as [Hok Hr'].
      eexists. split; [done|]. split; [|split; [|split; [|done]]].
      * intros h. rewrite <- app_assoc. rewrite Hl. done.
      * intros Hh. destruct (Hr Hh) as [-> Hev]. rewrite length_app. split; [simpl; lia|].
        apply Forall_app. split; [done|]. constructor; [|done]. f_equal. f_equal. lia.
      * intros bytes Hb. apply elem_of_app. left. by apply Hok.
    + wp_step. eexists. split; [done|]. split; [fds|done].
  - wp_step. eexists. split; [done|]. split; [fds|]. split; [done|]. split; [|done].
    intros bytes Hb. simplify_eq. by left.
Qed.

Lemma read_proc_spec fuel s leaf capacity w :
  wp (source_context_read_proc K fuel s leaf capacity) (fun r w' => exists evs,
    w' = after evs w /\
    match r with
    | Ok bytes => leaves evs ∅ /\ exists mm pid later evs', evs = later ++ evs' /\
        proof_of (sc_identity s) pid mm later /\ (pid = sc_pid s \/ pid = sc_tgid s) /\
        exists fd, EvRead fd (capacity - 1) (inr bytes) ∈ evs'
    | Err _ => leaves evs ∅
    | Hung => exists fd evs1 evs2, evs = evs1 ++ evs2 /\ length evs1 = fuel /\
        Forall (fun ev => ev = EvRead fd (capacity - 1) (inl EINTR)) evs1
    | _ => False
    end) w.
Proof.
  unfold source_context_read_proc. wp_step.
  { wp_step. exists []. rewrite after_nil. split; [done|]. apply leaves_nil. }
  wp_step. eapply wp_mono; [apply proc_open_spec|]. intros r w1 (ev1 & -> & Hr).
  destruct r as [[[fd mm] pid]| | | |]; try done; [|by exists ev1].
  destruct Hr as (Hl1 & Hpid & proc & ev1' & -> & rs & pr & fd' & bf & lt & -> & -> & Hb & Ha).
  assert (Hfd : forall evs, leaves evs ∅ -> leaves (EvClose (Z.of_N fd') :: evs ++ EvClose proc ::
      lt ++ EvOpen pr (proc_path pid leaf) (inr fd') :: bf ++ rs) ∅).
  { intros evs Hl h. cbn [app open_fds]. rewrite <- app_assoc, Hl, Hl1. apply gmultiset_eq. intros x.
    rewrite !multiplicity_difference, !multiplicity_disj_union, !multiplicity_empty. lia. }
  wp_step. wp_step. eapply wp_mono; [apply read_retry_spec|].
  intros r w2 (ev2 & -> & Hl2 & Hh & Hok & Hr & Hr'). rewrite after_after.
  destruct r as [bytes|e| | |]; try done.
  - wp_step. wp_step. wp_step. eapply wp_mono; [apply validate_spec|].
    intros r w3 (ev3 & -> & Hl3 & Hr3). rewrite after_after. destruct r as [mm'|e| | |]; try done.
    + wp_step. eexists. split; [done|]. destruct Hr3 as [Hp _]. split.
      * rewrite <- (left_id_L ∅ (⊎) ∅). by apply leaves_app, Hfd.
      * exists mm', pid, ev3. eexists. split; [done|]. split; [done|]. split; [done|].
        exists (Z.of_N fd'). right. apply elem_of_app. left. by apply Hok.
    + eexists. split; [done|]. rewrite <- (left_id_L ∅ (⊎) ∅). by apply leaves_app, Hfd.
  - wp_steps. eexists. split; [done|]. by apply Hfd.
  - eexists. split; [done|]. destruct (Hh eq_refl) as [-> Hev]. eauto 6.
Qed.
End facts.

(** ** Properties *)

(** Reading a file of a retained task through /proc, for every kernel: when
    [source_context_proc_open] succeeds, exactly one descriptor more is open,
    and its opening by one of the task's two candidate names lies between two
    complete proofs that this name was the retained task, alive with the
    reported memory identity; when it fails, no descriptor is left open.
    [source_context_read_proc] leaves none open in either case and returns
    bytes only when such a proof follows the read; it fails to return only if
    every read was interrupted. *)
Theorem proc_open_proves_identity K s leaf fuel capacity (h : history) :
  (let '(r, h') := source_context_proc_open K s leaf h in
   match r with
   | Ok (fd, mm, pid) =>
       open_fds h' = {[+ fd +]} ⊎ open_fds h /\ (pid = sc_pid s \/ pid = sc_tgid s) /\
       exists proc evs, h' = EvClose proc :: evs ++ h /\ bracketed s leaf fd mm pid evs
   | Err _ => open_fds h' = open_fds h
   | _ => False
   end) /\
  (let '(r, h') := source_context_read_proc K fuel s leaf capacity h in
   match r with
   | Ok bytes =>
       open_fds h' = open_fds h /\
       exists mm pid later evs, h' = later ++ evs ++ h /\ proof_of (sc_identity s) pid mm later /\
         (pid = sc_pid s \/ pid = sc_tgid s) /\ exists fd, EvRead fd (capacity - 1) (inr bytes) ∈ evs
   | Err _ => open_fds h' = open_fds h
   | Hung => exists fd evs1 evs2, h' = evs1 ++ evs2 ++ h /\ length evs1 = fuel /\
       Forall (fun ev => ev = EvRead fd (capacity - 1) (inl EINTR)) evs1
   | _ => False
   end).
Proof.
  split.
  - destruct (source_context_proc_open K s leaf h) as [r h'] eqn:Hr.
    apply (wp_run _ _ _ _ _ (proc_open_spec K s leaf h)) in Hr as (evs & -> & Hr).
    change (after evs h) with (evs ++ h). destruct r as [[[fd mm] pid]|e| | |]; try done.
    + destruct Hr as (Hl & Hp & proc & evs' & -> & Hb). split; [apply Hl|]. split; [done|].
      by exists proc, evs'.
    + by rewrite Hr, (left_id_L ∅ (⊎)).
  - destruct (source_context_read_proc K fuel s leaf capacity h) as [r h'] eqn:Hr.
    apply (wp_run _ _ _ _ _ (read_proc_spec K fuel s leaf capacity h)) in Hr as (evs & -> & Hr).
    change (after evs h) with (evs ++ h). destruct r as [bytes|e| | |]; try done.
    + destruct Hr as (Hl & mm & pid & lt & evs' & -> & Hp). split; [by rewrite Hl, (left_id_L ∅ (⊎))|].
      exists mm, pid, lt, evs'. by rewrite <- app_assoc.
    + by rewrite Hr, (left_id_L ∅ (⊎)).
    + destruct Hr as (fd & e1 & e2 & -> & Hlen & Hev). exists fd, e1, e2. by rewrite <- app_assoc.
Qed.
End SourceContext.
