(* ===== verification/SourceRegistry.v ===== *)
(** * The registry of source contexts (user/source-registry.h)

    Source ids index records that are never removed: a record counts its
    references, retires its native descriptor with the last one, and keeps the
    history of the memory images its task was seen with.  Every function enters
    the registry in sections under one lock; the sections are named
    definitions, the functions compose them with the native calls made outside
    the lock, and the step relation interleaves the sections of any number of
    threads. *)
From S2P Require Import Prelude Native SourceContext.
Open Scope Z_scope.

Module SourceRegistry.
Import SourceContext.

(** A published image: memory identity and epoch. *)
Record source_mm_binding := mk_mm_binding { bd_mm : Z; bd_epoch : Z }.
#[global] Instance source_mm_binding_eq_dec : EqDecision source_mm_binding.
Proof. solve_decision. Defined.
(** [sr_binding] lists the bindings newest first. *)
Record source_record := mk_record {
  sr_native : source_context; sr_info : vmctx_context; sr_binding : list source_mm_binding;
  sr_refs : Z; sr_retiring : bool; sr_info_error : Z; sr_claimed : bool }.
Definition context_zero : vmctx_context := mk_context 0 0 0 0 0 0 0 0 0 0 0.
Definition record_zero : source_record := mk_record no_source context_zero [] 0 false 0 false.

Definition with_native (n : source_context) (r : source_record) : source_record :=
  mk_record n (sr_info r) (sr_binding r) (sr_refs r) (sr_retiring r) (sr_info_error r) (sr_claimed r).
Definition with_refs (n : Z) (retiring : bool) (r : source_record) : source_record :=
  mk_record (sr_native r) (sr_info r) (sr_binding r) n retiring (sr_info_error r) (sr_claimed r).
Definition with_info (info : vmctx_context) (bs : list source_mm_binding) (r : source_record) : source_record :=
  mk_record (sr_native r) info bs (sr_refs r) (sr_retiring r) (sr_info_error r) (sr_claimed r).
Definition with_error (e : Z) (r : source_record) : source_record :=
  mk_record (sr_native r) (sr_info r) (sr_binding r) (sr_refs r) (sr_retiring r) e (sr_claimed r).
Definition with_claimed (r : source_record) : source_record :=
  mk_record (sr_native r) (sr_info r) (sr_binding r) (sr_refs r) (sr_retiring r) (sr_info_error r) true.

(** The id of a record is its index plus one. *)
Record world := mk_world { w_history : history; w_records : list source_record; w_capacity : Z }.
#[global] Program Instance world_history : HasHistory world :=
  {| get_history := w_history; set_history := fun h w => mk_world h (w_records w) (w_capacity w) |}.
Next Obligation. done. Qed.
Next Obligation. done. Qed.
Next Obligation. by intros []. Qed.

Definition set_records (rs : list source_record) : prog world unit := fun w =>
  (Ok (), mk_world (w_history w) rs (w_capacity w)).
Definition set_capacity (n : Z) : prog world unit := fun w =>
  (Ok (), mk_world (w_history w) (w_records w) n).
Definition get_records : prog world (list source_record) := fun w => (Ok (w_records w), w).
Definition get_capacity : prog world Z := fun w => (Ok (w_capacity w), w).
Definition get_record (i : nat) : prog world source_record := fun w =>
  match w_records w !! i with Some r => (Ok r, w) | None => (Corrupt, w) end.
Definition put_record (i : nat) (r : source_record) : prog world unit := fun w =>
  (Ok (), mk_world (w_history w) (<[i := r]> (w_records w)) (w_capacity w)).

Section registry.
Context (K : kernel).
Local Abbreviation M := (prog world).

Definition binding_epoch (r : source_record) : Z :=
  match sr_binding r with b :: _ => bd_epoch b | [] => 0 end.

(** The record as changed; nothing is changed when it fails. *)
Definition source_record_cache (record : source_record) (info : vmctx_context) : M source_record :=
  if nz (vc_flags (sr_info record) .& VMCTX_CONTEXT_ENDED) then mret record
  else if vc_mm_identity info <? vc_mm_identity (sr_info record) then
    if nz (vc_flags info .& VMCTX_CONTEXT_ENDED) then fail EPROTO else mret record
  else if nz (vc_mm_identity info) &&
          (match sr_binding record with [] => true | b :: _ => negb (vc_mm_identity info =? bd_mm b) end)
  then
    if (match sr_binding record with [] => false | b :: _ => bd_epoch b =? U64MAX end) then fail EOVERFLOW
    else
      ok ← sys_alloc K;
      if negb (ok : bool) then fail ENOMEM
      else
        mret (with_info info
          (mk_mm_binding (vc_mm_identity info)
             (match sr_binding record with [] => 1 | b :: _ => u64 (bd_epoch b + 1) end) :: sr_binding record)
          record)
  else mret (with_info info (sr_binding record) record).

(** The section of [source_record_add]. *)
Definition add_grow : M unit :=
  rs ← get_records; cap ← get_capacity;
  if Z.of_nat (length rs) =? cap then
    let capacity := if nz cap then cap * 2 else 64 in
    let capacity := if I32MAX <? capacity then I32MAX else capacity in
    if U64MAX / 8 <? capacity then fail EOVERFLOW
    else ok ← sys_alloc K; if negb (ok : bool) then fail ENOMEM else set_capacity capacity
  else mret ().
Definition add_locked (native : source_context) (info : vmctx_context) : M Z :=
  rs ← get_records;
  if I32MAX <=? Z.of_nat (length rs) then fail EOVERFLOW
  else
    add_grow;;
    record ← source_record_cache record_zero info;
    set_records (rs ++ [with_native native (with_refs 1 false record)]);;
    mret (Z.of_nat (length rs) + 1).
(** The descriptor is consumed on every outcome. *)
Definition source_record_add (native : source_context) : M Z :=
  info ← attempt (source_context_info K native);
  match info with
  | inl e => source_context_close native;; fail e
  | inr info =>
      let native :=
        if negb (nz (vc_flags info .& VMCTX_CONTEXT_ENDED)) && nz (vc_native_tgid info)
        then mk_source (sc_fd native) (sc_pid native) (i32 (vc_native_tgid info)) (sc_identity native)
        else native in
      ok ← sys_alloc K;
      if negb (ok : bool) then source_context_close native;; fail ENOMEM
      else
        r ← attempt (add_locked native info);
        match r with
        | inr id => source_context_close no_source;; mret id
        | inl e => source_context_close native;; fail e
        end
  end.

(** An id as an index of the table. *)
Definition id_index (id : Z) (rs : list source_record) : option nat :=
  if (id <=? 0) || (Z.of_nat (length rs) <? id) then None else Some (Z.to_nat (id - 1)).

Definition source_record_get (id : Z) : M nat :=
  rs ← get_records;
  match id_index id rs with
  | None => fail ESRCH
  | Some i =>
      r ← get_record i;
      if (sr_refs r =? 0) || sr_retiring r then fail ESRCH
      else if sr_refs r =? U32MAX then fail EOVERFLOW
      else put_record i (with_refs (u32 (sr_refs r + 1)) (sr_retiring r) r);; mret i
  end.

Definition source_record_claim (id : Z) : M unit :=
  rs ← get_records;
  match id_index id rs with
  | None => fail ESRCH
  | Some i =>
      r ← get_record i;
      if (sr_refs r =? 0) || sr_retiring r then fail ESRCH
      else if sr_claimed r then fail EALREADY
      else put_record i (with_claimed r)
  end.

(** The two sections of [source_record_put]; the first says whether the second
    is due. *)
Definition put_drop (i : nat) : M bool :=
  r ← get_record i;
  if (sr_refs r =? 0) || sr_retiring r then stop Aborted
  else
    let refs := u32 (sr_refs r - 1) in
    if nz refs then put_record i (with_refs refs (sr_retiring r) r);; mret false
    else put_record i (with_refs refs true r);; mret true.
Definition put_publish (i : nat) (info : Z + vmctx_context) : M unit :=
  r ← get_record i;
  match info with
  | inl e => put_record i (with_error e (with_refs (sr_refs r) false r))
  | inr info =>
      c ← attempt (source_record_cache r info);
      match c with
      | inl e => put_record i (with_error e (with_refs (sr_refs r) false r))
      | inr r => put_record i (with_error 0 (with_refs (sr_refs r) false r))
      end
  end.
(** The native part between them. *)
Definition put_native (i : nat) : M (Z + vmctx_context) :=
  r ← get_record i;
  info ← attempt (source_context_info K (sr_native r));
  native ← source_context_close (sr_native r);
  r ← get_record i;
  put_record i (with_native native r);;
  mret info.
Definition source_record_put (i : nat) : M unit :=
  last ← put_drop i;
  if last : bool then info ← put_native i; put_publish i info else mret ().

(** The section of [source_record_snapshot] for a record without references. *)
Definition snapshot_retired (id : Z) : M (vmctx_context * Z) :=
  rs ← get_records;
  match id_index id rs with
  | None => fail ESRCH
  | Some i =>
      r ← get_record i;
      let error :=
        if nz (sr_refs r) then EOVERFLOW else if sr_retiring r then EAGAIN else sr_info_error r in
      let error :=
        if (error =? 0) && negb (nz (vc_flags (sr_info r) .& VMCTX_CONTEXT_ENDED))
        then ESHUTDOWN else error in
      if nz error then fail error else mret (sr_info r, binding_epoch r)
  end.
(** Its section that accepts an answer of the kernel. *)
Definition snapshot_accept (i : nat) (info : vmctx_context) : M (vmctx_context * Z) :=
  r ← get_record i;
  r ← source_record_cache r info;
  put_record i r;; mret (sr_info r, binding_epoch r).
Definition source_record_snapshot (id : Z) : M (vmctx_context * Z) :=
  g ← attempt (source_record_get id);
  match g with
  | inl _ => snapshot_retired id
  | inr i =>
      r ← get_record i;
      result ← attempt (info ← source_context_info K (sr_native r); snapshot_accept i info);
      source_record_put i;;
      match result with inl e => fail e | inr x => mret x end
  end.
Definition source_record_info (id : Z) : M vmctx_context :=
  '(info, _) ← source_record_snapshot id; mret info.

Definition source_record_has_binding (id mm epoch : Z) : M bool :=
  rs ← get_records;
  match id_index id rs with
  | Some i =>
      r ← get_record i;
      mret (nz mm && nz epoch && bool_decide (mk_mm_binding mm epoch ∈ sr_binding r))
  | None => mret false
  end.

Definition source_record_release (id : Z) : M unit :=
  rs ← get_records;
  match id_index id rs with
  | None => stop Aborted
  | Some i => source_record_put i
  end.

(** Borrowing a record around a native call. *)
Definition borrowed {A} (id : Z) (f : source_context -> M A) : M A :=
  i ← source_record_get id;
  r ← get_record i;
  result ← attempt (f (sr_native r));
  source_record_put i;;
  match result with inl e => fail e | inr x => mret x end.

Definition source_record_ctl (id command argument : Z) : M Z :=
  if id =? 0 then sys_control K 0 command argument
  else borrowed id (fun native => sys_control K (source_context_selector native) command argument).
Definition source_record_memory (id expected_mm command argument : Z) : M Z :=
  if (id =? 0) || (expected_mm =? 0) then fail EINVAL
  else borrowed id (fun native => source_memory_call K native expected_mm command argument).
Definition source_record_signal (id sig : Z) : M unit :=
  borrowed id (fun native => source_context_signal K native sig).
Definition source_record_proc_open (id : Z) (leaf : string) : M (Z * Z) :=
  borrowed id (fun native =>
    '(fd, mm, _) ← source_context_proc_open K native leaf; mret (fd, mm)).
Definition source_record_read_proc (fuel : nat) (id : Z) (leaf : string) (capacity : Z) : M (list Z) :=
  borrowed id (fun native => source_context_read_proc K fuel native leaf capacity).
End registry.

(** ** Records *)

(** The history of images: epochs count from 1, identities increase, and the
    newest is the one the record reports. *)
Definition binding_ok (r : source_record) : Prop :=
  (forall k b, sr_binding r !! k = Some b ->
     bd_epoch b = Z.of_nat (length (sr_binding r)) - Z.of_nat k /\ 0 < bd_mm b) /\
  Z.of_nat (length (sr_binding r)) <= U64MAX /\
  (forall k b b', sr_binding r !! k = Some b -> sr_binding r !! S k = Some b' -> bd_mm b' < bd_mm b) /\
  match sr_binding r with
  | [] => vc_mm_identity (sr_info r) = 0
  | b :: _ => vc_mm_identity (sr_info r) = bd_mm b
  end.
(** What a record may become. *)
Definition rec_le (r r' : source_record) : Prop :=
  sr_binding r `suffix_of` sr_binding r' /\
  (vc_flags (sr_info r) .& VMCTX_CONTEXT_ENDED <> 0 -> sr_info r' = sr_info r).
#[global] Instance rec_le_preorder : PreOrder rec_le.
Proof.
  split; [by intros r; split|]. intros r1 r2 r3 [H1 H2] [H3 H4]. split; [by etrans|].
  intros He. rewrite H4; auto. by rewrite H2.
Qed.
(** The part of a record that caching an answer leaves alone. *)
Definition same_handle (r r' : source_record) : Prop :=
  sr_native r' = sr_native r /\ sr_refs r' = sr_refs r /\ sr_retiring r' = sr_retiring r /\
  sr_claimed r' = sr_claimed r.

Lemma record_zero_ok : binding_ok record_zero.
Proof. split; [done|]. split; [done|]. by split. Qed.

Lemma binding_ok_push info bs r :
  binding_ok r -> sr_binding r = bs -> Z.of_nat (length bs) < U64MAX ->
  vc_mm_identity (sr_info r) < vc_mm_identity info ->
  binding_ok (with_info info (mk_mm_binding (vc_mm_identity info) (Z.of_nat (length bs) + 1) :: bs) r).
Proof.
  intros (H1 & H2 & H3 & H4) <- Hlen Hmm.
  assert (Hpos : 0 < vc_mm_identity info).
  { destruct (sr_binding r) as [|b bs]; [lia|]. destruct (H1 0%nat b eq_refl). lia. }
  split; [|split; [simpl; lia|split; [|done]]]; cbn [sr_binding with_info].
  - intros [|k] b Hk; simpl in Hk; [simplify_eq; simpl; lia|]. destruct (H1 k b Hk). simpl. lia.
  - intros [|k] b b' Hk Hk'; simpl in Hk, Hk'; [|by eapply H3].
    simplify_eq. cbn [bd_mm]. destruct (sr_binding r) as [|b0 bs]; [done|]. simpl in Hk'. simplify_eq. lia.
Qed.

Lemma cache_spec K r info (w : world) :
  binding_ok r ->
  wp (source_record_cache K r info) (fun res w' => exists evs, w' = after evs w /\
    match res with
    | Ok r' => binding_ok r' /\ rec_le r r' /\ same_handle r r'
    | Err _ => True
    | _ => False
    end) w.
Proof.
  intros Hok. pose proof Hok as (H1 & H2 & H3 & H4). unfold source_record_cache.
  assert (Hsame : exists evs, w = after evs w /\ binding_ok r /\ rec_le r r /\ same_handle r r).
  { exists []. rewrite after_nil. done. }
  assert (Herr : exists evs : history, w = after evs w /\ True) by (exists []; by rewrite after_nil).
  wp_step; [by wp_step|]. apply negb_false_iff, Z.eqb_eq in Heqb.
  wp_step; [wp_step; by wp_step|].
  wp_step.
  - wp_step; [by wp_step|]. wp_step. wp_step; [|by wp_step; eexists].
    wp_step. eexists. split; [done|]. split; [|split].
    + assert (Z.of_nat (length (sr_binding r)) < U64MAX /\
        match sr_binding r with [] => 1 | b :: _ => u64 (bd_epoch b + 1) end = Z.of_nat (length (sr_binding r)) + 1 /\
        vc_mm_identity (sr_info r) < vc_mm_identity info) as (Hl & -> & Hm).
      { destruct (sr_binding r) as [|b bs] eqn:Hb; simpl in *.
        - split; [done|]. split; [done|]. lia.
        - destruct (H1 0%nat b eq_refl) as [He _]. rewrite u64_small; unfold is_u64; lia. }
      by apply binding_ok_push.
    + split; [|done]. by apply suffix_cons_r.
    + done.
  - wp_step. exists []. rewrite after_nil. split; [done|]. split; [|split; [|done]].
    + split; [done|]. split; [done|]. split; [done|]. simpl. destruct (sr_binding r) as [|b bs]; simpl in *; [lia|].
      destruct (H1 0%nat b eq_refl). lia.
    + split; [done|]. done.
Qed.

(** ** Threads

    A token is what one thread owns: a reference, or the retirement of a record
    whose last reference it dropped, before and after the native calls. *)
Inductive token := Ref (i : nat) | Closing (i : nat) | Publishing (i : nat) (info : Z + vmctx_context).
Definition is_ref (i : nat) (t : token) : bool := match t with Ref j => bool_decide (i = j) | _ => false end.
Definition is_closing (i : nat) (t : token) : bool :=
  match t with Closing j => bool_decide (i = j) | _ => false end.
Definition is_publishing (i : nat) (t : token) : bool :=
  match t with Publishing j _ => bool_decide (i = j) | _ => false end.
Definition owned (p : token -> bool) (ts : list token) : Z := Z.of_nat (length (filter (fun t => p t) ts)).
Lemma owned_app p ts ts' : owned p (ts ++ ts') = owned p ts + owned p ts'.
Proof. unfold owned. rewrite filter_app, length_app. lia. Qed.
Lemma owned_cons p t ts : owned p (t :: ts) = (if p t then 1 else 0) + owned p ts.
Proof. unfold owned. rewrite filter_cons. destruct (p t); simpl; lia. Qed.
Lemma owned_nonneg p ts : 0 <= owned p ts.
Proof. unfold owned. lia. Qed.
Lemma owned_in p t ts : t ∈ ts -> p t = true -> 0 < owned p ts.
Proof.
  intros (l1 & l2 & ->)%list_elem_of_split Hp. rewrite owned_app, owned_cons, Hp.
  pose proof (owned_nonneg p l1). pose proof (owned_nonneg p l2). lia.
Qed.

Lemma wp_get_record i x Q (w : world) :
  w_records w !! i = Some x -> Q (Ok x) w -> wp (get_record i) Q w.
Proof. unfold wp, get_record. by intros ->. Qed.
Lemma wp_put_record i x (Q : result unit -> world -> Prop) w :
  Q (Ok ()) (mk_world (w_history w) (<[i := x]> (w_records w)) (w_capacity w)) -> wp (put_record i x) Q w.
Proof. done. Qed.
Lemma wp_get_records (Q : result _ -> world -> Prop) w : Q (Ok (w_records w)) w -> wp get_records Q w.
Proof. done. Qed.
Lemma wp_get_capacity (Q : result _ -> world -> Prop) w : Q (Ok (w_capacity w)) w -> wp get_capacity Q w.
Proof. done. Qed.
Lemma wp_set_records rs (Q : result unit -> world -> Prop) w :
  Q (Ok ()) (mk_world (w_history w) rs (w_capacity w)) -> wp (set_records rs) Q w.
Proof. done. Qed.
Lemma wp_set_capacity n (Q : result unit -> world -> Prop) w :
  Q (Ok ()) (mk_world (w_history w) (w_records w) n) -> wp (set_capacity n) Q w.
Proof. done. Qed.

Section threads.
Context (K : kernel).

Inductive reg_step : world * list token -> world * list token -> Prop :=
| rs_other h w ts : reg_step (w, ts) (set_history h w, ts)
| rs_add native info w ts r w' :
    0 <= sc_fd native -> add_locked K native info w = (r, w') ->
    reg_step (w, ts) (w', match r with Ok id => Ref (Z.to_nat (id - 1)) :: ts | _ => ts end)
| rs_get id w ts r w' :
    source_record_get id w = (r, w') ->
    reg_step (w, ts) (w', match r with Ok i => Ref i :: ts | _ => ts end)
| rs_claim id w ts r w' : source_record_claim id w = (r, w') -> reg_step (w, ts) (w', ts)
| rs_accept i info w ts r w' :
    Ref i ∈ ts -> snapshot_accept K i info w = (r, w') -> reg_step (w, ts) (w', ts)
| rs_drop i ts1 ts2 w b w' :
    put_drop i w = (Ok b, w') ->
    reg_step (w, ts1 ++ Ref i :: ts2) (w', (if b : bool then [Closing i] else []) ++ ts1 ++ ts2)
| rs_native i ts1 ts2 w info w' :
    put_native K i w = (Ok info, w') ->
    reg_step (w, ts1 ++ Closing i :: ts2) (w', Publishing i info :: ts1 ++ ts2)
| rs_publish i info ts1 ts2 w r w' :
    put_publish K i info w = (r, w') ->
    reg_step (w, ts1 ++ Publishing i info :: ts2) (w', ts1 ++ ts2).

(** A record with [a] references, [c] threads about to close and [p] about to
    publish. *)
Definition handle_ok (r : source_record) (a c p : Z) : Prop :=
  sr_refs r = a /\ a <= U32MAX /\ c + p = (if sr_retiring r then 1 else 0) /\
  (sr_retiring r = true -> a = 0) /\ (0 <= sc_fd (sr_native r) <-> 0 < a \/ c = 1).
Definition reg_ok (x : world * list token) : Prop :=
  (forall i r, w_records x.1 !! i = Some r ->
     handle_ok r (owned (is_ref i) x.2) (owned (is_closing i) x.2) (owned (is_publishing i) x.2) /\
     binding_ok r) /\
  (forall i, (length (w_records x.1) <= i)%nat ->
     owned (is_ref i) x.2 = 0 /\ owned (is_closing i) x.2 = 0 /\ owned (is_publishing i) x.2 = 0).

Definition grows (w w' : world) : Prop := forall i r, w_records w !! i = Some r ->
  exists r', w_records w' !! i = Some r' /\ rec_le r r'.
#[global] Instance grows_preorder : PreOrder grows.
Proof.
  split; [by intros w i r Hi; exists r|]. intros w1 w2 w3 H12 H23 i r Hi.
  destruct (H12 i r Hi) as (r2 & H2 & Hle). destruct (H23 i r2 H2) as (r3 & H3 & Hle').
  exists r3. split; [done|]. by etrans.
Qed.

(** A section that changes record [i] alone. *)
Lemma reg_update w ts i r r' ts' h c :
  reg_ok (w, ts) -> w_records w !! i = Some r ->
  (forall j, j <> i -> owned (is_ref j) ts' = owned (is_ref j) ts /\
     owned (is_closing j) ts' = owned (is_closing j) ts /\
     owned (is_publishing j) ts' = owned (is_publishing j) ts) ->
  handle_ok r' (owned (is_ref i) ts') (owned (is_closing i) ts') (owned (is_publishing i) ts') ->
  binding_ok r' -> rec_le r r' ->
  reg_ok (mk_world h (<[i := r']> (w_records w)) c, ts') /\ grows w (mk_world h (<[i := r']> (w_records w)) c).
Proof.
  intros [Hr Hout] Hi Hts Hh Hb Hle. split; [split; simpl in *|].
  - intros j rj Hj. apply list_lookup_insert_Some in Hj as [(-> & <- & _)|[Hne Hj]]; [done|].
    destruct (Hts j) as (-> & -> & ->); [done|]. by apply Hr.
  - intros j Hj. rewrite length_insert in Hj. assert (j <> i).
    { apply lookup_lt_Some in Hi. lia. }
    destruct (Hts j) as (-> & -> & ->); [done|]. by apply Hout.
  - intros j rj Hj. simpl. destruct (decide (j = i)) as [->|Hne].
    + simplify_eq. exists r'. split; [|done]. apply list_lookup_insert_eq. by eapply lookup_lt_Some.
    + exists rj. split; [|done]. by rewrite list_lookup_insert_ne.
Qed.
(** One that changes none. *)
Lemma reg_keep w ts h c : reg_ok (w, ts) ->
  reg_ok (mk_world h (w_records w) c, ts) /\ grows w (mk_world h (w_records w) c).
Proof. intros Hok. split; [done|]. intros i r Hi. by exists r. Qed.

Lemma id_index_spec id rs i : id_index id rs = Some i -> (i < length rs)%nat /\ id = Z.of_nat i + 1.
Proof. unfold id_index. intros Hi. case_match; simplify_eq. lia. Qed.

(** Inversion of the sections. *)
Lemma get_inv id w r w' :
  source_record_get id w = (r, w') ->
  (w' = w /\ exists e, r = Err e) \/
  exists i x, r = Ok i /\ id = Z.of_nat i + 1 /\ w_records w !! i = Some x /\
    sr_refs x <> 0 /\ sr_retiring x = false /\ sr_refs x <> U32MAX /\
    w' = mk_world (w_history w) (<[i := with_refs (u32 (sr_refs x + 1)) false x]> (w_records w)) (w_capacity w).
Proof.
  unfold source_record_get, mbind, prog_bind, get_records, get_record, put_record, fail, mret, prog_ret.
  destruct (id_index id (w_records w)) as [i|] eqn:Hid; [|intros; simplify_eq; eauto].
  apply id_index_spec in Hid as [Hlt ->]. destruct (lookup_lt_is_Some_2 _ _ Hlt) as [x Hx]. rewrite Hx.
  destruct (sr_refs x =? 0) eqn:H0; simpl; [intros; simplify_eq; eauto|].
  destruct (sr_retiring x) eqn:H1; simpl; [intros; simplify_eq; eauto|].
  destruct (sr_refs x =? U32MAX) eqn:H2; simpl; intros; simplify_eq; [eauto|]. right.
  exists i, x. split; [done|]. split; [done|]. split; [done|]. split; [lia|]. split; [done|]. split; [lia|]. done.
Qed.
Lemma claim_inv id w r w' :
  source_record_claim id w = (r, w') ->
  w' = w \/ exists i x, w_records w !! i = Some x /\ sr_claimed x = false /\
    w' = mk_world (w_history w) (<[i := with_claimed x]> (w_records w)) (w_capacity w).
Proof.
  unfold source_record_claim, mbind, prog_bind, get_records, get_record, put_record, fail, mret, prog_ret.
  destruct (id_index id (w_records w)) as [i|] eqn:Hid; [|intros; simplify_eq; eauto].
  destruct (w_records w !! i) as [x|] eqn:Hx; [|intros; simplify_eq; eauto].
  destruct (_ || _); [intros; simplify_eq; eauto|]. destruct (sr_claimed x) eqn:Hc; intros; simplify_eq; [eauto|].
  right. eauto.
Qed.
Lemma drop_inv i w r w' :
  put_drop i w = (r, w') ->
  match w_records w !! i with
  | None => r = Corrupt /\ w' = w
  | Some x =>
      if (sr_refs x =? 0) || sr_retiring x then r = Aborted /\ w' = w
      else exists b, r = Ok b /\
        b = (u32 (sr_refs x - 1) =? 0) /\
        w' = mk_world (w_history w) (<[i := with_refs (u32 (sr_refs x - 1)) b x]> (w_records w)) (w_capacity w)
  end.
Proof.
  unfold put_drop, mbind, prog_bind, get_record, put_record, stop, mret, prog_ret.
  destruct (w_records w !! i) as [x|] eqn:Hx; [|by intros; simplify_eq].
  destruct ((sr_refs x =? 0) || sr_retiring x) eqn:Hb; [by intros; simplify_eq|].
  apply orb_false_iff in Hb as [_ Hret]. rewrite Hret.
  destruct (u32 (sr_refs x - 1) =? 0) eqn:H0; simpl; intros; simplify_eq; eauto.
Qed.
Lemma accept_inv i info w r w' x :
  snapshot_accept K i info w = (r, w') -> w_records w !! i = Some x -> binding_ok x ->
  (w_records w' = w_records w /\ exists e, r = Err e) \/
  exists y h, r = Ok (sr_info y, binding_epoch y) /\ binding_ok y /\ rec_le x y /\ same_handle x y /\
    w' = mk_world h (<[i := y]> (w_records w)) (w_capacity w).
Proof.
  intros Ha Hx Hok. unfold snapshot_accept, mbind, prog_bind, get_record, put_record, mret, prog_ret in Ha.
  rewrite Hx in Ha. destruct (source_record_cache K x info w) as [c w1] eqn:Hc.
  apply (wp_run _ _ _ _ _ (cache_spec K x info w Hok)) in Hc as (evs & -> & Hc).
  destruct c as [y|e| | |]; try done; simplify_eq; [|left; eauto].
  right. destruct Hc as (H1 & H2 & H3). exists y. eexists.
  split; [done|]. split; [done|]. split; [done|]. split; [done|]. reflexivity.
Qed.

Lemma native_inv i w r w' x :
  put_native K i w = (r, w') -> w_records w !! i = Some x -> 0 <= sc_fd (sr_native x) ->
  exists info h, r = Ok info /\
    w' = mk_world h (<[i := with_native no_source x]> (w_records w)) (w_capacity w).
Proof.
  intros Hn Hx Hfd.
  assert (Hs : wp (put_native K i) (fun r w' => exists info h, r = Ok info /\
    w' = mk_world h (<[i := with_native no_source x]> (w_records w)) (w_capacity w)) w).
  { unfold put_native, source_context_info, source_context_close. wp_step. apply (wp_get_record _ x); [done|].
    assert (Hlast : forall evs info, wp (native ← (if 0 <=? sc_fd (sr_native x)
        then sys_close (sc_fd (sr_native x)) else mret ());; mret no_source;
        r ← get_record i; put_record i (with_native native r);; mret (info : Z + vmctx_context))
      (fun r w' => exists info h, r = Ok info /\
         w' = mk_world h (<[i := with_native no_source x]> (w_records w)) (w_capacity w)) (after evs w)).
    { intros evs info. rewrite (proj2 (Z.leb_le _ _) Hfd). wp_steps. apply (wp_get_record _ x); [done|].
      wp_step. apply wp_put_record. wp_step. eauto. }
    wp_step. wp_step. wp_step; [exfalso; lia|]. wp_step. wp_step; [apply Hlast|].
    wp_step; wp_step; apply Hlast. }
  by apply (wp_run _ _ _ _ _ Hs).
Qed.
Lemma publish_inv i info w r w' x :
  put_publish K i info w = (r, w') -> w_records w !! i = Some x -> binding_ok x ->
  exists y e h, r = Ok () /\ binding_ok y /\ rec_le x y /\
    sr_native y = sr_native x /\ sr_refs y = sr_refs x /\ sr_claimed y = sr_claimed x /\
    w' = mk_world h (<[i := with_error e (with_refs (sr_refs x) false y)]> (w_records w)) (w_capacity w).
Proof.
  intros Hp Hx Hok. unfold put_publish, mbind, prog_bind, attempt, get_record, put_record in Hp. rewrite Hx in Hp.
  destruct info as [e|info].
  { simplify_eq. exists x, e. eexists. repeat (split; [done|]). reflexivity. }
  destruct (source_record_cache K x info w) as [c w1] eqn:Hc.
  apply (wp_run _ _ _ _ _ (cache_spec K x info w Hok)) in Hc as (evs & -> & Hc).
  destruct c as [y|e| | |]; try done; simplify_eq.
  - destruct Hc as (H1 & H2 & (H3 & H4 & H5 & H6)). exists y, 0. eexists. rewrite <- H4.
    repeat (split; [done|]). reflexivity.
  - exists x, e. eexists. repeat (split; [done|]). reflexivity.
Qed.
Lemma add_inv native info w r w' :
  add_locked K native info w = (r, w') ->
  (w_records w' = w_records w /\ exists e, r = Err e) \/
  exists y h c, r = Ok (Z.of_nat (length (w_records w)) + 1) /\ binding_ok y /\
    w' = mk_world h (w_records w ++ [with_native native (with_refs 1 false y)]) c.
Proof.
  intros Ha.
  assert (Hs : wp (add_locked K native info) (fun r w' =>
    (w_records w' = w_records w /\ exists e, r = Err e) \/
    exists y h c, r = Ok (Z.of_nat (length (w_records w)) + 1) /\ binding_ok y /\
      w' = mk_world h (w_records w ++ [with_native native (with_refs 1 false y)]) c) w).
  { unfold add_locked, add_grow. wp_step. apply wp_get_records.
    wp_step; [wp_step; left; eauto|].
    assert (Hlast : forall w1, w_records w1 = w_records w ->
      wp (record ← source_record_cache K record_zero info;
          set_records (w_records w ++ [with_native native (with_refs 1 false record)]);;
          mret (Z.of_nat (length (w_records w)) + 1)) (fun r w' =>
        (w_records w' = w_records w /\ exists e, r = Err e) \/
        exists y h c, r = Ok (Z.of_nat (length (w_records w)) + 1) /\ binding_ok y /\
          w' = mk_world h (w_records w ++ [with_native native (with_refs 1 false y)]) c) w1).
    { intros w1 Hw1. wp_step. eapply wp_mono; [apply cache_spec, record_zero_ok|].
      intros c w2 (evs & -> & Hc). destruct c as [y|e| | |]; try done; [|left; eauto].
      wp_step. apply wp_set_records. wp_step. right.
      exists y. eexists _, _. split; [done|]. split; [apply Hc|]. reflexivity. }
    wp_step. wp_step. apply wp_get_records.
    wp_step. apply wp_get_capacity.
    wp_step; [|wp_step; by apply Hlast].
    wp_step; [wp_step; left; eauto|].
    wp_step. wp_step; [|wp_step; left; eauto]. apply wp_set_capacity.
    by apply Hlast. }
  by apply (wp_run _ _ _ _ _ Hs).
Qed.

(** A step keeps the books and never rewrites history. *)
Ltac tokens :=
  cbn [app] in *; rewrite ?owned_app, ?owned_cons in *; cbn [is_ref is_closing is_publishing app] in *;
  rewrite ?owned_app, ?owned_cons in *; cbn [is_ref is_closing is_publishing app] in *;
  repeat case_bool_decide; try congruence; try lia.
Ltac other := let j := fresh "j" in let Hj := fresh "Hj" in
  intros j Hj; repeat split; tokens.
Ltac counts i ts1 ts2 :=
  pose proof (owned_nonneg (is_ref i) ts1); pose proof (owned_nonneg (is_ref i) ts2);
  pose proof (owned_nonneg (is_closing i) ts1); pose proof (owned_nonneg (is_closing i) ts2);
  pose proof (owned_nonneg (is_publishing i) ts1); pose proof (owned_nonneg (is_publishing i) ts2).

Lemma get_step_ok id w ts r w' :
  reg_ok (w, ts) -> source_record_get id w = (r, w') ->
  reg_ok (w', match r with Ok i => Ref i :: ts | _ => ts end) /\ grows w w'.
Proof.
  intros Hok Hg. apply get_inv in Hg as [(-> & e & ->)|(i & x & -> & _ & Hx & H0 & Hr & Hmax & ->)]; [done|].
  pose proof Hok as [Hall _]. destruct (Hall i x Hx) as ((Ha & Hb & Hc & Hd & He) & Hbo). simpl in *.
  apply (reg_update w ts i x); try done.
  - other.
  - unfold handle_ok. cbn [sr_refs sr_retiring sr_native with_refs]. pose proof (owned_nonneg (is_ref i) ts). rewrite u32_small by (unfold is_u32; lia).
    rewrite Hr in *. tokens.
Qed.
Lemma claim_step_ok id w ts r w' :
  reg_ok (w, ts) -> source_record_claim id w = (r, w') -> reg_ok (w', ts) /\ grows w w'.
Proof.
  intros Hok Hg. apply claim_inv in Hg as [->|(i & x & Hx & _ & ->)]; [done|].
  pose proof Hok as [Hall _]. destruct (Hall i x Hx) as (Hh & Hbo).
  by apply (reg_update w ts i x).
Qed.
Lemma accept_step_ok i info w ts r w' :
  reg_ok (w, ts) -> Ref i ∈ ts -> snapshot_accept K i info w = (r, w') -> reg_ok (w', ts) /\ grows w w'.
Proof.
  intros Hok Hin Ha. pose proof Hok as [Hall Hout].
  destruct (w_records w !! i) as [x|] eqn:Hx.
  2:{ apply lookup_ge_None in Hx. destruct (Hout i Hx) as [Hz _].
      pose proof (owned_in (is_ref i) (Ref i) ts Hin). simpl in *. case_bool_decide; [lia|done]. }
  destruct (Hall i x Hx) as (Hh & Hbo).
  apply (accept_inv i info w r w' x) in Ha as [[Hw _]|(y & h & _ & Hy & Hle & (H1 & H2 & H3 & H4) & ->)]; try done.
  - destruct w' as [h' rs' c']. simpl in Hw. subst rs'. by apply reg_keep.
  - apply (reg_update w ts i x); try done. destruct Hh as (? & ? & ? & ? & ?). unfold handle_ok. rewrite H1, H2, H3. done.
Qed.
Lemma drop_step_ok i ts1 ts2 w b w' :
  reg_ok (w, ts1 ++ Ref i :: ts2) -> put_drop i w = (Ok b, w') ->
  reg_ok (w', (if b : bool then [Closing i] else []) ++ ts1 ++ ts2) /\ grows w w'.
Proof.
  intros Hok Hd. apply drop_inv in Hd. pose proof Hok as [Hall _].
  destruct (w_records w !! i) as [x|] eqn:Hx; [|by destruct Hd].
  destruct (Hall i x Hx) as ((Ha & Hb & Hc & Hd' & He) & Hbo). simpl in *. counts i ts1 ts2.
  destruct ((sr_refs x =? 0) || sr_retiring x) eqn:Hg; [by destruct Hd|].
  apply orb_false_iff in Hg as [Hg0 Hg1]. destruct Hd as (b' & Heq & Hb' & ->). simplify_eq.
  rewrite u32_small in * by (unfold is_u32; tokens).
  apply (reg_update w (ts1 ++ Ref i :: ts2) i x); try done.
  - destruct (sr_refs x - 1 =? 0); other.
  - unfold handle_ok. cbn [sr_refs sr_retiring sr_native with_refs]. rewrite Hg1 in *.
    destruct (sr_refs x - 1 =? 0) eqn:Hz; tokens.
Qed.
Lemma native_step_ok i ts1 ts2 w info w' :
  reg_ok (w, ts1 ++ Closing i :: ts2) -> put_native K i w = (Ok info, w') ->
  reg_ok (w', Publishing i info :: ts1 ++ ts2) /\ grows w w'.
Proof.
  intros Hok Hn. pose proof Hok as [Hall Hout]. counts i ts1 ts2.
  destruct (w_records w !! i) as [x|] eqn:Hx.
  2:{ apply lookup_ge_None in Hx. destruct (Hout i Hx) as (_ & Hz & _). simpl in Hz. tokens. }
  destruct (Hall i x Hx) as ((Ha & Hb & Hc & Hd & He) & Hbo). simpl in *.
  assert (Hone : owned (is_closing i) (ts1 ++ Closing i :: ts2) = 1) by (destruct (sr_retiring x); tokens).
  destruct (native_inv i w (Ok info) w' x) as (info' & h & Hi & ->); try done; [apply He; by right|].
  apply (reg_update w (ts1 ++ Closing i :: ts2) i x); try done; [other|].
  unfold handle_ok. cbn [sr_refs sr_retiring sr_native with_native no_source sc_fd].
  destruct (sr_retiring x) eqn:Hret; tokens.
Qed.
Lemma publish_step_ok i info ts1 ts2 w r w' :
  reg_ok (w, ts1 ++ Publishing i info :: ts2) -> put_publish K i info w = (r, w') ->
  reg_ok (w', ts1 ++ ts2) /\ grows w w'.
Proof.
  intros Hok Hp. pose proof Hok as [Hall Hout]. counts i ts1 ts2.
  destruct (w_records w !! i) as [x|] eqn:Hx.
  2:{ apply lookup_ge_None in Hx. destruct (Hout i Hx) as (_ & _ & Hz). simpl in Hz. tokens. }
  destruct (Hall i x Hx) as ((Ha & Hb & Hc & Hd & He) & Hbo). simpl in *.
  apply (publish_inv i info w r w' x) in Hp as (y & e & h & _ & Hy & Hle & Hy1 & Hy2 & _ & ->); try done.
  apply (reg_update w (ts1 ++ Publishing i info :: ts2) i x); try done; [other|].
  unfold handle_ok. cbn [sr_refs sr_retiring sr_native with_error with_refs]. rewrite Hy1.
  destruct (sr_retiring x) eqn:Hret; tokens.
Qed.
Lemma add_step_ok native info w ts r w' :
  reg_ok (w, ts) -> 0 <= sc_fd native -> add_locked K native info w = (r, w') ->
  reg_ok (w', match r with Ok id => Ref (Z.to_nat (id - 1)) :: ts | _ => ts end) /\ grows w w'.
Proof.
  intros Hok Hfd Ha. apply add_inv in Ha as [(Hw & e & ->)|(y & h & c & -> & Hy & ->)].
  { destruct w' as [h' rs' c']. simpl in Hw. subst rs'. by apply reg_keep. }
  replace (Z.to_nat (Z.of_nat (length (w_records w)) + 1 - 1)) with (length (w_records w)) by lia.
  destruct Hok as [Hall Hout]. split; [split; simpl in *|].
  - intros i x Hi. apply lookup_app_Some in Hi as [Hi|[Hge Hi]].
    + pose proof (lookup_lt_Some _ _ _ Hi). destruct (Hall i x Hi) as [Hh Hb]. split; [|done].
      rewrite !owned_cons. cbn [is_ref is_closing is_publishing]. rewrite bool_decide_eq_false_2 by lia. done.
    + apply list_lookup_singleton_Some in Hi as [Hz <-]. assert (i = length (w_records w)) as -> by lia.
      destruct (Hout (length (w_records w))) as (H1 & H2 & H3); [lia|]. split; [|done].
      unfold handle_ok. cbn [sr_refs sr_retiring sr_native with_native with_refs].
      rewrite !owned_cons, H1, H2, H3. cbn [is_ref is_closing is_publishing].
      rewrite bool_decide_eq_true_2 by done. unfold U32MAX. lia.
  - intros i Hi. rewrite length_app in Hi. simpl in Hi. destruct (Hout i) as (H1 & H2 & H3); [lia|].
    rewrite !owned_cons, H1, H2, H3. cbn [is_ref is_closing is_publishing]. rewrite bool_decide_eq_false_2 by lia. done.
  - intros i x Hi. exists x. split; [|done]. simpl. by apply lookup_app_l_Some.
Qed.

Lemma reg_step_ok x x' : reg_ok x -> reg_step x x' -> reg_ok x' /\ grows x.1 x'.1.
Proof.
  intros Hok Hs. destruct Hs; simpl.
  - by apply reg_keep.
  - by eapply add_step_ok.
  - by eapply get_step_ok.
  - by eapply claim_step_ok.
  - by eapply accept_step_ok.
  - by eapply drop_step_ok.
  - by eapply native_step_ok.
  - by eapply publish_step_ok.
Qed.
Lemma reg_steps_ok x x' : reg_ok x -> steps reg_step x x' -> reg_ok x' /\ grows x.1 x'.1.
Proof.
  intros Hok Hs. induction Hs as [|x1 x2 x3 _ IH Hs]; [done|].
  destruct (IH Hok) as [H1 H2]. destruct (reg_step_ok x2 x3 H1 Hs) as [H3 H4]. split; [done|]. by etrans.
Qed.
Lemma reg_init_ok h : reg_ok (mk_world h [] 0, []).
Proof. by split. Qed.
End threads.

(** ** Properties *)
Definition reg_init (h : history) : world * list token := (mk_world h [] 0, []).

Lemma reg_reachable K h x : steps (reg_step K) (reg_init h) x -> reg_ok x.
Proof. intros Hs. eapply reg_steps_ok in Hs as [? _]; [done|]. apply reg_init_ok. Qed.
Lemma has_binding_eq i r mm epoch w :
  w_records w !! i = Some r ->
  (source_record_has_binding (Z.of_nat i + 1) mm epoch w).1 =
  Ok (nz mm && nz epoch && bool_decide (mk_mm_binding mm epoch ∈ sr_binding r)).
Proof.
  intros Hi. unfold source_record_has_binding, mbind, prog_bind, get_records, get_record.
  pose proof (lookup_lt_Some _ _ _ Hi). unfold id_index.
  destruct (_ || _) eqn:Hb; [lia|]. replace (Z.to_nat (Z.of_nat i + 1 - 1)) with i by lia. by rewrite Hi.
Qed.

(** However the sections of any number of threads interleave, the count of
    a record is the number of references held on it; a holder always has an
    open native descriptor and can drop its reference without the monitor
    aborting, the last holder and only it becoming the one thread that retires
    the record; and once no reference is held and the retirement has closed it,
    the record has no descriptor left. *)
Theorem registry_references_counted K h w ts i r :
  steps (reg_step K) (reg_init h) (w, ts) -> w_records w !! i = Some r ->
  sr_refs r = owned (is_ref i) ts /\
  (Ref i ∈ ts -> 0 <= sc_fd (sr_native r) /\
     exists b w', put_drop i w = (Ok b, w') /\ (b = true <-> owned (is_ref i) ts = 1)) /\
  owned (is_closing i) ts + owned (is_publishing i) ts <= 1 /\
  (Ref i ∉ ts -> Closing i ∉ ts -> sc_fd (sr_native r) < 0).
Proof.
  intros Hs Hi. destruct (reg_reachable K h _ Hs) as [Hall _].
  destruct (Hall i r Hi) as ((Ha & Hb & Hc & Hd & He) & _). simpl in *.
  pose proof (owned_nonneg (is_closing i) ts). pose proof (owned_nonneg (is_publishing i) ts).
  split; [done|]. split; [|split].
  - intros Hin. apply (owned_in (is_ref i)) in Hin; [|by apply bool_decide_eq_true_2]. split; [tauto|].
    destruct (put_drop i w) as [res w'] eqn:Hd'. apply drop_inv in Hd'. rewrite Hi in Hd'.
    destruct (sr_retiring r); [lia|]. destruct (sr_refs r =? 0) eqn:Hz; [lia|]. simpl in Hd'.
    destruct Hd' as (b & -> & -> & ->). eexists _, _. split; [done|].
    rewrite u32_small by (unfold is_u32; lia). lia.
  - destruct (sr_retiring r); lia.
  - intros H1 H2. assert (Hz : forall p t0, t0 ∉ ts -> (forall t, p t = true -> t = t0) -> owned p ts = 0).
    { intros p t0 Hn Hp. unfold owned. replace (filter (fun t => p t) ts) with (@nil token); [done|].
      symmetry. clear -Hn Hp. induction ts as [|t ts IH]; [done|].
      rewrite filter_cons. case_decide as Ht; [|apply IH; set_solver].
      exfalso. apply Hn. rewrite (Hp t); [by left|]. by destruct (p t). }
    assert (Z1 : owned (is_ref i) ts = 0).
    { apply (Hz _ (Ref i)); [done|]. intros []; simpl; intros; try done. by case_bool_decide; subst. }
    assert (Z2 : owned (is_closing i) ts = 0).
    { apply (Hz _ (Closing i)); [done|]. intros []; simpl; intros; try done. by case_bool_decide; subst. }
    lia.
Qed.

(** The history of images a record publishes is immutable: from any
    reachable state to any later one bindings are only added, never changed or
    lost, so that a binding once valid stays valid; they carry the epochs 1, 2,
    ... and strictly increasing memory identities, the newest being the image
    the record reports; a record that saw its task end never reports anything
    else; and an accepted snapshot names a valid binding. *)
Theorem registry_bindings_immutable K h w ts w' ts' i r :
  steps (reg_step K) (reg_init h) (w, ts) -> steps (reg_step K) (w, ts) (w', ts') ->
  w_records w !! i = Some r ->
  exists r', w_records w' !! i = Some r' /\ binding_ok r' /\
    sr_binding r `suffix_of` sr_binding r' /\
    (vc_flags (sr_info r) .& VMCTX_CONTEXT_ENDED <> 0 -> sr_info r' = sr_info r) /\
    (forall mm epoch, (source_record_has_binding (Z.of_nat i + 1) mm epoch w).1 = Ok true ->
       (source_record_has_binding (Z.of_nat i + 1) mm epoch w').1 = Ok true) /\
    (forall info info' epoch w1, snapshot_accept K i info w' = (Ok (info', epoch), w1) ->
       vc_mm_identity info' <> 0 ->
       (source_record_has_binding (Z.of_nat i + 1) (vc_mm_identity info') epoch w1).1 = Ok true).
Proof.
  intros Hs Hs' Hi. pose proof (reg_reachable K h _ Hs) as Hok.
  destruct (reg_steps_ok K _ _ Hok Hs') as [[Hall' _] Hg]. destruct (Hg i r Hi) as (r' & Hi' & Hle & Hend).
  destruct (Hall' i r' Hi') as [_ Hb]. exists r'. repeat (split; [done|]). split.
  - intros mm epoch. rewrite (has_binding_eq i r), (has_binding_eq i r') by done. intros Ht. simplify_eq. f_equal.
    apply andb_true_iff in Ht as [H1 H2]. rewrite H1. simpl. apply bool_decide_eq_true_2.
    apply bool_decide_eq_true_1 in H2. destruct Hle as [k ->]. apply elem_of_app. by right.
  - intros info info' epoch w1 Ha Hmm.
    apply (accept_inv K i info w' _ w1 r') in Ha as [[_ [e He]]|(y & h' & Heq & Hy & _ & _ & ->)]; try done.
    simplify_eq. rewrite (has_binding_eq i y); [|simpl; apply list_lookup_insert_eq; by eapply lookup_lt_Some].
    destruct Hy as (H1 & _ & _ & H4). unfold binding_epoch. destruct (sr_binding y) as [|b bs] eqn:Hbs; [done|].
    destruct (H1 0%nat b eq_refl) as [He Hp]. rewrite H4. f_equal. apply andb_true_iff. split.
    + simpl in *. lia.
    + apply bool_decide_eq_true_2. destruct b. by left.
Qed.

(** *** Witnesses *)
Definition demo_info (mm : Z) : vmctx_context := mk_context 2 56 2 1 0 5 mm 0 40 0 40.
Definition demo_kernel : kernel := mk_kernel
  (fun _ _ _ => inr (demo_info 7)) (fun _ _ q => inr (0, q)) (fun _ _ _ _ => inr 0)
  (fun _ _ _ => inr 4%N) (fun _ _ => inr PROC_SUPER_MAGIC) (fun _ _ => inr (1, 2)) (fun _ _ _ => inr [])
  (fun _ => true).
Definition demo_source : source_context := mk_source 3 40 40 5.
Definition demo_added : world := (add_locked demo_kernel demo_source (demo_info 7) (mk_world [] [] 0)).2.
Definition demo_used : world :=
  (snapshot_accept demo_kernel 0 (demo_info 9) (source_record_get 1 demo_added).2).2.
Lemma demo_added_reachable : steps (reg_step demo_kernel) (reg_init []) (demo_added, [Ref 0]).
Proof.
  eapply steps_next; [apply steps_refl|].
  eapply (rs_add demo_kernel demo_source (demo_info 7) _ [] (Ok 1)); [done|]. by vm_compute.
Qed.
Lemma demo_used_reachable : steps (reg_step demo_kernel) (demo_added, [Ref 0]) (demo_used, [Ref 0; Ref 0]).
Proof.
  eapply steps_next; [eapply steps_next; [apply steps_refl|]|].
  - eapply (rs_get demo_kernel 1 _ _ (Ok 0%nat)). by vm_compute.
  - eapply (rs_accept demo_kernel 0 (demo_info 9)); [by left|]. by vm_compute.
Qed.
Lemma registry_references_counted_witness :
  exists r, w_records demo_used !! 0%nat = Some r /\ sr_refs r = 2.
Proof.
  eexists. split; [vm_compute; reflexivity|].
  edestruct (registry_references_counted demo_kernel [] demo_used [Ref 0; Ref 0] 0) as [H1 _].
  - eapply steps_trans; [exact demo_added_reachable|exact demo_used_reachable].
  - vm_compute. reflexivity.
  - exact H1.
Defined.
Lemma registry_bindings_immutable_witness :
  exists r', w_records demo_used !! 0%nat = Some r' /\
    (source_record_has_binding 1 7 1 demo_used).1 = Ok true.
Proof.
  edestruct (registry_bindings_immutable demo_kernel [] demo_added [Ref 0] demo_used [Ref 0; Ref 0] 0)
    as (r' & H1 & _ & _ & _ & H2 & _).
  - exact demo_added_reachable.
  - exact demo_used_reachable.
  - vm_compute. reflexivity.
  - exists r'. split; [exact H1|]. apply H2. vm_compute. reflexivity.
Defined.
End SourceRegistry.
