(* ===== verification/SourceMemoryTarget.v ===== *)
(** * Captured memory targets (user/source-memory-target.h)

    An operation captures the context, memory identity and epoch it is for.
    Any retained task of that memory may carry the native call, but the call
    itself names the captured memory, and is made at most once. *)
From S2P Require Import Prelude Native SourceContext SourceRegistry.
Open Scope Z_scope.

Module SourceMemoryTarget.
Import SourceContext SourceRegistry.

Record source_memory_target := mk_target { mt_context : Z; mt_mm : Z; mt_epoch : Z }.

Section target.
Context (K : kernel).
Local Abbreviation M := (prog world).

Definition source_memory_target_origin_call (target : source_memory_target) (command argument : Z) : M Z :=
  known ← source_record_has_binding (mt_context target) (mt_mm target) (mt_epoch target);
  if negb (known : bool) then fail ESTALE
  else borrowed K (mt_context target) (fun native =>
    source_memory_call K native (mt_mm target) command argument).

Definition source_memory_target_capture (id : Z) : M source_memory_target :=
  '(info, epoch) ← source_record_snapshot K id;
  if (vc_mm_identity info =? 0) || (epoch =? 0) then fail EPROTO
  else mret (mk_target id (vc_mm_identity info) epoch).

Definition source_memory_target_for_mm (id mm : Z) : M source_memory_target :=
  if mm =? 0 then source_memory_target_capture id
  else
    rs ← get_records;
    match id_index id rs with
    | None => fail ESTALE
    | Some i =>
        r ← get_record i;
        match list_find (fun b => bd_mm b = mm) (sr_binding r) with
        | Some (_, b) => mret (mk_target id (bd_mm b) (bd_epoch b))
        | None => fail ESTALE
        end
    end.

(** The ids of the passes: the captured context, then every other record. *)
Definition target_passes (context count : Z) : list Z :=
  context :: filter (fun id => id <> context) (seqZ 1 count).

Fixpoint target_call_loop (target : source_memory_target) (command argument unavailable : Z)
    (ids : list Z) : M Z :=
  match ids with
  | [] => fail unavailable
  | id :: rest =>
      g ← attempt (source_record_get id);
      match g with
      | inl e =>
          if negb (e =? ESRCH) then fail e
          else target_call_loop target command argument unavailable rest
      | inr i =>
          r ← get_record i;
          info ← attempt (source_context_info K (sr_native r));
          if (match info with
              | inr info => negb (nz (vc_flags info .& VMCTX_CONTEXT_ENDED)) && (vc_mm_identity info =? mt_mm target)
              | inl _ => false
              end)
          then
            result ← attempt (source_memory_call K (sr_native r) (mt_mm target) command argument);
            source_record_put K i;;
            match result with inl e => fail e | inr v => mret v end
          else
            source_record_put K i;;
            match info with
            | inl e =>
                if negb (e =? ESRCH) && negb (e =? EAGAIN) then fail e
                else target_call_loop target command argument (if e =? EAGAIN then EAGAIN else unavailable) rest
            | inr _ => target_call_loop target command argument unavailable rest
            end
      end
  end.
Definition source_memory_target_call (target : source_memory_target) (command argument : Z) : M Z :=
  known ← source_record_has_binding (mt_context target) (mt_mm target) (mt_epoch target);
  if negb (known : bool) then fail ESTALE
  else
    rs ← get_records;
    target_call_loop target command argument ESRCH
      (target_passes (mt_context target) (Z.of_nat (length rs))).

(** The result is the descriptor and its representative. *)
Fixpoint target_proc_loop (target : source_memory_target) (leaf : string) (unavailable : Z)
    (ids : list Z) : M (Z * Z) :=
  match ids with
  | [] => fail unavailable
  | id :: rest =>
      info ← attempt (source_record_info K id);
      match info with
      | inl e =>
          if negb (e =? ESRCH) && negb (e =? EAGAIN) then fail e
          else target_proc_loop target leaf (if e =? EAGAIN then EAGAIN else unavailable) rest
      | inr info =>
          if negb (vc_mm_identity info =? mt_mm target) || nz (vc_flags info .& VMCTX_CONTEXT_ENDED)
          then target_proc_loop target leaf unavailable rest
          else
            o ← attempt (source_record_proc_open K id leaf);
            match o with
            | inl e =>
                if negb (e =? ESRCH) && negb (e =? EAGAIN) && negb (e =? ESTALE) then fail e
                else target_proc_loop target leaf e rest
            | inr (fd, mm) =>
                if negb (mm =? mt_mm target) then
                  sys_close fd;; target_proc_loop target leaf ESTALE rest
                else mret (fd, id)
            end
      end
  end.
Definition source_memory_target_proc_open (target : source_memory_target) (leaf : string) : M (Z * Z) :=
  known ← source_record_has_binding (mt_context target) (mt_mm target) (mt_epoch target);
  if negb (known : bool) then fail ESTALE
  else
    rs ← get_records;
    target_proc_loop target leaf ESRCH (target_passes (mt_context target) (Z.of_nat (length rs))).
End target.

(** ** The memory calls of a target *)
Definition memory_calls (evs : history) : list (Z * vmctx_memory) :=
  omap (fun ev => match ev with EvMemory s q _ => Some (s, q) | _ => None end) evs.

(** The last two calls are the memory command for [target], through a record of
    the registry whose task had just answered to be alive in that memory. *)
Definition fenced_call (rs : list source_record) (target : source_memory_target) (command argument : Z)
    (answer : Z + Z * vmctx_memory) (evs : history) : Prop :=
  exists i x q info rest,
    rs !! i = Some x /\
    evs = EvMemory (source_context_selector (sr_native x))
            (mk_memory VMCTX_MEMORY_ABI sizeof_memory VMCTX_MEMORY_CALL command (mt_mm target) argument 0 0)
            answer ::
          EvContext (source_context_selector (sr_native x)) q (inr info) :: rest /\
    vc_op q = VMCTX_CONTEXT_INFO /\ vc_identity info = sc_identity (sr_native x) /\
    vc_flags info .& VMCTX_CONTEXT_ENDED = 0 /\ vc_mm_identity info = mt_mm target /\
    memory_calls rest = [].
Definition target_outcome (rs : list source_record) (target : source_memory_target) (command argument : Z)
    (r : result Z) (evs : history) : Prop :=
  match r with
  | Ok v => exists a, fenced_call rs target command argument (inr (v, a)) evs
  | Err e => memory_calls evs = [] \/ fenced_call rs target command argument (inl e) evs
  | _ => False
  end.
Definition refs_ok (w : world) : Prop := Forall (fun r => is_u32 (sr_refs r)) (w_records w).

Lemma outcome_app rs target command argument r evs evs' :
  target_outcome rs target command argument r evs -> memory_calls evs' = [] ->
  target_outcome rs target command argument r (evs ++ evs').
Proof.
  assert (Hf : forall a, fenced_call rs target command argument a evs -> memory_calls evs' = [] ->
    fenced_call rs target command argument a (evs ++ evs')).
  { intros a (i & x & q & info & rest & H1 & -> & H2 & H3 & H4 & H5 & H6) H'.
    exists i, x, q, info, (rest ++ evs'). repeat (split; [done|]).
    unfold memory_calls in *. by rewrite omap_app, H6, H'. }
  destruct r; simpl; try done.
  - intros [b ?] ?. exists b. by apply Hf.
  - intros [H1|H1] H2; [left|right; by apply Hf]. unfold memory_calls in *. by rewrite omap_app, H1, H2.
Qed.

Section facts.
Context (K : kernel).

Lemma has_binding_cases id mm epoch w :
  exists b, source_record_has_binding id mm epoch w = (Ok b, w) /\ (b = true -> mm <> 0).
Proof.
  unfold source_record_has_binding, mbind, prog_bind, get_records, get_record.
  destruct (id_index id (w_records w)) as [i|] eqn:Hi; [|by exists false].
  apply id_index_spec in Hi as [Hlt _]. destruct (lookup_lt_is_Some_2 _ _ Hlt) as [r Hr]. rewrite Hr.
  eexists. split; [done|]. lia.
Qed.
(** Borrowing a record and giving it back. *)
Lemma wp_get id Q w :
  refs_ok w -> (forall e, Q (Err e) w) ->
  (forall i x, w_records w !! i = Some x -> 0 < sr_refs x < U32MAX -> sr_retiring x = false ->
     Q (Ok i) (mk_world (w_history w) (<[i := with_refs (sr_refs x + 1) false x]> (w_records w)) (w_capacity w))) ->
  wp (source_record_get id) Q w.
Proof.
  intros Hok He Hi. unfold wp. destruct (source_record_get id w) as [r w'] eqn:Hg.
  apply get_inv in Hg as [(-> & e & ->)|(i & x & -> & _ & Hx & H0 & Hr & Hm & ->)]; [apply He|].
  pose proof (proj1 (Forall_forall _ _) Hok x (list_elem_of_lookup_2 _ _ _ Hx)) as Hu. unfold is_u32 in Hu. simpl.
  rewrite u32_small by (unfold is_u32; lia). apply Hi; [done|lia|done].
Qed.
Lemma wp_put i x evs Q w :
  w_records w !! i = Some x -> 0 < sr_refs x < U32MAX -> sr_retiring x = false ->
  Q (Ok ()) (after evs w) ->
  wp (source_record_put K i) Q (after evs (mk_world (w_history w)
     (<[i := with_refs (sr_refs x + 1) false x]> (w_records w)) (w_capacity w))).
Proof.
  intros Hx Hr Hret HQ. unfold source_record_put. apply wp_bind.
  set (w1 := after evs _). unfold wp at 1. destruct (put_drop i w1) as [b w2] eqn:Hd. apply drop_inv in Hd.
  assert (Hi : w_records w1 !! i = Some (with_refs (sr_refs x + 1) false x)).
  { subst w1. simpl. apply list_lookup_insert_eq. by eapply lookup_lt_Some. }
  rewrite Hi in Hd. cbn [sr_refs sr_retiring with_refs] in Hd.
  destruct (Z.eqb_spec (sr_refs x + 1) 0); [lia|]. simpl in Hd. destruct Hd as (c & -> & -> & ->).
  rewrite u32_small by (unfold is_u32; lia). destruct (Z.eqb_spec (sr_refs x + 1 - 1) 0); [lia|]. simpl.
  unfold wp, mret, prog_ret. cbn [fst snd].
  replace (mk_world _ _ _) with (after evs w); [done|]. subst w1. unfold after. simpl. f_equal.
  rewrite list_insert_insert_eq. rewrite list_insert_id; [done|]. rewrite Hx. f_equal.
  destruct x; simpl in *. unfold with_refs. simpl. subst. f_equal; lia.
Qed.

Lemma call_loop_spec target command argument ids unavailable w :
  refs_ok w -> mt_mm target <> 0 ->
  wp (target_call_loop K target command argument unavailable ids) (fun r w' => exists evs,
    w' = after evs w /\ target_outcome (w_records w) target command argument r evs) w.
Proof.
  intros Hok Hmm. revert unavailable w Hok. induction ids as [|id rest IH]; intros unavailable w Hok; cbn [target_call_loop].
  { wp_step. exists []. rewrite after_nil. split; [done|]. by left. }
  assert (Hrest : forall evs0 u, memory_calls evs0 = [] ->
    wp (target_call_loop K target command argument u rest) (fun r w' => exists evs,
      w' = after evs w /\ target_outcome (w_records w) target command argument r evs) (after evs0 w)).
  { intros evs0 u H0. eapply wp_mono; [by apply IH|]. intros r w' (evs & -> & Ho). rewrite after_after.
    eexists. split; [done|]. by apply outcome_app. }
  wp_step. wp_step. apply wp_get; [done| |].
  { intros e. wp_step; [wp_step; exists []; rewrite after_nil; split; [done|by left]|].
    pose proof (Hrest [] unavailable eq_refl) as H0. by rewrite after_nil in H0. }
  intros i x Hx Hr Hret. set (w1 := mk_world _ _ _). wp_step. apply (wp_get_record _ (with_refs (sr_refs x + 1) false x)).
  { apply list_lookup_insert_eq. by eapply lookup_lt_Some. }
  cbn [sr_native with_refs]. unfold source_context_info.
  assert (Hput : forall evs Q, Q (Ok ()) (after evs w) -> wp (source_record_put K i) Q (after evs w1)).
  { intros. by apply wp_put. }
  assert (Hnone : forall evs e, memory_calls evs = [] -> wp (source_record_put K i;;
      if negb (e =? ESRCH) && negb (e =? EAGAIN) then fail e
      else target_call_loop K target command argument (if e =? EAGAIN then EAGAIN else unavailable) rest)
    (fun r w' => exists evs, w' = after evs w /\ target_outcome (w_records w) target command argument r evs)
    (after evs w1)).
  { intros evs e Hm. wp_step. apply Hput. wp_step; [wp_step|by apply Hrest].
    eexists. split; [done|]. by left. }
  wp_step. wp_step. wp_step.
  { wp_step. pose proof (Hnone [] EBADF eq_refl) as H0. by rewrite after_nil in H0. }
  wp_step. wp_step; [by apply Hnone|]. wp_step; [wp_step; by apply Hnone|].
  wp_step. apply orb_false_iff in Heqb0 as [Hid1 Hid2].
  destruct (negb (nz (vc_flags v .& VMCTX_CONTEXT_ENDED)) && (vc_mm_identity v =? mt_mm target)) eqn:Hsel.
  2:{ wp_step. apply Hput. by apply Hrest. }
  apply andb_true_iff in Hsel as [Hend Hmmv]. wp_step. wp_step. unfold source_memory_call.
  wp_step; [exfalso; lia|]. wp_step; [exfalso; lia|].
  assert (Hf : forall a, fenced_call (w_records w) target command argument a
    (EvMemory (source_context_selector (sr_native x))
       (mk_memory VMCTX_MEMORY_ABI sizeof_memory VMCTX_MEMORY_CALL command (mt_mm target) argument 0 0) a ::
     [EvContext (source_context_selector (sr_native x))
       (mk_context VMCTX_CONTEXT_ABI sizeof_context VMCTX_CONTEXT_INFO 0 0 0 0 0 0 0 0) (inr v)])).
  { intros a. exists i, x. eexists _, v, []. split; [done|]. split; [done|]. repeat split; lia. }
  wp_step. wp_step.
  - wp_step. apply Hput. wp_step. eexists. split; [done|]. right. apply Hf.
  - wp_step. wp_step. apply Hput. wp_step. eexists. split; [done|]. eexists. apply Hf.
Qed.

(** An operation for a captured memory target issues its memory command at
    most once and never for another memory: when it does, the command is the
    last call, names the captured identity, and goes through a registered
    context whose task had just answered, under its own identity, to be alive
    in that memory; its result is the command's.  Otherwise it fails having
    issued none, at once and without any call when the binding is unknown.
    Borrowing leaves the registry unchanged. *)
Theorem target_call_fenced target command argument w :
  refs_ok w ->
  let '(r, w') := source_memory_target_call K target command argument w in
  exists evs, w' = after evs w /\ target_outcome (w_records w) target command argument r evs /\
    ((source_record_has_binding (mt_context target) (mt_mm target) (mt_epoch target) w).1 = Ok false ->
     r = Err ESTALE /\ evs = []).
Proof.
  intros Hok. unfold source_memory_target_call, mbind, prog_bind.
  destruct (has_binding_cases (mt_context target) (mt_mm target) (mt_epoch target) w) as (b & -> & Hb).
  destruct b; cbn [negb fst get_records].
  - destruct (target_call_loop K target command argument ESRCH
      (target_passes (mt_context target) (Z.of_nat (length (w_records w)))) w) as [r w'] eqn:Hl.
    pose proof (wp_run _ _ _ _ _ (call_loop_spec target command argument _ ESRCH w Hok (Hb eq_refl)) Hl)
      as (evs & -> & Ho).
    exists evs. split; [done|]. done.
  - exists []. rewrite after_nil. split; [done|]. split; [by left|done].
Qed.
End facts.

(** *** Witness *)
Lemma target_call_fenced_witness :
  (source_memory_target_call demo_kernel (mk_target 1 7 1) 50 9 demo_used).1 = Ok 0 /\
  let '(r, w') := source_memory_target_call demo_kernel (mk_target 1 7 1) 50 9 demo_used in
  exists evs, w' = after evs demo_used /\
    target_outcome (w_records demo_used) (mk_target 1 7 1) 50 9 r evs.
Proof.
  split; [vm_compute; reflexivity|].
  pose proof (target_call_fenced demo_kernel (mk_target 1 7 1) 50 9 demo_used) as H.
  destruct (source_memory_target_call demo_kernel (mk_target 1 7 1) 50 9 demo_used) as [r w'].
  destruct H as (evs & H1 & H2 & _).
  - repeat constructor; vm_compute; discriminate.
  - exists evs. split; [exact H1|exact H2].
Defined.
End SourceMemoryTarget.
