(* ===== verification/ExecutionMm.v ===== *)
(** * Memory images of the executor (user/execution-mm.h)

    The executor keeps one record per memory identity for the whole session.
    Records are pointed at: here a pointer is the position of the record in the
    order of publication.  Publication runs in two sections under the registry
    lock with the object factory between them; the step relation interleaves
    the sections of any number of publishers. *)
From S2P Require Import Prelude.
From stdpp Require Import gmultiset.
Open Scope Z_scope.

Module ExecutionMm.

Record execution_mm := mk_mm { em_identity : Z; em_parent : option nat; em_backing_fd : Z }.
Definition EXECUTION_MM_BUCKETS : nat := 1024.
(** [rg_mms] are the published records, [rg_bucket] the chains, newest first. *)
Record execution_mm_registry := mk_registry {
  rg_mms : list execution_mm; rg_bucket : list (list nat); rg_count : Z }.
Definition EXECUTION_MM_REGISTRY_INIT : execution_mm_registry :=
  mk_registry [] (replicate EXECUTION_MM_BUCKETS []) 0.

Definition execution_mm_bucket (identity : Z) : nat :=
  let identity := identity .^ (identity .>> 33) in
  let identity := u64 (identity * 0xff51afd7ed558ccd) in
  let identity := identity .^ (identity .>> 33) in
  Z.to_nat (identity mod Z.of_nat EXECUTION_MM_BUCKETS).

(** The walk along a chain. *)
Fixpoint chain_find (mms : list execution_mm) (identity : Z) (chain : list nat) : option nat :=
  match chain with
  | [] => None
  | i :: next =>
      match mms !! i with
      | Some mm => if em_identity mm =? identity then Some i else chain_find mms identity next
      | None => None
      end
  end.
Definition execution_mm_find_locked (rg : execution_mm_registry) (identity : Z) : option nat :=
  match rg_bucket rg !! execution_mm_bucket identity with
  | Some chain => chain_find (rg_mms rg) identity chain
  | None => None
  end.
Definition execution_mm_find (rg : execution_mm_registry) (identity : Z) : result nat :=
  match execution_mm_find_locked rg identity with Some i => Ok i | None => Err ENOENT end.

(** [mm->parent != parent], on pointers. *)
Definition parent_differs (rg : execution_mm_registry) (i : nat) (parent : option nat) : bool :=
  match rg_mms rg !! i with
  | Some mm => negb (bool_decide (em_parent mm = parent))
  | None => true
  end.

(** The first section: the record, or the parent to create one under. *)
Definition resolve_check (rg : execution_mm_registry) (identity parent_identity : Z)
    : result (nat + option nat) :=
  if (identity =? 0) || (identity =? parent_identity) then Err EINVAL
  else
    let parent := if nz parent_identity then execution_mm_find_locked rg parent_identity else None in
    let mm := execution_mm_find_locked rg identity in
    if nz parent_identity && bool_decide (parent = None) then Err ENOENT
    else
      match mm with
      | Some i => if parent_differs rg i parent then Err EPROTO else Ok (inl i)
      | None => Ok (inr parent)
      end.
(** The second: the record, the registry, and the descriptors closed. *)
Definition resolve_publish (identity : Z) (parent : option nat) (fd : Z) (rg : execution_mm_registry)
    : result nat * execution_mm_registry * list Z :=
  match execution_mm_find_locked rg identity with
  | Some i => if parent_differs rg i parent then (Err EPROTO, rg, [fd]) else (Ok i, rg, [fd])
  | None =>
      if rg_count rg =? U64MAX then (Err EOVERFLOW, rg, [fd])
      else
        let bucket := execution_mm_bucket identity in
        let next := length (rg_mms rg) in
        let chain := match rg_bucket rg !! bucket with Some c => c | None => [] end in
        (Ok next,
         mk_registry (rg_mms rg ++ [mk_mm identity parent fd]) (<[bucket := next :: chain]> (rg_bucket rg))
           (u64 (rg_count rg + 1)), [])
  end.
(** The whole function when no other publisher runs between its sections:
    [alloc] is calloc, [make_object] the factory's error or descriptor. *)
Definition execution_mm_resolve (alloc : bool) (make_object : Z + N) (identity parent_identity : Z)
    (rg : execution_mm_registry) : result nat * execution_mm_registry * list Z :=
  match resolve_check rg identity parent_identity with
  | Ok (inl i) => (Ok i, rg, [])
  | Ok (inr parent) =>
      if negb alloc then (Err ENOMEM, rg, [])
      else
        match make_object with
        | inl e => (Err e, rg, [])
        | inr fd => resolve_publish identity parent (Z.of_N fd) rg
        end
  | Err e => (Err e, rg, []) | Aborted => (Aborted, rg, []) | Corrupt => (Corrupt, rg, [])
  | Hung => (Hung, rg, [])
  end.

(** The descriptors closed at shutdown, bucket by bucket. *)
Definition execution_mm_registry_destroy (rg : execution_mm_registry) : list Z * execution_mm_registry :=
  (em_backing_fd <$> omap (fun i => rg_mms rg !! i) (mjoin (rg_bucket rg)),
   mk_registry [] (replicate EXECUTION_MM_BUCKETS []) 0).

(** ** Bindings *)
Record execution_binding := mk_ebinding { eb_mm : nat; eb_epoch : Z }.
Record execution_mm_view := mk_view { vw_mm : nat; vw_epoch : Z }.
#[global] Instance view_eq_dec : EqDecision execution_mm_view.
Proof. solve_decision. Defined.

(** [lock_error] is the answer of pthread_rwlock_init. *)
Definition execution_binding_init (mm : option nat) (epoch lock_error : Z) : result execution_binding :=
  match mm with
  | Some mm =>
      if epoch =? 0 then Err EINVAL
      else if nz lock_error then Err lock_error else Ok (mk_ebinding mm epoch)
  | None => Err EINVAL
  end.
Definition execution_binding_view (b : execution_binding) : execution_mm_view :=
  mk_view (eb_mm b) (eb_epoch b).
Definition view_current (b : execution_binding) (view : execution_mm_view) : bool :=
  bool_decide (eb_mm b = vw_mm view) && (eb_epoch b =? vw_epoch view).
(** [control] is what the native adapter answers, if it is called. *)
Definition execution_binding_control {A} (b : execution_binding) (view : execution_mm_view)
    (control : result A) : result A :=
  if view_current b view then control else Err ESTALE.

(** The native adapter's replacement: an ordinary failure, the epoch it says it
    committed, or an unresolved commit. *)
Inductive replacement := RepFailed (e : Z) | RepCommitted (epoch : Z) | RepUnresolved.
Definition execution_binding_replace (b : execution_binding) (previous : execution_mm_view) (next : option nat)
    (replace : replacement) : result execution_binding :=
  match next with
  | None => Err EINVAL
  | Some next =>
      if bool_decide (next = vw_mm previous) then Err EINVAL
      else if negb (view_current b previous) then Err ESTALE
      else if vw_epoch previous =? U64MAX then Err EOVERFLOW
      else
        match replace with
        | RepUnresolved => Aborted
        | RepFailed e => Err e
        | RepCommitted committed =>
            if negb (committed =? u64 (vw_epoch previous + 1)) then Aborted
            else Ok (mk_ebinding next committed)
        end
  end.

(** ** Concurrent publication *)

(** A publisher past the factory. *)
Record pending := mk_pending { pe_identity : Z; pe_parent : option nat; pe_parent_identity : Z; pe_fd : Z }.
(** Registry, publishers, descriptors made and closed, and what callers got:
    identity, parent identity and record. *)
Record mm_world := mk_mworld {
  mw_rg : execution_mm_registry; mw_pending : list pending;
  mw_made : list Z; mw_closed : list Z; mw_got : list (Z * Z * nat) }.
Definition mm_init : mm_world := mk_mworld EXECUTION_MM_REGISTRY_INIT [] [] [] [].

Inductive mm_step : mm_world -> mm_world -> Prop :=
| ms_found w identity parent_identity i :
    resolve_check (mw_rg w) identity parent_identity = Ok (inl i) ->
    mm_step w (mk_mworld (mw_rg w) (mw_pending w) (mw_made w) (mw_closed w)
                 ((identity, parent_identity, i) :: mw_got w))
| ms_make w identity parent_identity parent (fd : N) :
    resolve_check (mw_rg w) identity parent_identity = Ok (inr parent) ->
    mm_step w (mk_mworld (mw_rg w) (mk_pending identity parent parent_identity (Z.of_N fd) :: mw_pending w)
                 (Z.of_N fd :: mw_made w) (mw_closed w) (mw_got w))
| ms_publish w p1 p p2 r rg closed :
    mw_pending w = p1 ++ p :: p2 ->
    resolve_publish (pe_identity p) (pe_parent p) (pe_fd p) (mw_rg w) = (r, rg, closed) ->
    mm_step w (mk_mworld rg (p1 ++ p2) (mw_made w) (closed ++ mw_closed w)
                 (match r with Ok i => [(pe_identity p, pe_parent_identity p, i)] | _ => [] end ++ mw_got w)).

(** ** The registry as a map from identities *)
Record rg_ok (rg : execution_mm_registry) : Prop := {
  ro_buckets : length (rg_bucket rg) = EXECUTION_MM_BUCKETS;
  ro_chains : mjoin (rg_bucket rg) ≡ₚ seq 0 (length (rg_mms rg));
  ro_hash : forall b chain i, rg_bucket rg !! b = Some chain -> i ∈ chain ->
    exists mm, rg_mms rg !! i = Some mm /\ execution_mm_bucket (em_identity mm) = b;
  ro_unique : forall i j mm mm', rg_mms rg !! i = Some mm -> rg_mms rg !! j = Some mm' ->
    em_identity mm = em_identity mm' -> i = j;
  ro_parent : forall i mm j, rg_mms rg !! i = Some mm -> em_parent mm = Some j -> (j < i)%nat;
  ro_count : rg_count rg = Z.of_nat (length (rg_mms rg)) /\ rg_count rg <= U64MAX
}.
(** The pointer [parent] is the record of [identity], or NULL for no parent. *)
Definition parent_is (rg : execution_mm_registry) (parent : option nat) (identity : Z) : Prop :=
  match parent with
  | None => identity = 0
  | Some j => identity <> 0 /\ exists mm, rg_mms rg !! j = Some mm /\ em_identity mm = identity
  end.

Lemma bucket_lt identity : (execution_mm_bucket identity < EXECUTION_MM_BUCKETS)%nat.
Proof.
  unfold execution_mm_bucket. set (x := _ .^ _).
  pose proof (Z.mod_pos_bound x (Z.of_nat EXECUTION_MM_BUCKETS)) as Hb.
  change (Z.of_nat EXECUTION_MM_BUCKETS) with 1024 in *. unfold EXECUTION_MM_BUCKETS. lia.
Qed.
Lemma chain_find_Some mms identity chain i :
  chain_find mms identity chain = Some i ->
  i ∈ chain /\ exists mm, mms !! i = Some mm /\ em_identity mm = identity.
Proof.
  induction chain as [|j chain IH]; simpl; [done|]. destruct (mms !! j) as [mm|] eqn:Hj; [|done].
  destruct (Z.eqb_spec (em_identity mm) identity); intros Hi.
  - simplify_eq. split; [by left|eauto].
  - destruct (IH Hi) as [? ?]. split; [by right|done].
Qed.
Lemma chain_find_None mms identity chain i mm :
  chain_find mms identity chain = None -> (forall j, j ∈ chain -> is_Some (mms !! j)) ->
  i ∈ chain -> mms !! i = Some mm -> em_identity mm <> identity.
Proof.
  induction chain as [|j chain IH]; simpl; intros Hf Hall Hi Hm; [by apply elem_of_nil in Hi|].
  destruct (Hall j) as [mmj Hj]; [by left|]. rewrite Hj in Hf.
  destruct (Z.eqb_spec (em_identity mmj) identity); [done|].
  apply elem_of_cons in Hi as [->|Hi]; [by simplify_eq|]. apply IH; auto. intros. apply Hall. by right.
Qed.

Lemma find_locked_spec rg identity i :
  rg_ok rg ->
  execution_mm_find_locked rg identity = Some i <->
  exists mm, rg_mms rg !! i = Some mm /\ em_identity mm = identity.
Proof.
  intros Hok. unfold execution_mm_find_locked.
  destruct (lookup_lt_is_Some_2 (rg_bucket rg) (execution_mm_bucket identity)) as [chain Hc].
  { rewrite (ro_buckets _ Hok). apply bucket_lt. }
  rewrite Hc. split; [by intros [_ ?]%chain_find_Some|]. intros (mm & Hi & Hid).
  assert (Hin : i ∈ chain).
  { assert (Hall : i ∈ mjoin (rg_bucket rg)).
    { rewrite (ro_chains _ Hok). apply elem_of_seq. apply lookup_lt_Some in Hi. lia. }
    apply list_elem_of_join in Hall as (c & Hic & Hcb). apply list_elem_of_lookup in Hcb as [b Hb].
    destruct (ro_hash _ Hok b c i Hb Hic) as (mm' & Hi' & <-). simplify_eq. done. }
  destruct (chain_find (rg_mms rg) identity chain) as [j|] eqn:Hf.
  - apply chain_find_Some in Hf as (_ & mm' & Hj & Hid'). f_equal. apply (ro_unique _ Hok j i mm' mm); congruence.
  - exfalso. eapply chain_find_None in Hf; [by apply Hf, Hid| |done|done].
    intros j Hj. destruct (ro_hash _ Hok _ _ j Hc Hj) as (mm' & -> & _). done.
Qed.
Lemma find_locked_None rg identity :
  rg_ok rg -> execution_mm_find_locked rg identity = None <->
  forall i mm, rg_mms rg !! i = Some mm -> em_identity mm <> identity.
Proof.
  intros Hok. split.
  - intros Hn i mm Hi Hid. assert (execution_mm_find_locked rg identity = Some i); [|congruence].
    apply find_locked_spec; eauto.
  - intros Hall. destruct (execution_mm_find_locked rg identity) as [i|] eqn:Hf; [|done].
    apply find_locked_spec in Hf as (mm & Hi & Hid); [|done]. by destruct (Hall i mm Hi).
Qed.

Lemma rg_init_ok : rg_ok EXECUTION_MM_REGISTRY_INIT.
Proof.
  unfold EXECUTION_MM_REGISTRY_INIT. split; cbn [rg_mms rg_bucket rg_count].
  - apply length_replicate.
  - generalize EXECUTION_MM_BUCKETS. intros n. by induction n.
  - intros b chain i Hb Hi. apply lookup_replicate in Hb as [-> _]. by apply elem_of_nil in Hi.
  - done.
  - done.
  - done.
Qed.
Lemma concat_insert_cons {A} (l : list (list A)) b c x :
  l !! b = Some c -> mjoin (<[b := x :: c]> l) ≡ₚ x :: mjoin l.
Proof.
  intros Hb. pose proof (lookup_lt_Some _ _ _ Hb).
  transitivity (x :: mjoin (take b l ++ c :: drop (S b) l)); [|by rewrite (take_drop_middle l b c Hb)].
  rewrite insert_take_drop, !join_app by done. simpl. symmetry. apply Permutation_middle.
Qed.
Lemma publish_ok rg identity parent fd chain :
  rg_ok rg -> execution_mm_find_locked rg identity = None -> rg_count rg <> U64MAX ->
  (forall j, parent = Some j -> (j < length (rg_mms rg))%nat) ->
  rg_bucket rg !! execution_mm_bucket identity = Some chain ->
  rg_ok (mk_registry (rg_mms rg ++ [mk_mm identity parent fd])
    (<[execution_mm_bucket identity := length (rg_mms rg) :: chain]> (rg_bucket rg)) (u64 (rg_count rg + 1))).
Proof.
  intros Hok Hf Hc Hp Hb. pose proof (proj1 (find_locked_None rg identity Hok) Hf) as Hnone.
  destruct (ro_count _ Hok) as [Hcnt Hmax]. split; cbn [rg_mms rg_bucket rg_count].
  - rewrite length_insert. apply Hok.
  - rewrite concat_insert_cons by done. rewrite (ro_chains _ Hok), length_app. simpl.
    rewrite Nat.add_1_r, seq_S. by rewrite Permutation_cons_append.
  - intros b c i Hbc Hi. apply list_lookup_insert_Some in Hbc as [(<- & <- & _)|[Hne Hbc]].
    + apply elem_of_cons in Hi as [->|Hi].
      * eexists. split; [by apply list_lookup_middle|done].
      * destruct (ro_hash _ Hok _ _ i Hb Hi) as (mm & Hm & ?). exists mm. split; [by apply lookup_app_l_Some|done].
    + destruct (ro_hash _ Hok _ _ i Hbc Hi) as (mm & Hm & ?). exists mm. split; [by apply lookup_app_l_Some|done].
  - intros i j mm mm' Hi Hj Heq.
    apply lookup_app_Some in Hi as [Hi|[Hge [Hz <-]%list_lookup_singleton_Some]];
      apply lookup_app_Some in Hj as [Hj|[Hge' [Hz' <-]%list_lookup_singleton_Some]]; simpl in *.
    + by apply (ro_unique _ Hok i j mm mm').
    + by destruct (Hnone i mm Hi).
    + symmetry in Heq. by destruct (Hnone j mm' Hj).
    + lia.
  - intros i mm j Hi Hpar. apply lookup_app_Some in Hi as [Hi|[Hge [Hz <-]%list_lookup_singleton_Some]].
    + by apply (ro_parent _ Hok i mm j).
    + simpl in Hpar. specialize (Hp j Hpar). lia.
  - rewrite length_app. simpl. rewrite u64_small; unfold is_u64; lia.
Qed.

Definition rg_grows (rg rg' : execution_mm_registry) : Prop := rg_mms rg `prefix_of` rg_mms rg'.
Lemma parent_is_grows rg rg' parent identity :
  rg_grows rg rg' -> parent_is rg parent identity -> parent_is rg' parent identity.
Proof.
  intros Hg. destruct parent as [j|]; [|done]. intros (Hz & mm & Hj & Hid). split; [done|].
  exists mm. split; [|done]. by eapply prefix_lookup_Some.
Qed.

(** What the first section found. *)
Lemma check_spec rg identity parent_identity x :
  rg_ok rg -> resolve_check rg identity parent_identity = Ok x ->
  identity <> 0 /\ identity <> parent_identity /\
  match x with
  | inl i => exists mm, rg_mms rg !! i = Some mm /\ em_identity mm = identity /\
      parent_is rg (em_parent mm) parent_identity
  | inr parent => parent_is rg parent parent_identity /\ execution_mm_find_locked rg identity = None
  end.
Proof.
  intros Hok. unfold resolve_check. destruct (_ || _) eqn:Hg; [done|].
  assert (Hpar : forall p, p = (if nz parent_identity then execution_mm_find_locked rg parent_identity else None) ->
    nz parent_identity && bool_decide (p = None) = false -> parent_is rg p parent_identity).
  { intros p -> Hb. destruct (Z.eqb_spec parent_identity 0) as [->|Hz]; [done|]. simpl in *.
    destruct (execution_mm_find_locked rg parent_identity) as [j|] eqn:Hf; simpl in *; [|done].
    split; [done|]. by apply find_locked_spec in Hf. }
  destruct (nz parent_identity && bool_decide _) eqn:Hb; [done|]. specialize (Hpar _ eq_refl Hb).
  set (p := if nz parent_identity then _ else None) in *. clearbody p.
  destruct (execution_mm_find_locked rg identity) as [i|] eqn:Hf.
  - unfold parent_differs. apply find_locked_spec in Hf as (mm & Hi & Hid); [|done]. rewrite Hi.
    destruct (decide (em_parent mm = p)) as [Hp|Hp];
      [rewrite bool_decide_eq_true_2 by done|by rewrite bool_decide_eq_false_2 by done]. simpl.
    intros. simplify_eq. split; [lia|]. split; [lia|].
    by exists mm.
  - intros. simplify_eq. split; [lia|]. split; [lia|]. done.
Qed.

(** What the second does. *)
Lemma publish_spec rg identity parent parent_identity fd r rg' closed :
  rg_ok rg -> parent_is rg parent parent_identity ->
  resolve_publish identity parent fd rg = (r, rg', closed) ->
  rg_ok rg' /\ rg_grows rg rg' /\
  (em_backing_fd <$> rg_mms rg') ++ closed ≡ₚ fd :: (em_backing_fd <$> rg_mms rg) /\
  match r with
  | Ok i => exists mm, rg_mms rg' !! i = Some mm /\ em_identity mm = identity /\
      parent_is rg' (em_parent mm) parent_identity
  | Err _ => rg' = rg
  | _ => False
  end.
Proof.
  intros Hok Hpar. unfold resolve_publish.
  assert (Hsame : (em_backing_fd <$> rg_mms rg) ++ [fd] ≡ₚ fd :: (em_backing_fd <$> rg_mms rg)).
  { symmetry. apply Permutation_cons_append. }
  assert (Hrefl : rg_grows rg rg) by (unfold rg_grows; reflexivity).
  destruct (execution_mm_find_locked rg identity) as [i|] eqn:Hf.
  - pose proof Hf as (mm & Hi & Hid)%find_locked_spec; [|done]. unfold parent_differs. rewrite Hi.
    case_bool_decide as Hp; simpl; intros; simplify_eq; repeat (split; [done|]); [|done].
    by exists mm.
  - destruct (Z.eqb_spec (rg_count rg) U64MAX); [intros; simplify_eq; repeat (split; [done|]); done|].
    destruct (lookup_lt_is_Some_2 (rg_bucket rg) (execution_mm_bucket identity)) as [chain Hc].
    { rewrite (ro_buckets _ Hok). apply bucket_lt. }
    rewrite Hc. intros. simplify_eq.
    assert (Hg : rg_grows rg (mk_registry (rg_mms rg ++ [mk_mm identity parent fd])
      (<[execution_mm_bucket identity := length (rg_mms rg) :: chain]> (rg_bucket rg)) (u64 (rg_count rg + 1)))).
    { by exists [mk_mm identity parent fd]. }
    split; [|split; [done|split]].
    + apply publish_ok; try done. intros j ->. destruct Hpar as (_ & mm & Hj & _). by eapply lookup_lt_Some.
    + cbn [rg_mms]. rewrite fmap_app, app_nil_r. simpl. symmetry. apply Permutation_cons_append.
    + exists (mk_mm identity parent fd). split; [by apply list_lookup_middle|]. split; [done|].
      by eapply parent_is_grows.
Qed.

Record mm_ok (w : mm_world) : Prop := {
  mo_rg : rg_ok (mw_rg w);
  mo_pending : forall p, p ∈ mw_pending w -> parent_is (mw_rg w) (pe_parent p) (pe_parent_identity p);
  mo_got : forall identity parent_identity i, (identity, parent_identity, i) ∈ mw_got w ->
    exists mm, rg_mms (mw_rg w) !! i = Some mm /\ em_identity mm = identity /\
      parent_is (mw_rg w) (em_parent mm) parent_identity;
  mo_fds : mw_made w ≡ₚ (em_backing_fd <$> rg_mms (mw_rg w)) ++ (pe_fd <$> mw_pending w) ++ mw_closed w
}.
Lemma got_grows rg rg' i identity parent_identity :
  rg_grows rg rg' ->
  (exists mm, rg_mms rg !! i = Some mm /\ em_identity mm = identity /\ parent_is rg (em_parent mm) parent_identity) ->
  exists mm, rg_mms rg' !! i = Some mm /\ em_identity mm = identity /\ parent_is rg' (em_parent mm) parent_identity.
Proof.
  intros Hg (mm & Hi & Hid & Hp). exists mm. split; [by eapply prefix_lookup_Some|]. split; [done|].
  by eapply parent_is_grows.
Qed.
Lemma mm_step_ok w w' : mm_ok w -> mm_step w w' -> mm_ok w' /\ rg_grows (mw_rg w) (mw_rg w').
Proof.
  intros [H1 H2 H3 H4] Hs. destruct Hs as [w identity pid i Hc|w identity pid parent fd Hc|w p1 p p2 r rg closed Hp Hc].
  - apply check_spec in Hc as (_ & _ & Hi); [|done]. split; [|unfold rg_grows; reflexivity]. split; simpl; try done.
    intros a b k [Heq|Hin]%elem_of_cons; [by simplify_eq|by apply H3].
  - apply check_spec in Hc as (_ & _ & Hi & _); [|done]. split; [|unfold rg_grows; reflexivity]. split; simpl; try done.
    + intros p [->|Hin]%elem_of_cons; [done|by apply H2].
    + rewrite H4. apply Permutation_middle.
  - pose proof (H2 p) as Hpar. rewrite Hp in Hpar. specialize (Hpar ltac:(set_solver)).
    eapply publish_spec in Hc as (Hok & Hg & Hfd & Hr); [|done|done]. split; [|done]. split; simpl.
    + done.
    + intros q Hq. eapply parent_is_grows; [done|]. apply H2. rewrite Hp. set_solver.
    + intros a b k [Hin|Hin]%elem_of_app; [|by eapply got_grows, H3].
      destruct r; try by apply elem_of_nil in Hin. apply list_elem_of_singleton in Hin. by simplify_eq.
    + rewrite H4, Hp, !fmap_app, fmap_cons.
      transitivity ((pe_fd p :: (em_backing_fd <$> rg_mms (mw_rg w))) ++ ((pe_fd <$> p1) ++ (pe_fd <$> p2)) ++ mw_closed w).
      { rewrite <- (Permutation_middle (pe_fd <$> p1)). simpl. symmetry. apply Permutation_middle. }
      rewrite <- Hfd, <- !app_assoc. apply Permutation_app_head.
      rewrite (Permutation_app_comm closed), <- !app_assoc. do 2 apply Permutation_app_head.
      apply Permutation_app_comm.
Qed.
Lemma mm_reachable w : steps mm_step mm_init w -> mm_ok w.
Proof.
  apply (steps_invariant mm_step mm_ok); [intros s s' ? ?; by eapply mm_step_ok|].
  split; simpl; [apply rg_init_ok|by intros p ?%elem_of_nil|by intros ? ? ? ?%elem_of_nil|done].
Qed.

Lemma omap_seq_lookup {A} (l : list A) : omap (fun i => l !! i) (seq 0 (length l)) = l.
Proof.
  induction l as [|x l IH] using rev_ind; [done|].
  rewrite length_app. simpl. rewrite Nat.add_1_r, seq_S, omap_app. simpl.
  rewrite list_lookup_middle by done. f_equal. transitivity (omap (fun i => l !! i) (seq 0 (length l))); [|done].
  apply list_omap_ext, Forall2_same_length_lookup_2; [done|]. intros k i j Hi Hj. simplify_eq.
  apply lookup_seq in Hi as [-> Hk]. by rewrite lookup_app_l by lia.
Qed.

(** However publications of memory images interleave, every identity is
    published once: all callers that resolve it get the same record, which has
    exactly the ancestry they named, older records being the only parents; the
    lookup finds every published record and nothing else; and every descriptor
    the factories made is held by one record, or by a publisher still running,
    or was closed once, shutdown closing exactly those the records hold. *)
Theorem mm_registry_publishes_once w :
  steps mm_step mm_init w ->
  (forall identity p1 p2 i j, (identity, p1, i) ∈ mw_got w -> (identity, p2, j) ∈ mw_got w -> i = j /\ p1 = p2) /\
  (forall identity parent i, (identity, parent, i) ∈ mw_got w ->
     exists mm, rg_mms (mw_rg w) !! i = Some mm /\ em_identity mm = identity /\
       parent_is (mw_rg w) (em_parent mm) parent /\ (forall j, em_parent mm = Some j -> (j < i)%nat)) /\
  (forall identity i, execution_mm_find (mw_rg w) identity = Ok i <->
     exists mm, rg_mms (mw_rg w) !! i = Some mm /\ em_identity mm = identity) /\
  mw_made w ≡ₚ (em_backing_fd <$> rg_mms (mw_rg w)) ++ (pe_fd <$> mw_pending w) ++ mw_closed w /\
  (execution_mm_registry_destroy (mw_rg w)).1 ≡ₚ em_backing_fd <$> rg_mms (mw_rg w).
Proof.
  intros Hs. destruct (mm_reachable w Hs) as [H1 H2 H3 H4]. split; [|split; [|split; [|split; [done|]]]].
  - intros identity p1 p2 i j Hi Hj. destruct (H3 _ _ _ Hi) as (mm & Hm & Hid & Hp).
    destruct (H3 _ _ _ Hj) as (mm' & Hm' & Hid' & Hp').
    assert (i = j) as -> by (apply (ro_unique _ H1 i j mm mm'); congruence). split; [done|]. simplify_eq.
    destruct (em_parent mm) as [k|]; simpl in *; [|congruence].
    destruct Hp as (_ & x & Hx & <-), Hp' as (_ & x' & Hx' & <-). by simplify_eq.
  - intros identity parent i Hi. destruct (H3 _ _ _ Hi) as (mm & Hm & Hid & Hp). exists mm.
    repeat (split; [done|]). intros j Hj. by apply (ro_parent _ H1 i mm).
  - intros identity i. rewrite <- find_locked_spec by done. unfold execution_mm_find.
    destruct (execution_mm_find_locked (mw_rg w) identity); naive_solver.
  - simpl. rewrite (ro_chains _ H1). clear.
    assert (Hall : omap (fun i => rg_mms (mw_rg w) !! i) (seq 0 (length (rg_mms (mw_rg w)))) = rg_mms (mw_rg w)).
    { apply omap_seq_lookup. }
    by rewrite Hall.
Qed.

(** Two publishers of image 10: the second to finish closes its own object. *)
Definition demo_rg : execution_mm_registry := (resolve_publish 10 None 6 EXECUTION_MM_REGISTRY_INIT).1.2.
Definition demo_mm : mm_world := mk_mworld demo_rg [] [6; 5] [5] [(10, 0, 0%nat); (10, 0, 0%nat)].
Lemma demo_mm_reachable : steps mm_step mm_init demo_mm.
Proof.
  eapply steps_next; [eapply steps_next; [eapply steps_next; [eapply steps_next; [apply steps_refl|]|]|]|].
  - apply (ms_make _ 10 0 None 5). vm_compute. reflexivity.
  - apply (ms_make _ 10 0 None 6). vm_compute. reflexivity.
  - apply (ms_publish _ [] (mk_pending 10 None 0 6) [mk_pending 10 None 0 5] (Ok 0%nat) demo_rg []); [reflexivity|].
    vm_compute. reflexivity.
  - match goal with |- mm_step ?w _ =>
      exact (ms_publish w [] (mk_pending 10 None 0 5) [] (Ok 0%nat) demo_rg [5] eq_refl eq_refl) end.
Qed.
Lemma mm_registry_publishes_once_witness :
  steps mm_step mm_init demo_mm /\
  (execution_mm_registry_destroy (mw_rg demo_mm)).1 ≡ₚ em_backing_fd <$> rg_mms (mw_rg demo_mm).
Proof.
  split; [exact demo_mm_reachable|].
  apply (mm_registry_publishes_once demo_mm). exact demo_mm_reachable.
Defined.
End ExecutionMm.
