(* ===== verification/ExecutionTarget.v ===== *)
(** * Targets of the executor (user/execution-target.h)

    A context publishes the source images it was seen with.  A target is an
    immutable record of one of them: the source binding, the memory record and
    the native epoch it was installed under (zero when it was only observed).
    A native control goes through only when its target is what the context is
    bound to now. *)
From S2P Require Import Prelude Proto ExecutionMm.
Open Scope Z_scope.

Module ExecutionTarget.
Import Proto ExecutionMm.

Record execution_target := mk_etarget { et_source : vmr_mm_binding; et_view : execution_mm_view }.
#[global] Instance etarget_eq_dec : EqDecision execution_target.
Proof. solve_decision. Defined.
(** [cb_history] newest first, observations included. *)
Record execution_context_binding := mk_cb {
  cb_identity : Z; cb_native : execution_binding; cb_current : execution_target;
  cb_history : list execution_target }.

Section target.
(** The memory records of the session; they are immutable once published. *)
Context (mms : list execution_mm).

(** The parent identity of a record, zero without parent. *)
Definition parent_identity (mm : execution_mm) : Z :=
  match em_parent mm with
  | Some j => match mms !! j with Some p => em_identity p | None => 0 end
  | None => 0
  end.
Definition execution_target_matches_mm (source : vmr_mm_binding) (mm : option nat) : bool :=
  vmr_binding_valid source &&
  match mm with
  | Some i =>
      match mms !! i with
      | Some m => (mb_mm source =? em_identity m) && (mb_parent_mm source =? parent_identity m)
      | None => false
      end
  | None => false
  end.

(** [alloc], [mutex_error] and [lock_error] are the answers of the allocator
    and of the two lock initialisations. *)
Definition execution_context_binding_init (identity : Z) (mm : option nat) (source : vmr_mm_binding)
    (native_epoch : Z) (alloc : bool) (mutex_error lock_error : Z) : result execution_context_binding :=
  if (identity =? 0) || (native_epoch =? 0) || negb (execution_target_matches_mm source mm) then Err EINVAL
  else if negb alloc then Err ENOMEM
  else if nz mutex_error then Err mutex_error
  else
    let! native := execution_binding_init mm native_epoch lock_error in
    let first := mk_etarget source (mk_view (eb_mm native) native_epoch) in
    Ok (mk_cb identity native first [first]).

Definition execution_target_capture (cb : execution_context_binding) : execution_target := cb_current cb.

Definition execution_target_find_locked (cb : execution_context_binding) (source : vmr_mm_binding)
    : option execution_target :=
  snd <$> list_find (fun t => mb_epoch (et_source t) = mb_epoch source) (cb_history cb).

(** A found target that is not the one described. *)
Definition conflicts (found : option execution_target) (source : vmr_mm_binding) (mm : nat) : bool :=
  match found with
  | Some t => negb (vmr_binding_equal (et_source t) source) || negb (bool_decide (vw_mm (et_view t) = mm))
  | None => false
  end.
Definition push_target (t : execution_target) (cb : execution_context_binding) : execution_context_binding :=
  mk_cb (cb_identity cb) (cb_native cb) (cb_current cb) (t :: cb_history cb).
(** The section that finds or records an observation. *)
Definition record_observation (spare : bool) (found : option execution_target) (source : vmr_mm_binding)
    (mm : nat) (cb : execution_context_binding) : result execution_target * execution_context_binding :=
  match found with
  | Some t => (Ok t, cb)
  | None =>
      if negb spare then (Err ENOMEM, cb)
      else let t := mk_etarget source (mk_view mm 0) in (Ok t, push_target t cb)
  end.

Definition execution_target_observe (spare : bool) (mm : option nat) (source : vmr_mm_binding)
    (cb : execution_context_binding) : result execution_target * execution_context_binding :=
  if negb (execution_target_matches_mm source mm) then (Err EPROTO, cb)
  else
    match mm with
    | None => (Err EPROTO, cb)
    | Some mm =>
        let found := execution_target_find_locked cb source in
        if negb (mb_context source =? mb_context (et_source (cb_current cb))) || conflicts found source mm
        then (Err EPROTO, cb)
        else record_observation spare found source mm cb
    end.

Definition execution_target_publish (spare : bool) (mm : option nat) (source : vmr_mm_binding)
    (replace : replacement) (cb : execution_context_binding)
    : result execution_target * execution_context_binding :=
  if negb (execution_target_matches_mm source mm) then (Err EPROTO, cb)
  else
    match mm with
    | None => (Err EPROTO, cb)
    | Some mm =>
        let current := cb_current cb in
        let found := execution_target_find_locked cb source in
        if negb (mb_context source =? mb_context (et_source current)) || conflicts found source mm
        then (Err EPROTO, cb)
        else if mb_epoch source <=? mb_epoch (et_source current)
        then record_observation spare found source mm cb
        else if mb_mm source =? mb_mm (et_source current) then (Err EPROTO, cb)
        else if negb spare then (Err ENOMEM, cb)
        else
          match execution_binding_replace (cb_native cb) (et_view current) (Some mm) replace with
          | Ok native =>
              let t := mk_etarget source (mk_view mm (u64 (vw_epoch (et_view current) + 1))) in
              (Ok t, mk_cb (cb_identity cb) native t (t :: cb_history cb))
          | Err e => (Err e, cb)
          | Aborted => (Aborted, cb) | Corrupt => (Corrupt, cb) | Hung => (Hung, cb)
          end
    end.

(** [control] is what the adapter answers, if it is reached. *)
Definition execution_target_control {A} (target : option execution_target) (cb : execution_context_binding)
    (control : result A) : result A :=
  match target with
  | None => Err ESTALE
  | Some t =>
      if vw_epoch (et_view t) =? 0 then Err ESTALE
      else execution_binding_control (cb_native cb) (et_view t) control
  end.

(** The targets freed at shutdown. *)
Definition execution_context_binding_destroy (cb : execution_context_binding) : list execution_target :=
  cb_history cb.

(** ** Everything that happens to a context *)
Inductive target_step : execution_context_binding -> execution_context_binding -> Prop :=
| ts_observe spare mm source cb r cb' :
    execution_target_observe spare mm source cb = (r, cb') -> target_step cb cb'
| ts_publish spare mm source replace cb r cb' :
    execution_target_publish spare mm source replace cb = (r, cb') -> target_step cb cb'.

Record cb_ok (cb : execution_context_binding) : Prop := {
  bo_current : cb_current cb ∈ cb_history cb;
  bo_native : execution_binding_view (cb_native cb) = et_view (cb_current cb);
  bo_epoch : 0 < vw_epoch (et_view (cb_current cb)) <= U64MAX;
  bo_match : forall t, t ∈ cb_history cb ->
    execution_target_matches_mm (et_source t) (Some (vw_mm (et_view t))) = true;
  bo_agree : forall t t', t ∈ cb_history cb -> t' ∈ cb_history cb ->
    mb_epoch (et_source t) = mb_epoch (et_source t') ->
    et_source t = et_source t' /\ vw_mm (et_view t) = vw_mm (et_view t');
  bo_context : forall t, t ∈ cb_history cb ->
    mb_context (et_source t) = mb_context (et_source (cb_current cb));
  bo_installed : forall t, t ∈ cb_history cb -> vw_epoch (et_view t) <> 0 ->
    t = cb_current cb \/
    (0 < vw_epoch (et_view t) < vw_epoch (et_view (cb_current cb)) /\
     mb_epoch (et_source t) < mb_epoch (et_source (cb_current cb)))
}.
(** What a context may become. *)
Definition cb_le (cb cb' : execution_context_binding) : Prop :=
  cb_history cb `suffix_of` cb_history cb' /\ cb_identity cb' = cb_identity cb /\
  (cb_current cb' = cb_current cb /\ cb_native cb' = cb_native cb \/
   eb_epoch (cb_native cb) < eb_epoch (cb_native cb') /\
   mb_epoch (et_source (cb_current cb)) < mb_epoch (et_source (cb_current cb'))).

Lemma find_target_spec cb source :
  match execution_target_find_locked cb source with
  | Some t => t ∈ cb_history cb /\ mb_epoch (et_source t) = mb_epoch source
  | None => forall t, t ∈ cb_history cb -> mb_epoch (et_source t) <> mb_epoch source
  end.
Proof.
  unfold execution_target_find_locked. destruct (list_find _ _) as [[i t]|] eqn:Hf; simpl.
  - apply list_find_Some in Hf as (Hi & He & _). split; [by eapply list_elem_of_lookup_2|done].
  - apply list_find_None in Hf. intros t Ht. by apply (proj1 (Forall_forall _ _) Hf t Ht).
Qed.
Lemma conflicts_false t source mm :
  conflicts (Some t) source mm = false -> et_source t = source /\ vw_mm (et_view t) = mm.
Proof.
  simpl. intros [H1 H2]%orb_false_iff. apply negb_false_iff in H1, H2.
  apply binding_equal_spec in H1. apply bool_decide_eq_true_1 in H2. done.
Qed.

(** Recording an observation. *)
Lemma observation_ok spare source mm cb r cb' :
  cb_ok cb -> execution_target_matches_mm source (Some mm) = true ->
  mb_context source = mb_context (et_source (cb_current cb)) ->
  conflicts (execution_target_find_locked cb source) source mm = false ->
  record_observation spare (execution_target_find_locked cb source) source mm cb = (r, cb') ->
  cb_ok cb' /\ cb_le cb cb' /\ cb_current cb' = cb_current cb /\ cb_native cb' = cb_native cb /\
  forall t, r = Ok t -> t ∈ cb_history cb' /\ et_source t = source /\ vw_mm (et_view t) = mm.
Proof.
  intros Hok Hm Hctx Hc. pose proof (find_target_spec cb source) as Hf.
  assert (Hrefl : cb_le cb cb) by (split; [done|]; split; [done|]; by left).
  destruct (execution_target_find_locked cb source) as [t|]; simpl.
  { intros. simplify_eq. repeat (split; [done|]). intros ? [=<-]. apply conflicts_false in Hc as [? ?]. naive_solver. }
  destruct spare; simpl; intros; simplify_eq; [|repeat (split; [done|]); done].
  split; [|split; [|split; [done|split; [done|]]]].
  - destruct Hok as [H1 H2 H3 H4 H5 H6 H7]. split; simpl; try done.
    + by right.
    + intros t [->|Ht]%elem_of_cons; [done|by apply H4].
    + intros t t' [->|Ht]%elem_of_cons [->|Ht']%elem_of_cons He; simpl in *; try done; [| |by apply H5].
      * by destruct (Hf t' Ht').
      * by destruct (Hf t Ht).
    + intros t [->|Ht]%elem_of_cons; [done|by apply H6].
    + intros t [->|Ht]%elem_of_cons Hz; [done|by apply H7].
  - split; [by apply suffix_cons_r|]. split; [done|]. by left.
  - intros ? [=<-]. split; [by left|done].
Qed.

Lemma target_observe_ok spare mm source cb r cb' :
  cb_ok cb -> execution_target_observe spare mm source cb = (r, cb') ->
  cb_ok cb' /\ cb_le cb cb' /\ cb_current cb' = cb_current cb /\ cb_native cb' = cb_native cb /\
  forall t, r = Ok t -> t ∈ cb_history cb' /\ et_source t = source /\ Some (vw_mm (et_view t)) = mm.
Proof.
  intros Hok. unfold execution_target_observe.
  assert (Hrefl : cb_le cb cb) by (split; [done|]; split; [done|]; by left).
  destruct (execution_target_matches_mm source mm) eqn:Hm; simpl; [|intros; by simplify_eq].
  destruct mm as [mm|]; [|intros; by simplify_eq].
  destruct (_ || _) eqn:Hg; [intros; by simplify_eq|]. apply orb_false_iff in Hg as [Hctx Hc].
  intros Hr. eapply observation_ok in Hr as (H1 & H2 & H3 & H4 & H5); [|done|done|lia|done].
  repeat (split; [done|]). intros t Ht. destruct (H5 t Ht) as (? & ? & ->). done.
Qed.

Lemma target_publish_ok spare mm source replace cb r cb' :
  cb_ok cb -> execution_target_publish spare mm source replace cb = (r, cb') ->
  cb_ok cb' /\ cb_le cb cb' /\
  forall t, r = Ok t -> t ∈ cb_history cb' /\ et_source t = source /\ Some (vw_mm (et_view t)) = mm /\
    (mb_epoch (et_source (cb_current cb)) < mb_epoch source -> cb_current cb' = t /\
       eb_epoch (cb_native cb') = eb_epoch (cb_native cb) + 1).
Proof.
  intros Hok. unfold execution_target_publish.
  assert (Hrefl : cb_le cb cb) by (split; [done|]; split; [done|]; by left).
  destruct (execution_target_matches_mm source mm) eqn:Hm; cbn [negb]; [|intros; by simplify_eq].
  destruct mm as [mm|]; [|intros; by simplify_eq].
  destruct (_ || _) eqn:Hg; [intros; by simplify_eq|]. apply orb_false_iff in Hg as [Hctx Hc].
  destruct (Z.leb_spec (mb_epoch source) (mb_epoch (et_source (cb_current cb)))) as [Hle|Hlt].
  { intros Hr. eapply observation_ok in Hr as (H1 & H2 & _ & _ & H5); [|done|done|lia|done].
    repeat (split; [done|]). intros t Ht. destruct (H5 t Ht) as (? & ? & ->). repeat (split; [done|]). lia. }
  destruct (Z.eqb_spec (mb_mm source) (mb_mm (et_source (cb_current cb)))); [intros; by simplify_eq|].
  destruct spare; cbn [negb]; [|intros; by simplify_eq].
  destruct (execution_binding_replace _ _ _ _) as [native| | | |] eqn:Hrep; intros; simplify_eq; try done.
  destruct Hok as [H1 H2 H3 H4 H5 H6 H7].
  unfold execution_binding_replace in Hrep. destruct (bool_decide (mm = vw_mm _)); [done|].
  destruct (view_current _ _); cbn [negb] in Hrep; [|done]. destruct (Z.eqb_spec (vw_epoch (et_view (cb_current cb))) U64MAX); [done|].
  destruct replace as [|committed|]; try done.
  assert (Hu : u64 (vw_epoch (et_view (cb_current cb)) + 1) = vw_epoch (et_view (cb_current cb)) + 1).
  { apply u64_small. unfold is_u64. lia. }
  rewrite Hu in *. destruct (Z.eqb_spec committed (vw_epoch (et_view (cb_current cb)) + 1)) as [->|]; [|done].
  simpl in Hrep. simplify_eq. unfold execution_binding_view in H2.
  assert (Hep : eb_epoch (cb_native cb) = vw_epoch (et_view (cb_current cb))) by (by rewrite <- H2).
  pose proof (find_target_spec cb source) as Hf.
  assert (Hsame : forall t, t ∈ cb_history cb -> mb_epoch (et_source t) = mb_epoch source ->
    et_source t = source /\ vw_mm (et_view t) = mm).
  { intros t Ht He. destruct (execution_target_find_locked cb source) as [t0|]; [|by destruct (Hf t Ht)].
    destruct Hf as [Ht0 He0]. apply conflicts_false in Hc as [Hs Hmm].
    destruct (H5 t t0 Ht Ht0) as [-> ->]; [congruence|done]. }
  split; [|split].
  - split; simpl; try done.
    + by left.
    + lia.
    + intros t [->|Ht]%elem_of_cons; [done|by apply H4].
    + intros t t' [->|Ht]%elem_of_cons [->|Ht']%elem_of_cons He; simpl in *; try done; [| |by apply H5].
      * by destruct (Hsame t' Ht') as [-> ->].
      * by destruct (Hsame t Ht) as [-> ->].
    + intros t [->|Ht]%elem_of_cons; [done|]. rewrite (H6 t Ht). lia.
    + intros t [->|Ht]%elem_of_cons Hz; [by left|]. right. destruct (H7 t Ht Hz) as [->|[? ?]]; lia.
  - split; [by apply suffix_cons_r|]. split; [done|]. right. simpl. lia.
  - intros ? [=<-]. split; [by left|]. split; [done|]. split; [done|]. intros _. split; [done|]. simpl. lia.
Qed.

Lemma target_init_ok identity mm source native_epoch alloc e1 e2 cb :
  is_u64 native_epoch ->
  execution_context_binding_init identity mm source native_epoch alloc e1 e2 = Ok cb -> cb_ok cb.
Proof.
  intros Hu. unfold execution_context_binding_init. destruct (_ || _ || _) eqn:Hg; [done|].
  destruct alloc; simpl; [|done]. destruct (nz e1); [done|]. unfold execution_binding_init.
  destruct mm as [mm|]; [|done]. destruct (Z.eqb_spec native_epoch 0); [done|]. destruct (nz e2); [done|]. simpl.
  intros. simplify_eq. apply orb_false_iff in Hg as [_ Hm]. apply negb_false_iff in Hm. unfold is_u64 in Hu.
  split; simpl; try done; try (by left); try lia.
  - by intros t ->%list_elem_of_singleton.
  - by intros t t' ->%list_elem_of_singleton ->%list_elem_of_singleton.
  - by intros t ->%list_elem_of_singleton.
  - intros t ->%list_elem_of_singleton _. by left.
Qed.

Lemma target_step_ok cb cb' : cb_ok cb -> target_step cb cb' -> cb_ok cb' /\ cb_le cb cb'.
Proof.
  intros Hok Hs. destruct Hs as [spare mm source cb r cb' Ho|spare mm source rep cb r cb' Hp].
  - apply target_observe_ok in Ho; tauto.
  - apply target_publish_ok in Hp; tauto.
Qed.
Lemma cb_le_trans a b c : cb_le a b -> cb_le b c -> cb_le a c.
Proof.
  intros (H1 & H2 & H3) (H4 & H5 & H6). split; [by etrans|]. split; [congruence|].
  destruct H3 as [[E1 E2]|[? ?]], H6 as [[E3 E4]|[? ?]].
  - left. split; congruence.
  - right. rewrite E1, E2 in *. done.
  - right. rewrite E3, E4. done.
  - right. lia.
Qed.
Lemma target_steps_ok cb cb' : cb_ok cb -> steps target_step cb cb' -> cb_ok cb' /\ cb_le cb cb'.
Proof.
  intros Hok Hs. induction Hs as [|a b c _ IH Hs].
  - split; [done|]. split; [done|]. split; [done|]. by left.
  - destruct (IH Hok) as [H1 H2]. destruct (target_step_ok _ _ H1 Hs) as [H3 H4]. split; [done|].
    by eapply cb_le_trans.
Qed.

(** From the initialisation of a context through any observations and
    publications: a control through any target of its history reaches the
    native adapter exactly when that target is the current one, which is what
    the context is bound to natively, and is refused as stale otherwise;
    targets of one source epoch always agree on the binding and the memory
    record; the history only grows, and the current target changes only to one
    of a later source epoch under the next native epochs. *)
Theorem target_controls_fenced identity mm source epoch alloc e1 e2 cb0 cb cb' :
  is_u64 epoch ->
  execution_context_binding_init identity mm source epoch alloc e1 e2 = Ok cb0 ->
  steps target_step cb0 cb -> steps target_step cb cb' ->
  (forall A (c : result A) t, t ∈ cb_history cb' ->
     execution_target_control (Some t) cb' c = if bool_decide (t = cb_current cb') then c else Err ESTALE) /\
  (forall t t', t ∈ cb_history cb' -> t' ∈ cb_history cb' ->
     mb_epoch (et_source t) = mb_epoch (et_source t') ->
     et_source t = et_source t' /\ vw_mm (et_view t) = vw_mm (et_view t')) /\
  cb_current cb' ∈ cb_history cb' /\
  execution_binding_view (cb_native cb') = et_view (cb_current cb') /\
  cb_le cb cb'.
Proof.
  intros Hu Hi Hs Hs'. pose proof (target_init_ok _ _ _ _ _ _ _ _ Hu Hi) as H0.
  destruct (target_steps_ok _ _ H0 Hs) as [Hok _]. destruct (target_steps_ok _ _ Hok Hs') as [Hok' Hle].
  destruct Hok' as [H1 H2 H3 H4 H5 H6 H7]. split; [|split; [done|split; [done|split; done]]].
  intros A c t Ht. unfold execution_target_control, execution_binding_control, view_current.
  unfold execution_binding_view in H2.
  assert (Hmm : eb_mm (cb_native cb') = vw_mm (et_view (cb_current cb'))) by (by rewrite <- H2).
  assert (Hep : eb_epoch (cb_native cb') = vw_epoch (et_view (cb_current cb'))) by (by rewrite <- H2).
  rewrite Hmm, Hep. destruct (Z.eqb_spec (vw_epoch (et_view t)) 0) as [Hz|Hz].
  - rewrite bool_decide_eq_false_2; [done|]. intros ->. lia.
  - destruct (H7 t Ht Hz) as [->|[Hlt _]].
    + rewrite !bool_decide_eq_true_2, Z.eqb_refl by done. done.
    + rewrite (bool_decide_eq_false_2 (t = _)) by (intros ->; lia).
      destruct (Z.eqb_spec (vw_epoch (et_view (cb_current cb'))) (vw_epoch (et_view t))); [lia|].
      by rewrite andb_false_r.
Qed.
End target.

(** Two images: the root and one installed later. *)
Definition demo_mms : list execution_mm := [mk_mm 10 None 5; mk_mm 20 (Some 0%nat) 6].
Definition demo_first : vmr_mm_binding := mk_binding 1 10 0 1.
Definition demo_second : vmr_mm_binding := mk_binding 1 20 10 2.
Definition demo_cb0 : execution_context_binding :=
  mk_cb 1 (mk_ebinding 0 7) (mk_etarget demo_first (mk_view 0 7)) [mk_etarget demo_first (mk_view 0 7)].
Definition demo_cb1 : execution_context_binding :=
  (execution_target_publish demo_mms true (Some 1%nat) demo_second (RepCommitted 8) demo_cb0).2.
Lemma target_controls_fenced_witness :
  execution_context_binding_init demo_mms 1 (Some 0%nat) demo_first 7 true 0 0 = Ok demo_cb0 /\
  execution_target_control (Some (mk_etarget demo_first (mk_view 0 7))) demo_cb1 (Ok 3) = Err ESTALE.
Proof.
  split; [vm_compute; reflexivity|].
  assert (Hs : steps (target_step demo_mms) demo_cb0 demo_cb1).
  { eapply steps_next; [apply steps_refl|].
    apply (ts_publish _ true (Some 1%nat) demo_second (RepCommitted 8) _ (Ok (mk_etarget demo_second (mk_view 1 8)))).
    vm_compute. reflexivity. }
  destruct (target_controls_fenced demo_mms 1 (Some 0%nat) demo_first 7 true 0 0 demo_cb0 demo_cb0 demo_cb1)
    as [H _].
  - vm_compute. split; discriminate.
  - vm_compute. reflexivity.
  - apply steps_refl.
  - exact Hs.
  - rewrite H; [vm_compute; reflexivity|]. vm_compute. right. left.
Defined.
End ExecutionTarget.
