(* ===== verification/SourceAdmission.v ===== *)
(** * Admission of guest calls (user/source-admission.h)

    One connection drives one native call at a time: PREPARE installs the
    machine state and begins the call, EXECUTE lets the admitted call run, any
    other request polls.  The functions of the source adapter that a step
    calls are effects: an [adapter] answers each from the log of those before
    it, and every answer is logged under the ticket of the call. *)
From S2P Require Import Prelude Native Proto.
Open Scope Z_scope.

Module SourceAdmission.
Import Proto.

Definition VMCTX_GATE_BEGIN : Z := 1.
Definition VMCTX_GATE_QUERY : Z := 2.
Definition VMCTX_GATE_COMMIT : Z := 3.
Definition VMCTX_GATE_ENTERING : Z := 1.
Definition VMCTX_GATE_ADMITTED : Z := 2.
Definition VMCTX_GATE_RUNNING : Z := 3.
Definition VMCTX_GATE_COMPLETE : Z := 4.
Definition VMR_OP_PREPARE : Z := 0x100e.
Definition VMR_OP_EXECUTE : Z := 0x100f.
Definition VMR_CALL_ENTERING : Z := 1.
Definition VMR_CALL_ADMITTED : Z := 2.
Definition VMR_CALL_RUNNING : Z := 3.
Definition VMR_CALL_COMPLETE : Z := 4.
Definition VMR_PREPARE_SETTLE : Z := 1.
Definition VMR_PREPARE_SNAPSHOT : Z := 2.
Definition VMR_EFFECT_IMAGE : Z := 1.
Definition SYS_execve : Z := 59.
Definition SYS_execveat : Z := 322.

(** The fields of the gate block the adapter reads. *)
Record vmctx_syscall_gate := mk_gate {
  ga_state : Z; ga_ticket : Z; ga_child_host_pid : Z; ga_child_shared_mm : Z;
  ga_call_nr : Z; ga_call_args : list Z; ga_dispatch_ret : Z }.
Definition gate_zero : vmctx_syscall_gate := mk_gate 0 0 0 0 0 [] 0.
Record source_admission := mk_admission {
  sa_gate : vmctx_syscall_gate; sa_admitted_nr : Z; sa_admitted_args : list Z;
  sa_admitted_target : vmr_mm_binding; sa_next : Z;
  sa_active : bool; sa_begun : bool; sa_prepared : bool; sa_committed : bool; sa_birth_seen : bool }.
Definition admission_zero : source_admission :=
  mk_admission gate_zero 0 [] no_binding 0 false false false false false.

Definition set_gate (g : vmctx_syscall_gate) (c : source_admission) : source_admission :=
  mk_admission g (sa_admitted_nr c) (sa_admitted_args c) (sa_admitted_target c) (sa_next c)
    (sa_active c) (sa_begun c) (sa_prepared c) (sa_committed c) (sa_birth_seen c).
Definition set_flags (active begun prepared committed birth_seen : bool) (c : source_admission)
    : source_admission :=
  mk_admission (sa_gate c) (sa_admitted_nr c) (sa_admitted_args c) (sa_admitted_target c) (sa_next c)
    active begun prepared committed birth_seen.
Definition set_begun (c : source_admission) : source_admission :=
  set_flags (sa_active c) true (sa_prepared c) (sa_committed c) (sa_birth_seen c) c.
Definition set_prepared (c : source_admission) : source_admission :=
  set_flags (sa_active c) (sa_begun c) true (sa_committed c) (sa_birth_seen c) c.
Definition set_committed (c : source_admission) : source_admission :=
  set_flags (sa_active c) (sa_begun c) (sa_prepared c) true (sa_birth_seen c) c.
Definition set_birth_seen (c : source_admission) : source_admission :=
  set_flags (sa_active c) (sa_begun c) (sa_prepared c) (sa_committed c) true c.
Definition set_inactive (c : source_admission) : source_admission :=
  set_flags false (sa_begun c) (sa_prepared c) (sa_committed c) (sa_birth_seen c) c.
Definition set_admitted (target : vmr_mm_binding) (nr : Z) (args : list Z) (c : source_admission)
    : source_admission :=
  mk_admission (sa_gate c) nr args target (sa_next c)
    (sa_active c) (sa_begun c) (sa_prepared c) (sa_committed c) (sa_birth_seen c).

(** The fields of the reply a step writes; it clears the others. *)
Record admission_reply := mk_areply {
  ar_ticket : Z; ar_call_state : Z; ar_prepare_flags : Z; ar_effects : Z;
  ar_child_source : Z; ar_child_shared_mm : Z; ar_child_binding : vmr_mm_binding;
  ar_ended : bool; ar_ended_status : Z }.
Definition reply_for (ticket : Z) : admission_reply := mk_areply ticket 0 0 0 0 0 no_binding false 0.
Definition with_state (s : Z) (r : admission_reply) : admission_reply :=
  mk_areply (ar_ticket r) s (ar_prepare_flags r) (ar_effects r) (ar_child_source r) (ar_child_shared_mm r)
    (ar_child_binding r) (ar_ended r) (ar_ended_status r).
Definition with_prepare (f : Z) (r : admission_reply) : admission_reply :=
  mk_areply (ar_ticket r) (ar_call_state r) f (ar_effects r) (ar_child_source r) (ar_child_shared_mm r)
    (ar_child_binding r) (ar_ended r) (ar_ended_status r).
Definition with_child (id shared : Z) (b : vmr_mm_binding) (r : admission_reply) : admission_reply :=
  mk_areply (ar_ticket r) (ar_call_state r) (ar_prepare_flags r) (ar_effects r .| VMR_EFFECT_CHILD) id shared b
    (ar_ended r) (ar_ended_status r).
Definition with_ended (status : Z) (r : admission_reply) : admission_reply :=
  mk_areply (ar_ticket r) VMR_CALL_COMPLETE (ar_prepare_flags r) (ar_effects r) (ar_child_source r)
    (ar_child_shared_mm r) (ar_child_binding r) true status.

(** ** Effects *)
(** The seven registers of the entry frame: orig_rax, rdi, rsi, rdx, r10, r8, r9. *)
Inductive effect :=
| ECredit (epoch ns : Z) (r : Z + unit)
| ESetCpu (frame : list Z) (r : Z + unit)
| EIncall (inside : bool)
| EGate (op : Z) (r : Z + vmctx_syscall_gate)
| ESnapshot (source : Z) (r : Z + vmr_mm_binding)
| EPrepare (target : vmr_mm_binding) (nr : Z) (args : list Z)
| EGetParent (r : Z + unit)
| EChild (ticket : Z) (r : Z + unit)
| EPutParent
| EChildInfo (r : Z + Z)
| ECloseChild
| EAdd (r : Z + Z)
| ECountContext
| EForkNote (child parent : Z)
| ERelroInherit (child parent : Z)
| EDead (r : option Z)
| EForward (target : vmr_mm_binding) (nr : Z) (args : list Z)
| EAccessLog (mm epoch : Z) (r : Z + Z * Z * Z)
| EGetCpu (r : Z + vmr_cpu_state).
(** What forwarding the completed call leaves: the guest's result, the final
    registers and whether they are valid, the kind of mapping change and the
    sequence of the drained mapping log. *)
Record forwarded := mk_forwarded {
  fw_retval : Z; fw_regs : list Z; fw_valid : Z; fw_mapping_kind : Z; fw_mmseq : Z }.
(** Newest first, with the ticket under which it happened. *)
Abbreviation log := (list (Z * effect)).
Record adapter := mk_adapter {
  ad_credit : log -> Z + unit; ad_setcpu : log -> Z + unit;
  ad_gate : log -> Z -> Z + vmctx_syscall_gate; ad_snapshot : log -> Z -> Z + vmr_mm_binding;
  ad_get : log -> Z + unit; ad_child : log -> Z + unit; ad_info : log -> Z + Z; ad_add : log -> Z + Z;
  ad_dead : log -> option Z; ad_forward : log -> forwarded; ad_access : log -> Z + Z * Z * Z;
  ad_getcpu : log -> Z + vmr_cpu_state }.

Record astate := mk_astate { as_call : source_admission; as_log : log }.

Section step.
Context (env : adapter) (id : Z).
Local Abbreviation M := (prog astate).

Definition get_call : M source_admission := fun s => (Ok (as_call s), s).
Definition update (f : source_admission -> source_admission) : M unit := fun s =>
  (Ok (), mk_astate (f (as_call s)) (as_log s)).
(** Log an effect under [ticket] and return its answer. *)
Definition emit {A} (ticket : Z) (r : log -> Z + A) (e : Z + A -> effect) : M A := fun s =>
  let a := r (as_log s) in
  (match a with inl err => Err err | inr x => Ok x end, mk_astate (as_call s) ((ticket, e a) :: as_log s)).
(** For the call in progress. *)
Definition emit_call {A} (r : log -> Z + A) (e : Z + A -> effect) : M A :=
  call ← get_call; emit (sa_next call) r e.
Definition tell (e : effect) : M unit := emit_call (fun _ => inr ()) (fun _ => e).

(** True when the gate is busy. *)
Definition source_admission_native (op : Z) : M bool :=
  r ← attempt (emit_call (fun l => ad_gate env l op) (EGate op));
  match r with
  | inr g => update (set_gate g);; mret false
  | inl e => if (e =? EAGAIN) || (e =? EBUSY) then mret true else fail e
  end.

(** The registration of a live child. *)
Definition birth_register (call : source_admission) (reply : admission_reply) : M (bool * admission_reply) :=
  born ← emit_call (ad_add env) EAdd;
  tell ECountContext;;
  child ← emit_call (fun l => ad_snapshot env l born) (ESnapshot born);
  if negb (vmr_binding_valid (sa_admitted_target call)) then fail EPROTO
  else
    let parent_mm := mb_mm (sa_admitted_target call) in
    let shared := ga_child_shared_mm (sa_gate call) in
    child ← (if shared =? 0 then
        tell (EForkNote (mb_mm child) parent_mm);;
        tell (ERelroInherit (mb_mm child) parent_mm);;
        mret (mk_binding (mb_context child) (mb_mm child) parent_mm (mb_epoch child))
      else if negb (mb_mm child =? parent_mm) then fail ESTALE else mret child);
    update set_birth_seen;;
    mret (false, with_child born (i32 shared) child reply).
(** What follows the export of the child. *)
Definition birth_exported (call : source_admission) (reply : admission_reply) : M (bool * admission_reply) :=
  i ← attempt (emit_call (ad_info env) EChildInfo);
  match i with
  | inl e => tell ECloseChild;; (if e =? EAGAIN then mret (true, reply) else fail e)
  | inr flags =>
      if nz (flags .& VMCTX_CONTEXT_ENDED) then
        tell ECloseChild;; update set_birth_seen;; mret (false, reply)
      else birth_register call reply
  end.
(** True when the birth must be asked for again. *)
Definition source_admission_birth (reply : admission_reply) : M (bool * admission_reply) :=
  call ← get_call;
  if sa_birth_seen call || (ga_child_host_pid (sa_gate call) =? 0) then mret (false, reply)
  else
    emit_call (ad_get env) EGetParent;;
    c ← attempt (emit_call (ad_child env) (EChild (ga_ticket (sa_gate call))));
    tell EPutParent;;
    match c with
    | inl e => if (e =? EBUSY) || (e =? EAGAIN) then mret (true, reply) else fail e
    | inr _ => birth_exported call reply
    end.

(** The part of a step that starts a call, or checks that a poll is one. *)
Definition admission_entry (request : vmr_req) (cpu : vmr_cpu_state) : M unit :=
  call ← get_call;
  if rq_nr request =? VMR_OP_PREPARE then
    if sa_active call || nz (rq_ticket request) ||
       negb (is_ok (vmr_cpu_wire_decode cpu (rq_datalen request))) then fail EPROTO
    else if sa_next call =? U64MAX then fail EOVERFLOW
    else
      let next := u64 (sa_next call + 1) in
      emit next (ad_credit env) (ECredit (rq_execution_epoch request) (rq_execution_ns request));;
      emit next (ad_setcpu env) (ESetCpu (rq_call_nr request :: rq_args request));;
      update (fun _ => mk_admission (mk_gate VMCTX_GATE_ENTERING next 0 0 0 [] 0) 0 [] no_binding next
                         true false false false false);;
      tell (EIncall true)
  else if negb (sa_active call) || negb (rq_ticket request =? ga_ticket (sa_gate call)) ||
          nz (rq_datalen request) || nz (rq_execution_epoch request) || nz (rq_execution_ns request) ||
          nz (rq_call_nr request) || negb (args_zero (rq_args request))
  then fail EPROTO
  else mret ().

Definition is_clone_nr (nr : Z) : bool := (nr =? 56) || (nr =? 57) || (nr =? 58) || (nr =? 435).

(** The admitted call: recorded once, compared afterwards, and committed on
    EXECUTE. *)
Definition admission_admitted (request : vmr_req) (reply : admission_reply) : M admission_reply :=
  observed ← emit_call (fun l => ad_snapshot env l id) (ESnapshot id);
  call ← get_call;
  let g := sa_gate call in
  (if negb (vmr_binding_valid (sa_admitted_target call)) then
     update (set_admitted observed (ga_call_nr g) (ga_call_args g))
   else if negb (vmr_binding_equal (sa_admitted_target call) observed) ||
           negb (sa_admitted_nr call =? ga_call_nr g) || negb (args_equal (sa_admitted_args call) (ga_call_args g))
   then fail ESTALE else mret ());;
  call ← get_call;
  let reply := if is_clone_nr (sa_admitted_nr call)
               then with_prepare (VMR_PREPARE_SETTLE .| VMR_PREPARE_SNAPSHOT) reply else reply in
  (if (rq_nr request =? VMR_OP_EXECUTE) && negb (sa_committed call) then
     (if negb (sa_prepared call) then
        tell (EPrepare (sa_admitted_target call) (sa_admitted_nr call) (sa_admitted_args call));;
        update set_prepared
      else mret ());;
     busy ← source_admission_native VMCTX_GATE_COMMIT;
     (if busy : bool then mret () else update set_committed)
   else mret ());;
  mret reply.

(** True when the completion metadata may be built. *)
Definition source_admission_step (request : vmr_req) (cpu : vmr_cpu_state) : M (bool * admission_reply) :=
  admission_entry request cpu;;
  call ← get_call;
  let reply := reply_for (ga_ticket (sa_gate call)) in
  busy ← (if negb (sa_begun call) then
            busy ← source_admission_native VMCTX_GATE_BEGIN;
            (if busy : bool then mret () else update set_begun);; mret busy
          else source_admission_native VMCTX_GATE_QUERY);
  call ← get_call;
  if busy : bool then
    mret (false, with_state (if sa_committed call then VMR_CALL_RUNNING
                             else if sa_prepared call then VMR_CALL_ADMITTED else VMR_CALL_ENTERING) reply)
  else
    reply ← (if ga_state (sa_gate call) =? VMCTX_GATE_ADMITTED then admission_admitted request reply
             else if (rq_nr request =? VMR_OP_EXECUTE) && negb (sa_committed call) then fail EPROTO
             else mret reply);
    '(again, reply) ← source_admission_birth reply;
    if again : bool then mret (false, with_state VMR_CALL_RUNNING reply)
    else
      dead ← emit_call (fun l => inr (ad_dead env l))
               (fun a => EDead (match a with inr d => d | inl _ => None end));
      match dead with
      | Some status =>
          tell (EIncall false);; update set_inactive;; mret (true, with_ended status reply)
      | None =>
          call ← get_call;
          let state := ga_state (sa_gate call) in
          if state =? VMCTX_GATE_ENTERING then mret (false, with_state VMR_CALL_ENTERING reply)
          else if state =? VMCTX_GATE_ADMITTED then mret (false, with_state VMR_CALL_ADMITTED reply)
          else if state =? VMCTX_GATE_RUNNING then mret (false, with_state VMR_CALL_RUNNING reply)
          else if state =? VMCTX_GATE_COMPLETE then
            if negb (sa_committed call) then fail EPROTO
            else
              tell (EIncall false);; update set_inactive;;
              mret (true, with_state VMR_CALL_COMPLETE reply)
          else fail EPROTO
      end.
(** The binding rule of [source_admission_complete]: a successful exec replaced
    the memory under a later epoch, any other call kept it. *)
Definition is_image (call : source_admission) : bool :=
  ((sa_admitted_nr call =? SYS_execve) || (sa_admitted_nr call =? SYS_execveat)) &&
  (ga_dispatch_ret (sa_gate call) =? 0).
Definition completion_binding_ok (call : source_admission) (observed : vmr_mm_binding) : bool :=
  vmr_binding_valid (sa_admitted_target call) &&
  (if is_image call then
     (mb_context observed =? mb_context (sa_admitted_target call)) &&
     negb (mb_mm observed =? mb_mm (sa_admitted_target call)) &&
     (mb_epoch (sa_admitted_target call) <? mb_epoch observed)
   else vmr_binding_equal observed (sa_admitted_target call)).
(** The fields of the final reply the completion writes. *)
Record completion := mk_completion {
  cm_binding : vmr_mm_binding; cm_retval : Z; cm_regs : list Z; cm_regs_valid : Z; cm_mmseq : Z;
  cm_effects : Z; cm_datalen : Z; cm_cpu : vmr_cpu_state }.
Definition source_admission_complete (reply : admission_reply) : M completion :=
  call ← get_call;
  binding ← emit_call (fun l => ad_snapshot env l id) (ESnapshot id);
  if negb (completion_binding_ok call binding) then fail ESTALE
  else
    f ← emit_call (fun l => inr (ad_forward env l))
          (fun _ => EForward binding (sa_admitted_nr call) (sa_admitted_args call));
    mmseq ← (if fw_mapping_kind f =? VMR_MAP_SET then
        '(mm_id, construction, error) ← emit_call (ad_access env) (EAccessLog (mb_mm binding) (mb_epoch binding));
        if negb (mm_id =? mb_mm binding) || (construction =? 0) || nz error then fail EPROTO
        else mret construction
      else mret (fw_mmseq f));
    cpu ← emit_call (ad_getcpu env) EGetCpu;
    let cpu := mk_cpu (cs_xstate_size cpu) (cs_reserved cpu) (fw_regs f) (cs_xstate cpu) in
    let datalen := vmr_cpu_wire_size cpu in
    if datalen =? 0 then fail EPROTO
    else
      mret (mk_completion binding (fw_retval f) (fw_regs f) (fw_valid f) mmseq
              (if is_image call then ar_effects reply .| VMR_EFFECT_IMAGE else ar_effects reply) datalen cpu).
End step.

(** ** What may happen once per ticket *)
Inductive kind := KCredit | KSetCpu | KBegin | KPrepare | KCommit | KBirth.
#[global] Instance kind_eq_dec : EqDecision kind.
Proof. solve_decision. Defined.
Definition kind_of (e : effect) : option kind :=
  match e with
  | ECredit _ _ _ => Some KCredit
  | ESetCpu _ _ => Some KSetCpu
  | EGate op (inr _) =>
      if op =? VMCTX_GATE_BEGIN then Some KBegin else if op =? VMCTX_GATE_COMMIT then Some KCommit else None
  | EPrepare _ _ _ => Some KPrepare
  | EAdd _ => Some KBirth
  | _ => None
  end.
Definition count (k : kind) (n : Z) (l : log) : Z :=
  Z.of_nat (length (filter (fun x : Z * effect => x.1 = n /\ kind_of x.2 = Some k) l)).
(** A taken COMMIT comes after the preparation of its call. *)
Fixpoint commits_prepared (l : log) : Prop :=
  match l with
  | [] => True
  | (n, e) :: l' =>
      (kind_of e = Some KCommit -> exists b nr args, (n, EPrepare b nr args) ∈ l') /\ commits_prepared l'
  end.
Definition once (l : log) : Prop := (forall k n, count k n l <= 1) /\ commits_prepared l.

Lemma count_cons k n n' e l :
  count k n ((n', e) :: l) = (if decide (n' = n /\ kind_of e = Some k) then 1 else 0) + count k n l.
Proof. unfold count. rewrite filter_cons. simpl. case_decide; simpl; lia. Qed.
Lemma count_nonneg k n l : 0 <= count k n l.
Proof. unfold count. lia. Qed.
Lemma count_fresh k n l : (forall x, x ∈ l -> x.1 < n) -> count k n l = 0.
Proof.
  intros Hl. unfold count. induction l as [|[n' e] l IH]; [done|]. rewrite filter_cons. case_decide as Hd.
  - destruct Hd as [Hn _]. specialize (Hl (n', e) ltac:(by left)). simpl in *. lia.
  - apply IH. intros x Hx. apply Hl. by right.
Qed.

(** The flag that records a kind. *)
Definition flag (k : kind) (c : source_admission) : bool :=
  match k with
  | KCredit | KSetCpu => true
  | KBegin => sa_begun c
  | KPrepare => sa_prepared c
  | KCommit => sa_committed c
  | KBirth => sa_birth_seen c
  end.
(** Between calls; [d] is a kind done and not yet recorded. *)
Record admitted_ok (s : astate) (d : option kind) : Prop := {
  ao_next : 0 <= sa_next (as_call s) <= U64MAX;
  ao_tags : forall x, x ∈ as_log s -> x.1 <= sa_next (as_call s);
  ao_past : forall k n, n < sa_next (as_call s) -> count k n (as_log s) <= 1;
  ao_now : forall k, count k (sa_next (as_call s)) (as_log s) <=
    if decide (d = Some k) then 1 else if flag k (as_call s) then 1 else 0;
  ao_prepared : sa_prepared (as_call s) = true ->
    exists b nr args, (sa_next (as_call s), EPrepare b nr args) ∈ as_log s;
  ao_order : commits_prepared (as_log s)
}.
Lemma admitted_once s d : admitted_ok s d -> once (as_log s).
Proof.
  intros [H1 H2 H3 H4 H5 H6]. split; [|done]. intros k n.
  destruct (Z.lt_total n (sa_next (as_call s))) as [Hn|[->|Hn]]; [by apply H3| |].
  - specialize (H4 k). repeat case_match; lia.
  - rewrite count_fresh; [lia|]. intros x Hx. specialize (H2 x Hx). lia.
Qed.
Lemma admitted_init : admitted_ok (mk_astate admission_zero []) None.
Proof.
  split; simpl; try done.
  - by intros x ?%elem_of_nil.
  - intros k. unfold count. simpl. repeat case_match; lia.
Qed.

(** Logging an effect that is not counted. *)
Lemma push_plain s d e :
  admitted_ok s d -> kind_of e = None ->
  admitted_ok (mk_astate (as_call s) ((sa_next (as_call s), e) :: as_log s)) d.
Proof.
  intros [H1 H2 H3 H4 H5 H6] He. split; cbn [as_call as_log]; try done.
  - intros x [->|Hx]%elem_of_cons; [simpl; lia|by apply H2].
  - intros k n Hn. rewrite count_cons, decide_False by (intros [? ?]; lia). by apply H3.
  - intros k. rewrite count_cons, decide_False by (intros [? ?]; congruence). apply H4.
  - intros Hp. destruct (H5 Hp) as (b & nr & args & Hin). exists b, nr, args. by right.
  - split; [congruence|done].
Qed.
(** Logging one that is, while its flag is down. *)
Lemma push_kind s e k :
  admitted_ok s None -> kind_of e = Some k -> flag k (as_call s) = false ->
  (k = KCommit -> sa_prepared (as_call s) = true) ->
  admitted_ok (mk_astate (as_call s) ((sa_next (as_call s), e) :: as_log s)) (Some k).
Proof.
  intros [H1 H2 H3 H4 H5 H6] He Hk Hc. split; cbn [as_call as_log]; try done.
  - intros x [->|Hx]%elem_of_cons; [simpl; lia|by apply H2].
  - intros k' n Hn. rewrite count_cons, decide_False by (intros [? ?]; lia). by apply H3.
  - intros k'. rewrite count_cons. specialize (H4 k'). destruct (decide (k' = k)) as [->|Hne].
    + rewrite Hk in H4. rewrite decide_False in H4 by done. rewrite (decide_True _ _ eq_refl).
      case_decide; lia.
    + rewrite !decide_False by (naive_solver congruence). rewrite decide_False in H4 by done. done.
  - intros Hp. destruct (H5 Hp) as (b & nr & args & Hin). exists b, nr, args. by right.
  - split; [|done]. intros Hcm. apply H5, Hc. congruence.
Qed.
(** Changing the call without lowering a flag. *)
Lemma update_call s d c :
  admitted_ok s d -> sa_next c = sa_next (as_call s) ->
  (forall k, flag k (as_call s) = true -> flag k c = true) ->
  (forall k, d = Some k -> flag k c = true) ->
  (sa_prepared c = true -> sa_prepared (as_call s) = true \/ exists b nr args,
     (sa_next c, EPrepare b nr args) ∈ as_log s) ->
  admitted_ok (mk_astate c (as_log s)) None.
Proof.
  intros [H1 H2 H3 H4 H5 H6] Hn Hf Hd Hp. split; cbn [as_call as_log]; rewrite ?Hn; try done.
  - intros k. specialize (H4 k). rewrite (decide_False (P := None = Some k)) by done.
    destruct (decide (d = Some k)) as [Hk|]; [by rewrite (Hd k Hk)|].
    destruct (flag k (as_call s)) eqn:Hfk; [by rewrite (Hf k Hfk)|]. case_match; lia.
  - intros Hpr. destruct (Hp Hpr) as [?|Hex]; [by apply H5|]. by rewrite Hn in Hex.
Qed.

Section rules.
Context (env : adapter) (id : Z).
Implicit Types (s : astate).

Lemma wp_get_call (Q : result source_admission -> astate -> Prop) s : Q (Ok (as_call s)) s -> wp get_call Q s.
Proof. done. Qed.
Lemma wp_update f (Q : result unit -> astate -> Prop) s :
  Q (Ok ()) (mk_astate (f (as_call s)) (as_log s)) -> wp (update f) Q s.
Proof. done. Qed.
Lemma wp_emit {A} ticket (r : log -> Z + A) e Q s :
  (forall a, Q (answered a) (mk_astate (as_call s) ((ticket, e a) :: as_log s))) -> wp (emit ticket r e) Q s.
Proof. intros HQ. apply HQ. Qed.
Lemma wp_emit_call {A} (r : log -> Z + A) e Q s :
  (forall a, Q (answered a) (mk_astate (as_call s) ((sa_next (as_call s), e a) :: as_log s))) ->
  wp (emit_call r e) Q s.
Proof. intros HQ. unfold wp, emit_call, mbind, prog_bind, get_call, emit. apply HQ. Qed.

(** A program that keeps the books: whatever it returns nothing was repeated,
    and on success everything done is recorded. *)
Definition keeps {A} (P : A -> astate -> Prop) (r : result A) (s' : astate) : Prop :=
  match r with
  | Ok a => admitted_ok s' None /\ P a s'
  | Err _ => once (as_log s')
  | _ => False
  end.

Lemma wp_plain {A} (r : log -> Z + A) e (Q : result A -> astate -> Prop) s d :
  admitted_ok s d -> (forall a, kind_of (e a) = None) ->
  (forall a s', admitted_ok s' d -> as_call s' = as_call s -> Q (answered a) s') ->
  wp (emit_call r e) Q s.
Proof. intros Hok He HQ. apply wp_emit_call. intros a. apply HQ; [|done]. by apply push_plain. Qed.
Lemma wp_tell e (Q : result unit -> astate -> Prop) s d :
  admitted_ok s d -> kind_of e = None ->
  (forall s', admitted_ok s' d -> as_call s' = as_call s -> Q (Ok ()) s') ->
  wp (tell e) Q s.
Proof. intros Hok He HQ. unfold wp. apply HQ; [by apply push_plain|done]. Qed.
Lemma wp_dead (Q : result (option Z) -> astate -> Prop) s d :
  admitted_ok s d ->
  (forall x s', admitted_ok s' d -> as_call s' = as_call s -> Q (Ok x) s') ->
  wp (emit_call (fun l => inr (ad_dead env l))
        (fun a => EDead (match a with inr x => x | inl _ => None end))) Q s.
Proof. intros Hok HQ. unfold wp. apply HQ; [|done]. by apply push_plain. Qed.

Lemma gate_keeps s d g :
  admitted_ok s d -> admitted_ok (mk_astate (set_gate g (as_call s)) (as_log s)) d.
Proof. intros [H1 H2 H3 H4 H5 H6]. by split. Qed.

Definition op_kind (op : Z) : option kind :=
  if op =? VMCTX_GATE_BEGIN then Some KBegin else if op =? VMCTX_GATE_COMMIT then Some KCommit else None.
Lemma native_spec op s :
  admitted_ok s None -> (op = VMCTX_GATE_BEGIN -> sa_begun (as_call s) = false) ->
  (op = VMCTX_GATE_COMMIT -> sa_committed (as_call s) = false /\ sa_prepared (as_call s) = true) ->
  wp (source_admission_native env op) (fun r s' =>
    match r with
    | Ok true => admitted_ok s' None /\ as_call s' = as_call s
    | Ok false => admitted_ok s' (op_kind op) /\ exists g, as_call s' = set_gate g (as_call s)
    | Err _ => once (as_log s')
    | _ => False
    end) s.
Proof.
  intros Hok Hb Hc. unfold source_admission_native. apply wp_bind, wp_attempt, wp_emit_call.
  intros [e|g]; cbn [answered].
  - assert (Hp : admitted_ok (mk_astate (as_call s) ((sa_next (as_call s), EGate op (inl e)) :: as_log s)) None)
      by (by apply push_plain).
    destruct (_ || _); [apply wp_ret; done|apply wp_fail]. by eapply admitted_once.
  - assert (Hp : admitted_ok (mk_astate (as_call s) ((sa_next (as_call s), EGate op (inr g)) :: as_log s)) (op_kind op)).
    { unfold op_kind. destruct (Z.eqb_spec op VMCTX_GATE_BEGIN) as [->|H1].
      - apply push_kind; [done|done|by apply Hb|done].
      - destruct (Z.eqb_spec op VMCTX_GATE_COMMIT) as [->|H2].
        + apply push_kind; [done|done|by apply Hc|by intros _; apply Hc].
        + apply push_plain; [done|]. simpl. by rewrite (proj2 (Z.eqb_neq _ _) H1), (proj2 (Z.eqb_neq _ _) H2). }
    apply wp_bind, wp_update, wp_ret. split; [exact (gate_keeps _ _ g Hp)|]. by exists g.
Qed.

Lemma register_spec call reply s :
  admitted_ok s None -> sa_birth_seen (as_call s) = false ->
  wp (birth_register env call reply) (keeps (fun _ _ => True)) s.
Proof.
  intros Hok Hseen. unfold birth_register. apply wp_bind, wp_emit_call. intros ad.
  assert (Hok5 : admitted_ok (mk_astate (as_call s) ((sa_next (as_call s), EAdd ad) :: as_log s)) (Some KBirth))
    by (by apply push_kind).
  destruct ad as [e|born]; cbn [answered]; [by eapply admitted_once|].
  apply wp_bind. eapply wp_tell; [done|done|]. intros s6 Hok6 _.
  apply wp_bind. eapply wp_plain; [done|done|]. intros [e|child] s7 Hok7 _; cbn [answered]; [by eapply admitted_once|].
  destruct (negb _); [apply wp_fail; by eapply admitted_once|].
  assert (Hlast : forall (ch : vmr_mm_binding) s8, admitted_ok s8 (Some KBirth) ->
    wp (update set_birth_seen;;
        mret (false, with_child born (i32 (ga_child_shared_mm (sa_gate call))) ch reply))
      (keeps (fun _ _ => True)) s8).
  { intros ch s8 Hok8. apply wp_bind, wp_update, wp_ret. split; [|done].
    eapply update_call; [done|done|by intros []|by intros k [=<-]|by left]. }
  apply wp_bind. cbv zeta. destruct (ga_child_shared_mm (sa_gate call) =? 0).
  - apply wp_bind. eapply wp_tell; [done|done|]. intros s8 Hok8 _.
    apply wp_bind. eapply wp_tell; [done|done|]. intros s9 Hok9 _. apply wp_ret. by apply Hlast.
  - destruct (negb _); [apply wp_fail; by eapply admitted_once|]. apply wp_ret. by apply Hlast.
Qed.
Lemma exported_spec call reply s :
  admitted_ok s None -> sa_birth_seen (as_call s) = false ->
  wp (birth_exported env call reply) (keeps (fun _ _ => True)) s.
Proof.
  intros Hok Hseen. unfold birth_exported.
  apply wp_bind, wp_attempt. eapply wp_plain; [done|done|]. intros [e|flags] s4 Hok4 Hc4; cbn [answered].
  { apply wp_bind. eapply wp_tell; [done|done|]. intros s5 Hok5 _.
    destruct (e =? EAGAIN); [by apply wp_ret|apply wp_fail; by eapply admitted_once]. }
  destruct (nz (flags .& VMCTX_CONTEXT_ENDED)).
  - apply wp_bind. eapply wp_tell; [done|done|]. intros s5 Hok5 _. apply wp_bind, wp_update, wp_ret.
    split; [|done]. eapply update_call; [done|done|by intros []|done|by left].
  - apply register_spec; [done|]. by rewrite Hc4.
Qed.
Lemma birth_spec reply s :
  admitted_ok s None ->
  wp (source_admission_birth env reply) (keeps (fun _ _ => True)) s.
Proof.
  intros Hok. unfold source_admission_birth. apply wp_bind, wp_get_call.
  destruct (_ || _) eqn:Hg; [by apply wp_ret|]. apply orb_false_iff in Hg as [Hseen _].
  apply wp_bind. eapply wp_plain; [done|done|]. intros [e|[]] s1 Hok1 Hc1; cbn [answered]; [by eapply admitted_once|].
  apply wp_bind, wp_attempt. eapply wp_plain; [done|done|]. intros [e|[]] s2 Hok2 Hc2; cbn [answered];
    apply wp_bind; (eapply wp_tell; [done|done|]); intros s3 Hok3 Hc3.
  - destruct (_ || _); [by apply wp_ret|apply wp_fail; by eapply admitted_once].
  - apply exported_spec; [done|]. by rewrite Hc3, Hc2, Hc1.
Qed.

Lemma entry_spec request cpu s :
  admitted_ok s None -> wp (admission_entry env request cpu) (keeps (fun _ _ => True)) s.
Proof.
  intros Hok. pose proof Hok as [H1 H2 H3 H4 H5 H6]. pose proof (admitted_once s None Hok) as Hw.
  unfold admission_entry. apply wp_bind, wp_get_call. destruct (rq_nr request =? VMR_OP_PREPARE).
  2:{ destruct (_ || _); [by apply wp_fail|by apply wp_ret]. }
  destruct (_ || _); [by apply wp_fail|]. destruct (Z.eqb_spec (sa_next (as_call s)) U64MAX) as [|Hmax]; [by apply wp_fail|].
  rewrite u64_small by (unfold is_u64; lia). set (n := sa_next (as_call s) + 1).
  assert (Hfresh : forall k m, m >= n -> count k m (as_log s) = 0).
  { intros k m Hm. apply count_fresh. intros x Hx. specialize (H2 x Hx). lia. }
  assert (Hcr : forall r, once ((n, ECredit (rq_execution_epoch request) (rq_execution_ns request) r) :: as_log s)).
  { intros r. split; [|split; [done|apply Hw]]. intros k m. rewrite count_cons. case_decide as Hd.
    - destruct Hd as [<- _]. rewrite Hfresh by lia. lia.
    - apply Hw. }
  apply wp_bind, wp_emit. intros [e|[]]; cbn [answered]; [apply Hcr|].
  apply wp_bind, wp_emit. intros [e|[]]; cbn [answered as_call as_log].
  { cbn [keeps as_log]. split; [|split; [done|apply Hcr]]. intros k m. rewrite !count_cons.
    destruct (decide (m = n)) as [->|Hne]; [rewrite Hfresh by lia|].
    - repeat case_decide; naive_solver lia.
    - rewrite !decide_False by naive_solver. apply Hw. }
  apply wp_bind, wp_update. unfold wp, tell, emit_call, mbind, prog_bind, get_call, emit.
  cbn [fst snd as_call as_log sa_next keeps]. split; [|done]. split; cbn [as_call as_log sa_next].
  - lia.
  - intros x Hx. set_unfold in Hx. destruct Hx as [->|[->|[->|Hx]]]; cbn [fst]; [lia|lia|lia|].
    specialize (H2 x Hx). lia.
  - intros k m Hm. rewrite !count_cons, !decide_False by (intros [? ?]; lia).
    apply Hw.
  - intros k. rewrite !count_cons, Hfresh by lia. rewrite (decide_False (P := None = Some k)) by done.
    destruct k; cbn [kind_of flag sa_begun sa_prepared sa_committed sa_birth_seen];
      repeat case_decide; naive_solver lia.
  - done.
  - split; [done|]. split; [done|]. split; done.
Qed.

Lemma commit_spec s :
  admitted_ok s None -> sa_committed (as_call s) = false -> sa_prepared (as_call s) = true ->
  wp (busy ← source_admission_native env VMCTX_GATE_COMMIT; if busy : bool then mret () else update set_committed)
    (keeps (fun _ _ => True)) s.
Proof.
  intros Hok Hc Hp. apply wp_bind. eapply wp_mono; [by apply native_spec|].
  intros [[]|e| | |] s' Hs'; try done.
  - destruct Hs' as [? _]. by apply wp_ret.
  - destruct Hs' as [Hok' [g Hg]]. apply wp_update. split; [|done].
    eapply update_call; [done|done|by intros []|by intros k [=<-]|by left].
Qed.
Lemma admitted_spec request reply s :
  admitted_ok s None -> wp (admission_admitted env id request reply) (keeps (fun _ _ => True)) s.
Proof.
  intros Hok. unfold admission_admitted. apply wp_bind. eapply wp_plain; [done|done|].
  intros [e|observed] s1 Hok1 _; cbn [answered]; [by eapply admitted_once|].
  apply wp_bind, wp_get_call. cbv zeta.
  assert (Hrest : forall s2, admitted_ok s2 None ->
    wp (call ← get_call;
        (if (rq_nr request =? VMR_OP_EXECUTE) && negb (sa_committed call) then
           (if negb (sa_prepared call) then
              tell (EPrepare (sa_admitted_target call) (sa_admitted_nr call) (sa_admitted_args call));;
              update set_prepared
            else mret ());;
           busy ← source_admission_native env VMCTX_GATE_COMMIT;
           (if busy : bool then mret () else update set_committed)
         else mret ());;
        mret (if is_clone_nr (sa_admitted_nr call)
               then with_prepare (VMR_PREPARE_SETTLE .| VMR_PREPARE_SNAPSHOT) reply else reply))
      (keeps (fun _ _ => True)) s2).
  { intros s2 Hok2. apply wp_bind, wp_get_call. apply wp_bind.
    destruct (_ && _) eqn:Hex; [|by apply wp_ret, wp_ret]. apply andb_true_iff in Hex as [_ Hc].
    apply negb_true_iff in Hc. apply wp_bind.
    assert (Hcommit : forall s3, admitted_ok s3 None -> sa_committed (as_call s3) = false ->
      sa_prepared (as_call s3) = true ->
      wp (busy ← source_admission_native env VMCTX_GATE_COMMIT; (if busy : bool then mret () else update set_committed))
        (fun r s' => match r with
          | Ok _ => wp (mret (if is_clone_nr (sa_admitted_nr (as_call s2))
               then with_prepare (VMR_PREPARE_SETTLE .| VMR_PREPARE_SNAPSHOT) reply else reply))
               (keeps (fun _ _ => True)) s'
          | Err e => keeps (fun _ _ => True) (Err e : result admission_reply) s'
          | Aborted => keeps (fun _ _ => True) (Aborted : result admission_reply) s'
          | Corrupt => keeps (fun _ _ => True) (Corrupt : result admission_reply) s'
          | Hung => keeps (fun _ _ => True) (Hung : result admission_reply) s' end) s3).
    { intros s3 H1 H2 H3. eapply wp_mono; [by apply commit_spec|]. by intros [] s'. }
    destruct (sa_prepared (as_call s2)) eqn:Hp; cbn [negb]; [by apply wp_ret, Hcommit|].
    apply wp_bind. unfold wp at 1, tell, emit_call, mbind, prog_bind, get_call, emit. cbn [fst snd].
    set (e := EPrepare _ _ _).
    assert (Hok3 : admitted_ok (mk_astate (as_call s2) ((sa_next (as_call s2), e) :: as_log s2)) (Some KPrepare))
      by (by apply push_kind).
    apply wp_update. apply Hcommit; [|done|done].
    eapply update_call; [done|done|by intros []|by intros k [=<-]|]. intros _. right.
    eexists _, _, _. by left. }
  destruct (negb (vmr_binding_valid _)).
  - apply wp_bind, wp_update, Hrest. eapply update_call; [done|done|by intros []|done|by left].
  - destruct (_ || _); [apply wp_bind, wp_fail; by eapply admitted_once|by apply wp_bind, wp_ret, Hrest].
Qed.

Definition finished_ok (x : bool * admission_reply) (s : astate) : Prop :=
  x.1 = true -> ar_call_state x.2 = VMR_CALL_COMPLETE /\ sa_active (as_call s) = false /\
    (ar_ended x.2 = true \/ sa_committed (as_call s) = true).
Lemma step_spec request cpu s :
  admitted_ok s None ->
  wp (source_admission_step env id request cpu) (keeps finished_ok) s.
Proof.
  intros Hok. unfold source_admission_step. apply wp_bind. eapply wp_mono; [by apply entry_spec|].
  intros [[]|e| | |] s1 H1; try done. destruct H1 as [Hok1 _]. apply wp_bind, wp_get_call. cbv zeta.
  apply wp_bind.
  set (P := keeps (fun (_ : bool) (_ : astate) => True)).
  assert (Hnat : wp (if negb (sa_begun (as_call s1)) then
      busy ← source_admission_native env VMCTX_GATE_BEGIN;
      (if busy : bool then mret () else update set_begun);; mret busy
    else source_admission_native env VMCTX_GATE_QUERY) P s1).
  { destruct (sa_begun (as_call s1)) eqn:Hb; cbn [negb].
    - eapply wp_mono; [by apply native_spec|]. intros [[]|e| | |] s2 H2; try done; [by destruct H2|].
      destruct H2 as [H2 _]. done.
    - apply wp_bind. eapply wp_mono; [by apply native_spec|]. intros [[]|e| | |] s2 H2; try done.
      + destruct H2 as [H2 _]. by apply wp_bind, wp_ret, wp_ret.
      + destruct H2 as [H2 _]. apply wp_bind, wp_update, wp_ret. split; [|done].
        eapply update_call; [done|done|by intros []|by intros k [=<-]|by left]. }
  eapply wp_mono; [exact Hnat|]. clear Hnat. subst P. intros [busy|e| | |] s2 H2; try done. destruct H2 as [Hok2 _].
  apply wp_bind, wp_get_call. destruct busy; [by apply wp_ret|]. apply wp_bind.
  set (reply := reply_for _).
  assert (Hadm : wp (if ga_state (sa_gate (as_call s2)) =? VMCTX_GATE_ADMITTED
      then admission_admitted env id request reply
      else if (rq_nr request =? VMR_OP_EXECUTE) && negb (sa_committed (as_call s2)) then fail EPROTO
      else mret reply) (keeps (fun _ _ => True)) s2).
  { destruct (_ =? VMCTX_GATE_ADMITTED); [by apply admitted_spec|].
    destruct (_ && _); [apply wp_fail; by eapply admitted_once|by apply wp_ret]. }
  eapply wp_mono; [exact Hadm|]. clear Hadm. intros [reply'|e| | |] s3 H3; try done. destruct H3 as [Hok3 _].
  apply wp_bind. eapply wp_mono; [by apply birth_spec|]. intros [[again reply2]|e| | |] s4 H4; try done.
  destruct H4 as [Hok4 _]. destruct again; [by apply wp_ret|].
  apply wp_bind. eapply wp_dead; [done|]. intros [status|] s5 Hok5 _.
  - apply wp_bind. eapply wp_tell; [done|done|]. intros s6 Hok6 _. apply wp_bind, wp_update, wp_ret.
    split; [eapply update_call; [done|done|by intros []|done|by left]|]. intros _. simpl. auto.
  - apply wp_bind, wp_get_call. cbv zeta.
    destruct (_ =? VMCTX_GATE_ENTERING); [by apply wp_ret|].
    destruct (_ =? VMCTX_GATE_ADMITTED); [by apply wp_ret|].
    destruct (_ =? VMCTX_GATE_RUNNING); [by apply wp_ret|].
    destruct (_ =? VMCTX_GATE_COMPLETE); [|apply wp_fail; by eapply admitted_once].
    destruct (sa_committed (as_call s5)) eqn:Hc; cbn [negb]; [|apply wp_fail; by eapply admitted_once].
    apply wp_bind. eapply wp_tell; [done|done|]. intros s6 Hok6 Hc6. apply wp_bind, wp_update, wp_ret.
    split; [eapply update_call; [done|done|by intros []|done|by left]|]. intros _. simpl. rewrite Hc6. auto.
Qed.
End rules.

(** ** The connection: steps until one fails *)
Definition admission_step (env : adapter) (id : Z) (s s' : astate) : Prop :=
  exists request cpu x, source_admission_step env id request cpu s = (Ok x, s').
Lemma admission_reachable env id s :
  steps (admission_step env id) (mk_astate admission_zero []) s -> admitted_ok s None.
Proof.
  apply (steps_invariant _ (fun s => admitted_ok s None)); [|apply admitted_init].
  intros s1 s2 Hok (request & cpu & x & Hs).
  by destruct (wp_run _ _ _ _ _ (step_spec env id request cpu s1 Hok) Hs).
Qed.

Lemma wp_emit_inr {A} (f : log -> A) e (Q : result A -> astate -> Prop) s :
  Q (Ok (f (as_log s))) (mk_astate (as_call s) ((sa_next (as_call s), e (inr (f (as_log s)))) :: as_log s)) ->
  wp (emit_call (fun l => inr (f l)) e) Q s.
Proof. done. Qed.
(** A completion is built for the binding of the admission, or for the later
    image a successful exec installed, and its payload has a valid frame. *)
Lemma complete_spec env id reply s :
  wp (source_admission_complete env id reply) (fun r _ =>
    match r with
    | Ok c => completion_binding_ok (as_call s) (cm_binding c) = true /\
        cm_effects c = (if is_image (as_call s) then ar_effects reply .| VMR_EFFECT_IMAGE else ar_effects reply) /\
        cm_datalen c = vmr_cpu_wire_size (cm_cpu c) /\ cm_datalen c <> 0
    | Err _ => True
    | _ => False
    end) s.
Proof.
  unfold source_admission_complete. apply wp_bind, wp_get_call, wp_bind, wp_emit_call.
  intros [e|binding]; cbn [answered]; [done|].
  destruct (completion_binding_ok (as_call s) binding) eqn:Hb; cbn [negb]; [|by apply wp_fail].
  apply wp_bind, wp_emit_inr. apply wp_bind.
  eapply (wp_mono _ (fun r _ => match r with Ok _ | Err _ => True | _ => False end)).
  { destruct (_ =? VMR_MAP_SET); [|by apply wp_ret]. apply wp_bind, wp_emit_call.
    intros [e|[[mm c] er]]; cbn [answered]; [done|]. by destruct (_ || _); [apply wp_fail|apply wp_ret]. }
  intros [mmseq|e| | |] s2 H2; try done.
  apply wp_bind, wp_emit_call. intros [e|cpu]; cbn [answered]; [done|]. cbv zeta.
  destruct (_ =? 0) eqn:Hz; [by apply wp_fail|]. apply wp_ret. cbn [cm_binding cm_effects cm_datalen cm_cpu].
  split; [done|]. split; [done|]. split; [done|]. lia.
Qed.

(** C10: Whatever the source adapter answers, a connection never repeats the
    work of a call: up to and including the first step that fails, for every
    ticket the runtime credit, the installation of the machine state, the
    beginning of the call, the memory preparation, the commitment and the
    registration of a birth each happen at most once, and a commitment is only
    taken after its preparation.  A step that reports completion leaves no call
    active, and the call was committed unless its task ended; the completion is built
    only for the binding the call was admitted under or, after a successful exec
    and only then, for a later image of the same context. *)
Theorem admission_never_repeats env id s request cpu r s' :
  steps (admission_step env id) (mk_astate admission_zero []) s ->
  source_admission_step env id request cpu s = (r, s') ->
  (forall k n, count k n (as_log s') <= 1) /\ commits_prepared (as_log s') /\
  match r with
  | Ok (done, reply) => done = true ->
      ar_call_state reply = VMR_CALL_COMPLETE /\ sa_active (as_call s') = false /\
      (ar_ended reply = true \/ sa_committed (as_call s') = true)
  | Err _ => True
  | _ => False
  end /\
  (forall reply c s'', source_admission_complete env id reply s' = (Ok c, s'') ->
     completion_binding_ok (as_call s') (cm_binding c) = true /\
     cm_effects c = (if is_image (as_call s') then ar_effects reply .| VMR_EFFECT_IMAGE else ar_effects reply)).
Proof.
  intros Hs Hr. apply admission_reachable in Hs.
  assert (Hcm : forall reply c s'', source_admission_complete env id reply s' = (Ok c, s'') ->
    completion_binding_ok (as_call s') (cm_binding c) = true /\
    cm_effects c = (if is_image (as_call s') then ar_effects reply .| VMR_EFFECT_IMAGE else ar_effects reply)).
  { intros reply c s'' Hc. by destruct (wp_run _ _ _ _ _ (complete_spec env id reply s') Hc) as (? & ? & _). }
  pose proof (wp_run _ _ _ _ _ (step_spec env id request cpu s Hs) Hr) as Hk.
  destruct r as [[fin reply]|e| | |]; try done.
  - destruct Hk as [Hok Hf]. destruct (admitted_once _ _ Hok) as [H1 H2]. done.
  - destruct Hk as [H1 H2]. done.
Qed.

(** An adapter that admits and completes call 39 at once. *)
Definition demo_gate (state : Z) : vmctx_syscall_gate := mk_gate state 1 0 0 39 [0; 0; 0; 0; 0; 0] 12.
Definition demo_adapter : adapter := mk_adapter
  (fun _ => inr ()) (fun _ => inr ())
  (fun _ op => inr (demo_gate (if op =? VMCTX_GATE_COMMIT then VMCTX_GATE_COMPLETE else VMCTX_GATE_ADMITTED)))
  (fun _ id => inr (mk_binding id 7 0 1)) (fun _ => inr ()) (fun _ => inr ()) (fun _ => inr 0)
  (fun _ => inr 2) (fun _ => None) (fun _ => mk_forwarded 12 [] 1 0 3) (fun _ => inr (7, 3, 0))
  (fun _ => inr (mk_cpu 576 0 [] [])).
Definition demo_request (nr ticket datalen : Z) : vmr_req :=
  mk_req 0 nr (if nr =? VMR_OP_PREPARE then 39 else 0) ticket 0 0 [0; 0; 0; 0; 0; 0] datalen no_binding.
Definition demo_frame : vmr_cpu_state := mk_cpu 576 0 [] [].
Definition demo_admitted : astate :=
  (source_admission_step demo_adapter 1 (demo_request VMR_OP_PREPARE 0 752) demo_frame
     (mk_astate admission_zero [])).2.
Lemma admission_never_repeats_witness :
  exists reply, (source_admission_step demo_adapter 1 (demo_request VMR_OP_EXECUTE 1 0) demo_frame demo_admitted).1
    = Ok (true, reply) /\ ar_call_state reply = VMR_CALL_COMPLETE /\
  commits_prepared (as_log (source_admission_step demo_adapter 1 (demo_request VMR_OP_EXECUTE 1 0) demo_frame
    demo_admitted).2).
Proof.
  eexists. split; [vm_compute; reflexivity|]. split; [vm_compute; reflexivity|].
  edestruct (admission_never_repeats demo_adapter 1 demo_admitted (demo_request VMR_OP_EXECUTE 1 0) demo_frame)
    as (_ & H & _); [|apply surjective_pairing|exact H].
  eapply steps_next; [apply steps_refl|].
  eexists (demo_request VMR_OP_PREPARE 0 752), demo_frame, _. vm_compute. reflexivity.
Defined.
End SourceAdmission.
