(* ===== verification/MonitorOwner.v ===== *)
(** * The attach queue (user/monitor-owner.h)

    One thread attaches every context, so that the native owner lives as long
    as the session.  Callers put a request from their own stack on a linked
    queue and wait; the worker takes the head, attaches without the lock, and
    publishes the answer under it.  Requests are linked by pointers; here a
    pointer is a position in the list of requests ever made. *)
From S2P Require Import Prelude.
Open Scope Z_scope.

Module MonitorOwner.

(** [ar_gone]: the caller has returned and its stack frame is dead. *)
Record monitor_attach_request := mk_request {
  ar_pid : Z; ar_result : Z; ar_error : Z; ar_done : bool; ar_next : option nat; ar_gone : bool }.
(** [mo_served] is the request the worker holds without the lock, with the
    answer of the native attach once it has it. *)
Record monitor_owner := mk_owner {
  mo_requests : list monitor_attach_request; mo_head : option nat; mo_tail : option nat;
  mo_serving : option nat; mo_attached : list Z }.
Definition owner_init : monitor_owner := mk_owner [] None None None [].

Definition set_next (n : nat) (r : monitor_attach_request) : monitor_attach_request :=
  mk_request (ar_pid r) (ar_result r) (ar_error r) (ar_done r) (Some n) (ar_gone r).
Definition set_done (result error : Z) (r : monitor_attach_request) : monitor_attach_request :=
  mk_request (ar_pid r) result error true (ar_next r) (ar_gone r).
Definition set_gone (r : monitor_attach_request) : monitor_attach_request :=
  mk_request (ar_pid r) (ar_result r) (ar_error r) (ar_done r) (ar_next r) true.
(** A request that is written while its frame is dead is a wild access. *)
Definition update_request (i : nat) (f : monitor_attach_request -> monitor_attach_request)
    (rs : list monitor_attach_request) : result (list monitor_attach_request) :=
  match rs !! i with
  | Some r => if ar_gone r then Corrupt else Ok (<[i := f r]> rs)
  | None => Corrupt
  end.

(** Before it queues: the worker is started once, and the first error of
    pthread_once, of starting the worker or of the condition is returned. *)
Definition monitor_owner_start (create_error : Z) : Z := create_error.
Definition attach_ready (once_error create_error cond_error : Z) : result unit :=
  let error := once_error in
  let error := if error =? 0 then monitor_owner_start create_error else error in
  let error := if error =? 0 then cond_error else error in
  if nz error then Err error else Ok ().
(** The section of [monitor_attach] that queues the request. *)
Definition attach_enqueue (pid : Z) (o : monitor_owner) : result monitor_owner :=
  let new := length (mo_requests o) in
  let rs := mo_requests o ++ [mk_request pid 0 0 false None false] in
  match mo_tail o with
  | Some t =>
      let! rs := update_request t (set_next new) rs in
      Ok (mk_owner rs (mo_head o) (Some new) (mo_serving o) (mo_attached o))
  | None => Ok (mk_owner rs (Some new) (Some new) (mo_serving o) (mo_attached o))
  end.
(** The end of its wait: the answer, once it is there. *)
Definition attach_return (i : nat) (o : monitor_owner) : result (Z * Z) * monitor_owner :=
  match mo_requests o !! i with
  | Some r =>
      if ar_gone r then (Corrupt, o)
      else if negb (ar_done r) then (Hung, o)
      else (Ok (ar_result r, ar_error r),
            mk_owner (<[i := set_gone r]> (mo_requests o)) (mo_head o) (mo_tail o) (mo_serving o) (mo_attached o))
  | None => (Corrupt, o)
  end.
(** The worker takes the head; [None] while the queue is empty. *)
Definition worker_take (o : monitor_owner) : result (option monitor_owner) :=
  match mo_head o with
  | None => Ok None
  | Some i =>
      match mo_requests o !! i with
      | Some r =>
          if ar_gone r then Corrupt
          else
            Ok (Some (mk_owner (mo_requests o) (ar_next r)
              (match ar_next r with None => None | Some _ => mo_tail o end) (Some i) (mo_attached o)))
      | None => Corrupt
      end
  end.
(** It attaches, and publishes the answer: -1 with the error, or the result. *)
Definition worker_complete (answer : Z + Z) (o : monitor_owner) : result monitor_owner :=
  match mo_serving o with
  | None => Corrupt
  | Some i =>
      match mo_requests o !! i with
      | None => Corrupt
      | Some r =>
          let! rs := update_request i
            (match answer with inl e => set_done (-1) e | inr v => set_done v 0 end) (mo_requests o) in
          Ok (mk_owner rs (mo_head o) (mo_tail o) None (ar_pid r :: mo_attached o))
      end
  end.

(** Any number of callers and the worker. *)
Inductive owner_step : monitor_owner -> monitor_owner -> Prop :=
| os_enqueue pid o o' : attach_enqueue pid o = Ok o' -> owner_step o o'
| os_return i x o o' : attach_return i o = (Ok x, o') -> owner_step o o'
| os_take o o' : mo_serving o = None -> worker_take o = Ok (Some o') -> owner_step o o'
| os_complete answer o o' : worker_complete answer o = Ok o' -> owner_step o o'.

(** ** The queue as a list *)

(** [q] is the chain of positions from [p]. *)
Fixpoint chain (rs : list monitor_attach_request) (p : option nat) (q : list nat) : Prop :=
  match q with
  | [] => p = None
  | i :: q' => p = Some i /\ exists r, rs !! i = Some r /\ ar_gone r = false /\ ar_done r = false /\
      chain rs (ar_next r) q'
  end.
Definition served_or_done (o : monitor_owner) (i : nat) : Prop :=
  mo_serving o = Some i \/ exists r, mo_requests o !! i = Some r /\ ar_done r = true.
(** The queue holds the last requests, in order of arrival: all before it are
    done or being served. *)
Record owner_ok (o : monitor_owner) (first : nat) : Prop := {
  oo_bound : (first <= length (mo_requests o))%nat;
  oo_chain : chain (mo_requests o) (mo_head o) (seq first (length (mo_requests o) - first));
  oo_tail : mo_tail o = last (seq first (length (mo_requests o) - first));
  oo_past : forall i r, (i < first)%nat -> mo_requests o !! i = Some r -> mo_serving o <> Some i -> ar_done r = true;
  oo_serving : forall i, mo_serving o = Some i ->
    (S i = first)%nat /\ exists r, mo_requests o !! i = Some r /\ ar_done r = false /\ ar_gone r = false;
  oo_attached : mo_attached o = reverse (ar_pid <$> take (match mo_serving o with Some i => i | None => first end) (mo_requests o));
  oo_gone : forall i r, mo_requests o !! i = Some r -> ar_gone r = true -> ar_done r = true
}.

Lemma chain_frame rs rs' p q :
  (forall i r, i ∈ q -> rs !! i = Some r -> rs' !! i = Some r) -> chain rs p q -> chain rs' p q.
Proof.
  revert p. induction q as [|i q IH]; intros p Hf; [done|]. simpl. intros (-> & r & Hr & Hg & Hd & Hc).
  split; [done|]. exists r. split; [apply Hf; [by left|done]|]. split; [done|]. split; [done|].
  apply IH; [|done]. intros j r' Hj. apply Hf. by right.
Qed.
(** Linking a new request behind the last. *)
Lemma chain_snoc rs p q t r new x :
  chain rs p (q ++ [t]) -> NoDup (q ++ [t]) -> new ∉ q ++ [t] ->
  rs !! t = Some r -> ar_next r = None ->
  rs !! new = Some x -> ar_gone x = false -> ar_done x = false -> ar_next x = None ->
  chain (<[t := set_next new r]> rs) p ((q ++ [t]) ++ [new]).
Proof.
  intros Hc Hnd Hnew Ht Hn Hx Hxg Hxd Hxn. revert p Hc. 
  assert (Hlt : (t < length rs)%nat) by (by eapply lookup_lt_Some).
  assert (Hnt : new <> t) by set_solver.
  induction q as [|i q IH]; intros p Hc; simpl in *.
  - destruct Hc as (-> & r' & Hr' & Hg & Hd & Hnil). simplify_eq. split; [done|].
    exists (set_next new r). split; [by apply list_lookup_insert_eq|]. split; [done|]. split; [done|].
    split; [done|]. exists x. split; [by rewrite list_lookup_insert_ne|]. done.
  - destruct Hc as (-> & r' & Hr' & Hg & Hd & Hc). split; [done|]. apply NoDup_cons in Hnd as [Hni Hnd].
    assert (i <> t) by set_solver.
    exists r'. split; [by rewrite list_lookup_insert_ne|]. split; [done|]. split; [done|].
    apply IH; [done|set_solver|done].
Qed.
Lemma chain_last rs p q t :
  chain rs p (q ++ [t]) -> exists r, rs !! t = Some r /\ ar_next r = None /\ ar_gone r = false /\ ar_done r = false.
Proof.
  revert p. induction q as [|i q IH]; intros p; simpl.
  - intros (-> & r & Hr & Hg & Hd & Hn). eauto.
  - intros (-> & r & Hr & Hg & Hd & Hc). by eapply IH.
Qed.
Lemma chain_in rs p q i : chain rs p q -> i ∈ q -> exists r, rs !! i = Some r /\ ar_gone r = false /\ ar_done r = false.
Proof.
  revert p. induction q as [|j q IH]; intros p; simpl; [by intros _ ?%elem_of_nil|].
  intros (-> & r & Hr & Hg & Hd & Hc) [->|Hi]%elem_of_cons; [eauto|]. by eapply IH.
Qed.

Lemma enqueue_ok pid o first :
  owner_ok o first -> exists o', attach_enqueue pid o = Ok o' /\ owner_ok o' first /\
    length (mo_requests o') = S (length (mo_requests o)).
Proof.
  intros [H1 H2 H3 H4 H5 H6 H7]. unfold attach_enqueue. set (n := length (mo_requests o)) in *.
  set (x := mk_request pid 0 0 false None false).
  assert (Hnew : (mo_requests o ++ [x]) !! n = Some x) by (by apply list_lookup_middle).
  assert (Hold : forall i r, mo_requests o !! i = Some r -> (mo_requests o ++ [x]) !! i = Some r)
    by (intros; by apply lookup_app_l_Some).
  assert (Hsrv : forall i, mo_serving o = Some i -> (i < n)%nat).
  { intros i Hi. destruct (H5 i Hi) as (_ & r & Hr & _). by eapply lookup_lt_Some. }
  assert (Htk : take (match mo_serving o with Some i => i | None => first end) (mo_requests o ++ [x]) =
    take (match mo_serving o with Some i => i | None => first end) (mo_requests o)).
  { apply take_app_le. fold n. destruct (mo_serving o) as [i|]; [specialize (Hsrv i eq_refl); lia|done]. }
  destruct (decide (first = n)) as [->|Hne].
  - rewrite Nat.sub_diag in *. simpl in H2, H3. rewrite H3. eexists. split; [done|].
    split; [|cbn [mo_requests]; rewrite length_app; simpl; fold n; lia].
    assert (Hlen : (length (mo_requests o ++ [x]) - n)%nat = 1%nat) by (rewrite length_app; simpl; fold n; lia).
    split; cbn [mo_requests mo_head mo_tail mo_serving mo_attached]; rewrite ?Hlen, ?length_app; fold n; simpl.
    + lia.
    + split; [done|]. exists x. done.
    + done.
    + intros i r Hi Hr Hs. rewrite lookup_app_l in Hr by (fold n; lia). eauto.
    + intros i Hi. destruct (H5 i Hi) as (? & r & Hr & ? & ?). split; [done|]. exists r. split; [auto|done].
    + by rewrite Htk.
    + intros i r Hr Hg. apply lookup_app_Some in Hr as [Hr|[_ [_ <-]%list_lookup_singleton_Some]]; eauto.
  - destruct (n - first)%nat as [|k] eqn:Hk; [lia|]. rewrite seq_S in H2, H3.
    replace (first + k)%nat with (n - 1)%nat in * by lia. rewrite last_snoc in H3. rewrite H3.
    destruct (chain_last _ _ _ _ H2) as (rt & Hrt & Hnt & Hgt & Hdt).
    unfold update_request. rewrite (Hold _ _ Hrt), Hgt. cbn [result_bind]. eexists. split; [done|].
    split; [|cbn [mo_requests]; rewrite length_insert, length_app; simpl; fold n; lia].
    assert (Hins : forall i r, i <> (n - 1)%nat -> mo_requests o !! i = Some r ->
      (<[(n - 1)%nat := set_next n rt]> (mo_requests o ++ [x])) !! i = Some r).
    { intros i r Hi Hr. rewrite list_lookup_insert_ne by done. auto. }
    split; cbn [mo_requests mo_head mo_tail mo_serving mo_attached]; rewrite ?length_insert, ?length_app; fold n;
      cbn [length]; replace (n + 1 - first)%nat with (S (S k)) by lia; rewrite ?(seq_S (S k));
      replace (first + S k)%nat with n by lia.
    + lia.
    + rewrite seq_S. replace (first + k)%nat with (n - 1)%nat by lia.
      assert (Hseq : seq first k ++ [(n - 1)%nat] = seq first (S k)).
      { rewrite seq_S. by replace (first + k)%nat with (n - 1)%nat by lia. }
      apply (chain_snoc _ _ _ _ _ _ x); try done.
      * eapply chain_frame; [|exact H2]. auto.
      * rewrite Hseq. apply NoDup_ListNoDup, seq_NoDup || apply NoDup_seq.
      * rewrite Hseq, elem_of_seq. lia.
      * by apply Hold.
    + by rewrite last_snoc.
    + intros i r Hi Hr Hs. rewrite list_lookup_insert_ne in Hr by lia.
      rewrite lookup_app_l in Hr by (fold n; lia). eauto.
    + intros i Hi. destruct (H5 i Hi) as (? & r & Hr & ? & ?). split; [done|]. exists r.
      split; [apply Hins; [lia|done]|done].
    + rewrite take_insert_ge; [by rewrite Htk|]. destruct (mo_serving o) as [i|]; [|lia].
      destruct (H5 i eq_refl) as [? _]. lia.
    + intros i r Hr Hg. apply list_lookup_insert_Some in Hr as [(<- & <- & _)|[_ Hr]]; [simpl in *; congruence|].
      apply lookup_app_Some in Hr as [Hr|[_ [_ <-]%list_lookup_singleton_Some]]; eauto.
Qed.

Lemma return_ok i x o o' first :
  owner_ok o first -> attach_return i o = (Ok x, o') -> owner_ok o' first.
Proof.
  intros [H1 H2 H3 H4 H5 H6 H7]. unfold attach_return.
  destruct (mo_requests o !! i) as [r|] eqn:Hr; [|done]. destruct (ar_gone r) eqn:Hg; [done|].
  destruct (ar_done r) eqn:Hd; simpl; [|done]. intros. simplify_eq.
  assert (Hmap : ar_pid <$> <[i := set_gone r]> (mo_requests o) = ar_pid <$> mo_requests o).
  { rewrite list_fmap_insert. apply list_insert_id. by rewrite list_lookup_fmap, Hr. }
  split; cbn [mo_requests mo_head mo_tail mo_serving mo_attached]; rewrite ?length_insert; try done.
  - eapply chain_frame; [|exact H2]. intros j rj Hj Hrj. rewrite list_lookup_insert_ne; [done|]. intros <-.
    destruct (chain_in _ _ _ _ H2 Hj) as (r' & Hr' & _ & Hd'). congruence.
  - intros j rj Hj Hrj Hs. apply list_lookup_insert_Some in Hrj as [(<- & <- & _)|[_ Hrj]]; [done|eauto].
  - intros j Hj. destruct (H5 j Hj) as (? & rj & Hrj & Hdj & Hgj). split; [done|]. exists rj.
    split; [|done]. rewrite list_lookup_insert_ne; [done|]. intros <-. congruence.
  - by rewrite H6, !fmap_take, Hmap.
  - intros j rj Hrj Hgj. apply list_lookup_insert_Some in Hrj as [(<- & <- & _)|[_ Hrj]]; [done|eauto].
Qed.

Lemma take_ok o first :
  owner_ok o first -> mo_serving o = None ->
  match worker_take o with
  | Ok None => first = length (mo_requests o)
  | Ok (Some o') => owner_ok o' (S first) /\ mo_serving o' = Some first /\ mo_requests o' = mo_requests o
  | _ => False
  end.
Proof.
  intros [H1 H2 H3 H4 H5 H6 H7] Hs. unfold worker_take.
  destruct (length (mo_requests o) - first)%nat as [|k] eqn:Hk; simpl in H2; [rewrite H2; lia|].
  destruct H2 as (Hh & r & Hr & Hg & Hd & Hc). rewrite Hh, Hr, Hg. split; [|done].
  split; cbn [mo_requests mo_head mo_tail mo_serving mo_attached];
    try replace (length (mo_requests o) - S first)%nat with k by lia.
  - lia.
  - done.
  - rewrite H3. simpl. destruct k as [|k]; simpl in *; [by rewrite Hc|]. destruct Hc as [-> _]. done.
  - intros i ri Hi Hri Hne. apply (H4 i ri); [|done|by rewrite Hs].
    destruct (decide (i = first)) as [->|]; [done|lia].
  - intros i [=<-]. split; [done|]. exists r. done.
  - by rewrite H6, Hs.
  - done.
Qed.
Lemma complete_ok answer o first :
  owner_ok o first -> is_Some (mo_serving o) ->
  exists o', worker_complete answer o = Ok o' /\ owner_ok o' first /\ mo_serving o' = None.
Proof.
  intros [H1 H2 H3 H4 H5 H6 H7] [i Hi]. destruct (H5 i Hi) as (Hfi & r & Hr & Hd & Hg).
  unfold worker_complete, update_request. rewrite Hi, Hr, Hg. cbn [result_bind].
  set (r' := match answer with inl e => set_done (-1) e r | inr v => set_done v 0 r end).
  replace (match answer with inl e => set_done (-1) e | inr v => set_done v 0 end r) with r' by (by destruct answer).
  assert (Hd' : ar_done r' = true) by (by subst r'; destruct answer).
  assert (Hg' : ar_gone r' = false) by (by subst r'; destruct answer).
  assert (Hp' : ar_pid r' = ar_pid r) by (by subst r'; destruct answer).
  eexists. split; [done|]. split; [|done].
  assert (Hmap : ar_pid <$> <[i := r']> (mo_requests o) = ar_pid <$> mo_requests o).
  { rewrite list_fmap_insert. apply list_insert_id. by rewrite list_lookup_fmap, Hr, Hp'. }
  split; cbn [mo_requests mo_head mo_tail mo_serving mo_attached]; rewrite ?length_insert; try done.
  - eapply chain_frame; [|exact H2]. intros j rj Hj Hrj. rewrite list_lookup_insert_ne; [done|]. intros <-.
    apply elem_of_seq in Hj. lia.
  - intros j rj Hj Hrj _. apply list_lookup_insert_Some in Hrj as [(<- & <- & _)|[Hne Hrj]]; [done|].
    apply (H4 j rj); [done|done|]. congruence.
  - rewrite Hi in H6. rewrite H6, !fmap_take, Hmap, <- Hfi.
    rewrite (take_S_r _ _ (ar_pid r)) by (by rewrite list_lookup_fmap, Hr). by rewrite reverse_snoc.
  - intros j rj Hrj Hgj. apply list_lookup_insert_Some in Hrj as [(<- & <- & _)|[_ Hrj]]; [done|eauto].
Qed.

Lemma owner_step_ok o o' first : owner_ok o first -> owner_step o o' -> exists first', owner_ok o' first'.
Proof.
  intros Hok Hs. destruct Hs as [pid o o' He|i x o o' Hr|o o' Hn Ht|answer o o' Hc].
  - destruct (enqueue_ok pid o first Hok) as (o1 & He1 & Hok1 & _).
    rewrite He in He1. injection He1 as <-. by exists first.
  - exists first. by eapply return_ok.
  - pose proof (take_ok o first Hok Hn) as Hk. rewrite Ht in Hk. exists (S first). apply Hk.
  - destruct (mo_serving o) as [i|] eqn:Hi.
    + destruct (complete_ok answer o first Hok) as (o1 & Hc1 & Hok1 & _); [by rewrite Hi|].
      rewrite Hc in Hc1. injection Hc1 as <-. by exists first.
    + unfold worker_complete in Hc. by rewrite Hi in Hc.
Qed.
Lemma owner_reachable o : steps owner_step owner_init o -> exists first, owner_ok o first.
Proof.
  apply (steps_invariant owner_step (fun o => exists first, owner_ok o first)).
  - intros s s' [first Hok] Hs. by eapply owner_step_ok.
  - exists 0%nat. split; try done; simpl; lia.
Qed.

(** Under any interleaving of callers and the worker: contexts are attached
    in the order their requests arrived, each once, and a request is done
    exactly when its attach was; no pointer of the queue is followed into the
    frame of a caller that has returned; and while a request is not done the
    worker has work and can do it. *)
Theorem attach_queue_serves_in_order o :
  steps owner_step owner_init o ->
  reverse (mo_attached o) `prefix_of` (ar_pid <$> mo_requests o) /\
  (forall i r, mo_requests o !! i = Some r -> ar_done r = true <-> (i < length (mo_attached o))%nat) /\
  (forall pid, exists o', attach_enqueue pid o = Ok o') /\
  (forall i r, mo_requests o !! i = Some r -> ar_done r = false -> ar_gone r = false /\
     match mo_serving o with
     | None => exists o', worker_take o = Ok (Some o')
     | Some _ => forall answer, exists o', worker_complete answer o = Ok o'
     end).
Proof.
  intros Hs. destruct (owner_reachable o Hs) as [first Hok]. pose proof Hok as [H1 H2 H3 H4 H5 H6 H7].
  assert (Hlen : length (mo_attached o) = match mo_serving o with Some i => i | None => first end).
  { rewrite H6, length_reverse, length_fmap, length_take. destruct (mo_serving o) as [i|]; [|lia].
    destruct (H5 i eq_refl) as (_ & r & Hr & _). apply lookup_lt_Some in Hr. lia. }
  split; [|split; [|split]].
  - rewrite H6, reverse_involutive, fmap_take. apply prefix_take.
  - intros i r Hr. rewrite Hlen. destruct (decide (i < first)%nat) as [Hlt|Hge].
    + destruct (mo_serving o) as [j|] eqn:Hj.
      * destruct (H5 j eq_refl) as (Hf & rj & Hrj & Hdj & _). destruct (decide (i = j)) as [->|Hne].
        -- simplify_eq. rewrite Hdj. split; [done|lia].
        -- split; [lia|]. intros _. apply (H4 i r); [done|done|congruence].
      * split; [done|]. intros _. by apply (H4 i r).
    + assert (Hin : i ∈ seq first (length (mo_requests o) - first)).
      { apply elem_of_seq. apply lookup_lt_Some in Hr. lia. }
      destruct (chain_in _ _ _ _ H2 Hin) as (r' & Hr' & _ & Hd'). simplify_eq. rewrite Hd'. split; [done|].
      destruct (mo_serving o) as [j|]; [|lia]. destruct (H5 j eq_refl) as [? _]. lia.
  - intros pid. destruct (enqueue_ok pid o first Hok) as (o' & ? & _). eauto.
  - intros i r Hr Hd. split; [destruct (ar_gone r) eqn:Hg; [|done]; by rewrite (H7 i r Hr Hg) in Hd|].
    destruct (mo_serving o) as [j|] eqn:Hj.
    + intros answer. destruct (complete_ok answer o first Hok) as (o' & ? & _); [by rewrite Hj|eauto].
    + pose proof (take_ok o first Hok Hj) as Hk. destruct (worker_take o) as [[o'|]| | | |]; try done; [eauto|].
      exfalso. assert (ar_done r = true); [|congruence].
      apply (H4 i r); [|done|done]. rewrite Hk. by eapply lookup_lt_Some.
Qed.

(** Two callers, the first served. *)
Definition demo_queue : monitor_owner :=
  mk_owner [mk_request 7 0 0 true (Some 1%nat) false; mk_request 8 0 0 false None false]
    (Some 1%nat) (Some 1%nat) None [7].
Lemma demo_queue_reachable : steps owner_step owner_init demo_queue.
Proof.
  eapply steps_next; [eapply steps_next; [eapply steps_next; [eapply steps_next; [apply steps_refl|]|]|]|].
  - eapply (os_enqueue 7). reflexivity.
  - eapply (os_enqueue 8). reflexivity.
  - eapply os_take; reflexivity.
  - eapply (os_complete (inr 0)). reflexivity.
Qed.
Lemma attach_queue_serves_in_order_witness :
  steps owner_step owner_init demo_queue /\ exists o', worker_take demo_queue = Ok (Some o').
Proof.
  split; [exact demo_queue_reachable|].
  destruct (attach_queue_serves_in_order demo_queue demo_queue_reachable) as (_ & _ & _ & H).
  exact (proj2 (H 1%nat _ eq_refl eq_refl)).
Defined.
End MonitorOwner.
