(* ===== verification/SourceSnapshot.v ===== *)
(** * Pages of a newborn child (user/source-snapshot.h)

    Before a forked child is shown to the executor, the source lists the pages
    its native fork snapshot owns: it reads the child's maps and pagemap and
    publishes resident private pages in batches, resumed by a cursor, recording
    each as ours in the native page states and as broken from copy-on-write.
    The two files and the failures of native calls are parameters. *)
From S2P Require Import Prelude Probe Proto SourceLineage.
Open Scope Z_scope.

Module SourceSnapshot.
Import Proto SourceLineage.

(** A line of the maps file: the range and whether it is private; [None] when
    it does not have that form. *)
Abbreviation maps_line := (option (Z * Z * bool)).

(** What a scan changes: the pages whose native state was set to PG_OURS, in
    order, and the table of pages broken from copy-on-write. *)
Record world := mk_world { w_ours : list Z; w_cow : cow_table }.
Abbreviation scan A := (world -> result A * world).
Definition scan_bind {A B} (p : scan A) (k : A -> scan B) : scan B := fun w =>
  match p w with
  | (Ok a, w) => k a w
  | (Err e, w) => (Err e, w)
  | (Aborted, w) => (Aborted, w)
  | (Corrupt, w) => (Corrupt, w)
  | (Hung, w) => (Hung, w)
  end.
Definition answer {A} (r : result A) : scan A := fun w => (r, w).

Section scan.
(** [entry p] is the pagemap word of page number [p], [pread_ok a n] whether
    reading [n] words at address [a] returned them all, [pg_set_ok a] whether
    the native record of the page as ours succeeded, [alloc] whether the
    copy-on-write table can grow; [mm] is the child's memory identity. *)
Context (entry : Z -> Z) (pread_ok : Z -> nat -> bool) (pg_set_ok : Z -> bool) (alloc : nat -> bool) (mm : Z).

Definition resident (address : Z) : bool := nz (entry (address / PAGE) .& 2 ^ 63).

(** pg_set and cow_mm_note_break for one page. *)
Definition publish_page (address : Z) : scan unit := fun w =>
  if negb (pg_set_ok address) then (Err EIO, w)
  else
    let ours := w_ours w ++ [address] in
    match cow_mm_note_break alloc mm address (w_cow w) with
    | Ok t => (Ok tt, mk_world ours t)
    | Err e => (Err e, mk_world ours (w_cow w))
    | Aborted => (Aborted, mk_world ours (w_cow w))
    | Corrupt => (Corrupt, mk_world ours (w_cow w))
    | Hung => (Hung, mk_world ours (w_cow w))
    end.
(** The loop over the words read; the cursor to continue at when the batch is
    full. *)
Fixpoint scan_entries (n : nat) (address : Z) (pages : list Z) : scan (list Z * option Z) :=
  match n with
  | O => answer (Ok (pages, None))
  | S n =>
      if negb (resident address) then scan_entries n (address + PAGE) pages
      else
        scan_bind (publish_page address) (fun _ =>
        let pages := pages ++ [address] in
        if (length pages =? VMR_CHILD_PAGES_MAX)%nat then answer (Ok (pages, Some (address + PAGE)))
        else scan_entries n (address + PAGE) pages)
  end.
(** The loop over one range, 256 words at a time. *)
Fixpoint scan_range (fuel : nat) (hi address : Z) (pages : list Z) : scan (list Z * option Z) :=
  match fuel with
  | O => answer Hung
  | S fuel =>
      if address <? hi then
        let n := Nat.min (Z.to_nat ((hi - address) / PAGE)) 256 in
        if negb (pread_ok address n) then answer (Err EIO)
        else
          scan_bind (scan_entries n address pages) (fun x =>
          match x with
          | (pages, Some next) => answer (Ok (pages, Some next))
          | (pages, None) => scan_range fuel hi (address + Z.of_nat n * PAGE) pages
          end)
      else answer (Ok (pages, None))
  end.
(** The loop over the lines; [read_error] is ferror at the end of the file. *)
Fixpoint scan_maps (read_error : bool) (cursor : Z) (lines : list maps_line) (pages : list Z)
    : scan (list Z * option Z) :=
  match lines with
  | [] => answer (if read_error then Err EIO else Ok (pages, None))
  | None :: _ => answer (Err EIO)
  | Some (lo, hi, private) :: rest =>
      if negb private || (hi <=? cursor) || (2 ^ 63 <=? hi) then scan_maps read_error cursor rest pages
      else
        let address := if lo <? cursor then cursor else lo in
        scan_bind (scan_range (S (Z.to_nat ((hi - address) / PAGE))) hi address pages) (fun x =>
        match x with
        | (pages, Some next) => answer (Ok (pages, Some next))
        | (pages, None) => scan_maps read_error cursor rest pages
        end)
  end.

(** The error number of a failed call, or what it returned. *)
Definition opened {A} (r : Z + A) : result A := match r with inl e => Err e | inr a => Ok a end.

(** The batch.  [maps], [stream] and [pagemap] are the outcomes of opening the
    two files, with the memory identity each was opened for. *)
Definition source_child_pages (cursor : Z) (maps : Z + Z) (stream : Z + unit)
    (pagemap : Z + Z) (read_error : bool) (lines : list maps_line) : scan vmr_child_pages :=
  if nz (cursor .& (VMR_PG_SIZE - 1)) then answer (Err EINVAL)
  else
    scan_bind (answer (opened maps)) (fun maps_mm =>
    scan_bind (answer (opened stream)) (fun _ =>
    scan_bind (answer (opened pagemap)) (fun pages_mm =>
    if negb (maps_mm =? mm) || negb (pages_mm =? mm) then answer (Err ESTALE)
    else
      scan_bind (scan_maps read_error cursor lines []) (fun x =>
      let '(pages, next) := x in
      answer (Ok (mk_child_pages (match next with Some n => n | None => 0 end) (length pages) 0
            (pages ++ replicate (VMR_CHILD_PAGES_MAX - length pages) 0))))))).

(** ** The resident pages *)
Fixpoint addresses (a : Z) (n : nat) : list Z :=
  match n with O => [] | S n => a :: addresses (a + PAGE) n end.
Definition range_pages (l : maps_line) : list Z :=
  match l with
  | Some (lo, hi, true) =>
      if 2 ^ 63 <=? hi then [] else filter (fun p => resident p) (addresses lo (Z.to_nat ((hi - lo) / PAGE)))
  | _ => []
  end.
Definition all_pages (lines : list maps_line) : list Z := lines ≫= range_pages.
(** Those from the cursor on. *)
Definition pages_from (cursor : Z) (lines : list maps_line) : list Z :=
  filter (fun p => cursor <= p) (all_pages lines).

(** The lines of a maps file: page-aligned, not empty, in increasing order. *)
Fixpoint maps_sorted (from : Z) (lines : list maps_line) : Prop :=
  match lines with
  | [] => True
  | None :: rest => maps_sorted from rest
  | Some (lo, hi, _) :: rest => from <= lo < hi /\ lo mod PAGE = 0 /\ hi mod PAGE = 0 /\ maps_sorted hi rest
  end.

Lemma addresses_app a n m : addresses a (n + m) = addresses a n ++ addresses (a + Z.of_nat n * PAGE) m.
Proof.
  revert a. induction n as [|n IH]; intros a; simpl; [by f_equal; lia|].
  f_equal. rewrite IH. do 2 f_equal. lia.
Qed.
Lemma addresses_ge a n p : p ∈ addresses a n -> a <= p < a + Z.of_nat n * PAGE /\ (p - a) mod PAGE = 0.
Proof.
  revert a. induction n as [|n IH]; intros a; simpl; [by intros ?%elem_of_nil|].
  unfold PAGE in *. intros [->|Hp]%elem_of_cons; [split; [lia|by rewrite Z.sub_diag]|].
  destruct (IH _ Hp) as [H1 H2]. split; [lia|]. replace (p - a) with (p - (a + 4096) + 1 * 4096) by lia.
  by rewrite Z_mod_plus_full.
Qed.

(** A scan takes the resident pages in order until the batch is full. *)
Definition took (pages more : list Z) (x : list Z * option Z) : Prop :=
  match x with
  | (pages', None) => pages' = pages ++ more /\ (length (pages ++ more) < VMR_CHILD_PAGES_MAX)%nat
  | (pages', Some next) => pages' = take VMR_CHILD_PAGES_MAX (pages ++ more) /\
      length pages' = VMR_CHILD_PAGES_MAX /\ exists p, last pages' = Some p /\ next = p + PAGE
  end.
Lemma took_full pages more more' pages' next :
  took pages more (pages', Some next) -> took pages (more ++ more') (pages', Some next).
Proof.
  intros (-> & Hl & Hp). split; [|done]. rewrite app_assoc. rewrite length_take in Hl.
  symmetry. apply take_app_le. lia.
Qed.
Lemma took_more pages more more' pages' x :
  took pages more (pages', None) -> took pages' more' x -> took pages (more ++ more') x.
Proof. intros [-> _] H. destruct x as [p [n|]]; unfold took in *; by rewrite app_assoc. Qed.

(** [new] are the pages a run published, in order. *)
Definition published (new : list Z) (w w' : world) : Prop :=
  w_ours w' = w_ours w ++ new /\ cow_wf (w_cow w') /\
  cow_set (w_cow w') = list_to_set ((fun p => (mm, page_base p)) <$> new) ∪ cow_set (w_cow w).
Lemma published_nil w : cow_wf (w_cow w) -> published [] w w.
Proof. intros Hwf. split; [by rewrite app_nil_r|]. split; [done|]. set_solver. Qed.
Lemma published_app new new' w w' w'' :
  published new w w' -> published new' w' w'' -> published (new ++ new') w w''.
Proof.
  intros (H1 & _ & H2) (H3 & H4 & H5). split; [by rewrite H3, H1, app_assoc|]. split; [done|].
  rewrite H5, H2, fmap_app. set_solver.
Qed.
(** The pages of a scan are those of the batch it started with and those it
    published. *)
Definition scanned (pages more : list Z) (x : list Z * option Z) (w w' : world) : Prop :=
  took pages more x /\ exists new, x.1 = pages ++ new /\ published new w w'.
(** A scan that fails published resident pages only. *)
Definition partial (w w' : world) : Prop := exists new, Forall (fun p => resident p = true) new /\ published new w w'.
Lemma scanned_full pages more more' pages' next w w' :
  scanned pages more (pages', Some next) w w' -> scanned pages (more ++ more') (pages', Some next) w w'.
Proof. intros [H1 H2]. split; [by apply took_full|done]. Qed.
Lemma scanned_more pages more more' pages' x w w' w'' :
  scanned pages more (pages', None) w w' -> scanned pages' more' x w' w'' -> scanned pages (more ++ more') x w w''.
Proof.
  intros (H1 & new & ? & H2) (H3 & new' & H4 & H5). simplify_eq/=. split; [by eapply took_more|].
  exists (new ++ new'). split; [by rewrite H4, app_assoc|]. by eapply published_app.
Qed.
Lemma partial_after pages more pages' w w' w'' :
  Forall (fun p => resident p = true) more -> scanned pages more (pages', None) w w' -> partial w' w'' -> partial w w''.
Proof.
  intros Hm ((-> & _) & new & Hn & H1) (new' & H2 & H3). cbn [fst] in Hn. apply app_inv_head in Hn as ->.
  exists (new ++ new'). split; [by apply Forall_app|]. by eapply published_app.
Qed.
Lemma scanned_wf pages more x w w' : scanned pages more x w w' -> cow_wf (w_cow w').
Proof. intros (_ & new & _ & _ & ? & _). done. Qed.

Lemma publish_page_spec address w :
  cow_wf (w_cow w) ->
  match publish_page address w with
  | (Ok _, w') => published [address] w w'
  | (Err _, w') => w' = w /\ pg_set_ok address = false
  | (Aborted, _) => True
  | _ => False
  end.
Proof.
  intros Hwf. unfold publish_page. destruct (pg_set_ok address) eqn:Hpg; cbn [negb]; [|done].
  destruct (cow_note_spec alloc mm address (w_cow w) Hwf) as [->|(t & -> & Hwf' & _ & Hset)]; [done|].
  split; [done|]. split; [done|]. cbn [w_cow]. rewrite Hset. set_solver.
Qed.
Lemma scan_entries_spec n address pages w :
  (length pages < VMR_CHILD_PAGES_MAX)%nat -> cow_wf (w_cow w) ->
  match scan_entries n address pages w with
  | (Ok x, w') => scanned pages (filter (fun p => resident p) (addresses address n)) x w w'
  | (Err _, w') => (exists p, pg_set_ok p = false) /\ partial w w'
  | (Aborted, _) => True
  | _ => False
  end.
Proof.
  revert address pages w. induction n as [|n IH]; intros address pages w Hlen Hwf; cbn [scan_entries].
  { split; [split; by rewrite app_nil_r|]. exists []. rewrite app_nil_r. split; [done|by apply published_nil]. }
  cbn [addresses]. rewrite filter_cons. destruct (resident address) eqn:Hr; cbn [negb].
  2:{ rewrite decide_False by naive_solver. by apply IH. }
  rewrite decide_True by done. unfold scan_bind.
  pose proof (publish_page_spec address w Hwf) as Hp.
  destruct (publish_page address w) as [[[]|e| | |] w1]; try done.
  2:{ destruct Hp as [-> Hp]. split; [eauto|]. exists []. split; [done|by apply published_nil]. }
  destruct (Nat.eqb_spec (length (pages ++ [address])) VMR_CHILD_PAGES_MAX) as [He|Hne].
  - split; [|by exists [address]].
    split; [|split; [done|exists address; split; [by rewrite last_snoc|done]]].
    pose proof (take_app_length' (pages ++ [address])
      (filter (fun p => resident p) (addresses (address + PAGE) n)) _ (eq_sym He)) as Ht.
    rewrite <- app_assoc in Ht. symmetry. exact Ht.
  - rewrite length_app in Hne. simpl in Hne. pose proof Hp as (_ & Hwf1 & _).
    assert (Hone : scanned pages [address] (pages ++ [address], None) w w1).
    { split; [split; [done|rewrite length_app; simpl; lia]|]. by exists [address]. }
    specialize (IH (address + PAGE) (pages ++ [address]) w1 ltac:(rewrite length_app; simpl; lia) Hwf1).
    destruct (scan_entries n _ _ w1) as [[x|e| | |] w2]; try done.
    + exact (scanned_more _ [address] _ _ _ _ _ _ Hone IH).
    + destruct IH as [? IH]. split; [done|]. eapply partial_after; [|exact Hone|exact IH]. by constructor.
Qed.

(** Everything works: the files are read, the lines have the form expected and
    page states are recorded. *)
Definition reliable (read_error : bool) (lines : list maps_line) : Prop :=
  read_error = false /\ Forall is_Some lines /\ (forall a n, pread_ok a n = true) /\ forall a, pg_set_ok a = true.

Lemma pages_of_range lo hi : lo < hi -> (hi - lo) mod PAGE = 0 ->
  hi = lo + Z.of_nat (Z.to_nat ((hi - lo) / PAGE)) * PAGE.
Proof.
  unfold PAGE. intros Hlt Hm. pose proof (Z.div_mod (hi - lo) 4096 ltac:(lia)).
  pose proof (Z.div_pos (hi - lo) 4096). lia.
Qed.
Lemma resident_all l : Forall (fun p => resident p = true) (filter (fun p => resident p) l).
Proof. apply Forall_forall. intros p [H _]%list_elem_of_filter. by destruct (resident p). Qed.
Lemma scan_range_spec fuel hi address pages w :
  (length pages < VMR_CHILD_PAGES_MAX)%nat -> (hi - address) mod PAGE = 0 ->
  (Z.to_nat ((hi - address) / PAGE) < fuel)%nat -> cow_wf (w_cow w) ->
  match scan_range fuel hi address pages w with
  | (Ok x, w') =>
      scanned pages (filter (fun p => resident p) (addresses address (Z.to_nat ((hi - address) / PAGE)))) x w w'
  | (Err _, w') => ((exists a n, pread_ok a n = false) \/ exists a, pg_set_ok a = false) /\ partial w w'
  | (Aborted, _) => True
  | _ => False
  end.
Proof.
  revert address pages w. induction fuel as [|fuel IH]; intros address pages w Hlen Hm Hf Hwf; [lia|]. cbn [scan_range].
  assert (Hstay : partial w w) by (exists []; split; [done|by apply published_nil]).
  destruct (Z.ltb_spec address hi) as [Hlt|Hge].
  2:{ replace (Z.to_nat ((hi - address) / PAGE)) with 0%nat.
      - split; [split; by rewrite app_nil_r|]. exists []. rewrite app_nil_r. split; [done|by apply published_nil].
      - unfold PAGE in *. pose proof (Z.div_le_upper_bound (hi - address) 4096 0). lia. }
  set (n := Z.to_nat ((hi - address) / PAGE)) in *. set (k := Nat.min n 256). cbv zeta. fold k.
  pose proof (pages_of_range address hi Hlt Hm) as Hhi. fold n in Hhi.
  assert (Hk : (0 < k)%nat) by (unfold PAGE in *; subst k; lia).
  destruct (pread_ok address k) eqn:Hp; cbn [negb]; [|split; [eauto|done]].
  assert (Hsplit : addresses address n = addresses address k ++ addresses (address + Z.of_nat k * PAGE) (n - k)).
  { rewrite <- addresses_app. f_equal. subst k. lia. }
  rewrite Hsplit, filter_app. unfold scan_bind.
  pose proof (scan_entries_spec k address pages w Hlen Hwf) as Hs.
  destruct (scan_entries k address pages w) as [[[p' [nx|]]|e| | |] w1]; try done.
  - by apply scanned_full.
  - assert (Hrest : hi - (address + Z.of_nat k * PAGE) = Z.of_nat (n - k) * PAGE) by (unfold PAGE in *; subst k; lia).
    pose proof Hs as ([_ Hl] & _). rewrite <- (proj1 (proj1 Hs)) in Hl.
    specialize (IH (address + Z.of_nat k * PAGE) p' w1). rewrite Hrest in IH.
    rewrite Z.div_mul, Nat2Z.id in IH by (unfold PAGE; lia).
    specialize (IH Hl (Z_mod_mult _ _) ltac:(lia) (scanned_wf _ _ _ _ _ Hs)).
    destruct (scan_range fuel hi _ _ w1) as [[x|e| | |] w2]; try done.
    + by eapply scanned_more.
    + destruct IH as [? IH]. split; [done|]. eapply partial_after; [apply resident_all|exact Hs|exact IH].
  - destruct Hs as [(p & Hp') ?]. eauto.
Qed.

Lemma addresses_from lo hi cursor :
  lo < hi -> cursor < hi -> lo mod PAGE = 0 -> hi mod PAGE = 0 -> cursor mod PAGE = 0 ->
  let a := if lo <? cursor then cursor else lo in
  filter (fun p => cursor <= p) (addresses lo (Z.to_nat ((hi - lo) / PAGE))) =
  addresses a (Z.to_nat ((hi - a) / PAGE)) /\ (hi - a) mod PAGE = 0.
Proof.
  intros Hlt Hc Hlo Hhi Hcu a.
  assert (Hsub : forall x y, x mod PAGE = 0 -> y mod PAGE = 0 -> (x - y) mod PAGE = 0).
  { intros x y Hx Hy. by rewrite Zminus_mod, Hx, Hy. }
  subst a. destruct (Z.ltb_spec lo cursor) as [Hl|Hl].
  - split; [|by apply Hsub]. pose proof (pages_of_range lo hi Hlt (Hsub _ _ Hhi Hlo)) as H1.
    pose proof (pages_of_range cursor hi Hc (Hsub _ _ Hhi Hcu)) as H2.
    pose proof (pages_of_range lo cursor Hl (Hsub _ _ Hcu Hlo)) as H3.
    set (n := Z.to_nat ((hi - lo) / PAGE)) in *. set (m := Z.to_nat ((hi - cursor) / PAGE)) in *.
    set (k := Z.to_nat ((cursor - lo) / PAGE)) in *.
    assert (Hnk : n = (k + m)%nat) by (unfold PAGE in *; lia).
    rewrite Hnk, addresses_app, filter_app, <- H3.
    rewrite filter_none, filter_all; [done| |].
    + intros p Hp. apply addresses_ge in Hp. lia.
    + intros p Hp. apply addresses_ge in Hp. lia.
  - split; [|by apply Hsub]. apply filter_all. intros p Hp. apply addresses_ge in Hp. lia.
Qed.

Lemma pages_from_cons cursor l rest :
  pages_from cursor (l :: rest) = filter (fun p => cursor <= p) (range_pages l) ++ pages_from cursor rest.
Proof. unfold pages_from, all_pages. simpl. by rewrite filter_app. Qed.
Lemma skipped_range lo hi private cursor :
  lo < hi -> lo mod PAGE = 0 -> hi mod PAGE = 0 -> negb private || (hi <=? cursor) || (2 ^ 63 <=? hi) = true ->
  filter (fun p => cursor <= p) (range_pages (Some (lo, hi, private))) = [].
Proof.
  intros Hlt Hm1 Hm2 Hskip. unfold range_pages. destruct private; [|done]. destruct (2 ^ 63 <=? hi); [done|].
  apply filter_none. intros p (_ & Hp)%list_elem_of_filter. apply addresses_ge in Hp as [Hp _].
  assert (Hsub : (hi - lo) mod PAGE = 0) by (by rewrite Zminus_mod, Hm1, Hm2).
  pose proof (pages_of_range lo hi Hlt Hsub). lia.
Qed.
Lemma scan_maps_spec read_error cursor lines pages from w :
  (length pages < VMR_CHILD_PAGES_MAX)%nat -> cursor mod PAGE = 0 -> maps_sorted from lines -> cow_wf (w_cow w) ->
  match scan_maps read_error cursor lines pages w with
  | (Ok x, w') => scanned pages (pages_from cursor lines) x w w'
  | (Err _, w') => ~ reliable read_error lines /\ partial w w'
  | (Aborted, _) => True
  | _ => False
  end.
Proof.
  intros Hlen Hc. revert from pages w Hlen.
  induction lines as [|l rest IH]; intros from pages w Hlen Hso Hwf; cbn [scan_maps];
    (assert (Hstay : partial w w) by (exists []; split; [done|by apply published_nil])).
  { destruct read_error; [by split; [intros (? & _)|]|].
    split; [split; by rewrite app_nil_r|]. exists []. rewrite app_nil_r. split; [done|by apply published_nil]. }
  destruct l as [[[lo hi] private]|]; [|by split; [intros (_ & H%Forall_cons & _); destruct H as [[? ?] _]|]].
  destruct Hso as (Hlo & Hm1 & Hm2 & Hso).
  assert (Hrel : reliable read_error (Some (lo, hi, private) :: rest) -> reliable read_error rest).
  { intros (? & ?%Forall_cons & ?). split; [done|]. naive_solver. }
  rewrite pages_from_cons.
  destruct (negb private || (hi <=? cursor) || (2 ^ 63 <=? hi)) eqn:Hskip.
  { rewrite skipped_range by (done || lia). specialize (IH hi pages w Hlen Hso Hwf). simpl.
    destruct (scan_maps _ _ _ _ w) as [[| | | |] ?]; try done. naive_solver. }
  apply orb_false_iff in Hskip as [Hskip Hbig]. apply orb_false_iff in Hskip as [Hpriv Hcur].
  destruct private; [|done]. destruct (addresses_from lo hi cursor) as [Hfrom Hdiv]; try done; try lia.
  set (a := if lo <? cursor then cursor else lo) in *. cbv zeta. unfold scan_bind.
  pose proof (scan_range_spec (S (Z.to_nat ((hi - a) / PAGE))) hi a pages w Hlen Hdiv ltac:(lia) Hwf) as Hr.
  unfold range_pages. rewrite Hbig, filter_swap, Hfrom.
  destruct (scan_range _ _ _ _ w) as [[[p' [nx|]]|e| | |] w1]; try done.
  - by apply scanned_full.
  - pose proof Hr as ([-> Hl] & _). specialize (IH hi _ w1 Hl Hso (scanned_wf _ _ _ _ _ Hr)).
    destruct (scan_maps _ _ _ _ w1) as [[x| | | |] w2]; try done; [by eapply scanned_more|].
    destruct IH as [? IH]. split; [naive_solver|]. eapply partial_after; [apply resident_all|exact Hr|exact IH].
  - destruct Hr as [Hr ?]. split; [|done]. intros (_ & _ & Hp & Hs).
    destruct Hr as [(b & k & Hb)|(b & Hb)]; [by rewrite Hp in Hb|by rewrite Hs in Hb].
Qed.

(** ** Order *)
Fixpoint increasing (from : Z) (l : list Z) : Prop :=
  match l with
  | [] => True
  | p :: l' => from <= p /\ p mod PAGE = 0 /\ p + PAGE < 2 ^ 63 /\ increasing (p + PAGE) l'
  end.
Lemma increasing_weaken from from' l : from' <= from -> increasing from l -> increasing from' l.
Proof. destruct l; [done|]. simpl. intros ? (? & ?). split; [lia|done]. Qed.
Lemma addresses_increasing (P : Z -> Prop) `{!forall x, Decision (P x)} a n l :
  a mod PAGE = 0 -> a + Z.of_nat n * PAGE < 2 ^ 63 -> increasing (a + Z.of_nat n * PAGE) l ->
  increasing a (filter P (addresses a n) ++ l).
Proof.
  revert a. induction n as [|n IH]; intros a Ha Hb Hl; cbn [addresses].
  { simpl. eapply increasing_weaken; [|exact Hl]. lia. }
  assert (Ha' : (a + PAGE) mod PAGE = 0).
  { unfold PAGE in *. replace (a + 4096) with (a + 1 * 4096) by lia. by rewrite Z_mod_plus_full. }
  assert (Hrest : increasing (a + PAGE) (filter P (addresses (a + PAGE) n) ++ l)).
  { unfold PAGE in *. apply IH; [done|lia|]. eapply increasing_weaken; [|exact Hl]. lia. }
  rewrite filter_cons. case_decide; cbn [app increasing]; unfold PAGE in *.
  - split; [lia|]. split; [done|]. split; [lia|done].
  - eapply increasing_weaken; [|exact Hrest]. lia.
Qed.
Lemma all_pages_increasing from lines : maps_sorted from lines -> increasing from (all_pages lines).
Proof.
  revert from. induction lines as [|[[[lo hi] private]|] rest IH]; intros from; [done| |apply IH].
  intros (Hlo & Hm1 & Hm2 & Hso). specialize (IH hi Hso). unfold all_pages in *. cbn [mbind list_bind range_pages].
  assert (Hsub : (hi - lo) mod PAGE = 0) by (by rewrite Zminus_mod, Hm1, Hm2).
  pose proof (pages_of_range lo hi ltac:(lia) Hsub) as Hhi.
  destruct private; [|by eapply increasing_weaken; [|exact IH]; lia].
  destruct (Z.leb_spec (2 ^ 63) hi); [by eapply increasing_weaken; [|exact IH]; lia|].
  eapply increasing_weaken; [apply Hlo|]. apply addresses_increasing; [done|lia|by rewrite <- Hhi].
Qed.
Lemma increasing_filter cursor from l :
  increasing from l -> increasing (Z.max from cursor) (filter (fun p => cursor <= p) l).
Proof.
  revert from. induction l as [|p l IH]; intros from; [done|]. simpl. intros (H1 & H2 & H3 & H4).
  specialize (IH _ H4). rewrite filter_cons. case_decide; cbn [app increasing]; unfold PAGE in *.
  - split; [lia|]. split; [done|]. split; [done|]. eapply increasing_weaken; [|exact IH]. lia.
  - eapply increasing_weaken; [|exact IH]. lia.
Qed.
Lemma increasing_ge from l p : increasing from l -> p ∈ l -> from <= p.
Proof.
  revert from. induction l as [|q l IH]; intros from; simpl; [by intros _ ?%elem_of_nil|].
  intros (H1 & _ & _ & H4) [->|Hp]%elem_of_cons; [done|]. specialize (IH _ H4 Hp). unfold PAGE in *. lia.
Qed.
(** What lies past an element is what follows it. *)
Lemma increasing_past from l k p :
  increasing from l -> l !! k = Some p -> filter (fun q => p + PAGE <= q) l = drop (S k) l.
Proof.
  revert from k. induction l as [|q l IH]; intros from [|k]; try done; simpl; intros (H1 & H2 & H3 & H4) Hk.
  - simplify_eq. rewrite filter_cons, decide_False by (unfold PAGE; lia). rewrite drop_0. apply filter_all.
    intros x Hx. by apply (increasing_ge _ l).
  - rewrite filter_cons, decide_False; [by apply (IH (q + PAGE))|].
    pose proof (increasing_ge _ _ p H4 (list_elem_of_lookup_2 _ _ _ Hk)). unfold PAGE in *. lia.
Qed.
Lemma increasing_take from l n : increasing from l -> increasing from (take n l).
Proof.
  revert from l. induction n as [|n IH]; intros from l; [done|]. destruct l; [done|]. simpl.
  intros (H1 & H2 & H3 & H4). repeat (split; [done|]). by apply IH.
Qed.
(** Such a list passes the receiver's scan. *)
Lemma increasing_scan from l :
  0 <= from -> increasing from l ->
  child_pages_scan from l = Some (match last l with Some p => p + PAGE | None => from end).
Proof.
  revert from. induction l as [|p l IH]; intros from Hf; [done|]. cbn [child_pages_scan increasing].
  intros (H1 & H2 & H3 & H4). rewrite page_mask_mod, H2, Z.eqb_refl. unfold PAGE in *. cbn [negb orb].
  destruct (Z.leb_spec (2 ^ 63) p); [lia|]. destruct (Z.ltb_spec p from); [lia|]. cbn [orb].
  rewrite u64_small by (unfold is_u64, U64MAX; lia). rewrite IH; [|lia|done].
  destruct l as [|q l]; [done|]. rewrite last_cons_cons.
  destruct (last (q :: l)) eqn:Hl; [done|]. by apply last_None in Hl.
Qed.
Lemma args_zero_replicate n : args_zero (replicate n 0) = true.
Proof. induction n; [done|]. simpl. done. Qed.
Lemma increasing_in from l p : increasing from l -> p ∈ l -> p mod PAGE = 0 /\ p + PAGE < 2 ^ 63.
Proof.
  revert from. induction l as [|q l IH]; intros from; simpl; [by intros _ ?%elem_of_nil|].
  intros (H1 & H2 & H3 & H4) [->|Hp]%elem_of_cons; [done|]. by apply (IH (q + PAGE)).
Qed.
(** The batch that lists them is accepted. *)
Lemma batch_passes cursor pages next :
  0 <= cursor -> cursor mod PAGE = 0 -> increasing cursor pages ->
  (length pages <= VMR_CHILD_PAGES_MAX)%nat ->
  next = 0 \/ length pages = VMR_CHILD_PAGES_MAX /\ (exists p, last pages = Some p /\ next = p + PAGE) ->
  child_pages_valid (mk_child_pages next (length pages) 0
    (pages ++ replicate (VMR_CHILD_PAGES_MAX - length pages) 0)) cursor = true.
Proof.
  intros Hcu Hc Hip Hlen Hnext. unfold child_pages_valid. cbn [cp_count cp_reserved cp_next cp_pages].
  rewrite (proj2 (Nat.ltb_ge _ _) Hlen), page_mask_mod, Hc. cbn [negb orb Z.eqb].
  rewrite take_app_length, drop_app_length, args_zero_replicate.
  rewrite increasing_scan by (done || lia). destruct Hnext as [->|(_ & p & Hlast & ->)]; [done|]. rewrite Hlast.
  assert (Hpin : p ∈ pages) by (apply last_Some in Hlast as [l ->]; set_solver).
  pose proof (increasing_ge _ _ _ Hip Hpin) as Hge. pose proof (increasing_in _ _ _ Hip Hpin) as Hpp.
  assert (Hmod : (p + PAGE) mod PAGE = 0)
    by (rewrite <- (Z_mod_plus_full p 1 PAGE) in Hpp; rewrite Z.mul_1_l in Hpp; tauto).
  rewrite page_mask_mod, Hmod. unfold PAGE in *.
  destruct (Z.leb_spec (p + 4096) cursor); [lia|]. destruct (Z.ltb_spec (p + 4096) (p + 4096)); [lia|].
  destruct (Z.leb_spec (2 ^ 63) (p + 4096)); [lia|]. cbn [negb orb Z.eqb]. by rewrite andb_false_r.
Qed.
Lemma rest_of_pages cursor lines p pages :
  increasing cursor (pages_from cursor lines) -> 0 <= cursor -> pages = take VMR_CHILD_PAGES_MAX (pages_from cursor lines) ->
  length pages = VMR_CHILD_PAGES_MAX -> last pages = Some p ->
  if p + PAGE =? 0 then False
  else pages_from (p + PAGE) lines = drop VMR_CHILD_PAGES_MAX (pages_from cursor lines).
Proof.
  intros Hinc Hcu Hp Hfull Hlast. set (from := pages_from cursor lines) in *.
  assert (Hpin : p ∈ from).
  { apply last_Some in Hlast as [l Hl]. rewrite <- (take_drop VMR_CHILD_PAGES_MAX from), <- Hp, Hl. set_solver. }
  pose proof (increasing_ge _ _ _ Hinc Hpin) as Hge.
  destruct (Z.eqb_spec (p + PAGE) 0); [unfold PAGE in *; lia|].
  rewrite last_lookup, Hfull in Hlast. rewrite Hp in Hlast. apply lookup_take_Some in Hlast as [Hlast _].
  change VMR_CHILD_PAGES_MAX with (S (Nat.pred VMR_CHILD_PAGES_MAX)).
  rewrite <- (increasing_past cursor from _ p Hinc Hlast). subst from. unfold pages_from.
  rewrite filter_swap. symmetry. apply filter_all. intros x (Hx & _)%list_elem_of_filter. unfold PAGE in *. lia.
Qed.
End scan.

Section property.
Context (entry : Z -> Z) (pread_ok : Z -> nat -> bool) (pg_set_ok : Z -> bool) (alloc : nat -> bool).

(** The pages of a child are listed completely and in order: for maps as
    the kernel prints them, a batch passes the receiver's validation at the
    cursor asked for, holds the first 256 resident private pages from the
    cursor on, and returns either no cursor, when nothing is left, or one from
    which exactly the remaining pages are listed.  Exactly the pages listed
    were recorded as the child's, in that order, and became broken from
    copy-on-write.  A batch is returned whenever both files belong to the child
    and can be read and page states can be recorded, unless the process ends
    for want of memory; a scan that fails has published resident pages only. *)
Theorem child_pages_listed mm cursor maps stream pagemap read_error lines w :
  maps_sorted 0 lines -> 0 <= cursor < 2 ^ 63 -> cow_wf (w_cow w) ->
  match source_child_pages entry pread_ok pg_set_ok alloc mm cursor maps stream pagemap read_error lines w with
  | (Ok b, w') =>
      child_pages_valid b cursor = true /\
      batch_pages b = take VMR_CHILD_PAGES_MAX (pages_from entry cursor lines) /\
      (if cp_next b =? 0 then (length (pages_from entry cursor lines) < VMR_CHILD_PAGES_MAX)%nat
       else pages_from entry (cp_next b) lines = drop VMR_CHILD_PAGES_MAX (pages_from entry cursor lines)) /\
      published mm (batch_pages b) w w'
  | (Err _, w') =>
      ~ (cursor mod PAGE = 0 /\ maps = inr mm /\ stream = inr () /\ pagemap = inr mm /\
         reliable pread_ok pg_set_ok read_error lines) /\
      partial entry mm w w'
  | (Aborted, _) => True
  | _ => False
  end.
Proof.
  intros Hso Hcu Hwf. unfold source_child_pages. change (VMR_PG_SIZE - 1) with 4095. rewrite page_mask_mod.
  assert (Hstay : partial entry mm w w) by (exists []; split; [done|by apply published_nil]).
  destruct (Z.eqb_spec (cursor mod PAGE) 0) as [Hc|Hc]; cbn [negb]; [|by split; [tauto|]]. unfold scan_bind, answer.
  destruct maps as [e|maps_mm]; cbn [opened]; [by split; [naive_solver|]|].
  destruct stream as [e|[]]; cbn [opened]; [by split; [naive_solver|]|].
  destruct pagemap as [e|pages_mm]; cbn [opened]; [by split; [naive_solver|]|].
  destruct (Z.eqb_spec maps_mm mm) as [->|]; cbn [negb orb]; [|by split; [naive_solver|]].
  destruct (Z.eqb_spec pages_mm mm) as [->|]; cbn [negb orb]; [|by split; [naive_solver|]].
  pose proof (scan_maps_spec entry pread_ok pg_set_ok alloc mm read_error cursor lines [] 0 w
    ltac:(simpl; unfold VMR_CHILD_PAGES_MAX; lia) Hc Hso Hwf) as Hs.
  destruct (scan_maps _ _ _ _ _ _ _ _ _ w) as [[[pages next]|e| | |] w']; try done; [|by split; [naive_solver|apply Hs]].
  destruct Hs as [Hs (new & Hnew & Hpub)]. cbn [fst app] in Hnew. subst new.
  set (from := pages_from entry cursor lines) in *.
  assert (Hinc : increasing cursor from).
  { eapply increasing_weaken; [|apply increasing_filter, all_pages_increasing, Hso]. lia. }
  assert (Htake : pages = take VMR_CHILD_PAGES_MAX from /\ (length pages <= VMR_CHILD_PAGES_MAX)%nat).
  { destruct next as [nx|]; cbn [took app] in Hs.
    - destruct Hs as (-> & Hl & _). split; [done|lia].
    - destruct Hs as (-> & Hl). rewrite take_ge by lia. split; [done|lia]. }
  destruct Htake as [Hp Hlen]. assert (Hip : increasing cursor pages) by (rewrite Hp; by apply increasing_take).
  assert (Hb : batch_pages (mk_child_pages (match next with Some n => n | None => 0 end) (length pages) 0
    (pages ++ replicate (VMR_CHILD_PAGES_MAX - length pages) 0)) = pages)
    by (unfold batch_pages; cbn [cp_count cp_pages]; by rewrite take_app_length).
  split; [|split; [by rewrite Hb|split; [|by rewrite Hb]]].
  - apply (batch_passes entry pread_ok pg_set_ok mm); [lia|done|done|done|]. destruct next as [nx|]; [right; exact (proj2 Hs)|by left].
  - cbn [cp_next]. destruct next as [nx|]; [|simpl in Hs; apply Hs]. destruct Hs as (_ & Hfull & p & Hlast & ->).
    pose proof (rest_of_pages entry pread_ok pg_set_ok cursor lines p pages Hinc ltac:(lia) Hp Hfull Hlast) as Hrest.
    by destruct (p + PAGE =? 0).
Qed.
End property.

(** A private range of three pages, two of them resident. *)
Definition demo_entry (p : Z) : Z := if p =? 17 then 0 else 2 ^ 63.
Definition demo_lines : list maps_line := [Some (0x10000, 0x13000, true); Some (0x20000, 0x21000, false)].
Definition demo_scan : result vmr_child_pages * world :=
  source_child_pages demo_entry (fun _ _ => true) (fun _ => true) (fun _ => true) 5 0x10000 (inr 5) (inr ()) (inr 5)
    false demo_lines (mk_world [] cow_init).
Lemma child_pages_listed_witness :
  exists b w, demo_scan = (Ok b, w) /\ child_pages_valid b 0x10000 = true /\
    batch_pages b = [0x10000; 0x12000] /\ published 5 (batch_pages b) (mk_world [] cow_init) w.
Proof.
  pose proof (child_pages_listed demo_entry (fun _ _ => true) (fun _ => true) (fun _ => true) 5 0x10000 (inr 5) (inr ())
    (inr 5) false demo_lines (mk_world [] cow_init)) as H.
  assert (Hb : exists b w, demo_scan = (Ok b, w) /\ batch_pages b = [0x10000; 0x12000])
    by (eexists _, _; split; vm_compute; reflexivity).
  destruct Hb as (b & w & Hd & Hb). unfold demo_scan in Hd. rewrite Hd in H. exists b, w. unfold demo_scan.
  destruct H as (H1 & _ & _ & H2).
  - repeat split; vm_compute; discriminate || reflexivity.
  - lia.
  - exact cow_init_wf.
  - exact (conj Hd (conj H1 (conj Hb H2))).
Defined.
End SourceSnapshot.
