(* ===== verification/Construction.v ===== *)
(** * Live mapping records (user/vmremote.c, cons_* and range_vacated_seq)

    The executor keeps a record of every mapping a source reply constructed,
    stamped with the source's sequence number, until an unmap retires it.  The
    records supply mappings to sibling contexts on demand, and order a late
    vacate against the constructions that came after it.  Rows may overlap; the
    newest row over an address is the current one.  A row with sequence 0 is a
    free slot.  Every operation runs under [cons_lock] and is one function on
    the table; growth of the array is part of the state. *)
From S2P Require Import Prelude Ranges.

Module Construction.

Definition VMCTX_MAP_NONE : Z := 0.
Definition VMCTX_MAP_SET : Z := 1.
Definition VMCTX_MAP_PROT : Z := 2.
Definition VMCTX_MAP_SET_SHARED : Z := 4.

Record construction := mk_cons {
  co_start : Z; co_end : Z; co_seq : Z; co_off : Z; co_order : Z;
  co_op : Z; co_prot : Z; co_as : Z }.
Record cons_table := mk_ctab {
  cons : list construction; cons_capacity : Z; cons_order : Z; n_cons_noted : Z }.
Definition cons_init : cons_table := mk_ctab [] 0 0 0.
Definition cons_zero : construction := mk_cons 0 0 0 0 0 0 0 0.
Definition sizeof_construction : Z := 56.

(** Whether the row's object offset moves with its start. *)
Definition maps_object (op : Z) : bool := (op =? VMCTX_MAP_SET) || (op =? VMCTX_MAP_SET_SHARED).
(** [cons[i].end = x], and [cons[i].start = x] with the offset moved along. *)
Definition set_end (x : Z) (r : construction) : construction :=
  mk_cons (co_start r) x (co_seq r) (co_off r) (co_order r) (co_op r) (co_prot r) (co_as r).
Definition set_start (x : Z) (r : construction) : construction :=
  mk_cons x (co_end r) (co_seq r)
    (if maps_object (co_op r) then u64 (co_off r + u64 (x - co_start r)) else co_off r)
    (co_order r) (co_op r) (co_prot r) (co_as r).
Definition set_dead (r : construction) : construction :=
  mk_cons (co_start r) (co_end r) 0 (co_off r) (co_order r) (co_op r) (co_prot r) (co_as r).
Definition live (r : construction) : bool := nz (co_seq r).

(** What a row says of an address: its stamp, its operation and the object
    offset the address maps to. *)
Record version := mk_version { v_seq : Z; v_order : Z; v_op : Z; v_prot : Z; v_off : Z }.
Definition version_at (r : construction) (a : Z) : version :=
  mk_version (co_seq r) (co_order r) (co_op r) (co_prot r)
    (if maps_object (co_op r) then u64 (co_off r + (a - co_start r)) else co_off r).

(** Moving a start twice is moving it once. *)
Lemma offset_shift o s x a : u64 (u64 (o + u64 (x - s)) + (a - x)) = u64 (o + (a - s)).
Proof.
  unfold u64. rewrite Zplus_mod_idemp_l. replace (o + (x - s) mod 2 ^ 64 + (a - x))
    with (o + (a - x) + (x - s) mod 2 ^ 64) by lia.
  rewrite Zplus_mod_idemp_r. f_equal. lia.
Qed.
#[global] Instance cons_row : RangeRow construction version := {|
  row_as := co_as; row_st := co_start; row_en := co_end;
  cut_hi := set_end; cut_lo := set_start; row_at := version_at |}.
#[global] Instance cons_row_laws : RangeRowLaws construction version.
Proof.
  split; try done. intros x r a. simpl. unfold version_at, set_start. simpl. f_equal.
  destruct (maps_object (co_op r)); [|done]. apply offset_shift.
Qed.

Section ops.
(** Whether calloc serves that many rows. *)
Context (alloc : Z -> bool).

(** ** Operations *)
Fixpoint free_slot (i : nat) (rows : list construction) : option nat :=
  match rows with
  | [] => None
  | r :: rows => if live r then free_slot (S i) rows else Some i
  end.
Definition cons_slot_locked (t : cons_table) : result (nat * cons_table) :=
  match free_slot 0 (cons t) with
  | Some i => Ok (i, t)
  | None =>
      let n := length (cons t) in
      let! t := (if Z.of_nat n =? cons_capacity t then
                   let cap := if nz (cons_capacity t) then u64 (cons_capacity t * 2) else 128 in
                   if (cons_capacity t <? cap) && (cap <=? U64MAX / sizeof_construction) && alloc cap
                   then Ok (mk_ctab (cons t) cap (cons_order t) (n_cons_noted t)) else Aborted
                 else Ok t) in
      if Z.of_nat n <? cons_capacity t
      then Ok (n, mk_ctab (cons t ++ [cons_zero]) (cons_capacity t) (cons_order t) (n_cons_noted t))
      else Corrupt
  end.

(** [cons[i] = r] *)
Definition put_row (i : nat) (r : construction) (t : cons_table) : cons_table :=
  mk_ctab (<[i := r]> (cons t)) (cons_capacity t) (cons_order t) (n_cons_noted t).

(** A record of the same range and class: protections and mappings do not
    replace each other. *)
Definition same_record (as_ start end_ op : Z) (r : construction) : bool :=
  live r && (co_as r =? as_) && (co_start r =? start) && (co_end r =? end_) &&
  eqb (co_op r =? VMCTX_MAP_PROT) (op =? VMCTX_MAP_PROT).
Fixpoint find_record (p : construction -> bool) (i : nat) (rows : list construction)
  : option (nat * construction) :=
  match rows with
  | [] => None
  | r :: rows => if p r then Some (i, r) else find_record p (S i) rows
  end.

Definition cons_note_locked (as_ start end_ seq op prot off : Z) (t : cons_table) : result cons_table :=
  if (seq =? 0) || (end_ <=? start) then Ok t
  else
    let found := find_record (same_record as_ start end_ op) 0 (cons t) in
    let publish (slot : nat) (t : cons_table) :=
      let order := u64 (cons_order t + 1) in
      if order =? 0 then Aborted
      else Ok (mk_ctab (<[slot := mk_cons start end_ seq off order op prot as_]> (cons t))
                 (cons_capacity t) order (u64 (n_cons_noted t + 1))) in
    match found with
    | Some (slot, r) => if seq <? co_seq r then Ok t else publish slot t
    | None => let! x := cons_slot_locked t in publish (fst x) (snd x)
    end.

Definition cons_newer (a b : construction) : bool :=
  (co_seq b <? co_seq a) || ((co_seq a =? co_seq b) && (co_order b <? co_order a)).

(** The newest row over an address. *)
Fixpoint newest (as_ addr : Z) (best : construction) (rows : list construction) : construction :=
  match rows with
  | [] => best
  | r :: rows =>
      newest as_ addr
        (if (co_as r =? as_) && live r && (co_start r <=? addr) && (addr <? co_end r) &&
            (negb (live best) || cons_newer r best) then r else best) rows
  end.
(** The part of its range no newer row touches. *)
Fixpoint narrow (as_ addr : Z) (best : construction) (lo hi : Z) (rows : list construction) : Z * Z :=
  match rows with
  | [] => (lo, hi)
  | r :: rows =>
      if negb (co_as r =? as_) || negb (live r) || negb (cons_newer r best)
      then narrow as_ addr best lo hi rows
      else
        narrow as_ addr best
          (if (co_end r <=? addr) && (lo <? co_end r) then co_end r else lo)
          (if (addr <? co_start r) && (co_start r <? hi) then co_start r else hi) rows
  end.
(** The span, the operation, its protection, the offset of the span's start and
    the stamp; [None] is a return of 0. *)
Definition cons_covering (as_ addr : Z) (t : cons_table) : option (Z * Z * Z * Z * Z * Z) :=
  let best := newest as_ addr cons_zero (cons t) in
  if negb (live best) || negb nz (co_op best) then None
  else
    let '(lo, hi) := narrow as_ addr best (co_start best) (co_end best) (cons t) in
    Some (lo, hi, co_op best, co_prot best,
      (if maps_object (co_op best) then u64 (co_off best + u64 (lo - co_start best)) else co_off best),
      co_seq best).

(** The test the retirement loop makes before touching a row, negated. *)
Definition kill_hit (as_ start end_ upto_seq : Z) (r : construction) : bool :=
  row_hit as_ start end_ r && live r && ((upto_seq =? 0) || (co_seq r <? upto_seq)).
(** One row: cut out the middle, cut a tail, or free the slot. *)
Definition kill_one (as_ start end_ upto_seq : Z) (i : nat) (row : construction) (t : cons_table)
  : result cons_table :=
  if negb (kill_hit as_ start end_ upto_seq row) then Ok t
  else if (co_start row <? start) && (end_ <? co_end row) then
    let! x := cons_slot_locked t in
    Ok (put_row (fst x) (set_start end_ row) (put_row i (set_end start row) (snd x)))
  else if co_start row <? start then Ok (put_row i (set_end start row) t)
  else if end_ <? co_end row then Ok (put_row i (set_start end_ row) t)
  else Ok (put_row i (set_dead row) t).
Fixpoint kill_loop (as_ start end_ upto_seq : Z) (todo i : nat) (t : cons_table) : result cons_table :=
  match todo with
  | O => Ok t
  | S todo =>
      match cons t !! i with
      | None => Corrupt
      | Some row =>
          let! t := kill_one as_ start end_ upto_seq i row t in
          kill_loop as_ start end_ upto_seq todo (S i) t
      end
  end.
Definition cons_kill (as_ start end_ upto_seq : Z) (t : cons_table) : result cons_table :=
  if end_ <=? start then Ok t else kill_loop as_ start end_ upto_seq (length (cons t)) 0 t.
End ops.
#[global] Arguments cons_slot_locked : simpl never.

(** ** Invariant *)
Definition live_rows (t : cons_table) : list construction := filter (fun r => live r = true) (cons t).
(** Rows grouped by publication instead of address space: the pieces of one
    publication are disjoint. *)
Definition order_row : RangeRow construction version := {|
  row_as := co_order; row_st := co_start; row_en := co_end;
  cut_hi := set_end; cut_lo := set_start; row_at := version_at |}.
Abbreviation published_once := (@pairwise construction version order_row).
Definition row_bounded (r : construction) : Prop :=
  0 <= co_start r < co_end r /\ co_end r <= U64MAX /\ 0 < co_seq r.
Record cons_wf (t : cons_table) : Prop := {
  cw_bounds : Forall row_bounded (live_rows t);
  cw_once : published_once (live_rows t);
  cw_orders : Forall (fun r => co_order r <= cons_order t) (live_rows t);
  cw_order : is_u64 (cons_order t);
  cw_capacity : Z.of_nat (length (cons t)) <= cons_capacity t <= U64MAX / sizeof_construction
}.
(** A live row of the space over an address. *)
Definition covers (as_ a : Z) (r : construction) : Prop := co_as r = as_ /\ co_start r <= a < co_end r.
(** The versions recorded for an address. *)
Definition covering_rows (t : cons_table) (as_ a : Z) : list construction :=
  filter (fun r => row_in as_ a r = true) (live_rows t).
Definition versions (t : cons_table) (as_ a : Z) : list version :=
  (fun r => version_at r a) <$> covering_rows t as_ a.

Lemma cons_init_wf : cons_wf cons_init.
Proof. by split. Qed.

Lemma elem_live_rows r t : r ∈ live_rows t <-> live r = true /\ r ∈ cons t.
Proof. unfold live_rows. by rewrite list_elem_of_filter. Qed.
(** Overwriting an element. *)
Lemma insert_perm {A} (l : list A) i x y :
  l !! i = Some y -> exists k, l ≡ₚ y :: k /\ <[i := x]> l ≡ₚ x :: k.
Proof.
  intros Hl. exists (take i l ++ drop (S i) l). split.
  - rewrite <- (take_drop_middle l i y Hl) at 1. by rewrite Permutation_middle.
  - rewrite insert_take_drop by (by eapply lookup_lt_Some). by rewrite Permutation_middle.
Qed.
Lemma put_row_live i x y t :
  cons t !! i = Some y -> exists k,
  live_rows t ≡ₚ filter (fun r => live r = true) [y] ++ k /\
  live_rows (put_row i x t) ≡ₚ filter (fun r => live r = true) [x] ++ k.
Proof.
  intros Hl. destruct (insert_perm (cons t) i x y Hl) as (k & H1 & H2).
  exists (filter (fun r => live r = true) k). unfold live_rows. cbn [put_row cons].
  rewrite <- !filter_app. split; by apply filter_Permutation.
Qed.
Lemma filter_one_live x : live x = true -> filter (fun r => live r = true) [x] = [x].
Proof. intros H. by rewrite filter_cons, decide_True. Qed.
Lemma filter_one_dead x : live x = false -> filter (fun r => live r = true) [x] = [].
Proof. intros H. by rewrite filter_cons, decide_False by congruence. Qed.

(** ** Slots *)
Lemma free_slot_spec i rows :
  match free_slot i rows with
  | Some j => (i <= j)%nat /\ exists r, rows !! (j - i)%nat = Some r /\ live r = false
  | None => True
  end.
Proof.
  revert i. induction rows as [|r rows IH]; intros i; simpl; [done|].
  destruct (live r) eqn:Hr; [|split; [lia|]; exists r; by rewrite Nat.sub_diag].
  specialize (IH (S i)). destruct (free_slot (S i) rows) as [j|]; [|done].
  destruct IH as (Hle & x & Hx & Hd). split; [lia|]. exists x. split; [|done].
  by replace (j - i)%nat with (S (j - S i)) by lia.
Qed.
Definition alloc_serves (alloc : Z -> bool) : Prop := forall n, alloc n = true.
Definition same_counts (t t' : cons_table) : Prop :=
  cons_order t' = cons_order t /\ n_cons_noted t' = n_cons_noted t.
Definition fits (t : cons_table) : Prop :=
  Z.of_nat (length (cons t)) <= cons_capacity t <= U64MAX / sizeof_construction.

Lemma cons_slot_spec alloc t :
  fits t ->
  match cons_slot_locked alloc t with
  | Ok (i, t') =>
      (exists r, cons t' !! i = Some r /\ live r = false) /\
      (cons t' = cons t \/ cons t' = cons t ++ [cons_zero]) /\
      live_rows t' = live_rows t /\ fits t' /\ same_counts t t'
  | Aborted => ~ (alloc_serves alloc /\ Z.of_nat (length (cons t)) <= 2 ^ 56)
  | _ => False
  end.
Proof.
  intros [Hl Hc]. unfold cons_slot_locked. pose proof (free_slot_spec 0 (cons t)) as Hf.
  destruct (free_slot 0 (cons t)) as [i|].
  { rewrite Nat.sub_0_r in Hf. destruct Hf as (_ & Hr). repeat (split; [done || by left|]). done. }
  assert (Hsnoc : forall cap, Z.of_nat (length (cons t)) < cap <= U64MAX / sizeof_construction ->
    let t' := mk_ctab (cons t ++ [cons_zero]) cap (cons_order t) (n_cons_noted t) in
    (exists r, cons t' !! length (cons t) = Some r /\ live r = false) /\
    (cons t' = cons t \/ cons t' = cons t ++ [cons_zero]) /\
    live_rows t' = live_rows t /\ fits t' /\ same_counts t t').
  { intros cap Hcap t'. split; [|split; [by right|split; [|split; [|done]]]].
    - exists cons_zero. subst t'. cbn [cons]. by rewrite lookup_app_r, Nat.sub_diag by lia.
    - unfold live_rows. subst t'. cbn [cons]. rewrite filter_app. simpl. by rewrite app_nil_r.
    - subst t'. unfold fits. cbn [cons cons_capacity]. rewrite length_app. simpl. lia. }
  destruct (Z.eqb_spec (Z.of_nat (length (cons t))) (cons_capacity t)) as [Heq|Hne].
  2:{ cbn [result_bind]. rewrite (proj2 (Z.ltb_lt _ _)) by lia. apply Hsnoc. lia. }
  cbv zeta. set (cap := if nz (cons_capacity t) then u64 (cons_capacity t * 2) else 128).
  assert (Hcap : cons_capacity t < cap /\ (Z.of_nat (length (cons t)) <= 2 ^ 56 -> cap <= U64MAX / sizeof_construction)).
  { subst cap. change (U64MAX / sizeof_construction) with 329406144173384850 in *.
    destruct (Z.eqb_spec (cons_capacity t) 0) as [->|]; cbn [negb]; [lia|].
    rewrite u64_small by (unfold is_u64, U64MAX; lia). lia. }
  destruct Hcap as [Hgrow Hroom]. rewrite (proj2 (Z.ltb_lt _ _) Hgrow). cbn [andb].
  destruct (Z.leb_spec cap (U64MAX / sizeof_construction)) as [Hle|Hgt]; cbn [andb].
  2:{ cbn [result_bind]. intros [_ Hsm]. specialize (Hroom Hsm). lia. }
  destruct (alloc cap) eqn:Ha; cbn [result_bind cons_capacity cons]; [|intros [Hal _]; by rewrite Hal in Ha].
  rewrite (proj2 (Z.ltb_lt _ _)) by lia. apply Hsnoc. lia.
Qed.

(** ** Retirement *)
Lemma fits_put i x t : fits t -> fits (put_row i x t).
Proof. unfold fits. cbn [put_row cons cons_capacity]. by rewrite length_insert. Qed.

Section kill.
Context (alloc : Z -> bool) (as_ start end_ upto : Z) (Hse : start < end_).
(** What a retirement leaves of one row. *)
Definition piece (r : construction) : list construction :=
  if kill_hit as_ start end_ upto r then carve as_ start end_ r else [r].
Abbreviation hit := (kill_hit as_ start end_ upto).

Lemma hit_below r x : x <= start -> hit (set_end x r) = false.
Proof. intros Hx. unfold kill_hit, row_hit. simpl. rewrite (proj2 (Z.leb_le x start)) by lia. by rewrite orb_true_r. Qed.
Lemma hit_above r x : end_ <= x -> hit (set_start x r) = false.
Proof. intros Hx. unfold kill_hit, row_hit. simpl. rewrite (proj2 (Z.leb_le end_ x)) by lia. by rewrite !orb_true_r. Qed.
Lemma hit_dead r : live r = false -> hit r = false.
Proof. unfold kill_hit. intros ->. by rewrite andb_false_r. Qed.
Lemma hit_live r : hit r = true -> live r = true /\ row_hit as_ start end_ r = true.
Proof. unfold kill_hit. intros [[? ?]%andb_prop _]%andb_prop. done. Qed.

(** The rows the loop is done with. *)
Definition settled (n i : nat) (t : cons_table) : Prop :=
  forall j r, cons t !! j = Some r -> (j < i \/ n <= j)%nat -> hit r = false.
Lemma settled_put n i j x t :
  hit x = false -> settled n i t -> settled n i (put_row j x t).
Proof.
  intros Hx Hs k r Hk Hlt. cbn [put_row cons] in Hk.
  apply list_lookup_insert_Some in Hk as [(-> & -> & _)|[_ Hk]]; [done|]. by eapply Hs.
Qed.
Lemma settled_here n i x t :
  hit x = false -> settled n i t -> settled n (S i) (put_row i x t).
Proof.
  intros Hx Hs k r Hk Hlt. cbn [put_row cons] in Hk.
  apply list_lookup_insert_Some in Hk as [(-> & -> & _)|[Hne Hk]]; [done|]. eapply Hs; [done|lia].
Qed.

Definition after (t t' : cons_table) : Prop :=
  live_rows t' ≫= piece ≡ₚ live_rows t ≫= piece /\ fits t' /\ same_counts t t' /\
  (length (cons t) <= length (cons t') <= S (length (cons t)))%nat.
(** Replacing a live row by a row, none or another of its pieces. *)
Lemma replace_piece i row x t :
  cons t !! i = Some row -> hit row = true -> hit x = false ->
  carve as_ start end_ row = filter (fun r => live r = true) [x] -> fits t -> after t (put_row i x t).
Proof.
  intros Hi Hh Hx Hc Hf. split; [|split; [|split; [done|]]]; cbn [put_row cons]; rewrite ?length_insert; [|by apply fits_put|lia].
  destruct (put_row_live i x row t Hi) as (k & H1 & H2). rewrite H1, H2, !bind_app.
  rewrite (filter_one_live row) by (by apply hit_live). simpl. rewrite app_nil_r.
  unfold piece at 3. rewrite Hh, Hc. apply Permutation_app_tail.
  destruct (live x) eqn:Hl; [rewrite filter_one_live by done|by rewrite filter_one_dead].
  simpl. unfold piece. by rewrite Hx.
Qed.
Lemma carve_hit row :
  hit row = true ->
  carve as_ start end_ row =
    (if co_start row <? start then [set_end start row] else []) ++
    (if end_ <? co_end row then [set_start end_ row] else []).
Proof. intros [_ Hr]%hit_live. unfold carve. by rewrite Hr. Qed.

Lemma kill_split n i row t :
  cons t !! i = Some row -> hit row = true -> fits t -> settled n i t -> (n <= length (cons t))%nat ->
  co_start row < start -> end_ < co_end row ->
  match cons_slot_locked alloc t with
  | Ok x => after t (put_row (fst x) (set_start end_ row) (put_row i (set_end start row) (snd x))) /\
      settled n (S i) (put_row (fst x) (set_start end_ row) (put_row i (set_end start row) (snd x)))
  | Aborted => ~ (alloc_serves alloc /\ Z.of_nat (length (cons t)) <= 2 ^ 56)
  | _ => False
  end.
Proof.
  intros Hi Hh Hf Hs Hn Hlo Hhi. pose proof (cons_slot_spec alloc t Hf) as Hslot.
  destruct (cons_slot_locked alloc t) as [[j t1]| | | |]; try done. cbn [fst snd].
  destruct Hslot as ((d & Hd & Hdead) & Happ & Hlive & Hf1 & Hcnt).
  destruct (hit_live row Hh) as [Hlr _].
  assert (Hi1 : cons t1 !! i = Some row) by (destruct Happ as [->| ->]; [done|by apply lookup_app_l_Some]).
  assert (Hij : j <> i) by (intros ->; congruence).
  set (t2 := put_row i (set_end start row) t1).
  assert (Hd2 : cons t2 !! j = Some d) by (cbn; by rewrite list_lookup_insert_ne).
  split.
  - split; [|split; [|split]]; cbn [put_row cons t2]; rewrite ?length_insert; [|by do 2 apply fits_put|done|].
    2:{ destruct Happ as [->| ->]; rewrite ?length_app; simpl; lia. }
    destruct (put_row_live i (set_end start row) row t1 Hi1) as (k & H1 & H2). fold t2 in H2.
    destruct (put_row_live j (set_start end_ row) d t2 Hd2) as (k2 & H3 & H4).
    rewrite <- Hlive, H1, H4, !bind_app, (filter_one_live row), (filter_one_live (set_start end_ row)) by done.
    rewrite filter_one_dead in H3 by done. rewrite filter_one_live in H2 by done.
    assert (Hk : k2 ≡ₚ [set_end start row] ++ k) by (rewrite <- H2, H3; done). rewrite Hk, bind_app. simpl.
    rewrite !app_nil_r. unfold piece at 4. rewrite Hh, carve_hit by done.
    rewrite (proj2 (Z.ltb_lt _ _) Hlo), (proj2 (Z.ltb_lt _ _) Hhi).
    unfold piece at 1 2. rewrite hit_above, hit_below by lia. simpl. apply Permutation_swap.
  - apply settled_put; [by apply hit_above|]. apply settled_here; [by apply hit_below|].
    destruct Happ as [Heq|Heq]; intros k r Hk Hlt; rewrite Heq in Hk; [by eapply Hs|].
    apply lookup_app_Some in Hk as [Hk|[_ Hk]]; [by eapply Hs|].
    apply list_lookup_singleton_Some in Hk as [_ <-]. by apply hit_dead.
Qed.

Lemma kill_one_spec n i row t :
  cons t !! i = Some row -> fits t -> settled n i t -> (n <= length (cons t))%nat ->
  match kill_one alloc as_ start end_ upto i row t with
  | Ok t' => after t t' /\ settled n (S i) t'
  | Aborted => ~ (alloc_serves alloc /\ Z.of_nat (length (cons t)) <= 2 ^ 56)
  | _ => False
  end.
Proof.
  intros Hi Hf Hs Hn. unfold kill_one. destruct (hit row) eqn:Hh; cbn [negb].
  2:{ split; [by repeat (split; [done|]); lia|]. intros j r Hj Hlt.
      destruct (decide (j = i)) as [->|]; [by simplify_eq|]. eapply Hs; [done|lia]. }
  pose proof (carve_hit row Hh) as Hc. destruct (hit_live row Hh) as [Hl _].
  destruct (Z.ltb_spec (co_start row) start), (Z.ltb_spec end_ (co_end row)); cbn [andb].
  - pose proof (kill_split n i row t Hi Hh Hf Hs Hn ltac:(lia) ltac:(lia)) as Hk.
    by destruct (cons_slot_locked alloc t).
  - split; [|by apply settled_here; [apply hit_below|]].
    eapply replace_piece; [done|done|by apply hit_below| |done]. by rewrite Hc, filter_one_live.
  - split; [|by apply settled_here; [apply hit_above|]].
    eapply replace_piece; [done|done|by apply hit_above| |done]. by rewrite Hc, filter_one_live.
  - split; [|by apply settled_here; [apply hit_dead|]].
    eapply replace_piece; [done|done|by apply hit_dead| |done]. by rewrite Hc.
Qed.

Lemma kill_loop_spec todo i t :
  fits t -> settled (i + todo) i t -> (i + todo <= length (cons t))%nat ->
  match kill_loop alloc as_ start end_ upto todo i t with
  | Ok t' => live_rows t' ≡ₚ live_rows t ≫= piece /\ fits t' /\ same_counts t t'
  | Aborted => ~ (alloc_serves alloc /\ Z.of_nat (length (cons t) + todo) <= 2 ^ 56)
  | _ => False
  end.
Proof.
  revert i t. induction todo as [|todo IH]; intros i t Hf Hs Hn.
  { simpl. split; [|done]. symmetry. rewrite Nat.add_0_r in Hs.
    assert (Hall : Forall (fun r => piece r = [r]) (live_rows t)).
    { apply Forall_forall. intros r [_ (j & Hj)%list_elem_of_lookup]%elem_live_rows.
      unfold piece. by rewrite (Hs j r Hj ltac:(lia)). }
    induction Hall as [|r l Hr _ IHl]; [done|]. rewrite bind_cons, Hr, IHl. done. }
  cbn [kill_loop]. destruct (cons t !! i) as [row|] eqn:Hi.
  2:{ apply lookup_ge_None in Hi. lia. }
  replace (i + S todo)%nat with (S i + todo)%nat in Hs, Hn by lia.
  pose proof (kill_one_spec _ i row t Hi Hf Hs Hn) as H1.
  destruct (kill_one _ _ _ _ _ i row t) as [t1| | | |]; cbn [result_bind]; try done.
  2:{ intros [? ?]. apply H1. split; [done|lia]. }
  destruct H1 as ((Hp & Hf1 & [Hc1 Hc2] & Hl1) & Hs1).
  specialize (IH (S i) t1 Hf1 Hs1 ltac:(lia)). destruct (kill_loop _ _ _ _ _ _ _ t1) as [t'| | | |]; try done.
  - destruct IH as (IH & Hf' & [? ?]). rewrite IH. split; [done|]. split; [done|]. split; congruence.
  - intros [? ?]. apply IH. split; [done|lia].
Qed.
End kill.

(** ** Versions after a retirement *)
Definition view (as_ a : Z) (rows : list construction) : list version :=
  (fun r => version_at r a) <$> filter (fun r => row_in as_ a r = true) rows.
Lemma versions_view t as_ a : versions t as_ a = view as_ a (live_rows t).
Proof. done. Qed.
#[global] Instance view_perm as_ a : Proper (Permutation ==> Permutation) (view as_ a).
Proof. intros l l' Hp. unfold view. by apply fmap_Permutation, filter_Permutation. Qed.
Lemma view_app as_ a rows1 rows2 : view as_ a (rows1 ++ rows2) = view as_ a rows1 ++ view as_ a rows2.
Proof. unfold view. by rewrite filter_app, fmap_app. Qed.
Lemma view_one as_ a r : view as_ a [r] = if row_in as_ a r then [version_at r a] else [].
Proof. unfold view. rewrite filter_cons. by destruct (row_in as_ a r). Qed.

(** The versions an unmap of the range up to a sequence takes away. *)
Definition retired (as_ start end_ upto as' a : Z) (v : version) : bool :=
  (as' =? as_) && (start <=? a) && (a <? end_) && ((upto =? 0) || (v_seq v <? upto)).

Section retire.
Context (as_ start end_ upto : Z) (Hse : start < end_).
Abbreviation piece := (piece as_ start end_ upto).

Lemma piece_elem r x :
  row_bounded r -> x ∈ piece r ->
  co_as x = co_as r /\ co_start r <= co_start x /\ co_end x <= co_end r /\ row_bounded x /\
  co_order x = co_order r /\ co_seq x = co_seq r.
Proof.
  intros Hb. unfold Construction.piece. destruct (kill_hit _ _ _ _ r) eqn:Hh.
  2:{ intros ->%list_elem_of_singleton. unfold row_bounded in *. lia. }
  rewrite (carve_hit as_ start end_ upto r Hh). destruct (hit_live _ _ _ _ r Hh) as [_ Hr].
  unfold row_bounded, row_hit in *. simpl in Hr.
  destruct (Z.ltb_spec (co_start r) start), (Z.ltb_spec end_ (co_end r)); simpl;
    intros Hx; repeat (apply elem_of_cons in Hx as [->|Hx]); try (by apply elem_of_nil in Hx); simpl; lia.
Qed.
Lemma piece_once r : row_bounded r -> published_once (piece r).
Proof.
  intros Hb. unfold Construction.piece. destruct (kill_hit _ _ _ _ r) eqn:Hh; [|by repeat constructor].
  rewrite (carve_hit as_ start end_ upto r Hh).
  destruct (co_start r <? start), (end_ <? co_end r); simpl; repeat constructor.
  unfold sep. simpl. lia.
Qed.
Lemma pieces_wf rows :
  Forall row_bounded rows -> published_once rows ->
  Forall row_bounded (rows ≫= piece) /\ published_once (rows ≫= piece).
Proof.
  intros Hb Hp. rewrite Forall_forall in Hb. split.
  - apply Forall_forall. intros x (r & Hx & Hr)%list_elem_of_bind. eapply piece_elem; eauto.
  - refine (proj2 (@cuts_wf _ _ order_row piece rows _ _)).
    + intros r Hr. split; [apply piece_once; auto|]. intros x Hx.
      destruct (piece_elem r x (Hb r Hr) Hx) as (_ & ? & ? & Hbx & ? & _). unfold row_bounded in Hbx.
      unfold row_ok. simpl. repeat split; try done; lia.
    + split; [|done]. apply Forall_forall. intros r Hr. specialize (Hb r Hr). unfold row_bounded, row_ok in *. simpl. lia.
Qed.
Lemma piece_view as' a r :
  row_bounded r -> live r = true ->
  view as' a (piece r) = filter (fun v => retired as_ start end_ upto as' a v = false) (view as' a [r]).
Proof.
  intros Hb Hl. rewrite view_one. unfold Construction.piece. destruct (kill_hit _ _ _ _ r) eqn:Hh.
  - rewrite (carve_hit as_ start end_ upto r Hh), view_app. destruct (hit_live _ _ _ _ r Hh) as [_ Hr].
    assert (Hu : (upto =? 0) || (co_seq r <? upto) = true) by (unfold kill_hit in Hh; lia).
    pose proof (cut_lo_at end_ r a) as Hlo. pose proof (cut_hi_at start r a) as Hhi. cbn in Hlo, Hhi.
    unfold row_hit, row_bounded in *. simpl in Hr.
    assert (Hret : row_in as' a r = true ->
      retired as_ start end_ upto as' a (version_at r a) = (start <=? a) && (a <? end_)).
    { unfold retired, row_in. simpl. rewrite Hu. lia. }
    destruct (row_in as' a r) eqn:Hin.
    + rewrite filter_cons, Hret by done. unfold row_in in Hin. simpl in Hin.
      destruct (Z.ltb_spec (co_start r) start), (Z.ltb_spec end_ (co_end r));
        rewrite ?view_one, ?Hlo, ?Hhi; unfold row_in; simpl;
        destruct (decide _) as [Hd|Hd]; simpl; break_solve.
    + unfold row_in in Hin. simpl in Hin.
      destruct (Z.ltb_spec (co_start r) start), (Z.ltb_spec end_ (co_end r));
        rewrite ?view_one, ?Hlo, ?Hhi; unfold row_in; simpl; break_solve.
  - rewrite view_one. destruct (row_in as' a r) eqn:Hin; [|done].
    rewrite filter_cons, decide_True; [done|]. unfold kill_hit, row_hit, row_in, retired, row_bounded in *.
    rewrite Hl in Hh. simpl in *. lia.
Qed.
Lemma pieces_view as' a rows :
  Forall (fun r => row_bounded r /\ live r = true) rows ->
  view as' a (rows ≫= piece) = filter (fun v => retired as_ start end_ upto as' a v = false) (view as' a rows).
Proof.
  induction 1 as [|r rows [Hb Hl] _ IH]; [done|]. rewrite bind_cons, view_app, IH.
  rewrite piece_view by done. change (r :: rows) with ([r] ++ rows). by rewrite view_app, filter_app.
Qed.
End retire.

Lemma live_bounded t : cons_wf t -> Forall (fun r => row_bounded r /\ live r = true) (live_rows t).
Proof.
  intros Hwf. apply Forall_forall. intros r Hr. split; [|by apply elem_live_rows in Hr as [? _]].
  pose proof (cw_bounds t Hwf) as Hb. rewrite Forall_forall in Hb. auto.
Qed.
Lemma cons_kill_result alloc as_ start end_ upto t :
  cons_wf t ->
  match cons_kill alloc as_ start end_ upto t with
  | Ok t' => cons_wf t' /\ same_counts t t' /\
      (start < end_ -> live_rows t' ≡ₚ live_rows t ≫= piece as_ start end_ upto) /\
      forall as' a, versions t' as' a ≡ₚ
        filter (fun v => retired as_ start end_ upto as' a v = false) (versions t as' a)
  | Aborted => ~ (alloc_serves alloc /\ Z.of_nat (length (cons t)) <= 2 ^ 55)
  | _ => False
  end.
Proof.
  intros Hwf. unfold cons_kill. destruct (Z.leb_spec end_ start) as [Hle|Hlt].
  { split; [done|]. split; [done|]. split; [lia|]. intros as' a.
    assert (Hall : Forall (fun v => retired as_ start end_ upto as' a v = false) (versions t as' a)).
    { apply Forall_forall. intros v _. unfold retired. lia. }
    induction Hall as [|v l Hv _ IH]; [done|]. rewrite filter_cons, decide_True by done. by constructor. }
  pose proof (kill_loop_spec alloc as_ start end_ upto (length (cons t)) 0 t (cw_capacity t Hwf)) as Hk.
  destruct (kill_loop _ _ _ _ _ _ _ _) as [t'| | | |].
  - destruct Hk as (Hp & Hf & [Hc1 Hc2]); [intros j r Hj Hlt'; apply lookup_lt_Some in Hj; lia|lia|].
    destruct (pieces_wf as_ start end_ upto Hlt (live_rows t)) as [Hb Ho]; [apply Hwf|apply Hwf|].
    split; [|split; [done|split; [done|]]].
    + split; [by rewrite Hp|by eapply pairwise_perm; [symmetry; exact Hp|]| |by rewrite Hc1; apply Hwf|done].
      rewrite Hp, Hc1. apply Forall_forall. intros x (r & Hx & Hr)%list_elem_of_bind.
      pose proof (live_bounded t Hwf) as Hlb. rewrite Forall_forall in Hlb.
      destruct (piece_elem as_ start end_ upto Hlt r x) as (_ & _ & _ & _ & -> & _); [by apply Hlb|done|].
      pose proof (cw_orders t Hwf) as Hor. rewrite Forall_forall in Hor. auto.
    + intros as' a. rewrite !versions_view, Hp. by rewrite pieces_view by (done || by apply live_bounded).
  - apply Hk; [intros j r Hj Hlt'; apply lookup_lt_Some in Hj; lia|lia].
  - intros [Ha Hs]. apply Hk; [intros j r Hj Hlt'; apply lookup_lt_Some in Hj; lia|lia|]. split; [done|]. lia.
  - apply Hk; [intros j r Hj Hlt'; apply lookup_lt_Some in Hj; lia|lia].
  - apply Hk; [intros j r Hj Hlt'; apply lookup_lt_Some in Hj; lia|lia].
Qed.

(** ** Publication *)
Lemma find_record_spec p i rows :
  match find_record p i rows with
  | Some (j, r) => (i <= j)%nat /\ rows !! (j - i)%nat = Some r /\ p r = true
  | None => Forall (fun r => p r = false) rows
  end.
Proof.
  revert i. induction rows as [|x rows IH]; intros i; simpl; [done|].
  destruct (p x) eqn:Hp; [split; [lia|]; by rewrite Nat.sub_diag|].
  specialize (IH (S i)). destruct (find_record p (S i) rows) as [[j r]|]; [|by constructor].
  destruct IH as (Hle & Hr & ?). split; [lia|]. split; [|done].
  by replace (j - i)%nat with (S (j - S i)) by lia.
Qed.
(** Where a publication puts its row: over a free slot or an older record. *)
Lemma cons_publish_spec t slot y start end_ seq off op prot as_ :
  cons_wf t -> cons t !! slot = Some y -> cons_order t < U64MAX ->
  0 <= start < end_ -> end_ <= U64MAX -> 0 < seq ->
  let new := mk_cons start end_ seq off (cons_order t + 1) op prot as_ in
  let t' := mk_ctab (<[slot := new]> (cons t)) (cons_capacity t) (cons_order t + 1) (u64 (n_cons_noted t + 1)) in
  cons_wf t' /\ exists k, live_rows t ≡ₚ filter (fun r => live r = true) [y] ++ k /\ live_rows t' ≡ₚ new :: k.
Proof.
  intros Hwf Hy Hord Hse He Hsq new t'.
  assert (Hn : live new = true) by (unfold live; simpl; lia).
  destruct (put_row_live slot new y t Hy) as (k & H1 & H2). rewrite filter_one_live in H2 by done.
  change (live_rows (put_row slot new t)) with (live_rows t') in H2. split; [|by exists k].
  pose proof (cw_bounds t Hwf) as Hb. rewrite H1 in Hb. apply Forall_app in Hb as [_ Hb].
  pose proof (cw_orders t Hwf) as Ho. rewrite H1 in Ho. apply Forall_app in Ho as [_ Ho].
  pose proof (pairwise_perm (H:=order_row) _ _ H1 (cw_once t Hwf)) as Hp.
  apply (pairwise_app (H:=order_row)) in Hp as (_ & Hp & _). destruct (cw_order t Hwf) as [Ho1 Ho2].
  split; [| | |subst t'; unfold is_u64; cbn; lia|subst t'; cbn [cons cons_capacity]; rewrite length_insert; apply Hwf].
  - rewrite H2. constructor; [|done]. unfold row_bounded. simpl. lia.
  - eapply pairwise_perm; [symmetry; exact H2|]. split; [|done]. eapply Forall_impl; [exact Ho|].
    intros r Hr. cbn in Hr. unfold sep. cbn. lia.
  - rewrite H2. subst t'. constructor; [simpl; lia|]. eapply Forall_impl; [exact Ho|]. simpl. lia.
Qed.

Definition noted (as_ start end_ seq op prot off : Z) (t t' : cons_table) : Prop :=
  exists new old k,
    new = mk_cons start end_ seq off (cons_order t + 1) op prot as_ /\
    live_rows t ≡ₚ old ++ k /\ live_rows t' ≡ₚ new :: k /\
    Forall (fun r => same_record as_ start end_ op r = true /\ co_seq r <= seq) old /\
    (forall s, s ∈ k -> co_seq s <= seq -> cons_newer new s = true).
Definition superseded (as_ start end_ seq op : Z) (t : cons_table) : Prop :=
  exists r, r ∈ live_rows t /\ same_record as_ start end_ op r = true /\ seq < co_seq r.

Lemma cons_note_result alloc as_ start end_ seq op prot off t :
  cons_wf t -> 0 <= start -> end_ <= U64MAX -> 0 <= seq ->
  match cons_note_locked alloc as_ start end_ seq op prot off t with
  | Ok t' => cons_wf t' /\
      (t' = t /\ (seq = 0 \/ end_ <= start \/ superseded as_ start end_ seq op t) \/
       0 < seq /\ start < end_ /\ noted as_ start end_ seq op prot off t t')
  | Aborted => ~ (alloc_serves alloc /\ Z.of_nat (length (cons t)) <= 2 ^ 56 /\ cons_order t < U64MAX)
  | _ => False
  end.
Proof.
  intros Hwf Hst Hen Hsq. unfold cons_note_locked.
  destruct (Z.eqb_spec seq 0) as [->|Hnz]; cbn [orb]; [by split; [|left; auto]|].
  destruct (Z.leb_spec end_ start) as [|Hlt]; [by split; [|left; auto]|]. cbv zeta.
  assert (Hpub : forall t1 slot y, cons_wf t1 -> same_counts t t1 -> live_rows t1 = live_rows t ->
    cons t1 !! slot = Some y ->
    Forall (fun r => same_record as_ start end_ op r = true /\ co_seq r <= seq) (filter (fun r => live r = true) [y]) ->
    match (if u64 (cons_order t1 + 1) =? 0 then Aborted
      else Ok (mk_ctab (<[slot := mk_cons start end_ seq off (u64 (cons_order t1 + 1)) op prot as_]> (cons t1))
             (cons_capacity t1) (u64 (cons_order t1 + 1)) (u64 (n_cons_noted t1 + 1)))) with
    | Ok t' => cons_wf t' /\ noted as_ start end_ seq op prot off t t'
    | Aborted => ~ (cons_order t < U64MAX)
    | _ => False
    end).
  { intros t1 slot y Hwf1 [Hord _] Hlv Hy Hold. rewrite <- Hord. destruct (cw_order t1 Hwf1) as [Ho1 Ho2].
    destruct (decide (cons_order t1 < U64MAX)) as [Hlt'|Hge].
    2:{ replace (cons_order t1) with U64MAX by lia. done. }
    rewrite u64_small by (unfold is_u64; lia). rewrite (proj2 (Z.eqb_neq _ _)) by lia.
    destruct (cons_publish_spec t1 slot y start end_ seq off op prot as_) as (Hwf' & k & Hk1 & Hk2); try done; try lia.
    split; [done|]. eexists _, _, k. rewrite <- Hord. split; [reflexivity|]. rewrite <- Hlv.
    split; [exact Hk1|]. split; [exact Hk2|]. split; [done|]. intros s Hs Hle.
    pose proof (cw_orders t1 Hwf1) as Hos. rewrite Hk1, Forall_app, !Forall_forall in Hos.
    specialize (proj2 Hos s Hs) as Hos'. simpl in Hos'. unfold cons_newer. simpl. lia. }
  pose proof (find_record_spec (same_record as_ start end_ op) 0 (cons t)) as Hfind.
  destruct (find_record _ 0 (cons t)) as [[slot r]|].
  - rewrite Nat.sub_0_r in Hfind. destruct Hfind as (_ & Hr & Hsame).
    assert (Hlr : live r = true) by (unfold same_record in Hsame; by destruct (live r)).
    destruct (Z.ltb_spec seq (co_seq r)) as [Hnew|Hold].
    { split; [done|]. left. split; [done|]. right. right. exists r. split; [|done].
      apply elem_live_rows. split; [done|]. by eapply list_elem_of_lookup_2. }
    specialize (Hpub t slot r Hwf ltac:(done) ltac:(done) Hr). rewrite filter_one_live in Hpub by done.
    specialize (Hpub ltac:(by repeat constructor)).
    destruct (if _ =? 0 then _ else _) as [t'| | | |]; try done.
    + destruct Hpub. split; [done|]. right. split; [lia|]. done.
    + intros (_ & _ & ?). by apply Hpub.
  - pose proof (cons_slot_spec alloc t (cw_capacity t Hwf)) as Hslot.
    destruct (cons_slot_locked alloc t) as [[slot t1]| | | |]; cbn [result_bind fst snd]; try done.
    2:{ intros (? & ? & _). by apply Hslot. }
    destruct Hslot as ((y & Hy & Hdead) & _ & Hlv & Hf & Hcnt).
    assert (Hwf1 : cons_wf t1).
    { destruct Hwf, Hcnt as [Hc _]. split; [by rewrite Hlv|by rewrite Hlv|by rewrite Hlv, Hc|by rewrite Hc|done]. }
    specialize (Hpub t1 slot y Hwf1 Hcnt Hlv Hy). rewrite filter_one_dead in Hpub by done. specialize (Hpub (Forall_nil_2 _)).
    destruct (if _ =? 0 then _ else _) as [t'| | | |]; try done.
    + destruct Hpub. split; [done|]. right. split; [lia|]. done.
    + intros (_ & _ & ?). by apply Hpub.
Qed.

(** ** The current record *)
Definition current (t : cons_table) (as_ a : Z) (r : construction) : Prop :=
  r ∈ live_rows t /\ covers as_ a r /\
  forall s, s ∈ live_rows t -> covers as_ a s -> s = r \/ cons_newer r s = true.

Lemma newer_trans a b c : cons_newer a b = true -> cons_newer c b = false -> cons_newer c a = false.
Proof. unfold cons_newer. lia. Qed.
Lemma newest_spec as_ addr best rows :
  let ok r := live r = true /\ covers as_ addr r in
  let b := newest as_ addr best rows in
  (b = best \/ b ∈ rows /\ ok b) /\
  (live best = true -> live b = true /\ cons_newer best b = false) /\
  (forall r, r ∈ rows -> ok r -> live b = true /\ cons_newer r b = false).
Proof.
  cbv zeta. revert best. induction rows as [|x rows IH]; intros best; cbn [newest].
  { split; [by left|]. split; [|by intros r ?%elem_of_nil]. intros Hl. split; [done|]. unfold cons_newer. lia. }
  set (test := (co_as x =? as_) && live x && (co_start x <=? addr) && (addr <? co_end x)).
  destruct (test && (negb (live best) || cons_newer x best)) eqn:Ht.
  - destruct (IH x) as (H1 & H2 & H3). assert (Hx : live x = true /\ covers as_ addr x).
    { apply andb_prop in Ht as [Ht _]. unfold test, covers in *. destruct (live x); [lia|]. by rewrite andb_false_r in Ht. }
    specialize (H2 (proj1 Hx)). split; [|split].
    + right. destruct H1 as [->|[? ?]]; [split; [by left|done]|split; [by right|done]].
    + intros Hl. split; [apply H2|]. rewrite Hl in Ht. simpl in Ht. apply andb_prop in Ht as [_ Ht].
      destruct H2 as [_ H2]. unfold cons_newer in *. lia.
    + intros r [->|Hr]%elem_of_cons Hok; [done|auto].
  - destruct (IH best) as (H1 & H2 & H3). split; [|split; [done|]].
    + destruct H1 as [?|[? ?]]; [by left|right; split; [by right|done]].
    + intros r [->|Hr]%elem_of_cons [Hl Hc]; [|by apply H3].
      assert (Htest : test = true) by (unfold test, covers in *; rewrite Hl; lia).
      rewrite Htest in Ht. cbn [andb] in Ht. apply orb_false_iff in Ht as [Hb Hn].
      apply negb_false_iff in Hb. destruct (H2 Hb) as [? H2']. split; [done|]. unfold cons_newer in *. lia.
Qed.
Lemma narrow_spec as_ addr best lo hi rows :
  lo <= addr < hi ->
  let '(lo', hi') := narrow as_ addr best lo hi rows in
  lo <= lo' <= addr /\ addr < hi' <= hi /\
  forall r, r ∈ rows -> co_as r = as_ -> live r = true -> cons_newer r best = true -> ~ covers as_ addr r ->
    co_end r <= lo' \/ hi' <= co_start r.
Proof.
  revert lo hi. induction rows as [|x rows IH]; intros lo hi Hin; cbn [narrow].
  { split; [lia|]. split; [lia|]. by intros r ?%elem_of_nil. }
  destruct (negb (co_as x =? as_) || negb (live x) || negb (cons_newer x best)) eqn:Ht.
  - specialize (IH lo hi Hin). destruct (narrow _ _ _ _ _ _) as [lo' hi']. destruct IH as (? & ? & IH).
    split; [done|]. split; [done|]. intros r [->|Hr]%elem_of_cons; [|by apply IH]. intros ? Hl Hn. rewrite Hl, Hn in Ht. lia.
  - set (lo1 := if (co_end x <=? addr) && (lo <? co_end x) then co_end x else lo).
    set (hi1 := if (addr <? co_start x) && (co_start x <? hi) then co_start x else hi).
    assert (Hlo : lo <= lo1 <= addr /\ (co_end x <= addr -> co_end x <= lo1)) by (subst lo1; break; lia).
    assert (Hhi : addr < hi1 <= hi /\ (addr < co_start x -> hi1 <= co_start x)) by (subst hi1; break; lia).
    specialize (IH lo1 hi1 ltac:(lia)). destruct (narrow _ _ _ _ _ _) as [lo' hi']. destruct IH as (? & ? & IH).
    split; [lia|]. split; [lia|]. intros r [->|Hr]%elem_of_cons; [|by apply IH].
    intros ? _ _ Hc. unfold covers in Hc. lia.
Qed.
Lemma pairwise_sep {R V} `{RangeRow R V} (rows : list R) r s :
  pairwise rows -> r ∈ rows -> s ∈ rows -> s = r \/ sep r s.
Proof.
  induction rows as [|x rows IH]; [by intros _ ?%elem_of_nil|]. intros [Hf Hp]. rewrite Forall_forall in Hf.
  intros [->|Hr]%elem_of_cons [->|Hs]%elem_of_cons; auto using sep_sym.
Qed.
(** A row no newer row covers an address of is the current one there. *)
Lemma maximal_current t as_ a r :
  cons_wf t -> r ∈ live_rows t -> covers as_ a r ->
  (forall s, s ∈ live_rows t -> covers as_ a s -> cons_newer s r = false) -> current t as_ a r.
Proof.
  intros Hwf Hr Hc Hmax. split; [done|]. split; [done|]. intros s Hs Hcs.
  specialize (Hmax s Hs Hcs). destruct (cons_newer r s) eqn:Hn; [by right|]. left.
  assert (Ho : co_order r = co_order s) by (unfold cons_newer in *; lia).
  pose proof (pairwise_sep (H:=order_row) (live_rows t) r s (cw_once t Hwf) Hr Hs) as Hsep.
  destruct Hsep as [|Hsep]; [done|]. unfold sep, covers in *. simpl in Hsep. lia.
Qed.
Lemma cons_covering_result t as_ addr :
  cons_wf t ->
  match cons_covering as_ addr t with
  | Some (lo, hi, op, prot, off, seq) => exists r,
      lo <= addr < hi /\ op <> 0 /\
      forall a, lo <= a < hi -> current t as_ a r /\
        version_at r a = mk_version seq (co_order r) op prot (if maps_object op then u64 (off + (a - lo)) else off)
  | None => (forall r, r ∈ live_rows t -> ~ covers as_ addr r) \/
      exists r, current t as_ addr r /\ co_op r = VMCTX_MAP_NONE
  end.
Proof.
  intros Hwf. unfold cons_covering. pose proof (newest_spec as_ addr cons_zero (cons t)) as Hn. cbv zeta in Hn.
  set (best := newest as_ addr cons_zero (cons t)) in *. destruct Hn as (H1 & _ & H3).
  destruct (live best) eqn:Hl; cbn [negb orb].
  2:{ left. intros r [Hr1 Hr2]%elem_live_rows Hc. destruct (H3 r Hr2) as [? _]; [done|]. congruence. }
  destruct H1 as [H1|(Hin & _ & Hcov)]; [rewrite H1 in Hl; done|].
  assert (Hbin : best ∈ live_rows t) by (by apply elem_live_rows).
  assert (Hmax : forall s, s ∈ live_rows t -> covers as_ addr s -> cons_newer s best = false).
  { intros s [Hs1 Hs2]%elem_live_rows Hcs. by apply H3. }
  destruct (Z.eqb_spec (co_op best) 0) as [Hop|Hop]; cbn [negb].
  { right. exists best. split; [|done]. by apply maximal_current. }
  pose proof (narrow_spec as_ addr best (co_start best) (co_end best) (cons t) ltac:(unfold covers in Hcov; lia)) as Hnar.
  destruct (narrow _ _ _ _ _ _) as [lo hi]. destruct Hnar as (Hlo & Hhi & Hfree). exists best.
  split; [lia|]. split; [done|]. intros a Ha. split.
  - apply maximal_current; [done|done|unfold covers in *; lia|]. intros s Hs Hcs.
    destruct (cons_newer s best) eqn:Hn; [|done]. exfalso. pose proof Hs as [Hs1 Hs2]%elem_live_rows.
    assert (Hnc : ~ covers as_ addr s) by (intros Hc; specialize (Hmax s Hs Hc); congruence).
    destruct (Hfree s Hs2 (proj1 Hcs) Hs1 Hn Hnc); unfold covers in Hcs; lia.
  - unfold version_at. f_equal. destruct (maps_object (co_op best)); [|done]. symmetry. apply offset_shift.
Qed.

(** ** A vacate against newer constructions *)

(** A call of range_vacated_1, which drops the pages and native mappings of a
    range in every member of the address space. *)
Record vacate := mk_vacate { va_start : Z; va_end : Z; va_soft : bool }.
Record layout := mk_layout { la_cons : cons_table; la_vacated : list vacate; n_vacate_late_skipped : Z }.

(** The lowest-placed construction at least as new as the vacate that overlaps
    what is left of it, as the part of it in the range. *)
Definition newer_overlap (as_ start end_ seq : Z) (r : construction) : bool :=
  negb (negb (co_as r =? as_) || (co_seq r <? seq) || negb (live r)) && negb (co_op r =? VMCTX_MAP_PROT) &&
  negb ((co_end r <=? start) || (end_ <=? co_start r)).
Fixpoint lowest_newer (as_ start end_ seq : Z) (hit : option (Z * Z)) (rows : list construction) : option (Z * Z) :=
  match rows with
  | [] => hit
  | r :: rows =>
      let lower := match hit with None => true | Some (cs, _) => co_start r <? cs end in
      lowest_newer as_ start end_ seq
        (if newer_overlap as_ start end_ seq r && lower
         then Some (if start <? co_start r then co_start r else start, if co_end r <? end_ then co_end r else end_)
         else hit) rows
  end.

Section vacate.
Context (alloc : Z -> bool) (as_ : Z) (soft : bool).
(** cons_kill of a hard vacate, then range_vacated_1. *)
Definition vacate_part (start end_ upto : Z) (la : layout) : result layout :=
  let! c := (if soft then Ok (la_cons la) else cons_kill alloc as_ start end_ upto (la_cons la)) in
  Ok (mk_layout c (la_vacated la ++ [mk_vacate start end_ soft]) (n_vacate_late_skipped la)).
Fixpoint vacate_loop (fuel : nat) (start end_ seq : Z) (la : layout) : result layout :=
  match fuel with
  | O => Hung
  | S fuel =>
      if start <? end_ then
        match lowest_newer as_ start end_ seq None (cons (la_cons la)) with
        | None => vacate_part start end_ seq la
        | Some (cs, ce) =>
            let! la := (if start <? cs then vacate_part start cs seq la else Ok la) in
            vacate_loop fuel ce end_ seq
              (mk_layout (la_cons la) (la_vacated la) (u64 (n_vacate_late_skipped la + 1)))
        end
      else Ok la
  end.
(** Every turn of the loop skips past a newer row for good. *)
Definition range_vacated_seq (start end_ seq : Z) (la : layout) : result layout :=
  if seq =? 0 then vacate_part start end_ 0 la
  else vacate_loop (S (length (cons (la_cons la)))) start end_ seq la.
End vacate.

Definition newer_version (seq : Z) (v : version) : bool := (seq <=? v_seq v) && negb (v_op v =? VMCTX_MAP_PROT).
(** A construction at least as new as the vacate is recorded over the address. *)
Definition spared (t : cons_table) (as_ seq a : Z) : bool := existsb (newer_version seq) (versions t as_ a).

Lemma spared_spec t as_ seq a :
  spared t as_ seq a = true <-> exists r, r ∈ live_rows t /\ covers as_ a r /\ seq <= co_seq r /\ co_op r <> VMCTX_MAP_PROT.
Proof.
  unfold spared. rewrite existsb_exists. unfold versions, covering_rows. split.
  - intros (v & Hv%list_elem_of_In & Hn). apply list_elem_of_fmap in Hv as (r & -> & (Hin & Hr)%list_elem_of_filter).
    exists r. unfold row_in, covers, newer_version in *. simpl in *. repeat split; try done; lia.
  - intros (r & Hr & Hc & Hs & Ho). exists (version_at r a). split.
    + apply list_elem_of_In, list_elem_of_fmap. exists r. split; [done|]. apply list_elem_of_filter. split; [|done].
      unfold row_in, covers in *. simpl. lia.
    + unfold newer_version. simpl. lia.
Qed.

(** What a vacate of a range does: it drops exactly the addresses no newer
    construction covers, and retires exactly the older records there. *)
Definition dropped (soft : bool) (as_ seq start end_ : Z) (t : cons_table) (as' a : Z) (v : version) : bool :=
  negb soft && (as' =? as_) && (start <=? a) && (a <? end_) && negb (spared t as_ seq a) && (v_seq v <? seq).
Record vacated (soft : bool) (as_ seq start end_ : Z) (la la' : layout) : Prop := {
  vc_wf : cons_wf (la_cons la');
  vc_calls : exists l, la_vacated la' = la_vacated la ++ l /\
    Forall (fun v => va_soft v = soft /\ start <= va_start v) l /\
    forall a, (exists v, v ∈ l /\ va_start v <= a < va_end v) <->
      start <= a < end_ /\ spared (la_cons la) as_ seq a = false;
  vc_versions : forall as' a, versions (la_cons la') as' a ≡ₚ
    filter (fun v => dropped soft as_ seq start end_ (la_cons la) as' a v = false) (versions (la_cons la) as' a)
}.
Lemma vacated_spares soft as_ seq start end_ la la' as' a :
  vacated soft as_ seq start end_ la la' -> spared (la_cons la') as' seq a = spared (la_cons la) as' seq a.
Proof.
  intros [_ _ Hv]. unfold spared. rewrite (existsb_perm _ _ _ (Hv as' a)). apply existsb_filter.
  intros v Hn. unfold newer_version, dropped in *. lia.
Qed.
(** A spared stretch in the middle of two vacated ones. *)
Lemma vacated_join soft as_ seq start cs ce end_ la la1 la2 :
  start <= cs <= ce -> ce <= end_ ->
  (forall a, cs <= a < ce -> spared (la_cons la) as_ seq a = true) ->
  vacated soft as_ seq start cs la la1 -> vacated soft as_ seq ce end_ la1 la2 ->
  vacated soft as_ seq start end_ la la2.
Proof.
  intros Hcs Hce Hmid H1 H2. pose proof (fun a => vacated_spares _ _ _ _ _ _ _ as_ a H1) as Hsp.
  destruct H1 as [_ (l1 & Hl1 & Hs1 & Hc1) Hv1], H2 as [Hwf (l2 & Hl2 & Hs2 & Hc2) Hv2].
  split; [done| |].
  - exists (l1 ++ l2). split; [by rewrite Hl2, Hl1, app_assoc|]. split.
    { apply Forall_app. split; [done|]. eapply Forall_impl; [exact Hs2|]. intros v [? ?]. split; [done|lia]. }
    intros a.
    specialize (Hc1 a). specialize (Hc2 a). rewrite Hsp in Hc2. specialize (Hmid a). setoid_rewrite elem_of_app.
    destruct (spared (la_cons la) as_ seq a); split.
    + intros (v & [Hv|Hv] & Ha); [destruct (proj1 Hc1 (ex_intro _ v (conj Hv Ha)))|destruct (proj1 Hc2 (ex_intro _ v (conj Hv Ha)))]; done.
    + intros [_ ?]. done.
    + intros (v & [Hv|Hv] & Ha); [destruct (proj1 Hc1 (ex_intro _ v (conj Hv Ha)))|destruct (proj1 Hc2 (ex_intro _ v (conj Hv Ha)))];
        split; done || lia.
    + intros [Ha _]. destruct (decide (a < cs)).
      * destruct (proj2 Hc1) as (v & ? & ?); [by split; [lia|]|]. eauto.
      * destruct (decide (a < ce)); [by discriminate (Hmid ltac:(lia))|]. destruct (proj2 Hc2) as (v & ? & ?); [by split; [lia|]|]. eauto.
  - intros as' a. rewrite Hv2, Hv1, filter_filter. apply reflexive_eq, list_filter_iff. intros v. unfold dropped. rewrite Hsp.
    specialize (Hmid a). destruct (spared (la_cons la) as_ seq a); cbn [negb]; [by rewrite !andb_false_r|].
    assert (~ cs <= a < ce) by (intros Hc; by discriminate (Hmid Hc)).
    rewrite !andb_true_r. destruct soft, (as' =? as_), (v_seq v <? seq); cbn [negb andb orb]; rewrite ?andb_true_r, ?andb_false_r; lia.
Qed.

Lemma newer_overlap_spec as_ start end_ seq r :
  newer_overlap as_ start end_ seq r = true <->
  live r = true /\ co_as r = as_ /\ seq <= co_seq r /\ co_op r <> VMCTX_MAP_PROT /\ start < co_end r /\ co_start r < end_.
Proof. unfold newer_overlap. destruct (live r); cbn [negb]; lia. Qed.
(** The part found starts no later than any newer row and lies in one. *)
Definition part_of (as_ start end_ seq : Z) (rows : list construction) (cs ce : Z) : Prop :=
  exists r, r ∈ rows /\ newer_overlap as_ start end_ seq r = true /\
    cs = Z.max start (co_start r) /\ ce = Z.min end_ (co_end r).
Lemma lowest_newer_spec as_ start end_ seq hit rows :
  (match hit with Some (cs, ce) => start <= cs | None => True end) ->
  match lowest_newer as_ start end_ seq hit rows with
  | None => hit = None /\ forall r, r ∈ rows -> newer_overlap as_ start end_ seq r = false
  | Some (cs, ce) =>
      (hit = Some (cs, ce) \/ part_of as_ start end_ seq rows cs ce) /\
      (match hit with Some (cs0, _) => cs <= cs0 | None => True end) /\
      start <= cs /\
      forall r, r ∈ rows -> newer_overlap as_ start end_ seq r = true -> cs <= Z.max start (co_start r)
  end.
Proof.
  revert hit. induction rows as [|x rows IH]; intros hit Hhit; cbn [lowest_newer].
  { destruct hit as [[cs ce]|]; [|by split; [|intros r ?%elem_of_nil]].
    split; [by left|]. split; [lia|]. split; [done|]. by intros r ?%elem_of_nil. }
  set (lower := match hit with None => true | Some (cs, _) => co_start x <? cs end). cbv zeta.
  destruct (newer_overlap as_ start end_ seq x && lower) eqn:Ht.
  - apply andb_prop in Ht as [Hx Hlow]. pose proof Hx as Hxs. apply newer_overlap_spec in Hxs.
    set (cs1 := if start <? co_start x then co_start x else start).
    set (ce1 := if co_end x <? end_ then co_end x else end_).
    assert (Hcs1 : cs1 = Z.max start (co_start x)) by (subst cs1; break; lia).
    assert (Hce1 : ce1 = Z.min end_ (co_end x)) by (subst ce1; break; lia).
    assert (Hs1 : start <= cs1) by lia. specialize (IH (Some (cs1, ce1)) Hs1). destruct (lowest_newer _ _ _ _ _ _) as [[cs ce]|]; [|by destruct IH].
    destruct IH as (H1 & H2 & H3 & H4). split; [|split; [|split; [done|]]].
    + right. destruct H1 as [H1|(r & Hr & ?)]; [|exists r; split; [by right|done]].
      simplify_eq. exists x. split; [by left|done].
    + destruct hit as [[cs0 ce0]|]; [|done]. subst lower. cbn in Hlow, H2, Hhit. lia.
    + intros r [->|Hr]%elem_of_cons; [lia|by apply H4].
  - specialize (IH hit Hhit). destruct (lowest_newer _ _ _ _ _ _) as [[cs ce]|].
    + destruct IH as (H1 & H2 & H3 & H4). split; [|split; [done|split; [done|]]].
      * destruct H1 as [?|(r & Hr & ?)]; [by left|right; exists r; split; [by right|done]].
      * intros r [->|Hr]%elem_of_cons Hx; [|by apply H4]. rewrite Hx in Ht. cbn [andb] in Ht.
        subst lower. destruct hit as [[cs0 ce0]|]; [cbn in *; lia|done].
    + destruct IH as [-> IH]. split; [done|]. subst lower. rewrite andb_true_r in Ht.
      intros r [->|Hr]%elem_of_cons; auto.
Qed.
Lemma overlap_spared t as_ seq a start end_ :
  start <= a < end_ -> spared t as_ seq a = true <->
  exists r, r ∈ cons t /\ newer_overlap as_ start end_ seq r = true /\ co_start r <= a < co_end r.
Proof.
  intros Ha. rewrite spared_spec. setoid_rewrite newer_overlap_spec. setoid_rewrite elem_live_rows. unfold covers. split.
  - intros (r & [? ?] & [? ?] & ?). exists r. repeat split; try done; lia.
  - intros (r & ? & (? & ? & ? & ? & ?) & ?). exists r. done.
Qed.

(** Newer rows that reach past an address: the turns the loop has left. *)
Definition reaches (as_ seq s : Z) (r : construction) : Prop :=
  co_as r = as_ /\ seq <= co_seq r /\ co_op r <> VMCTX_MAP_PROT /\ s < co_end r.
#[global] Instance reaches_dec as_ seq s r : Decision (reaches as_ seq s r).
Proof. apply _. Defined.
Definition turns (as_ seq s : Z) (t : cons_table) : nat := length (filter (reaches as_ seq s) (live_rows t)).
Lemma turns_less as_ seq start ce t r :
  r ∈ live_rows t -> co_as r = as_ -> seq <= co_seq r -> co_op r <> VMCTX_MAP_PROT ->
  start < co_end r -> co_end r <= ce -> (turns as_ seq ce t < turns as_ seq start t)%nat.
Proof.
  intros Hr H1 H2 H3 H4 H5. unfold turns.
  assert (Hsub : forall l, (length (filter (reaches as_ seq ce) l) <= length (filter (reaches as_ seq start) l))%nat).
  { induction l as [|x l IH]; [done|]. rewrite !filter_cons. destruct (decide (reaches as_ seq ce x)) as [Hd|Hd].
    - rewrite decide_True by (unfold reaches in *; intuition lia). simpl. lia.
    - destruct (decide _); simpl; lia. }
  apply elem_of_Permutation in Hr as [k Hk]. rewrite Hk, !filter_cons. rewrite decide_False by (unfold reaches; lia).
  rewrite decide_True by done. simpl. specialize (Hsub k). lia.
Qed.
Lemma turns_kill as_ start end_ seq s t t' :
  0 < seq -> live_rows t' ≡ₚ live_rows t ≫= piece as_ start end_ seq -> Forall row_bounded (live_rows t) -> start < end_ ->
  turns as_ seq s t' = turns as_ seq s t.
Proof.
  intros Hsq Hp Hb Hlt. unfold turns. rewrite Hp. clear Hp. f_equal.
  induction Hb as [|r l Hr _ IH]; [done|]. rewrite bind_cons, filter_app, IH. change (r :: l) with ([r] ++ l).
  rewrite filter_app. f_equal. unfold piece at 1. destruct (kill_hit as_ start end_ seq r) eqn:Hh; [|done].
  assert (Hold : co_seq r < seq) by (unfold kill_hit in Hh; lia).
  rewrite (filter_none _ [r]) by (intros y ->%list_elem_of_singleton; unfold reaches; lia).
  apply filter_none. intros x Hx.
  assert (Hpx : x ∈ piece as_ start end_ seq r) by (unfold piece; by rewrite Hh).
  destruct (piece_elem as_ start end_ seq Hlt r x Hr Hpx) as (_ & _ & _ & _ & _ & ?). unfold reaches. lia.
Qed.

Section run.
Context (alloc : Z -> bool) (as_ : Z) (soft : bool).
Lemma vacate_part_spec seq start end_ la :
  cons_wf (la_cons la) -> 0 < seq -> start < end_ ->
  (forall a, start <= a < end_ -> spared (la_cons la) as_ seq a = false) ->
  match vacate_part alloc as_ soft start end_ seq la with
  | Ok la' => vacated soft as_ seq start end_ la la' /\
      forall s, turns as_ seq s (la_cons la') = turns as_ seq s (la_cons la)
  | Aborted => soft = false
  | _ => False
  end.
Proof.
  intros Hwf Hsq Hlt Hfree. unfold vacate_part.
  assert (Hcall : forall a, (exists v, v ∈ [mk_vacate start end_ soft] /\ va_start v <= a < va_end v) <->
    start <= a < end_ /\ spared (la_cons la) as_ seq a = false).
  { intros a. split; [|intros [? _]; eexists; split; [by left|done]].
    intros (v & ->%list_elem_of_singleton & Ha). split; [done|]. by apply Hfree. }
  assert (Hdrop : forall as' a v, dropped soft as_ seq start end_ (la_cons la) as' a v =
    negb soft && retired as_ start end_ seq as' a v).
  { intros as' a v. unfold dropped, retired. specialize (Hfree a).
    destruct (Z.leb_spec start a), (Z.ltb_spec a end_); rewrite ?andb_false_r; try done.
    rewrite Hfree by lia. cbn [negb]. rewrite (proj2 (Z.eqb_neq seq 0)) by lia. cbn [orb].
    by rewrite !andb_true_r, andb_assoc. }
  destruct soft eqn:Hsoft; cbn [result_bind].
  - split; [|done]. split; [done|eexists; split; [done|]; split; [by repeat constructor|done]|].
    intros as' a. cbn [la_cons]. rewrite (list_filter_iff _ (fun _ => True)).
    + induction (versions (la_cons la) as' a) as [|v l IH]; [done|]. rewrite filter_cons, decide_True by done. by constructor.
    + intros v. by rewrite Hdrop.
  - pose proof (cons_kill_result alloc as_ start end_ seq (la_cons la) Hwf) as Hk.
    destruct (cons_kill _ _ _ _ _ _) as [t'| | | |]; cbn [result_bind]; try done.
    destruct Hk as (Hwf' & _ & Hp & Hv). split.
    + split; [done|eexists; split; [done|]; split; [by repeat constructor|done]|]. intros as' a. cbn [la_cons].
      rewrite Hv. apply reflexive_eq, list_filter_iff. intros v. by rewrite Hdrop.
    + intros s. eapply turns_kill; [done|by apply Hp|apply Hwf|done].
Qed.
Lemma vacated_nothing seq start end_ la :
  cons_wf (la_cons la) -> end_ <= start -> vacated soft as_ seq start end_ la la.
Proof.
  intros Hwf Hle. split; [done| |].
  - exists []. rewrite app_nil_r. split; [done|]. split; [done|]. intros a. split; [|lia].
    by intros (v & ?%elem_of_nil & _).
  - intros as' a. rewrite (list_filter_iff _ (fun _ => True)).
    + induction (versions (la_cons la) as' a) as [|v l IH]; [done|]. rewrite filter_cons, decide_True by done. by constructor.
    + intros v. unfold dropped. split; [done|]. intros _. lia.
Qed.
Lemma vacated_count seq start end_ la la' n :
  vacated soft as_ seq start end_ (mk_layout (la_cons la) (la_vacated la) n) la' -> vacated soft as_ seq start end_ la la'.
Proof. by intros [? ? ?]. Qed.

Lemma vacate_loop_spec fuel start end_ seq la :
  cons_wf (la_cons la) -> 0 < seq -> (0 < fuel)%nat ->
  (start < end_ -> (turns as_ seq start (la_cons la) < fuel)%nat) ->
  match vacate_loop alloc as_ soft fuel start end_ seq la with
  | Ok la' => vacated soft as_ seq start end_ la la'
  | Aborted => soft = false
  | _ => False
  end.
Proof.
  revert start la. induction fuel as [|fuel IH]; intros start la Hwf Hsq Hf0 Hf; [lia|]. cbn [vacate_loop].
  destruct (Z.ltb_spec start end_) as [Hlt|Hge]; [|by apply vacated_nothing].
  pose proof (lowest_newer_spec as_ start end_ seq None (cons (la_cons la)) I) as Hlow.
  destruct (lowest_newer _ _ _ _ _ _) as [[cs ce]|].
  2:{ destruct Hlow as [_ Hnone]. pose proof (vacate_part_spec seq start end_ la Hwf Hsq Hlt) as Hp.
      assert (Hfree : forall a, start <= a < end_ -> spared (la_cons la) as_ seq a = false).
      { intros a Ha. apply not_true_iff_false. rewrite (overlap_spared _ _ _ _ _ _ Ha).
        intros (r & Hr & Hn & _). rewrite Hnone in Hn; done. }
      destruct (vacate_part _ _ _ _ _ _ _); try done; try by apply Hp. }
  destruct Hlow as ([?|(r & Hr & Hn & Hcs & Hce)] & _ & _ & Hmin); [done|].
  pose proof Hn as (Hl & Has & Hseq & Hop & H1 & H2)%newer_overlap_spec.
  pose proof (cw_bounds _ Hwf) as Hb. rewrite Forall_forall in Hb.
  pose proof (Hb r (proj2 (elem_live_rows r _) (conj Hl Hr))) as Hbr. unfold row_bounded in Hbr. clear Hb.
  assert (Hbelow : forall a, start <= a < cs -> spared (la_cons la) as_ seq a = false).
  { intros a Ha. apply not_true_iff_false. rewrite (overlap_spared _ _ _ _ start end_) by lia.
    intros (x & Hx & Hnx & Hcx). specialize (Hmin x Hx Hnx). lia. }
  assert (Hmid : forall a, cs <= a < ce -> spared (la_cons la) as_ seq a = true).
  { intros a Ha. apply (overlap_spared _ _ _ _ start end_); [lia|]. exists r. split; [done|]. split; [done|lia]. }
  pose proof (fun H => turns_less as_ seq start ce (la_cons la) r (proj2 (elem_live_rows r _) (conj Hl Hr)) Has Hseq Hop H1 H) as Hless.
  assert (Hpos : (0 < turns as_ seq start (la_cons la))%nat).
  { pose proof (turns_less as_ seq start (co_end r) (la_cons la) r (proj2 (elem_live_rows r _) (conj Hl Hr)) Has Hseq Hop H1). lia. }
  specialize (Hf Hlt).
  assert (Hpart : match (if start <? cs then vacate_part alloc as_ soft start cs seq la else Ok la) with
    | Ok la1 => vacated soft as_ seq start cs la la1 /\ turns as_ seq ce (la_cons la1) = turns as_ seq ce (la_cons la)
    | Aborted => soft = false | _ => False end).
  { destruct (Z.ltb_spec start cs) as [Hc|Hc]; [|split; [by apply vacated_nothing|done]].
    pose proof (vacate_part_spec seq start cs la Hwf Hsq Hc Hbelow) as Hp.
    destruct (vacate_part _ _ _ _ _ _ _); try done. by split; apply Hp. }
  destruct (if start <? cs then _ else _) as [la1| | | |]; cbn [result_bind]; try done.
  destruct Hpart as [Hpart Hsame].
  specialize (IH ce (mk_layout (la_cons la1) (la_vacated la1) (u64 (n_vacate_late_skipped la1 + 1)))).
  cbn [la_cons] in IH. specialize (IH (vc_wf _ _ _ _ _ _ _ Hpart) Hsq ltac:(lia)). rewrite Hsame in IH.
  assert (Hnext : ce < end_ -> (turns as_ seq ce (la_cons la) < fuel)%nat).
  { intros Hce'. assert (Hle : co_end r <= ce) by lia. specialize (Hless Hle). lia. }
  specialize (IH Hnext).
  destruct (vacate_loop _ _ _ _ _ _ _ _) as [la2| | | |]; try done.
  apply (vacated_join soft as_ seq start cs ce end_ la la1 la2); [lia|lia|done|done|]. by eapply vacated_count.
Qed.
End run.

Lemma range_vacated_result alloc as_ soft start end_ seq la :
  cons_wf (la_cons la) -> 0 < seq ->
  match range_vacated_seq alloc as_ soft start end_ seq la with
  | Ok la' => vacated soft as_ seq start end_ la la'
  | Aborted => soft = false
  | _ => False
  end.
Proof.
  intros Hwf Hsq. unfold range_vacated_seq. rewrite (proj2 (Z.eqb_neq seq 0)) by lia.
  pose proof (vacate_loop_spec alloc as_ soft (S (length (cons (la_cons la)))) start end_ seq la Hwf) as Hl.
  destruct (vacate_loop _ _ _ _ _ _ _ _); apply Hl; try lia; intros _; unfold turns, live_rows;
    pose proof (length_filter (reaches as_ seq start) (filter (fun r => live r = true) (cons (la_cons la))));
    pose proof (length_filter (fun r => live r = true) (cons (la_cons la))); lia.
Qed.

(** ** Properties *)

(** Retiring a range takes away exactly the records of that range in that
    address space that are older than the given sequence (all of them for
    sequence 0): at every address of every space the versions recorded
    afterwards are the others, each with its stamp, rights and the object
    offset it had there, so both tails of a cut record keep their content.
    The table stays well formed, the loop never leaves the array, and the only
    failure is the abort of a refused growth. *)
Theorem cons_kill_retires alloc as_ start end_ upto t :
  cons_wf t ->
  match cons_kill alloc as_ start end_ upto t with
  | Ok t' => cons_wf t' /\ forall as' a, versions t' as' a ≡ₚ
      filter (fun v => retired as_ start end_ upto as' a v = false) (versions t as' a)
  | Aborted => ~ (alloc_serves alloc /\ Z.of_nat (length (cons t)) <= 2 ^ 55)
  | _ => False
  end.
Proof.
  intros Hwf. pose proof (cons_kill_result alloc as_ start end_ upto t Hwf) as Hk.
  destruct (cons_kill _ _ _ _ _ _); try done. destruct Hk as (? & _ & _ & ?). done.
Qed.

(** Publishing a construction either changes nothing, when it carries no
    sequence, is empty, or a record of the same range and class is newer; or
    adds exactly one row with a fresh publication number, in place of at most
    one older record of the same range and class, leaves every other row as it
    was, and is newer than every remaining row whose sequence is not greater.
    The table stays well formed.  The failures are the aborts of a refused
    growth and of an exhausted publication counter. *)
Theorem cons_note_publishes alloc as_ start end_ seq op prot off t :
  cons_wf t -> 0 <= start -> end_ <= U64MAX -> 0 <= seq ->
  match cons_note_locked alloc as_ start end_ seq op prot off t with
  | Ok t' => cons_wf t' /\
      (t' = t /\ (seq = 0 \/ end_ <= start \/ superseded as_ start end_ seq op t) \/
       0 < seq /\ start < end_ /\ noted as_ start end_ seq op prot off t t')
  | Aborted => ~ (alloc_serves alloc /\ Z.of_nat (length (cons t)) <= 2 ^ 56 /\ cons_order t < U64MAX)
  | _ => False
  end.
Proof. apply cons_note_result. Qed.

(** A lookup returns a span around the address on which one record is
    current: at every address of the span that record covers it and every other
    record over it is older, and the operation, rights, stamp and object offset
    returned are that record's there.  It returns nothing exactly when no
    record covers the address or the current one is opaque. *)
Theorem cons_covering_current as_ addr t :
  cons_wf t ->
  match cons_covering as_ addr t with
  | Some (lo, hi, op, prot, off, seq) => exists r,
      lo <= addr < hi /\ op <> 0 /\
      forall a, lo <= a < hi -> current t as_ a r /\
        version_at r a = mk_version seq (co_order r) op prot (if maps_object op then u64 (off + (a - lo)) else off)
  | None => (forall r, r ∈ live_rows t -> ~ covers as_ addr r) \/
      exists r, current t as_ addr r /\ co_op r = VMCTX_MAP_NONE
  end.
Proof. apply cons_covering_result. Qed.

(** C24: A vacate stamped with a sequence ends, and drops exactly the
    addresses of its range over which no mapping at least as new is recorded
    (protection records do not count); a hard vacate also retires exactly the
    older records there, and every other record survives.  A vacate without a
    sequence drops its whole range and, when hard, every record of it.  A soft
    vacate always completes; a hard one can only end in the abort of a refused
    growth. *)
Theorem vacate_spares_newer alloc as_ soft start end_ seq la :
  cons_wf (la_cons la) -> 0 <= seq ->
  match range_vacated_seq alloc as_ soft start end_ seq la with
  | Ok la' =>
      if seq =? 0 then
        la_vacated la' = la_vacated la ++ [mk_vacate start end_ soft] /\ cons_wf (la_cons la') /\
        forall as' a, versions (la_cons la') as' a ≡ₚ
          filter (fun v => negb soft && retired as_ start end_ 0 as' a v = false) (versions (la_cons la) as' a)
      else vacated soft as_ seq start end_ la la'
  | Aborted => soft = false
  | _ => False
  end.
Proof.
  intros Hwf Hsq. destruct (Z.eqb_spec seq 0) as [->|Hnz]; [|apply range_vacated_result; done || lia].
  unfold range_vacated_seq, vacate_part. destruct soft; cbn [result_bind negb andb].
  - split; [done|]. split; [done|]. intros as' a. cbn [la_cons].
    induction (versions (la_cons la) as' a) as [|v l IH]; [done|]. rewrite filter_cons, decide_True by done. by constructor.
  - pose proof (cons_kill_result alloc as_ start end_ 0 (la_cons la) Hwf) as Hk.
    cbn [Z.eqb]. destruct (cons_kill _ _ _ _ _ _); cbn [result_bind]; try done. destruct Hk as (? & _ & _ & ?). done.
Qed.

(** A reservation with a newer mapping inside it. *)
Definition demo_cons : result cons_table :=
  let! t := cons_note_locked (fun _ => true) 7 0x10000 0x20000 3 VMCTX_MAP_SET 3 0x40000 cons_init in
  cons_note_locked (fun _ => true) 7 0x14000 0x16000 5 VMCTX_MAP_SET 1 0 t.
Definition demo_table : cons_table := match demo_cons with Ok t => t | _ => cons_init end.
Lemma demo_table_wf : cons_wf demo_table.
Proof.
  split.
  - repeat constructor; vm_compute; discriminate || reflexivity.
  - vm_compute. repeat constructor; intros; try left; try right; discriminate.
  - repeat constructor; vm_compute; discriminate.
  - split; vm_compute; discriminate.
  - split; vm_compute; discriminate.
Qed.
Lemma cons_kill_retires_witness :
  exists t', cons_kill (fun _ => true) 7 0x12000 0x18000 4 demo_table = Ok t' /\ cons_wf t' /\
    versions t' 7 0x19000 = [mk_version 3 1 VMCTX_MAP_SET 3 0x49000] /\
    versions t' 7 0x13000 = [] /\ versions t' 7 0x15000 = [mk_version 5 2 VMCTX_MAP_SET 1 0x1000].
Proof.
  pose proof (cons_kill_retires (fun _ => true) 7 0x12000 0x18000 4 demo_table demo_table_wf) as H.
  eexists. split; [vm_compute; reflexivity|]. vm_compute cons_kill in H. split; [exact (proj1 H)|].
  repeat split; vm_compute; reflexivity.
Defined.
Lemma cons_note_publishes_witness :
  exists t', cons_note_locked (fun _ => true) 7 0x14000 0x16000 6 VMCTX_MAP_SET 1 0 demo_table = Ok t' /\ cons_wf t' /\
    length (live_rows t') = 2%nat.
Proof.
  pose proof (cons_note_publishes (fun _ => true) 7 0x14000 0x16000 6 VMCTX_MAP_SET 1 0 demo_table demo_table_wf
    ltac:(lia) ltac:(by vm_compute) ltac:(lia)) as H.
  eexists. split; [vm_compute; reflexivity|]. vm_compute cons_note_locked in H. split; [exact (proj1 H)|].
  vm_compute. reflexivity.
Defined.
Lemma cons_covering_current_witness :
  cons_covering 7 0x12000 demo_table = Some (0x10000, 0x14000, VMCTX_MAP_SET, 3, 0x40000, 3) /\
  exists r, current demo_table 7 0x13fff r /\ v_off (version_at r 0x13fff) = 0x43fff.
Proof.
  pose proof (cons_covering_current 7 0x12000 demo_table demo_table_wf) as H.
  assert (Hc : cons_covering 7 0x12000 demo_table = Some (0x10000, 0x14000, VMCTX_MAP_SET, 3, 0x40000, 3))
    by (vm_compute; reflexivity).
  rewrite Hc in H. split; [exact Hc|]. destruct H as (r & _ & _ & H). exists r.
  destruct (H 0x13fff ltac:(lia)) as [H1 H2]. split; [exact H1|]. rewrite H2. vm_compute. reflexivity.
Defined.
Lemma vacate_spares_newer_witness :
  exists la', range_vacated_seq (fun _ => true) 7 false 0x12000 0x18000 4 (mk_layout demo_table [] 0) = Ok la' /\
    la_vacated la' = [mk_vacate 0x12000 0x14000 false; mk_vacate 0x16000 0x18000 false] /\
    vacated false 7 4 0x12000 0x18000 (mk_layout demo_table [] 0) la'.
Proof.
  pose proof (vacate_spares_newer (fun _ => true) 7 false 0x12000 0x18000 4 (mk_layout demo_table [] 0) demo_table_wf
    ltac:(lia)) as H.
  eexists. split; [vm_compute; reflexivity|]. split; [reflexivity|]. vm_compute range_vacated_seq in H. exact H.
Defined.
End Construction.
