(* ===== verification/AccessJournal.v ===== *)
(** * The access journal (user/access-journal.h)

    The executor reads the source's journal of access changes in batches,
    validates a whole batch, applies it to its own records and to every native
    context, and only then acknowledges it.  A change may arrive after a later
    mapping of the same addresses: spans that a newer construction covers are
    skipped, and rows the access table stamped later are left alone.

    The state is the executor's records the application touches: the access
    table, the shared layout, the mapping records with the calls of
    range_vacated_1, and the native protection changes made through
    as_apply_map_siblings, whose success is a parameter. *)
From S2P Require Import Prelude Ranges AccessLayout SharedLayout Construction Proto Native.
Open Scope Z_scope.

Module AccessJournal.
Import AccessLayout Construction.

Definition VMR_ACCESS_MAX : nat := 16.
Definition VMR_ACCESS_UNMAP : Z := 1.
Definition VMR_ACCESS_DISCARD : Z := 2.
Definition VMR_ACCESS_PROTECT : Z := 3.
Definition VMR_ACCESS_DENY : Z := 4.
Definition VMR_ACCESS_ALLOW : Z := 5.
Definition VMR_ACCESS_CONSTRUCT : Z := 6.

Record vmr_access_event := mk_event { ev_sequence : Z; ev_start : Z; ev_end : Z; ev_kind : Z; ev_protection : Z }.
Record vmr_access_batch := mk_batch {
  ab_identity : Z; ab_cursor : Z; ab_head : Z; ab_acknowledged : Z;
  ab_count : nat; ab_reserved : Z; ab_event : list vmr_access_event }.

(** A native protection change: struct vmctx_reply with VMCTX_MAP_PROT. *)
Record map_change := mk_change { mc_addr : Z; mc_len : Z; mc_prot : Z }.
Record journal := mk_journal {
  jn_access : access_table; jn_shared : SharedLayout.shared_table; jn_layout : layout;
  jn_changes : list map_change }.

(** An operation on one part of the state. *)
Definition zoom {S T} (get : S -> T) (set : T -> S -> S) (f : T -> result T) : prog S unit := fun s =>
  match f (get s) with
  | Ok t => (Ok tt, set t s)
  | Err e => (Err e, s)
  | Aborted => (Aborted, s)
  | Corrupt => (Corrupt, s)
  | Hung => (Hung, s)
  end.
Definition on_access := zoom jn_access (fun t j => mk_journal t (jn_shared j) (jn_layout j) (jn_changes j)).
Definition on_shared := zoom jn_shared (fun t j => mk_journal (jn_access j) t (jn_layout j) (jn_changes j)).
Definition on_layout := zoom jn_layout (fun t j => mk_journal (jn_access j) (jn_shared j) t (jn_changes j)).
Definition on_cons (f : cons_table -> result cons_table) : prog journal unit :=
  on_layout (fun la => let! c := f (la_cons la) in Ok (mk_layout c (la_vacated la) (n_vacate_late_skipped la))).

Section ops.
(** [access_alloc], [shared_alloc] and [cons_alloc] are the answers of the
    allocator, [apply_ok] whether a native change succeeds after those made so
    far, [as_] the address space of the context. *)
Context (access_alloc shared_alloc cons_alloc : Z -> bool) (apply_ok : list map_change -> map_change -> bool) (as_ : Z).

(** ** The boundary of a construction *)
Definition shields (e : vmr_access_event) (r : construction) : bool :=
  negb (negb (co_as r =? as_) || (co_op r =? VMCTX_MAP_PROT) || (co_seq r <? ev_sequence e) ||
        ((co_seq r =? ev_sequence e) && negb (ev_kind e =? VMR_ACCESS_UNMAP))).
Fixpoint boundary_loop (e : vmr_access_event) (start end_ next : Z) (skip : bool) (rows : list construction) : Z * bool :=
  match rows with
  | [] => (next, skip)
  | r :: rows =>
      if negb (shields e r) || (co_end r <=? start) || (end_ <=? co_start r)
      then boundary_loop e start end_ next skip rows
      else if co_start r <=? start
      then boundary_loop e start end_ (if co_end r <? next then co_end r else next) true rows
      else boundary_loop e start end_ (if co_start r <? next then co_start r else next) skip rows
  end.
Definition access_construction_boundary (e : vmr_access_event) (start end_ : Z) (t : cons_table) : Z * bool :=
  boundary_loop e start end_ end_ false (cons t).

(** ** One span *)
Definition native_prot (protection denied : Z) : Z :=
  if nz denied then 0
  else (if nz (protection .& Proto.VMR_PROT_READ) then Proto.PROT_READ else 0) .|
       (if nz (protection .& Proto.VMR_PROT_WRITE) then Proto.PROT_WRITE else 0) .|
       (if nz (protection .& Proto.VMR_PROT_EXEC) then Proto.PROT_EXEC else 0).
(** The row recorded for a span whose old row is [r]. *)
Definition event_row (e : vmr_access_event) (start next : Z) (r : access_range) : access_range :=
  let denied := if ev_kind e =? VMR_ACCESS_PROTECT then ar_denied r
                else if ev_kind e =? VMR_ACCESS_DENY then 1 else 0 in
  if ev_kind e =? VMR_ACCESS_UNMAP then mk_access as_ start next (ev_sequence e) 0 1
  else mk_access as_ start next (ev_sequence e) (ev_protection e) denied.
Definition changes_rights (e : vmr_access_event) : bool :=
  (ev_kind e =? VMR_ACCESS_PROTECT) || (ev_kind e =? VMR_ACCESS_DENY) || (ev_kind e =? VMR_ACCESS_ALLOW).
(** as_apply_map_siblings for a protection; [Err 0] is a return of -1 whose
    error number no caller reads. *)
Definition as_apply_map_siblings (c : map_change) : prog journal unit := fun j =>
  if apply_ok (jn_changes j) c
  then (Ok tt, mk_journal (jn_access j) (jn_shared j) (jn_layout j) (jn_changes j ++ [c]))
  else (Err 0, j).
(** range_vacated_1 of a discarded range. *)
Definition vacate_soft (start end_ : Z) : prog journal unit :=
  on_layout (fun la => Ok (mk_layout (la_cons la) (la_vacated la ++ [mk_vacate start end_ true]) (n_vacate_late_skipped la))).
Definition apply_rights (e : vmr_access_event) (r : access_range) : prog journal unit :=
  let start := ar_start r in
  let next := ar_end r in
  let prot := native_prot (ar_protection r) (ar_denied r) in
  as_apply_map_siblings (mk_change start (next - start) prot) ≫= fun _ =>
  on_shared (SharedLayout.shared_layout_protect shared_alloc as_ start next prot) ≫= fun _ =>
  on_cons (cons_note_locked cons_alloc as_ start next (ev_sequence e) VMCTX_MAP_PROT prot 0) ≫= fun _ =>
  if ev_kind e =? VMR_ACCESS_DENY then vacate_soft start next else mret tt.

Definition note_span (e : vmr_access_event) (r : access_range) : prog journal unit :=
  on_access (access_note access_alloc r) ≫= fun _ => if changes_rights e then apply_rights e r else mret tt.

Fixpoint span_loop (fuel : nat) (e : vmr_access_event) (start end_ : Z) : prog journal unit := fun j =>
  match fuel with
  | O => (if start <? end_ then Hung else Ok tt, j)
  | S fuel =>
      if start <? end_ then
        let '(have, r) := access_lookup as_ start end_ (jn_access j) in
        let next := if ar_end r <? end_ then ar_end r else end_ in
        if next <=? start then (Err 0, j)
        else if have && (ev_sequence e <? ar_sequence r) then span_loop fuel e next end_ j
        else
          (note_span e (event_row e start next r) ≫= fun _ => span_loop fuel e next end_) j
      else (Ok tt, j)
  end.

(** shared_layout_forget in the calls of range_vacated_1 made so far that were
    not there before. *)
Fixpoint forget_shared (calls : list vacate) : prog journal unit :=
  match calls with
  | [] => mret tt
  | v :: calls =>
      (if va_soft v then mret tt
       else on_shared (SharedLayout.shared_layout_forget shared_alloc as_ (va_start v) (va_end v))) ≫= fun _ =>
      forget_shared calls
  end.
Definition calls_made : prog journal (list vacate) := fun j => (Ok (la_vacated (jn_layout j)), j).
Definition vacate_span (soft : bool) (start end_ seq : Z) : prog journal unit :=
  calls_made ≫= fun before =>
  on_layout (range_vacated_seq cons_alloc as_ soft start end_ seq) ≫= fun _ =>
  calls_made ≫= fun calls => forget_shared (drop (length before) calls).

Definition access_apply_span (fuel : nat) (e : vmr_access_event) (start end_ : Z) : prog journal unit :=
  if (ev_kind e =? VMR_ACCESS_DISCARD) || (ev_kind e =? VMR_ACCESS_UNMAP) then
    vacate_span (ev_kind e =? VMR_ACCESS_DISCARD) start end_ (ev_sequence e) ≫= fun _ =>
    if ev_kind e =? VMR_ACCESS_DISCARD then mret tt else span_loop fuel e start end_
  else span_loop fuel e start end_.

(** ** A batch *)
Fixpoint event_loop (outer fuel : nat) (e : vmr_access_event) (start : Z) : prog journal unit := fun j =>
  match outer with
  | O => (if start <? ev_end e then Hung else Ok tt, j)
  | S outer =>
      if start <? ev_end e then
        let '(end_, skip) := access_construction_boundary e start (ev_end e) (la_cons (jn_layout j)) in
        if end_ <=? start then (Err 0, j)
        else
          ((if skip then mret tt else access_apply_span fuel e start end_) ≫= fun _ =>
           event_loop outer fuel e end_) j
      else (Ok tt, j)
  end.
Fixpoint access_apply_batch (fuel : nat) (events : list vmr_access_event) : prog journal unit :=
  match events with
  | [] => mret tt
  | e :: events => event_loop fuel fuel e (ev_start e) ≫= fun _ => access_apply_batch fuel events
  end.
End ops.

(** ** The effect of an event on one address *)
Record journal_wf (j : journal) : Prop := {
  jw_access : access_wf (jn_access j);
  jw_shared : SharedLayout.shared_wf (jn_shared j);
  jw_cons : cons_wf (la_cons (jn_layout j))
}.
Definition event_ok (e : vmr_access_event) : Prop :=
  0 < ev_sequence e /\ 0 <= ev_start e < ev_end e /\ ev_end e <= U64MAX.

(** Whether the event is at least as new as what the table says. *)
Definition takes (e : vmr_access_event) (v : option access_value) : bool :=
  match v with Some (s, _, _) => negb (ev_sequence e <? s) | None => true end.
Definition event_value (e : vmr_access_event) (denied : Z) : access_value :=
  if ev_kind e =? VMR_ACCESS_UNMAP then (ev_sequence e, 0, 1)
  else (ev_sequence e, ev_protection e,
        if ev_kind e =? VMR_ACCESS_PROTECT then denied else if ev_kind e =? VMR_ACCESS_DENY then 1 else 0).
Definition old_denied (v : option access_value) : Z := match v with Some (_, _, d) => d | None => 0 end.
Definition new_value (e : vmr_access_event) (v : option access_value) : option access_value :=
  if takes e v then Some (event_value e (old_denied v)) else v.
Definition value_prot (v : access_value) : Z := native_prot (snd (fst v)) (snd v).
Definition set_prot (p : Z) (s : Z * Z * Z) : Z * Z * Z := (fst (fst s), snd (fst s), p).
Definition new_rights (e : vmr_access_event) (v : option access_value) (s : option (Z * Z * Z)) : option (Z * Z * Z) :=
  if changes_rights e && takes e v then set_prot (value_prot (event_value e (old_denied v))) <$> s else s.

(** A mapping at least as new as the event is recorded over the address. *)
Definition shield_version (e : vmr_access_event) (v : version) : bool :=
  negb (v_op v =? VMCTX_MAP_PROT) &&
  ((ev_sequence e <? v_seq v) || ((ev_sequence e =? v_seq v) && (ev_kind e =? VMR_ACCESS_UNMAP))).
Definition shielded (as_ : Z) (e : vmr_access_event) (j : journal) (a : Z) : bool :=
  existsb (shield_version e) (versions (la_cons (jn_layout j)) as_ a).

Definition change_at (c : map_change) (a : Z) : Prop := mc_addr c <= a < mc_addr c + mc_len c.
(** The event took effect on the addresses of [P]: there, and only there, the
    access table has the new value, the shared layout the rights [sh] gives,
    and every address whose rights changed had a native change to exactly the
    new rights; the shields of the event are as before. *)
Record applied (as_ : Z) (e : vmr_access_event)
    (sh : option access_value -> option (Z * Z * Z) -> option (Z * Z * Z)) (P : Z -> bool) (j j' : journal) : Prop := {
  ap_wf : journal_wf j';
  ap_access as' a : access_at (jn_access j') as' a =
    if (as' =? as_) && P a then new_value e (access_at (jn_access j) as' a) else access_at (jn_access j) as' a;
  ap_shared as' a : SharedLayout.shared_at (jn_shared j') as' a =
    if (as' =? as_) && P a then sh (access_at (jn_access j) as' a) (SharedLayout.shared_at (jn_shared j) as' a)
    else SharedLayout.shared_at (jn_shared j) as' a;
  ap_shields a : shielded as_ e j' a = shielded as_ e j a;
  ap_changes : exists l, jn_changes j' = jn_changes j ++ l /\ forall a p,
    (exists c, c ∈ l /\ change_at c a /\ mc_prot c = p) <->
    P a = true /\ changes_rights e = true /\ takes e (access_at (jn_access j) as_ a) = true /\
      p = value_prot (event_value e (old_denied (access_at (jn_access j) as_ a)))
}.

Section specs.
Context (access_alloc shared_alloc cons_alloc : Z -> bool) (apply_ok : list map_change -> map_change -> bool) (as_ : Z).
Context (e : vmr_access_event) (Hseq : 0 < ev_sequence e).
Implicit Types (j : journal).

Lemma applied_nothing sh P j : journal_wf j -> (forall a, P a = false) -> applied as_ e sh P j j.
Proof.
  intros Hwf HP. split; [done| | |done|].
  - intros as' a. by rewrite HP, andb_false_r.
  - intros as' a. by rewrite HP, andb_false_r.
  - exists []. rewrite app_nil_r. split; [done|]. intros a p. rewrite HP. split; [|by intros [? _]].
    by intros (c & ?%elem_of_nil & _).
Qed.
Lemma applied_join sh P Q R j j1 j2 :
  (forall a, P a = true -> Q a = true -> False) -> (forall a, R a = P a || Q a) ->
  applied as_ e sh P j j1 -> applied as_ e sh Q j1 j2 -> applied as_ e sh R j j2.
Proof.
  intros Hdis HR [Hwf1 Ha1 Hs1 Hh1 (l1 & Hl1 & Hc1)] [Hwf2 Ha2 Hs2 Hh2 (l2 & Hl2 & Hc2)].
  split; [done| | | |].
  - intros as' a. rewrite Ha2, Ha1, HR. specialize (Hdis a).
    destruct (as' =? as_), (P a), (Q a); cbn [andb orb]; try done. by destruct Hdis.
  - intros as' a. rewrite Hs2, Ha1, Hs1, HR. specialize (Hdis a).
    destruct (as' =? as_), (P a), (Q a); cbn [andb orb]; try done. by destruct Hdis.
  - intros a. by rewrite Hh2, Hh1.
  - exists (l1 ++ l2). split; [by rewrite Hl2, Hl1, app_assoc|]. intros a p. specialize (Hc1 a p). specialize (Hc2 a p).
    setoid_rewrite elem_of_app. rewrite HR. rewrite Ha1, Z.eqb_refl in Hc2. cbn [andb] in Hc2. specialize (Hdis a).
    transitivity ((exists c, c ∈ l1 /\ change_at c a /\ mc_prot c = p) \/ (exists c, c ∈ l2 /\ change_at c a /\ mc_prot c = p));
      [naive_solver|]. rewrite Hc1, Hc2. destruct (P a), (Q a); cbn [orb]; try naive_solver.
Qed.
Lemma applied_ext sh P Q j j' : (forall a, P a = Q a) -> applied as_ e sh P j j' -> applied as_ e sh Q j j'.
Proof.
  intros HPQ [Hwf Ha Hs Hh Hc]. split; [done| | |done|].
  - intros. by rewrite <- HPQ.
  - intros. by rewrite <- HPQ.
  - destruct Hc as (l & Hl & Hc). exists l. split; [done|]. intros. by rewrite <- HPQ.
Qed.

(** Only mappings shield; recording a protection changes no shield. *)
Lemma note_prot_shields start next prot t t' a :
  noted as_ start next (ev_sequence e) VMCTX_MAP_PROT prot 0 t t' ->
  existsb (shield_version e) (versions t' as_ a) = existsb (shield_version e) (versions t as_ a).
Proof.
  intros (new & old & k & -> & H1 & H2 & Hold & _). rewrite !versions_view.
  rewrite (existsb_perm _ _ _ (view_perm as_ a _ _ H1)), (existsb_perm _ _ _ (view_perm as_ a _ _ H2)).
  rewrite view_app, existsb_app. change (?x :: k) with ([x] ++ k). rewrite view_app, existsb_app.
  assert (Hnone : forall rows, Forall (fun r => co_op r = VMCTX_MAP_PROT) rows -> existsb (shield_version e) (view as_ a rows) = false).
  { intros rows. induction 1 as [|r rows Hr _ IH]; [done|]. change (r :: rows) with ([r] ++ rows).
    rewrite view_app, existsb_app, IH, view_one, orb_false_r. destruct (row_in as_ a r); [|done].
    simpl. unfold shield_version. simpl. by rewrite Hr. }
  rewrite (Hnone old); [rewrite Hnone; [done|by repeat constructor]|].
  eapply Forall_impl; [exact Hold|]. intros r [Hr _]. unfold same_record in Hr.
  apply andb_prop in Hr as [_ Hr]. apply eqb_prop in Hr. simpl in Hr. by apply Z.eqb_eq.
Qed.

Lemma wp_zoom {T} (get : journal -> T) set f (Q : result unit -> journal -> Prop) j :
  match f (get j) with
  | Ok t => Q (Ok tt) (set t j) | Err x => Q (Err x) j | Aborted => Q Aborted j | Corrupt => Q Corrupt j | Hung => Q Hung j
  end -> wp (zoom get set f) Q j.
Proof. unfold wp, zoom. by destruct (f (get j)). Qed.
Definition in_span (start next a : Z) : bool := (start <=? a) && (a <? next).
Definition failed (j : journal) : Prop := journal_wf j /\ exists c, apply_ok (jn_changes j) c = false.

Lemma event_row_value start next r v :
  ar_denied r = old_denied v ->
  (ar_sequence (event_row as_ e start next r), ar_protection (event_row as_ e start next r),
   ar_denied (event_row as_ e start next r)) = event_value e (old_denied v).
Proof. intros Hd. unfold event_row, event_value. rewrite Hd. by destruct (ev_kind e =? VMR_ACCESS_UNMAP). Qed.
Lemma event_row_span start next r :
  ar_as (event_row as_ e start next r) = as_ /\ ar_start (event_row as_ e start next r) = start /\
  ar_end (event_row as_ e start next r) = next.
Proof. unfold event_row. by destruct (ev_kind e =? VMR_ACCESS_UNMAP). Qed.

(** The records of a change of rights: native change, shared layout, mapping
    record. *)
Definition rights_given (start next prot : Z) (j j' : journal) : Prop :=
  jn_access j' = jn_access j /\ SharedLayout.shared_wf (jn_shared j') /\ cons_wf (la_cons (jn_layout j')) /\
  (forall as' a, SharedLayout.shared_at (jn_shared j') as' a =
    if (as' =? as_) && in_span start next a then set_prot prot <$> SharedLayout.shared_at (jn_shared j) as' a
    else SharedLayout.shared_at (jn_shared j) as' a) /\
  (forall a, shielded as_ e j' a = shielded as_ e j a) /\
  jn_changes j' = jn_changes j ++ [mk_change start (next - start) prot].
Lemma apply_rights_spec r j :
  let start := ar_start r in let next := ar_end r in let prot := native_prot (ar_protection r) (ar_denied r) in
  journal_wf j -> 0 <= start < next -> next <= U64MAX ->
  wp (apply_rights shared_alloc cons_alloc apply_ok as_ e r) (fun res j' =>
    match res with
    | Ok _ => rights_given start next prot j j'
    | Err _ => failed j'
    | Aborted => True
    | _ => False
    end) j.
Proof.
  cbv zeta. set (start := ar_start r). set (next := ar_end r). set (prot := native_prot _ _).
  intros Hwf Hsn Hmax. unfold apply_rights. fold start next prot. cbv zeta.
  apply wp_bind. unfold wp at 1, as_apply_map_siblings.
  destruct (apply_ok _ _) eqn:Hap; cbn [fst snd]; [|by split; [|eauto]].
  apply wp_bind, wp_zoom. cbn [jn_shared].
  pose proof (SharedLayout.shared_protect_result shared_alloc as_ start next prot (jn_shared j) (jw_shared j Hwf) ltac:(lia)) as Hsh.
  destruct (SharedLayout.shared_layout_protect _ _ _ _ _ _) as [sh| | | |]; try done.
  destruct Hsh as [Hshwf Hsh]. apply wp_bind, wp_zoom. cbn [jn_layout].
  pose proof (cons_note_result cons_alloc as_ start next (ev_sequence e) VMCTX_MAP_PROT prot 0 (la_cons (jn_layout j))
    (jw_cons j Hwf) ltac:(lia) ltac:(lia) ltac:(lia)) as Hc.
  destruct (cons_note_locked _ _ _ _ _ _ _ _ _) as [ct| | | |]; cbn [result_bind]; try done.
  destruct Hc as [Hcwf Hc].
  assert (Hshield : forall a, existsb (shield_version e) (versions ct as_ a) =
    existsb (shield_version e) (versions (la_cons (jn_layout j)) as_ a)).
  { intros a. destruct Hc as [[-> _]|(_ & _ & Hn)]; [done|]. by eapply note_prot_shields. }
  assert (Hout : forall la, la_cons la = ct -> rights_given start next prot j
    (mk_journal (jn_access j) sh la (jn_changes j ++ [mk_change start (next - start) prot]))).
  { intros la Hla. split; [done|]. split; [done|]. cbn [jn_layout jn_shared]. rewrite Hla. split; [done|].
    split; [|split; [|done]].
    - intros as' a. rewrite Hsh. by rewrite <- andb_assoc.
    - intros a. unfold shielded. cbn [jn_layout]. rewrite Hla. apply Hshield. }
  destruct (ev_kind e =? VMR_ACCESS_DENY); [|apply wp_ret; by apply Hout].
  apply wp_zoom. cbn [jn_layout jn_access jn_shared jn_changes]. by apply Hout.
Qed.

Lemma note_span_spec start next r0 v j :
  journal_wf j -> 0 <= start < next -> next <= U64MAX ->
  (forall a, start <= a < next -> access_at (jn_access j) as_ a = v) -> takes e v = true -> ar_denied r0 = old_denied v ->
  let r := event_row as_ e start next r0 in
  wp (note_span access_alloc shared_alloc cons_alloc apply_ok as_ e r) (fun res j' =>
    match res with
    | Ok _ => applied as_ e (new_rights e) (in_span start next) j j'
    | Err _ => failed j'
    | Aborted => True
    | _ => False
    end) j.
Proof.
  intros Hwf Hsn Hmax Hv Ht Hd r. pose proof (event_row_value start next r0 v Hd) as Hval.
  destruct (event_row_span start next r0) as (Has & Hst & Hen). fold r in Hval, Has, Hst, Hen.
  unfold note_span. apply wp_bind, wp_zoom.
  assert (Hrok : row_ok r) by (unfold row_ok; simpl; lia).
  assert (Hrb : AccessLayout.row_bounded r) by (unfold AccessLayout.row_bounded; lia).
  pose proof (access_note_result access_alloc r (jn_access j) (jw_access j Hwf) Hrok Hrb) as Hn.
  destruct (access_note access_alloc r (jn_access j)) as [t| | | |]; try done. destruct Hn as [Htwf Hat].
  set (j1 := mk_journal t (jn_shared j) (jn_layout j) (jn_changes j)).
  assert (Hacc : forall as' a, access_at t as' a =
    if (as' =? as_) && in_span start next a then new_value e (access_at (jn_access j) as' a) else access_at (jn_access j) as' a).
  { intros as' a. rewrite Hat. unfold row_in, in_span. simpl. rewrite Has, Hst, Hen, (Z.eqb_sym as_).
    rewrite <- andb_assoc. destruct (Z.eqb_spec as' as_) as [->|]; [|done]. cbn [andb].
    destruct ((start <=? a) && (a <? next)) eqn:Hin; [|done].
    unfold new_value. rewrite Hv by lia. rewrite Ht. f_equal. exact Hval. }
  assert (Hwf1 : journal_wf j1) by (split; [done|apply Hwf|apply Hwf]).
  assert (Hpv : native_prot (ar_protection r) (ar_denied r) = value_prot (event_value e (old_denied v)))
    by (rewrite <- Hval; done).
  destruct (changes_rights e) eqn:Hcr.
  - eapply wp_mono; [apply (apply_rights_spec r j1 Hwf1); lia|]. rewrite Hst, Hen, Hpv.
    intros [[]| | | |] j' Hj; try done. destruct Hj as (Ha & Hsw & Hcw & Hsh & Hshield & Hch).
    split; [split; [by rewrite Ha|done|done]| | |exact Hshield|].
    + intros as' a. rewrite Ha. apply Hacc.
    + intros as' a. rewrite Hsh. unfold new_rights. rewrite Hcr. destruct (Z.eqb_spec as' as_) as [->|]; [|done].
      cbn [andb]. destruct (in_span start next a) eqn:Hin; [|done]. unfold in_span in Hin. rewrite Hv by lia. by rewrite Ht.
    + eexists. split; [exact Hch|]. intros a p. unfold change_at. split.
      * intros (c & ->%list_elem_of_singleton & Hc & <-). simpl in Hc |- *. unfold in_span. rewrite Hv by lia.
        split; [lia|]. done.
      * intros (Hin & _ & _ & ->). unfold in_span in Hin. eexists. split; [by left|]. simpl. rewrite Hv by lia. split; [lia|done].
  - apply wp_ret. split; [done|exact Hacc| |done|].
    + intros as' a. unfold new_rights. rewrite Hcr. cbn [andb j1 jn_shared]. by destruct (_ && _).
    + exists []. rewrite app_nil_r. split; [done|]. intros a p. split; [by intros (c & ?%elem_of_nil & _)|]. intros (_ & ? & _). congruence.
Qed.

Lemma applied_skip sh P j :
  journal_wf j -> (forall a, P a = true -> takes e (access_at (jn_access j) as_ a) = false) ->
  (forall v s, takes e v = false -> sh v s = s) -> applied as_ e sh P j j.
Proof.
  intros Hwf Ht Hsh. split; [done| | |done|].
  - intros as' a. destruct (Z.eqb_spec as' as_) as [->|]; [|done]. cbn [andb].
    destruct (P a) eqn:HP; [|done]. unfold new_value. by rewrite Ht.
  - intros as' a. destruct (Z.eqb_spec as' as_) as [->|]; [|done]. cbn [andb].
    destruct (P a) eqn:HP; [|done]. by rewrite Hsh by (by apply Ht).
  - exists []. rewrite app_nil_r. split; [done|]. intros a p. split; [by intros (c & ?%elem_of_nil & _)|].
    intros (HP & _ & Htk & _). rewrite Ht in Htk; done.
Qed.
Lemma new_rights_skip v s : takes e v = false -> new_rights e v s = s.
Proof. intros Hv. unfold new_rights. by rewrite Hv, andb_false_r. Qed.
Lemma in_span_join start next end_ a :
  start <= next <= end_ -> in_span start end_ a = in_span start next a || in_span next end_ a.
Proof. unfold in_span. lia. Qed.
Lemma in_span_split start next end_ a : in_span start next a = true -> in_span next end_ a = true -> False.
Proof. unfold in_span. lia. Qed.

Lemma span_loop_spec fuel start end_ j :
  journal_wf j -> 0 <= start -> end_ <= U64MAX ->
  wp (span_loop access_alloc shared_alloc cons_alloc apply_ok as_ fuel e start end_) (fun res j' =>
    match res with
    | Ok _ => applied as_ e (new_rights e) (in_span start end_) j j'
    | Err _ => failed j'
    | Aborted => True
    | Hung => Z.of_nat fuel < end_ - start
    | Corrupt => False
    end) j.
Proof.
  revert start j. induction fuel as [|fuel IH]; intros start j Hwf Hst Hmax; unfold wp; cbn [span_loop];
    (destruct (Z.ltb_spec start end_) as [Hlt|Hge]; cbn [fst snd];
     [|apply applied_nothing; [done|]; intros a; unfold in_span; lia]); [lia|].
  pose proof (access_lookup_span as_ start end_ (jn_access j) (jw_access j Hwf) Hlt) as Hl.
  destruct (access_lookup as_ start end_ (jn_access j)) as [have r]. cbv zeta in Hl |- *.
  set (next := if ar_end r <? end_ then ar_end r else end_) in *. destruct Hl as (Hnext & Hgap & Hv).
  destruct (Z.leb_spec next start) as [?|_]; [lia|].
  set (v := if have then Some (ar_sequence r, ar_protection r, ar_denied r) else None) in Hv.
  assert (Hthen : forall j1, applied as_ e (new_rights e) (in_span start next) j j1 ->
    wp (span_loop access_alloc shared_alloc cons_alloc apply_ok as_ fuel e next end_) (fun res j' =>
      match res with
      | Ok _ => applied as_ e (new_rights e) (in_span start end_) j j'
      | Err _ => failed j' | Aborted => True | Hung => Z.of_nat (S fuel) < end_ - start | Corrupt => False
      end) j1).
  { intros j1 H1. eapply wp_mono; [apply (IH next j1); [apply H1|lia|done]|].
    intros [[]| | | |] j2 H2; try done; [|lia].
    eapply applied_join; [|intros a; apply in_span_join|exact H1|exact H2]; [|lia]. intros a. apply in_span_split. }
  destruct (have && (ev_sequence e <? ar_sequence r)) eqn:Hskip.
  - apply andb_prop in Hskip as [-> Hnewer]. apply Hthen. apply applied_skip; [done| |apply new_rights_skip].
    intros a Ha. unfold in_span in Ha. rewrite Hv by lia. simpl. by rewrite Hnewer.
  - assert (Ht : takes e v = true) by (subst v; destruct have; [simpl in *; by rewrite Hskip|done]).
    assert (Hd : ar_denied r = old_denied v) by (subst v; destruct have; [done|by apply Hgap]).
    apply (wp_bind (note_span access_alloc shared_alloc cons_alloc apply_ok as_ e (event_row as_ e start next r))
      (fun _ => span_loop access_alloc shared_alloc cons_alloc apply_ok as_ fuel e next end_)).
    eapply wp_mono; [apply (note_span_spec start next r v j); done || lia|].
    intros [[]| | | |] j1 H1; try done. by apply Hthen.
Qed.

(** ** Vacated spans *)
Lemma vacated_shields soft start end_ la la' a :
  vacated soft as_ (ev_sequence e) start end_ la la' ->
  existsb (shield_version e) (versions (la_cons la') as_ a) = existsb (shield_version e) (versions (la_cons la) as_ a).
Proof.
  intros Hv. rewrite (existsb_perm _ _ _ (vc_versions _ _ _ _ _ _ _ Hv as_ a)). apply existsb_filter.
  intros v Hn. unfold shield_version, dropped in *. destruct (v_op v =? VMCTX_MAP_PROT); [done|]. simpl in Hn. lia.
Qed.
Lemma forget_shared_spec calls j :
  journal_wf j -> Forall (fun v => 0 <= va_start v) calls ->
  wp (forget_shared shared_alloc as_ calls) (fun res j' =>
    match res with
    | Ok _ => jn_access j' = jn_access j /\ jn_layout j' = jn_layout j /\ jn_changes j' = jn_changes j /\
        SharedLayout.shared_wf (jn_shared j') /\
        forall as' a, SharedLayout.shared_at (jn_shared j') as' a =
          if (as' =? as_) && existsb (fun v => negb (va_soft v) && in_span (va_start v) (va_end v) a) calls then None
          else SharedLayout.shared_at (jn_shared j) as' a
    | Aborted => True
    | _ => False
    end) j.
Proof.
  intros Hwf Hpos. revert j Hwf. induction Hpos as [|v calls Hv _ IH]; intros j Hwf; cbn [forget_shared].
  { apply wp_ret. split; [done|]. split; [done|]. split; [done|]. split; [apply Hwf|]. intros. simpl. by rewrite andb_false_r. }
  apply wp_bind. destruct (va_soft v) eqn:Hsoft.
  { apply wp_ret. eapply wp_mono; [by apply IH|]. intros [[]| | | |] j' Hj; try done. simpl. by rewrite Hsoft. }
  apply wp_zoom.
  pose proof (SharedLayout.shared_forget_spec shared_alloc as_ (va_start v) (va_end v) (jn_shared j) (jw_shared j Hwf) Hv) as Hf.
  destruct (SharedLayout.shared_layout_forget _ _ _ _ _) as [sh| | | |]; try done. destruct Hf as [Hshwf Hf].
  eapply wp_mono; [apply IH; split; [apply Hwf|done|apply Hwf]|]. cbn [jn_access jn_layout jn_changes jn_shared].
  intros [[]| | | |] j' Hj; try done. destruct Hj as (H1 & H2 & H3 & H4 & H5). repeat (split; [done|]).
  intros as' a. rewrite H5, Hf. cbn [existsb]. rewrite Hsoft. cbn [negb andb].
  change ((va_start v <=? a) && (a <? va_end v)) with (in_span (va_start v) (va_end v) a).
  rewrite <- andb_assoc. fold (in_span (va_start v) (va_end v) a).
  destruct (as' =? as_), (existsb _ calls), (in_span (va_start v) (va_end v) a); done.
Qed.

Definition event_shared (v : option access_value) (s : option (Z * Z * Z)) : option (Z * Z * Z) :=
  if ev_kind e =? VMR_ACCESS_UNMAP then None else new_rights e v s.
Definition vacated_records (hard : bool) (P : Z -> bool) (j j' : journal) : Prop :=
  journal_wf j' /\ jn_access j' = jn_access j /\ jn_changes j' = jn_changes j /\
  (forall a, shielded as_ e j' a = shielded as_ e j a) /\
  forall as' a, SharedLayout.shared_at (jn_shared j') as' a =
    if (as' =? as_) && (hard && P a) then None else SharedLayout.shared_at (jn_shared j) as' a.
Lemma vacate_span_spec soft start end_ j :
  journal_wf j -> 0 <= start ->
  wp (vacate_span shared_alloc cons_alloc as_ soft start end_ (ev_sequence e)) (fun res j' =>
    match res with
    | Ok _ => vacated_records (negb soft) (fun a => in_span start end_ a && negb (spared (la_cons (jn_layout j)) as_ (ev_sequence e) a)) j j'
    | Aborted => True
    | _ => False
    end) j.
Proof.
  intros Hwf Hst. unfold vacate_span. apply wp_bind. unfold wp at 1, calls_made. cbn [fst snd].
  apply wp_bind, wp_zoom.
  pose proof (range_vacated_result cons_alloc as_ soft start end_ (ev_sequence e) (jn_layout j) (jw_cons j Hwf) Hseq) as Hv.
  destruct (range_vacated_seq _ _ _ _ _ _ _) as [la| | | |]; try done.
  pose proof (fun a => vacated_shields soft start end_ _ _ a Hv) as Hsh.
  destruct Hv as [Hcwf (l & Hl & Hfl & Hcov) _]. apply wp_bind. unfold wp at 1. cbn [fst snd jn_layout].
  rewrite Hl, drop_app_length.
  set (j1 := mk_journal (jn_access j) (jn_shared j) la (jn_changes j)).
  assert (Hwf1 : journal_wf j1) by (split; [apply Hwf|apply Hwf|done]).
  eapply wp_mono; [apply (forget_shared_spec l j1 Hwf1)|].
  { eapply Forall_impl; [exact Hfl|]. simpl. intros v [_ ?]. lia. }
  intros [[]| | | |] j' Hj; try done. destruct Hj as (H1 & H2 & H3 & H4 & H5).
  split; [split; [by rewrite H1; apply Hwf|done|by rewrite H2]|]. split; [done|]. split; [done|].
  split; [intros a; unfold shielded; rewrite H2; apply Hsh|]. intros as' a. rewrite H5. cbn [j1 jn_shared].
  assert (Heq : existsb (fun v => negb (va_soft v) && in_span (va_start v) (va_end v) a) l =
    negb soft && (in_span start end_ a && negb (spared (la_cons (jn_layout j)) as_ (ev_sequence e) a))); [|by rewrite Heq].
  apply eq_iff_eq_true. rewrite existsb_exists. split.
  - intros (v & Hin%list_elem_of_In & Hhit). rewrite Forall_forall in Hfl. destruct (Hfl v Hin) as [Hs _]. rewrite Hs in Hhit.
    destruct (proj1 (Hcov a)) as [Ha Hnsp]; [exists v; split; [done|]; unfold in_span in Hhit; lia|].
    rewrite Hnsp. unfold in_span. destruct soft; [done|]. cbn [negb andb]. lia.
  - intros Hhit. apply andb_prop in Hhit as [Hhard Hhit]. apply andb_prop in Hhit as [Hin Hnsp].
    apply negb_true_iff in Hnsp. destruct (proj2 (Hcov a)) as (v & Hv & Ha); [split; [unfold in_span in Hin; lia|done]|].
    exists v. split; [by apply list_elem_of_In|]. rewrite Forall_forall in Hfl. destruct (Hfl v Hv) as [-> _].
    rewrite Hhard. unfold in_span. cbn [andb]. lia.
Qed.

Definition active : bool := negb (ev_kind e =? VMR_ACCESS_DISCARD).
Lemma unmap_spared j a :
  ev_kind e = VMR_ACCESS_UNMAP -> spared (la_cons (jn_layout j)) as_ (ev_sequence e) a = shielded as_ e j a.
Proof.
  intros Hk. unfold spared, shielded. induction (versions _ as_ a) as [|v l IH]; [done|]. cbn [existsb]. rewrite IH. f_equal.
  unfold newer_version, shield_version. rewrite Hk. destruct (v_op v =? VMCTX_MAP_PROT); cbn [negb andb];
    rewrite ?andb_false_r; [done|]. change (VMR_ACCESS_UNMAP =? VMR_ACCESS_UNMAP) with true. lia.
Qed.
Lemma applied_shared sh sh' P j j' :
  (forall v s, sh v s = sh' v s) -> applied as_ e sh P j j' -> applied as_ e sh' P j j'.
Proof. intros Heq [? ? Hs ? ?]. split; try done. intros as' a. rewrite Hs. by destruct (_ && _). Qed.

Lemma access_apply_span_spec fuel start end_ j :
  journal_wf j -> 0 <= start -> end_ <= U64MAX -> (forall a, in_span start end_ a = true -> shielded as_ e j a = false) ->
  wp (access_apply_span access_alloc shared_alloc cons_alloc apply_ok as_ fuel e start end_) (fun res j' =>
    match res with
    | Ok _ => applied as_ e event_shared (fun a => active && in_span start end_ a) j j'
    | Err _ => failed j'
    | Aborted => True
    | Hung => Z.of_nat fuel < end_ - start
    | Corrupt => False
    end) j.
Proof.
  intros Hwf Hst Hmax Hfree. unfold access_apply_span, active.
  destruct (Z.eqb_spec (ev_kind e) VMR_ACCESS_DISCARD) as [Hk|Hk]; cbn [orb negb andb].
  { apply wp_bind. eapply wp_mono; [by apply vacate_span_spec|]. intros [[]| | | |] j1 H1; try done. apply wp_ret.
    destruct H1 as (Hwf1 & Ha & Hc & Hsh & Hs). split; [done| | |done|].
    - intros as' a. by rewrite Ha, andb_false_r.
    - intros as' a. rewrite Hs. cbn [negb andb]. by rewrite !andb_false_r.
    - exists []. rewrite app_nil_r. split; [done|]. intros a p. split; [by intros (c & ?%elem_of_nil & _)|by intros [? _]]. }
  destruct (Z.eqb_spec (ev_kind e) VMR_ACCESS_UNMAP) as [Hu|Hu].
  - assert (Hnr : changes_rights e = false) by (unfold changes_rights; by rewrite Hu).
    apply wp_bind. eapply wp_mono; [by apply vacate_span_spec|]. intros [[]| | | |] j1 H1; try done.
    destruct H1 as (Hwf1 & Ha & Hc & Hsh & Hs). eapply wp_mono; [by apply span_loop_spec|].
    intros [[]| | | |] j2 H2; try done. destruct H2 as [Hwf2 Ha2 Hs2 Hsh2 Hc2]. rewrite Ha, Hc in *.
    split; [done|done| |by intros a; rewrite Hsh2, Hsh|done].
    intros as' a. rewrite Hs2, Hs. unfold new_rights, event_shared. rewrite Hnr, Hu. cbn [andb negb].
    change (VMR_ACCESS_UNMAP =? VMR_ACCESS_UNMAP) with true.
    rewrite (unmap_spared j a Hu). specialize (Hfree a). destruct (in_span start end_ a); [rewrite Hfree by done|];
      cbn [andb negb]; by destruct (as' =? as_).
  - eapply wp_mono; [by apply span_loop_spec|]. intros [[]| | | |] j2 H2; try done.
    eapply applied_shared; [|exact H2]. intros v s. unfold event_shared. by rewrite (proj2 (Z.eqb_neq _ _) Hu).
Qed.

(** ** Boundaries *)
Definition shield_over (a : Z) (r : construction) : Prop := shields as_ e r = true /\ co_start r <= a < co_end r.
Lemma shielded_rows j a :
  shielded as_ e j a = true <-> exists r, r ∈ cons (la_cons (jn_layout j)) /\ shield_over a r.
Proof.
  unfold shielded. rewrite existsb_exists. unfold versions, covering_rows, shield_over. split.
  - intros (v & Hv%list_elem_of_In & Hn). apply list_elem_of_fmap in Hv as (r & -> & (Hin & [Hl Hr]%elem_live_rows)%list_elem_of_filter).
    exists r. split; [done|]. unfold row_in, shield_version, shields in *. simpl in *.
    destruct (ev_kind e =? VMR_ACCESS_UNMAP); cbn [negb]; lia.
  - intros (r & Hr & Hs & Hc). exists (version_at r a). split.
    + apply list_elem_of_In, list_elem_of_fmap. exists r. split; [done|]. apply list_elem_of_filter.
      unfold row_in, shields in *. simpl. split; [lia|]. apply elem_live_rows. split; [|done]. unfold live. lia.
    + unfold shield_version, shields in *. simpl. destruct (ev_kind e =? VMR_ACCESS_UNMAP); cbn [negb] in *; lia.
Qed.
Lemma boundary_loop_spec start end_ next skip rows :
  start < next <= end_ ->
  let '(next', skip') := boundary_loop as_ e start end_ next skip rows in
  start < next' <= next /\
  (skip' = true -> skip = true \/ exists r, r ∈ rows /\ shields as_ e r = true /\ co_start r <= start /\ next' <= co_end r) /\
  (skip = true -> skip' = true) /\
  (forall r, r ∈ rows -> shields as_ e r = true -> start < co_end r -> co_start r < end_ ->
    (co_start r <= start -> skip' = true) /\ (start < co_start r -> next' <= co_start r)).
Proof.
  revert next skip. induction rows as [|x rows IH]; intros next skip Hn; cbn [boundary_loop].
  { split; [lia|]. split; [auto|]. split; [done|]. by intros r ?%elem_of_nil. }
  destruct (negb (shields as_ e x) || (co_end x <=? start) || (end_ <=? co_start x)) eqn:Ht.
  - specialize (IH next skip Hn). destruct (boundary_loop _ _ _ _ _ _ _) as [n' s']. destruct IH as (H1 & H2 & H3 & H4).
    split; [done|]. split; [|split; [done|]].
    + intros Hs. destruct (H2 Hs) as [?|(r & ? & ?)]; [by left|right; exists r; split; [by right|done]].
    + intros r [->|Hr]%elem_of_cons; [|by apply H4]. intros Hs ? ?. rewrite Hs in Ht. simpl in Ht. lia.
  - apply orb_false_iff in Ht as [Ht Ht2]. apply orb_false_iff in Ht as [Ht Ht1]. apply negb_false_iff in Ht.
    destruct (Z.leb_spec (co_start x) start) as [Hle|Hgt].
    + set (n1 := if co_end x <? next then co_end x else next).
      assert (Hn1 : start < n1 <= next /\ n1 <= co_end x) by (subst n1; break; lia).
      specialize (IH n1 true ltac:(lia)). destruct (boundary_loop _ _ _ _ _ _ _) as [n' s']. destruct IH as (H1 & H2 & H3 & H4).
      split; [lia|]. split; [|split; [auto|]].
      * intros _. right. exists x. split; [by left|]. split; [done|lia].
      * intros r [->|Hr]%elem_of_cons; [|by apply H4]. intros _ _ _. split; [auto|lia].
    + set (n1 := if co_start x <? next then co_start x else next).
      assert (Hn1 : start < n1 <= next /\ n1 <= co_start x) by (subst n1; break; lia).
      specialize (IH n1 skip ltac:(lia)). destruct (boundary_loop _ _ _ _ _ _ _) as [n' s']. destruct IH as (H1 & H2 & H3 & H4).
      split; [lia|]. split; [|split; [done|]].
      * intros Hs. destruct (H2 Hs) as [?|(r & ? & ?)]; [by left|right; exists r; split; [by right|done]].
      * intros r [->|Hr]%elem_of_cons; [|by apply H4]. intros _ _ _. split; lia.
Qed.
Lemma boundary_spec start end_ j :
  start < end_ ->
  let '(next, skip) := access_construction_boundary as_ e start end_ (la_cons (jn_layout j)) in
  start < next <= end_ /\ forall a, in_span start next a = true -> shielded as_ e j a = skip.
Proof.
  intros Hlt. unfold access_construction_boundary.
  pose proof (boundary_loop_spec start end_ end_ false (cons (la_cons (jn_layout j))) ltac:(lia)) as Hb.
  destruct (boundary_loop _ _ _ _ _ _ _) as [next skip]. destruct Hb as (H1 & H2 & _ & H4). split; [done|].
  intros a Ha. unfold in_span in Ha. destruct skip.
  - apply shielded_rows. destruct (H2 eq_refl) as [?|(r & Hr & Hs & ? & ?)]; [done|]. exists r. split; [done|]. split; [done|lia].
  - apply not_true_iff_false. rewrite shielded_rows. intros (r & Hr & Hs & Hc).
    destruct (H4 r Hr Hs) as [H5 H6]; [lia|lia|]. destruct (decide (co_start r <= start)); [by discriminate H5|]. lia.
Qed.

(** ** The whole event *)
Definition reached (j : journal) (start end_ a : Z) : bool := active && in_span start end_ a && negb (shielded as_ e j a).
Lemma event_loop_spec outer fuel start j :
  journal_wf j -> 0 <= start -> ev_end e <= U64MAX ->
  wp (event_loop access_alloc shared_alloc cons_alloc apply_ok as_ outer fuel e start) (fun res j' =>
    match res with
    | Ok _ => applied as_ e event_shared (reached j start (ev_end e)) j j'
    | Err _ => failed j'
    | Aborted => True
    | Hung => Z.of_nat (Nat.min outer fuel) < ev_end e - start
    | Corrupt => False
    end) j.
Proof.
  revert start j. induction outer as [|outer IH]; intros start j Hwf Hst Hmax; unfold wp; cbn [event_loop];
    (destruct (Z.ltb_spec start (ev_end e)) as [Hlt|Hge]; cbn [fst snd];
     [|apply applied_nothing; [done|]; intros a; unfold reached, in_span; lia]); [lia|].
  pose proof (boundary_spec start (ev_end e) j Hlt) as Hb.
  destruct (access_construction_boundary _ _ _ _ _) as [next skip]. destruct Hb as [Hn Hsh].
  destruct (Z.leb_spec next start) as [?|_]; [lia|].
  assert (Hthen : forall j1, applied as_ e event_shared (reached j start next) j j1 ->
    wp (event_loop access_alloc shared_alloc cons_alloc apply_ok as_ outer fuel e next) (fun res j' =>
      match res with
      | Ok _ => applied as_ e event_shared (reached j start (ev_end e)) j j'
      | Err _ => failed j' | Aborted => True
      | Hung => Z.of_nat (Nat.min (S outer) fuel) < ev_end e - start | Corrupt => False
      end) j1).
  { intros j1 H1. eapply wp_mono; [apply (IH next j1); [apply H1|lia|done]|].
    intros [[]| | | |] j2 H2; try done; [|lia].
    eapply applied_join; [| |exact H1|eapply applied_ext; [|exact H2]].
    - intros a Ha. instantiate (1 := reached j next (ev_end e)). unfold reached, in_span in *. lia.
    - intros a. unfold reached. rewrite (in_span_join start next (ev_end e) a) by lia.
      destruct active, (shielded as_ e j a), (in_span start next a), (in_span next (ev_end e) a); done.
    - intros a. unfold reached. by rewrite (ap_shields _ _ _ _ _ _ H1). }
  match goal with |- match fst (mbind ?k ?m ?s) with _ => _ end =>
    apply (wp_bind m k (fun res j' => match res with
      | Ok _ => applied as_ e event_shared (reached j start (ev_end e)) j j'
      | Err _ => failed j' | Aborted => True
      | Hung => Z.of_nat (Nat.min (S outer) fuel) < ev_end e - start | Corrupt => False
      end) s) end.
  destruct skip.
  - apply wp_ret, Hthen. apply applied_nothing; [done|]. intros a. unfold reached.
    destruct (in_span start next a) eqn:Ha; [rewrite (Hsh a Ha)|]; by rewrite ?andb_false_r.
  - eapply wp_mono; [apply (access_apply_span_spec fuel start next j); done || lia|].
    intros [[]| | | |] j1 H1; try done; [|lia]. apply Hthen. eapply applied_ext; [|exact H1].
    intros a. unfold reached. destruct (in_span start next a) eqn:Ha; [rewrite (Hsh a Ha)|]; by rewrite ?andb_false_r, ?andb_true_r.
Qed.
End specs.

(** ** A batch *)
Section batch.
Context (access_alloc shared_alloc cons_alloc : Z -> bool) (apply_ok : list map_change -> map_change -> bool) (as_ : Z).

Fixpoint applied_all (events : list vmr_access_event) (j j' : journal) : Prop :=
  match events with
  | [] => j' = j
  | e :: events => exists j1,
      applied as_ e (event_shared e) (reached as_ e j (ev_start e) (ev_end e)) j j1 /\ applied_all events j1 j'
  end.
Lemma apply_batch_spec fuel events j :
  journal_wf j -> Forall event_ok events ->
  wp (access_apply_batch access_alloc shared_alloc cons_alloc apply_ok as_ fuel events) (fun res j' =>
    match res with
    | Ok _ => journal_wf j' /\ applied_all events j j'
    | Err _ => failed apply_ok j'
    | Aborted => True
    | Hung => exists e, e ∈ events /\ Z.of_nat fuel < ev_end e - ev_start e
    | Corrupt => False
    end) j.
Proof.
  intros Hwf Hev. revert j Hwf. induction Hev as [|e events (Hs & Hse & Hm) _ IH]; intros j Hwf; cbn [access_apply_batch].
  { by apply wp_ret. }
  apply wp_bind. eapply wp_mono; [apply (event_loop_spec _ _ _ _ _ e Hs fuel fuel (ev_start e) j Hwf); lia|].
  intros [[]| | | |] j1 H1; try done.
  2:{ exists e. split; [by left|]. lia. }
  eapply wp_mono; [apply IH; apply H1|]. intros [[]| | | |] j2 H2; try done.
  - destruct H2 as [? ?]. split; [done|]. by exists j1.
  - destruct H2 as (x & ? & ?). exists x. split; [by right|done].
Qed.
End batch.

(** ** Validation *)
Fixpoint events_valid (previous head : Z) (events : list vmr_access_event) : option Z :=
  match events with
  | [] => Some previous
  | e :: events =>
      if (ev_sequence e <=? previous) || (head <? ev_sequence e) || (ev_end e <=? ev_start e) ||
         nz ((ev_start e .| ev_end e) .& (Proto.VMR_PG_SIZE - 1)) ||
         (ev_kind e <? VMR_ACCESS_UNMAP) || (VMR_ACCESS_CONSTRUCT <? ev_kind e) ||
         nz (Z.ldiff (ev_protection e) (Proto.VMR_PROT_READ .| Proto.VMR_PROT_WRITE .| Proto.VMR_PROT_EXEC))
      then None
      else events_valid (ev_sequence e) head events
  end.
Definition batch_events (b : vmr_access_batch) : list vmr_access_event := take (ab_count b) (ab_event b).
Definition access_batch_valid (b : vmr_access_batch) (identity acknowledged : Z) : bool :=
  if negb (ab_identity b =? identity) || nz (ab_reserved b) || (VMR_ACCESS_MAX <? ab_count b)%nat ||
     negb (ab_acknowledged b =? acknowledged) || (ab_head b <? ab_cursor b)
  then false
  else match events_valid acknowledged (ab_head b) (batch_events b) with
       | Some previous => ab_cursor b =? previous
       | None => false
       end.

(** ** Synchronisation *)
Record access_cursor := mk_cursor { cu_as : Z; cu_identity : Z; cu_acknowledged : Z; cu_failed : Z }.
(** A READ or ACK sent to the source; [Applied] marks a batch applied in full. *)
Inductive sync_event :=
| Read (identity acknowledged : Z)
| Applied (identity : Z) (events : list vmr_access_event)
| Ack (identity cursor : Z).
(** The answer of home_memory_call: what it returned, the receipt's length and
    the block it filled. *)
Record home_reply := mk_reply { hr_result : Z; hr_datalen : Z; hr_batch : vmr_access_batch }.
(** Newest cursor first, oldest event first. *)
Record sync_state := mk_sync { sy_cursors : list access_cursor; sy_journal : journal; sy_trace : list sync_event }.
Definition sizeof_batch : Z := 552.

Definition log_event (x : sync_event) : prog sync_state unit := fun s =>
  (Ok tt, mk_sync (sy_cursors s) (sy_journal s) (sy_trace s ++ [x])).
Definition in_journal (m : prog journal unit) : prog sync_state unit := fun s =>
  let '(r, j) := m (sy_journal s) in (r, mk_sync (sy_cursors s) j (sy_trace s)).
Definition set_cursor (i : nat) (c : access_cursor) : prog sync_state unit := fun s =>
  (Ok tt, mk_sync (<[i := c]> (sy_cursors s)) (sy_journal s) (sy_trace s)).

Section sync.
(** The applications' parameters depend on the space; [home] answers a request
    after what happened so far; [calloc_ok] and [mutex_error] are the outcomes
    of creating a cursor. *)
Context (access_alloc shared_alloc cons_alloc : Z -> bool) (apply_ok : list map_change -> map_change -> bool).
Context (home : list sync_event -> sync_event -> home_reply) (calloc_ok : bool) (mutex_error : Z).

Fixpoint find_cursor (as_ : Z) (i : nat) (cs : list access_cursor) : option nat :=
  match cs with
  | [] => None
  | c :: cs => if cu_as c =? as_ then Some i else find_cursor as_ (S i) cs
  end.
Definition access_cursor_for (as_ : Z) : prog sync_state nat := fun s =>
  if as_ =? 0 then (Err EINVAL, s)
  else
    match find_cursor as_ 0 (sy_cursors s) with
    | Some i => (Ok i, s)
    | None =>
        if negb calloc_ok then (Err ENOMEM, s)
        else if nz mutex_error then (Err mutex_error, s)
        else (Ok O, mk_sync (mk_cursor as_ as_ 0 0 :: sy_cursors s) (sy_journal s) (sy_trace s))
    end.
Definition home_memory_call (x : sync_event) : prog sync_state home_reply := fun s =>
  (Ok (home (sy_trace s) x), mk_sync (sy_cursors s) (sy_journal s) (sy_trace s ++ [x])).
(** The label done, for a failure: the cursor stays failed. *)
Definition sync_failed (i : nat) (c : access_cursor) : prog sync_state unit :=
  let error := if nz (cu_failed c) then cu_failed c else EPROTO in
  set_cursor i (mk_cursor (cu_as c) (cu_identity c) (cu_acknowledged c) error) ≫= fun _ => fail error.
Definition ack_valid (r : home_reply) (identity cursor : Z) : bool :=
  let ack := hr_batch r in
  negb (negb (hr_result r =? sizeof_batch) || negb (hr_datalen r =? sizeof_batch) || nz (ab_reserved ack) ||
        negb (ab_identity ack =? identity) || negb (ab_acknowledged ack =? cursor) ||
        negb (ab_cursor ack =? cursor) || (ab_head ack <? cursor) || negb (ab_count ack =? 0)%nat).
Fixpoint sync_loop (rounds fuel i : nat) (c : access_cursor) : prog sync_state unit :=
  match rounds with
  | O => stop Hung
  | S rounds =>
      home_memory_call (Read (cu_identity c) (cu_acknowledged c)) ≫= fun r =>
      let batch := hr_batch r in
      if negb (hr_result r =? sizeof_batch) || negb (hr_datalen r =? sizeof_batch) ||
         negb (access_batch_valid batch (cu_identity c) (cu_acknowledged c))
      then sync_failed i c
      else if (ab_count batch =? 0)%nat then mret tt
      else
        attempt (in_journal (access_apply_batch access_alloc shared_alloc cons_alloc apply_ok (cu_as c) fuel (batch_events batch))) ≫= fun x =>
        match x with
        | inl _ => sync_failed i c
        | inr _ =>
            log_event (Applied (cu_identity c) (batch_events batch)) ≫= fun _ =>
            home_memory_call (Ack (cu_identity c) (ab_cursor batch)) ≫= fun a =>
            if negb (ack_valid a (cu_identity c) (ab_cursor batch)) then sync_failed i c
            else
              let c := mk_cursor (cu_as c) (cu_identity c) (ab_cursor batch) (cu_failed c) in
              set_cursor i c ≫= fun _ =>
              if (ab_count batch <? VMR_ACCESS_MAX)%nat then mret tt else sync_loop rounds fuel i c
        end
  end.
Definition cursor_at (i : nat) : prog sync_state access_cursor := fun s =>
  match sy_cursors s !! i with Some c => (Ok c, s) | None => (Corrupt, s) end.
Definition access_sync (rounds fuel : nat) (as_ : Z) : prog sync_state unit :=
  access_cursor_for as_ ≫= fun i =>
  cursor_at i ≫= fun c =>
  if nz (cu_failed c) then sync_failed i c else sync_loop rounds fuel i c.
End sync.

(** ** Order of application *)
Fixpoint climbs (previous : Z) (l : list Z) : Prop :=
  match l with [] => True | x :: l => previous < x /\ climbs x l end.
Definition top (previous : Z) (l : list Z) : Z := default previous (last l).
Lemma top_cons p x l : top p (x :: l) = top x l.
Proof. unfold top. rewrite last_cons. by destruct (last l). Qed.
Lemma climbs_app p l l' : climbs p (l ++ l') <-> climbs p l /\ climbs (top p l) l'.
Proof.
  revert p. induction l as [|x l IH]; intros p; simpl; [tauto|]. rewrite IH, top_cons. tauto.
Qed.
Lemma top_app p l l' : top p (l ++ l') = top (top p l) l'.
Proof. unfold top. rewrite last_app. by destruct (last l'). Qed.
Lemma climbs_top p l : climbs p l -> p + Z.of_nat (length l) <= top p l.
Proof.
  revert p. induction l as [|x l IH]; intros p; cbn [climbs length]; [unfold top; simpl; lia|].
  intros [Hx Hl]. rewrite top_cons. specialize (IH x Hl). lia.
Qed.

(** The block of a reply has the fields of the wire structure. *)
Definition event_fields (e : vmr_access_event) : Prop := 0 <= ev_start e /\ ev_end e <= U64MAX.
Definition wire_ok (home : list sync_event -> sync_event -> home_reply) : Prop := forall tr x,
  let b := hr_batch (home tr x) in
  Forall event_fields (ab_event b) /\ length (ab_event b) = VMR_ACCESS_MAX /\ ab_head b <= U64MAX.

Lemma events_valid_spec previous head events q :
  0 <= previous -> Forall event_fields events -> events_valid previous head events = Some q ->
  climbs previous (ev_sequence <$> events) /\ q = top previous (ev_sequence <$> events) /\
  Forall event_ok events /\ (events <> [] -> q <= head).
Proof.
  intros Hp Hf. revert previous Hp. induction Hf as [|e events He _ IH]; intros previous Hp; cbn [events_valid].
  { intros. simplify_eq. done. }
  destruct (_ || _) eqn:Ht; [done|]. intros Hv.
  assert (Hseq : previous < ev_sequence e <= head /\ ev_start e < ev_end e) by lia.
  destruct (IH (ev_sequence e) ltac:(lia) Hv) as (H1 & H2 & H3 & H4). rewrite fmap_cons. cbn [climbs]. rewrite top_cons.
  split; [split; [lia|done]|]. split; [done|]. split.
  - constructor; [|done]. unfold event_fields in He. unfold event_ok. lia.
  - intros _. destruct events as [|e' events]; [|by apply H4]. simpl in Hv. simplify_eq. lia.
Qed.
Lemma batch_valid_spec b identity acknowledged :
  0 <= acknowledged -> Forall event_fields (ab_event b) -> length (ab_event b) = VMR_ACCESS_MAX ->
  access_batch_valid b identity acknowledged = true ->
  let seqs := ev_sequence <$> batch_events b in
  (ab_count b <= VMR_ACCESS_MAX)%nat /\ length seqs = ab_count b /\
  climbs acknowledged seqs /\ ab_cursor b = top acknowledged seqs /\ Forall event_ok (batch_events b) /\ ab_cursor b <= ab_head b.
Proof.
  intros Ha Hf Hl. unfold access_batch_valid. destruct (_ || _) eqn:Ht; [done|].
  assert (Hc : (ab_count b <= VMR_ACCESS_MAX)%nat).
  { repeat (apply orb_false_iff in Ht as [Ht ?]). apply Nat.ltb_ge. done. }
  assert (Hcur : ab_cursor b <= ab_head b) by lia.
  destruct (events_valid _ _ _) as [q|] eqn:Hv; [|done]. intros Hq%Z.eqb_eq.
  apply events_valid_spec in Hv as (H1 & H2 & H3 & _); [|done|by apply Forall_take].
  cbv zeta. rewrite length_fmap. unfold batch_events at 1. rewrite length_take. split; [done|]. split; [lia|].
  split; [done|]. split; [congruence|]. done.
Qed.

(** The sequences applied for an address space, in order. *)
Definition seqs_of (id : Z) (x : sync_event) : list Z :=
  match x with Applied i events => if i =? id then ev_sequence <$> events else [] | _ => [] end.
Definition applied_seqs (id : Z) (tr : list sync_event) : list Z := tr ≫= seqs_of id.
Lemma applied_seqs_snoc id tr x : applied_seqs id (tr ++ [x]) = applied_seqs id tr ++ seqs_of id x.
Proof. unfold applied_seqs. rewrite bind_app. simpl. by rewrite app_nil_r. Qed.
(** Every acknowledgement follows the application of the batch it is for. *)
Definition acks_applied (tr : list sync_event) : Prop :=
  forall pre id cursor post, tr = pre ++ Ack id cursor :: post ->
  exists pre' events, pre = pre' ++ [Applied id events] /\ last (ev_sequence <$> events) = Some cursor.
Lemma acks_snoc tr x :
  acks_applied tr ->
  (forall id cursor, x = Ack id cursor -> exists pre' events, tr = pre' ++ [Applied id events] /\
    last (ev_sequence <$> events) = Some cursor) -> acks_applied (tr ++ [x]).
Proof.
  intros Htr Hx pre id cursor post. destruct post as [|y post _] using rev_ind.
  - intros [-> Hxe]%app_inj_tail. by apply Hx.
  - rewrite app_comm_cons, app_assoc. intros [-> _]%app_inj_tail. by eapply Htr.
Qed.

(** [busy] is the cursor of a synchronisation under way. *)
Record sync_ok (busy : option nat) (s : sync_state) : Prop := {
  so_journal : journal_wf (sy_journal s);
  so_cursor i c : sy_cursors s !! i = Some c ->
    cu_identity c = cu_as c /\ cu_as c <> 0 /\ is_u64 (cu_acknowledged c) /\
    climbs 0 (applied_seqs (cu_as c) (sy_trace s)) /\
    (busy <> Some i -> cu_failed c = 0 -> cu_acknowledged c = top 0 (applied_seqs (cu_as c) (sy_trace s)));
  so_unique i k c d : sy_cursors s !! i = Some c -> sy_cursors s !! k = Some d -> cu_as c = cu_as d -> i = k;
  so_known id : (forall c, c ∈ sy_cursors s -> cu_as c <> id) -> applied_seqs id (sy_trace s) = [];
  so_acks : acks_applied (sy_trace s)
}.
(** Steps that apply nothing and leave the cursors alone. *)
Lemma sync_ok_log busy s x :
  sync_ok busy s -> (forall id, seqs_of id x = []) ->
  (forall id cursor, x = Ack id cursor -> exists pre' events, sy_trace s = pre' ++ [Applied id events] /\
    last (ev_sequence <$> events) = Some cursor) ->
  sync_ok busy (mk_sync (sy_cursors s) (sy_journal s) (sy_trace s ++ [x])).
Proof.
  intros [Hj Hc Hu Hk Ha] Hs Hack. split; cbn [sy_cursors sy_journal sy_trace]; [done| |done| |by apply acks_snoc].
  - intros i c Hi. rewrite applied_seqs_snoc, Hs, app_nil_r. by eapply Hc.
  - intros id Hid. rewrite applied_seqs_snoc, Hs, app_nil_r. by apply Hk.
Qed.
(** A cursor whose acknowledgement or failure changes. *)
Lemma sync_ok_cursor s i c c' :
  sync_ok (Some i) s -> sy_cursors s !! i = Some c -> cu_as c' = cu_as c -> cu_identity c' = cu_identity c ->
  is_u64 (cu_acknowledged c') ->
  (cu_failed c' = 0 -> cu_acknowledged c' = top 0 (applied_seqs (cu_as c) (sy_trace s))) ->
  sync_ok None (mk_sync (<[i := c']> (sy_cursors s)) (sy_journal s) (sy_trace s)).
Proof.
  intros [Hj Hc Hu Hk Ha] Hi Has Hid Hge Htop. split; cbn [sy_cursors sy_journal sy_trace]; [done| | | |done].
  - intros k d Hd. apply list_lookup_insert_Some in Hd as [(-> & -> & _)|[Hne Hd]].
    2:{ destruct (Hc k d Hd) as (? & ? & ? & ? & Hlast). repeat (split; [done|]). intros _. apply Hlast. congruence. }
    destruct (Hc k c Hi) as (? & ? & ? & ? & _). rewrite Has, Hid. done.
  - assert (Hsame : forall k d, <[i := c']> (sy_cursors s) !! k = Some d -> exists d', sy_cursors s !! k = Some d' /\ cu_as d' = cu_as d).
    { intros k d Hd. apply list_lookup_insert_Some in Hd as [(-> & -> & _)|[_ Hd]]; eauto. }
    intros k l d1 d2 (x & Hx & Hxa)%Hsame (y & Hy & Hya)%Hsame Heq. eapply Hu; eauto. congruence.
  - intros id Hno. apply Hk. intros d (k & Hd)%list_elem_of_lookup.
    destruct (decide (k = i)) as [->|Hne].
    + simplify_eq. rewrite <- Has. apply Hno. eapply list_elem_of_lookup_2. apply list_lookup_insert_eq. by eapply lookup_lt_Some.
    + apply Hno. eapply list_elem_of_lookup_2. by rewrite list_lookup_insert_ne by done.
Qed.
Lemma sync_ok_busy i s : sync_ok None s -> sync_ok (Some i) s.
Proof. intros [Hj Hc Hu Hk Ha]. split; try done. intros k c Hi. destruct (Hc k c Hi) as (? & ? & ? & ? & H). repeat (split; [done|]). intros _. by apply H. Qed.

(** A batch applied for the space of cursor [i], before its acknowledgement. *)
Lemma sync_ok_applied s i c j events :
  sync_ok None s -> sy_cursors s !! i = Some c -> cu_failed c = 0 -> journal_wf j ->
  climbs (cu_acknowledged c) (ev_sequence <$> events) ->
  sync_ok (Some i) (mk_sync (sy_cursors s) j (sy_trace s ++ [Applied (cu_identity c) events])) /\
  top 0 (applied_seqs (cu_as c) (sy_trace s ++ [Applied (cu_identity c) events])) =
    top (cu_acknowledged c) (ev_sequence <$> events).
Proof.
  intros [Hj Hc Hu Hk Ha] Hi Hf Hjw Hcl. destruct (Hc i c Hi) as (Hid & Hnz & Hge & Hcl0 & Hlast).
  specialize (Hlast ltac:(done) Hf).
  assert (Hsame : applied_seqs (cu_as c) (sy_trace s ++ [Applied (cu_identity c) events]) =
    applied_seqs (cu_as c) (sy_trace s) ++ (ev_sequence <$> events)).
  { rewrite applied_seqs_snoc. simpl. by rewrite Hid, Z.eqb_refl. }
  assert (Hother : forall id, id <> cu_as c ->
    applied_seqs id (sy_trace s ++ [Applied (cu_identity c) events]) = applied_seqs id (sy_trace s)).
  { intros id Hne. rewrite applied_seqs_snoc. simpl. rewrite Hid, (proj2 (Z.eqb_neq _ _)) by done. apply app_nil_r. }
  split; [|rewrite Hsame, top_app; by rewrite <- Hlast].
  split; cbn [sy_cursors sy_journal sy_trace]; [done| |done| |].
  - intros k d Hd. destruct (Hc k d Hd) as (? & ? & ? & Hcl' & Hlast').
    repeat (split; [done|]). destruct (decide (cu_as d = cu_as c)) as [He|Hne].
    + rewrite He, Hsame. split; [apply climbs_app; by rewrite <- Hlast|]. intros Hb.
      by specialize (Hu k i d c Hd Hi He) as ->.
    + rewrite Hother by done. split; [done|]. intros _. by apply Hlast'.
  - intros id Hno. rewrite Hother; [by apply Hk|]. intros ->. eapply Hno; [by eapply list_elem_of_lookup_2|done].
  - apply acks_snoc; [done|]. by intros.
Qed.

Section syncs.
Context (access_alloc shared_alloc cons_alloc : Z -> bool) (apply_ok : list map_change -> map_change -> bool).
Context (home : list sync_event -> sync_event -> home_reply) (Hwire : wire_ok home).
(** The steps a loop of the model may not have had fuel for: more batches than
    the sequence numbers allow, or a longer range. *)
Definition short_of_fuel (rounds fuel : nat) (from : Z) : Prop :=
  16 * Z.of_nat rounds <= U64MAX - from \/
  exists tr x e, e ∈ ab_event (hr_batch (home tr x)) /\ Z.of_nat fuel < ev_end e - ev_start e.

Lemma sync_failed_spec i c s :
  sync_ok (Some i) s -> sy_cursors s !! i = Some c ->
  wp (sync_failed i c) (fun res s' => match res with Err _ => sync_ok None s' | _ => False end) s.
Proof.
  intros Hok Hi. unfold sync_failed. apply wp_bind. unfold wp at 1, set_cursor. cbn [fst snd]. apply wp_fail.
  destruct (so_cursor _ _ Hok i c Hi) as (_ & _ & Hge & _).
  eapply sync_ok_cursor; [done|done|done|done|done|]. cbn [cu_failed].
  destruct (Z.eqb_spec (cu_failed c) 0); cbn [negb]; done.
Qed.
Lemma sync_loop_spec rounds fuel i c s :
  sync_ok None s -> sy_cursors s !! i = Some c -> cu_failed c = 0 ->
  wp (sync_loop access_alloc shared_alloc cons_alloc apply_ok home rounds fuel i c) (fun res s' =>
    match res with
    | Ok _ | Err _ => sync_ok None s'
    | Aborted => True
    | Corrupt => False
    | Hung => short_of_fuel rounds fuel (cu_acknowledged c)
    end) s.
Proof.
  revert c s. induction rounds as [|rounds IH]; intros c s Hok Hi Hf; cbn [sync_loop].
  { destruct (so_cursor _ _ Hok i c Hi) as (_ & _ & [_ Hle] & _). unfold wp, stop. simpl. left. lia. }
  destruct (so_cursor _ _ Hok i c Hi) as (Hid & _ & [Hge Hle] & _ & _).
  set (s1 := mk_sync (sy_cursors s) (sy_journal s) (sy_trace s ++ [Read (cu_identity c) (cu_acknowledged c)])).
  assert (Hok1 : sync_ok None s1) by (apply sync_ok_log; [done|done|by intros]).
  assert (Hfail : wp (sync_failed i c) (fun res s' => match res with
    | Ok _ | Err _ => sync_ok None s' | Aborted => True | Corrupt => False
    | Hung => short_of_fuel (S rounds) fuel (cu_acknowledged c) end) s1).
  { eapply wp_mono; [by apply sync_failed_spec; [apply sync_ok_busy|]|]. by intros []. }
  apply wp_bind. unfold wp at 1, home_memory_call. cbn [fst snd]. fold s1.
  destruct (Hwire (sy_trace s) (Read (cu_identity c) (cu_acknowledged c))) as (Hw1 & Hw2 & Hw3).
  set (r := home (sy_trace s) (Read (cu_identity c) (cu_acknowledged c))) in *. cbv zeta.
  set (b := hr_batch r) in *.
  destruct (_ || negb (access_batch_valid b (cu_identity c) (cu_acknowledged c))) eqn:Hvalid; [done|].
  apply orb_false_iff in Hvalid as [_ Hvalid]. apply negb_false_iff in Hvalid.
  destruct (batch_valid_spec b _ _ Hge Hw1 Hw2 Hvalid) as (Hcnt & Hlen & Hcl & Hcur & Hev & Hhead).
  destruct (Nat.eqb_spec (ab_count b) 0) as [|Hne]; [by apply wp_ret|].
  apply wp_bind, wp_attempt. unfold wp at 1, in_journal.
  pose proof (apply_batch_spec access_alloc shared_alloc cons_alloc apply_ok (cu_as c) fuel (batch_events b)
    (sy_journal s1) (so_journal _ _ Hok1) Hev) as Hap. unfold wp in Hap.
  destruct (access_apply_batch _ _ _ _ _ _ _ _) as [[[]|x| | |] j]; cbn [fst snd] in Hap |- *; try done.
  2:{ eapply wp_mono; [apply sync_failed_spec; [apply sync_ok_busy; destruct Hok1; split; try done; apply Hap|done]|]. by intros []. }
  2:{ right. destruct Hap as (x & Hx & Hlt). eexists _, _, x. split; [|exact Hlt].
      unfold batch_events in Hx. by eapply elem_of_take in Hx as (? & ?%list_elem_of_lookup_2 & _). }
  destruct Hap as [Hjw _]. apply wp_bind. unfold wp at 1, log_event. cbn [fst snd].
  destruct (sync_ok_applied s1 i c j (batch_events b) Hok1 Hi Hf Hjw Hcl) as [Hok2 Htop].
  rewrite <- Hcur in Htop. cbn [sy_cursors sy_trace s1] in Hok2, Htop.
  set (tr2 := (sy_trace s ++ [Read (cu_identity c) (cu_acknowledged c)]) ++ [Applied (cu_identity c) (batch_events b)]) in *.
  apply wp_bind. unfold wp at 1. cbn [fst snd sy_cursors sy_journal sy_trace]. fold tr2.
  assert (Hlastev : last (ev_sequence <$> batch_events b) = Some (ab_cursor b)).
  { rewrite Hcur. unfold top. destruct (last _) as [z|] eqn:Hl; [done|].
    apply last_None in Hl. rewrite Hl in Hlen. simpl in Hlen. lia. }
  assert (Hok3 : sync_ok (Some i) (mk_sync (sy_cursors s) j (tr2 ++ [Ack (cu_identity c) (ab_cursor b)]))).
  { apply (sync_ok_log _ _ _ Hok2); [done|]. intros id cur Heq. simplify_eq. eexists _, _. split; [reflexivity|done]. }
  destruct (negb (ack_valid _ _ _)).
  { eapply wp_mono; [by apply sync_failed_spec|]. by intros []. }
  apply wp_bind. unfold wp at 1, set_cursor. cbn [fst snd sy_cursors sy_journal sy_trace].
  assert (Hmore : cu_acknowledged c + Z.of_nat (ab_count b) <= ab_cursor b) by (rewrite Hcur, <- Hlen; by apply climbs_top).
  assert (Hok4 : sync_ok None (mk_sync (<[i := mk_cursor (cu_as c) (cu_identity c) (ab_cursor b) (cu_failed c)]> (sy_cursors s)) j
    (tr2 ++ [Ack (cu_identity c) (ab_cursor b)]))).
  { apply (sync_ok_cursor _ i c _ Hok3); [done|done|done|cbn [cu_acknowledged]; unfold is_u64; lia|]. intros _. cbn [cu_acknowledged sy_trace].
    rewrite applied_seqs_snoc. cbn [seqs_of]. by rewrite app_nil_r, Htop. }
  destruct (Nat.ltb_spec (ab_count b) VMR_ACCESS_MAX) as [|Hfull]; [by apply wp_ret|].
  eapply wp_mono; [apply IH; [exact Hok4| |done]|].
  { cbn [sy_cursors]. apply list_lookup_insert_eq. by eapply lookup_lt_Some. }
  intros [[]| | | |] s' Hs; try done. destruct Hs as [Hs|Hs]; [|by right]. left. cbn [cu_acknowledged] in Hs.
  unfold VMR_ACCESS_MAX in *. lia.
Qed.
End syncs.

Lemma find_cursor_spec as_ i cs :
  match find_cursor as_ i cs with
  | Some k => (i <= k)%nat /\ exists c, cs !! (k - i)%nat = Some c /\ cu_as c = as_
  | None => forall c, c ∈ cs -> cu_as c <> as_
  end.
Proof.
  revert i. induction cs as [|c cs IH]; intros i; simpl; [by intros c ?%elem_of_nil|].
  destruct (Z.eqb_spec (cu_as c) as_) as [He|Hne]; [split; [lia|]; exists c; by rewrite Nat.sub_diag|].
  specialize (IH (S i)). destruct (find_cursor as_ (S i) cs) as [k|].
  - destruct IH as (Hle & x & Hx & ?). split; [lia|]. exists x. split; [|done]. by replace (k - i)%nat with (S (k - S i)) by lia.
  - intros x [->|Hx]%elem_of_cons; auto.
Qed.
Lemma cursor_for_spec calloc_ok mutex_error as_ s :
  sync_ok None s ->
  wp (access_cursor_for calloc_ok mutex_error as_) (fun res s' =>
    match res with
    | Ok i => sync_ok None s' /\ exists c, sy_cursors s' !! i = Some c /\ cu_as c = as_
    | Err _ => s' = s
    | _ => False
    end) s.
Proof.
  intros Hok. unfold wp, access_cursor_for. destruct (Z.eqb_spec as_ 0) as [|Hnz]; [done|].
  pose proof (find_cursor_spec as_ 0 (sy_cursors s)) as Hf. destruct (find_cursor as_ 0 (sy_cursors s)) as [i|].
  { rewrite Nat.sub_0_r in Hf. destruct Hf as [_ Hf]. done. }
  destruct calloc_ok; [|done]. destruct (Z.eqb_spec mutex_error 0); [|done]. cbn [negb fst snd].
  split; [|by eexists]. destruct Hok as [Hj Hc Hu Hk Ha]. specialize (Hk as_ Hf) as Hnone.
  split; cbn [sy_cursors sy_journal sy_trace]; [done| | | |done].
  - intros [|i] c Hi.
    2:{ destruct (Hc i c Hi) as (? & ? & ? & ? & Hl). repeat (split; [done|]). intros _. by apply Hl. }
    simplify_eq/=. rewrite Hnone. repeat (split; [done|]). done.
  - intros [|i] [|k] c d Hi Hd Heq; simplify_eq/=; [done| | |by rewrite (Hu i k c d)].
    + apply list_elem_of_lookup_2 in Hd. by destruct (Hf d Hd).
    + apply list_elem_of_lookup_2 in Hi. by destruct (Hf c Hi).
  - intros id Hno. apply Hk. intros c Hin. apply Hno. by right.
Qed.

(** ** Runs of the synchronisation *)
Record sync_env := mk_env {
  se_access : Z -> bool; se_shared : Z -> bool; se_cons : Z -> bool;
  se_apply : list map_change -> map_change -> bool;
  se_home : list sync_event -> sync_event -> home_reply; se_calloc : bool; se_mutex : Z }.
Definition sync_run (env : sync_env) (rounds fuel : nat) (as_ : Z) : prog sync_state unit :=
  access_sync (se_access env) (se_shared env) (se_cons env) (se_apply env) (se_home env) (se_calloc env) (se_mutex env)
    rounds fuel as_.
(** A call of access_sync that returns. *)
Inductive sync_step : sync_state -> sync_state -> Prop :=
| step_sync env rounds fuel as_ s s' r :
    wire_ok (se_home env) -> sync_run env rounds fuel as_ s = (r, s') ->
    match r with Ok _ | Err _ => True | _ => False end -> sync_step s s'.
Definition sync_init (j : journal) : sync_state := mk_sync [] j [].
Lemma sync_init_ok j : journal_wf j -> sync_ok None (sync_init j).
Proof. intros Hj. split; cbn; [done|by intros [] ?|by intros [] ?|done|]. by intros [|? ?] ? ? ? ?. Qed.

Lemma access_sync_spec env rounds fuel as_ s :
  wire_ok (se_home env) -> sync_ok None s ->
  wp (sync_run env rounds fuel as_) (fun res s' =>
    match res with
    | Ok _ | Err _ => sync_ok None s'
    | Aborted => True
    | Corrupt => False
    | Hung => exists from, 0 <= from /\ short_of_fuel (se_home env) rounds fuel from
    end) s.
Proof.
  intros Hw Hok. unfold sync_run, access_sync. apply wp_bind. eapply wp_mono; [by apply cursor_for_spec|].
  intros [i| | | |] s1 H1; try done; [|by subst]. destruct H1 as [Hok1 (c & Hi & _)].
  apply wp_bind. unfold wp at 1, cursor_at. rewrite Hi. cbn [fst snd].
  destruct (Z.eqb_spec (cu_failed c) 0) as [Hf|Hf]; cbn [negb].
  - eapply wp_mono; [by apply sync_loop_spec|]. intros [[]| | | |] s2 H2; try done.
    exists (cu_acknowledged c). split; [apply (so_cursor _ _ Hok1 i c Hi)|done].
  - eapply wp_mono; [by apply sync_failed_spec; [apply sync_ok_busy|]|]. by intros [].
Qed.
Lemma sync_reachable j s : journal_wf j -> steps sync_step (sync_init j) s -> sync_ok None s.
Proof.
  intros Hj. eapply steps_invariant; [|by apply sync_init_ok].
  intros s1 s2 Hok Hstep. destruct Hstep as [env rounds fuel as_ s1 s2 r Hw Hrun Hr].
  pose proof (wp_run _ _ _ _ _ (access_sync_spec env rounds fuel as_ s1 Hw Hok) Hrun) as Hpost. by destruct r.
Qed.

(** A failed cursor answers at once and changes nothing. *)
Lemma failed_stays env rounds fuel s c :
  sync_ok None s -> c ∈ sy_cursors s -> cu_failed c <> 0 -> sync_run env rounds fuel (cu_as c) s = (Err (cu_failed c), s).
Proof.
  intros Hok (i & Hi)%list_elem_of_lookup Hf. unfold sync_run, access_sync, mbind, prog_bind, access_cursor_for.
  destruct (so_cursor _ _ Hok i c Hi) as (_ & Hnz & _). rewrite (proj2 (Z.eqb_neq _ _) Hnz).
  pose proof (find_cursor_spec (cu_as c) 0 (sy_cursors s)) as Hfc. destruct (find_cursor (cu_as c) 0 (sy_cursors s)) as [k|].
  2:{ destruct (Hfc c); [by eapply list_elem_of_lookup_2|done]. }
  rewrite Nat.sub_0_r in Hfc. destruct Hfc as (_ & d & Hd & Heq).
  assert (Hki : k = i) by exact (so_unique _ _ Hok k i d c Hd Hi Heq). subst k. rewrite Hd in Hi. simplify_eq.
  unfold cursor_at. rewrite Hd. rewrite (proj2 (Z.eqb_neq _ _) Hf). cbn [negb]. unfold sync_failed, mbind, prog_bind, set_cursor, fail.
  rewrite (proj2 (Z.eqb_neq _ _) Hf). cbn [negb]. f_equal. destruct c as [c1 c2 c3 c4], s as [cs j tr]. simpl in *. f_equal.
  by apply list_insert_id.
Qed.

(** ** Properties *)

(** C20: Applying a batch gives, event by event, the pointwise meaning of the
    journal: on exactly the addresses of the event that no newer mapping
    covers, the access table takes the event's value unless it already holds a
    later one (a protection keeps the guard), the shared layout takes the new
    rights or, for an unmap, forgets the address, and every address whose
    rights changed got a native change to exactly those rights and no other
    address got one; everything else is as before, and a discard changes no
    rights.  With fuel for the longest event the application returns; it fails
    only when a native change does, and otherwise only by ending the process
    for want of memory. *)
Theorem journal_applies_pointwise access_alloc shared_alloc cons_alloc apply_ok as_ fuel events j :
  journal_wf j -> Forall event_ok events ->
  match access_apply_batch access_alloc shared_alloc cons_alloc apply_ok as_ fuel events j with
  | (Ok _, j') => journal_wf j' /\ applied_all as_ events j j'
  | (Err _, j') => journal_wf j' /\ exists c, apply_ok (jn_changes j') c = false
  | (Aborted, _) => True
  | (Hung, _) => exists e, e ∈ events /\ Z.of_nat fuel < ev_end e - ev_start e
  | (Corrupt, _) => False
  end.
Proof.
  intros Hj Hev. pose proof (apply_batch_spec access_alloc shared_alloc cons_alloc apply_ok as_ fuel events j Hj Hev) as H.
  unfold wp in H. by destruct (access_apply_batch _ _ _ _ _ _ _ _) as [[] ?].
Qed.

(** C36: In every state reached by any number of synchronisations with a source
    that may answer anything: the events applied for an address space have
    strictly increasing sequence numbers, so none is applied twice; every
    acknowledgement sent directly follows the full application of the batch
    whose last sequence number it names; a cursor that has not failed
    acknowledged exactly what was applied; a failed cursor reports its error at
    once, asking and changing nothing.  A synchronisation returns or ends the
    process, given fuel for the batches the sequence numbers allow and for the
    longest range. *)
Theorem journal_acknowledges_applied j s :
  journal_wf j -> steps sync_step (sync_init j) s ->
  (forall c, c ∈ sy_cursors s -> climbs 0 (applied_seqs (cu_as c) (sy_trace s)) /\
     (cu_failed c = 0 -> cu_acknowledged c = top 0 (applied_seqs (cu_as c) (sy_trace s)))) /\
  acks_applied (sy_trace s) /\
  (forall c env rounds fuel, c ∈ sy_cursors s -> cu_failed c <> 0 ->
     sync_run env rounds fuel (cu_as c) s = (Err (cu_failed c), s)) /\
  (forall env rounds fuel as_, wire_ok (se_home env) ->
     match fst (sync_run env rounds fuel as_ s) with
     | Ok _ | Err _ | Aborted => True
     | Corrupt => False
     | Hung => exists from, 0 <= from /\ short_of_fuel (se_home env) rounds fuel from
     end).
Proof.
  intros Hj Hs. pose proof (sync_reachable j s Hj Hs) as Hok. split; [|split; [apply Hok|split]].
  - intros c (i & Hi)%list_elem_of_lookup. destruct (so_cursor _ _ Hok i c Hi) as (_ & _ & _ & ? & H). split; [done|]. by apply H.
  - intros. by apply failed_stays.
  - intros env rounds fuel as_ Hw. pose proof (access_sync_spec env rounds fuel as_ s Hw Hok) as H. unfold wp in H.
    by destruct (sync_run env rounds fuel as_ s) as [[] ?].
Qed.

(** One page of rights taken away, over an empty state. *)
Definition demo_journal : journal := mk_journal (mk_table [] 0) (SharedLayout.mk_table [] 0) (mk_layout demo_table [] 0) [].
Lemma demo_journal_wf : journal_wf demo_journal.
Proof.
  split; [split; [by split|done|done]|split; [by split|done|done]|exact demo_table_wf].
Qed.
Definition demo_event : vmr_access_event := mk_event 4 0x13ffe 0x14002 VMR_ACCESS_PROTECT 1.
Definition yes {A} (_ : A) : bool := true.
Lemma journal_applies_pointwise_witness :
  exists j', access_apply_batch yes yes yes (fun _ _ => true) 7 5000 [demo_event] demo_journal = (Ok tt, j') /\
    applied_all 7 [demo_event] demo_journal j' /\
    access_at (jn_access j') 7 0x13fff = Some (4, 1, 0) /\ access_at (jn_access j') 7 0x14000 = None /\
    jn_changes j' = [mk_change 0x13ffe 2 1].
Proof.
  pose proof (journal_applies_pointwise yes yes yes (fun _ _ => true) 7 5000 [demo_event] demo_journal demo_journal_wf) as H.
  eexists. split; [vm_compute; reflexivity|]. split; [|repeat split; vm_compute; reflexivity].
  assert (He : Forall event_ok [demo_event]) by (repeat constructor; vm_compute; discriminate || reflexivity).
  specialize (H He). vm_compute access_apply_batch in H. exact (proj2 H).
Defined.

(** A source with one event to report. *)
Definition demo_home (tr : list sync_event) (x : sync_event) : home_reply :=
  let pad := replicate 15 (mk_event 0 0 0 0 0) in
  match x with
  | Read 7 0 => mk_reply 552 552 (mk_batch 7 4 4 0 1 0 (mk_event 4 0x13000 0x14000 VMR_ACCESS_PROTECT 1 :: pad))
  | Ack 7 4 => mk_reply 552 552 (mk_batch 7 4 4 4 0 0 (replicate 16 (mk_event 0 0 0 0 0)))
  | _ => mk_reply (-1) 0 (mk_batch 0 0 0 0 0 0 (replicate 16 (mk_event 0 0 0 0 0)))
  end.
Definition demo_env : sync_env := mk_env yes yes yes (fun _ _ => true) demo_home true 0.
Lemma demo_wire : wire_ok demo_home.
Proof.
  intros tr x. unfold demo_home. repeat case_match; (split; [|split; [done|by vm_compute]]);
    repeat constructor; by vm_compute.
Qed.
Definition demo_synced : sync_state := snd (sync_run demo_env 2 5000 7 (sync_init demo_journal)).
Lemma journal_acknowledges_applied_witness :
  sy_trace demo_synced = [Read 7 0; Applied 7 [mk_event 4 0x13000 0x14000 VMR_ACCESS_PROTECT 1]; Ack 7 4] /\
  acks_applied (sy_trace demo_synced).
Proof.
  split; [vm_compute; reflexivity|].
  apply (journal_acknowledges_applied demo_journal demo_synced demo_journal_wf).
  eapply steps_next; [apply steps_refl|].
  eapply (step_sync demo_env 2 5000 7 _ _ (fst (sync_run demo_env 2 5000 7 (sync_init demo_journal)))).
  - exact demo_wire.
  - unfold demo_synced. by destruct (sync_run demo_env 2 5000 7 (sync_init demo_journal)).
  - vm_compute. exact I.
Defined.
End AccessJournal.
