(* ===== verification/Buckets.v ===== *)
(** * Chained buckets

    Several tables of the executor are arrays of singly linked chains under a
    full key: page loans and copy-on-write records (user/vmremote.c).  The
    walks over one chain and over the whole array, and the finite map a table
    represents.  A table is well formed when every record is in the bucket of
    its key and no two records share a key. *)
From S2P Require Import Prelude.
From stdpp Require Import fin_maps.

Section buckets.
Context {E K : Type} `{Countable K} (key : E -> K) (slot : K -> nat).
Implicit Types (t : list (list E)) (chain : list E) (k : K) (e : E) (dead : E -> bool).

(** ** Operations *)
Fixpoint chain_find k chain : option E :=
  match chain with
  | [] => None
  | e :: chain => if decide (key e = k) then Some e else chain_find k chain
  end.
Definition chain_at k t : list E := default [] (t !! slot k).
Definition bucket_get k t : option E := chain_find k (chain_at k t).
(** A new record at the head of its chain. *)
Definition bucket_push e t : list (list E) := <[slot (key e) := e :: chain_at (key e) t]> t.
(** A write through the pointer of a found record. *)
Fixpoint chain_update k (f : E -> E) chain : list E :=
  match chain with
  | [] => []
  | e :: chain => if decide (key e = k) then f e :: chain else e :: chain_update k f chain
  end.
Definition bucket_write k (f : E -> E) t : list (list E) := <[slot k := chain_update k f (chain_at k t)]> t.
(** The unlinking walk over one chain: what stays and how many went. *)
Fixpoint chain_forget dead chain : list E * nat :=
  match chain with
  | [] => ([], O)
  | e :: chain =>
      let '(stay, gone) := chain_forget dead chain in
      if dead e then (stay, S gone) else (e :: stay, gone)
  end.
Definition bucket_forget dead t : list (list E) * nat :=
  let walked := chain_forget dead <$> t in (fst <$> walked, sum_list (snd <$> walked)).
Definition rows t : list E := concat t.

(** ** The map of a table *)
Definition bmap t : gmap K E := list_to_map ((fun e => (key e, e)) <$> rows t).
Record bucket_ok t : Prop := {
  bk_slots k : (slot k < length t)%nat;
  bk_nodup : NoDup (key <$> rows t);
  bk_home i chain e : t !! i = Some chain -> e ∈ chain -> i = slot (key e)
}.

Lemma chain_at_lookup k t : bucket_ok t -> t !! slot k = Some (chain_at k t).
Proof. intros Hok. unfold chain_at. by destruct (lookup_lt_is_Some_2 t (slot k) (bk_slots t Hok k)) as [c ->]. Qed.
Lemma elem_rows t e : e ∈ rows t <-> exists i chain, t !! i = Some chain /\ e ∈ chain.
Proof.
  unfold rows. rewrite list_elem_of_In, in_concat. setoid_rewrite <- list_elem_of_In. split.
  - intros (c & (i & Hi)%list_elem_of_lookup & He). eauto.
  - intros (i & c & Hi & He). exists c. split; [by eapply list_elem_of_lookup_2|done].
Qed.
(** One chain replaced by another. *)
Lemma rows_insert t i c c' :
  t !! i = Some c -> exists rest, rows t ≡ₚ c ++ rest /\ rows (<[i := c']> t) ≡ₚ c' ++ rest.
Proof.
  intros Hi. exists (concat (take i t) ++ concat (drop (S i) t)). unfold rows. split.
  - rewrite <- (take_drop_middle t i c Hi) at 1. rewrite concat_app. simpl.
    rewrite (Permutation_app_comm (concat (take i t))). rewrite <- app_assoc. by rewrite (Permutation_app_comm (concat (drop _ _))).
  - rewrite insert_take_drop by (by eapply lookup_lt_Some). rewrite concat_app. simpl.
    rewrite (Permutation_app_comm (concat (take i t))). rewrite <- app_assoc. by rewrite (Permutation_app_comm (concat (drop _ _))).
Qed.
Lemma chain_find_spec k chain :
  match chain_find k chain with
  | Some e => e ∈ chain /\ key e = k
  | None => forall e, e ∈ chain -> key e <> k
  end.
Proof.
  induction chain as [|x chain IH]; simpl; [by intros e ?%elem_of_nil|].
  destruct (decide (key x = k)) as [Hx|Hx]; [split; [by left|done]|].
  destruct (chain_find k chain); [destruct IH; split; [by right|done]|].
  intros e [->|He]%elem_of_cons; auto.
Qed.

Lemma bmap_pairs l : ((fun e => (key e, e)) <$> l).*1 = key <$> l.
Proof. by rewrite <- list_fmap_compose. Qed.
Lemma bmap_Some t k e : NoDup (key <$> rows t) -> bmap t !! k = Some e <-> e ∈ rows t /\ key e = k.
Proof.
  intros Hnd. unfold bmap. rewrite <- elem_of_list_to_map by (by rewrite bmap_pairs).
  rewrite list_elem_of_fmap. split; [intros (x & [= -> ->] & Hx); done|intros [He <-]; eauto].
Qed.
Lemma bmap_perm t l : NoDup (key <$> l) -> rows t ≡ₚ l -> bmap t = list_to_map ((fun e => (key e, e)) <$> l).
Proof.
  intros Hnd Hp. symmetry. apply list_to_map_proper; [by rewrite bmap_pairs|]. symmetry. by apply fmap_Permutation.
Qed.
Lemma bmap_rows t : bucket_ok t -> map_to_list (bmap t) ≡ₚ (fun e => (key e, e)) <$> rows t.
Proof. intros Hok. apply map_to_list_to_map. rewrite bmap_pairs. apply Hok. Qed.
Lemma bmap_size t : bucket_ok t -> size (bmap t) = length (rows t).
Proof. intros Hok. rewrite <- length_map_to_list, bmap_rows by done. by rewrite length_fmap. Qed.
Lemma bmap_key t k e : bucket_ok t -> bmap t !! k = Some e -> key e = k.
Proof. intros Hok Hk. apply bmap_Some in Hk; [apply Hk|apply Hok]. Qed.

(** The walk finds exactly the map's binding. *)
Lemma bucket_get_spec k t : bucket_ok t -> bucket_get k t = bmap t !! k.
Proof.
  intros Hok. unfold bucket_get. pose proof (chain_at_lookup k t Hok) as Hc.
  pose proof (chain_find_spec k (chain_at k t)) as Hf. symmetry.
  destruct (chain_find k (chain_at k t)) as [e|].
  - apply bmap_Some; [apply Hok|]. destruct Hf as [He Hk]. split; [|done]. apply elem_rows. eauto.
  - destruct (bmap t !! k) as [e|] eqn:He; [|done]. exfalso.
    apply bmap_Some in He as [(i & c & Hi & He)%elem_rows Hk]; [|apply Hok].
    pose proof (bk_home t Hok i c e Hi He) as Hh. rewrite Hk in Hh. subst i. rewrite Hi in Hc. injection Hc as ->.
    by apply (Hf e).
Qed.

(** ** Writes *)
Lemma replace_ok t k c' :
  bucket_ok t -> (forall e, e ∈ c' -> slot (key e) = slot k) -> NoDup (key <$> rows (<[slot k := c']> t)) ->
  bucket_ok (<[slot k := c']> t).
Proof.
  intros Hok Hc Hnd. split; [intros; rewrite length_insert; apply Hok|done|].
  intros i chain e Hi He. apply list_lookup_insert_Some in Hi as [(Hi1 & Hi2 & _)|[_ Hi]].
  - subst chain. rewrite <- Hi1. symmetry. by apply Hc.
  - by apply (bk_home t Hok i chain).
Qed.
Lemma chain_home k t e : bucket_ok t -> e ∈ chain_at k t -> slot (key e) = slot k.
Proof. intros Hok He. symmetry. eapply bk_home; [done|by apply chain_at_lookup|done]. Qed.

Lemma bucket_push_spec e t :
  bucket_ok t -> bmap t !! key e = None ->
  bucket_ok (bucket_push e t) /\ rows (bucket_push e t) ≡ₚ e :: rows t /\ bmap (bucket_push e t) = <[key e := e]> (bmap t).
Proof.
  intros Hok Hnew. pose proof (chain_at_lookup (key e) t Hok) as Hc. unfold bucket_push.
  destruct (rows_insert t _ _ (e :: chain_at (key e) t) Hc) as (rest & H1 & H2).
  set (t' := <[_ := _]> t) in *.
  assert (Hrec : rows t' ≡ₚ e :: rows t) by (rewrite H2, H1; done).
  assert (Hnd : NoDup (key <$> e :: rows t)).
  { apply NoDup_cons. split; [|apply Hok]. intros (x & Heq & Hx)%list_elem_of_fmap.
    assert (bmap t !! key e = Some x) by (apply bmap_Some; [apply Hok|done]). congruence. }
  split; [|split; [done|by rewrite (bmap_perm t' _ Hnd Hrec)]].
  apply replace_ok; [done| |fold t'; by rewrite Hrec].
  intros x [->|Hx]%elem_of_cons; [done|by apply (chain_home (key e) t)].
Qed.

Lemma chain_update_spec k f chain e :
  chain_find k chain = Some e -> exists rest, chain ≡ₚ e :: rest /\ chain_update k f chain ≡ₚ f e :: rest.
Proof.
  induction chain as [|x chain IH]; simpl; [done|]. destruct (decide (key x = k)).
  - intros [= ->]. eauto.
  - intros (rest & H1 & H2)%IH. exists (x :: rest). split; [rewrite H1|rewrite H2]; apply Permutation_swap.
Qed.
Lemma bucket_write_spec k f t e :
  bucket_ok t -> bucket_get k t = Some e -> key (f e) = key e ->
  bucket_ok (bucket_write k f t) /\ length (rows (bucket_write k f t)) = length (rows t) /\
  bmap (bucket_write k f t) = <[k := f e]> (bmap t).
Proof.
  intros Hok Hg Hf. unfold bucket_write. pose proof (chain_at_lookup k t Hok) as Hc. unfold bucket_get in Hg.
  destruct (chain_update_spec k f _ e Hg) as (r & Hk1 & Hk2).
  pose proof (chain_find_spec k (chain_at k t)) as Hfs. rewrite Hg in Hfs. destruct Hfs as [Hin Hkey].
  destruct (rows_insert t _ _ (chain_update k f (chain_at k t)) Hc) as (rest & H1 & H2). set (t' := <[_ := _]> t) in *.
  assert (Hrec : rows t ≡ₚ e :: (r ++ rest)) by (rewrite H1, Hk1; done).
  assert (Hrec' : rows t' ≡ₚ f e :: (r ++ rest)) by (rewrite H2, Hk2; done).
  assert (Hnd : NoDup (key <$> e :: (r ++ rest))) by (rewrite <- Hrec; apply Hok).
  assert (Hnd' : NoDup (key <$> f e :: (r ++ rest))) by (rewrite fmap_cons, Hf; exact Hnd).
  split; [|split].
  - apply replace_ok; [done| |fold t'; by rewrite Hrec'].
    intros x Hx. rewrite Hk2 in Hx. apply elem_of_cons in Hx as [->|Hx]; [by rewrite Hf, Hkey|].
    apply (chain_home k t); [done|]. rewrite Hk1. by right.
  - by rewrite Hrec', Hrec.
  - rewrite (bmap_perm t' _ Hnd' Hrec'), (bmap_perm t _ Hnd Hrec). cbn [fmap list_fmap]. simpl.
    rewrite Hf, Hkey. by rewrite insert_insert_eq.
Qed.

(** ** Removal *)
Lemma chain_forget_spec dead chain :
  chain_forget dead chain = (filter (fun e => dead e = false) chain, length (filter (fun e => dead e = true) chain)).
Proof. induction chain as [|e chain IH]; simpl; [done|]. rewrite IH, !filter_cons. by destruct (dead e). Qed.
Lemma concat_filter (P : E -> Prop) `{!forall x, Decision (P x)} t : concat (filter P <$> t) = filter P (concat t).
Proof. induction t as [|l ls IH]; [done|]. rewrite fmap_cons. simpl. by rewrite filter_app, IH. Qed.
Lemma filter_length_split (f : E -> bool) (l : list E) :
  (length (filter (fun x => f x = false) l) + length (filter (fun x => f x = true) l) = length l)%nat.
Proof. induction l as [|x l IH]; [done|]. rewrite !filter_cons. destruct (f x); simpl; lia. Qed.
Lemma sum_lengths (P : E -> Prop) `{!forall x, Decision (P x)} t :
  sum_list ((fun l => length (filter P l)) <$> t) = length (filter P (concat t)).
Proof. induction t as [|l ls IH]; [done|]. rewrite fmap_cons. simpl. by rewrite filter_app, length_app, IH. Qed.
Lemma bucket_forget_eq dead t :
  bucket_forget dead t = (filter (fun e => dead e = false) <$> t, length (filter (fun e => dead e = true) (rows t))).
Proof.
  unfold bucket_forget. rewrite <- !list_fmap_compose. f_equal.
  - apply list_fmap_ext. intros i c _. unfold compose. by rewrite chain_forget_spec.
  - unfold rows. rewrite <- sum_lengths. f_equal. apply list_fmap_ext. intros i c _. unfold compose. by rewrite chain_forget_spec.
Qed.
(** Exactly the records the walk was to free are gone, and it counted them. *)
Lemma bucket_forget_spec dead t :
  bucket_ok t -> let '(t', gone) := bucket_forget dead t in
  bucket_ok t' /\ (length (rows t') + gone = length (rows t))%nat /\
  bmap t' = filter (fun x => dead (snd x) = false) (bmap t).
Proof.
  intros Hok. rewrite bucket_forget_eq. set (t' := filter _ <$> t).
  assert (Hrec : rows t' = filter (fun e => dead e = false) (rows t)) by apply concat_filter.
  assert (Hnd : NoDup (key <$> rows t')).
  { rewrite Hrec. eapply sublist_NoDup; [apply Hok|]. apply fmap_sublist, sublist_filter. }
  split; [|split; [rewrite Hrec; apply filter_length_split|]].
  - split; [intros k; subst t'; rewrite length_fmap; apply Hok|done|].
    intros i c e Hi He. subst t'. rewrite list_lookup_fmap in Hi. apply fmap_Some in Hi as (c0 & Hi & ->).
    apply list_elem_of_filter in He as [_ He]. by apply (bk_home t Hok i c0).
  - apply map_eq. intros k. apply option_eq. intros e. rewrite map_lookup_filter_Some.
    rewrite !bmap_Some by (done || apply Hok). rewrite Hrec, list_elem_of_filter. simpl. tauto.
Qed.

(** An array of empty chains. *)
Lemma bucket_fresh n : (forall k, (slot k < n)%nat) -> bucket_ok (replicate n []) /\ bmap (replicate n []) = ∅ /\ rows (replicate n []) = [].
Proof.
  intros Hs. assert (Hr : rows (replicate n []) = []) by (unfold rows; clear; by induction n).
  split; [|split; [|done]].
  - split; [intros k; by rewrite length_replicate|rewrite Hr; constructor|].
    intros i c e [-> _]%lookup_replicate He. exfalso. exact (proj1 (elem_of_nil e) He).
  - unfold bmap. by rewrite Hr.
Qed.
End buckets.
