(* ===== verification/Loans.v ===== *)
(** * Page loans (user/vmremote.c, struct loan)

    The executor records which shadow holds a page it handed out, whether the
    guest kept a read-only copy, and whether the page is write-protected only
    to see the next write.  Records are chained in buckets (Buckets.v) under
    their full address-space and page key; every operation runs under [lent_lock].  The
    abstract table is a finite map from keys to loans. *)
From S2P Require Import Prelude.
From S2P Require Import Buckets.
From stdpp Require Import fin_maps.
Open Scope Z_scope.

Module Loans.

Definition LENT_SLOTS : Z := 2 ^ 17.
Definition AS_OWNERS : nat := 64.
Record loan := mk_loan { ln_owner : Z; ln_shared : Z; ln_watched : Z; ln_page : Z; ln_as : Z }.
Record lent_state := mk_lent {
  lent : list (list loan);
  n_lent_vacated : Z; lent_live : Z; lent_peak : Z;
  n_lent : Z; n_clear_miss : Z; n_double_lend : Z;
  as_owner : list (Z * Z) }.
Definition lent_init : lent_state := mk_lent (replicate (Z.to_nat LENT_SLOTS) []) 0 0 0 0 0 0 [].

Definition lent_slot (as_ page : Z) : Z :=
  u32 (u64 ((page .>> 12) * 2654435761) .^ u64 ((as_ .^ (as_ .>> 32)) * 2246822519)) mod LENT_SLOTS.
Definition slot_index (k : Z * Z) : nat := Z.to_nat (lent_slot (fst k) (snd k)).
Definition loan_key (e : loan) : Z * Z := (ln_as e, ln_page e).
Definition set_lent (t : list (list loan)) (s : lent_state) : lent_state :=
  mk_lent t (n_lent_vacated s) (lent_live s) (lent_peak s) (n_lent s) (n_clear_miss s) (n_double_lend s) (as_owner s).

Section ops.
(** Whether calloc serves a record. *)
Context (alloc : bool).

(** loan_find without creating. *)
Definition loan_get (as_ page : Z) (s : lent_state) : option loan :=
  bucket_get loan_key slot_index (as_, page_base page) (lent s).
(** loan_find; the record returned is the one in the table. *)
Definition loan_find (as_ page : Z) (create : bool) (s : lent_state) : result (option loan) * lent_state :=
  match loan_get as_ page s with
  | Some e => (Ok (Some e), s)
  | None =>
      if negb create then (Ok None, s)
      else if negb alloc then (Aborted, s)
      else
        let e := mk_loan 0 0 0 (page_base page) as_ in
        let s := set_lent (bucket_push loan_key slot_index e (lent s)) s in
        let live := u64 (lent_live s + 1) in
        (Ok (Some e), mk_lent (lent s) (n_lent_vacated s) live (if lent_peak s <? live then live else lent_peak s)
           (n_lent s) (n_clear_miss s) (n_double_lend s) (as_owner s))
  end.
(** A write through the pointer loan_find returned. *)
Definition loan_write (as_ page : Z) (f : loan -> loan) (s : lent_state) : lent_state :=
  set_lent (bucket_write loan_key slot_index (as_, page_base page) f (lent s)) s.

(** Bounded, and only a hint for where to ask. *)
Definition as_owner_note (as_ owner : Z) (l : list (Z * Z)) : list (Z * Z) :=
  if (as_ =? 0) || (owner =? 0) then l
  else if existsb (fun x => (fst x =? as_) && (snd x =? owner)) l then l
  else if (length l <? AS_OWNERS)%nat then l ++ [(as_, owner)] else l.

Definition set_owner (owner shared : Z) (e : loan) : loan := mk_loan owner shared (ln_watched e) (ln_page e) (ln_as e).
Definition set_watched (on : Z) (e : loan) : loan := mk_loan (ln_owner e) (ln_shared e) on (ln_page e) (ln_as e).
Definition page_lend_at (as_ page owner shared : Z) (s : lent_state) : result unit * lent_state :=
  let page := page_base page in
  let old := loan_get as_ page s in
  let old_owner := match old with Some e => ln_owner e | None => 0 end in
  match old with
  | None =>
      if owner =? 0
      then (Ok tt, mk_lent (lent s) (n_lent_vacated s) (lent_live s) (lent_peak s) (n_lent s)
                     (u64 (n_clear_miss s + 1)) (n_double_lend s) (as_owner s))
      else
        match loan_find as_ page true s with
        | (Ok _, s) =>
            let s := loan_write as_ page (set_owner owner shared) s in
            (Ok tt, mk_lent (lent s) (n_lent_vacated s) (lent_live s) (lent_peak s) (u64 (n_lent s + 1))
                      (n_clear_miss s) (n_double_lend s) (as_owner_note as_ owner (as_owner s)))
        | (r, s) => (match r with Aborted => Aborted | _ => Hung end, s)
        end
  | Some _ =>
      let double := nz owner && nz old_owner && negb (old_owner =? owner) in
      let s := loan_write as_ page (set_owner owner shared) s in
      (Ok tt, mk_lent (lent s) (n_lent_vacated s) (lent_live s) (lent_peak s)
                (if nz owner && (old_owner =? 0) then u64 (n_lent s + 1) else n_lent s)
                (n_clear_miss s) (if double then u64 (n_double_lend s + 1) else n_double_lend s)
                (as_owner_note as_ owner (as_owner s)))
  end.
Definition page_watch_set (as_ page on : Z) (s : lent_state) : result unit * lent_state :=
  match loan_find as_ page (nz on) s with
  | (Ok (Some _), s) => (Ok tt, loan_write as_ page (set_watched on) s)
  | (Ok None, s) => (Ok tt, s)
  | (r, s) => (match r with Aborted => Aborted | _ => Hung end, s)
  end.
Definition page_watched (as_ page : Z) (s : lent_state) : bool :=
  match loan_get as_ page s with Some e => (ln_owner e =? 0) && nz (ln_watched e) | None => false end.
Definition page_holder (as_ page : Z) (s : lent_state) : Z :=
  match loan_get as_ page s with Some e => ln_owner e | None => 0 end.
Definition page_keep (as_ page : Z) (s : lent_state) : bool := nz (page_holder as_ page s) || page_watched as_ page s.
Definition page_shared (as_ page : Z) (s : lent_state) : bool :=
  match loan_get as_ page s with Some e => nz (ln_owner e) && nz (ln_shared e) | None => false end.
Definition LENT_UNSEEN : Z := 0.
Definition LENT_GUEST : Z := 1.
Definition LENT_SHADOW : Z := 2.
Definition page_lent_state (as_ page : Z) (s : lent_state) : Z :=
  match loan_get as_ page s with Some e => if nz (ln_owner e) then LENT_SHADOW else LENT_GUEST | None => LENT_UNSEEN end.

Definition in_range (as_ start end_ : Z) (e : loan) : bool :=
  (ln_as e =? as_) && (start <=? ln_page e) && (ln_page e <? end_).
Definition lend_forget_range (as_ start end_ : Z) (s : lent_state) : lent_state :=
  let '(t, gone) := bucket_forget (in_range as_ start end_) (lent s) in
  mk_lent t (u64 (n_lent_vacated s + Z.of_nat gone)) (u64 (lent_live s - Z.of_nat gone)) (lent_peak s)
    (n_lent s) (n_clear_miss s) (n_double_lend s) (as_owner s).

(** Copies of the records with an owner, of one space or of all. *)
Definition wanted (as_ : Z) (e : loan) : bool := nz (ln_owner e) && ((as_ =? 0) || (ln_as e =? as_)).
Definition loan_snapshot (as_ : Z) (s : lent_state) : result (list loan) :=
  let n := length (filter (fun e => wanted as_ e = true) (rows (lent s))) in
  if negb (n =? 0)%nat && negb alloc then Aborted
  else Ok (filter (fun e => wanted as_ e = true) (rows (lent s))).
End ops.

(** ** The abstract table *)
(** Owner, shared and watched. *)
Definition loan_value (e : loan) : Z * Z * Z := (ln_owner e, ln_shared e, ln_watched e).
Definition loan_pair (e : loan) : (Z * Z) * (Z * Z * Z) := (loan_key e, loan_value e).
Definition table_map (s : lent_state) : gmap (Z * Z) loan := bmap loan_key (lent s).
Definition loan_map (s : lent_state) : gmap (Z * Z) (Z * Z * Z) := loan_value <$> table_map s.

Record lent_wf (s : lent_state) : Prop := {
  lw_table : bucket_ok loan_key slot_index (lent s);
  lw_live : lent_live s = u64 (Z.of_nat (length (rows (lent s))))
}.

Lemma slot_index_lt k : (slot_index k < Z.to_nat LENT_SLOTS)%nat.
Proof. unfold slot_index, lent_slot. pose proof (Z.mod_pos_bound (u32 (u64 ((snd k .>> 12) * 2654435761) .^ u64 ((fst k .^ (fst k .>> 32)) * 2246822519))) LENT_SLOTS eq_refl). lia. Qed.
Lemma lent_init_wf : lent_wf lent_init.
Proof.
  unfold lent_init. pose proof slot_index_lt as Hlt. revert Hlt. generalize (Z.to_nat LENT_SLOTS). intros n Hlt.
  destruct (bucket_fresh loan_key slot_index n Hlt) as (? & _ & Hr). split; [done|]. cbn [lent lent_live]. by rewrite Hr.
Qed.
Lemma loan_get_table as_ page s : lent_wf s -> loan_get as_ page s = table_map s !! (as_, page_base page).
Proof. intros Hwf. apply bucket_get_spec, Hwf. Qed.
Lemma loan_get_map as_ page s :
  lent_wf s -> loan_map s !! (as_, page_base page) = loan_value <$> loan_get as_ page s.
Proof. intros Hwf. unfold loan_map. by rewrite lookup_fmap, loan_get_table. Qed.

(** ** Writes *)
Lemma loan_find_spec alloc as_ page create s :
  lent_wf s ->
  match loan_find alloc as_ page create s with
  | (Ok None, s') => s' = s /\ create = false /\ loan_get as_ page s = None
  | (Ok (Some e), s') => lent_wf s' /\ loan_get as_ page s' = Some e /\
      (s' = s \/ create = true /\ loan_get as_ page s = None /\ e = mk_loan 0 0 0 (page_base page) as_ /\
         loan_map s' = <[(as_, page_base page) := (0, 0, 0)]> (loan_map s))
  | (Aborted, s') => s' = s /\ alloc = false
  | _ => False
  end.
Proof.
  intros Hwf. unfold loan_find. destruct (loan_get as_ page s) as [e|] eqn:Hg; [by repeat (split; [done|]); left|].
  destruct create; cbn [negb]; [|done]. destruct alloc; cbn [negb]; [|done]. cbv zeta.
  set (e := mk_loan 0 0 0 (page_base page) as_). set (s' := mk_lent _ _ _ _ _ _ _ _).
  destruct (bucket_push_spec loan_key slot_index e (lent s) (lw_table s Hwf)) as (Hok & Hrows & Hmap).
  { rewrite loan_get_table in Hg by done. exact Hg. }
  assert (Hwf' : lent_wf s').
  { split; [done|]. subst s'. cbn [lent lent_live set_lent]. rewrite Hrows, (lw_live s Hwf). unfold u64.
    cbn [length]. rewrite Zplus_mod_idemp_l. f_equal. lia. }
  assert (Ht : table_map s' = <[(as_, page_base page) := e]> (table_map s)) by exact Hmap.
  split; [done|]. split; [rewrite loan_get_table, Ht by done; apply lookup_insert_eq|].
  right. split; [done|]. split; [done|]. split; [done|]. unfold loan_map. by rewrite Ht, fmap_insert.
Qed.
Lemma loan_write_spec as_ page f s e :
  lent_wf s -> loan_get as_ page s = Some e -> (forall x, loan_key (f x) = loan_key x) ->
  let s' := loan_write as_ page f s in
  lent_wf s' /\ loan_map s' = <[(as_, page_base page) := loan_value (f e)]> (loan_map s).
Proof.
  intros Hwf Hg Hf s'.
  destruct (bucket_write_spec loan_key slot_index (as_, page_base page) f (lent s) e (lw_table s Hwf) Hg (Hf e)) as (Hok & Hlen & Hmap).
  split.
  - split; [done|]. subst s'. unfold loan_write. cbn [lent lent_live set_lent]. by rewrite Hlen, (lw_live s Hwf).
  - unfold loan_map. assert (Ht : table_map s' = <[(as_, page_base page) := f e]> (table_map s)) by exact Hmap.
    by rewrite Ht, fmap_insert.
Qed.

(** ** Whole-table operations *)
(** The key is outside the range of the vacate. *)
Definition kept (as_ start end_ : Z) (x : (Z * Z) * (Z * Z * Z)) : Prop :=
  ~ (fst (fst x) = as_ /\ start <= snd (fst x) < end_).
#[global] Instance kept_dec as_ start end_ x : Decision (kept as_ start end_ x).
Proof. apply _. Defined.
Lemma kept_pair as_ start end_ e : kept as_ start end_ (loan_pair e) <-> in_range as_ start end_ e = false.
Proof. unfold kept, in_range, loan_pair, loan_key. simpl. lia. Qed.
Lemma loan_map_Some s k v :
  lent_wf s -> loan_map s !! k = Some v <-> exists e, e ∈ rows (lent s) /\ loan_key e = k /\ loan_value e = v.
Proof.
  intros Hwf. unfold loan_map, table_map. rewrite lookup_fmap, fmap_Some.
  setoid_rewrite (fun e => bmap_Some loan_key (lent s) k e (bk_nodup _ _ _ (lw_table s Hwf))). naive_solver.
Qed.
Lemma lend_forget_spec as_ start end_ s :
  lent_wf s -> lent_wf (lend_forget_range as_ start end_ s) /\
  loan_map (lend_forget_range as_ start end_ s) = filter (kept as_ start end_) (loan_map s).
Proof.
  intros Hwf. unfold lend_forget_range.
  pose proof (bucket_forget_spec loan_key slot_index (in_range as_ start end_) (lent s) (lw_table s Hwf)) as H.
  destruct (bucket_forget (in_range as_ start end_) (lent s)) as [t gone]. destruct H as (Hok & Hlen & Hmap). split.
  - split; [done|]. cbn [lent lent_live]. rewrite (lw_live s Hwf). unfold u64. rewrite Zminus_mod_idemp_l. f_equal. lia.
  - unfold loan_map, table_map. cbn [lent]. rewrite Hmap. apply map_eq. intros k. apply option_eq. intros v.
    rewrite map_lookup_filter_Some, !lookup_fmap, !fmap_Some. setoid_rewrite map_lookup_filter_Some. simpl.
    assert (Hk : forall e, bmap loan_key (lent s) !! k = Some e -> loan_pair e = (k, loan_value e)).
    { intros e He. unfold loan_pair. by rewrite (bmap_key loan_key slot_index (lent s) k e (lw_table s Hwf) He). }
    split.
    + intros (e & [He Hin] & ->). split; [eauto|]. rewrite <- (Hk e He). by apply kept_pair.
    + intros [(e & He & ->) Hkept]. exists e. rewrite <- (Hk e He), kept_pair in Hkept. done.
Qed.

Definition held (as_ : Z) (x : (Z * Z) * (Z * Z * Z)) : Prop :=
  fst (fst (snd x)) <> 0 /\ (as_ = 0 \/ fst (fst x) = as_).
#[global] Instance held_dec as_ x : Decision (held as_ x).
Proof. apply _. Defined.
Lemma held_pair as_ e : held as_ (loan_pair e) <-> wanted as_ e = true.
Proof. unfold held, wanted, loan_pair, loan_key, loan_value. simpl. lia. Qed.
Lemma loan_snapshot_spec alloc as_ s :
  lent_wf s ->
  match loan_snapshot alloc as_ s with
  | Ok l => loan_pair <$> l ≡ₚ map_to_list (filter (held as_) (loan_map s))
  | Aborted => alloc = false
  | _ => False
  end.
Proof.
  intros Hwf. unfold loan_snapshot. cbv zeta.
  destruct (negb _ && negb alloc) eqn:Ha; [by destruct alloc; rewrite ?andb_false_r in Ha|].
  apply NoDup_Permutation.
  - apply (NoDup_fmap_1 fst). rewrite <- list_fmap_compose. eapply sublist_NoDup; [apply (bk_nodup _ _ _ (lw_table s Hwf))|].
    apply (fmap_sublist loan_key), sublist_filter.
  - apply NoDup_map_to_list.
  - intros [k v]. rewrite elem_of_map_to_list, map_lookup_filter_Some, loan_map_Some by done.
    rewrite list_elem_of_fmap. setoid_rewrite list_elem_of_filter. split.
    + intros (e & Heq & Hw & He). rewrite Heq, held_pair. split; [|done]. unfold loan_pair in Heq. injection Heq as -> ->. eauto.
    + intros [(e & He & <- & <-) Hh]. exists e. split; [done|]. split; [by apply held_pair|done].
Qed.


(** ** Refinement of the abstract table *)
Inductive loan_op :=
| OpLend (as_ page owner shared : Z)
| OpWatch (as_ page on : Z)
| OpForget (as_ start end_ : Z)
| OpSnapshot (as_ : Z)
| OpHolder (as_ page : Z)
| OpShared (as_ page : Z)
| OpKeep (as_ page : Z)
| OpState (as_ page : Z).
Inductive loan_answer :=
| Done
| Number (z : Z)
| Truth (b : bool)
| Rows (l : list ((Z * Z) * (Z * Z * Z))).
(** A snapshot has no order. *)
Definition same_answer (x y : loan_answer) : Prop :=
  match x, y with Rows l, Rows l' => l ≡ₚ l' | _, _ => x = y end.

(** The program's operations. *)
Definition loan_run (alloc : bool) (op : loan_op) (s : lent_state) : result loan_answer * lent_state :=
  let unit_answer (r : result unit * lent_state) := (let! _ := fst r in Ok Done, snd r) in
  match op with
  | OpLend as_ page owner shared => unit_answer (page_lend_at alloc as_ page owner shared s)
  | OpWatch as_ page on => unit_answer (page_watch_set alloc as_ page on s)
  | OpForget as_ start end_ => (Ok Done, lend_forget_range as_ start end_ s)
  | OpSnapshot as_ => (let! rows := loan_snapshot alloc as_ s in Ok (Rows (loan_pair <$> rows)), s)
  | OpHolder as_ page => (Ok (Number (page_holder as_ page s)), s)
  | OpShared as_ page => (Ok (Truth (page_shared as_ page s)), s)
  | OpKeep as_ page => (Ok (Truth (page_keep as_ page s)), s)
  | OpState as_ page => (Ok (Number (page_lent_state as_ page s)), s)
  end.
(** What they promise, on a finite map. *)
Abbreviation loans := (gmap (Z * Z) (Z * Z * Z)).
Definition loan_spec (op : loan_op) (m : loans) : loan_answer * loans :=
  match op with
  | OpLend as_ page owner shared =>
      let k := (as_, page_base page) in
      (Done, match m !! k with
             | Some (_, _, w) => <[k := (owner, shared, w)]> m
             | None => if owner =? 0 then m else <[k := (owner, shared, 0)]> m
             end)
  | OpWatch as_ page on =>
      let k := (as_, page_base page) in
      (Done, match m !! k with
             | Some (o, sh, _) => <[k := (o, sh, on)]> m
             | None => if on =? 0 then m else <[k := (0, 0, on)]> m
             end)
  | OpForget as_ start end_ => (Done, filter (kept as_ start end_) m)
  | OpSnapshot as_ => (Rows (map_to_list (filter (held as_) m)), m)
  | OpHolder as_ page => (Number (match m !! (as_, page_base page) with Some (o, _, _) => o | None => 0 end), m)
  | OpShared as_ page =>
      (Truth (match m !! (as_, page_base page) with Some (o, sh, _) => nz o && nz sh | None => false end), m)
  | OpKeep as_ page =>
      (Truth (match m !! (as_, page_base page) with Some (o, _, w) => nz o || nz w | None => false end), m)
  | OpState as_ page =>
      (Number (match m !! (as_, page_base page) with Some (o, _, _) => if nz o then LENT_SHADOW else LENT_GUEST | None => LENT_UNSEEN end), m)
  end.

Lemma same_table_wf s s' : lent s' = lent s -> lent_live s' = lent_live s -> lent_wf s -> lent_wf s' /\ loan_map s' = loan_map s.
Proof.
  intros Hl Hv Hwf. split; [split; rewrite ?Hl, ?Hv; apply Hwf|]. unfold loan_map, table_map. by rewrite Hl.
Qed.
Lemma page_base_twice as_ page s : is_u64 page -> loan_get as_ (page_base page) s = loan_get as_ page s.
Proof. intros H. unfold loan_get. by rewrite page_base_idem. Qed.

Definition step_ok (alloc : bool) (r : result unit * lent_state) (m' : loans) : Prop :=
  match r with
  | (Ok _, s') => lent_wf s' /\ loan_map s' = m'
  | (Aborted, _) => alloc = false
  | _ => False
  end.
Lemma page_lend_spec alloc as_ page owner shared s :
  lent_wf s -> is_u64 page ->
  step_ok alloc (page_lend_at alloc as_ page owner shared s) (snd (loan_spec (OpLend as_ page owner shared) (loan_map s))).
Proof.
  intros Hwf Hp. unfold page_lend_at, loan_spec. cbv zeta. cbn [snd]. rewrite page_base_twice, loan_get_map by done.
  destruct (loan_get as_ page s) as [e|] eqn:Hg; cbn [fmap option_fmap option_map].
  - destruct (loan_write_spec as_ (page_base page) (set_owner owner shared) s e Hwf) as [Hw Hm]; [by rewrite page_base_twice|done|].
    change (loan_value (set_owner owner shared e)) with (owner, shared, ln_watched e) in Hm.
    change (loan_value e) with (ln_owner e, ln_shared e, ln_watched e).
    unfold step_ok. rewrite page_base_idem in Hm by done. cbv iota beta.
    set (s1 := loan_write _ _ _ _) in *. rewrite <- Hm. by apply (same_table_wf s1).
  - destruct (owner =? 0); [by apply (same_table_wf s)|].
    pose proof (loan_find_spec alloc as_ (page_base page) true s Hwf) as Hf.
    destruct (loan_find alloc as_ (page_base page) true s) as [[[e|]| | | |] s1]; try done; try (by destruct Hf); try tauto.
    2:{ destruct Hf as (_ & ? & _). done. }
    destruct Hf as (Hwf1 & Hg1 & [->|(_ & _ & -> & Hm1)]); [rewrite page_base_twice in Hg1 by done; congruence|].
    destruct (loan_write_spec as_ (page_base page) (set_owner owner shared) s1 _ Hwf1 Hg1 ltac:(done)) as [Hw Hm].
    rewrite !page_base_idem in * by done. unfold step_ok. set (s2 := loan_write _ _ _ _) in *.
    rewrite Hm1, insert_insert_eq in Hm. change (loan_value _) with (owner, shared, 0) in Hm. rewrite <- Hm.
    by apply (same_table_wf s2).
Qed.
Lemma page_watch_spec alloc as_ page on s :
  lent_wf s -> is_u64 page ->
  step_ok alloc (page_watch_set alloc as_ page on s) (snd (loan_spec (OpWatch as_ page on) (loan_map s))).
Proof.
  intros Hwf Hp. unfold page_watch_set, loan_spec. cbv zeta. cbn [snd]. rewrite loan_get_map by done.
  pose proof (loan_find_spec alloc as_ page (nz on) s Hwf) as Hf.
  destruct (loan_find alloc as_ page (nz on) s) as [[[e|]| | | |] s1]; try done; try tauto.
  - destruct Hf as (Hwf1 & Hg1 & Hcase).
    destruct (loan_write_spec as_ page (set_watched on) s1 e Hwf1 Hg1 ltac:(done)) as [Hw Hm].
    unfold step_ok. split; [done|]. rewrite Hm. destruct Hcase as [->|(Hon & Hg & -> & Hm1)].
    + rewrite Hg1. done.
    + rewrite Hg. cbn [fmap option_fmap option_map]. apply negb_true_iff in Hon. by rewrite Hon, Hm1, insert_insert_eq.
  - destruct Hf as (-> & Hon & Hg). rewrite Hg. cbn [fmap option_fmap option_map]. apply negb_false_iff in Hon. by rewrite Hon.
Qed.

Definition op_page (op : loan_op) : Z :=
  match op with
  | OpLend _ page _ _ | OpWatch _ page _ | OpHolder _ page | OpShared _ page | OpKeep _ page | OpState _ page => page
  | _ => 0
  end.
Lemma loan_run_spec alloc op s :
  lent_wf s -> is_u64 (op_page op) ->
  match loan_run alloc op s with
  | (Ok x, s') => lent_wf s' /\ same_answer x (fst (loan_spec op (loan_map s))) /\ loan_map s' = snd (loan_spec op (loan_map s))
  | (Aborted, _) => alloc = false
  | _ => False
  end.
Proof.
  intros Hwf Hp. destruct op; cbn [loan_run op_page] in *.
  - pose proof (page_lend_spec alloc as_ page owner shared s Hwf Hp) as H. unfold step_ok in H.
    destruct (page_lend_at _ _ _ _ _ _) as [[] s']; simpl in *; try done. tauto.
  - pose proof (page_watch_spec alloc as_ page on s Hwf Hp) as H. unfold step_ok in H.
    destruct (page_watch_set _ _ _ _ _) as [[] s']; simpl in *; try done. tauto.
  - destruct (lend_forget_spec as_ start end_ s Hwf). done.
  - pose proof (loan_snapshot_spec alloc as_ s Hwf) as H. by destruct (loan_snapshot _ _ _).
  - split; [done|]. split; [|done]. simpl. rewrite loan_get_map by done. unfold page_holder. by destruct (loan_get as_ page s).
  - split; [done|]. split; [|done]. simpl. rewrite loan_get_map by done. unfold page_shared. by destruct (loan_get as_ page s).
  - split; [done|]. split; [|done]. simpl. rewrite loan_get_map by done. unfold page_keep, page_holder, page_watched.
    destruct (loan_get as_ page s) as [e|]; [|done]. simpl. by destruct (ln_owner e =? 0).
  - split; [done|]. split; [|done]. simpl. rewrite loan_get_map by done. unfold page_lent_state. by destruct (loan_get as_ page s).
Qed.

(** Sequences of operations; the program stops at an abort. *)
Fixpoint loans_run (ops : list (bool * loan_op)) (s : lent_state) : result (list loan_answer) * lent_state :=
  match ops with
  | [] => (Ok [], s)
  | (alloc, op) :: ops =>
      match loan_run alloc op s with
      | (Ok x, s) => let '(r, s) := loans_run ops s in (let! xs := r in Ok (x :: xs), s)
      | (Err e, s) => (Err e, s)
      | (Aborted, s) => (Aborted, s)
      | (Corrupt, s) => (Corrupt, s)
      | (Hung, s) => (Hung, s)
      end
  end.
Fixpoint loans_spec (ops : list (bool * loan_op)) (m : loans) : list loan_answer * loans :=
  match ops with
  | [] => ([], m)
  | (_, op) :: ops => let '(x, m) := loan_spec op m in let '(xs, m) := loans_spec ops m in (x :: xs, m)
  end.
(** C25: The loan table is a finite map from address space and page to loans:
    any sequence of lends, watches, retirements, snapshots and queries gives
    the answers of the map, a snapshot being exactly its held loans in some
    order, and leaves the buckets representing the map they should: every
    record found under its full key whatever collides with it, no record lost
    or duplicated by a removal, the live count exact.  The only other outcome
    is the abort of a refused allocation. *)
Theorem loans_refine_map ops s :
  lent_wf s -> Forall (fun x => is_u64 (op_page (snd x))) ops ->
  match loans_run ops s with
  | (Ok xs, s') => lent_wf s' /\ Forall2 same_answer xs (fst (loans_spec ops (loan_map s))) /\
      loan_map s' = snd (loans_spec ops (loan_map s)) /\ lent_live s' = u64 (Z.of_nat (size (loan_map s')))
  | (Aborted, _) => exists x, x ∈ ops /\ fst x = false
  | _ => False
  end.
Proof.
  intros Hwf Hops. revert s Hwf. induction Hops as [|[alloc op] ops Hop _ IH]; intros s Hwf; cbn [loans_run loans_spec].
  { split; [done|]. split; [constructor|]. split; [done|]. rewrite (lw_live s Hwf). do 2 f_equal.
    unfold loan_map. rewrite map_size_fmap. symmetry. apply (bmap_size loan_key slot_index), Hwf. }
  pose proof (loan_run_spec alloc op s Hwf Hop) as H. destruct (loan_run alloc op s) as [[x| | | |] s1]; try done.
  2:{ exists (alloc, op). split; [by left|done]. }
  destruct H as (Hwf1 & Hx & Hm). specialize (IH s1 Hwf1). rewrite Hm in IH.
  destruct (loan_spec op (loan_map s)) as [y m1]. cbn [fst snd] in *.
  destruct (loans_run ops s1) as [[xs| | | |] s2]; cbn [result_bind]; try done.
  - destruct (loans_spec ops m1) as [ys m2]. cbn [fst snd] in *. destruct IH as (? & ? & ? & ?).
    split; [done|]. split; [by constructor|]. done.
  - destruct IH as (z & ? & ?). exists z. split; [by right|done].
Qed.

(** A page lent, watched elsewhere, and retired with its mapping. *)
Definition demo_ops : list (bool * loan_op) :=
  [(true, OpLend 7 0x5123 9 1); (true, OpWatch 7 0x8000 1); (true, OpHolder 7 0x5fff);
   (true, OpForget 7 0x5000 0x6000); (true, OpState 7 0x5000); (true, OpKeep 7 0x8000)].
Lemma loans_refine_map_witness :
  exists s', loans_run demo_ops lent_init =
    (Ok [Done; Done; Number 9; Done; Number LENT_UNSEEN; Truth true], s') /\ lent_wf s' /\ lent_live s' = 1.
Proof.
  pose proof (loans_refine_map demo_ops lent_init lent_init_wf) as H.
  assert (Hr : fst (loans_run demo_ops lent_init) = Ok [Done; Done; Number 9; Done; Number LENT_UNSEEN; Truth true] /\
    lent_live (snd (loans_run demo_ops lent_init)) = 1) by (vm_compute; split; reflexivity).
  destruct (loans_run demo_ops lent_init) as [r s']. cbn [fst snd] in Hr. destruct Hr as [-> Hl].
  exists s'. split; [reflexivity|]. split; [|exact Hl]. apply H. repeat constructor; vm_compute; discriminate.
Defined.
End Loans.
