(* ===== verification/Cow.v ===== *)
(** * Copy-on-write between address spaces (user/vmremote.c)

    A fork copies nothing: the child's object starts empty, every page the
    parent's object holds is write-protected and marked as owed, and a page is
    given to the copies before the original changes it, hands it over or
    vacates it.  A copy that faults first is given the page of its nearest
    ancestor.  This file models the records of gives and marks, the list of
    admitted copies, the gives, breaks and the protection pass, and the part of
    spawn_forked_context that publishes a copy.

    An object is the set of pages it holds; contexts map the pages of the
    object of their address space, so a peek that succeeds reads the object's
    page.  [writable] holds the pages some context may store to without a
    fault.  System calls, the control device and the allocator answer from the
    whole history of calls ([world]).  Counters that are only printed are left
    out.

    Below the programs: what the state says about owed pages, the elementary
    transitions ([act]) and what each of them keeps.  CowRuns.v shows that the
    programs are made of these transitions. *)
From S2P Require Import Prelude.
From S2P Require Import Buckets.
From S2P Require Import Native.
From stdpp Require Import fin_maps sorting.
Open Scope Z_scope.

Module Cow.

Definition ENXIO : Z := 6.
Definition COW_GIVEN_SLOTS : Z := 65536.
Definition COW_PROT_OWED : Z := 1.
Definition COW_PROT_SPENT : Z := 2.
Abbreviation bytes := (list Z).

Record cow_record := mk_record { cr_as : Z; cr_page : Z; cr_given : bool; cr_state : Z }.
Definition cow_key (r : cow_record) : Z * Z := (cr_as r, cr_page r).
Definition cow_given_slot (as_ page : Z) : Z :=
  u32 (u64 ((page .>> 12) * 2654435761) .^ u64 ((as_ .^ (as_ .>> 32)) * 2246822519)) mod COW_GIVEN_SLOTS.
Definition cow_slot (k : Z * Z) : nat := Z.to_nat (cow_given_slot (fst k) (snd k)).

(** ** Calls outside the program *)
Inductive call :=
| Alloc
| Peek (member page : Z)
| Pread (as_ page : Z)
| Pwrite (as_ page : Z) (data : bytes)
| Seek (as_ page : Z)
| ProtectBacking (as_ page : Z)
| Mapobj (as_ page : Z)
| Take (cmd as_ page : Z)
| Punch (as_ start len : Z)
| SharedRead (as_ page : Z)
| Send (as_ page : Z) (data : bytes)
| SendAbsent (as_ page : Z).
(** Newest first; a negative answer is minus the error number. *)
Abbreviation history := (list (call * Z)).

Record cow_state := mk_cow {
  objects : gmap (Z * Z) bytes;
  writable : gset (Z * Z);
  (** The registered address spaces with their parents (0 for none), newest
      first (ExecutionMm). *)
  mms : list (Z * Z);
  cow_children : list Z;
  cow_record_buckets : list (list cow_record);
  cow_record_count : Z;
  calls : history }.
Definition set_objects x s := mk_cow x (writable s) (mms s) (cow_children s) (cow_record_buckets s) (cow_record_count s) (calls s).
Definition set_writable x s := mk_cow (objects s) x (mms s) (cow_children s) (cow_record_buckets s) (cow_record_count s) (calls s).
Definition set_mms x s := mk_cow (objects s) (writable s) x (cow_children s) (cow_record_buckets s) (cow_record_count s) (calls s).
Definition set_children x s := mk_cow (objects s) (writable s) (mms s) x (cow_record_buckets s) (cow_record_count s) (calls s).
Definition set_records x n s := mk_cow (objects s) (writable s) (mms s) (cow_children s) x n (calls s).
Definition set_calls x s := mk_cow (objects s) (writable s) (mms s) (cow_children s) (cow_record_buckets s) (cow_record_count s) x.

Abbreviation M := (prog cow_state).
Definition get {A} (f : cow_state -> A) : M A := fun s => (Ok (f s), s).
Definition modify (f : cow_state -> cow_state) : M unit := fun s => (Ok tt, f s).

Section ops.
Context (world : history -> call -> Z).
(** The contexts of an address space that have not ended. *)
Context (mm_members : history -> Z -> list Z).
(** Whether the owner called the page shared (SharedLayout). *)
Context (shared_range_has : Z -> Z -> bool).

Definition ask (q : call) : M Z := fun s =>
  let r := world (calls s) q in (Ok r, set_calls ((q, r) :: calls s) s).

(** ** Address spaces and their objects *)
Fixpoint parent_in (identity : Z) (l : list (Z * Z)) : option Z :=
  match l with
  | [] => None
  | (id, parent) :: l => if id =? identity then Some parent else parent_in identity l
  end.
(** The identity of the parent; an unknown identity ends the process. *)
Definition mm_record (identity : Z) : M Z := fun s =>
  match parent_in identity (mms s) with Some parent => (Ok parent, s) | None => (Aborted, s) end.
Definition forked_from (identity : Z) : M Z := mm_record identity.
Definition mm_backing_has (identity address : Z) : M bool :=
  mm_record identity ;; get (fun s => bool_decide (is_Some (objects s !! (identity, page_base address)))).
Definition mm_obj_write (identity address : Z) (data : bytes) : M Z :=
  mm_record identity ;;
  r ← ask (Pwrite identity address data);
  (if r =? PAGE then modify (fun s => set_objects (<[(identity, address) := data]> (objects s)) s) else mret tt) ;;
  mret r.
Fixpoint peek_first (identity address : Z) (members : list Z) : M (option bytes) :=
  match members with
  | [] => mret None
  | m :: members =>
      r ← ask (Peek m address);
      data ← get (fun s => objects s !! (identity, page_base address));
      match data with
      | Some data => if r =? PAGE then mret (Some data) else peek_first identity address members
      | None => peek_first identity address members
      end
  end.
Definition mm_page_read (identity address : Z) : M (option bytes) :=
  members ← get (fun s => mm_members (calls s) identity);
  data ← peek_first identity address members;
  match data with
  | Some data => mret (Some data)
  | None =>
      has ← mm_backing_has identity address;
      if negb has then mret None
      else
        r ← ask (Pread identity (page_base address));
        if r =? PAGE then get (fun s => objects s !! (identity, page_base address)) else mret None
  end.

(** ** Records *)
Definition cow_record_find (as_ page : Z) (create : bool) : M (option cow_record) :=
  found ← get (fun s => bucket_get cow_key cow_slot (as_, page_base page) (cow_record_buckets s));
  match found with
  | Some r => mret (Some r)
  | None =>
      if negb create then mret None
      else
        count ← get cow_record_count;
        if (as_ =? 0) || (count =? U64MAX) then stop Aborted
        else
          got ← ask Alloc;
          if got =? 0 then stop Aborted
          else
            let r := mk_record as_ (page_base page) false 0 in
            modify (fun s => set_records (bucket_push cow_key cow_slot r (cow_record_buckets s)) (u64 (cow_record_count s + 1)) s) ;;
            mret (Some r)
  end.
Definition record_write (as_ page : Z) (f : cow_record -> cow_record) : M unit :=
  modify (fun s => set_records (bucket_write cow_key cow_slot (as_, page_base page) f (cow_record_buckets s)) (cow_record_count s) s).
Definition cow_was_given (as_ page : Z) : M bool :=
  r ← cow_record_find as_ page false; mret (match r with Some r => cr_given r | None => false end).
Definition cow_give_note (as_ page : Z) : M unit :=
  cow_record_find as_ page true ;;
  record_write as_ page (fun r => mk_record (cr_as r) (cr_page r) true (cr_state r)).
Definition cow_prot_state (as_ page : Z) : M Z :=
  r ← cow_record_find as_ page false; mret (match r with Some r => cr_state r | None => 0 end).
Definition cow_is_protected (as_ page : Z) : M bool := st ← cow_prot_state as_ page; mret (st =? COW_PROT_OWED).
Definition cow_was_protected (as_ page : Z) : M bool := st ← cow_prot_state as_ page; mret (nz st).
Definition cow_prot_set (as_ page state : Z) : M unit :=
  if nz state && negb (state =? COW_PROT_OWED) && negb (state =? COW_PROT_SPENT) then stop Aborted
  else
    r ← cow_record_find as_ page (nz state);
    match r with
    | Some _ => record_write as_ page (fun r => mk_record (cr_as r) (cr_page r) (cr_given r) state)
    | None => mret tt
    end.
Definition cow_forget_mm (as_ : Z) : M unit :=
  modify (fun s =>
    let '(t, gone) := bucket_forget (fun r => cr_as r =? as_) (cow_record_buckets s) in
    set_records t (u64 (cow_record_count s - Z.of_nat gone)) s).

(** ** Copies *)
Definition cow_admit_mm (mm : Z) : M unit :=
  parent ← mm_record mm;
  if parent =? 0 then mret tt
  else
    known ← get (fun s => bool_decide (mm ∈ cow_children s));
    if known : bool then mret tt
    else
      got ← ask Alloc;
      if got =? 0 then stop Aborted
      else modify (fun s => set_children (mm :: cow_children s) s).
Definition copies_in (identity : Z) (s : cow_state) : list Z :=
  filter (fun c => parent_in c (mms s) = Some identity) (cow_children s).
Definition cow_copies_of (identity : Z) : M (list Z) :=
  mm_record identity ;;
  children ← get (copies_in identity);
  match children with
  | [] => mret []
  | _ => got ← ask Alloc; if got =? 0 then stop Aborted else mret children
  end.

(** ** Gives *)
(** [cow_was_given(copy, base) || mm_backing_has(copy, base)] *)
Definition already_has (copy_as base : Z) : M bool :=
  given ← cow_was_given copy_as base;
  if given : bool then mret true else mm_backing_has copy_as base.
Definition cow_give_page_mode (copy_as from_as base : Z) (relaxed : bool) : M bool :=
  own ← already_has copy_as base;
  if own : bool then mret false
  else
    vouched ← (if relaxed then mret true else cow_is_protected from_as base);
    if negb vouched then mret false
    else
      data ← mm_page_read from_as base;
      match data with
      | None => mret false
      | Some data =>
          r ← mm_obj_write copy_as base data;
          if negb (r =? PAGE) then mret false
          else
            cow_give_note copy_as base ;;
            cow_prot_set copy_as base COW_PROT_OWED ;;
            mret true
      end.
Definition cow_give_page (copy_as from_as base : Z) : M bool := cow_give_page_mode copy_as from_as base false.

Fixpoint give_chain (fuel : nat) (copy_as anc base : Z) (relaxed : bool) : M bool :=
  if anc =? 0 then mret false
  else
    match fuel with
    | O => stop Hung
    | S fuel =>
        gave ← cow_give_page_mode copy_as anc base relaxed;
        if gave : bool then mret true
        else anc ← forked_from anc; give_chain fuel copy_as anc base relaxed
    end.
Definition chain_fuel (s : cow_state) : nat := S (length (mms s)).
Definition cow_give_from_chain_mode (copy_as base : Z) (relaxed : bool) : M bool :=
  own ← already_has copy_as base;
  if own : bool then mret false
  else
    anc ← forked_from copy_as;
    fuel ← get chain_fuel;
    give_chain fuel copy_as anc base relaxed.
Definition cow_give_from_chain (copy_as base : Z) : M bool := cow_give_from_chain_mode copy_as base false.

(** ** Breaks *)
(** The loop over the copies; whether all of them have the page. *)
Fixpoint break_each (as_ base : Z) (children : list Z) : M bool :=
  match children with
  | [] => mret true
  | c :: children =>
      own ← already_has c base;
      ok ← (if own : bool then mret true else cow_give_page c as_ base);
      rest ← break_each as_ base children;
      mret ((ok : bool) && rest)
  end.
Definition cow_break_copies (as_ base : Z) : M bool :=
  st ← cow_prot_state as_ base;
  if st =? COW_PROT_SPENT then mret true
  else children ← cow_copies_of as_; break_each as_ base children.

(** The page a hole gets when it is faulted in. *)
Definition zero_page : bytes := replicate (Z.to_nat PAGE) 0.
(** MAPOBJ faults the object's page in writable, allocating on a hole. *)
Definition ctl_mapobj (as_ page : Z) : M Z :=
  r ← ask (Mapobj as_ page);
  (if r =? PAGE
   then modify (fun s => set_writable ({[(as_, page)]} ∪ writable s)
          (set_objects (<[(as_, page) := default zero_page (objects s !! (as_, page))]> (objects s)) s))
   else mret tt) ;;
  mret r.
(** A take removes the page from every context and from the object. *)
Definition ctl_take (cmd as_ page : Z) : M Z :=
  r ← ask (Take cmd as_ page);
  (if r =? PAGE
   then modify (fun s => set_writable (writable s ∖ {[(as_, page)]}) (set_objects (delete (as_, page) (objects s)) s))
   else mret tt) ;;
  mret r.
Definition snapshot_map_object (as_ addr : Z) : M Z :=
  let page := page_base addr in
  owed ← cow_is_protected as_ page;
  (if owed : bool
   then
     all ← cow_break_copies as_ page;
     if negb all then stop Aborted else cow_prot_set as_ page COW_PROT_SPENT
   else mret tt) ;;
  ctl_mapobj as_ page.
Definition snapshot_take_page (as_ cmd addr : Z) : M Z :=
  let page := page_base addr in
  owed ← cow_is_protected as_ page;
  (if owed : bool
   then all ← cow_break_copies as_ page; if negb all then stop Aborted else mret tt
   else mret tt) ;;
  r ← ctl_take cmd as_ page;
  (if r =? PAGE then cow_prot_set as_ page COW_PROT_SPENT else mret tt) ;;
  mret r.

(** One page of the range: a copy that cannot be given its page ends the
    process. *)
Fixpoint retire_each (as_ page : Z) (children : list Z) : M unit :=
  match children with
  | [] => mret tt
  | c :: children =>
      own ← already_has c page;
      (if own : bool then mret tt
       else ok ← cow_give_page c as_ page; if negb ok then stop Aborted else mret tt) ;;
      retire_each as_ page children
  end.
Fixpoint range_loop (fuel : nat) (as_ page end_ : Z) (children : list Z) : M unit :=
  if negb (page <? end_) then mret tt
  else
    match fuel with
    | O => stop Hung
    | S fuel =>
        owed ← cow_is_protected as_ page;
        (** The overflow test is after the mark, so a page that is not marked
            skips it. *)
        if negb owed then range_loop fuel as_ (u64 (page + PAGE)) end_ children
        else
          retire_each as_ page children ;;
          cow_prot_set as_ page COW_PROT_SPENT ;;
          if U64MAX - PAGE <? page then mret tt
          else range_loop fuel as_ (u64 (page + PAGE)) end_ children
    end.
Definition range_fuel (len : Z) : nat := Z.to_nat (len / PAGE + 2).
Definition cow_break_copies_range (as_ start len : Z) : M unit :=
  children ← cow_copies_of as_;
  if U64MAX - start <? len then stop Aborted
  else if len =? 0 then mret tt
  else range_loop (range_fuel len) as_ start (start + len) children.
(** The hole takes the pages that lie in it out of the object and of every
    mapping of it; of a page it covers in part it zeroes that part. *)
Definition page_start (a : Z) : Z := a / PAGE * PAGE.
Definition in_punched (as_ addr len : Z) (k : Z * Z) : bool :=
  (fst k =? as_) && (addr <=? page_start (snd k)) && (page_start (snd k) + PAGE <=? addr + len).
Definition zeroed (as_ addr len : Z) (k : Z * Z) (data : bytes) : bytes :=
  let page := page_start (snd k) in
  if (fst k =? as_) && (addr <? page + PAGE) && (page <? addr + len)
  then imap (fun i x => if (addr <=? page + Z.of_nat i) && (page + Z.of_nat i <? addr + len) then 0 else x) data
  else data.
Definition punched (as_ addr len : Z) (o : gmap (Z * Z) bytes) : gmap (Z * Z) bytes :=
  map_imap (fun k data => if in_punched as_ addr len k then None else Some (zeroed as_ addr len k data)) o.
Definition obj_forget (as_ addr len : Z) : M unit :=
  if len =? 0 then mret tt
  else if (I64MAX <? addr) || (I64MAX - addr <? len) then stop Aborted
  else
    r ← ask (Punch as_ addr len);
    if nz r then stop Aborted
    else modify (fun s =>
      set_writable (filter (fun k => in_punched as_ addr len k = false) (writable s))
        (set_objects (punched as_ addr len (objects s)) s)).

(** ** Publishing a copy *)
(** PROTECT_BACKING takes the write permission from every context unless it
    fails. *)
Definition ctl_protect (as_ page : Z) : M Z :=
  r ← ask (ProtectBacking as_ page);
  (if 0 <=? r then modify (fun s => set_writable (writable s ∖ {[(as_, page)]}) s) else mret tt) ;;
  mret r.
(** Retries while the page is busy. *)
Fixpoint protect_retry (tries : nat) (as_ page r : Z) : M Z :=
  match tries with
  | O => mret r
  | S tries => if r =? - EBUSY then r ← ctl_protect as_ page; protect_retry tries as_ page r else mret r
  end.
Definition protect_page (as_ page : Z) : M unit :=
  if shared_range_has as_ page then mret tt
  else
    r ← ctl_protect as_ page;
    r ← protect_retry 100 as_ page r;
    if (r =? PAGE) || (r =? 0) then cow_prot_set as_ page COW_PROT_OWED
    else if r <? 0 then fail (- r) else mret tt.
(** The object walked by SEEK_DATA and SEEK_HOLE: its pages in order; a failed
    seek stops the walk. *)
Definition held_pages (as_ : Z) (s : cow_state) : list Z :=
  merge_sort Z.le (snd <$> filter (fun k => fst k = as_) (map_to_list (objects s)).*1).
Fixpoint protect_pages (as_ : Z) (pages : list Z) : M unit :=
  match pages with
  | [] => r ← ask (Seek as_ 0); if r =? - ENXIO then mret tt else fail EIO
  | p :: pages =>
      r ← ask (Seek as_ p);
      if r <? 0 then fail EIO
      else protect_page as_ p ;; protect_pages as_ pages
  end.
Definition cow_protect_address_space (as_ : Z) : M unit :=
  mm_record as_ ;; pages ← get (held_pages as_); protect_pages as_ pages.
Fixpoint note_source_pages (kid : Z) (pages : list Z) : M unit :=
  match pages with
  | [] => mret tt
  | p :: pages => cow_give_note kid p ;; note_source_pages kid pages
  end.
(** The section of spawn_forked_context under the coherence lock; a failure
    kills the child. *)
Definition publish_copy (kid parent : Z) (source_pages : list Z) : M unit :=
  note_source_pages kid source_pages ;;
  cow_admit_mm kid ;;
  cow_protect_address_space parent.

(** The source asks for a copy's page; the bytes leave on the wire. *)
Fixpoint ancestor_page (fuel : nat) (anc page : Z) (strict : bool) : M (option bytes) :=
  if anc =? 0 then mret None
  else
    match fuel with
    | O => stop Hung
    | S fuel =>
        owed ← (if strict then cow_is_protected anc page else mret true);
        data ← (if owed : bool then mm_page_read anc page else mret None);
        match data with
        | Some data => mret (Some data)
        | None => anc ← forked_from anc; ancestor_page fuel anc page strict
        end
    end.
Definition page_read_as (who page : Z) : M bool :=
  members ← get (fun s => mm_members (calls s) who);
  data ← peek_first who page members;
  match data with
  | Some _ => mret true
  | None =>
      if shared_range_has who page then r ← ask (SharedRead who page); mret (r =? PAGE)
      else
        has ← mm_backing_has who page;
        if negb has then mret false else r ← ask (Pread who (page_base page)); mret (r =? PAGE)
  end.
(** How a break is answered: with the page, or with none, and whether the reply
    could be written (the connection ends when it could not); or as the GET the
    request becomes when the copy holds the page itself.  [who] is an address
    space with contexts; a request that names none is answered absent. *)
Inductive break_answer := BreakPage (data : bytes) (written : bool) | BreakAbsent (written : bool) | BreakGet.
Definition serve_cowbreak (who addr len : Z) : M break_answer :=
  par ← forked_from who;
  own ← already_has who addr;
  fuel ← get chain_fuel;
  data ← (if (own : bool) || (par =? 0) then mret None else ancestor_page fuel par addr true);
  data ← match data with
         | Some data => mret (Some data)
         | None => if negb ((len =? 1) && negb (own : bool) && nz par) then mret None
                   else ancestor_page fuel par addr false
         end;
  match data with
  | Some data => cow_give_note who addr ;; r ← ask (Send who addr data); mret (BreakPage data (0 <=? r))
  | None =>
      here ← page_read_as who addr;
      if here : bool then mret BreakGet
      else r ← ask (SendAbsent who addr); mret (BreakAbsent (0 <=? r))
  end.
End ops.

(** ** What the state says

    The mark and the give of a page, what a space is still owed, and the
    pages delivered to a copy. *)
Definition given (s : cow_state) (k : Z * Z) : bool :=
  match bmap cow_key (cow_record_buckets s) !! k with Some r => cr_given r | None => false end.
Definition mark (s : cow_state) (k : Z * Z) : Z :=
  match bmap cow_key (cow_record_buckets s) !! k with Some r => cr_state r | None => 0 end.
(** What was handed to a copy, newest first: written to its object, or put on the
    wire, and then whether the write succeeded. *)
Fixpoint delivered (k : Z * Z) (h : history) : list (bytes * bool) :=
  match h with
  | [] => []
  | (Pwrite a p d, r) :: h => if bool_decide (k = (a, p)) && (r =? PAGE) then (d, true) :: delivered k h else delivered k h
  | (Send a p d, r) :: h => if bool_decide (k = (a, p)) then (d, 0 <=? r) :: delivered k h else delivered k h
  | _ :: h => delivered k h
  end.
Definition deliveries (s : cow_state) (k : Z * Z) : list (bytes * bool) := delivered k (calls s).

(** [X] can still produce [b] for the page: its object holds it unchanged since
    the fork, or it is itself an admitted copy that has not had the page and
    its parent can. *)
Inductive owes (s : cow_state) (p : Z) (b : bytes) : Z -> Prop :=
| owes_here X : objects s !! (X, p) = Some b -> mark s (X, p) = COW_PROT_OWED -> owes s p b X
| owes_up X Y : objects s !! (X, p) = None -> given s (X, p) = false -> X ∈ cow_children s ->
    parent_in X (mms s) = Some Y -> Y <> 0 -> owes s p b Y -> owes s p b X.
(** A copy that is still to be given its page. *)
Definition pending (s : cow_state) (c p : Z) (b : bytes) : Prop := objects s !! (c, p) = None /\ owes s p b c.
Definition settled (s : cow_state) (k : Z * Z) : Prop := given s k = true \/ is_Some (objects s !! k).
(** Every copy made of [X] has the page. *)
Definition settled_below (s : cow_state) (p X : Z) : Prop :=
  forall c, c ∈ cow_children s -> parent_in c (mms s) = Some X -> settled s (c, p).

(** An address space is registered after its parent, once, and 0 names none. *)
Fixpoint lineage (l : list (Z * Z)) : Prop :=
  match l with
  | [] => True
  | (id, parent) :: l => id <> 0 /\ parent_in id l = None /\ (parent = 0 \/ is_Some (parent_in parent l)) /\ lineage l
  end.
Definition page_ok (p : Z) : Prop := is_u64 p /\ page_aligned p = true.
Record cow_wf (s : cow_state) : Prop := {
  cw_aligned a p : is_Some (objects s !! (a, p)) -> page_ok p;
  cw_records : bucket_ok cow_key cow_slot (cow_record_buckets s);
  cw_owed k : mark s k = COW_PROT_OWED -> is_Some (objects s !! k) /\ k ∉ writable s;
  cw_writable k : k ∈ writable s -> is_Some (objects s !! k);
  cw_mms : lineage (mms s)
}.

(** ** Elementary transitions

    What one decision of the program, of a guest or of the source does to the
    state, with the condition under which it is made. *)
Definition fupd {A} (f : Z * Z -> A) (k : Z * Z) (a : A) (x : Z * Z) : A := if decide (x = k) then a else f x.
Record shift (s s' : cow_state) (o : gmap (Z * Z) bytes) (w : gset (Z * Z)) (g : Z * Z -> bool) (m : Z * Z -> Z)
    (d : Z * Z -> list (bytes * bool)) : Prop := {
  sh_mms : mms s' = mms s;
  sh_children : cow_children s' = cow_children s;
  sh_records : bucket_ok cow_key cow_slot (cow_record_buckets s) -> bucket_ok cow_key cow_slot (cow_record_buckets s');
  sh_objects : objects s' = o;
  sh_writable : writable s' = w;
  sh_given k : given s' k = g k;
  sh_mark k : mark s' k = m k;
  sh_deliveries k : deliveries s' k = d k
}.
Definition quiet (s s' : cow_state) : Prop := shift s s' (objects s) (writable s) (given s) (mark s) (deliveries s).

(** A copy's page is put on the wire. *)
Definition sent (s s' : cow_state) (c p : Z) : Prop :=
  exists b ok, ~ settled s (c, p) /\ (forall b', pending s c p b' -> b' = b) /\
    shift s s' (objects s) (writable s) (fupd (given s) (c, p) true) (mark s)
      (fupd (deliveries s) (c, p) ((b, ok) :: deliveries s (c, p))).

Inductive act (s s' : cow_state) : Prop :=
| act_quiet : quiet s s' -> act s s'
(** A copy is given its page in its object. *)
| act_give c p b : page_ok p -> ~ settled s (c, p) -> (forall b', pending s c p b' -> b' = b) ->
    shift s s' (<[(c, p) := b]> (objects s)) (writable s) (fupd (given s) (c, p) true)
      (fupd (mark s) (c, p) COW_PROT_OWED) (fupd (deliveries s) (c, p) ((b, true) :: deliveries s (c, p))) -> act s s'
(** A copy's page goes to the source, and no copy of that copy needs it. *)
| act_send c p : settled_below s p c -> sent s s' c p -> act s s'
(** The mark is spent, with or without the page leaving. *)
| act_spend a p : settled_below s p a ->
    shift s s' (objects s) (writable s) (given s) (fupd (mark s) (a, p) COW_PROT_SPENT) (deliveries s) -> act s s'
| act_leave a p : mark s (a, p) <> COW_PROT_OWED \/ settled_below s p a ->
    shift s s' (delete (a, p) (objects s)) (writable s ∖ {[(a, p)]}) (given s)
      (fupd (mark s) (a, p) COW_PROT_SPENT) (deliveries s) -> act s s'
| act_punch as_ addr len : (forall k b, mark s k = COW_PROT_OWED -> objects s !! k = Some b ->
      in_punched as_ addr len k = false /\ zeroed as_ addr len k b = b) ->
    shift s s' (punched as_ addr len (objects s)) (filter (fun k => in_punched as_ addr len k = false) (writable s))
      (given s) (mark s) (deliveries s) -> act s s'
(** Write permission withdrawn, a held page marked, permission granted. *)
| act_protect a p :
    shift s s' (objects s) (writable s ∖ {[(a, p)]}) (given s) (mark s) (deliveries s) -> act s s'
| act_arm a p : is_Some (objects s !! (a, p)) -> (a, p) ∉ writable s ->
    shift s s' (objects s) (writable s) (given s) (fupd (mark s) (a, p) COW_PROT_OWED) (deliveries s) -> act s s'
| act_grant a p : is_Some (objects s !! (a, p)) -> mark s (a, p) <> COW_PROT_OWED ->
    shift s s' (objects s) ({[(a, p)]} ∪ writable s) (given s) (mark s) (deliveries s) -> act s s'
(** A page of a child not yet admitted is with the source. *)
| act_note c p : c ∉ cow_children s -> objects s !! (c, p) = None ->
    shift s s' (objects s) (writable s) (fupd (given s) (c, p) true) (mark s) (deliveries s) -> act s s'
(** A guest stores; a page arrives from the source. *)
| act_store a p b : (a, p) ∈ writable s ->
    shift s s' (<[(a, p) := b]> (objects s)) (writable s) (given s) (mark s) (deliveries s) -> act s s'
| act_arrive a p b : page_ok p -> objects s !! (a, p) = None -> (forall b', ~ owes s p b' a) ->
    shift s s' (<[(a, p) := b]> (objects s)) (writable s) (given s) (mark s) (deliveries s) -> act s s'
| act_admit c : s' = set_children (c :: cow_children s) s -> act s s'
| act_register id parent : lineage ((id, parent) :: mms s) -> s' = set_mms ((id, parent) :: mms s) s -> act s s'.

Lemma fupd_eq {A} f k (a : A) : fupd f k a k = a.
Proof. unfold fupd. by rewrite decide_True. Qed.
Lemma fupd_ne {A} f k (a : A) x : x <> k -> fupd f k a x = f x.
Proof. intros. unfold fupd. by rewrite decide_False. Qed.
Lemma punched_lookup as_ addr len o k :
  punched as_ addr len o !! k = if in_punched as_ addr len k then None else zeroed as_ addr len k <$> o !! k.
Proof. unfold punched. rewrite map_lookup_imap. destruct (o !! k); simpl; by destruct (in_punched as_ addr len k). Qed.
Lemma page_start_id a : page_aligned a = true -> page_start a = a.
Proof. intros Ha%page_aligned_spec. unfold page_start, PAGE in *. pose proof (Z.div_mod a 4096). lia. Qed.
(** A hole of whole pages. *)
Lemma punched_whole as_ addr len o k : page_aligned addr = true -> page_aligned (addr + len) = true ->
  punched as_ addr len o !! k = if (fst k =? as_) && (addr <=? snd k) && (snd k <? addr + len) then None else o !! k.
Proof.
  rewrite !page_aligned_spec. intros Ha He. rewrite punched_lookup. unfold in_punched, zeroed, page_start, PAGE in *. cbv zeta.
  pose proof (Z.div_mod (snd k) 4096). pose proof (Z.mod_pos_bound (snd k) 4096). pose proof (Z.div_mod addr 4096). pose proof (Z.div_mod (addr + len) 4096).
  assert (Hlo : (addr <=? snd k / 4096 * 4096) = (addr <=? snd k)) by (apply eq_true_iff_eq; rewrite !Z.leb_le; lia).
  assert (Hhi : (snd k / 4096 * 4096 + 4096 <=? addr + len) = (snd k <? addr + len)) by (apply eq_true_iff_eq; rewrite Z.leb_le, Z.ltb_lt; lia).
  rewrite Hlo, Hhi. destruct (_ && _ && _) eqn:Hin; [done|]. rewrite (proj2 (andb_false_iff _ _)); [by destruct (o !! k)|].
  apply andb_false_iff in Hin as [Hin|Hin]; [|right; lia]. left. apply andb_false_iff in Hin as [->|Hin]; [done|]. apply andb_false_iff. right. lia.
Qed.
Lemma punched_kept as_ addr len o k b : o !! k = Some b -> in_punched as_ addr len k = false /\ zeroed as_ addr len k b = b ->
  punched as_ addr len o !! k = Some b.
Proof. intros Ho [Hi Hz]. rewrite punched_lookup, Hi, Ho. simpl. by rewrite Hz. Qed.
Lemma not_settled s k : ~ settled s k <-> objects s !! k = None /\ given s k = false.
Proof.
  unfold settled. rewrite eq_None_not_Some. destruct (given s k); [naive_solver|]. split; [naive_solver|]. intros [? ?] [|]; done.
Qed.
Lemma owes_det s p b b' X : owes s p b X -> owes s p b' X -> b = b'.
Proof.
  intros H. revert b'. induction H as [X H1 H2|X Y H1 H2 H3 H4 H5 H6 IH]; intros b' H'; inversion H'; subst; try congruence.
  apply IH. congruence.
Qed.

(** *** The invariant *)
Lemma act_wf s s' : cow_wf s -> act s s' -> cow_wf s'.
Proof.
  intros Hwf Hact.
  assert (Hshift : forall o w g m d, shift s s' o w g m d ->
    (forall k, m k = COW_PROT_OWED -> is_Some (o !! k) /\ k ∉ w) ->
    (forall k, k ∈ w -> is_Some (o !! k)) -> (forall k, is_Some (o !! k) -> is_Some (objects s !! k) \/ page_ok (snd k)) -> cow_wf s').
  { intros o w g m d [Hm Hc Hr Ho Hw Hg Hk Hd] H1 H2 H3. split; [|apply Hr, Hwf| | |by rewrite Hm; apply Hwf].
    - intros a p. rewrite Ho. intros [H|]%H3; [by apply (cw_aligned s Hwf a)|done].
    - intros k. rewrite Hk, Ho, Hw. apply H1.
    - intros k. rewrite Ho, Hw. apply H2. }
  destruct Hact as [Hs|c p b Hal Hn Hb Hs|c p Hbelow (b & ok & Hn & Hb & Hs)|a p Hbelow Hs|a p Hor Hs|x0 lo len Hd Hs|a p Hs|a p Ho Hw Hs
    |a p Ho Hm Hs|c p Hc Ho Hs|a p b Hw Hs|a p b Hal Ho Hno Hs|c ->|id parent Hl ->].
  all: try (eapply Hshift; [exact Hs|intros k Hk; pose proof (cw_owed s Hwf k) as Howed|intros k Hk; pose proof (cw_writable s Hwf k) as Hwr|intros k Hk]).
  all: try (by apply Howed). all: try (by apply Hwr). all: try (by left).
  - unfold fupd in Hk. destruct (decide (k = (c, p))) as [->|Hne].
    + rewrite lookup_insert_eq. split; [by eexists|]. intros Hin%(cw_writable s Hwf). apply Hn. by right.
    + rewrite lookup_insert_ne by done. by apply Howed.
  - apply lookup_insert_is_Some'. auto.
  - apply lookup_insert_is_Some' in Hk as [<-|Hk]; auto.
  - unfold fupd in Hk. destruct (decide (k = (a, p))); [done|by apply Howed].
  - unfold fupd in Hk. destruct (decide (k = (a, p))) as [|Hne]; [done|]. rewrite lookup_delete_ne by done.
    destruct (Howed Hk). split; [done|set_solver].
  - apply elem_of_difference in Hk as [Hk Hne]. rewrite lookup_delete_ne by set_solver. auto.
  - left. by apply lookup_delete_is_Some in Hk as [_ ?].
  - destruct (Howed Hk) as [[x Hx] Hw]. split; [|by intros [_ ?]%elem_of_filter]. exists x. by rewrite (punched_kept _ _ _ _ _ _ Hx (Hd _ _ Hk Hx)).
  - apply elem_of_filter in Hk as [Hk Hin]. destruct (Hwr Hin) as [x Hx]. exists (zeroed x0 lo len k x). by rewrite punched_lookup, Hk, Hx.
  - left. destruct Hk as [x Hx]. rewrite punched_lookup in Hx. destruct (in_punched _ _ _ _); [done|]. destruct (objects s !! k); [by eexists|done].
  - destruct (Howed Hk). split; [done|set_solver].
  - apply Hwr. set_solver.
  - unfold fupd in Hk. destruct (decide (k = (a, p))) as [->|]; [done|by apply Howed].
  - destruct (Howed Hk). split; [done|]. intros [->%elem_of_singleton|]%elem_of_union; done.
  - apply elem_of_union in Hk as [->%elem_of_singleton|Hk]; auto.
  - destruct (Howed Hk). split; [apply lookup_insert_is_Some'; auto|done].
  - apply lookup_insert_is_Some'. auto.
  - left. apply lookup_insert_is_Some' in Hk as [<-|Hk]; [by apply (cw_writable s Hwf)|done].
  - destruct (Howed Hk). split; [apply lookup_insert_is_Some'; auto|done].
  - apply lookup_insert_is_Some'. auto.
  - apply lookup_insert_is_Some' in Hk as [<-|Hk]; auto.
  - split; apply Hwf.
  - split; [apply Hwf|apply Hwf|apply Hwf|apply Hwf|done].
Qed.

(** *** What is owed *)
Lemma act_lineage s s' : act s s' ->
  (forall c, c ∈ cow_children s -> c ∈ cow_children s') /\
  (forall id Y, parent_in id (mms s) = Some Y -> parent_in id (mms s') = Some Y).
Proof.
  intros Hact. assert (Hshift : forall o w g m d, shift s s' o w g m d -> cow_children s' = cow_children s /\ mms s' = mms s)
    by (by intros o w g m d []).
  destruct Hact as [Hs|c p b Hal Hn Hb Hs|c p Hbelow (b & ok & Hn & Hb & Hs)|a p Hbelow Hs|a p Hor Hs|x0 lo len Hd Hs|a p Hs|a p Ho Hw Hs
    |a p Ho Hm Hs|c p Hc Ho Hs|a p b Hw Hs|a p b Hal Ho Hno Hs|c ->|id parent Hl ->];
    try (apply Hshift in Hs as [-> ->]; done).
  - split; [|done]. intros x Hx. by right.
  - split; [done|]. intros x Y HY. cbn [mms set_mms parent_in]. destruct Hl as (_ & Hnew & _).
    destruct (id =? x) eqn:He; [|done]. apply Z.eqb_eq in He. subst. congruence.
Qed.

(** A holder keeps its page and its mark until every copy has it. *)
Lemma act_here s s' p b X : cow_wf s -> act s s' ->
  objects s !! (X, p) = Some b -> mark s (X, p) = COW_PROT_OWED ->
  (objects s' !! (X, p) = Some b /\ mark s' (X, p) = COW_PROT_OWED) \/ settled_below s p X.
Proof.
  intros Hwf Hact Ho Hm. pose proof (cw_owed s Hwf _ Hm) as [_ Hnw].
  assert (Hshift : forall o w g m d, shift s s' o w g m d -> objects s' = o /\ forall k, mark s' k = m k) by (by intros o w g m d []).
  destruct Hact as [Hs|c q b' Hal Hn Hb Hs|c q Hbelow (b' & ok & Hn & Hb & Hs)|a q Hbelow Hs|a q Hor Hs|x0 lo len Hd Hs|a q Hs|a q Ho' Hw Hs
    |a q Ho' Hm' Hs|c q Hc Ho' Hs|a q b' Hw Hs|a q b' Hal Ho' Hno Hs|c ->|id parent Hl ->];
    try (apply Hshift in Hs as [-> Hmk]; rewrite ?Hmk); try (by left).
  - left. destruct (decide ((c, q) = (X, p))) as [Heq|Hne]; [rewrite Heq in Hn; destruct Hn; right; by eexists|].
    by rewrite lookup_insert_ne, fupd_ne by done.
  - destruct (decide ((a, q) = (X, p))) as [[= -> ->]|Hne]; [by right|]. left. by rewrite fupd_ne.
  - destruct (decide ((a, q) = (X, p))) as [[= -> ->]|Hne]; [destruct Hor; [done|by right]|]. left.
    by rewrite lookup_delete_ne, fupd_ne.
  - left. split; [|done]. apply punched_kept; auto.
  - left. split; [done|]. unfold fupd. by case_decide.
  - left. split; [|done]. rewrite lookup_insert_ne; [done|]. intros Heq. by rewrite Heq in Hw.
  - left. split; [|done]. rewrite lookup_insert_ne; [done|]. intros Heq. rewrite Heq in Ho'. congruence.
Qed.

(** A copy that is owed its page is given exactly that page, or is still owed
    it. *)
Lemma act_copy s s' p b X : cow_wf s -> act s s' ->
  objects s !! (X, p) = None -> given s (X, p) = false -> X ∈ cow_children s -> owes s p b X ->
  (objects s' !! (X, p) = None /\ given s' (X, p) = false /\ deliveries s' (X, p) = deliveries s (X, p)) \/
  (given s' (X, p) = true /\ (exists ok, deliveries s' (X, p) = (b, ok) :: deliveries s (X, p)) /\
     (objects s' !! (X, p) = Some b /\ mark s' (X, p) = COW_PROT_OWED \/ settled_below s p X)).
Proof.
  intros Hwf Hact Ho Hg Hc Howes.
  assert (Hnw : (X, p) ∉ writable s) by (intros [x Hx]%(cw_writable s Hwf); congruence).
  assert (Hpend : pending s X p b) by done.
  destruct Hact as [Hs|c q b' Hal Hn Hb Hs|c q Hbelow (b' & ok & Hn & Hb & Hs)|a q Hbelow Hs|a q Hor Hs|x0 lo len Hd Hs|a q Hs|a q Ho' Hw Hs
    |a q Ho' Hm' Hs|c q Hc' Ho' Hs|a q b' Hw Hs|a q b' Hal Ho' Hno Hs|c ->|id parent Hl ->];
    try (destruct Hs as [_ _ _ -> _ Hgv Hmk Hdl]; rewrite ?Hgv, ?Hmk, ?Hdl); try (by left).
  - destruct (decide ((X, p) = (c, q))) as [Heq|Hne].
    + right. injection Heq as <- <-. rewrite !fupd_eq, lookup_insert_eq, (Hb b Hpend). split; [done|split; [by eexists|auto]].
    + left. by rewrite !fupd_ne, lookup_insert_ne.
  - destruct (decide ((X, p) = (c, q))) as [Heq|Hne].
    + right. injection Heq as <- <-. rewrite !fupd_eq, (Hb b Hpend). split; [done|split; [by eexists|auto]].
    + left. by rewrite !fupd_ne.
  - left. split; [|done]. apply lookup_delete_None. by right.
  - left. split; [|done]. rewrite punched_lookup, Ho. by destruct (in_punched _ _ _ _).
  - left. split; [done|]. rewrite fupd_ne; [done|]. intros [= -> ->]. done.
  - left. split; [|done]. rewrite lookup_insert_ne; [done|]. intros Heq. by rewrite Heq in Hw.
  - left. split; [|done]. rewrite lookup_insert_ne; [done|]. intros [= -> ->]. by apply (Hno b).
Qed.

Lemma act_owes s s' p b X : cow_wf s -> act s s' -> owes s p b X -> owes s' p b X \/ settled_below s p X.
Proof.
  intros Hwf Hact H. destruct (act_lineage s s' Hact) as [Hch Hpar].
  induction H as [X Ho Hm|X Y Ho Hg Hc Hp HY Hup IH].
  - destruct (act_here s s' p b X Hwf Hact Ho Hm) as [[? ?]|]; [left; by constructor|by right].
  - assert (HX : owes s p b X) by (by eapply owes_up).
    destruct (act_copy s s' p b X Hwf Hact Ho Hg Hc HX) as [(Ho' & Hg' & _)|(_ & _ & [[? ?]|])];
      [|left; by constructor|by right].
    destruct IH as [IH|Hbelow]; [left; by eapply owes_up; eauto|].
    destruct (Hbelow X Hc Hp) as [|[x Hx]]; congruence.
Qed.
Lemma act_pending s s' c p b : cow_wf s -> act s s' -> pending s c p b ->
  (pending s' c p b /\ deliveries s' (c, p) = deliveries s (c, p)) \/
  (given s' (c, p) = true /\ exists ok, deliveries s' (c, p) = (b, ok) :: deliveries s (c, p)).
Proof.
  intros Hwf Hact [Ho H]. inversion H as [|X Y _ Hg Hc Hp HY Hup]; subst; [congruence|].
  destruct (act_copy s s' p b c Hwf Hact Ho Hg Hc H) as [(Ho' & Hg' & Hd)|(Hg' & Hd & _)]; [left|by right].
  destruct (act_lineage s s' Hact) as [Hch Hpar]. split; [|done]. split; [done|].
  destruct (act_owes s s' p b Y Hwf Hact Hup) as [Hup'|Hbelow]; [eapply owes_up; eauto|].
  destruct (Hbelow c Hc Hp) as [|[x Hx]]; congruence.
Qed.
(** A page given once is never delivered again. *)
Lemma act_given s s' k : act s s' -> given s k = true -> given s' k = true /\ deliveries s' k = deliveries s k.
Proof.
  intros Hact Hg.
  destruct Hact as [Hs|c q b' Hal Hn Hb Hs|c q Hbelow (b' & ok & Hn & Hb & Hs)|a q Hbelow Hs|a q Hor Hs|x0 lo len Hd Hs|a q Hs|a q Ho' Hw Hs
    |a q Ho' Hm' Hs|c q Hc' Ho' Hs|a q b' Hw Hs|a q b' Hal Ho' Hno Hs|c ->|id parent Hl ->];
    try (destruct Hs as [_ _ _ _ _ Hgv Hmk Hdl]; rewrite ?Hgv, ?Hdl); try done.
  1,2: assert (Hne : k <> (c, q)) by (intros ->; apply Hn; by left); by rewrite !fupd_ne.
  split; [|done]. unfold fupd. by case_decide.
Qed.

Lemma acts_wf s s' : cow_wf s -> steps act s s' -> cow_wf s'.
Proof. intros Hwf. apply steps_invariant; [|done]. intros ? ? ? ?. by eapply act_wf. Qed.
Lemma acts_given s s' k : steps act s s' -> given s k = true -> given s' k = true /\ deliveries s' k = deliveries s k.
Proof.
  induction 1 as [|s1 s2 s3 _ IH Hact]; [done|]. intros Hg. destruct (IH Hg) as [Hg2 Hd2].
  destruct (act_given s2 s3 k Hact Hg2) as [? ->]. done.
Qed.
Lemma acts_pending s s' c p b : cow_wf s -> steps act s s' -> pending s c p b ->
  (pending s' c p b /\ deliveries s' (c, p) = deliveries s (c, p)) \/
  (given s' (c, p) = true /\ exists ok, deliveries s' (c, p) = (b, ok) :: deliveries s (c, p)).
Proof.
  intros Hwf Hsteps Hp. induction Hsteps as [s|s1 s2 s3 H12 IH Hact]; [by left|].
  destruct (IH Hwf Hp) as [[Hp2 Hd2]|[Hg2 Hd2]].
  - rewrite <- Hd2. apply act_pending; [by eapply acts_wf|done|done].
  - right. destruct (act_given s2 s3 _ Hact Hg2) as [? ->]. done.
Qed.

(** A page sent for a copy is a loss to the copies below it that are owed it. *)
Inductive below (s : cow_state) (c : Z) : Z -> Prop :=
| below_child X : parent_in X (mms s) = Some c -> below s c X
| below_up X Y : parent_in X (mms s) = Some Y -> below s c Y -> below s c X.
Lemma sent_wf s s' c p : cow_wf s -> sent s s' c p -> cow_wf s'.
Proof.
  intros [H1 H2 H3 H4 H5] (b & ok & _ & _ & [Hm _ Hr Ho Hw _ Hk _]). split; [by rewrite Ho|auto| |by rewrite Ho, Hw|by rewrite Hm].
  intros k. rewrite Hk, Ho, Hw. apply H3.
Qed.
Lemma sent_given s s' c p k : sent s s' c p -> given s k = true -> given s' k = true /\ deliveries s' k = deliveries s k.
Proof.
  intros (b & ok & Hn & _ & [_ _ _ _ _ Hgv _ Hdl]) Hg. assert (Hne : k <> (c, p)) by (intros ->; apply Hn; by left).
  by rewrite Hgv, Hdl, !fupd_ne.
Qed.
Lemma sent_owes s s' c q p b X : sent s s' c q -> owes s p b X -> owes s' p b X \/ (q = p /\ (X = c \/ below s c X)).
Proof.
  intros (b' & ok & Hn & _ & [Hm Hc _ Ho _ Hgv Hk _]) H.
  induction H as [X H1 H2|X Y H1 H2 H3 H4 H5 _ IH]; [left; apply owes_here; [by rewrite Ho|by rewrite Hk]|].
  destruct (decide ((X, p) = (c, q))) as [[= -> ->]|Hne]; [auto|].
  destruct IH as [IH|[-> [->|IH]]]; [left|right|right]; [|split; [done|]; right; by apply below_child|split; [done|]; right; by apply (below_up _ _ _ Y)].
  apply (owes_up _ _ _ X Y); [by rewrite Ho|by rewrite Hgv, fupd_ne|by rewrite Hc|by rewrite Hm|done|done].
Qed.
Lemma sent_pending s s' c q x p b : sent s s' c q -> pending s x p b ->
  (pending s' x p b /\ deliveries s' (x, p) = deliveries s (x, p)) \/
  (given s' (x, p) = true /\ exists ok, deliveries s' (x, p) = (b, ok) :: deliveries s (x, p)) \/
  (q = p /\ below s c x).
Proof.
  intros Hsent [Hx H]. pose proof (sent_owes s s' c q p b x Hsent H) as Howes. destruct Hsent as (b' & ok & Hn & Hb & [_ _ _ Ho _ Hgv _ Hdl]).
  destruct (decide ((x, p) = (c, q))) as [Heq|Hne].
  - right; left. injection Heq as <- <-. rewrite Hgv, Hdl, !fupd_eq, (Hb b (conj Hx H)). split; [done|by eexists].
  - destruct Howes as [Howes|[-> [->|?]]]; [left|by destruct Hne|auto]. split; [split; [by rewrite Ho|done]|by rewrite Hdl, fupd_ne].
Qed.
End Cow.
