(* ===== verification/CowRuns.v ===== *)
(** * Runs of the copy-on-write code (user/vmremote.c)

    Every program of Cow.v is a sequence of elementary transitions, for every
    answer of the system.  On a machine where no access to an object fails
    ([sound]) the walks over ancestors find what a copy is owed; a run whose
    accesses all succeeded ([clean]) is a run of that machine ([Agree]).  So,
    through such a run, a copy is handed each inherited page once, with the bytes
    of its fork; [stranded] names the exception. *)
From S2P Require Import Prelude Buckets Native Cow.
From stdpp Require Import fin_maps sorting.
Open Scope Z_scope.

Module CowRuns.
Import Cow.

(** ** The programs as transitions *)
(** A program that returns, or ends the process. *)
Definition okay {A} (P : A -> cow_state -> Prop) (r : result A) (s : cow_state) : Prop :=
  match r with Ok a => P a s | Aborted => True | _ => False end.
Lemma wp_seq {A B} (m : M A) (k : A -> M B) (P : A -> cow_state -> Prop) (Q : B -> cow_state -> Prop) s :
  wp m (okay P) s -> (forall a s', P a s' -> wp (k a) (okay Q) s') -> wp (m ≫= k) (okay Q) s.
Proof. intros Hm Hk. apply wp_bind. eapply wp_mono; [exact Hm|]. intros [] s'; simpl; auto. Qed.
Lemma wp_weak {A} (m : M A) (P Q : A -> cow_state -> Prop) s :
  wp m (okay P) s -> (forall a s', P a s' -> Q a s') -> wp m (okay Q) s.
Proof. intros Hm HPQ. eapply wp_mono; [exact Hm|]. intros [] s'; simpl; auto. Qed.
Lemma wp_state {A} (f : cow_state -> A) (Q : A -> cow_state -> Prop) s : Q (f s) s -> wp (get f) (okay Q) s.
Proof. done. Qed.
Lemma wp_val {A} (a : A) (Q : A -> cow_state -> Prop) s : Q a s -> wp (mret a : M A) (okay Q) s.
Proof. done. Qed.
Lemma wp_modify f (Q : unit -> cow_state -> Prop) s : Q tt (f s) -> wp (modify f) (okay Q) s.
Proof. done. Qed.

Lemma quiet_refl s : quiet s s.
Proof. by split. Qed.
Lemma shift_quiet s s1 s2 o w g m d : quiet s s1 -> shift s1 s2 o w g m d -> shift s s2 o w g m d.
Proof. intros [Hm Hc Hr _ _ _ _ _] [Hm' Hc' Hr' ? ? ? ? ?]. split; try done; [by rewrite Hm'|by rewrite Hc'|auto]. Qed.
Lemma shift_ext s s' o w g m d o' w' g' m' d' :
  shift s s' o w g m d -> o = o' -> w = w' -> (forall k, g k = g' k) -> (forall k, m k = m' k) -> (forall k, d k = d' k) ->
  shift s s' o' w' g' m' d'.
Proof. intros [? ? ? ? ? Hg Hm Hd] -> -> Eg Em Ed. split; try done; intros k; [by rewrite Hg|by rewrite Hm|by rewrite Hd]. Qed.
Lemma quiet_trans s s1 s2 : quiet s s1 -> quiet s1 s2 -> quiet s s2.
Proof.
  intros H1 H2. pose proof H1 as [_ _ _ Ho Hw Hg Hm Hd]. eapply shift_ext; [by eapply shift_quiet|done|done|done|done|done].
Qed.
Lemma quiet_settled_iff s s' k : quiet s s' -> settled s' k <-> settled s k.
Proof. intros [_ _ _ Ho _ Hg _ _]. unfold settled. by rewrite Ho, Hg. Qed.
Lemma quiet_owes s s' p b X : quiet s s' -> owes s' p b X <-> owes s p b X.
Proof.
  intros [Hmm Hc _ Ho _ Hg Hm _]. split; induction 1 as [X H1 H2|X Y H1 H2 H3 H4 H5 _ IH].
  - apply owes_here; [by rewrite <- Ho|by rewrite <- Hm].
  - apply (owes_up _ _ _ X Y); [by rewrite <- Ho|by rewrite <- Hg|by rewrite <- Hc|by rewrite <- Hmm|done|done].
  - apply owes_here; [by rewrite Ho|by rewrite Hm].
  - apply (owes_up _ _ _ X Y); [by rewrite Ho|by rewrite Hg|by rewrite Hc|by rewrite Hmm|done|done].
Qed.
Lemma quiet_pending s s' c p b : quiet s s' -> pending s' c p b <-> pending s c p b.
Proof. intros Hq. unfold pending. rewrite (quiet_owes s s' p b c Hq). by destruct Hq as [_ _ _ -> _ _ _ _]. Qed.
Lemma quiet_below s s' p X : quiet s s' -> settled_below s' p X <-> settled_below s p X.
Proof.
  intros Hq. unfold settled_below. setoid_rewrite (fun c => quiet_settled_iff s s' (c, p) Hq).
  by destruct Hq as [-> -> _ _ _ _ _ _].
Qed.
Lemma quiet_wf s s' : quiet s s' -> cow_wf s -> cow_wf s'.
Proof. intros Hq Hwf. eapply act_wf; [done|by apply act_quiet]. Qed.

Section specs.
Context (world : history -> call -> Z) (mm_members : history -> Z -> list Z).
Implicit Types (s : cow_state).

(** A call that moves no page of the program. *)
Definition plain (q : call) : bool := match q with Pwrite _ _ _ | Send _ _ _ => false | _ => true end.
Lemma call_quiet s q r : (match q with Pwrite _ _ _ => r <> PAGE | Send _ _ _ => False | _ => True end) ->
  quiet s (set_calls ((q, r) :: calls s) s).
Proof.
  intros Hq. split; try done. intros k. unfold deliveries. cbn [calls set_calls delivered].
  destruct q; try done. by rewrite (proj2 (Z.eqb_neq r PAGE)), andb_false_r.
Qed.
Lemma ask_spec q s : plain q = true -> wp (ask world q) (okay (fun r s' => quiet s s' /\ r = world (calls s) q /\ cow_record_buckets s' = cow_record_buckets s)) s.
Proof. intros Hq. unfold wp, ask. simpl. split; [|done]. apply call_quiet. by destruct q. Qed.

Lemma mm_record_spec id s : wp (mm_record id) (okay (fun Y s' => s' = s /\ parent_in id (mms s) = Some Y)) s.
Proof. unfold wp, mm_record. by destruct (parent_in id (mms s)). Qed.
Lemma backing_spec id p s : page_ok p ->
  wp (mm_backing_has id p) (okay (fun h s' => s' = s /\ (h = true <-> is_Some (objects s !! (id, p))))) s.
Proof.
  intros [Hu Ha]. eapply wp_seq; [apply mm_record_spec|]. intros Y s' [-> _]. apply wp_state.
  split; [done|]. rewrite page_base_id by done. apply bool_decide_eq_true.
Qed.
Lemma peek_spec id p members s : page_ok p ->
  wp (peek_first world id p members) (okay (fun d s' => quiet s s' /\ (d = None \/ d = objects s !! (id, p)))) s.
Proof.
  intros [Hu Ha]. revert s. induction members as [|m members IH]; intros s; cbn [peek_first].
  { apply wp_val. split; [apply quiet_refl|by left]. }
  eapply wp_seq; [by apply ask_spec|]. intros r s1 [Hq _]. cbv beta. eapply wp_seq; [by apply (wp_state _ (fun d s' => d = objects s !! (id, p) /\ s' = s1));
    destruct Hq as [_ _ _ Ho _ _ _ _]; rewrite Ho, page_base_id by done|].
  intros d s' [-> ->]. assert (Hrec : wp (peek_first world id p members) (okay (fun d s' => quiet s s' /\ (d = None \/ d = objects s !! (id, p)))) s1).
  { eapply wp_weak; [apply IH|]. intros d s' [Hq' Hd]. split; [by eapply quiet_trans|]. destruct Hq as [_ _ _ Ho _ _ _ _]. by rewrite Ho in Hd. }
  destruct (objects s !! (id, p)) as [b|]; [|done]. destruct (r =? PAGE); [|done]. apply wp_val. auto.
Qed.
(** A read gives the object's page; a held page that is not given is a failed
    read. *)
Definition reads_ok : Prop := forall h a p, world h (Pread a p) = PAGE.
Lemma page_read_spec id p s : page_ok p ->
  wp (mm_page_read world mm_members id p) (okay (fun d s' => quiet s s' /\
    match d with Some b => objects s !! (id, p) = Some b | None => reads_ok -> objects s !! (id, p) = None end)) s.
Proof.
  intros Hp. unfold mm_page_read. eapply wp_seq; [by apply (wp_state _ (fun _ s' => s' = s))|]. intros members s' ->.
  eapply wp_seq; [by apply peek_spec|]. intros d s1 [Hq Hd]. pose proof Hq as [_ _ _ Ho _ _ _ _].
  destruct d as [b|]; [apply wp_val; split; [done|]; destruct Hd; congruence|].
  eapply wp_seq; [by apply backing_spec|]. intros has s' [-> Hhas]. rewrite Ho in Hhas.
  destruct has; cbn [negb].
  - eapply wp_seq; [by apply ask_spec|]. intros r s2 (Hq2 & -> & _). pose proof Hq2 as [_ _ _ Ho2 _ _ _ _].
    rewrite page_base_id by apply Hp. destruct (world _ _ =? PAGE) eqn:Hr.
    + apply wp_state. rewrite Ho2, Ho. destruct (proj1 Hhas eq_refl) as [b ->]. split; [by eapply quiet_trans|done].
    + apply wp_val. split; [by eapply quiet_trans|]. intros Hok. rewrite Hok in Hr. done.
  - apply wp_val. split; [done|]. intros _. apply eq_None_not_Some. by rewrite <- Hhas.
Qed.

(** *** Records *)
Lemma find_spec a p s : page_ok p -> bucket_ok cow_key cow_slot (cow_record_buckets s) ->
  wp (cow_record_find world a p false) (okay (fun r s' => s' = s /\ r = bmap cow_key (cow_record_buckets s) !! (a, p))) s.
Proof.
  intros [Hu Ha] Hok. unfold cow_record_find. eapply wp_seq; [apply (wp_state _ (fun r s' => s' = s /\ r = bmap cow_key (cow_record_buckets s) !! (a, p)))|].
  { split; [done|]. rewrite page_base_id by done. by apply bucket_get_spec. }
  intros r s' [-> ->]. destruct (bmap _ _ !! _); by apply wp_val.
Qed.
Lemma was_given_spec a p s : page_ok p -> cow_wf s ->
  wp (cow_was_given world a p) (okay (fun g s' => s' = s /\ g = given s (a, p))) s.
Proof.
  intros Hp Hwf. eapply wp_seq; [apply find_spec; [done|apply Hwf]|]. intros r s' [-> ->]. by apply wp_val.
Qed.
Lemma prot_state_spec a p s : page_ok p -> cow_wf s ->
  wp (cow_prot_state world a p) (okay (fun m s' => s' = s /\ m = mark s (a, p))) s.
Proof.
  intros Hp Hwf. eapply wp_seq; [apply find_spec; [done|apply Hwf]|]. intros r s' [-> ->]. by apply wp_val.
Qed.
Lemma protected_spec a p s : page_ok p -> cow_wf s ->
  wp (cow_is_protected world a p) (okay (fun m s' => s' = s /\ m = (mark s (a, p) =? COW_PROT_OWED))) s.
Proof.
  intros Hp Hwf. eapply wp_seq; [by apply prot_state_spec|]. intros r s' [-> ->]. by apply wp_val.
Qed.
Lemma already_spec c p s : page_ok p -> cow_wf s ->
  wp (already_has world c p) (okay (fun own s' => s' = s /\ (own = true <-> settled s (c, p)))) s.
Proof.
  intros Hp Hwf. eapply wp_seq; [by apply was_given_spec|]. intros g s' [-> ->]. unfold settled.
  destruct (given s (c, p)); [apply wp_val; split; [done|]; tauto|].
  eapply wp_weak; [by apply backing_spec|]. intros h s' [-> Hh]. split; [done|]. rewrite Hh. split; [by right|]. by intros [|].
Qed.
(** Creating a record changes nothing that is asked of the table. *)
Lemma create_spec a p s : page_ok p -> bucket_ok cow_key cow_slot (cow_record_buckets s) ->
  wp (cow_record_find world a p true) (okay (fun r s' => quiet s s' /\ exists e, r = Some e /\
    bmap cow_key (cow_record_buckets s') !! (a, p) = Some e /\ bucket_ok cow_key cow_slot (cow_record_buckets s'))) s.
Proof.
  intros [Hu Ha] Hok. unfold cow_record_find. rewrite page_base_id by done.
  eapply wp_seq; [apply (wp_state _ (fun r s' => s' = s /\ r = bmap cow_key (cow_record_buckets s) !! (a, p)))|].
  { split; [done|]. by apply bucket_get_spec. }
  intros r s' [-> ->]. destruct (bmap _ _ !! _) as [e|] eqn:He; cbn [negb].
  { apply wp_val. split; [apply quiet_refl|eauto]. }
  eapply wp_seq; [by apply (wp_state _ (fun _ s' => s' = s))|]. intros count s' ->.
  destruct ((a =? 0) || (count =? U64MAX)); [done|].
  eapply wp_seq; [by apply ask_spec|]. intros got s1 (Hq & -> & Hb). destruct (_ =? 0); [done|].
  set (r := mk_record a p false 0).
  destruct (bucket_push_spec cow_key cow_slot r (cow_record_buckets s1)) as (Hok' & _ & Hmap); [by rewrite Hb|by rewrite Hb|].
  unfold wp. simpl. split; [|exists r; split; [done|]; split; [by rewrite Hmap; apply lookup_insert_eq|done]].
  eapply quiet_trans; [exact Hq|]. split; try done.
  - intros k. unfold given. cbn [cow_record_buckets set_records]. rewrite Hmap, Hb. change (cow_key r) with (a, p).
    destruct (decide (k = (a, p))) as [->|]; [by rewrite lookup_insert_eq, He|by rewrite lookup_insert_ne].
  - intros k. unfold mark. cbn [cow_record_buckets set_records]. rewrite Hmap, Hb. change (cow_key r) with (a, p).
    destruct (decide (k = (a, p))) as [->|]; [by rewrite lookup_insert_eq, He|by rewrite lookup_insert_ne].
Qed.
Lemma write_spec a p f s e : page_ok p -> bucket_ok cow_key cow_slot (cow_record_buckets s) ->
  bmap cow_key (cow_record_buckets s) !! (a, p) = Some e -> (forall r, cow_key (f r) = cow_key r) ->
  wp (record_write a p f) (okay (fun _ s' => shift s s' (objects s) (writable s)
    (fupd (given s) (a, p) (cr_given (f e))) (fupd (mark s) (a, p) (cr_state (f e))) (deliveries s))) s.
Proof.
  intros [Hu Ha] Hok He Hf. apply wp_modify. rewrite page_base_id by done.
  destruct (bucket_write_spec cow_key cow_slot (a, p) f (cow_record_buckets s) e) as (Hok' & _ & Hmap);
    [done|by rewrite bucket_get_spec|done|].
  split; try done; intros k; unfold given, mark, fupd; cbn [cow_record_buckets set_records]; rewrite Hmap;
    (destruct (decide (k = (a, p))) as [->|]; [by rewrite lookup_insert_eq|by rewrite lookup_insert_ne]).
Qed.
Lemma give_note_spec a p s : page_ok p -> bucket_ok cow_key cow_slot (cow_record_buckets s) ->
  wp (cow_give_note world a p) (okay (fun _ s' => shift s s' (objects s) (writable s)
    (fupd (given s) (a, p) true) (mark s) (deliveries s))) s.
Proof.
  intros Hp Hwf. eapply wp_seq; [by apply create_spec|]. intros r s1 (Hq & e & -> & He & Hok).
  eapply wp_weak; [by apply (write_spec a p _ s1 e)|]. intros ? s' Hs. cbv beta in Hs. pose proof Hq as [_ _ _ Ho Hw Hg Hm Hd].
  eapply shift_ext; [by eapply shift_quiet|done|done| | |done].
  - intros k. unfold fupd. by rewrite Hg.
  - intros k. unfold fupd. case_decide; [|done]. subst. rewrite <- Hm. unfold mark. by rewrite He.
Qed.
Lemma prot_set_spec a p m s : page_ok p -> bucket_ok cow_key cow_slot (cow_record_buckets s) -> m = COW_PROT_OWED \/ m = COW_PROT_SPENT ->
  wp (cow_prot_set world a p m) (okay (fun _ s' => shift s s' (objects s) (writable s)
    (given s) (fupd (mark s) (a, p) m) (deliveries s))) s.
Proof.
  intros Hp Hwf Hm. unfold cow_prot_set.
  assert (Hnz : nz m = true /\ (nz m && negb (m =? COW_PROT_OWED) && negb (m =? COW_PROT_SPENT)) = false) by (by destruct Hm as [-> | ->]).
  destruct Hnz as [Hnz ->]. rewrite Hnz. eapply wp_seq; [by apply create_spec|].
  intros r s1 (Hq & e & -> & He & Hok).
  eapply wp_weak; [by apply (write_spec a p _ s1 e)|]. intros ? s' Hs. cbv beta in Hs. pose proof Hq as [_ _ _ Ho Hw Hg Hmk Hd].
  eapply shift_ext; [by eapply shift_quiet|done|done| | |done].
  - intros k. unfold fupd. case_decide; [|done]. subst. rewrite <- Hg. unfold given. by rewrite He.
  - intros k. unfold fupd. by rewrite Hmk.
Qed.

(** *** Gives

    [gains p s s'] is what a series of gives does: nothing held is touched, and
    what is settled stays so. *)
Record gains (p : Z) (s s' : cow_state) : Prop := {
  gn_acts : steps act s s';
  gn_children : cow_children s' = cow_children s;
  gn_mms : mms s' = mms s;
  gn_writable : writable s' = writable s;
  gn_settled k : settled s k -> settled s' k;
  gn_objects k b : objects s !! k = Some b -> objects s' !! k = Some b;
  gn_mark k : is_Some (objects s !! k) -> mark s' k = mark s k;
  gn_other k : snd k <> p -> mark s' k = mark s k
}.
Lemma quiet_gains p s s' : quiet s s' -> gains p s s'.
Proof.
  intros Hq. pose proof Hq as [Hm Hc Hr Ho Hw Hg Hk Hd].
  split; [eapply steps_next; [constructor|by apply act_quiet]|done|done|done| | |done|done].
  - intros k. by rewrite (quiet_settled_iff s s').
  - intros k b. by rewrite Ho.
Qed.
Lemma gains_trans p s s1 s2 : gains p s s1 -> gains p s1 s2 -> gains p s s2.
Proof.
  intros [] []. split; [by eapply steps_trans|congruence|congruence|congruence|auto|auto| |].
  - intros k [b Hb]. rewrite gn_mark1 by eauto. eauto.
  - intros k Hk. by rewrite gn_other1, gn_other0.
Qed.
Lemma gains_wf p s s' : gains p s s' -> cow_wf s -> cow_wf s'.
Proof. intros [] Hwf. by eapply acts_wf. Qed.
Lemma gains_owed p s s' k : gains p s s' -> cow_wf s -> mark s k = COW_PROT_OWED -> mark s' k = COW_PROT_OWED.
Proof. intros [] Hwf Hm. rewrite gn_mark0; [done|]. by apply (cw_owed s Hwf). Qed.
Lemma give_gains s s' c p b : page_ok p -> ~ settled s (c, p) -> (forall b', pending s c p b' -> b' = b) ->
  shift s s' (<[(c, p) := b]> (objects s)) (writable s) (fupd (given s) (c, p) true)
      (fupd (mark s) (c, p) COW_PROT_OWED) (fupd (deliveries s) (c, p) ((b, true) :: deliveries s (c, p))) ->
  gains p s s' /\ settled s' (c, p).
Proof.
  intros Hp Hn Hb Hs. pose proof Hs as [Hm Hc Hr Ho Hw Hg Hk Hd].
  assert (Hset : settled s' (c, p)) by (right; rewrite Ho, lookup_insert_eq; by eexists).
  split; [|done]. split; [eapply steps_next; [constructor|by eapply act_give]|done|done|done| | | |].
  - intros k Hset'. destruct (decide (k = (c, p))) as [->|]; [done|]. unfold settled.
    by rewrite Hg, fupd_ne, Ho, lookup_insert_ne.
  - intros k d Hkd. rewrite Ho, lookup_insert_ne; [done|]. intros <-. apply Hn. right. by eexists.
  - intros k Hkd. rewrite Hk, fupd_ne; [done|]. intros ->. apply Hn. by right.
  - intros k Hne. rewrite Hk, fupd_ne; [done|]. by intros ->.
Qed.

Definition writes_ok : Prop := forall h a p d, world h (Pwrite a p d) = PAGE.
Lemma obj_write_spec c p b s : page_ok p -> cow_wf s -> ~ settled s (c, p) ->
  wp (mm_obj_write world c p b) (okay (fun r s' =>
    if r =? PAGE then shift s s' (<[(c, p) := b]> (objects s)) (writable s) (given s) (mark s)
                     (fupd (deliveries s) (c, p) ((b, true) :: deliveries s (c, p)))
    else quiet s s' /\ ~ writes_ok)) s.
Proof.
  intros Hp Hwf Hn. unfold mm_obj_write. eapply wp_seq; [apply mm_record_spec|]. intros Y s' [-> _].
  unfold wp, ask, mbind, prog_bind. cbn [fst snd]. set (q := Pwrite c p b). set (r := world (calls s) q).
  destruct (r =? PAGE) eqn:Hr; simpl; rewrite Hr.
  - split; try done. intros k. unfold deliveries. cbn [calls set_objects set_calls]. subst q. cbn [delivered]. rewrite Hr, andb_true_r.
    unfold fupd. case_bool_decide; [by rewrite decide_True; subst|by rewrite decide_False].
  - split; [apply call_quiet; by apply Z.eqb_neq|]. intros Hok. subst r q. rewrite Hok in Hr. done.
Qed.

(** The page given is the one the copy is owed. *)
Definition right_page s (c f p : Z) (relaxed : bool) : Prop :=
  forall b b', objects s !! (f, p) = Some b -> (relaxed = false -> mark s (f, p) = COW_PROT_OWED) -> pending s c p b' -> b' = b.
(** The copy [c] has just been given the page of [f]. *)
Definition gave_page s s' (c f p : Z) : Prop :=
  exists b, objects s !! (f, p) = Some b /\ ~ settled s (c, p) /\
    shift s s' (<[(c, p) := b]> (objects s)) (writable s) (fupd (given s) (c, p) true)
      (fupd (mark s) (c, p) COW_PROT_OWED) (fupd (deliveries s) (c, p) ((b, true) :: deliveries s (c, p))).
Lemma give_spec c f p relaxed s : page_ok p -> cow_wf s -> right_page s c f p relaxed ->
  wp (cow_give_page_mode world mm_members c f p relaxed) (okay (fun gave s' => gains p s s' /\
    if gave : bool then settled s' (c, p) /\ gave_page s s' c f p
    else quiet s s' /\ (settled s (c, p) \/ relaxed = false /\ mark s (f, p) <> COW_PROT_OWED \/
           (reads_ok -> writes_ok -> objects s !! (f, p) = None)))) s.
Proof.
  intros Hp Hwf Hright. unfold cow_give_page_mode.
  eapply wp_seq; [by apply already_spec|]. intros own s' [-> Hown].
  destruct own; [apply wp_val; split; [apply quiet_gains, quiet_refl|]; split; [apply quiet_refl|left; by apply Hown]|].
  assert (Hn : ~ settled s (c, p)) by (intros H%Hown; done).
  eapply (wp_seq _ _ (fun v s' => s' = s /\ (v = true <-> (relaxed = false -> mark s (f, p) = COW_PROT_OWED)))).
  { destruct relaxed; [by apply wp_val|]. eapply wp_weak; [by apply protected_spec|]. intros v s' [-> ->]. split; [done|]. rewrite Z.eqb_eq. naive_solver. }
  intros v s' [-> Hv]. destruct v; cbn [negb].
  2:{ apply wp_val. split; [apply quiet_gains, quiet_refl|]. split; [apply quiet_refl|]. right. left.
      destruct relaxed; [exfalso; discriminate (proj2 Hv ltac:(done))|]. split; [done|]. intros Hm. discriminate (proj2 Hv ltac:(done)). }
  eapply wp_seq; [by apply page_read_spec|]. intros d s1 [Hq Hd]. destruct d as [b|].
  2:{ apply wp_val. split; [by apply quiet_gains|]. split; [done|]. right. right. auto. }
  assert (Hb : forall b', pending s c p b' -> b' = b) by (intros b'; apply Hright; [done|by apply Hv]).
  assert (Hwf1 : cow_wf s1) by (by eapply quiet_wf). assert (Hn1 : ~ settled s1 (c, p)) by (by rewrite (quiet_settled_iff s s1)).
  eapply wp_seq; [by apply obj_write_spec|]. intros r s2 Hs2. cbv beta in Hs2. destruct (r =? PAGE) eqn:Hr; cbn [negb].
  2:{ destruct Hs2 as [Hq2 Hbad]. apply wp_val. assert (quiet s s2) by (by eapply quiet_trans). split; [by apply quiet_gains|].
      split; [done|]. right. right. intros _ Hw. destruct (Hbad Hw). }
  assert (Hok2 : bucket_ok cow_key cow_slot (cow_record_buckets s2)) by (apply Hs2, Hwf1).
  eapply wp_seq; [by apply give_note_spec|]. intros u s3 Hs3. cbv beta in Hs3.
  eapply wp_seq; [apply prot_set_spec; [done|by apply Hs3|by left]|]. intros u' s4 Hs4. cbv beta in Hs4. apply wp_val.
  assert (Hsh : shift s1 s4 (<[(c, p) := b]> (objects s1)) (writable s1) (fupd (given s1) (c, p) true)
    (fupd (mark s1) (c, p) COW_PROT_OWED) (fupd (deliveries s1) (c, p) ((b, true) :: deliveries s1 (c, p)))).
  { destruct Hs2 as [Hm2 Hc2 Hr2 Ho2 Hw2 Hg2 Hk2 Hd2], Hs3 as [Hm3 Hc3 Hr3 Ho3 Hw3 Hg3 Hk3 Hd3], Hs4 as [Hm4 Hc4 Hr4 Ho4 Hw4 Hg4 Hk4 Hd4].
    split; [congruence|congruence|auto|congruence|congruence|..]; intros k.
    - rewrite Hg4, Hg3. unfold fupd. by rewrite Hg2.
    - rewrite Hk4. unfold fupd. by rewrite Hk3, Hk2.
    - by rewrite Hd4, Hd3, Hd2. }
  destruct (give_gains s1 s4 c p b) as [Hgain Hset]; [done|done|intros b'; rewrite (quiet_pending s s1) by done; apply Hb|done|].
  split; [eapply gains_trans; [by apply quiet_gains|done]|]. split; [done|]. exists b. split; [done|]. split; [done|].
  pose proof Hq as [_ _ _ Ho Hw Hg Hm Hdl]. eapply shift_ext; [by eapply shift_quiet|by rewrite Ho|done|..]; intros k; unfold fupd; [by rewrite Hg|by rewrite Hm|].
  by rewrite !Hdl.
Qed.

(** *** Breaks *)
(** A holder gives its own copies the right page. *)
Lemma parent_right s c f p : parent_in c (mms s) = Some f -> right_page s c f p false.
Proof.
  intros Hpar b b' Ho Hm [Hc Howes]. inversion Howes as [|X Y _ _ _ Hp' _ Hup]; subst; [congruence|].
  assert (Y = f) as -> by congruence. inversion Hup; subst; congruence.
Qed.
Lemma gains_parent p s s' c f : gains p s s' -> parent_in c (mms s) = Some f -> parent_in c (mms s') = Some f.
Proof. intros Hg. by rewrite (gn_mms p s s' Hg). Qed.

Lemma break_each_spec a p children s :
  page_ok p -> cow_wf s -> (forall c, c ∈ children -> parent_in c (mms s) = Some a) ->
  wp (break_each world mm_members a p children) (okay (fun all s' => gains p s s' /\
    (all = true -> forall c, c ∈ children -> settled s' (c, p)))) s.
Proof.
  intros Hp. revert s. induction children as [|c children IH]; intros s Hwf Hpar; cbn [break_each].
  { apply wp_val. split; [apply quiet_gains, quiet_refl|]. intros _ c Hc%elem_of_nil. done. }
  eapply wp_seq; [by apply already_spec|]. intros own s' [-> Hown].
  eapply (wp_seq _ _ (fun ok s' => gains p s s' /\ (ok = true -> settled s' (c, p)))).
  { destruct own; [apply wp_val; split; [apply quiet_gains, quiet_refl|intros _; by apply Hown]|].
    eapply wp_weak; [apply give_spec; [done|done|apply parent_right, Hpar; by left]|].
    intros gave s' [Hg Hgave]. split; [done|]. intros ->. apply Hgave. }
  intros ok s1 [Hg1 Hok]. eapply wp_seq.
  { apply (IH s1); [by eapply gains_wf|]. intros x Hx. eapply gains_parent; [done|]. apply Hpar. by right. }
  intros rest s2 [Hg2 Hrest]. apply wp_val. split; [by eapply gains_trans|].
  intros [-> ->]%andb_true_iff x [->|Hx]%elem_of_cons; [apply (gn_settled p s1 s2 Hg2); auto|auto].
Qed.
Lemma copies_spec a s : wp (cow_copies_of world a) (okay (fun l s' => quiet s s' /\ l = copies_in a s)) s.
Proof.
  unfold cow_copies_of. eapply wp_seq; [apply mm_record_spec|]. intros Y s' [-> _].
  eapply wp_seq; [by apply (wp_state _ (fun l s' => s' = s /\ l = copies_in a s))|]. intros l s' [-> ->].
  destruct (copies_in a s); [apply wp_val; split; [apply quiet_refl|done]|].
  eapply wp_seq; [by apply ask_spec|]. intros got s1 (Hq & -> & _). by destruct (_ =? 0).
Qed.
Lemma elem_copies a s c : c ∈ copies_in a s <-> c ∈ cow_children s /\ parent_in c (mms s) = Some a.
Proof. unfold copies_in. rewrite list_elem_of_filter. tauto. Qed.
Lemma break_spec a p s : page_ok p -> cow_wf s ->
  wp (cow_break_copies world mm_members a p) (okay (fun all s' => gains p s s' /\
    (all = true -> mark s (a, p) = COW_PROT_OWED -> settled_below s' p a))) s.
Proof.
  intros Hp Hwf. unfold cow_break_copies. eapply wp_seq; [by apply prot_state_spec|]. intros m s' [-> ->].
  destruct (mark s (a, p) =? COW_PROT_SPENT) eqn:Hm.
  { apply wp_val. split; [apply quiet_gains, quiet_refl|]. intros _ Howed. apply Z.eqb_eq in Hm. by rewrite Hm in Howed. }
  eapply wp_seq; [apply copies_spec|]. intros l s1 [Hq ->]. pose proof Hq as [Hm1 Hc1 _ _ _ _ _ _].
  eapply wp_weak; [apply break_each_spec; [done|by eapply quiet_wf|]|].
  { intros c [_ Hc]%elem_copies. by rewrite Hm1. }
  intros all s2 [Hg Hall]. split; [eapply gains_trans; [by apply quiet_gains|done]|]. intros -> _ c Hc Hpar.
  rewrite (gn_children p s1 s2 Hg), Hc1 in Hc. rewrite (gn_mms p s1 s2 Hg), Hm1 in Hpar.
  apply (Hall eq_refl). by apply elem_copies.
Qed.

(** *** Grants and hand-overs *)
Lemma quiet_acts s s' : quiet s s' -> steps act s s'.
Proof. intros Hq. by apply (gn_acts 0), quiet_gains. Qed.
Lemma act_acts s s' : act s s' -> steps act s s'.
Proof. intros H. eapply steps_next; [constructor|done]. Qed.
Lemma shift_spend s s' a p : settled_below s p a ->
  shift s s' (objects s) (writable s) (given s) (fupd (mark s) (a, p) COW_PROT_SPENT) (deliveries s) -> steps act s s'.
Proof. intros Hb Hs. by eapply act_acts, act_spend. Qed.

Lemma map_object_spec a p s : page_ok p -> cow_wf s -> is_Some (objects s !! (a, p)) ->
  wp (snapshot_map_object world mm_members a p) (okay (fun r s' => steps act s s' /\
    (mark s (a, p) = COW_PROT_OWED -> settled_below s' p a /\ mark s' (a, p) = COW_PROT_SPENT))) s.
Proof.
  intros Hp Hwf Hheld. unfold snapshot_map_object. rewrite page_base_id by apply Hp. cbv zeta.
  eapply wp_seq; [by apply protected_spec|]. intros owed s' [-> ->].
  eapply (wp_seq _ _ (fun _ s1 => steps act s s1 /\ is_Some (objects s1 !! (a, p)) /\ mark s1 (a, p) <> COW_PROT_OWED /\
    (mark s (a, p) = COW_PROT_OWED -> settled_below s1 p a /\ mark s1 (a, p) = COW_PROT_SPENT))).
  { destruct (mark s (a, p) =? COW_PROT_OWED) eqn:Hm.
    - apply Z.eqb_eq in Hm. eapply wp_seq; [by apply break_spec|]. intros all s1 [Hg Hall]. destruct all; [|done]. cbn [negb].
      assert (Hbelow : settled_below s1 p a) by auto.
      eapply wp_weak; [apply prot_set_spec; [done|by apply (gains_wf p s s1 Hg Hwf)|by right]|]. intros u s2 Hs2. cbv beta in Hs2.
      split; [eapply steps_trans; [apply Hg|by eapply shift_spend]|].
      pose proof Hs2 as [Hm2 Hc2 _ Ho2 _ Hg2 Hk2 _]. rewrite Ho2, Hk2, fupd_eq.
      destruct Hheld as [b Hb]. rewrite (gn_objects p s s1 Hg _ b Hb). split; [by eexists|]. split; [done|]. intros _. split; [|done]. intros c Hc Hpar.
      rewrite Hc2 in Hc. rewrite Hm2 in Hpar. unfold settled. rewrite Ho2, Hg2. by apply Hbelow.
    - apply wp_val. split; [constructor|]. split; [done|]. apply Z.eqb_neq in Hm. done. }
  intros u s1 (Hacts & Hheld1 & Hm1 & Hbelow). unfold ctl_mapobj.
  eapply wp_seq; [by apply ask_spec|]. intros r s2 (Hq & -> & _). pose proof Hq as [Hmm2 Hc2 Hr2 Ho2 Hw2 Hg2 Hk2 Hd2].
  assert (Hwf2 : cow_wf s2) by (eapply quiet_wf; [done|]; by eapply acts_wf).
  assert (Hacts2 : steps act s s2) by (eapply steps_trans; [done|by apply quiet_acts]).
  assert (Hbelow2 : mark s (a, p) = COW_PROT_OWED -> settled_below s2 p a /\ mark s2 (a, p) = COW_PROT_SPENT) by (rewrite (quiet_below s1 s2), Hk2; done).
  destruct (world (calls s1) _ =? PAGE).
  - unfold wp. simpl. set (s3 := set_writable _ _). destruct Hheld1 as [b Hb]. rewrite <- Ho2 in Hb.
    assert (Hs3 : shift s2 s3 (objects s2) ({[(a, p)]} ∪ writable s2) (given s2) (mark s2) (deliveries s2)).
    { split; try done. subst s3. cbn [objects set_writable set_objects]. rewrite Hb. simpl. by apply insert_id. }
    split; [eapply steps_trans; [done|]; eapply act_acts, (act_grant _ _ a p); [by eexists|by rewrite Hk2|done]|].
    intros Hm. rewrite (sh_mark _ _ _ _ _ _ _ Hs3). destruct (Hbelow2 Hm) as [Hb2 Hk]. split; [|done]. intros c Hc Hpar.
    destruct (Hb2 c Hc Hpar) as [Hg|Ho]; [by left|right]. by rewrite (sh_objects _ _ _ _ _ _ _ Hs3).
  - done.
Qed.

Lemma take_page_spec a cmd p s : page_ok p -> cow_wf s ->
  wp (snapshot_take_page world mm_members a cmd p) (okay (fun r s' => steps act s s')) s.
Proof.
  intros Hp Hwf. unfold snapshot_take_page. rewrite page_base_id by apply Hp. cbv zeta.
  eapply wp_seq; [by apply protected_spec|]. intros owed s' [-> ->].
  eapply (wp_seq _ _ (fun _ s1 => steps act s s1 /\ (mark s1 (a, p) <> COW_PROT_OWED \/ settled_below s1 p a))).
  { destruct (mark s (a, p) =? COW_PROT_OWED) eqn:Hm.
    - apply Z.eqb_eq in Hm. eapply wp_seq; [by apply break_spec|]. intros all s1 [Hg Hall]. destruct all; [|done].
      apply wp_val. split; [apply Hg|right; auto].
    - apply wp_val. split; [constructor|]. left. by apply Z.eqb_neq. }
  intros u s1 (Hacts & Hor). unfold ctl_take.
  eapply (wp_seq _ _ (fun r s2 => if r =? PAGE then shift s1 s2 (delete (a, p) (objects s1)) (writable s1 ∖ {[(a, p)]}) (given s1) (mark s1) (deliveries s1)
                                  else quiet s1 s2)).
  { eapply wp_seq; [by apply ask_spec|]. intros r s2 (Hq & _ & _). pose proof Hq as [Hm2 Hc2 Hr2 Ho2 Hw2 Hg2 Hk2 Hd2].
    destruct (r =? PAGE) eqn:Hr; unfold wp; simpl; rewrite Hr; [|done]. split; try done; cbn; congruence. }
  intros r s2 Hs2. cbv beta in Hs2. destruct (r =? PAGE).
  - assert (Hwf1 : cow_wf s1) by (by eapply acts_wf). eapply wp_seq; [apply prot_set_spec; [done|apply Hs2, Hwf1|by right]|].
    intros u' s3 Hs3. cbv beta in Hs3. apply wp_val. eapply steps_trans; [done|]. eapply act_acts, (act_leave _ _ a p); [done|].
    destruct Hs2 as [Hm2 Hc2 Hr2 Ho2 Hw2 Hg2 Hk2 Hd2], Hs3 as [Hm3 Hc3 Hr3 Ho3 Hw3 Hg3 Hk3 Hd3].
    split; [congruence|congruence|auto|congruence|congruence|..]; intros k; [by rewrite Hg3|rewrite Hk3; unfold fupd; by rewrite Hk2|by rewrite Hd3].
  - eapply wp_seq; [by apply (wp_val _ (fun _ s' => s' = s2))|]. intros ? ? ->. apply wp_val.
    eapply steps_trans; [done|by apply quiet_acts].
Qed.

(** *** Vacating a range *)
(** The copies among [cs] that are given the page [p] of their original. *)
Definition heir (s : cow_state) (p : Z) (cs : list Z) (k : Z * Z) : bool :=
  (snd k =? p) && bool_decide (fst k ∈ cs) && negb (given s k) && bool_decide (objects s !! k = None).
Record handed (a p : Z) (cs : list Z) (s s' : cow_state) : Prop := {
  hd_objects k : objects s' !! k = if heir s p cs k then objects s !! (a, p) else objects s !! k;
  hd_given k : given s' k = given s k || heir s p cs k;
  hd_mark k : mark s' k = if heir s p cs k then COW_PROT_OWED else mark s k;
  hd_writable : writable s' = writable s
}.
Lemma heir_nil s p k : heir s p [] k = false.
Proof. unfold heir. rewrite (bool_decide_eq_false_2 (fst k ∈ [])) by (by intros ?%elem_of_nil). by rewrite andb_false_r. Qed.
Lemma heir_settled s p cs k : settled s k -> heir s p cs k = false.
Proof.
  unfold heir. intros [-> | [b ->]]; [by rewrite andb_false_r|]. rewrite (bool_decide_eq_false_2 (Some b = None)) by done. by rewrite andb_false_r.
Qed.
Lemma heir_cons s p c cs k : k <> (c, p) -> heir s p (c :: cs) k = heir s p cs k.
Proof.
  intros Hne. unfold heir. destruct (Z.eqb_spec (snd k) p) as [Hp|]; [|done]. f_equal. f_equal. f_equal. apply bool_decide_ext.
  rewrite elem_of_cons. split; [|auto]. intros [Hc|?]; [|done]. destruct Hne. destruct k; simpl in *; congruence.
Qed.
Lemma heir_first s p c cs : ~ settled s (c, p) -> heir s p (c :: cs) (c, p) = true.
Proof.
  intros [Ho Hg]%not_settled. unfold heir. rewrite Hg, Ho. simpl. rewrite Z.eqb_refl, bool_decide_eq_true_2 by (by left). done.
Qed.
Lemma handed_quiet a p s s' : quiet s s' -> handed a p [] s s'.
Proof.
  intros [_ _ _ Ho Hw Hg Hm _]. split; [intros k..|done]; rewrite heir_nil, ?Ho, ?Hg, ?Hm; [done|by rewrite orb_false_r|done].
Qed.
Lemma handed_had a p c cs s s' : settled s (c, p) -> handed a p cs s s' -> handed a p (c :: cs) s s'.
Proof.
  intros Hs [H1 H2 H3 H4]. assert (Hh : forall k, heir s p (c :: cs) k = heir s p cs k).
  { intros k. destruct (decide (k = (c, p))) as [->|]; [by rewrite !heir_settled|by apply heir_cons]. }
  split; [intros k..|done]; rewrite Hh; auto.
Qed.
Lemma handed_gave a p c cs s s1 s' : gave_page s s1 c a p -> handed a p cs s1 s' -> handed a p (c :: cs) s s'.
Proof.
  intros (b & Hb & Hn & [_ _ _ Ho Hw Hg Hm _]) [H1 H2 H3 H4].
  assert (Hne : (a, p) <> (c, p)) by (intros [= ->]; apply Hn; right; by eexists).
  assert (Hh : forall k, k <> (c, p) -> heir s p (c :: cs) k = heir s1 p cs k).
  { intros k Hk. rewrite heir_cons by done. unfold heir. by rewrite Hg, fupd_ne, Ho, lookup_insert_ne by done. }
  assert (Hc : heir s1 p cs (c, p) = false) by (apply heir_settled; right; rewrite Ho, lookup_insert_eq; by eexists).
  split; [intros k..|congruence]; (destruct (decide (k = (c, p))) as [->|Hk]; [rewrite heir_first by done|rewrite Hh by done]).
  - by rewrite H1, Hc, Ho, lookup_insert_eq, Hb.
  - rewrite H1, Ho, !lookup_insert_ne by done. done.
  - by rewrite H2, Hg, fupd_eq, orb_true_r.
  - by rewrite H2, Hg, fupd_ne.
  - by rewrite H3, Hc, Hm, fupd_eq.
  - by rewrite H3, Hm, fupd_ne.
Qed.
Lemma retire_each_spec a p children s :
  page_ok p -> cow_wf s -> (forall c, c ∈ children -> parent_in c (mms s) = Some a) ->
  wp (retire_each world mm_members a p children) (okay (fun _ s' => gains p s s' /\ handed a p children s s' /\
    forall c, c ∈ children -> settled s' (c, p))) s.
Proof.
  intros Hp. revert s. induction children as [|c children IH]; intros s Hwf Hpar; cbn [retire_each].
  { apply wp_val. split; [apply quiet_gains, quiet_refl|]. split; [apply handed_quiet, quiet_refl|]. intros c Hc%elem_of_nil. done. }
  eapply wp_seq; [by apply already_spec|]. intros own s' [-> Hown].
  eapply (wp_seq _ _ (fun _ s' => gains p s s' /\ settled s' (c, p) /\ (s' = s \/ gave_page s s' c a p))).
  { destruct own; [apply wp_val; split; [apply quiet_gains, quiet_refl|]; split; [by apply Hown|by left]|].
    eapply wp_seq; [apply give_spec; [done|done|apply parent_right, Hpar; by left]|].
    intros gave s' [Hg Hgave]. destruct gave; [|done]. destruct Hgave. apply wp_val. auto. }
  intros u s1 (Hg1 & Hset & Hgave). eapply wp_weak.
  { apply (IH s1); [by eapply gains_wf|]. intros x Hx. eapply gains_parent; [done|]. apply Hpar. by right. }
  intros u' s2 (Hg2 & Hh2 & Hrest). split; [by eapply gains_trans|]. split.
  - destruct Hgave as [->|Hgave]; [by apply handed_had|by eapply handed_gave].
  - intros x [->|Hx]%elem_of_cons; [by apply (gn_settled p s1 s2 Hg2)|auto].
Qed.

(** A pass over the pages of [a] from [lo] to [hi] and its copies [cs]: every
    copy that was still owed one of them has it, and their marks are spent. *)
Definition heir_in (s : cow_state) (a : Z) (cs : list Z) (lo hi : Z) (k : Z * Z) : bool :=
  (lo <=? snd k) && (snd k <? hi) && (mark s (a, snd k) =? COW_PROT_OWED) && heir s (snd k) cs k.
Definition spent_in (s : cow_state) (a lo hi : Z) (k : Z * Z) : bool :=
  (fst k =? a) && (lo <=? snd k) && (snd k <? hi) && (mark s k =? COW_PROT_OWED).
Record passed (a : Z) (cs : list Z) (lo hi : Z) (s s' : cow_state) : Prop := {
  ps_acts : steps act s s';
  ps_children : cow_children s' = cow_children s;
  ps_mms : mms s' = mms s;
  ps_writable : writable s' = writable s;
  ps_objects k : objects s' !! k = if heir_in s a cs lo hi k then objects s !! (a, snd k) else objects s !! k;
  ps_given k : given s' k = given s k || heir_in s a cs lo hi k;
  ps_mark k : mark s' k = if spent_in s a lo hi k then COW_PROT_SPENT else if heir_in s a cs lo hi k then COW_PROT_OWED else mark s k
}.
Lemma passed_none a cs lo hi s : hi <= lo -> passed a cs lo hi s s.
Proof.
  intros Hle. assert (Hh : forall k, heir_in s a cs lo hi k = false) by (intros k; unfold heir_in; by destruct (lo <=? snd k) eqn:?, (snd k <? hi) eqn:?; simpl; try lia).
  split; [constructor|done|done|done|..]; intros k; rewrite Hh; [done|by rewrite orb_false_r|].
  unfold spent_in. by destruct (fst k =? a), (lo <=? snd k) eqn:?, (snd k <? hi) eqn:?; simpl; try lia.
Qed.
(** Only whole pages are marked. *)
Lemma owed_aligned s a q : cow_wf s -> mark s (a, q) = COW_PROT_OWED -> page_ok q.
Proof. intros Hwf Hm. destruct (cw_owed s Hwf _ Hm) as [Hh _]. by apply (cw_aligned s Hwf a). Qed.
Lemma page_gap lo q : page_ok lo -> page_ok q -> lo <= q < lo + PAGE -> q = lo.
Proof.
  intros [_ Hl%page_aligned_spec] [_ Hq%page_aligned_spec]. unfold PAGE in *. pose proof (Z.div_mod q 4096). pose proof (Z.div_mod lo 4096). lia.
Qed.
(** In a pass from [lo], what lies below the next page is [lo] itself. *)
Lemma first_page s a lo q : cow_wf s -> page_ok lo -> lo <= q < lo + PAGE -> q <> lo -> (mark s (a, q) =? COW_PROT_OWED) = false.
Proof. intros Hwf Hlo Hq Hne. apply Z.eqb_neq. intros Hm. apply Hne, page_gap; [done|by eapply owed_aligned|done]. Qed.
Lemma passed_skip a cs lo hi s s' : cow_wf s -> page_ok lo -> mark s (a, lo) <> COW_PROT_OWED ->
  passed a cs (lo + PAGE) hi s s' -> passed a cs lo hi s s'.
Proof.
  intros Hwf Hlo Hm [H1 H2 H3 H4 H5 H6 H7].
  assert (Hq : forall q, (lo <=? q) && (q <? hi) && (mark s (a, q) =? COW_PROT_OWED) = (lo + PAGE <=? q) && (q <? hi) && (mark s (a, q) =? COW_PROT_OWED)).
  { intros q. destruct (Z.leb_spec (lo + PAGE) q); [by rewrite (proj2 (Z.leb_le lo q)) by (unfold PAGE in *; lia)|].
    destruct (Z.leb_spec lo q); [|done]. destruct (decide (q = lo)) as [->|]; [by rewrite (proj2 (Z.eqb_neq _ _) Hm), andb_false_r|].
    rewrite (first_page s a lo q) by (done || lia). by rewrite andb_false_r. }
  assert (Hh : forall k, heir_in s a cs lo hi k = heir_in s a cs (lo + PAGE) hi k) by (intros k; unfold heir_in; by rewrite Hq).
  split; [done..| | |]; intros k; rewrite ?Hh; auto. rewrite H7. f_equal. unfold spent_in. destruct k as [x q]. simpl.
  destruct (Z.eqb_spec x a) as [->|]; [|done]. simpl. by rewrite Hq.
Qed.
Lemma passed_page a cs lo hi s s1 s2 s' : cow_wf s -> page_ok lo -> lo < hi -> mark s (a, lo) = COW_PROT_OWED ->
  gains lo s s1 -> handed a lo cs s s1 -> steps act s1 s2 ->
  shift s1 s2 (objects s1) (writable s1) (given s1) (fupd (mark s1) (a, lo) COW_PROT_SPENT) (deliveries s1) ->
  passed a cs (lo + PAGE) hi s2 s' -> passed a cs lo hi s s'.
Proof.
  intros Hwf Hlo Hlt Hm Hg [D1 D2 D3 D4] Hacts [Em Ec _ Eo Ew Eg Ek _] [H1 H2 H3 H4 H5 H6 H7].
  assert (Hheld : is_Some (objects s !! (a, lo))) by (by apply (cw_owed s Hwf)).
  assert (Ha : forall q, heir s lo cs (a, q) = false).
  { intros q. destruct (decide (q = lo)) as [->|]; [apply heir_settled; by right|]. unfold heir. simpl. by rewrite (proj2 (Z.eqb_neq q lo)). }
  assert (Hhere : forall k, snd k = lo -> heir_in s2 a cs (lo + PAGE) hi k = false /\ spent_in s2 a (lo + PAGE) hi k = false /\
    heir_in s a cs lo hi k = heir s lo cs k).
  { intros k Hk. unfold heir_in, spent_in. rewrite Hk. rewrite (proj2 (Z.leb_gt (lo + PAGE) lo)) by (unfold PAGE; lia).
    rewrite (proj2 (Z.leb_le lo lo)), (proj2 (Z.ltb_lt lo hi)), Hm, andb_false_r by lia. done. }
  assert (Hsame : forall k, snd k <> lo -> objects s2 !! k = objects s !! k /\ given s2 k = given s k /\ mark s2 k = mark s k).
  { intros k Hk. assert (Hhk : heir s lo cs k = false) by (unfold heir; by rewrite (proj2 (Z.eqb_neq _ _) Hk)).
    rewrite Eo, D1, Eg, D2, Ek, fupd_ne, D3, Hhk by (intros ->; done). by rewrite orb_false_r. }
  assert (Hthere : forall k, snd k <> lo -> heir_in s2 a cs (lo + PAGE) hi k = heir_in s a cs lo hi k /\
    spent_in s2 a (lo + PAGE) hi k = spent_in s a lo hi k).
  { intros k Hk. destruct (Hsame k Hk) as (Eo' & Eg' & Ek'). destruct (Hsame (a, snd k) Hk) as (_ & _ & Eka).
    unfold heir_in, spent_in, heir. rewrite Eo', Eg', Ek', Eka. destruct (Z.leb_spec (lo + PAGE) (snd k)).
    { by rewrite (proj2 (Z.leb_le lo (snd k))) by (unfold PAGE in *; lia). }
    destruct (Z.leb_spec lo (snd k)); [|by rewrite !andb_false_r]. rewrite (first_page s a lo (snd k)) by (done || lia).
    rewrite !andb_false_r. split; [done|]. destruct (Z.eqb_spec (fst k) a) as [<-|]; [|done].
    rewrite <- (surjective_pairing k) in *. destruct k as [x q]. simpl in *. rewrite (first_page s x lo q) by (done || lia). by rewrite !andb_false_r. }
  split.
  - eapply steps_trans; [apply Hg|]. by eapply steps_trans.
  - by rewrite H2, Ec, (gn_children lo s s1 Hg).
  - by rewrite H3, Em, (gn_mms lo s s1 Hg).
  - congruence.
  - intros k. rewrite H5. destruct (decide (snd k = lo)) as [Hk|Hk].
    + destruct (Hhere k Hk) as (-> & _ & ->). by rewrite Eo, D1, Hk.
    + destruct (Hthere k Hk) as [-> _]. destruct (Hsame k Hk) as (-> & _). by destruct (Hsame (a, snd k) Hk) as (-> & _).
  - intros k. rewrite H6. destruct (decide (snd k = lo)) as [Hk|Hk].
    + destruct (Hhere k Hk) as (-> & _ & ->). by rewrite Eg, D2, orb_false_r.
    + destruct (Hthere k Hk) as [-> _]. by destruct (Hsame k Hk) as (_ & -> & _).
  - intros k. rewrite H7. destruct (decide (snd k = lo)) as [Hk|Hk].
    + destruct (Hhere k Hk) as (-> & -> & ->). rewrite Ek. destruct k as [x q]. simpl in Hk. subst q. unfold spent_in, fupd. simpl.
      rewrite D3. case_decide as Hx.
      * injection Hx as ->. rewrite Z.eqb_refl, Hm, (proj2 (Z.leb_le lo lo)), (proj2 (Z.ltb_lt lo hi)) by lia. done.
      * destruct (Z.eqb_spec x a) as [->|]; [by destruct Hx|]. done.
    + destruct (Hthere k Hk) as [-> ->]. by destruct (Hsame k Hk) as (_ & _ & ->).
Qed.
Lemma range_loop_spec a children end_ : is_u64 end_ -> end_ <= U64MAX - PAGE -> forall fuel page s,
  page_ok page -> cow_wf s -> (forall c, c ∈ children <-> c ∈ copies_in a s) -> end_ - page < Z.of_nat fuel * PAGE ->
  wp (range_loop world mm_members fuel a page end_ children) (okay (fun _ s' => passed a children page end_ s s')) s.
Proof.
  intros Hend Hmax. induction fuel as [|fuel IH]; intros page s Hp Hwf Hch Hfuel; cbn [range_loop].
  { destruct (page <? end_) eqn:Hlt; [unfold PAGE in *; lia|]. apply wp_val, passed_none. lia. }
  destruct (page <? end_) eqn:Hlt; cbn [negb]; [|apply wp_val, passed_none; lia].
  assert (Hnext : u64 (page + PAGE) = page + PAGE) by (apply u64_small; destruct Hp; unfold is_u64, PAGE in *; lia).
  assert (Hp' : page_ok (page + PAGE)).
  { destruct Hp as [Hu Ha]. split; [unfold is_u64, PAGE in *; lia|]. apply page_aligned_spec in Ha. apply page_aligned_spec.
    unfold PAGE in *. rewrite Z.add_mod, Ha by lia. done. }
  eapply wp_seq; [by apply protected_spec|]. intros owed s' [-> ->].
  destruct (mark s (a, page) =? COW_PROT_OWED) eqn:Hm; cbn [negb].
  2:{ rewrite Hnext. eapply wp_weak; [apply IH; [done|done|done|lia]|]. intros u s2 Hs2. apply passed_skip; [done|done|by apply Z.eqb_neq|done]. }
  apply Z.eqb_eq in Hm. eapply wp_seq; [apply retire_each_spec; [done|done|]|].
  { intros c Hc. by apply Hch, elem_copies in Hc as [_ ?]. }
  intros u s1 (Hg & Hh & Hset). eapply wp_seq; [apply prot_set_spec; [done|by apply (gains_wf page s s1 Hg Hwf)|by right]|].
  intros u' s2 Hs2. cbv beta in Hs2.
  assert (Hacts : steps act s1 s2).
  { eapply shift_spend; [|exact Hs2]. intros c Hc Hpar. rewrite (gn_children page s s1 Hg) in Hc. rewrite (gn_mms page s s1 Hg) in Hpar.
    apply Hset, Hch. by apply elem_copies. }
  rewrite (proj2 (Z.ltb_ge (U64MAX - PAGE) page)) by lia. rewrite Hnext. eapply wp_weak.
  { apply IH; [done|eapply acts_wf; [|exact Hacts]; by apply (gains_wf page s s1)| |lia].
    intros c. rewrite Hch, !elem_copies. by rewrite (sh_children _ _ _ _ _ _ _ Hs2), (sh_mms _ _ _ _ _ _ _ Hs2), (gn_children page s s1 Hg), (gn_mms page s s1 Hg). }
  intros u'' s3 Hs3. eapply passed_page; [done|done|lia|done|exact Hg|exact Hh|exact Hacts|exact Hs2|done].
Qed.
Lemma heir_in_self s a cs lo hi q : cow_wf s -> heir_in s a cs lo hi (a, q) = false.
Proof.
  intros Hwf. unfold heir_in. simpl. destruct (mark s (a, q) =? COW_PROT_OWED) eqn:Hm; [|by rewrite andb_false_r].
  apply Z.eqb_eq in Hm. rewrite heir_settled; [by rewrite andb_false_r|]. right. by apply (cw_owed s Hwf).
Qed.
(** The whole of a vacate as far as copies are concerned: the copies that were
    still owed a page of the range have it, the marks of the range are spent,
    the range is out of the object, and all else is as it was. *)
Record vacated (a start len : Z) (s s' : cow_state) : Prop := {
  va_acts : steps act s s';
  va_children : cow_children s' = cow_children s;
  va_mms : mms s' = mms s;
  va_writable : writable s' = filter (fun k => in_punched a start len k = false) (writable s);
  va_objects k : objects s' !! k = if in_punched a start len k then None
                   else zeroed a start len k <$> (if heir_in s a (copies_in a s) start (start + len) k then objects s !! (a, snd k) else objects s !! k);
  va_given k : given s' k = given s k || heir_in s a (copies_in a s) start (start + len) k;
  va_mark k : mark s' k = if spent_in s a start (start + len) k then COW_PROT_SPENT
                else if heir_in s a (copies_in a s) start (start + len) k then COW_PROT_OWED else mark s k
}.
Lemma quiet_heir_in s s' a cs lo hi k : quiet s s' -> heir_in s' a cs lo hi k = heir_in s a cs lo hi k /\ spent_in s' a lo hi k = spent_in s a lo hi k.
Proof. intros [_ _ _ Ho _ Hg Hm _]. unfold heir_in, heir, spent_in. by rewrite Ho, Hg, !Hm. Qed.
Lemma punched_act s s' a start len : cow_wf s -> page_ok start ->
  (forall q, page_ok q -> start <= q < start + len -> mark s (a, q) <> COW_PROT_OWED) ->
  shift s s' (punched a start len (objects s)) (filter (fun k => in_punched a start len k = false) (writable s)) (given s) (mark s) (deliveries s) ->
  steps act s s'.
Proof.
  intros Hwf Hp Hm Hs. apply act_acts, (act_punch _ _ a start len); [|done]. intros [x q] b Howed _.
  unfold in_punched, zeroed. simpl. destruct (Z.eqb_spec x a) as [->|]; [simpl|done].
  pose proof (owed_aligned s a q Hwf Howed) as Hq. rewrite page_start_id by apply Hq.
  assert (Hout : ~ (start < q + PAGE /\ q < start + len)).
  { intros [H1 H2]. apply (Hm q Hq); [|done]. split; [|done]. destruct (Z.le_gt_cases start q) as [|Hlt]; [done|].
    assert (start = q) by (apply page_gap; [done|done|unfold PAGE in *; lia]). lia. }
  split; [|].
  - destruct (start <=? q) eqn:H1, (q + PAGE <=? start + len) eqn:H2; try done. exfalso. apply Hout. unfold PAGE in *. lia.
  - destruct (start <? q + PAGE) eqn:H1, (q <? start + len) eqn:H2; try done. exfalso. apply Hout. lia.
Qed.
Lemma vacate_spec a start len s :
  page_ok start -> 0 < len -> start + len <= I64MAX -> cow_wf s ->
  wp (cow_break_copies_range world mm_members a start len ;; obj_forget world a start len) (okay (fun _ s' => vacated a start len s s')) s.
Proof.
  intros Hp Hlen Hmax Hwf. unfold cow_break_copies_range. pose proof Hp as [Hu _].
  assert (Hend : is_u64 (start + len) /\ start + len <= U64MAX - PAGE) by (unfold is_u64, U64MAX, I64MAX, PAGE in *; lia).
  eapply (wp_seq _ _ (fun _ s1 => exists s0, quiet s s0 /\ passed a (copies_in a s) start (start + len) s0 s1)).
  { eapply wp_seq; [apply copies_spec|]. intros l s0 [Hq ->]. rewrite (proj2 (Z.ltb_ge _ _)) by (unfold U64MAX, I64MAX in *; lia).
    rewrite (proj2 (Z.eqb_neq _ _)) by lia.
    eapply wp_weak; [apply range_loop_spec; [apply Hend|apply Hend|done|by eapply quiet_wf| |]|].
    - intros c. rewrite !elem_copies. by destruct Hq as [-> -> _ _ _ _ _ _].
    - unfold range_fuel, PAGE. pose proof (Z.div_mod len 4096). pose proof (Z.mod_pos_bound len 4096).
      rewrite Z2Nat.id by (pose proof (Z.div_pos len 4096); lia). lia.
    - intros u s1 Hr. by exists s0. }
  intros u s1 (s0 & Hq0 & [H1 H2 H3 H4 H5 H6 H7]). unfold obj_forget. rewrite (proj2 (Z.eqb_neq _ _)) by lia.
  destruct ((I64MAX <? start) || _); [done|].
  eapply wp_seq; [by apply ask_spec|]. intros r s2 (Hq & _ & _). destruct (nz r); [done|]. apply wp_modify.
  assert (Hwf0 : cow_wf s0) by (by eapply quiet_wf). assert (Hwf2 : cow_wf s2) by (eapply quiet_wf; [done|by eapply acts_wf]).
  set (s3 := set_writable _ _). assert (Hs3 : shift s2 s3 (punched a start len (objects s2)) (filter (fun k => in_punched a start len k = false) (writable s2))
    (given s2) (mark s2) (deliveries s2)) by (by split).
  pose proof Hq0 as [Em Ec _ Eo Ew Eg Ek _]. pose proof Hq as [Fm Fc _ Fo Fw Fg Fk _].
  assert (Hh : forall k, heir_in s0 a (copies_in a s) start (start + len) k = heir_in s a (copies_in a s) start (start + len) k /\
    spent_in s0 a start (start + len) k = spent_in s a start (start + len) k) by (intros k; by apply quiet_heir_in).
  split.
  - eapply steps_trans; [by apply quiet_acts|]. eapply steps_trans; [exact H1|]. eapply steps_trans; [by apply quiet_acts|].
    eapply punched_act; [done|done| |exact Hs3]. intros q Hqok Hr. rewrite Fk, H7, heir_in_self by done. unfold spent_in. simpl.
    rewrite Z.eqb_refl, (proj2 (Z.leb_le _ _)), (proj2 (Z.ltb_lt _ _)) by lia. simpl. by destruct (Z.eqb_spec (mark s0 (a, q)) COW_PROT_OWED).
  - unfold s3. cbn. congruence.
  - unfold s3. cbn. congruence.
  - unfold s3. cbn. congruence.
  - intros k. rewrite (sh_objects _ _ _ _ _ _ _ Hs3), punched_lookup, Fo, H5. destruct (Hh k) as [-> _]. by rewrite Eo.
  - intros k. rewrite (sh_given _ _ _ _ _ _ _ Hs3), Fg, H6. destruct (Hh k) as [-> _]. by rewrite Eg.
  - intros k. rewrite (sh_mark _ _ _ _ _ _ _ Hs3), Fk, H7. destruct (Hh k) as [-> ->]. by rewrite Ek.
Qed.

(** *** The walk over the ancestors *)
(** The number of spaces registered no later. *)
Fixpoint rank (id : Z) (l : list (Z * Z)) : nat :=
  match l with
  | [] => O
  | (x, _) :: l' => if x =? id then length l else rank id l'
  end.
Lemma rank_known id l : is_Some (parent_in id l) -> (0 < rank id l <= length l)%nat.
Proof.
  induction l as [|[x y] l IH]; simpl; [by intros [? ?]|]. destruct (x =? id); simpl; [lia|]. intros H. apply IH in H. lia.
Qed.
Lemma rank_le id l : (rank id l <= length l)%nat.
Proof. induction l as [|[x y] l IH]; simpl; [done|]. destruct (x =? id); simpl; lia. Qed.
Lemma rank_parent l id Y : lineage l -> parent_in id l = Some Y -> Y <> 0 -> (0 < rank Y l < rank id l)%nat.
Proof.
  induction l as [|[x y] l IH]; simpl; [done|]. intros (Hx & Hnew & Hy & Hl). destruct (x =? id) eqn:He.
  - intros [= ->] HY. destruct Hy as [|Hy]; [done|]. pose proof (rank_known Y l Hy).
    destruct (x =? Y) eqn:HxY; [|simpl; lia]. apply Z.eqb_eq in HxY. subst. rewrite Hnew in Hy. by destruct Hy.
  - intros Hp HY. destruct (IH Hl Hp HY) as [H1 H2]. destruct (x =? Y) eqn:HxY; [|lia].
    apply Z.eqb_eq in HxY. subst. exfalso. pose proof (rank_known id l (ex_intro _ _ Hp)).
    assert (rank Y l = O) as Hz; [|lia]. clear -Hnew. induction l as [|[x y] l IH]; [done|]. simpl in *. by destruct (x =? Y); auto.
Qed.

(** What the copy is owed, the ancestor at hand owes. *)
Definition owed_by s (c anc p : Z) : Prop := forall b, pending s c p b -> anc <> 0 /\ owes s p b anc.
Lemma owed_right s c anc p relaxed : owed_by s c anc p -> right_page s c anc p relaxed.
Proof. intros H b b' Ho _ [_ Hp]%H. inversion Hp; subst; congruence. Qed.
Lemma owed_parent s c Y p : parent_in c (mms s) = Some Y -> owed_by s c Y p.
Proof. intros Hpar b [Hc H]. inversion H as [|X Z' ? ? ? Hp' ? ?]; subst; [congruence|]. assert (Z' = Y) as -> by congruence. done. Qed.
Lemma owed_next s c anc Y p : owed_by s c anc p -> parent_in anc (mms s) = Some Y ->
  mark s (anc, p) <> COW_PROT_OWED \/ objects s !! (anc, p) = None -> owed_by s c Y p.
Proof.
  intros H Hpar Hno b [_ Hp]%H. inversion Hp as [|X Z' ? ? ? Hp' ? ?]; subst; [destruct Hno; congruence|].
  assert (Z' = Y) as -> by congruence. done.
Qed.
Lemma owed_quiet s s' c anc p : quiet s s' -> owed_by s c anc p -> owed_by s' c anc p.
Proof. intros Hq H b. rewrite (quiet_pending s s'), (quiet_owes s s') by done. apply H. Qed.

Lemma give_chain_spec c p relaxed : reads_ok -> writes_ok -> page_ok p -> forall fuel anc s,
  cow_wf s -> ~ settled s (c, p) -> owed_by s c anc p -> (rank anc (mms s) < fuel)%nat ->
  wp (give_chain world mm_members fuel c anc p relaxed) (okay (fun gave s' => gains p s s' /\
    if gave : bool then exists b, objects s' !! (c, p) = Some b /\ deliveries s' (c, p) = (b, true) :: deliveries s (c, p)
    else forall b, ~ pending s c p b)) s.
Proof.
  intros Hr Hw Hp. induction fuel as [|fuel IH]; intros anc s Hwf Hn Howed Hfuel; [lia|]. cbn [give_chain].
  destruct (anc =? 0) eqn:Hz.
  { apply wp_val. split; [apply quiet_gains, quiet_refl|]. intros b [? _]%Howed. lia. }
  eapply wp_seq; [apply give_spec; [done|done|by apply owed_right]|]. intros gave s1 [Hg Hgave].
  destruct gave.
  { destruct Hgave as (_ & b & _ & _ & [_ _ _ Ho _ _ _ Hd]). apply wp_val. split; [done|]. exists b. by rewrite Ho, Hd, fupd_eq, lookup_insert_eq. }
  destruct Hgave as [Hq Hwhy]. eapply wp_seq; [apply mm_record_spec|].
  intros Y s' [-> HY]. assert (Hwf1 : cow_wf s1) by (by eapply quiet_wf).
  assert (Hnext : owed_by s1 c Y p).
  { apply (owed_next _ _ anc); [by apply (owed_quiet s)|done|]. pose proof Hq as [_ _ _ Ho _ _ Hm _]. rewrite Ho, Hm.
    destruct Hwhy as [?|[[_ ?]|Hnone]]; [done|by left|right; auto]. }
  assert (Hn1 : ~ settled s1 (c, p)) by (by rewrite (quiet_settled_iff s s1)).
  destruct (decide (Y = 0)) as [->|HY0].
  { destruct fuel; cbn [give_chain]; (apply wp_val; split; [done|]; intros b; rewrite <- (quiet_pending s s1) by done; by intros [? _]%Hnext). }
  eapply wp_weak; [apply (IH Y s1 Hwf1 Hn1 Hnext)|].
  - pose proof (rank_parent _ _ _ (cw_mms s1 Hwf1) HY HY0). pose proof Hq as [Hm _ _ _ _ _ _ _]. rewrite Hm in *. lia.
  - intros gave s2 [Hg2 Hset]. split; [by eapply gains_trans|]. destruct gave; [|intros b; rewrite <- (quiet_pending s s1) by done; auto].
    destruct Hset as (b & Ho & Hd). exists b. by rewrite Ho, Hd, (sh_deliveries _ _ _ _ _ _ _ Hq).
Qed.
Lemma from_chain_spec c p relaxed s : reads_ok -> writes_ok -> page_ok p -> cow_wf s ->
  wp (cow_give_from_chain_mode world mm_members c p relaxed) (okay (fun gave s' => gains p s s' /\
    if gave : bool then exists b, objects s' !! (c, p) = Some b /\ deliveries s' (c, p) = (b, true) :: deliveries s (c, p)
    else forall b, ~ pending s c p b)) s.
Proof.
  intros Hr Hw Hp Hwf. unfold cow_give_from_chain_mode. eapply wp_seq; [by apply already_spec|]. intros own s' [-> Hown].
  destruct own.
  { apply wp_val. split; [apply quiet_gains, quiet_refl|]. intros b [Ho H]. inversion H; subst; [congruence|].
    destruct (proj1 Hown eq_refl) as [|[x Hx]]; congruence. }
  eapply wp_seq; [apply mm_record_spec|]. intros Y s' [-> HY].
  eapply wp_seq; [by apply (wp_state _ (fun f s' => s' = s /\ f = chain_fuel s))|]. intros fuel s' [-> ->].
  apply give_chain_spec; [done|done|done|done|intros H%Hown; done|by apply owed_parent|].
  unfold chain_fuel. pose proof (rank_le Y (mms s)). lia.
Qed.

(** *** A page asked for by the source *)
(** Whether the owner called the page shared (SharedLayout). *)
Context (shared_range_has : Z -> Z -> bool).
Lemma ancestor_spec c p strict : reads_ok -> page_ok p -> forall fuel anc s,
  cow_wf s -> owed_by s c anc p -> (rank anc (mms s) < fuel)%nat ->
  wp (ancestor_page world mm_members fuel anc p strict) (okay (fun d s' => quiet s s' /\
    forall b, d = Some b -> forall b', pending s c p b' -> b' = b)) s.
Proof.
  intros Hr Hp. induction fuel as [|fuel IH]; intros anc s Hwf Howed Hfuel; [lia|]. cbn [ancestor_page].
  destruct (anc =? 0); [apply wp_val; split; [apply quiet_refl|done]|].
  eapply (wp_seq _ _ (fun owed s' => s' = s /\ (owed = false -> mark s (anc, p) <> COW_PROT_OWED))).
  { destruct strict; [|by apply wp_val]. eapply wp_weak; [by apply protected_spec|]. intros o s' [-> ->]. split; [done|]. intros. by apply Z.eqb_neq. }
  intros owed s' [-> Hm].
  eapply (wp_seq _ _ (fun d s' => quiet s s' /\ match d with Some b => objects s !! (anc, p) = Some b
                                   | None => mark s (anc, p) <> COW_PROT_OWED \/ objects s !! (anc, p) = None end)).
  { destruct owed; [|apply wp_val; split; [apply quiet_refl|left; auto]].
    eapply wp_weak; [by apply page_read_spec|]. intros d s' [Hq Hd]. split; [done|]. destruct d; [done|right; auto]. }
  intros d s1 [Hq Hd]. destruct d as [b|].
  { apply wp_val. split; [done|]. intros x [= <-] b' [_ Hpend]%Howed. inversion Hpend; subst; congruence. }
  eapply wp_seq; [apply mm_record_spec|]. intros Y s' [-> HY]. assert (Hwf1 : cow_wf s1) by (by eapply quiet_wf).
  assert (Hnext : owed_by s1 c Y p).
  { apply (owed_next _ _ anc); [by apply (owed_quiet s)|done|]. pose proof Hq as [_ _ _ Ho _ _ Hmk _]. by rewrite Ho, Hmk. }
  destruct (decide (Y = 0)) as [->|HY0]; [destruct fuel; cbn [ancestor_page]; (apply wp_val; split; [done|done])|].
  eapply wp_weak; [apply (IH Y s1 Hwf1 Hnext)|].
  - pose proof (rank_parent _ _ _ (cw_mms s1 Hwf1) HY HY0). pose proof Hq as [Hmm _ _ _ _ _ _ _]. rewrite Hmm in *. lia.
  - intros d s2 [Hq2 Hb]. split; [by eapply quiet_trans|]. intros b Hdb b' Hpend. apply (Hb b Hdb). by rewrite (quiet_pending s s1).
Qed.
Lemma read_as_spec c p s : page_ok p -> wp (page_read_as world mm_members shared_range_has c p) (okay (fun h s' => quiet s s')) s.
Proof.
  intros Hp. unfold page_read_as. eapply wp_seq; [by apply (wp_state _ (fun _ s' => s' = s))|]. intros members s' ->.
  eapply wp_seq; [by apply peek_spec|]. intros d s1 [Hq _]. destruct d; [by apply wp_val|]. destruct (shared_range_has c p).
  { eapply wp_seq; [by apply ask_spec|]. intros r s2 (Hq2 & _). by apply wp_val, (quiet_trans s s1 s2). }
  eapply wp_seq; [by apply backing_spec|]. intros has s' [-> _]. destruct has; cbn [negb]; [|by apply wp_val].
  eapply wp_seq; [by apply ask_spec|]. intros r s2 (Hq2 & _). by apply wp_val, (quiet_trans s s1 s2).
Qed.
Lemma cowbreak_spec c p len s : reads_ok -> page_ok p -> cow_wf s ->
  wp (serve_cowbreak world mm_members shared_range_has c p len) (okay (fun d s' =>
    match d with BreakPage _ _ => exists s1, quiet s s1 /\ sent s1 s' c p | _ => quiet s s' end)) s.
Proof.
  intros Hr Hp Hwf. unfold serve_cowbreak. eapply wp_seq; [apply mm_record_spec|]. intros Y s' [-> HY].
  eapply wp_seq; [by apply already_spec|]. intros own s' [-> Hown].
  eapply wp_seq; [by apply (wp_state _ (fun f s' => s' = s /\ f = chain_fuel s))|]. intros fuel s' [-> ->].
  set (Q := fun (d : option bytes) s' => quiet s s' /\ forall b, d = Some b -> own = false /\ forall b', pending s c p b' -> b' = b).
  assert (Hwalk : forall strict s1, quiet s s1 -> own = false ->
    wp (ancestor_page world mm_members (chain_fuel s) Y p strict) (okay Q) s1).
  { intros strict s1 Hq Ho. eapply wp_weak; [apply (ancestor_spec c); [done|done|by eapply quiet_wf|by apply (owed_quiet s), owed_parent|]|].
    - unfold chain_fuel. pose proof Hq as [-> _ _ _ _ _ _ _]. pose proof (rank_le Y (mms s)). lia.
    - intros d s2 [Hq2 Hb]. split; [by eapply quiet_trans|]. intros b Hd. split; [done|]. intros b' Hp'. apply (Hb b Hd). by rewrite (quiet_pending s s1). }
  assert (Hnone : forall s1, quiet s s1 -> Q None s1) by (intros s1 Hq; split; [done|done]).
  apply (wp_seq _ _ Q); [destruct own; cbn [orb]; [|destruct (Y =? 0)]; try (apply wp_val, Hnone, quiet_refl); apply Hwalk; [apply quiet_refl|done]|].
  intros d s1 HQ. apply (wp_seq _ _ Q).
  { destruct d as [b|]; [by apply wp_val|]. destruct ((len =? 1) && negb own && nz Y) eqn:Hc; cbn [negb]; [|by apply wp_val].
    apply Hwalk; [apply HQ|]. by destruct own, (len =? 1). }
  intros d' s2 [Hq Hd]. destruct d' as [b|].
  2:{ eapply wp_seq; [by apply read_as_spec|]. intros here s3 Hq3. destruct here; [by apply wp_val, (quiet_trans s s2 s3)|].
      eapply wp_seq; [by apply ask_spec|]. intros r s4 (Hq4 & _). apply wp_val. by eapply quiet_trans, quiet_trans. }
  destruct (Hd b eq_refl) as [Ho Hb].
  eapply wp_seq; [apply give_note_spec; [done|by apply (quiet_wf s s2)]|]. intros u s3 Hs3. cbv beta in Hs3.
  unfold ask, mbind, prog_bind, wp. cbn [fst snd]. apply wp_val. exists s2. split; [done|]. exists b, (0 <=? world (calls s3) (Send c p b)).
  split; [rewrite (quiet_settled_iff s s2) by done; intros H%Hown; congruence|].
  split; [intros b'; rewrite (quiet_pending s s2) by done; apply Hb|].
  destruct Hs3 as [Hm3 Hc3 Hr3 Ho3 Hw3 Hg3 Hk3 Hd3]. split; try done. intros k. unfold deliveries. cbn [calls set_calls delivered].
  unfold fupd. specialize (Hd3 k). unfold deliveries in Hd3. rewrite Hd3.
  case_bool_decide as Hk; [by rewrite decide_True; subst|by rewrite decide_False].
Qed.

(** *** Publishing a copy *)
(** As [okay], for a program that may also fail after some transitions. *)
Definition tried {A} (s0 : cow_state) (P : A -> cow_state -> Prop) (r : result A) (s : cow_state) : Prop :=
  match r with Ok a => P a s | Err _ => steps act s0 s | Aborted => True | _ => False end.
Lemma wp_try {A B} (m : M A) (k : A -> M B) (P : A -> cow_state -> Prop) (Q : B -> cow_state -> Prop) s0 s :
  wp m (tried s0 P) s -> (forall a s', P a s' -> wp (k a) (tried s0 Q) s') -> wp (m ≫= k) (tried s0 Q) s.
Proof. intros Hm Hk. apply wp_bind. eapply wp_mono; [exact Hm|]. intros [] s'; simpl; auto. Qed.
Lemma okay_tried {A} (m : M A) (P : A -> cow_state -> Prop) s0 s : wp m (okay P) s -> wp m (tried s0 P) s.
Proof. intros Hm. eapply wp_mono; [exact Hm|]. by intros [] s'; simpl. Qed.

(** What the protection pass leaves alone. *)
Record arming (s s' : cow_state) : Prop := {
  am_acts : steps act s s';
  am_children : cow_children s' = cow_children s;
  am_mms : mms s' = mms s;
  am_objects : objects s' = objects s;
  am_given k : given s' k = given s k;
  am_deliveries k : deliveries s' k = deliveries s k;
  am_mark k : mark s k = COW_PROT_OWED -> mark s' k = COW_PROT_OWED
}.
Lemma arming_refl s : arming s s.
Proof. split; [constructor|done..]. Qed.
Lemma arming_trans s s1 s2 : arming s s1 -> arming s1 s2 -> arming s s2.
Proof.
  intros [] []. split; [by eapply steps_trans|congruence|congruence|congruence|..]; intros k;
    [by rewrite am_given1|by rewrite am_deliveries1|auto].
Qed.
Lemma arming_quiet s s' : quiet s s' -> arming s s'.
Proof.
  intros Hq. pose proof Hq as [Hm Hc _ Ho _ Hg Hk Hd]. split; [by apply quiet_acts|done|done|done|done|done|].
  intros k. by rewrite Hk.
Qed.
Lemma arming_wf s s' : arming s s' -> cow_wf s -> cow_wf s'.
Proof. intros [] Hwf. by eapply acts_wf. Qed.

Lemma ctl_protect_spec a p s :
  wp (ctl_protect world a p) (okay (fun r s' => arming s s' /\ (exists h, r = world h (ProtectBacking a p)) /\ (0 <= r -> (a, p) ∉ writable s'))) s.
Proof.
  unfold ctl_protect. eapply wp_seq; [by apply ask_spec|]. intros r s1 (Hq & -> & _). unfold wp.
  destruct (0 <=? world (calls s) (ProtectBacking a p)) eqn:Hr; simpl.
  - set (s2 := set_writable _ s1). split; [|split; [eauto|set_solver]]. eapply arming_trans; [by apply arming_quiet|].
    split; [|done..]. by eapply act_acts, (act_protect _ _ a p).
  - split; [by apply arming_quiet|]. split; [eauto|lia].
Qed.
Lemma protect_retry_spec a p tries : forall r s, (exists h, r = world h (ProtectBacking a p)) -> (0 <= r -> (a, p) ∉ writable s) ->
  wp (protect_retry world tries a p r) (okay (fun r s' => arming s s' /\ (exists h, r = world h (ProtectBacking a p)) /\ (0 <= r -> (a, p) ∉ writable s'))) s.
Proof.
  induction tries as [|tries IH]; intros r s Hr Hw; cbn [protect_retry]; [by apply wp_val; split; [apply arming_refl|]|].
  destruct (r =? - EBUSY); [|by apply wp_val; split; [apply arming_refl|]].
  eapply wp_seq; [apply ctl_protect_spec|]. intros r1 s1 (Ha & Hr1 & Hw1). eapply wp_weak; [by apply IH|].
  intros r2 s2 (Ha2 & ? & ?). split; [by eapply arming_trans|done].
Qed.
(** PROTECT_BACKING answers with the page's size, with 0 when nothing maps the
    page, or with an error. *)
Definition protect_answers : Prop := forall h a p,
  world h (ProtectBacking a p) = PAGE \/ world h (ProtectBacking a p) = 0 \/ world h (ProtectBacking a p) < 0.
Lemma protect_page_spec a p s0 s : protect_answers -> cow_wf s0 -> arming s0 s -> is_Some (objects s !! (a, p)) ->
  wp (protect_page world shared_range_has a p) (tried s0 (fun _ s' => arming s s' /\
    (shared_range_has a p = false -> mark s' (a, p) = COW_PROT_OWED))) s.
Proof.
  intros Hans Hwf0 H0 Hheld. assert (Hwf : cow_wf s) by (by eapply arming_wf). unfold protect_page.
  destruct (shared_range_has a p); [unfold wp; simpl; split; [apply arming_refl|done]|].
  assert (Hp : page_ok p) by (by apply (cw_aligned s Hwf a)).
  eapply wp_try; [apply okay_tried, ctl_protect_spec|]. intros r s1 (Ha1 & Hr & Hw).
  eapply wp_try; [by apply okay_tried, protect_retry_spec|]. clear r Hr Hw. intros r s2 (Ha2 & [h Hr] & Hw).
  assert (Ha : arming s s2) by (by eapply arming_trans).
  destruct ((r =? PAGE) || (r =? 0)) eqn:Hc.
  - apply okay_tried. eapply wp_weak; [apply prot_set_spec; [done|by apply (arming_wf s s2)|by left]|].
    intros u s3 Hs3. cbv beta in Hs3. pose proof Hs3 as [Hm Hch _ Ho _ Hg Hk Hd]. split; [|by rewrite Hk, fupd_eq].
    eapply arming_trans; [exact Ha|]. split; [|done..|].
    + apply act_acts, (act_arm _ _ a p); [by rewrite (am_objects s s2 Ha)| |done]. apply Hw. apply orb_true_iff in Hc as [Hc|Hc]; unfold PAGE in *; lia.
    + intros k Hk'. rewrite Hk. unfold fupd. by case_decide.
  - destruct (r <? 0) eqn:Hneg; [unfold wp; simpl; by eapply steps_trans; [apply H0|apply Ha]|].
    destruct (Hans h a p) as [?|[?|?]]; lia.
Qed.
Lemma protect_pages_spec a pages : protect_answers -> forall s0 s, cow_wf s0 -> arming s0 s ->
  (forall p, p ∈ pages -> is_Some (objects s !! (a, p))) ->
  wp (protect_pages world shared_range_has a pages) (tried s0 (fun _ s' => arming s s' /\
    forall p, p ∈ pages -> shared_range_has a p = false -> mark s' (a, p) = COW_PROT_OWED)) s.
Proof.
  intros Hans. induction pages as [|p pages IH]; intros s0 s Hwf0 H0 Hheld; cbn [protect_pages].
  { eapply wp_try; [by apply okay_tried, ask_spec|]. intros r s1 (Hq & _ & _). destruct (r =? - ENXIO); unfold wp; simpl.
    - split; [by apply arming_quiet|]. intros p Hp%elem_of_nil. done.
    - eapply steps_trans; [apply H0|by apply quiet_acts]. }
  eapply wp_try; [by apply okay_tried, ask_spec|]. intros r s1 (Hq & _ & _). assert (Ha1 : arming s s1) by (by apply arming_quiet).
  destruct (r <? 0); [unfold wp; simpl; eapply steps_trans; [apply H0|apply Ha1]|].
  eapply wp_try; [apply protect_page_spec; [done|done|by eapply arming_trans|rewrite (am_objects s s1 Ha1); apply Hheld; by left]|].
  intros u s2 [Ha2 Hm2]. assert (Ha : arming s s2) by (by eapply arming_trans).
  eapply wp_mono; [apply (IH s0 s2 Hwf0)|].
  - by eapply arming_trans.
  - intros q Hq'. rewrite (am_objects s s2 Ha). apply Hheld. by right.
  - intros [u'| | | |] s3; simpl; try done. intros [Ha3 Hm3]. split; [by eapply arming_trans|].
    intros q [->|Hq']%elem_of_cons Hsh; [apply (am_mark s2 s3 Ha3); auto|auto].
Qed.
Lemma elem_held a p s : p ∈ held_pages a s <-> is_Some (objects s !! (a, p)).
Proof.
  unfold held_pages. rewrite merge_sort_Permutation, list_elem_of_fmap. setoid_rewrite list_elem_of_filter. split.
  - intros ([x q] & -> & Hx & Hin). simpl in *. subst. apply list_elem_of_fmap in Hin as ([k b] & -> & Hin).
    apply elem_of_map_to_list in Hin. by exists b.
  - intros [b Hb]. exists (a, p). split; [done|]. split; [done|]. apply list_elem_of_fmap. exists ((a, p), b). split; [done|].
    by apply elem_of_map_to_list.
Qed.

(** A child that nothing has been recorded of. *)
Record fresh_child (s : cow_state) (kid parent : Z) : Prop := {
  fc_known : parent_in kid (mms s) = Some parent;
  fc_parent : parent <> 0;
  fc_new : kid ∉ cow_children s;
  fc_objects p : objects s !! (kid, p) = None;
  fc_given p : given s (kid, p) = false
}.
Lemma note_pages_spec kid pages : Forall page_ok pages -> forall s,
  cow_wf s -> kid ∉ cow_children s -> (forall p, objects s !! (kid, p) = None) ->
  wp (note_source_pages world kid pages) (okay (fun _ s' => steps act s s' /\ cow_children s' = cow_children s /\ mms s' = mms s /\
    objects s' = objects s /\ (forall k, mark s' k = mark s k) /\ (forall k, deliveries s' k = deliveries s k) /\
    (forall k, fst k <> kid -> given s' k = given s k) /\ (forall p, p ∉ pages -> given s' (kid, p) = given s (kid, p)))) s.
Proof.
  induction 1 as [|p pages Hp _ IH]; intros s Hwf Hnew Ho; cbn [note_source_pages]; [by apply wp_val; split; [constructor|]|].
  eapply wp_seq; [apply give_note_spec; [done|apply Hwf]|]. intros u s1 Hs1. cbv beta in Hs1.
  assert (Hact : act s s1) by (by apply (act_note _ _ kid p)). pose proof Hs1 as [Hm1 Hc1 _ Ho1 _ Hg1 Hk1 Hd1].
  eapply wp_weak; [apply IH; [by eapply act_wf|by rewrite Hc1|by intros q; rewrite Ho1]|].
  intros u' s2 (Hs2 & Hc2 & Hm2 & Ho2 & Hk2 & Hd2 & Hg2 & Hg2').
  split; [eapply steps_trans; [by apply act_acts|done]|]. split; [congruence|]. split; [congruence|]. split; [congruence|].
  split; [intros k; by rewrite Hk2|]. split; [intros k; by rewrite Hd2|]. split.
  - intros k Hk. rewrite Hg2 by done. rewrite Hg1, fupd_ne; [done|]. by intros ->.
  - intros q Hq. rewrite Hg2' by set_solver. rewrite Hg1, fupd_ne; [done|]. intros [= ->]. set_solver.
Qed.

(** What a copy inherits: the pages its parent's object holds, and those the
    parent is itself still owed; not the shared ones, nor those that are with
    the source. *)
Definition inherits (s : cow_state) (parent : Z) (source_pages : list Z) (p : Z) (b : bytes) : Prop :=
  (p ∉ source_pages) /\ (objects s !! (parent, p) = Some b /\ shared_range_has parent p = false \/ pending s parent p b).
Lemma admit_spec kid parent s : parent_in kid (mms s) = Some parent -> parent <> 0 -> kid ∉ cow_children s ->
  wp (cow_admit_mm world kid) (okay (fun _ s' => exists s1, quiet s s1 /\ s' = set_children (kid :: cow_children s1) s1)) s.
Proof.
  intros Hpar Hp Hnew. unfold cow_admit_mm. eapply wp_seq; [apply mm_record_spec|]. intros Y s' [-> HY].
  rewrite Hpar in HY. injection HY as <-. rewrite (proj2 (Z.eqb_neq parent 0) Hp).
  eapply wp_seq; [apply (wp_state _ (fun b s' => s' = s /\ b = false))|].
  { split; [done|]. by apply bool_decide_eq_false. }
  intros b s' [-> ->]. eapply wp_seq; [by apply ask_spec|]. intros got s1 (Hq & _ & _).
  destruct (got =? 0); [done|]. apply wp_modify. eauto.
Qed.
Lemma publish_copy_spec kid parent src s : protect_answers -> cow_wf s -> fresh_child s kid parent -> Forall page_ok src ->
  wp (publish_copy world shared_range_has kid parent src) (tried s (fun _ s' => steps act s s' /\
    (forall k, deliveries s' k = deliveries s k) /\ forall p b, inherits s parent src p b -> pending s' kid p b)) s.
Proof.
  intros Hans Hwf [Hkn Hpar Hnew Hobj Hgiv] Hsrc. unfold publish_copy.
  eapply wp_try; [by apply okay_tried, note_pages_spec|].
  intros u s1 (Hs1 & Hc1 & Hm1 & Ho1 & Hk1 & Hd1 & _ & Hg1). cbv beta.
  eapply wp_try; [apply okay_tried, (admit_spec kid parent); [by rewrite Hm1|done|by rewrite Hc1]|].
  intros u' s2 (s1' & Hq & ->). set (s2 := set_children _ _).
  pose proof Hq as [Hm2 Hc2 _ Ho2 _ Hg2 Hk2 Hd2].
  assert (Hacts2 : steps act s s2).
  { eapply steps_trans; [exact Hs1|]. eapply steps_trans; [by apply quiet_acts|]. apply act_acts. by eapply act_admit. }
  unfold cow_protect_address_space. eapply wp_try; [apply okay_tried, mm_record_spec|]. intros Y s' [-> _].
  eapply wp_try; [apply okay_tried, (wp_state _ (fun l s' => s' = s2 /\ l = held_pages parent s2)); done|].
  intros l s' [-> ->]. assert (Hwf2 : cow_wf s2) by (by eapply acts_wf).
  eapply wp_mono; [apply (protect_pages_spec parent (held_pages parent s2) Hans s2 s2 Hwf2 (arming_refl s2)); intros p; by rewrite elem_held|].
  intros [u''|e| | |] s3; simpl; try done; [|intros; by eapply steps_trans].
  intros [Ha Hmark]. pose proof Ha as [Ha3 Hc3 Hm3 Ho3 Hg3 Hd3 Hk3].
  assert (Hacts3 : steps act s s3) by (by eapply steps_trans).
  assert (Hobj3 : objects s3 = objects s) by (rewrite Ho3; subst s2; cbn [objects set_children]; congruence).
  assert (Hdel : forall k, deliveries s3 k = deliveries s k).
  { intros k. rewrite Hd3. change (deliveries s2 k) with (deliveries s1' k). by rewrite Hd2, Hd1. }
  split; [done|]. split; [done|]. intros p b [Hp Hinh]. split; [by rewrite Hobj3|].
  apply (owes_up _ _ _ kid parent); [by rewrite Hobj3| | | |done|].
  - rewrite Hg3. change (given s2 (kid, p)) with (given s1' (kid, p)). by rewrite Hg2, Hg1.
  - rewrite Hc3. by left.
  - rewrite Hm3. change (mms s2) with (mms s1'). by rewrite Hm2, Hm1.
  - destruct Hinh as [[Hb Hsh]|Hpend].
    + apply owes_here; [by rewrite Hobj3|]. apply Hmark; [|done]. apply elem_held. rewrite <- Ho3, Hobj3. by eexists.
    + destruct (acts_pending s s3 parent p b Hwf Hacts3 Hpend) as [[[_ ?] _]|[_ [ok Hbad]]]; [done|].
      rewrite Hdel in Hbad. exfalso. by apply (f_equal length) in Hbad; simpl in Hbad; lia.
Qed.

(** ** Runs

    The critical sections of the monitor, the guests' stores, pages that arrive
    from the source, and address spaces coming into being, in any order.  A
    page arrives only where no ancestor owes it, since the source answers such
    a fault with a break. *)
Inductive cow_step (s s' : cow_state) : Prop :=
| step_grant a p r : page_ok p -> is_Some (objects s !! (a, p)) ->
    snapshot_map_object world mm_members a p s = (Ok r, s') -> cow_step s s'
| step_take a cmd p r : page_ok p -> snapshot_take_page world mm_members a cmd p s = (Ok r, s') -> cow_step s s'
| step_break a p all : page_ok p -> cow_break_copies world mm_members a p s = (Ok all, s') -> cow_step s s'
| step_vacate a start len : page_ok start -> 0 < len -> start + len <= I64MAX ->
    (cow_break_copies_range world mm_members a start len ;; obj_forget world a start len) s = (Ok tt, s') -> cow_step s s'
| step_chain c p relaxed gave : page_ok p ->
    cow_give_from_chain_mode world mm_members c p relaxed s = (Ok gave, s') -> cow_step s s'
| step_cowbreak c p len d : page_ok p ->
    serve_cowbreak world mm_members shared_range_has c p len s = (Ok d, s') -> cow_step s s'
| step_publish kid parent src r : fresh_child s kid parent -> Forall page_ok src -> r = Ok tt \/ (exists e, r = Err e) ->
    publish_copy world shared_range_has kid parent src s = (r, s') -> cow_step s s'
| step_register id parent : lineage ((id, parent) :: mms s) -> s' = set_mms ((id, parent) :: mms s) s -> cow_step s s'
| step_store a p b : (a, p) ∈ writable s -> s' = set_objects (<[(a, p) := b]> (objects s)) s -> cow_step s s'
| step_arrive a p b : page_ok p -> objects s !! (a, p) = None -> (forall b', ~ owes s p b' a) ->
    s' = set_objects (<[(a, p) := b]> (objects s)) s -> cow_step s s'.

End specs.

(** ** Runs in which no access to an object fails

    A run whose reads and writes of objects all succeeded is a run of the
    machine on which none can fail. *)
Definition access_ok (x : call * Z) : Prop := match fst x with Pread _ _ | Pwrite _ _ _ => snd x = PAGE | _ => True end.
Definition access_okb (x : call * Z) : bool := match fst x with Pread _ _ | Pwrite _ _ _ => snd x =? PAGE | _ => true end.
Lemma access_okb_spec x : access_okb x = true -> access_ok x.
Proof. destruct x as [[] r]; simpl; try done; apply Z.eqb_eq. Qed.
Definition sound (world : history -> call -> Z) (h : history) (q : call) : Z :=
  match q with Pread _ _ | Pwrite _ _ _ => PAGE | _ => world h q end.
(** The calls between two states. *)
Definition clean (s s' : cow_state) : Prop := exists new, calls s' = new ++ calls s /\ Forall access_ok new.
Lemma clean_split s s1 s2 : (exists new, calls s1 = new ++ calls s) -> (exists new, calls s2 = new ++ calls s1) -> clean s s2 -> clean s s1 /\ clean s1 s2.
Proof.
  intros [n1 H1] [n2 H2] (new & H & Hf). rewrite H2, H1, app_assoc in H. apply app_inv_tail in H. subst new.
  apply Forall_app in Hf as [? ?]. split; [by exists n1|by exists n2].
Qed.
(** [m'] is [m] on the other machine. *)
Class Agree {A} (m m' : M A) : Prop :=
  agree s : (exists new, calls (m s).2 = new ++ calls s) /\ (clean s (m s).2 -> m' s = m s).
Section agreement.
Context (world : history -> call -> Z) (mm_members : history -> Z -> list Z) (shared_range_has : Z -> Z -> bool).
Abbreviation w' := (sound world).
#[local] Instance agree_ret {A} (a : A) : Agree (mret a) (mret a).
Proof. intros s. split; [by exists []|done]. Qed.
#[local] Instance agree_stop {A} (r : result A) : Agree (stop r) (stop r).
Proof. intros s. split; [by exists []|done]. Qed.
#[local] Instance agree_get {A} (f : cow_state -> A) : Agree (get f) (get f).
Proof. intros s. split; [by exists []|done]. Qed.
#[local] Instance agree_objects f : Agree (modify (fun s => set_objects (f s) s)) (modify (fun s => set_objects (f s) s)).
Proof. intros s. split; [by exists []|done]. Qed.
#[local] Instance agree_punch f g : Agree (modify (fun s => set_writable (g s) (set_objects (f s) s))) (modify (fun s => set_writable (g s) (set_objects (f s) s))).
Proof. intros s. split; [by exists []|done]. Qed.
#[local] Instance agree_writable f : Agree (modify (fun s => set_writable (f s) s)) (modify (fun s => set_writable (f s) s)).
Proof. intros s. split; [by exists []|done]. Qed.
#[local] Instance agree_records f g : Agree (modify (fun s => set_records (f s) (g s) s)) (modify (fun s => set_records (f s) (g s) s)).
Proof. intros s. split; [by exists []|done]. Qed.
#[local] Instance agree_children f : Agree (modify (fun s => set_children (f s) s)) (modify (fun s => set_children (f s) s)).
Proof. intros s. split; [by exists []|done]. Qed.
#[local] Instance agree_record id : Agree (mm_record id) (mm_record id).
Proof. intros s. unfold mm_record. destruct (parent_in id (mms s)); (split; [by exists []|done]). Qed.
#[local] Instance agree_ask q : Agree (ask world q) (ask w' q).
Proof.
  intros s. split; [by eexists [_]|]. intros (new & H & Hf). unfold ask in *. cbn [snd calls set_calls] in *.
  change ((q, world (calls s) q) :: calls s) with ([(q, world (calls s) q)] ++ calls s) in H. apply app_inv_tail in H. subst new.
  apply Forall_inv in Hf. assert (sound world (calls s) q = world (calls s) q) as -> by (destruct q; simpl in *; done). done.
Qed.
#[local] Instance agree_bind {A B} (m m' : M A) (k k' : A -> M B) : Agree m m' -> (forall a, Agree (k a) (k' a)) -> Agree (m ≫= k) (m' ≫= k').
Proof.
  intros Hm Hk s. unfold mbind, prog_bind. destruct (Hm s) as [Hc He]. destruct (m s) as [r s1]. cbn [snd] in Hc, He.
  destruct r as [a| | | |]; cbn [snd]; try (split; [done|]; intros Hcl; by rewrite He).
  destruct (Hk a s1) as [Hc1 He1]. split.
  - destruct Hc as [n1 H1], Hc1 as [n2 H2]. exists (n2 ++ n1). by rewrite H2, H1, app_assoc.
  - intros Hcl. destruct (clean_split s s1 (k a s1).2 Hc Hc1 Hcl) as [Hcl1 Hcl2]. by rewrite He, He1.
Qed.
#[local] Instance agree_if {A} (b : bool) (m n m' n' : M A) : Agree m m' -> Agree n n' -> Agree (if b then m else n) (if b then m' else n').
Proof. by destruct b. Qed.
#[local] Instance agree_option {A B} (o : option B) (m m' : M A) (k k' : B -> M A) :
  Agree m m' -> (forall b, Agree (k b) (k' b)) -> Agree (match o with Some b => k b | None => m end) (match o with Some b => k' b | None => m' end).
Proof. intros. by destruct o. Qed.
#[local] Instance agree_list {A B} (o : list B) (m m' : M A) (k k' : B -> list B -> M A) :
  Agree m m' -> (forall b l, Agree (k b l) (k' b l)) -> Agree (match o with b :: l => k b l | [] => m end) (match o with b :: l => k' b l | [] => m' end).
Proof. intros. by destruct o. Qed.

#[local] Instance agree_find a p c : Agree (cow_record_find world a p c) (cow_record_find w' a p c).
Proof. unfold cow_record_find. apply _. Qed.
#[local] Instance agree_note a p : Agree (cow_give_note world a p) (cow_give_note w' a p).
Proof. unfold cow_give_note, record_write. apply _. Qed.
#[local] Instance agree_set a p m : Agree (cow_prot_set world a p m) (cow_prot_set w' a p m).
Proof. unfold cow_prot_set, record_write. apply _. Qed.
#[local] Instance agree_state a p : Agree (cow_prot_state world a p) (cow_prot_state w' a p).
Proof. unfold cow_prot_state. apply _. Qed.
#[local] Instance agree_protected a p : Agree (cow_is_protected world a p) (cow_is_protected w' a p).
Proof. unfold cow_is_protected. apply _. Qed.
#[local] Instance agree_backing a p : Agree (mm_backing_has a p) (mm_backing_has a p).
Proof. unfold mm_backing_has. apply _. Qed.
#[local] Instance agree_already c p : Agree (already_has world c p) (already_has w' c p).
Proof. unfold already_has, cow_was_given. apply _. Qed.
#[local] Instance agree_peek id p l : Agree (peek_first world id p l) (peek_first w' id p l).
Proof. induction l; cbn [peek_first]; apply _. Qed.
#[local] Instance agree_read id p : Agree (mm_page_read world mm_members id p) (mm_page_read w' mm_members id p).
Proof. unfold mm_page_read. apply _. Qed.
#[local] Instance agree_give c f p relaxed : Agree (cow_give_page_mode world mm_members c f p relaxed) (cow_give_page_mode w' mm_members c f p relaxed).
Proof. unfold cow_give_page_mode, mm_obj_write. apply _. Qed.
#[local] Instance agree_chain fuel c anc p relaxed : Agree (give_chain world mm_members fuel c anc p relaxed) (give_chain w' mm_members fuel c anc p relaxed).
Proof. revert anc. induction fuel; intros anc; cbn [give_chain]; unfold forked_from; apply _. Qed.
#[local] Instance agree_from_chain c p relaxed : Agree (cow_give_from_chain_mode world mm_members c p relaxed) (cow_give_from_chain_mode w' mm_members c p relaxed).
Proof. unfold cow_give_from_chain_mode, forked_from. apply _. Qed.
#[local] Instance agree_break_each a p l : Agree (break_each world mm_members a p l) (break_each w' mm_members a p l).
Proof. induction l; cbn [break_each]; unfold cow_give_page; apply _. Qed.
#[local] Instance agree_copies a : Agree (cow_copies_of world a) (cow_copies_of w' a).
Proof. unfold cow_copies_of. apply _. Qed.
#[local] Instance agree_break a p : Agree (cow_break_copies world mm_members a p) (cow_break_copies w' mm_members a p).
Proof. unfold cow_break_copies. apply _. Qed.
#[local] Instance agree_map a p : Agree (snapshot_map_object world mm_members a p) (snapshot_map_object w' mm_members a p).
Proof. unfold snapshot_map_object, ctl_mapobj. apply _. Qed.
#[local] Instance agree_take a cmd p : Agree (snapshot_take_page world mm_members a cmd p) (snapshot_take_page w' mm_members a cmd p).
Proof. unfold snapshot_take_page, ctl_take. apply _. Qed.
#[local] Instance agree_retire a p l : Agree (retire_each world mm_members a p l) (retire_each w' mm_members a p l).
Proof. induction l; cbn [retire_each]; unfold cow_give_page; apply _. Qed.
#[local] Instance agree_range fuel a p e l : Agree (range_loop world mm_members fuel a p e l) (range_loop w' mm_members fuel a p e l).
Proof. revert p. induction fuel; intros p; cbn [range_loop]; apply _. Qed.
#[local] Instance agree_vacate a start len : Agree (cow_break_copies_range world mm_members a start len ;; obj_forget world a start len)
  (cow_break_copies_range w' mm_members a start len ;; obj_forget w' a start len).
Proof. unfold cow_break_copies_range, obj_forget. apply _. Qed.
#[local] Instance agree_ancestor fuel anc p strict : Agree (ancestor_page world mm_members fuel anc p strict) (ancestor_page w' mm_members fuel anc p strict).
Proof. revert anc. induction fuel; intros anc; cbn [ancestor_page]; unfold forked_from; apply _. Qed.
#[local] Instance agree_cowbreak c p len : Agree (serve_cowbreak world mm_members shared_range_has c p len) (serve_cowbreak w' mm_members shared_range_has c p len).
Proof. unfold serve_cowbreak, page_read_as, forked_from. apply _. Qed.
#[local] Instance agree_notes kid l : Agree (note_source_pages world kid l) (note_source_pages w' kid l).
Proof. induction l; cbn [note_source_pages]; apply _. Qed.
#[local] Instance agree_protect a p : Agree (ctl_protect world a p) (ctl_protect w' a p).
Proof. unfold ctl_protect. apply _. Qed.
#[local] Instance agree_retry tries a p r : Agree (protect_retry world tries a p r) (protect_retry w' tries a p r).
Proof. revert r. induction tries; intros r; cbn [protect_retry]; apply _. Qed.
#[local] Instance agree_pages a l : Agree (protect_pages world shared_range_has a l) (protect_pages w' shared_range_has a l).
Proof. induction l; cbn [protect_pages]; unfold protect_page; apply _. Qed.
#[local] Instance agree_publish kid parent src : Agree (publish_copy world shared_range_has kid parent src) (publish_copy w' shared_range_has kid parent src).
Proof. unfold publish_copy, cow_admit_mm, cow_protect_address_space. apply _. Qed.

Lemma agree_run {A} (m m' : M A) `{!Agree m m'} s r s' : m s = (r, s') -> (exists new, calls s' = new ++ calls s) /\ (clean s s' -> m' s = (r, s')).
Proof. intros E. pose proof (agree (m := m) (m' := m') s) as H. by rewrite E in H. Qed.
Lemma cow_step_calls s s' : cow_step world mm_members shared_range_has s s' -> exists new, calls s' = new ++ calls s.
Proof.
  destruct 1 as [a p r _ _ E|a cmd p r _ E|a p all _ E|a start len _ _ _ E|c p rx g _ E|c p len d _ E|kid parent src r _ _ _ E|id parent Hl ->|a p b Hin ->|a p b Hp Ho Hno ->];
    try (exact (proj1 (agree_run _ _ _ _ _ E))); by exists [].
Qed.
Lemma step_effect s s' : protect_answers world -> cow_wf s -> cow_step world mm_members shared_range_has s s' ->
  clean s s' -> steps act s s' \/
     exists c p len b ok s1, serve_cowbreak world mm_members shared_range_has c p len s = (Ok (BreakPage b ok), s') /\ quiet s s1 /\ sent s1 s' c p.
Proof.
  intros Hpr Hwf. assert (Hw' : reads_ok w' /\ writes_ok w' /\ protect_answers w') by done. destruct Hw' as (Hr & Hw & Hpr').
  destruct 1 as [a p r Hp Hh E|a cmd p r Hp E|a p all Hp E|a start len Hp Hl Hm E|c p rx g Hp E
    |c p len d Hp E|kid parent src r Hf Hs Hres E|id parent Hl ->|a p b Hin ->|a p b Hp Ho Hno ->];
    intros Hcl; try (pose proof (proj2 (agree_run _ _ _ _ _ E) Hcl) as He).
  - left. by destruct (wp_run _ _ _ _ _ (map_object_spec w' mm_members a p s Hp Hwf Hh) He).
  - left. apply (wp_run _ _ _ _ _ (take_page_spec w' mm_members a cmd p s Hp Hwf) He).
  - left. apply (wp_run _ _ _ _ _ (break_spec w' mm_members a p s Hp Hwf) He).
  - left. apply (wp_run _ _ _ _ _ (vacate_spec w' mm_members a start len s Hp Hl Hm Hwf) He).
  - left. apply (wp_run _ _ _ _ _ (from_chain_spec w' mm_members c p rx s Hr Hw Hp Hwf) He).
  - pose proof (wp_run _ _ _ _ _ (cowbreak_spec w' mm_members shared_range_has c p len s Hr Hp Hwf) He) as H. simpl in H.
    destruct d as [b ok|ok|]; [right|left; by apply quiet_acts..]. destruct H as (s1 & Hq & Hsent). by exists c, p, len, b, ok, s1.
  - left. pose proof (wp_run _ _ _ _ _ (publish_copy_spec w' shared_range_has kid parent src s Hpr' Hwf Hf Hs) He) as Hpub.
    destruct Hres as [-> |[e ->]]; simpl in Hpub; [apply Hpub|done].
  - left. by eapply act_acts, act_register.
  - left. by apply act_acts, (act_store _ _ a p b).
  - left. by apply act_acts, (act_arrive _ _ a p b).
Qed.
Lemma from_chain_clean c p relaxed s gave s' : page_ok p -> cow_wf s ->
  cow_give_from_chain_mode world mm_members c p relaxed s = (Ok gave, s') -> clean s s' -> gains p s s' /\
    if gave : bool then exists b, objects s' !! (c, p) = Some b /\ deliveries s' (c, p) = (b, true) :: deliveries s (c, p)
    else forall b, ~ pending s c p b.
Proof.
  intros Hp Hwf E Hcl. pose proof (proj2 (agree_run _ _ _ _ _ E) Hcl) as He.
  exact (wp_run _ _ _ _ _ (from_chain_spec w' mm_members c p relaxed s ltac:(done) ltac:(done) Hp Hwf) He).
Qed.
End agreement.

(** *** A fork and what follows *)
Section fork.
Context (world : history -> call -> Z) (mm_members : history -> Z -> list Z) (shared_range_has : Z -> Z -> bool).
Abbreviation step := (cow_step world mm_members shared_range_has).
(** While the copy [kid] was still owed its page, the page of a space between
    it and the holder was sent to the source. *)
Definition stranded (s s' : cow_state) (kid p : Z) (b : bytes) : Prop :=
  exists u u' c len d ok, steps step s u /\ serve_cowbreak world mm_members shared_range_has c p len u = (Ok (BreakPage d ok), u') /\
    steps step u' s' /\ pending u kid p b /\ below u c kid.
Lemma below_mms s s' c X : mms s' = mms s -> below s' c X -> below s c X.
Proof. intros E. induction 1 as [X H|X Y H _ IH]; rewrite E in H; [by apply below_child|by eapply below_up]. Qed.
Lemma stranded_step s s1 s2 kid p b : stranded s s1 kid p b -> step s1 s2 -> stranded s s2 kid p b.
Proof.
  intros (u & u' & c & len & d & ok & H1 & H2 & H3 & H4 & H5) Hs. exists u, u', c, len, d, ok. split_and!; try done. by eapply steps_next.
Qed.
Lemma break_sends c p len d ok u u' : serve_cowbreak world mm_members shared_range_has c p len u = (Ok (BreakPage d ok), u') ->
  exists r h, calls u' = (Send c p d, r) :: h.
Proof. unfold serve_cowbreak, mbind, prog_bind, ask, mret, prog_ret. intros E. repeat case_match; simplify_eq; simpl; eauto. Qed.
Lemma run_calls s s' : steps step s s' -> exists new, calls s' = new ++ calls s.
Proof.
  induction 1 as [|s1 s2 s3 _ [n1 H1] Hs]; [by exists []|]. destruct (cow_step_calls _ _ _ _ _ Hs) as [n2 H2]. exists (n2 ++ n1). by rewrite H2, H1, app_assoc.
Qed.
(** The exception leaves its trace: a page that was sent. *)
Lemma stranded_sent s s' kid p b : stranded s s' kid p b -> exists c d r, (Send c p d, r) ∈ calls s'.
Proof.
  intros (u & u' & c & len & d & ok & _ & E & H3 & _). destruct (break_sends _ _ _ _ _ _ _ E) as (r & h & Hh). destruct (run_calls _ _ H3) as [n Hn].
  exists c, d, r. rewrite Hn, Hh. apply elem_of_app. right. by left.
Qed.
Lemma run_pending s s' kid p b : protect_answers world -> cow_wf s -> pending s kid p b -> steps step s s' ->
  (exists new, calls s' = new ++ calls s) /\ (clean s s' -> cow_wf s' /\
    ((pending s' kid p b /\ deliveries s' (kid, p) = deliveries s (kid, p)) \/
     (given s' (kid, p) = true /\ exists ok, deliveries s' (kid, p) = (b, ok) :: deliveries s (kid, p)) \/
     stranded s s' kid p b)).
Proof.
  intros Hpr Hwf Hp Hrun. induction Hrun as [s|s1 s2 s3 H12 IH Hs]; [split; [by exists []|auto]|].
  destruct (IH Hwf Hp) as [Hc1 Hor]. assert (Hc2 := cow_step_calls _ _ _ _ _ Hs).
  split; [destruct Hc1 as [n1 E1], Hc2 as [n2 E2]; exists (n2 ++ n1); by rewrite E2, E1, app_assoc|].
  intros Hcl. destruct (clean_split s1 s2 s3 Hc1 Hc2 Hcl) as [Hcl1 Hcl2]. destruct (Hor Hcl1) as [Hwf2 Hor2]. clear Hor.
  pose proof (step_effect _ _ _ s2 s3 Hpr Hwf2 Hs) as Heff.
  destruct Hor2 as [[Hp2 Hd2]|[[Hg2 Hd2]|Hst]], (Heff Hcl2) as [Hacts|(c & q & len & d & ok & s2' & E & Hq & Hsent)].
  - split; [by eapply acts_wf|]. rewrite <- Hd2. destruct (acts_pending s2 s3 kid p b Hwf2 Hacts Hp2); auto.
  - split; [eapply sent_wf; [|done]; by eapply quiet_wf|]. rewrite <- Hd2, <- (sh_deliveries _ _ _ _ _ _ _ Hq (kid, p)).
    destruct (sent_pending s2' s3 c q kid p b Hsent) as [?|[?|[-> Hb]]]; [by apply (quiet_pending s2 s2')|auto|auto|].
    right; right. exists s2, s3, c, len, d, ok. split_and!; [done|done|constructor|done|]. by apply (below_mms _ s2'); [apply Hq|].
  - split; [by eapply acts_wf|]. right; left. destruct (acts_given s2 s3 _ Hacts Hg2) as [? ->]. done.
  - split; [eapply sent_wf; [|done]; by eapply quiet_wf|]. right; left.
    destruct (sent_given s2' s3 c q (kid, p) Hsent) as [? ->]; [by rewrite (sh_given _ _ _ _ _ _ _ Hq)|]. by rewrite (sh_deliveries _ _ _ _ _ _ _ Hq).
  - split; [by eapply acts_wf|]. right; right. by eapply stranded_step.
  - split; [eapply sent_wf; [|done]; by eapply quiet_wf|]. right; right. by eapply stranded_step.
Qed.


(** *** A faulting copy
    What ends the process instead: memory, or a full table of records. *)
Definition no_memory (s : cow_state) : Prop := (exists h, calls s = (Alloc, 0) :: h) \/ cow_record_count s = U64MAX.
(** In any machine: [m] returns, or ends the process for want of memory. *)
Class Total {A} (l : list (Z * Z)) (m : M A) : Prop := total s : mms s = l ->
  mms (m s).2 = l /\ match (m s).1 with Ok _ => True | Aborted => no_memory (m s).2 | _ => False end.
#[local] Instance total_ret {A} l (a : A) : Total l (mret a).
Proof. done. Qed.
#[local] Instance total_get {A} l (f : cow_state -> A) : Total l (get f).
Proof. done. Qed.
#[local] Instance total_ask l q : Total l (ask world q).
Proof. done. Qed.
#[local] Instance total_objects l f : Total l (modify (fun s => set_objects (f s) s)).
Proof. done. Qed.
#[local] Instance total_records l f g : Total l (modify (fun s => set_records (f s) (g s) s)).
Proof. done. Qed.
#[local] Instance total_bind {A B} l (m : M A) (k : A -> M B) : Total l m -> (forall a, Total l (k a)) -> Total l (m ≫= k).
Proof.
  intros Hm Hk s Hs. unfold mbind, prog_bind. destruct (Hm s Hs) as [Hs1 H1]. destruct (m s) as [[a| | | |] s1]; cbn [fst snd] in *; try done.
  by apply Hk.
Qed.
#[local] Instance total_if {A} l (b : bool) (m m' : M A) : Total l m -> Total l m' -> Total l (if b then m else m').
Proof. by destruct b. Qed.
#[local] Instance total_option {A B} l (o : option B) (m : M A) (k : B -> M A) :
  Total l m -> (forall b, Total l (k b)) -> Total l (match o with Some b => k b | None => m end).
Proof. intros. by destruct o. Qed.
Lemma total_record l id : is_Some (parent_in id l) -> Total l (mm_record id).
Proof. intros [Y HY] s Hs. unfold mm_record. rewrite Hs, HY. done. Qed.
#[local] Instance total_find l a p : Total l (cow_record_find world a p false).
Proof. unfold cow_record_find. cbn [negb]. apply _. Qed.
Lemma total_create l a p : a <> 0 -> Total l (cow_record_find world a p true).
Proof.
  intros Ha. unfold cow_record_find. cbn [negb]. apply total_bind; [apply _|]. intros found. apply total_option; [|apply _].
  intros s Hs. unfold mbind, prog_bind, get, ask. cbn [fst snd]. rewrite (proj2 (Z.eqb_neq a 0) Ha). cbn [orb].
  destruct (Z.eqb_spec (cow_record_count s) U64MAX) as [Hc|_]; [split; [done|by right]|].
  destruct (Z.eqb_spec (world (calls s) Alloc) 0) as [Hz|_]; [|done]. split; [done|]. left. rewrite Hz. by eexists.
Qed.
#[local] Instance total_protected l a p : Total l (cow_is_protected world a p).
Proof. unfold cow_is_protected, cow_prot_state. apply _. Qed.
#[local] Instance total_peek l id p ms : Total l (peek_first world id p ms).
Proof. induction ms; cbn [peek_first]; apply _. Qed.
Lemma total_backing l a p : is_Some (parent_in a l) -> Total l (mm_backing_has a p).
Proof. intros Ha. apply total_bind; [by apply total_record|apply _]. Qed.
Lemma total_already l c p : is_Some (parent_in c l) -> Total l (already_has world c p).
Proof. intros Hc. pose proof (total_backing l c p Hc). unfold already_has, cow_was_given. apply _. Qed.
Lemma total_give l c f p relaxed : c <> 0 -> is_Some (parent_in c l) -> is_Some (parent_in f l) ->
  Total l (cow_give_page_mode world mm_members c f p relaxed).
Proof.
  intros Hne Hc Hf. pose proof (total_already l c p Hc). pose proof (total_record l c Hc). pose proof (total_backing l f p Hf).
  pose proof (total_create l c p Hne). unfold cow_give_page_mode, mm_page_read, mm_obj_write, cow_give_note, cow_prot_set, record_write. simpl. apply _.
Qed.
Lemma total_chain l c p relaxed : lineage l -> c <> 0 -> is_Some (parent_in c l) -> forall fuel anc,
  anc = 0 \/ is_Some (parent_in anc l) -> (rank anc l < fuel)%nat -> Total l (give_chain world mm_members fuel c anc p relaxed).
Proof.
  intros Hl Hne Hc. induction fuel as [|fuel IH]; intros anc Hanc Hfuel; [lia|]. cbn [give_chain].
  destruct (Z.eqb_spec anc 0); [apply _|]. destruct Hanc as [?|Hanc]; [done|].
  apply total_bind; [by apply total_give|]. intros gave. destruct gave; [apply _|]. intros s Hs. destruct Hanc as [Y HY].
  unfold mbind, prog_bind, forked_from, mm_record. rewrite Hs, HY.
  destruct (decide (Y = 0)) as [->|HY0]; [destruct fuel; done|]. apply IH; [right|pose proof (rank_parent l anc Y Hl HY HY0); lia|done].
  pose proof (rank_parent l anc Y Hl HY HY0) as [Hr _]. clear -Hr. induction l as [|[x y] l IH]; simpl in *; [lia|].
  destruct (x =? Y); [by eexists|auto].
Qed.
Lemma total_from_chain l c p relaxed : lineage l -> is_Some (parent_in c l) -> Total l (cow_give_from_chain_mode world mm_members c p relaxed).
Proof.
  intros Hl Hc. assert (Hne : c <> 0).
  { clear -Hl Hc. induction l as [|[x y] l IH]; simpl in *; [by destruct Hc|]. destruct Hl as (Hx & _ & _ & Hl). destruct (Z.eqb_spec x c) as [<-|]; [done|auto]. }
  apply total_bind; [by apply total_already|]. intros own. destruct own; [apply _|]. intros s Hs. destruct Hc as [Y HY].
  unfold mbind, prog_bind, forked_from, mm_record, get. rewrite Hs, HY. unfold chain_fuel. rewrite Hs.
  apply total_chain; [done|done|by eexists| |pose proof (rank_le Y l); lia|done].
  destruct (decide (Y = 0)) as [|HY0]; [by left|right]. pose proof (rank_parent l c Y Hl HY HY0) as [Hr _]. clear -Hr.
  induction l as [|[x y] l IH]; simpl in *; [lia|]. destruct (x =? Y); [by eexists|auto].
Qed.

(** C30: A copy that faults on a page it is owed is given it: the walk over its
    ancestors ends, and when no access to an object failed on the way it never
    answers that nobody has the page: the copy's object has the bytes of the
    fork, they are recorded as given, and they were written this once.  The
    process is ended instead only by a refused allocation or a full table of
    records, whatever else the system answers. *)
Theorem owed_copy_is_served s c p b relaxed : page_ok p -> cow_wf s -> pending s c p b ->
  match cow_give_from_chain_mode world mm_members c p relaxed s with
  | (Ok gave, s') => clean s s' -> gave = true /\ given s' (c, p) = true /\ objects s' !! (c, p) = Some b /\
      deliveries s' (c, p) = (b, true) :: deliveries s (c, p) /\ cow_wf s'
  | (Aborted, s') => no_memory s'
  | _ => False
  end.
Proof.
  intros Hp Hwf Hpend. assert (Hpar : is_Some (parent_in c (mms s))).
  { destruct Hpend as [Ho H]. inversion H; subst; [congruence|by eexists]. }
  pose proof (total_from_chain (mms s) c p relaxed (cw_mms s Hwf) Hpar s eq_refl) as [_ Htot].
  destruct (cow_give_from_chain_mode world mm_members c p relaxed s) as [r s'] eqn:E. cbn [fst snd] in Htot.
  destruct r as [gave| | | |]; try done. intros Hcl.
  destruct (from_chain_clean world mm_members c p relaxed s gave s' Hp Hwf E Hcl) as [Hg Hgave].
  destruct gave; [|by destruct (Hgave b)]. destruct Hgave as (b' & Ho' & Hd').
  destruct (acts_pending s s' c p b Hwf (gn_acts p s s' Hg) Hpend) as [[[Ho _] _]|[Hgv [ok Hd]]]; [congruence|].
  rewrite Hd in Hd'. injection Hd' as <- ->. split_and!; try done. by eapply gains_wf.
Qed.

(** *** Programs that grant nothing, whatever their result *)
Class Still {A} (m : M A) : Prop := still s : writable (m s).2 = writable s.
#[local] Instance still_ret {A} (a : A) : Still (mret a).
Proof. done. Qed.
#[local] Instance still_stop {A} (r : result A) : Still (stop r).
Proof. done. Qed.
#[local] Instance still_get {A} (f : cow_state -> A) : Still (get f).
Proof. done. Qed.
#[local] Instance still_ask q : Still (ask world q).
Proof. done. Qed.
#[local] Instance still_objects f : Still (modify (fun s => set_objects (f s) s)).
Proof. done. Qed.
#[local] Instance still_records f g : Still (modify (fun s => set_records (f s) (g s) s)).
Proof. done. Qed.
#[local] Instance still_record id : Still (mm_record id).
Proof. intros s. unfold mm_record. by destruct (parent_in id (mms s)). Qed.
#[local] Instance still_bind {A B} (m : M A) (k : A -> M B) : Still m -> (forall a, Still (k a)) -> Still (m ≫= k).
Proof.
  intros Hm Hk s. unfold mbind, prog_bind. specialize (Hm s). destruct (m s) as [[] s']; cbn [snd] in *; try done. by rewrite Hk.
Qed.
#[local] Instance still_if {A} (b : bool) (m m' : M A) : Still m -> Still m' -> Still (if b then m else m').
Proof. by destruct b. Qed.
#[local] Instance still_option {A B} (o : option B) (m : M A) (k : B -> M A) :
  Still m -> (forall b, Still (k b)) -> Still (match o with Some b => k b | None => m end).
Proof. intros. by destruct o. Qed.
#[local] Instance still_list {A B} (o : list B) (m : M A) (k : B -> list B -> M A) :
  Still m -> (forall b l, Still (k b l)) -> Still (match o with b :: l => k b l | [] => m end).
Proof. intros. by destruct o. Qed.
#[local] Instance still_find a p c : Still (cow_record_find world a p c).
Proof. unfold cow_record_find. apply _. Qed.
#[local] Instance still_note a p : Still (cow_give_note world a p).
Proof. unfold cow_give_note, record_write. apply _. Qed.
#[local] Instance still_set a p m : Still (cow_prot_set world a p m).
Proof. unfold cow_prot_set, record_write. apply _. Qed.
#[local] Instance still_protected a p : Still (cow_is_protected world a p).
Proof. unfold cow_is_protected, cow_prot_state. apply _. Qed.
#[local] Instance still_already c p : Still (already_has world c p).
Proof. unfold already_has, cow_was_given, mm_backing_has. apply _. Qed.
#[local] Instance still_peek id p l : Still (peek_first world id p l).
Proof. induction l; cbn [peek_first]; apply _. Qed.
#[local] Instance still_give c f p relaxed : Still (cow_give_page_mode world mm_members c f p relaxed).
Proof. unfold cow_give_page_mode, mm_page_read, mm_obj_write, mm_backing_has. apply _. Qed.
#[local] Instance still_break_each a p l : Still (break_each world mm_members a p l).
Proof. induction l; cbn [break_each]; unfold cow_give_page; apply _. Qed.
#[local] Instance still_break a p : Still (cow_break_copies world mm_members a p).
Proof. unfold cow_break_copies, cow_copies_of, cow_prot_state. apply _. Qed.
Lemma still_then {A B} (m : M A) (k : A -> M B) s s' : Still m ->
  (forall a s1, k a s1 = (Aborted, s') -> writable s' = writable s1) -> (m ≫= k) s = (Aborted, s') -> writable s' = writable s.
Proof.
  intros Hm Hk. unfold mbind, prog_bind. specialize (Hm s). destruct (m s) as [[a| | | |] s1]; cbn [snd] in Hm; try done.
  - intros E. by rewrite (Hk a s1 E).
  - intros [= <-]. done.
Qed.
(** The grant itself does not stop, so a process that ended granted nothing. *)
Lemma map_object_aborts a p s s' :
  snapshot_map_object world mm_members a p s = (Aborted, s') -> writable s' = writable s.
Proof.
  apply still_then; [apply _|]. intros owed s1. apply still_then; [apply _|]. intros u s2.
  unfold ctl_mapobj, ask, mbind, prog_bind. cbv zeta. by destruct (world (calls s2) _ =? PAGE).
Qed.

(** The grant is over: no copy is owed the page and the mark is spent. *)
Definition safely_granted (s : cow_state) (a p : Z) : Prop :=
  settled_below s p a /\ mark s (a, p) = COW_PROT_SPENT /\ cow_wf s.
(** C31: Write permission is granted only when no copy is owed the page: a
    grant over a marked page returns with every copy made of the address
    space holding its own page and the mark spent, and otherwise ends the
    process before the permission becomes visible. *)
Theorem grant_preserves_copies s a p :
  page_ok p -> cow_wf s -> mark s (a, p) = COW_PROT_OWED ->
  match snapshot_map_object world mm_members a p s with
  | (Ok _, s') => safely_granted s' a p
  | (Aborted, s') => (a, p) ∉ writable s'
  | _ => False
  end.
Proof.
  intros Hp Hwf Hm. destruct (cw_owed s Hwf _ Hm) as [Hheld Hnw].
  pose proof (map_object_spec world mm_members a p s Hp Hwf Hheld) as H. unfold wp in H.
  destruct (snapshot_map_object world mm_members a p s) as [[r| | | |] s'] eqn:E; simpl in H; try done.
  - destruct H as (Hacts & Hbelow). destruct (Hbelow Hm). split; [done|]. split; [done|by eapply acts_wf].
  - by rewrite (map_object_aborts a p s s' E).
Qed.
End fork.

(** ** Examples *)
(** A machine on which every call succeeds and no context maps anything. *)
Definition demo_world (_ : history) (q : call) : Z :=
  match q with
  | Alloc => 1
  | Peek _ _ => 0
  | Seek _ p => if p =? 0 then - ENXIO else p
  | Punch _ _ _ => 0
  | _ => PAGE
  end.
Definition demo_members (_ : history) (_ : Z) : list Z := [].
Definition demo_shared (_ _ : Z) : bool := false.
Lemma demo_protects : protect_answers demo_world.
Proof. intros h a p. by left. Qed.
Lemma demo_clean s s' : existsb (fun x => negb (access_okb x)) (take (length (calls s') - length (calls s)) (calls s')) = false ->
  drop (length (calls s') - length (calls s)) (calls s') = calls s -> clean s s'.
Proof.
  intros Hf Hd. exists (take (length (calls s') - length (calls s)) (calls s')). split; [by rewrite <- Hd at 2; rewrite take_drop|].
  apply Forall_forall. intros x Hx. destruct (access_okb x) eqn:Hb; [by apply access_okb_spec|]. exfalso.
  assert (existsb (fun x => negb (access_okb x)) (take (length (calls s') - length (calls s)) (calls s')) = true); [|congruence].
  apply existsb_exists. exists x. split; [by apply list_elem_of_In|by rewrite Hb].
Qed.
Definition demo_start (l : list (Z * Z)) (o : gmap (Z * Z) bytes) (w : gset (Z * Z)) : cow_state :=
  mk_cow o w l [] (replicate (Z.to_nat COW_GIVEN_SLOTS) []) 0 [].
Abbreviation demo_publish := (publish_copy demo_world demo_shared).
Abbreviation demo_grant := (snapshot_map_object demo_world demo_members).

Lemma cow_slot_lt k : (cow_slot k < Z.to_nat COW_GIVEN_SLOTS)%nat.
Proof.
  unfold cow_slot, cow_given_slot.
  pose proof (Z.mod_pos_bound (u32 (u64 ((snd k .>> 12) * 2654435761) .^ u64 ((fst k .^ (fst k .>> 32)) * 2246822519))) COW_GIVEN_SLOTS eq_refl). lia.
Qed.
(** No record yet: nothing is given and nothing is marked. *)
Lemma demo_start_spec l o w :
  bucket_ok cow_key cow_slot (cow_record_buckets (demo_start l o w)) /\
  (forall k, given (demo_start l o w) k = false) /\ (forall k, mark (demo_start l o w) k = 0).
Proof.
  unfold demo_start, given, mark. cbn [cow_record_buckets]. pose proof cow_slot_lt as Hlt. revert Hlt.
  generalize (Z.to_nat COW_GIVEN_SLOTS). intros n Hlt. destruct (bucket_fresh cow_key cow_slot n Hlt) as (Hok & Hm & _).
  rewrite Hm. split; [done|]. split; intros k; by rewrite lookup_empty.
Qed.
Lemma demo_start_wf l o w : lineage l -> (forall k, k ∈ w -> is_Some (o !! k)) -> (forall a p, is_Some (o !! (a, p)) -> page_ok p) ->
  cow_wf (demo_start l o w).
Proof.
  intros Hl Hw Ha. destruct (demo_start_spec l o w) as (Hok & _ & Hm). split; [done|done| |done|done].
  intros k. rewrite Hm. done.
Qed.
Lemma run_ok {A} (m : M A) s s' a : s' = snd (m s) -> fst (m s) = Ok a -> m s = (Ok a, s').
Proof. intros -> H. rewrite (surjective_pairing (m s)) at 1. by rewrite H. Qed.

(** A space with one written page forks, and then stores to the page. *)
Definition demo_0 : cow_state := demo_start [(2, 1); (1, 0)] {[(1, 0x1000) := [7]]} {[(1, 0x1000)]}.
Definition demo_1 : cow_state := snd (demo_publish 2 1 [] demo_0).
Definition demo_2 : cow_state := snd (demo_grant 1 0x1000 demo_1).
Definition demo_3 : cow_state := set_objects (<[(1, 0x1000) := [9]]> (objects demo_2)) demo_2.
Lemma demo_page : page_ok 0x1000.
Proof. split; [unfold is_u64, U64MAX; lia|reflexivity]. Qed.
Lemma demo_0_wf : cow_wf demo_0.
Proof.
  apply demo_start_wf.
  - cbn. split; [done|]. split; [done|]. split; [right; by eexists|]. split; [done|]. split; [done|]. split; [by left|done].
  - intros k ->%elem_of_singleton. by eexists.
  - intros a p [x [[= <- <-] _]%lookup_singleton_Some]. apply demo_page.
Qed.
Lemma demo_child : fresh_child demo_0 2 1.
Proof.
  split; [done|done|by intros ?%elem_of_nil| |intros p; apply demo_start_spec].
  intros p. by apply lookup_singleton_ne.
Qed.
Lemma demo_steps : steps (cow_step demo_world demo_members demo_shared) demo_1 demo_3.
Proof.
  eapply steps_next; [eapply steps_next; [constructor|]|].
  - apply (step_grant _ _ _ demo_1 demo_2 1 0x1000 PAGE); [apply demo_page| |].
    + apply (bool_decide_eq_true_1 (is_Some (objects demo_1 !! (1, 0x1000)))). vm_compute. reflexivity.
    + apply run_ok; [reflexivity|vm_compute; reflexivity].
  - apply (step_store _ _ _ demo_2 demo_3 1 0x1000 [9]); [|reflexivity].
    apply (bool_decide_eq_true_1 ((1, 0x1000) ∈ writable demo_2)). vm_compute. reflexivity.
Qed.

Lemma demo_1_wf : cow_wf demo_1 /\ pending demo_1 2 0x1000 [7].
Proof.
  assert (E : demo_publish 2 1 [] demo_0 = (Ok tt, demo_1)) by (apply run_ok; [reflexivity|vm_compute; reflexivity]).
  destruct (wp_run _ _ _ _ _ (publish_copy_spec demo_world demo_shared 2 1 [] demo_0 demo_protects demo_0_wf demo_child (Forall_nil_2 _)) E)
    as (Hs & _ & Hp).
  split; [by eapply acts_wf; [apply demo_0_wf|]|]. apply Hp. split; [by intros ?%elem_of_nil|]. left. by split.
Qed.
Lemma owed_copy_is_served_witness :
  exists s', cow_give_from_chain_mode demo_world demo_members 2 0x1000 false demo_1 = (Ok true, s') /\
    deliveries s' (2, 0x1000) = [([7], true)].
Proof.
  pose proof (owed_copy_is_served demo_world demo_members demo_1 2 0x1000 [7] false demo_page
    (proj1 demo_1_wf) (proj2 demo_1_wf)) as H.
  assert (Hd : fst (cow_give_from_chain_mode demo_world demo_members 2 0x1000 false demo_1) = Ok true /\ deliveries demo_1 (2, 0x1000) = [])
    by (vm_compute; split; reflexivity). destruct Hd as [Hr Hd].
  assert (Hcl : clean demo_1 (snd (cow_give_from_chain_mode demo_world demo_members 2 0x1000 false demo_1))) by (apply demo_clean; vm_compute; reflexivity).
  rewrite (run_ok _ _ _ _ eq_refl Hr) in H. destruct (H Hcl) as (_ & _ & _ & Hx & _). rewrite Hd in Hx. eexists. split; [exact (run_ok _ _ _ _ eq_refl Hr)|exact Hx].
Defined.
Lemma grant_preserves_copies_witness :
  demo_grant 1 0x1000 demo_1 = (Ok PAGE, demo_2) /\ settled demo_2 (2, 0x1000) /\ mark demo_2 (1, 0x1000) = COW_PROT_SPENT.
Proof.
  assert (Hm : mark demo_1 (1, 0x1000) = COW_PROT_OWED) by (vm_compute; reflexivity).
  pose proof (grant_preserves_copies demo_world demo_members demo_1 1 0x1000 demo_page (proj1 demo_1_wf) Hm) as H.
  assert (E : demo_grant 1 0x1000 demo_1 = (Ok PAGE, demo_2)) by (apply run_ok; [reflexivity|vm_compute; reflexivity]).
  rewrite E in H. destruct H as (Hbelow & Hspent & _). split; [exact E|]. split; [|exact Hspent].
  assert (Hc : bool_decide (2 ∈ cow_children demo_2) = true) by (vm_compute; reflexivity).
  apply bool_decide_eq_true_1 in Hc. assert (Hp : parent_in 2 (mms demo_2) = Some 1) by (vm_compute; reflexivity).
  exact (Hbelow 2 Hc Hp).
Defined.

(** ** Gives no fork asked for

    Three runs in which the records speak of a page a copy did not inherit, or
    no longer of one it did. *)
(** A page that reached the original after the first fork is marked by the
    second, and the next grant writes it into the first copy's object. *)
Definition rearm_run : M unit :=
  demo_publish 2 1 [] ;;
  modify (fun s => set_objects (<[(1, 0x1000) := [5]]> (objects s)) s) ;;
  demo_publish 3 1 [] ;;
  demo_grant 1 0x1000 ;; mret tt.
Theorem rearm_reaches_older_copy :
  let s0 := demo_start [(3, 1); (2, 1); (1, 0)] ∅ ∅ in
  objects s0 !! (1, 0x1000) = None /\ fst (rearm_run s0) = Ok tt /\ objects (snd (rearm_run s0)) !! (2, 0x1000) = Some [5].
Proof. vm_compute. repeat split; reflexivity. Qed.
(** A copy vacates a page it has not had; the original's next grant puts the
    old page into the copy's object all the same. *)
Definition vacate_run : M unit :=
  demo_publish 2 1 [] ;;
  cow_break_copies_range demo_world demo_members 2 0x1000 0x1000 ;; obj_forget demo_world 2 0x1000 0x1000 ;;
  demo_grant 1 0x1000 ;; mret tt.
Theorem vacated_page_comes_back :
  fst (vacate_run demo_0) = Ok tt /\ objects (snd (vacate_run demo_0)) !! (2, 0x1000) = Some [7].
Proof. vm_compute. split; reflexivity. Qed.
(** A copy's page leaves for the source while a copy of that copy is still
    owed it; after the original's store nothing here has the page any more,
    and the last resort hands out the new bytes. *)
Definition strand_run : M unit :=
  demo_publish 2 1 [] ;; demo_publish 3 2 [] ;;
  serve_cowbreak demo_world demo_members demo_shared 2 0x1000 0 ;;
  demo_grant 1 0x1000 ;;
  modify (fun s => set_objects (<[(1, 0x1000) := [9]]> (objects s)) s).
Theorem wire_break_strands_grandcopy :
  let s0 := demo_start [(3, 2); (2, 1); (1, 0)] {[(1, 0x1000) := [7]]} {[(1, 0x1000)]} in
  let s := snd (strand_run s0) in
  fst (strand_run s0) = Ok tt /\
  fst (cow_give_from_chain demo_world demo_members 3 0x1000 s) = Ok false /\
  objects (snd (cow_give_from_chain_mode demo_world demo_members 3 0x1000 true s)) !! (3, 0x1000) = Some [9].
Proof. vm_compute. repeat split; reflexivity. Qed.
(** A page goes out to the source and the write fails.  It is recorded as given
    all the same, so that the request repeated on a new connection is answered
    that nobody has it. *)
Definition broken_wire (h : history) (q : call) : Z := match q with Send _ _ _ => -32 | _ => demo_world h q end.
Definition broken_send : M (break_answer * break_answer) :=
  demo_publish 2 1 [] ;;
  first ← serve_cowbreak broken_wire demo_members demo_shared 2 0x1000 0;
  again ← serve_cowbreak demo_world demo_members demo_shared 2 0x1000 0;
  mret (first, again).
Theorem failed_send_loses_page : fst (broken_send demo_0) = Ok (BreakPage [7] false, BreakAbsent true).
Proof. vm_compute. reflexivity. Qed.
End CowRuns.
