(* ===== verification/Retain.v ===== *)
(** * Page generations and retained bytes (user/vmremote.c)

    For every page the executor hands out it counts the captures (the take
    generation) and keeps the bytes of the last one, so that a page that was
    ever moved is not answered with zeros.  Both tables are open-addressed
    arrays under the address space and page; a generation is never freed, a
    retained page becomes a tombstone when its range is vacated and a later
    insertion may take the tombstone over.  Abstractly both are finite maps. *)
From S2P Require Import Prelude Probe.
Open Scope Z_scope.

Module Retain.

Definition PGEN_SLOTS : Z := 2 ^ 16.
Definition RETAIN_SLOTS : Z := 2 ^ 15.
Abbreviation bytes := (list Z).
Record pgen_ent := mk_pgen { pe_page : Z; pe_as : Z; pe_gen : Z }.
Record retain_ent := mk_retain { re_page : Z; re_as : Z; re_live : bool; re_gen : Z; re_bytes : bytes }.
Record memory := mk_memory {
  pgen_tab : list pgen_ent;
  (** Allocated by the first insertion. *)
  retain_tab : option (list retain_ent) }.
Definition memory_init : memory := mk_memory (replicate (Z.to_nat PGEN_SLOTS) (mk_pgen 0 0 0)) None.

(** ** Probing *)
Definition key_hash (k : Z * Z) : Z := u64 (fst k * 1099511628211) .^ u64 ((snd k .>> 12) * 14695981039346656037).
Definition pgen_hash (k : Z * Z) : Z := let h := key_hash k in h .^ (h .>> 29).
(** [(h + i) % n] for successive [i]. *)
Definition next_slot (n pos : nat) : nat := ((pos + 1) mod n)%nat.
Definition pgen_start (k : Z * Z) (n : nat) : nat := Z.to_nat (pgen_hash k mod Z.of_nat n).
Definition retain_start (k : Z * Z) (n : nat) : nat := Z.to_nat (key_hash k mod Z.of_nat n).
Definition pe_key (e : pgen_ent) : Z * Z := (pe_as e, pe_page e).
Definition pe_used (e : pgen_ent) : bool := nz (pe_page e).
Definition re_key (e : retain_ent) : Z * Z := (re_as e, re_page e).
Definition re_used (e : retain_ent) : bool := nz (re_page e).

(** The slot of the key: of its entry, or the unused one that ends the probe. *)
Definition pgen_find (k : Z * Z) (tab : list pgen_ent) : option nat :=
  probe tab (fun e => negb (pe_used e) || bool_decide (pe_key e = k)) (next_slot (length tab))
    (length tab) (pgen_start k (length tab)).
Definition pgen_get (as_ addr : Z) (s : memory) : Z :=
  match pgen_find (as_, page_base addr) (pgen_tab s) with
  | Some j => match pgen_tab s !! j with Some e => if pe_used e then pe_gen e else 0 | None => 0 end
  | None => 0
  end.
Definition pgen_bump (as_ addr : Z) (s : memory) : Z * memory :=
  let page := page_base addr in
  match pgen_find (as_, page) (pgen_tab s) with
  | Some j =>
      let old := match pgen_tab s !! j with Some e => if pe_used e then pe_gen e else 0 | None => 0 end in
      let g := u32 (old + 1) in
      (g, mk_memory (<[j := mk_pgen page as_ g]> (pgen_tab s)) (retain_tab s))
  | None => (0, s)
  end.
Definition in_span (as_ start end_ : Z) (k : Z * Z) : bool := (fst k =? as_) && (start <=? snd k) && (snd k <? end_).
Definition pgen_clear (as_ start end_ : Z) (e : pgen_ent) : pgen_ent :=
  if pe_used e && in_span as_ start end_ (pe_key e) then mk_pgen (pe_page e) (pe_as e) 0 else e.
Definition pgen_forget (as_ start end_ : Z) (s : memory) : memory :=
  mk_memory (pgen_clear as_ start end_ <$> pgen_tab s) (retain_tab s).

(** The probe that remembers the first tombstone. *)
Fixpoint retain_loop (tab : list retain_ent) (k : Z * Z) (create : bool) (fuel pos : nat) (tomb : option nat) : option nat :=
  match fuel with
  | O => if create then tomb else None
  | S fuel =>
      match tab !! pos with
      | None => None
      | Some e =>
          if bool_decide (re_key e = k) && (re_live e || re_used e) then Some pos
          else if negb (re_used e) && negb (re_live e)
          then if create then Some (default pos tomb) else None
          else retain_loop tab k create fuel (next_slot (length tab) pos)
                 (if create && negb (re_live e) && bool_decide (tomb = None) then Some pos else tomb)
      end
  end.
Definition retain_probe (k : Z * Z) (create : bool) (tab : list retain_ent) : option nat :=
  retain_loop tab k create (length tab) (retain_start k (length tab)) None.
(** retain_find without creating. *)
Definition retain_lookup (k : Z * Z) (s : memory) : option retain_ent :=
  match retain_tab s with
  | None => None
  | Some tab => match retain_probe k false tab with Some j => tab !! j | None => None end
  end.
(** retain_find that creates: the table with the key written, and the slot. *)
Definition retain_create (alloc : bool) (k : Z * Z) (s : memory) : memory * option (nat * list retain_ent) :=
  let tab := match retain_tab s with
             | Some tab => Some tab
             | None => if alloc then Some (replicate (Z.to_nat RETAIN_SLOTS) (mk_retain 0 0 false 0 [])) else None
             end in
  match tab with
  | None => (s, None)
  | Some tab =>
      let s := mk_memory (pgen_tab s) (Some tab) in
      match retain_probe k true tab with
      | None => (s, None)
      | Some j =>
          match tab !! j with
          | None => (s, None)
          | Some e =>
              let tab := <[j := mk_retain (snd k) (fst k) (re_live e) (re_gen e) (re_bytes e)]> tab in
              (mk_memory (pgen_tab s) (Some tab), Some (j, tab))
          end
      end
  end.
Definition retain_put (alloc : bool) (as_ addr : Z) (data : bytes) (s : memory) : memory :=
  let page := page_base addr in
  let gen := pgen_get as_ page s in
  match retain_create alloc (as_, page) s with
  | (s, None) => s
  | (s, Some (j, tab)) => mk_memory (pgen_tab s) (Some (<[j := mk_retain page as_ true gen data]> tab))
  end.
Definition retain_get_gen (as_ addr : Z) (s : memory) : option (Z * bytes) :=
  match retain_lookup (as_, page_base addr) s with
  | Some e => if re_live e then Some (re_gen e, re_bytes e) else None
  | None => None
  end.
Definition retain_get (as_ addr : Z) (s : memory) : option bytes := snd <$> retain_get_gen as_ addr s.
Definition retain_bury (as_ start end_ : Z) (e : retain_ent) : retain_ent :=
  if re_live e && in_span as_ start end_ (re_key e)
  then mk_retain (re_page e) (re_as e) false (re_gen e) (re_bytes e) else e.
Definition retain_forget (as_ start end_ : Z) (s : memory) : memory :=
  if end_ <=? start then s
  else mk_memory (pgen_tab s) (option_map (fmap (M := list) (retain_bury as_ (page_base start) end_)) (retain_tab s)).

(** ** The maps *)
Definition gens (s : memory) : gmap (Z * Z) Z := pe_gen <$> tab_map pe_used pe_key (pgen_tab s).
Definition kept_value (e : retain_ent) : option (Z * bytes) := if re_live e then Some (re_gen e, re_bytes e) else None.
Definition kept_in (tab : list retain_ent) : gmap (Z * Z) (Z * bytes) := omap kept_value (tab_map re_used re_key tab).
Definition kept (s : memory) : gmap (Z * Z) (Z * bytes) := default ∅ (kept_in <$> retain_tab s).
Record retain_wf (tab : list retain_ent) : Prop := {
  rw_length : Z.of_nat (length tab) = RETAIN_SLOTS;
  rw_chain : chain re_used re_key retain_start tab;
  rw_live e : e ∈ tab -> re_live e = true -> re_used e = true
}.
Record memory_wf (s : memory) : Prop := {
  mw_pgen : Z.of_nat (length (pgen_tab s)) = PGEN_SLOTS;
  mw_chain : chain pe_used pe_key pgen_start (pgen_tab s);
  mw_retain tab : retain_tab s = Some tab -> retain_wf tab
}.

Lemma next_slot_ok n : next_ok n (next_slot n).
Proof. done. Qed.
Lemma start_lt h (n : nat) : (0 < n)%nat -> (Z.to_nat (h mod Z.of_nat n) < n)%nat.
Proof. intros Hn. pose proof (Z.mod_pos_bound h (Z.of_nat n)). lia. Qed.
Lemma pgen_start_ok n : (0 < n)%nat -> start_ok pgen_start n.
Proof. intros Hn k. by apply start_lt. Qed.
Lemma retain_start_ok n : (0 < n)%nat -> start_ok retain_start n.
Proof. intros Hn k. by apply start_lt. Qed.

(** ** Generations *)
Lemma pgen_pos s : memory_wf s -> (0 < length (pgen_tab s))%nat.
Proof. intros Hwf. pose proof (mw_pgen s Hwf). unfold PGEN_SLOTS in *. lia. Qed.
Lemma pgen_find_spec k s : memory_wf s ->
  match pgen_find k (pgen_tab s) with
  | Some j => exists e, pgen_tab s !! j = Some e /\
      (pe_used e = true /\ pe_key e = k /\ gens s !! k = Some (pe_gen e) \/
       pe_used e = false /\ gens s !! k = None /\ chain_end pe_used pe_key pgen_start (pgen_tab s) k j)
  | None => gens s !! k = None /\ forall i e, pgen_tab s !! i = Some e -> pe_used e = true
  end.
Proof.
  intros Hwf. pose proof (search_spec pe_used pe_key pgen_start (pgen_tab s) (next_slot (length (pgen_tab s))) k
    (pgen_start_ok _ (pgen_pos s Hwf)) (mw_chain s Hwf) (next_slot_ok _)) as H.
  change (search pe_used pe_key pgen_start (pgen_tab s) (next_slot (length (pgen_tab s))) k) with (pgen_find k (pgen_tab s)) in H.
  unfold gens. rewrite lookup_fmap. destruct (pgen_find k (pgen_tab s)) as [j|].
  - destruct H as (e & Hj & [(Hu & Hk & ->)|(Hu & -> & He)]); exists e; (split; [done|]); [by left|by right].
  - destruct H as [-> ?]. done.
Qed.
Lemma gens_size s : memory_wf s -> size (gens s) = used_count pe_used (pgen_tab s).
Proof. intros Hwf. unfold gens. rewrite map_size_fmap. apply (used_count_size _ _ pgen_start), Hwf. Qed.
Lemma pgen_get_spec as_ addr s : memory_wf s -> pgen_get as_ addr s = default 0 (gens s !! (as_, page_base addr)).
Proof.
  intros Hwf. unfold pgen_get. pose proof (pgen_find_spec (as_, page_base addr) s Hwf) as H.
  destruct (pgen_find _ _) as [j|]; [|by destruct H as [-> _]].
  destruct H as (e & -> & [(-> & _ & ->)|(-> & -> & _)]); done.
Qed.
(** A key with room: counted from what is recorded, or from 0. *)
Definition bump_spec (k : Z * Z) (m : gmap (Z * Z) Z) : Z * gmap (Z * Z) Z :=
  match m !! k with
  | Some g => (u32 (g + 1), <[k := u32 (g + 1)]> m)
  | None => if Z.of_nat (size m) <? PGEN_SLOTS then (1, <[k := 1]> m) else (0, m)
  end.
Lemma pgen_bump_spec as_ addr s : memory_wf s -> page_base addr <> 0 ->
  let '(g, s') := pgen_bump as_ addr s in
  memory_wf s' /\ retain_tab s' = retain_tab s /\ (g, gens s') = bump_spec (as_, page_base addr) (gens s).
Proof.
  intros Hwf Hp. unfold pgen_bump, bump_spec. set (p := page_base addr) in *. set (k := (as_, p)).
  pose proof (pgen_find_spec k s Hwf) as H. pose proof (pgen_pos s Hwf) as Hpos. destruct (pgen_find k (pgen_tab s)) as [j|].
  2:{ destruct H as [-> Hall]. split; [done|]. split; [done|]. rewrite gens_size, used_count_full, (mw_pgen s Hwf) by done.
      by rewrite Z.ltb_irrefl. }
  destruct H as (e & Hj & Hcase). rewrite Hj.
  set (e' := mk_pgen p as_ _). assert (Hu' : pe_used e' = true) by (unfold pe_used; cbn; lia).
  assert (Hc' : chain pe_used pe_key pgen_start (<[j := e']> (pgen_tab s))).
  { destruct Hcase as [(Hu & Hk & _)|(Hu & _ & He)].
    - by eapply chain_update; [apply Hwf|done|done|done|].
    - by eapply chain_insert; [apply Hwf|by apply pgen_start_ok|done|done|done|]. }
  split; [split; [cbn [pgen_tab]; rewrite length_insert; apply Hwf|done|apply Hwf]|]. split; [done|].
  unfold gens at 1. cbn [pgen_tab]. erewrite (tab_map_write _ _ pgen_start); [|apply Hwf|done|done| |done].
  2:{ intros Hu. destruct Hcase as [(_ & Hk & _)|(? & _ & _)]; [done|congruence]. }
  rewrite fmap_insert. fold (gens s). change (pe_key e') with k. clear Hu' Hc'. subst e'. cbn [pe_gen].
  destruct Hcase as [(-> & _ & ->)|(Hu & -> & _)]; [done|]. rewrite Hu. change (u32 (0 + 1)) with 1. rewrite gens_size by done.
  rewrite (proj2 (Z.ltb_lt _ _)); [done|]. rewrite <- (mw_pgen s Hwf). clear -Hj Hu.
  apply Nat2Z.inj_lt. unfold used_count. apply (length_filter_lt _ _ e); [by eapply list_elem_of_lookup_2|]. by rewrite Hu.
Qed.
Definition clear_spec (as_ start end_ : Z) (m : gmap (Z * Z) Z) : gmap (Z * Z) Z :=
  map_imap (fun k g => Some (if in_span as_ start end_ k then 0 else g)) m.
Lemma pgen_forget_spec as_ start end_ s : memory_wf s ->
  memory_wf (pgen_forget as_ start end_ s) /\ gens (pgen_forget as_ start end_ s) = clear_spec as_ start end_ (gens s).
Proof.
  intros Hwf. destruct (chain_fmap pe_used pe_key pgen_start (pgen_clear as_ start end_) (pgen_tab s)) as [Hc Hm].
  { intros e. unfold pgen_clear. by destruct (_ && _). } { intros e. unfold pgen_clear. by destruct (_ && _). } { apply Hwf. }
  split; [split; [cbn; rewrite length_fmap; apply Hwf|done|apply Hwf]|].
  unfold gens, clear_spec. cbn [pgen_forget pgen_tab]. rewrite Hm. apply map_eq. intros k.
  rewrite map_lookup_imap, !lookup_fmap. destruct (tab_map pe_used pe_key (pgen_tab s) !! k) as [e|] eqn:He; [|done]. simpl.
  apply (tab_map_spec _ _ pgen_start) in He as (i & _ & Hu & <-); [|apply Hwf]. unfold pgen_clear. rewrite Hu. simpl.
  by destruct (in_span _ _ _ _).
Qed.

(** ** Retained bytes *)
Abbreviation rmap := (tab_map re_used re_key).
Abbreviation rchain := (chain re_used re_key retain_start).
Abbreviation rend := (chain_end re_used re_key retain_start).
Lemma retain_pos tab : retain_wf tab -> (0 < length tab)%nat.
Proof. intros Hwf. pose proof (rw_length tab Hwf). unfold RETAIN_SLOTS in *. lia. Qed.
(** An unused slot at the end of a key's probe: the key is absent. *)
Lemma free_absent tab k j e : rchain tab -> rend tab k j -> tab !! j = Some e -> re_used e = false -> rmap tab !! k = None.
Proof.
  intros Hc (d0 & _ & Hj0 & Hbef) Hj Hu. apply (tab_map_none _ _ retain_start); [done|].
  intros e2 (i2 & Hi2 & Hu2 & Hk2). destruct (Hc i2 e2 Hi2 Hu2) as (_ & d2 & _ & -> & Hd2). rewrite Hk2 in *.
  destruct (lt_eq_lt_dec d2 d0) as [[Hlt| ->]|Hlt].
  - destruct (Hbef d2 Hlt) as (e' & He' & _ & Hne). congruence.
  - congruence.
  - destruct (Hd2 d0 Hlt) as (e' & He' & Hu' & _). congruence.
Qed.
(** A slot an absent key may be written to. *)
Definition reusable (tab : list retain_ent) (k : Z * Z) (j : nat) : Prop :=
  rend tab k j /\ exists e, tab !! j = Some e /\ re_live e = false.
Definition probe_answer (tab : list retain_ent) (k : Z * Z) (create : bool) (r : option nat) : Prop :=
  match r with
  | Some j => (exists e, tab !! j = Some e /\ re_used e = true /\ re_key e = k /\ rmap tab !! k = Some e) \/
              create = true /\ rmap tab !! k = None /\ reusable tab k j
  | None => rmap tab !! k = None /\ (create = true -> forall i e, tab !! i = Some e -> re_used e = true /\ re_live e = true)
  end.
Lemma retain_loop_spec tab k create : retain_wf tab -> snd k <> 0 -> forall fuel d tomb,
  (d + fuel = length tab)%nat ->
  (forall d', (d' < d)%nat -> exists e', tab !! at_ (length tab) (retain_start k (length tab)) d' = Some e' /\
     re_used e' = true /\ re_key e' <> k) ->
  match tomb with
  | None => create = true -> forall d', (d' < d)%nat -> exists e',
      tab !! at_ (length tab) (retain_start k (length tab)) d' = Some e' /\ re_live e' = true
  | Some t => create = true /\ reusable tab k t
  end ->
  probe_answer tab k create (retain_loop tab k create fuel (at_ (length tab) (retain_start k (length tab)) d) tomb).
Proof.
  intros Hwf Hk. pose proof (retain_pos tab Hwf) as Hpos. pose proof (rw_chain tab Hwf) as Hc. set (n := length tab) in *.
  set (p := retain_start k n). assert (Hp : (p < n)%nat) by (by apply retain_start_ok).
  induction fuel as [|fuel IH]; intros d tomb Hd Hbef Htomb; cbn [retain_loop].
  { assert (Hall : forall i e, tab !! i = Some e -> re_used e = true /\ re_key e <> k).
    { intros i e Hi. destruct (at_surj n p i Hp) as (d0 & Hd0 & <-); [by eapply lookup_lt_Some|].
      destruct (Hbef d0) as (e' & He' & ? & ?); [lia|]. fold p in He'. rewrite Hi in He'. by injection He' as <-. }
    assert (Hnone : rmap tab !! k = None).
    { apply (tab_map_none _ _ retain_start); [done|]. intros e (i & Hi & _ & Hke). by apply (Hall i e Hi). }
    destruct create.
    - destruct tomb as [t|]; [right; split; [done|]; split; [done|]; apply Htomb|]. split; [done|]. intros _ i e Hi.
      split; [by apply (Hall i)|]. destruct (at_surj n p i Hp) as (d0 & Hd0 & <-); [by eapply lookup_lt_Some|].
      destruct (Htomb eq_refl d0) as (e' & He' & ?); [lia|]. fold p in He'. rewrite Hi in He'. by injection He' as <-.
    - split; done. }
  destruct (lookup_lt_is_Some_2 tab (at_ n p d)) as [e He]; [by apply at_lt|]. rewrite He.
  assert (Hend : rend tab k (at_ n p d)) by (exists d; split; [unfold n in *; lia|]; done).
  destruct (bool_decide (re_key e = k) && (re_live e || re_used e)) eqn:Hm.
  { apply andb_true_iff in Hm as [Hm%bool_decide_eq_true _]. left. exists e. split; [done|].
    assert (Hu : re_used e = true) by (unfold re_used; subst k; cbn in Hk; lia). split; [done|]. split; [done|].
    apply (tab_map_spec _ _ retain_start); [done|]. eexists. eauto. }
  destruct (re_used e) eqn:Hu; cbn [negb andb].
  - assert (Hne : re_key e <> k).
    { intros Heq. rewrite (proj2 (bool_decide_eq_true (re_key e = k)) Heq), orb_true_r in Hm. done. }
    assert (Hbef' : forall d', (d' < S d)%nat -> exists e', tab !! at_ n p d' = Some e' /\ re_used e' = true /\ re_key e' <> k).
    { intros d' Hd'. destruct (decide (d' = d)) as [->|]; [eauto|]. apply Hbef. lia. }
    unfold next_slot. change (((at_ n p d + 1) mod length tab)%nat) with (next_slot n (at_ n p d)).
    rewrite (at_next n (next_slot n) p d (next_slot_ok n) Hpos). apply IH; [lia|exact Hbef'|].
    destruct (create && negb (re_live e) && bool_decide (tomb = None)) eqn:Ht.
    + apply andb_true_iff in Ht as [[Hcr Hl%negb_true_iff]%andb_true_iff _]. split; [done|]. split; [done|]. eauto.
    + destruct tomb as [t|]; [done|]. intros Hcr d' Hd'. destruct (decide (d' = d)) as [->|]; [|apply Htomb; [done|lia]].
      exists e. split; [done|]. rewrite Hcr in Ht. simpl in Ht. rewrite andb_true_r in Ht. by apply negb_false_iff in Ht.
  - assert (Hl : re_live e = false).
    { destruct (re_live e) eqn:Hl; [|done]. exfalso. pose proof (rw_live tab Hwf e (list_elem_of_lookup_2 _ _ _ He) Hl). congruence. }
    rewrite Hl. cbn [negb]. assert (Hnone : rmap tab !! k = None) by (by eapply free_absent).
    destruct create; [|by split]. right. split; [done|]. split; [done|].
    destruct tomb as [t|]; [apply Htomb|]. split; [done|]. eauto.
Qed.
Lemma retain_probe_spec tab k create : retain_wf tab -> snd k <> 0 -> probe_answer tab k create (retain_probe k create tab).
Proof.
  intros Hwf Hk. pose proof (retain_pos tab Hwf) as Hpos. unfold retain_probe.
  rewrite <- (at_0 (length tab) (retain_start k (length tab))) at 1 by (by apply retain_start_ok).
  apply retain_loop_spec; [done|done|done|intros; lia|]. intros _ d' Hd'. lia.
Qed.

(** ** The size of the live map *)
Lemma kept_lookup tab k v : rchain tab -> kept_in tab !! k = Some v <-> exists e, rmap tab !! k = Some e /\ kept_value e = Some v.
Proof. intros Hc. unfold kept_in. rewrite lookup_omap. destruct (rmap tab !! k); simpl; naive_solver. Qed.
Lemma kept_size tab : retain_wf tab -> size (kept_in tab) = length (filter (fun e => re_live e = true) tab).
Proof.
  intros Hwf. pose proof (rw_chain tab Hwf) as Hc.
  set (live := filter (fun e => re_live e = true) tab).
  assert (Hnd : NoDup (re_key <$> live)).
  { eapply sublist_NoDup; [apply (chain_nodup_keys _ _ retain_start tab Hc)|]. apply fmap_sublist.
    rewrite <- (filter_all (fun e => re_used e = true) live); [|intros x [Hl Hx]%list_elem_of_filter; by apply (rw_live tab Hwf)].
    subst live. rewrite filter_swap. apply sublist_filter. }
  transitivity (size (list_to_map ((fun e => (re_key e, (re_gen e, re_bytes e))) <$> live) : gmap (Z * Z) (Z * bytes))).
  2:{ rewrite map_size_list_to_map; [by rewrite length_fmap|by rewrite <- list_fmap_compose]. }
  f_equal. apply map_eq. intros k. apply option_eq. intros v. rewrite kept_lookup by done.
  rewrite <- elem_of_list_to_map by (by rewrite <- list_fmap_compose). rewrite list_elem_of_fmap. unfold kept_value. split.
  - intros (e & (i & Hi & Hu & <-)%(tab_map_spec _ _ retain_start) & Hv); [|done]. exists e. destruct (re_live e) eqn:Hl; [|done].
    injection Hv as <-. split; [done|]. apply list_elem_of_filter. split; [done|]. by eapply list_elem_of_lookup_2.
  - intros (e & [= -> ->] & [Hl Hin]%list_elem_of_filter). exists e. rewrite Hl. split; [|done].
    apply (tab_map_spec _ _ retain_start); [done|]. apply list_elem_of_lookup in Hin as [i Hi]. exists i. split; [done|]. split; [|done].
    apply (rw_live tab Hwf); [by eapply list_elem_of_lookup_2|done].
Qed.
Lemma kept_room tab j e : retain_wf tab -> tab !! j = Some e -> re_live e = false -> Z.of_nat (size (kept_in tab)) < RETAIN_SLOTS.
Proof.
  intros Hwf Hj Hl. rewrite kept_size, <- (rw_length tab Hwf) by done. apply Nat2Z.inj_lt.
  apply (length_filter_lt _ _ e); [by eapply list_elem_of_lookup_2|by rewrite Hl].
Qed.
Lemma kept_full tab : retain_wf tab -> (forall i e, tab !! i = Some e -> re_live e = true) -> Z.of_nat (size (kept_in tab)) = RETAIN_SLOTS.
Proof.
  intros Hwf Hall. rewrite kept_size, <- (rw_length tab Hwf) by done. rewrite filter_all; [done|].
  intros e [i Hi]%list_elem_of_lookup. by eapply Hall.
Qed.

(** ** Insertion, lookup and removal *)
Lemma put_slot tab k g data : retain_wf tab -> snd k <> 0 ->
  let e' := mk_retain (snd k) (fst k) true g data in
  match retain_probe k true tab with
  | Some j => (exists e, tab !! j = Some e) /\ retain_wf (<[j := e']> tab) /\
      kept_in (<[j := e']> tab) = <[k := (g, data)]> (kept_in tab) /\
      (is_Some (kept_in tab !! k) \/ Z.of_nat (size (kept_in tab)) < RETAIN_SLOTS)
  | None => kept_in tab !! k = None /\ Z.of_nat (size (kept_in tab)) = RETAIN_SLOTS
  end.
Proof.
  intros Hwf Hk e'. pose proof (rw_chain tab Hwf) as Hc. pose proof (retain_probe_spec tab k true Hwf Hk) as Hans.
  assert (Hst : start_ok retain_start (length tab)) by (by apply retain_start_ok, retain_pos).
  assert (Hu' : re_used e' = true) by (unfold re_used; cbn; lia). assert (Hk' : re_key e' = k) by (by destruct k).
  assert (Hlive : forall j, forall e, e ∈ <[j := e']> tab -> re_live e = true -> re_used e = true).
  { intros j e He Hl. apply list_elem_of_lookup in He as [i Hi]. apply list_lookup_insert_Some in Hi as [(_ & <- & _)|[_ Hi]]; [done|].
    apply (rw_live tab Hwf); [by eapply list_elem_of_lookup_2|done]. }
  destruct (retain_probe k true tab) as [j|]; cbn [probe_answer] in Hans.
  2:{ destruct Hans as [Hnone Hall]. split; [unfold kept_in; by rewrite lookup_omap, Hnone|].
      apply kept_full; [done|]. intros i e Hi. by apply (Hall eq_refl i e). }
  assert (Hput : forall e m, tab !! j = Some e -> rchain (<[j := e']> tab) -> rmap (<[j := e']> tab) = <[k := e']> m ->
    omap kept_value m = kept_in tab -> retain_wf (<[j := e']> tab) /\ kept_in (<[j := e']> tab) = <[k := (g, data)]> (kept_in tab)).
  { intros e m Hj Hc' Hm Ho. split; [split; [rewrite length_insert; apply Hwf|done|apply Hlive]|].
    unfold kept_in at 1. rewrite Hm. rewrite <- Ho. by apply omap_insert_Some. }
  destruct Hans as [(e & Hj & Hu & Hke & Hm)|(_ & Hnone & Hend & e & Hj & Hl)].
  - split; [by eexists|]. assert (Hc' : rchain (<[j := e']> tab)) by (eapply chain_update; [done|done|done|done|congruence]).
    destruct (Hput e (rmap tab)) as [? ?]; [done|done| |done|split; [done|]; split; [done|]].
    + rewrite <- Hk'. eapply (tab_map_write _ _ retain_start); [done|done|done|congruence|done].
    + destruct (re_live e) eqn:Hl; [left|right; by eapply kept_room]. unfold kept_in. rewrite lookup_omap, Hm. unfold kept_value. simpl.
      rewrite Hl. by eexists.
  - split; [by eexists|]. rewrite <- Hk' in Hend, Hnone. destruct (re_used e) eqn:Hu.
    + assert (Hc' : rchain (<[j := e']> tab)) by (by eapply chain_replace).
      destruct (Hput e (delete (re_key e) (rmap tab))) as [? ?]; [done|done| | |split; [done|]; split; [done|]; right; by eapply kept_room].
      * rewrite <- Hk'. by apply (tab_map_replace _ _ retain_start).
      * rewrite omap_delete. apply delete_id. change (kept_in tab !! re_key e = None). unfold kept_in.
        rewrite lookup_omap, (proj2 (tab_map_spec _ _ retain_start tab (re_key e) e Hc)); [|exists j; done].
        simpl. unfold kept_value. by rewrite Hl.
    + assert (Hc' : rchain (<[j := e']> tab)) by (by eapply chain_insert).
      destruct (Hput e (rmap tab)) as [? ?]; [done|done| |done|split; [done|]; split; [done|]; right; by eapply kept_room].
      rewrite <- Hk'. eapply (tab_map_write _ _ retain_start); [done|done|done|congruence|done].
Qed.
Definition put_spec (k : Z * Z) (v : Z * bytes) (m : gmap (Z * Z) (Z * bytes)) : gmap (Z * Z) (Z * bytes) :=
  if bool_decide (is_Some (m !! k)) || (Z.of_nat (size m) <? RETAIN_SLOTS) then <[k := v]> m else m.
Lemma fresh_tab_gen n : Z.of_nat n = RETAIN_SLOTS ->
  retain_wf (replicate n (mk_retain 0 0 false 0 [])) /\ kept_in (replicate n (mk_retain 0 0 false 0 [])) = ∅.
Proof.
  intros Hn. split.
  - split; [by rewrite length_replicate|by apply chain_fresh|]. intros e [i Hi]%list_elem_of_lookup. by apply lookup_replicate in Hi as [-> _].
  - unfold kept_in. rewrite tab_map_fresh by done. apply omap_empty.
Qed.
Lemma retain_put_spec alloc as_ addr data s : memory_wf s -> is_u64 addr -> page_base addr <> 0 ->
  let s' := retain_put alloc as_ addr data s in
  memory_wf s' /\ gens s' = gens s /\
  (kept s' = put_spec (as_, page_base addr) (pgen_get as_ addr s, data) (kept s) \/ alloc = false /\ retain_tab s = None /\ s' = s).
Proof.
  intros Hwf Hu Hp. unfold retain_put. set (p := page_base addr) in *. cbv zeta.
  assert (Hg : pgen_get as_ p s = pgen_get as_ addr s) by (unfold pgen_get, p; by rewrite page_base_idem).
  rewrite Hg. set (g := pgen_get as_ addr s). unfold retain_create.
  set (tab := match retain_tab s with Some tab => Some tab | None => _ end).
  assert (Htab : match tab with
    | Some t => retain_wf t /\ kept_in t = kept s
    | None => alloc = false /\ retain_tab s = None end).
  { subst tab. unfold kept. destruct (retain_tab s) as [t|] eqn:Ht; [by split; [apply (mw_retain s Hwf)|]|]. destruct alloc; [|done].
    apply fresh_tab_gen. apply Z2Nat.id. unfold RETAIN_SLOTS. lia. }
  clearbody tab. destruct tab as [t|]; [|split; [done|]; split; [done|]; right; tauto].
  destruct Htab as [Ht Hk]. pose proof (put_slot t (as_, p) g data Ht Hp) as Hput. cbv zeta in Hput.
  destruct (retain_probe (as_, p) true t) as [j|].
  - destruct Hput as ([e He] & Hwf' & Hkept & Hroom). rewrite He. cbn [pgen_tab fst snd] in *. rewrite list_insert_insert_eq.
    split; [split; [apply Hwf|apply Hwf|intros ? [= <-]; done]|]. split; [done|]. left. unfold kept. cbn [retain_tab].
    change (kept_in (<[j := mk_retain p as_ true g data]> t) = put_spec (as_, p) (g, data) (kept s)).
    rewrite Hkept, <- Hk. unfold put_spec. destruct Hroom as [Hin|Hlt].
    + by rewrite (proj2 (bool_decide_eq_true _) Hin).
    + by rewrite (proj2 (Z.ltb_lt _ _) Hlt), orb_true_r.
  - split; [split; [apply Hwf|apply Hwf|intros ? [= <-]; done]|]. split; [done|]. left.
    change (kept_in t = put_spec (as_, p) (g, data) (kept s)). rewrite <- Hk. unfold put_spec. destruct Hput as [Hnone ->].
    rewrite Hnone, Z.ltb_irrefl. done.
Qed.
Lemma retain_get_spec as_ addr s : memory_wf s -> page_base addr <> 0 -> retain_get_gen as_ addr s = kept s !! (as_, page_base addr).
Proof.
  intros Hwf Hp. unfold retain_get_gen, retain_lookup, kept. set (k := (as_, page_base addr)).
  destruct (retain_tab s) as [t|] eqn:Ht; simpl; [|by rewrite lookup_empty].
  pose proof (retain_probe_spec t k false (mw_retain s Hwf t Ht) Hp) as Hans. unfold kept_in. rewrite lookup_omap.
  destruct (retain_probe k false t) as [j|].
  - destruct Hans as [(e & -> & _ & _ & ->)|[? _]]; [done|done].
  - by destruct Hans as [-> _].
Qed.
Definition bury_spec (as_ start end_ : Z) (m : gmap (Z * Z) (Z * bytes)) : gmap (Z * Z) (Z * bytes) :=
  filter (fun x => in_span as_ (page_base start) end_ (fst x) = false) m.
Lemma bury_tab as_ start end_ t : retain_wf t ->
  retain_wf (retain_bury as_ start end_ <$> t) /\
  kept_in (retain_bury as_ start end_ <$> t) = filter (fun x => in_span as_ start end_ (fst x) = false) (kept_in t).
Proof.
  intros Ht. destruct (chain_fmap re_used re_key retain_start (retain_bury as_ start end_) t) as [Hc Hm].
  { intros e. unfold retain_bury. by destruct (_ && _). } { intros e. unfold retain_bury. by destruct (_ && _). } { apply Ht. }
  split.
  - split; [rewrite length_fmap; apply Ht|done|]. intros e He Hl. apply list_elem_of_fmap in He as (e0 & -> & He0).
    unfold retain_bury in *. destruct (re_live e0 && _) eqn:Hd; [done|]. by apply (rw_live t Ht).
  - unfold kept_in. rewrite Hm. apply map_eq. intros k. rewrite map_lookup_filter, !lookup_omap, lookup_fmap.
    destruct (rmap t !! k) as [e|] eqn:He; [|done]. simpl. apply (tab_map_spec _ _ retain_start) in He as (i & _ & _ & <-); [|apply Ht].
    unfold retain_bury, kept_value. destruct (re_live e) eqn:Hl; simpl; [|by rewrite Hl].
    destruct (in_span as_ start end_ (re_key e)) eqn:Hs; simpl; [done|]. rewrite Hl. done.
Qed.
Lemma retain_forget_spec as_ start end_ s : memory_wf s -> is_u64 start ->
  memory_wf (retain_forget as_ start end_ s) /\ gens (retain_forget as_ start end_ s) = gens s /\
  kept (retain_forget as_ start end_ s) = if end_ <=? start then kept s else bury_spec as_ start end_ (kept s).
Proof.
  intros Hwf Hu. unfold retain_forget. destruct (end_ <=? start); [done|]. split; [|split; [done|]].
  - split; [apply Hwf|apply Hwf|]. cbn [retain_tab]. destruct (retain_tab s) as [t|] eqn:Ht; [|done]. intros ? [= <-].
    apply bury_tab. by apply (mw_retain s Hwf).
  - unfold kept, bury_spec. cbn [retain_tab]. destruct (retain_tab s) as [t|] eqn:Ht; simpl; [|by rewrite map_filter_empty].
    apply bury_tab. by apply (mw_retain s Hwf).
Qed.

(** ** Refinement of the maps *)
Inductive page_op :=
| OpBump (as_ addr : Z)
| OpGeneration (as_ addr : Z)
| OpRetain (alloc : bool) (as_ addr : Z) (data : bytes)
| OpRetained (as_ addr : Z)
| OpForgetBytes (as_ start end_ : Z)
| OpForgetGenerations (as_ start end_ : Z).
Inductive page_answer := Nothing | Generation (g : Z) | Retained (v : option (Z * bytes)).
Definition page_run (op : page_op) (s : memory) : page_answer * memory :=
  match op with
  | OpBump as_ addr => let '(g, s) := pgen_bump as_ addr s in (Generation g, s)
  | OpGeneration as_ addr => (Generation (pgen_get as_ addr s), s)
  | OpRetain alloc as_ addr data => (Nothing, retain_put alloc as_ addr data s)
  | OpRetained as_ addr => (Retained (retain_get_gen as_ addr s), s)
  | OpForgetBytes as_ start end_ => (Nothing, retain_forget as_ start end_ s)
  | OpForgetGenerations as_ start end_ => (Nothing, pgen_forget as_ start end_ s)
  end.
(** Generations, retained pages, and whether the table of the latter exists. *)
Record pages := mk_pages { p_gens : gmap (Z * Z) Z; p_kept : gmap (Z * Z) (Z * bytes); p_ready : bool }.
Definition page_spec (op : page_op) (m : pages) : page_answer * pages :=
  match op with
  | OpBump as_ addr =>
      let '(g, gs) := bump_spec (as_, page_base addr) (p_gens m) in (Generation g, mk_pages gs (p_kept m) (p_ready m))
  | OpGeneration as_ addr => (Generation (default 0 (p_gens m !! (as_, page_base addr))), m)
  | OpRetain alloc as_ addr data =>
      let k := (as_, page_base addr) in
      (Nothing, if p_ready m || alloc
                then mk_pages (p_gens m) (put_spec k (default 0 (p_gens m !! k), data) (p_kept m)) true
                else m)
  | OpRetained as_ addr => (Retained (p_kept m !! (as_, page_base addr)), m)
  | OpForgetBytes as_ start end_ =>
      (Nothing, if end_ <=? start then m else mk_pages (p_gens m) (bury_spec as_ start end_ (p_kept m)) (p_ready m))
  | OpForgetGenerations as_ start end_ => (Nothing, mk_pages (clear_spec as_ start end_ (p_gens m)) (p_kept m) (p_ready m))
  end.
Definition memory_pages (s : memory) : pages := mk_pages (gens s) (kept s) (bool_decide (is_Some (retain_tab s))).
(** Page 0 marks an unused slot, so it is not a key. *)
Definition op_ok (op : page_op) : Prop :=
  match op with
  | OpBump _ addr | OpGeneration _ addr | OpRetain _ _ addr _ | OpRetained _ addr => is_u64 addr /\ page_base addr <> 0
  | OpForgetBytes _ start _ | OpForgetGenerations _ start _ => is_u64 start
  end.
Lemma page_run_spec op s : memory_wf s -> op_ok op ->
  let '(x, s') := page_run op s in memory_wf s' /\ (x, memory_pages s') = page_spec op (memory_pages s).
Proof.
  intros Hwf Hok. destruct op as [as_ addr|as_ addr|alloc as_ addr data|as_ addr|as_ start end_|as_ start end_]; cbn [page_run page_spec op_ok] in *.
  - pose proof (pgen_bump_spec as_ addr s Hwf (proj2 Hok)) as H. destruct (pgen_bump as_ addr s) as [g s'].
    destruct H as (Hwf' & Hr & Heq). split; [done|]. cbn [memory_pages p_gens p_kept p_ready]. rewrite <- Heq. unfold memory_pages, kept. by rewrite Hr.
  - split; [done|]. by rewrite pgen_get_spec.
  - destruct Hok as [Hu Hp]. destruct (retain_put_spec alloc as_ addr data s Hwf Hu Hp) as (Hwf' & Hg & Hcase).
    split; [done|]. f_equal. cbn [memory_pages p_gens p_kept p_ready]. rewrite <- (pgen_get_spec as_ addr s Hwf).
    destruct Hcase as [Hk|(-> & Hnone & ->)]; [|unfold memory_pages; by rewrite Hnone].
    unfold memory_pages at 1. rewrite Hg, Hk. unfold retain_put, retain_create. cbv zeta.
    destruct (retain_tab s) as [t|] eqn:Ht; cbn [orb bool_decide].
    + rewrite (bool_decide_eq_true_2 (is_Some (Some t))) by (by eexists). cbn [orb]. f_equal.
      destruct (retain_probe _ true t) as [j|]; [|by apply bool_decide_eq_true_2; eexists].
      destruct (t !! j); by apply bool_decide_eq_true_2; eexists.
    + rewrite (bool_decide_eq_false_2 (is_Some None)) by (by intros [? ?]). cbn [orb]. destruct alloc.
      * f_equal. destruct (retain_probe _ true _) as [j|]; [|by apply bool_decide_eq_true_2; eexists].
        destruct (_ !! j); by apply bool_decide_eq_true_2; eexists.
      * unfold retain_put, retain_create in Hk. cbv zeta in Hk. rewrite Ht in Hk. rewrite <- Hk. unfold memory_pages. by rewrite Ht.
  - split; [done|]. rewrite retain_get_spec; [done|done|apply Hok].
  - destruct (retain_forget_spec as_ start end_ s Hwf Hok) as (Hwf' & Hg & Hk). split; [done|]. f_equal. unfold memory_pages at 1.
    rewrite Hg, Hk. unfold retain_forget. destruct (end_ <=? start); [done|]. cbn [memory_pages p_gens p_kept p_ready retain_tab].
    f_equal. by destruct (retain_tab s).
  - destruct (pgen_forget_spec as_ start end_ s Hwf) as [Hwf' Hg]. split; [done|]. f_equal. unfold memory_pages at 1. by rewrite Hg.
Qed.
Fixpoint pages_run (ops : list page_op) (s : memory) : list page_answer * memory :=
  match ops with
  | [] => ([], s)
  | op :: ops => let '(x, s) := page_run op s in let '(xs, s) := pages_run ops s in (x :: xs, s)
  end.
Fixpoint pages_spec (ops : list page_op) (m : pages) : list page_answer * pages :=
  match ops with
  | [] => ([], m)
  | op :: ops => let '(x, m) := page_spec op m in let '(xs, m) := pages_spec ops m in (x :: xs, m)
  end.

(** C26: The probed tables of take generations and retained bytes are finite
    maps: any sequence of captures, reads, insertions, lookups and removals of
    ranges answers as the maps do.  A generation counts the captures of its
    page since the range was last vacated; the bytes got back are those of the
    last insertion, stamped with the generation of that moment, unless the
    range was vacated since, and never those of another page whatever
    tombstone was taken over.  Exactly a key with no record finds a full table
    of generations full, and exactly a page that is not live finds 32768 live
    pages in the other. *)
Theorem page_tables_refine_maps ops s :
  memory_wf s -> Forall op_ok ops ->
  let '(xs, s') := pages_run ops s in memory_wf s' /\ (xs, memory_pages s') = pages_spec ops (memory_pages s).
Proof.
  intros Hwf Hops. revert s Hwf. induction Hops as [|op ops Hop _ IH]; intros s Hwf; cbn [pages_run pages_spec]; [done|].
  pose proof (page_run_spec op s Hwf Hop) as H. destruct (page_run op s) as [x s1]. destruct H as [Hwf1 Hx].
  specialize (IH s1 Hwf1). destruct (pages_run ops s1) as [xs s2]. destruct IH as [Hwf2 Hxs]. split; [done|].
  rewrite <- Hx, <- Hxs. done.
Qed.
Lemma memory_init_wf : memory_wf memory_init.
Proof.
  unfold memory_init. assert (Hn : Z.of_nat (Z.to_nat PGEN_SLOTS) = PGEN_SLOTS) by (apply Z2Nat.id; unfold PGEN_SLOTS; lia).
  revert Hn. generalize (Z.to_nat PGEN_SLOTS). intros n Hn. split; [cbn; by rewrite length_replicate|by apply chain_fresh|done].
Qed.
Definition demo_ops : list page_op :=
  [OpBump 7 0x5123; OpBump 7 0x5000; OpRetain true 7 0x5010 [1; 2]; OpBump 7 0x5000; OpRetained 7 0x5fff;
   OpForgetBytes 7 0x5000 0x6000; OpForgetGenerations 7 0x5000 0x6000; OpRetained 7 0x5000; OpGeneration 7 0x5000;
   OpRetain true 8 0x5000 [3]; OpRetained 8 0x5000].
Lemma page_tables_refine_maps_witness :
  fst (pages_run demo_ops memory_init) =
    [Generation 1; Generation 2; Nothing; Generation 3; Retained (Some (2, [1; 2])); Nothing; Nothing; Retained None;
     Generation 0; Nothing; Retained (Some (0, [3]))] /\ memory_wf (snd (pages_run demo_ops memory_init)).
Proof.
  split; [vm_compute; reflexivity|].
  assert (Hok : Forall op_ok demo_ops).
  { repeat (apply Forall_cons; split; [vm_compute; intuition congruence|]). apply Forall_nil_2. }
  pose proof (page_tables_refine_maps demo_ops memory_init memory_init_wf Hok) as H.
  destruct (pages_run demo_ops memory_init) as [xs s']. exact (proj1 H).
Defined.

(** When 32768 pages are live, a page that is captured then is dropped, and the
    next question about it is answered as for a page never moved. *)
Theorem full_table_forgets_a_capture s as_ addr data :
  memory_wf s -> is_u64 addr -> page_base addr <> 0 -> Z.of_nat (size (kept s)) = RETAIN_SLOTS ->
  kept s !! (as_, page_base addr) = None -> retain_get as_ addr (retain_put true as_ addr data s) = None.
Proof.
  intros Hwf Hu Hp Hfull Hnone. destruct (retain_put_spec true as_ addr data s Hwf Hu Hp) as (Hwf' & _ & [Hk|[? _]]); [|done].
  unfold retain_get. rewrite retain_get_spec, Hk by done. unfold put_spec. rewrite Hnone, Hfull, Z.ltb_irrefl.
  rewrite (bool_decide_eq_false_2 (is_Some None)) by (by intros [? ?]). cbn [orb]. by rewrite Hnone.
Qed.
End Retain.
