(* ===== verification/Regions.v ===== *)
(** * The executor's layout table (user/vmremote.c, struct region)

    A fixed array of the ranges of each address space with their protection,
    filled from the layout the source sends.  A range the guest has mapped over
    or given up is cut out; a covered row is cleared in place and a row cut in
    two gets its upper part appended.  The array never shrinks, and a full one
    ends the process.  The meaning of a table is that of its non-empty rows
    (Ranges.v). *)
From S2P Require Import Prelude Ranges.
Open Scope Z_scope.

Module Regions.

Definition MAX_REGIONS : Z := 4096.
Definition PROT_READ : Z := 1.
Definition PROT_WRITE : Z := 2.
Definition PROT_EXEC : Z := 4.
Record region := mk_region { rg_start : Z; rg_end : Z; rg_as : Z; rg_prot : Z }.
#[global] Instance region_row : RangeRow region Z := {|
  row_as := rg_as; row_st := rg_start; row_en := rg_end;
  cut_hi x r := mk_region (rg_start r) x (rg_as r) (rg_prot r);
  cut_lo x r := mk_region x (rg_end r) (rg_as r) (rg_prot r);
  row_at r _ := rg_prot r |}.
#[global] Instance region_laws : RangeRowLaws region Z.
Proof. by split. Qed.
Abbreviation full rows := (MAX_REGIONS <=? Z.of_nat (length rows)).

(** The newest row that covers the address. *)
Definition region_snapshot (as_ addr : Z) (rows : list region) : option region := row_find as_ addr (reverse rows).
Definition live (rows : list region) : list region := filter (fun r => rg_start r < rg_end r) rows.
Definition region_snapshot_all (alloc : bool) (as_ : Z) (rows : list region) : result (list region) :=
  let copy := filter (fun r => rg_as r = as_) (live rows) in
  match copy with [] => Ok [] | _ => if alloc then Ok copy else Aborted end.
Definition region_add (as_ start end_ prot : Z) (rows : list region) : result (list region) :=
  if full rows then Aborted else Ok (rows ++ [mk_region start end_ as_ prot]).
(** The rows the table had when the loop began. *)
Fixpoint inherit_loop (kas pas : Z) (first rows : list region) : result (list region) :=
  match first with
  | [] => Ok rows
  | r :: first =>
      if negb (rg_as r =? pas) || (rg_end r <=? rg_start r) then inherit_loop kas pas first rows
      else if full rows then Aborted
      else inherit_loop kas pas first (rows ++ [mk_region (rg_start r) (rg_end r) kas (rg_prot r)])
  end.
Definition region_inherit (kas pas : Z) (rows : list region) : result (list region) :=
  if kas =? pas then Ok rows else inherit_loop kas pas rows rows.
(** The perms column of a layout line. *)
Definition prot_of_perms (r w x : bool) : Z :=
  (if r then PROT_READ else 0) .| (if w then PROT_WRITE else 0) .| (if x then PROT_EXEC else 0).
(** The lines that parse: start, end and permissions. *)
Fixpoint region_parse_layout (as_ : Z) (lines : list (Z * Z * (bool * bool * bool))) (rows : list region) : result (list region) :=
  match lines with
  | [] => Ok rows
  | (st, en, (r, w, x)) :: lines =>
      let! rows := region_add as_ st en (prot_of_perms r w x) rows in region_parse_layout as_ lines rows
  end.
Fixpoint forget_loop (as_ st en : Z) (fuel i : nat) (rows : list region) : result (list region) :=
  match fuel with
  | O => Hung
  | S fuel =>
      match rows !! i with
      | None => Ok rows
      | Some r =>
          let next := forget_loop as_ st en fuel (S i) in
          if negb (rg_as r =? as_) || (rg_end r <=? st) || (en <=? rg_start r) then next rows
          else if (st <=? rg_start r) && (rg_end r <=? en) then next (<[i := mk_region 0 0 (rg_as r) (rg_prot r)]> rows)
          else if (rg_start r <? st) && (en <? rg_end r) then
            if full rows then Aborted else next (<[i := cut_hi st r]> rows ++ [cut_lo en r])
          else if rg_start r <? st then next (<[i := cut_hi st r]> rows)
          else next (<[i := cut_lo en r]> rows)
      end
  end.
(** The array holds at most MAX_REGIONS rows, so the loop ends within as many
    iterations. *)
Definition forget_fuel : nat := S (Z.to_nat MAX_REGIONS).
Definition region_forget_range (as_ st en : Z) (rows : list region) : result (list region) :=
  if en <=? st then Ok rows else forget_loop as_ st en forget_fuel 0 rows.

(** ** The table's meaning *)
Record regions_wf (rows : list region) : Prop := {
  rg_count : Z.of_nat (length rows) <= MAX_REGIONS;
  rg_rows : rows_wf (live rows)
}.
Definition region_at (rows : list region) (as_ a : Z) : option Z := rg_prot <$> region_snapshot as_ a rows.

Lemma find_live as_ a rows : row_find as_ a rows = row_find as_ a (live rows).
Proof.
  induction rows as [|r rows IH]; [done|]. unfold live in *. rewrite filter_cons. cbn [row_find].
  destruct (row_in as_ a r) eqn:Hr.
  - rewrite decide_True; [cbn [row_find]; by rewrite Hr|]. unfold row_in in Hr. simpl in Hr. lia.
  - case_decide; [cbn [row_find]; by rewrite Hr|done].
Qed.
Lemma live_app rows rows' : live (rows ++ rows') = live rows ++ live rows'.
Proof. apply list.filter_app. Qed.
Lemma live_ok rows : Forall row_ok (live rows).
Proof. apply Forall_forall. by intros r [? _]%list_elem_of_filter. Qed.
Lemma region_at_denote rows as_ a : regions_wf rows -> region_at rows as_ a = denote (live rows) as_ a.
Proof.
  intros Hwf. unfold region_at, region_snapshot. rewrite find_live.
  change (denote (live (reverse rows)) as_ a = denote (live rows) as_ a). symmetry. apply denote_perm; [|apply Hwf].
  apply filter_Permutation. by rewrite reverse_Permutation.
Qed.

(** ** Cutting a range out *)
Lemma live_carve_out as_ st en r : st <= en -> row_hit as_ st en r = false -> live [r] ≫= carve as_ st en = live [r].
Proof. intros Hle Hh. unfold live. rewrite filter_cons. case_decide; [|done]. simpl. unfold carve. by rewrite Hh. Qed.
Lemma forget_loop_spec as_ st en : 0 <= st < en -> forall fuel i rows,
  Z.of_nat (length rows) <= MAX_REGIONS -> (i <= length rows)%nat -> MAX_REGIONS < Z.of_nat fuel + Z.of_nat i ->
  match forget_loop as_ st en fuel i rows with
  | Ok rows' => Z.of_nat (length rows') <= MAX_REGIONS /\
      live rows' ≡ₚ live (take i rows) ++ (live (drop i rows) ≫= carve as_ st en)
  | Aborted => True
  | _ => False
  end.
Proof.
  intros Hr. induction fuel as [|fuel IH]; intros i rows Hlen Hil Hfuel; cbn [forget_loop].
  { exfalso. lia. }
  destruct (rows !! i) as [r|] eqn:Hi.
  2:{ apply lookup_ge_None in Hi. split; [done|]. rewrite take_ge, drop_ge by done. simpl. by rewrite app_nil_r. }
  pose proof (lookup_lt_Some _ _ _ Hi) as Hlt.
  (** one row replaced, possibly with one appended *)
  assert (Hstep : forall r1 more, Z.of_nat (length (<[i := r1]> rows ++ more)) <= MAX_REGIONS ->
    live [r1] ++ (live more ≫= carve as_ st en) ≡ₚ live [r] ≫= carve as_ st en ->
    match forget_loop as_ st en fuel (S i) (<[i := r1]> rows ++ more) with
    | Ok rows' => Z.of_nat (length rows') <= MAX_REGIONS /\
        live rows' ≡ₚ live (take i rows) ++ (live (drop i rows) ≫= carve as_ st en)
    | Aborted => True
    | _ => False
    end).
  { intros r1 more Hlen' Heq. specialize (IH (S i) (<[i := r1]> rows ++ more) Hlen' ltac:(rewrite length_app, length_insert; lia) ltac:(lia)).
    destruct (forget_loop as_ st en fuel (S i) _) as [rows'| | | |]; try done. destruct IH as [? Hp]. split; [done|]. rewrite Hp.
    rewrite take_app_le, drop_app_le by (rewrite length_insert; lia).
    rewrite take_insert_next, drop_insert_next by done. rewrite (drop_S _ r i Hi).
    rewrite !live_app. change (r :: drop (S i) rows) with ([r] ++ drop (S i) rows). rewrite live_app, !bind_app, <- Heq.
    solve_Permutation. }
  assert (Hsame : forall r1, Z.of_nat (length (<[i := r1]> rows)) <= MAX_REGIONS) by (intros; by rewrite length_insert).
  assert (Hone : forall r1, live [r1] = live [r] ≫= carve as_ st en ->
    match forget_loop as_ st en fuel (S i) (<[i := r1]> rows) with
    | Ok rows' => Z.of_nat (length rows') <= MAX_REGIONS /\
        live rows' ≡ₚ live (take i rows) ++ (live (drop i rows) ≫= carve as_ st en)
    | Aborted => True
    | _ => False
    end).
  { intros r1 Heq. rewrite <- (app_nil_r (<[i := r1]> rows)). apply Hstep; [by rewrite app_nil_r|]. simpl. by rewrite app_nil_r, Heq. }
  assert (Hlive : rg_start r < rg_end r -> live [r] ≫= carve as_ st en = carve as_ st en r).
  { intros H. unfold live. rewrite filter_cons, decide_True by done. simpl. apply app_nil_r. }
  assert (Hdead : ~ rg_start r < rg_end r -> live [r] ≫= carve as_ st en = []).
  { intros H. unfold live. rewrite filter_cons, decide_False by done. done. }
  assert (Hl1 : forall x, rg_start x < rg_end x -> live [x] = [x]) by (intros x H; unfold live; by rewrite filter_cons, decide_True).
  destruct (negb (rg_as r =? as_) || (rg_end r <=? st) || (en <=? rg_start r)) eqn:Hhit.
  { specialize (Hone r). rewrite (list_insert_id rows i r Hi) in Hone. apply Hone.
    rewrite live_carve_out; [done|lia|]. unfold row_hit. simpl. by rewrite Hhit. }
  assert (Hh : row_hit as_ st en r = true) by (unfold row_hit; simpl; by rewrite Hhit).
  destruct ((st <=? rg_start r) && (rg_end r <=? en)) eqn:Hcov.
  { apply Hone. destruct (decide (rg_start r < rg_end r)) as [Hd|Hd]; [|by rewrite Hdead]. rewrite Hlive by done.
    unfold carve. rewrite Hh. simpl. rewrite (proj2 (Z.ltb_ge _ _)), (proj2 (Z.ltb_ge _ _)) by lia. done. }
  destruct ((rg_start r <? st) && (en <? rg_end r)) eqn:Hsplit.
  { destruct (full rows) eqn:Hfull; [done|]. apply Hstep.
    - rewrite length_app, length_insert. simpl. lia.
    - rewrite Hlive by lia. rewrite !Hl1 by (simpl; lia). unfold carve at 2. rewrite Hh. simpl.
      rewrite (proj2 (Z.ltb_lt _ _)), (proj2 (Z.ltb_lt _ _)) by lia. unfold carve, row_hit. simpl.
      rewrite (proj2 (Z.leb_le en en)), !orb_true_r by lia. done. }
  destruct (rg_start r <? st) eqn:Hbelow; apply Hone; rewrite Hlive, Hl1 by (simpl; lia); unfold carve; rewrite Hh; simpl; rewrite Hbelow.
  - by rewrite (proj2 (Z.ltb_ge _ _)) by lia.
  - by rewrite (proj2 (Z.ltb_lt _ _)) by lia.
Qed.
(** Exactly the range is forgotten, and a split keeps both ends. *)
Lemma region_forget_spec as_ st en rows : regions_wf rows -> 0 <= st ->
  match region_forget_range as_ st en rows with
  | Ok rows' => regions_wf rows' /\ forall as' a, region_at rows' as' a =
      if (as' =? as_) && (st <=? a) && (a <? en) then None else region_at rows as' a
  | Aborted => True
  | _ => False
  end.
Proof.
  intros Hwf Hst. unfold region_forget_range. destruct (en <=? st) eqn:Hle.
  { split; [done|]. intros as' a. destruct (_ && _ && _) eqn:Hin; [lia|done]. }
  pose proof (forget_loop_spec as_ st en ltac:(lia) forget_fuel 0 rows (rg_count rows Hwf) ltac:(lia) ltac:(unfold forget_fuel, MAX_REGIONS; lia)) as H.
  destruct (forget_loop as_ st en forget_fuel 0 rows) as [rows'| | | |]; try done. destruct H as [Hlen Hp].
  change (live (take 0 rows) ++ (live (drop 0 rows) ≫= carve as_ st en)) with (live rows ≫= carve as_ st en) in Hp.
  assert (Hc : rows_wf (live rows ≫= carve as_ st en)) by (apply carve_wf; [lia|apply Hwf]).
  assert (Hwf' : regions_wf rows') by (split; [done|]; by eapply rows_wf_perm; [symmetry|]).
  split; [done|]. intros as' a. rewrite !region_at_denote by done. rewrite (denote_perm _ _ _ _ Hp) by apply Hwf'.
  apply denote_carve; [lia|apply Hwf].
Qed.
End Regions.
