(* ===== verification/Vacate.v ===== *)
(** * Retiring a range (user/vmremote.c, range_vacated_1)

    The source reports a range its kernel unmapped (hard) or discarded (soft).
    Everything the executor keeps about those addresses goes in one critical
    section: copies that are owed pages get them first, then the object, the
    retained bytes, the generations and, for an unmap, the loans, the layout
    rows and the shared mappings, and every context of the address space drops
    its own mapping.  This composes Cow, Retain, Loans, Regions and
    SharedLayout.  The traces and the two rings of recent ranges, which are only
    printed, are left out. *)
From S2P Require Import Prelude Buckets Native Ranges SharedLayout Cow CowRuns Loans Retain Regions.
From stdpp Require Import fin_maps.
Open Scope Z_scope.

Module Vacate.

Definition VMCTX_MAP_UNMAP : Z := 3.
Definition VMCTX_MAP_ZAP : Z := 5.
(** One APPLYMAP call: the context, the operation, the range, the answer. *)
Record applied := mk_applied { ap_member : Z; ap_op : Z; ap_addr : Z; ap_len : Z; ap_answer : Z }.
Record executor := mk_executor {
  x_cow : Cow.cow_state;
  x_pages : Retain.memory;
  x_loans : Loans.lent_state;
  x_regions : list Regions.region;
  x_shared : SharedLayout.shared_table;
  (** Newest first. *)
  x_applied : list applied }.
Abbreviation X := (prog executor).
Definition on_cow (m : prog Cow.cow_state unit) : X unit := fun x =>
  let '(r, c) := m (x_cow x) in (r, mk_executor c (x_pages x) (x_loans x) (x_regions x) (x_shared x) (x_applied x)).
Definition on_pages (f : Retain.memory -> Retain.memory) : X unit := fun x =>
  (Ok tt, mk_executor (x_cow x) (f (x_pages x)) (x_loans x) (x_regions x) (x_shared x) (x_applied x)).
Definition on_loans (f : Loans.lent_state -> Loans.lent_state) : X unit := fun x =>
  (Ok tt, mk_executor (x_cow x) (x_pages x) (f (x_loans x)) (x_regions x) (x_shared x) (x_applied x)).
Definition to_unit {A} (r : result A) : result unit := let! _ := r in Ok tt.
Definition on_regions (f : list Regions.region -> result (list Regions.region)) : X unit := fun x =>
  let r := f (x_regions x) in
  (to_unit r, mk_executor (x_cow x) (x_pages x) (x_loans x) (match r with Ok l => l | _ => x_regions x end) (x_shared x) (x_applied x)).
Definition on_shared (f : SharedLayout.shared_table -> result SharedLayout.shared_table) : X unit := fun x =>
  let r := f (x_shared x) in
  (to_unit r, mk_executor (x_cow x) (x_pages x) (x_loans x) (x_regions x) (match r with Ok t => t | _ => x_shared x end) (x_applied x)).

Section ops.
Context (world : Cow.history -> Cow.call -> Z) (mm_members : Cow.history -> Z -> list Z) (alloc : Z -> bool).
(** The answer of APPLYMAP (minus the error number on failure), and whether a
    context is found ended within the wait. *)
Context (apply_map : list applied -> Z -> Z -> Z -> Z -> Z) (execution_ended : list applied -> Z -> bool).

Fixpoint apply_members (pid op start len : Z) (members : list Z) : X unit :=
  match members with
  | [] => mret tt
  | m :: members => fun x =>
      let r := apply_map (x_applied x) m op start len in
      let x := mk_executor (x_cow x) (x_pages x) (x_loans x) (x_regions x) (x_shared x)
                 (mk_applied m op start len r :: x_applied x) in
      if r =? 0 then apply_members pid op start len members x
      else if ((r =? - ESRCH) || (r =? - EINVAL)) && negb (m =? pid) && execution_ended (x_applied x) m
      then apply_members pid op start len members x
      else (Aborted, x)
  end.
(** [pid] is the calling context and [members] the contexts of its space. *)
Definition range_vacated_1 (pid as_ start end_ : Z) (soft : bool) (members : list Z) : X unit :=
  if end_ <=? start then mret tt
  else
    on_cow (Cow.cow_break_copies_range world mm_members as_ start (end_ - start) ;; Cow.obj_forget world as_ start (end_ - start)) ;;
    on_pages (Retain.retain_forget as_ start end_) ;;
    (if soft then mret tt else on_loans (Loans.lend_forget_range as_ start end_)) ;;
    on_pages (Retain.pgen_forget as_ start end_) ;;
    (if soft then mret tt
     else on_regions (Regions.region_forget_range as_ start end_) ;;
          on_shared (SharedLayout.shared_layout_forget alloc as_ start end_)) ;;
    apply_members pid (if soft then VMCTX_MAP_ZAP else VMCTX_MAP_UNMAP) start (end_ - start) members.

(** ** What is left *)
Record executor_wf (x : executor) : Prop := {
  xw_cow : Cow.cow_wf (x_cow x);
  xw_pages : Retain.memory_wf (x_pages x);
  xw_loans : Loans.lent_wf (x_loans x);
  xw_regions : Regions.regions_wf (x_regions x);
  xw_shared : SharedLayout.shared_wf (x_shared x)
}.
Abbreviation inside as_ start end_ k := (Retain.in_span as_ start end_ k).
(** The content of the range is gone: its pages are out of the object and no
    longer writable (of a page covered in part, that part is zero), after the
    copies that were still owed one of them were given it; its retained bytes and
    generations are cleared.  [CowRuns.vacated] says of every page what the
    objects, the gives, the marks and the write permissions are afterwards, so
    that all else is as it was. *)
Record content_dropped (as_ start end_ : Z) (x x' : executor) : Prop := {
  cd_cow : CowRuns.vacated as_ start (end_ - start) (x_cow x) (x_cow x');
  cd_gone k : page_aligned end_ = true -> inside as_ start end_ k = true -> Cow.objects (x_cow x') !! k = None;
  cd_kept k : Retain.kept (x_pages x') !! k = if inside as_ start end_ k then None else Retain.kept (x_pages x) !! k;
  cd_gens k : default 0 (Retain.gens (x_pages x') !! k) = if inside as_ start end_ k then 0 else default 0 (Retain.gens (x_pages x) !! k)
}.
(** So are the relationships. *)
Record mapping_dropped (as_ start end_ : Z) (x x' : executor) : Prop := {
  md_loans k : Loans.loan_map (x_loans x') !! k = if inside as_ start end_ k then None else Loans.loan_map (x_loans x) !! k;
  md_regions as' a : Regions.region_at (x_regions x') as' a = if inside as_ start end_ (as', a) then None else Regions.region_at (x_regions x) as' a;
  md_shared as' a : SharedLayout.shared_at (x_shared x') as' a = if inside as_ start end_ (as', a) then None else SharedLayout.shared_at (x_shared x) as' a
}.
Record mapping_kept (x x' : executor) : Prop := {
  mk_loans : x_loans x' = x_loans x;
  mk_regions : x_regions x' = x_regions x;
  mk_shared : x_shared x' = x_shared x
}.
(** Every context was told; a refusal is that of a sibling that ended. *)
Definition told (pid op start len : Z) (m : Z) (a : applied) : Prop :=
  a = mk_applied m op start len (ap_answer a) /\ (ap_answer a = 0 \/ m <> pid /\ (ap_answer a = - ESRCH \/ ap_answer a = - EINVAL)).

Definition okay {A} (P : A -> executor -> Prop) (r : result A) (x : executor) : Prop :=
  match r with Ok a => P a x | Aborted => True | _ => False end.
Lemma wp_then {A B} (m : X A) (k : A -> X B) (P : A -> executor -> Prop) (Q : B -> executor -> Prop) x :
  wp m (okay P) x -> (forall a x', P a x' -> wp (k a) (okay Q) x') -> wp (m ≫= k) (okay Q) x.
Proof. intros Hm Hk. apply wp_bind. eapply wp_mono; [exact Hm|]. intros [] x'; simpl; auto. Qed.

Lemma apply_members_spec pid op start len members : forall x,
  wp (apply_members pid op start len members) (okay (fun _ x' =>
    (x_cow x', x_pages x', x_loans x', x_regions x', x_shared x') = (x_cow x, x_pages x, x_loans x, x_regions x, x_shared x) /\
    exists calls, x_applied x' = reverse calls ++ x_applied x /\ Forall2 (told pid op start len) members calls)) x.
Proof.
  induction members as [|m members IH]; intros x; cbn [apply_members].
  { split; [done|]. exists []. split; [done|constructor]. }
  unfold wp. set (r := apply_map _ _ _ _ _). set (x1 := mk_executor _ _ _ _ _ _).
  assert (Hrest : forall a, a = mk_applied m op start len r -> (r = 0 \/ m <> pid /\ (r = - ESRCH \/ r = - EINVAL)) ->
    okay (fun _ x' =>
      (x_cow x', x_pages x', x_loans x', x_regions x', x_shared x') = (x_cow x, x_pages x, x_loans x, x_regions x, x_shared x) /\
      exists calls, x_applied x' = reverse calls ++ x_applied x /\ Forall2 (told pid op start len) (m :: members) calls)
      (apply_members pid op start len members x1).1 (apply_members pid op start len members x1).2).
  { intros a Ha Hr. specialize (IH x1). unfold wp in IH. destruct (apply_members pid op start len members x1) as [[] x2]; try done.
    destruct IH as [Hx (calls & Hc & Ht)]. split; [done|]. exists (a :: calls). split.
    - rewrite Hc. subst a x1. cbn [x_applied]. by rewrite reverse_cons, <- app_assoc.
    - constructor; [subst a; split; done|done]. }
  destruct (r =? 0) eqn:H0; [apply (Hrest _ eq_refl); left; lia|].
  destruct (((r =? - ESRCH) || (r =? - EINVAL)) && negb (m =? pid) && execution_ended _ m) eqn:H1; [|done].
  apply (Hrest _ eq_refl). right. apply andb_true_iff in H1 as [[H1 H2]%andb_true_iff _]. split; [lia|]. lia.
Qed.

Definition vacate_post (pid as_ start end_ : Z) (soft : bool) (members : list Z) (x x' : executor) : Prop :=
  executor_wf x' /\ content_dropped as_ start end_ x x' /\
  (if soft then mapping_kept x x' else mapping_dropped as_ start end_ x x') /\
  exists calls, x_applied x' = reverse calls ++ x_applied x /\
    Forall2 (told pid (if soft then VMCTX_MAP_ZAP else VMCTX_MAP_UNMAP) start (end_ - start)) members calls.

Lemma vacated_gone as_ start end_ c c' k : CowRuns.vacated as_ start (end_ - start) c c' -> page_aligned start = true ->
  page_aligned end_ = true -> inside as_ start end_ k = true -> Cow.objects c' !! k = None.
Proof.
  intros Hv Hs He Hk. pose proof (Cow.punched_whole as_ start (end_ - start) ({[k := []]}) k Hs) as H.
  replace (start + (end_ - start)) with end_ in H by lia. specialize (H He). unfold Retain.in_span in Hk. rewrite Hk in H.
  rewrite Cow.punched_lookup, lookup_singleton_eq in H. rewrite (CowRuns.va_objects _ _ _ _ _ Hv k).
  by destruct (Cow.in_punched as_ start (end_ - start) k).
Qed.
(** The content half. *)
Lemma content_spec as_ start end_ x : executor_wf x -> Cow.page_ok start -> start < end_ <= I64MAX ->
  wp (on_cow (Cow.cow_break_copies_range world mm_members as_ start (end_ - start) ;; Cow.obj_forget world as_ start (end_ - start)))
    (okay (fun _ x' => Cow.cow_wf (x_cow x') /\
      (x_pages x', x_loans x', x_regions x', x_shared x', x_applied x') = (x_pages x, x_loans x, x_regions x, x_shared x, x_applied x) /\
      CowRuns.vacated as_ start (end_ - start) (x_cow x) (x_cow x'))) x.
Proof.
  intros Hwf Hp Hr. pose proof (CowRuns.vacate_spec world mm_members as_ start (end_ - start) (x_cow x) Hp ltac:(lia) ltac:(lia) (xw_cow x Hwf)) as H.
  revert H. generalize (Cow.cow_break_copies_range world mm_members as_ start (end_ - start) ;; Cow.obj_forget world as_ start (end_ - start)).
  intros m H. unfold wp, on_cow in *. destruct (m (x_cow x)) as [[u| | | |] c]; simpl in *; try done.
  split; [|done]. eapply Cow.acts_wf; [apply Hwf|apply (CowRuns.va_acts _ _ _ _ _ H)].
Qed.
Lemma clear_lookup as_ start end_ m k :
  default 0 (Retain.clear_spec as_ start end_ m !! k) = if inside as_ start end_ k then 0 else default 0 (m !! k).
Proof.
  unfold Retain.clear_spec. rewrite map_lookup_imap. destruct (m !! k); simpl; [by destruct (inside as_ start end_ k)|by destruct (inside as_ start end_ k)].
Qed.
Lemma bury_lookup as_ start end_ m k : Cow.page_ok start ->
  Retain.bury_spec as_ start end_ m !! k = if inside as_ start end_ k then None else m !! k.
Proof.
  intros [Hu Ha]. unfold Retain.bury_spec. rewrite map_lookup_filter, page_base_id by done.
  destruct (m !! k); simpl; destruct (inside as_ start end_ k); done.
Qed.
Lemma loans_lookup as_ start end_ s k : Loans.lent_wf s ->
  Loans.loan_map (Loans.lend_forget_range as_ start end_ s) !! k = if inside as_ start end_ k then None else Loans.loan_map s !! k.
Proof.
  intros Hwf. destruct (Loans.lend_forget_spec as_ start end_ s Hwf) as [_ ->]. rewrite map_lookup_filter.
  destruct (Loans.loan_map s !! k) as [v|]; simpl; [|by destruct (inside as_ start end_ k)].
  unfold Loans.kept. simpl. unfold Retain.in_span. case_guard as Hk; destruct (_ && _ && _) eqn:Hin; try done; exfalso; lia.
Qed.

(** The layout half of an unmap, in a state that has the tables of [x]. *)
Lemma layout_spec as_ start end_ x2 x : executor_wf x -> 0 <= start -> x_regions x2 = x_regions x -> x_shared x2 = x_shared x ->
  wp (on_regions (Regions.region_forget_range as_ start end_) ;; on_shared (SharedLayout.shared_layout_forget alloc as_ start end_))
    (okay (fun _ x' => (x_cow x', x_pages x', x_loans x', x_applied x') = (x_cow x2, x_pages x2, x_loans x2, x_applied x2) /\
      Regions.regions_wf (x_regions x') /\ SharedLayout.shared_wf (x_shared x') /\
      (forall as' a, Regions.region_at (x_regions x') as' a = if inside as_ start end_ (as', a) then None else Regions.region_at (x_regions x) as' a) /\
      (forall as' a, SharedLayout.shared_at (x_shared x') as' a = if inside as_ start end_ (as', a) then None else SharedLayout.shared_at (x_shared x) as' a))) x2.
Proof.
  intros Hwf Hst Er Es.
  pose proof (Regions.region_forget_spec as_ start end_ (x_regions x) (xw_regions x Hwf) Hst) as Hreg.
  pose proof (SharedLayout.shared_forget_spec alloc as_ start end_ (x_shared x) (xw_shared x Hwf) Hst) as Hsh.
  apply wp_bind. unfold wp, on_regions. cbv zeta. rewrite Er.
  destruct (Regions.region_forget_range as_ start end_ (x_regions x)) as [l| | | |]; cbn [to_unit result_bind fst snd okay]; try done.
  unfold wp, on_shared. cbn [x_shared]. cbv zeta. rewrite Es.
  destruct (SharedLayout.shared_layout_forget alloc as_ start end_ (x_shared x)) as [t| | | |]; cbn [to_unit result_bind fst snd okay]; try done.
  destruct Hreg as [Hw1 Hr1], Hsh as [Hw2 Hr2]. done.
Qed.

Lemma range_vacated_spec pid as_ start end_ soft members x :
  executor_wf x -> Cow.page_ok start -> start < end_ <= I64MAX ->
  wp (range_vacated_1 pid as_ start end_ soft members) (okay (fun _ x' => vacate_post pid as_ start end_ soft members x x')) x.
Proof.
  intros Hwf Hp Hr. pose proof Hp as [Hu _].
  unfold range_vacated_1. rewrite (proj2 (Z.leb_gt _ _)) by lia.
  eapply wp_then; [by apply content_spec|]. intros u x1 (Hc1 & Heq1 & Hvac). injection Heq1 as Ep El Er Es Ea.
  destruct (Retain.retain_forget_spec as_ start end_ (x_pages x) (xw_pages x Hwf) Hu) as (Hwp & Hg2 & Hk2).
  rewrite (proj2 (Z.leb_gt _ _)) in Hk2 by lia.
  destruct (Retain.pgen_forget_spec as_ start end_ (Retain.retain_forget as_ start end_ (x_pages x)) Hwp) as [Hwp' Hg3].
  assert (Hdrop : forall x2, x_cow x2 = x_cow x1 ->
    x_pages x2 = Retain.pgen_forget as_ start end_ (Retain.retain_forget as_ start end_ (x_pages x)) -> content_dropped as_ start end_ x x2).
  { intros x2 E1 E2. split; rewrite ?E1, ?E2; [done|by intros k; apply (vacated_gone _ _ _ _ _ _ Hvac), Hp| |].
    - intros k. change (Retain.kept (Retain.pgen_forget as_ start end_ ?m)) with (Retain.kept m). rewrite Hk2. by apply bury_lookup.
    - intros k. rewrite Hg3, Hg2. apply clear_lookup. }
  eapply (wp_then _ _ (fun _ x' => x' = (on_pages (Retain.retain_forget as_ start end_) x1).2)); [done|]. intros ? ? ->.
  destruct soft.
  - eapply (wp_then _ _ (fun _ x' => x' = (on_pages (Retain.retain_forget as_ start end_) x1).2)); [done|]. intros ? ? ->.
    set (x2 := (on_pages (Retain.pgen_forget as_ start end_) (on_pages (Retain.retain_forget as_ start end_) x1).2).2).
    eapply (wp_then _ _ (fun _ x' => x' = x2)); [done|]. intros ? ? ->. eapply (wp_then _ _ (fun _ x' => x' = x2)); [done|]. intros ? ? ->.
    eapply wp_mono; [apply apply_members_spec|]. intros [] x3; try done. intros [Heq (calls & Hcalls & Htold)].
    injection Heq as F1 F2 F3 F4 F5. subst x2. cbn in F1, F2, F3, F4, F5, Hcalls. rewrite Ep in F2. rewrite Ea in Hcalls.
    split; [|split; [by apply Hdrop|split; [split; congruence|by exists calls]]].
    split; rewrite ?F1, ?F2, ?F3, ?F4, ?F5, ?El, ?Er, ?Es; try apply Hwf; done.
  - eapply (wp_then _ _ (fun _ x' => x' = (on_loans (Loans.lend_forget_range as_ start end_)
      (on_pages (Retain.retain_forget as_ start end_) x1).2).2)); [done|]. intros ? ? ->.
    set (x2 := (on_pages (Retain.pgen_forget as_ start end_) (on_loans (Loans.lend_forget_range as_ start end_)
      (on_pages (Retain.retain_forget as_ start end_) x1).2).2).2).
    eapply (wp_then _ _ (fun _ x' => x' = x2)); [done|]. intros ? ? ->.
    eapply wp_then; [apply (layout_spec as_ start end_ x2 x Hwf); [unfold is_u64 in Hu; lia|exact Er|exact Es]|].
    intros ? x3 (Heq3 & Hw1 & Hw2 & Hr1 & Hr2). injection Heq3 as F1 F2 F3 F4.
    eapply wp_mono; [apply apply_members_spec|]. intros [] x4; try done. intros [Heq (calls & Hcalls & Htold)].
    injection Heq as G1 G2 G3 G4 G5. subst x2. cbn in F1, F2, F3, F4. rewrite F1 in G1. rewrite F2, Ep in G2. rewrite F3, El in G3. rewrite F4, Ea in Hcalls.
    destruct (Loans.lend_forget_spec as_ start end_ (x_loans x) (xw_loans x Hwf)) as [Hlw _].
    split; [|split; [by apply Hdrop|split; [|by exists calls]]].
    + split; rewrite ?G1, ?G2, ?G3, ?G4, ?G5; done.
    + split; [intros k; rewrite G3; by apply loans_lookup, Hwf|intros; rewrite G4; apply Hr1|intros; rewrite G5; apply Hr2].
Qed.

(** C6: Retiring a range leaves nothing of it.  When range_vacated_1 returns:
    the pages of the range are out of the space's object and lost their write
    permission; every copy made of the space that was still owed one of them has
    it in its own object, recorded as given and marked as owed in turn, and the
    marks of the range are spent; the retained bytes and the generations of the
    range are gone, and for an unmap its loans, layout rows and shared mappings
    too, while a discard keeps exactly those; every context of the space was told
    to drop the range, failing only where a sibling has ended.  Every other page,
    give, mark, permission, record and row, of this space and of the others, is
    as it was; so is what the space is itself still owed by its own ancestors
    (CowRuns, vacated_page_comes_back).  Any other outcome is the end of the
    process. *)
Theorem vacate_leaves_nothing pid as_ start end_ soft members x :
  executor_wf x -> Cow.page_ok start -> start < end_ <= I64MAX ->
  match range_vacated_1 pid as_ start end_ soft members x with
  | (Ok _, x') => vacate_post pid as_ start end_ soft members x x'
  | (Aborted, _) => True
  | _ => False
  end.
Proof.
  intros Hwf Hp Hr. pose proof (range_vacated_spec pid as_ start end_ soft members x Hwf Hp Hr) as H. unfold wp in H.
  by destruct (range_vacated_1 pid as_ start end_ soft members x) as [[] x'].
Qed.
End ops.

(** A space that has forked, with one held, retained and lent page in a larger
    mapping, and two contexts of which one has ended, unmaps the page. *)
Definition demo_pages : Retain.memory := Retain.retain_put true 1 0x1000 [7] (Retain.pgen_bump 1 0x1000 Retain.memory_init).2.
Definition demo_loans : Loans.lent_state := (Loans.page_lend_at true 1 0x1000 9 1 Loans.lent_init).2.
Definition demo_x : executor :=
  mk_executor CowRuns.demo_1 demo_pages demo_loans [Regions.mk_region 0x1000 0x3000 1 3] (SharedLayout.mk_table [] 0) [].
Definition demo_apply (_ : list applied) (m _ _ _ : Z) : Z := if m =? 2 then - ESRCH else 0.
Definition demo_vacate : prog executor unit :=
  range_vacated_1 CowRuns.demo_world CowRuns.demo_members (fun _ => true) demo_apply (fun _ _ => true) 1 1 0x1000 0x2000 false [1; 2].
Lemma demo_x_wf : executor_wf demo_x.
Proof.
  assert (Hp : is_u64 0x1000 /\ page_base 0x1000 <> 0) by (split; [unfold is_u64, U64MAX; lia|done]). split.
  - apply CowRuns.demo_1_wf.
  - pose proof (Retain.pgen_bump_spec 1 0x1000 Retain.memory_init Retain.memory_init_wf (proj2 Hp)) as H.
    unfold demo_x, demo_pages. cbn [x_pages]. destruct (Retain.pgen_bump 1 0x1000 Retain.memory_init) as [g s]. destruct H as [H _].
    destruct (Retain.retain_put_spec true 1 0x1000 [7] s H (proj1 Hp) (proj2 Hp)) as [H' _]. exact H'.
  - pose proof (Loans.page_lend_spec true 1 0x1000 9 1 Loans.lent_init Loans.lent_init_wf (proj1 Hp)) as H.
    assert (Hr : (Loans.page_lend_at true 1 0x1000 9 1 Loans.lent_init).1 = Ok tt) by (vm_compute; reflexivity).
    unfold demo_x, demo_loans. cbn [x_loans]. unfold Loans.step_ok in H.
    destruct (Loans.page_lend_at true 1 0x1000 9 1 Loans.lent_init) as [r s]. simpl in Hr. subst r. exact (proj1 H).
  - split; [done|]. split; [repeat constructor; simpl; lia|done].
  - split; [done|constructor|done].
Qed.
Lemma vacate_leaves_nothing_witness :
  exists x', demo_vacate demo_x = (Ok tt, x') /\ vacate_post 1 1 0x1000 0x2000 false [1; 2] demo_x x' /\
    Cow.objects (x_cow demo_x) !! (1, 0x1000) = Some [7] /\ Regions.region_at (x_regions x') 1 0x2000 = Some 3 /\
    Cow.objects (x_cow x') !! (1, 0x1000) = None /\ Cow.objects (x_cow x') !! (2, 0x1000) = Some [7].
Proof.
  assert (H : match demo_vacate demo_x with
    | (Ok _, x') => vacate_post 1 1 0x1000 0x2000 false [1; 2] demo_x x' | (Aborted, _) => True | _ => False end).
  { unfold demo_vacate. apply vacate_leaves_nothing; [apply demo_x_wf|apply CowRuns.demo_page|unfold I64MAX; lia]. }
  assert (Hr : (demo_vacate demo_x).1 = Ok tt /\ Regions.region_at (x_regions (demo_vacate demo_x).2) 1 0x2000 = Some 3 /\
    Cow.objects (x_cow (demo_vacate demo_x).2) !! (1, 0x1000) = None /\ Cow.objects (x_cow (demo_vacate demo_x).2) !! (2, 0x1000) = Some [7])
    by (vm_compute; repeat split; reflexivity).
  destruct (demo_vacate demo_x) as [r x']. cbn [fst snd] in Hr. destruct Hr as [-> Hreg].
  exists x'. split; [reflexivity|]. split; [exact H|]. split; [vm_compute; reflexivity|exact Hreg].
Defined.
End Vacate.
