(* ===== verification/Receipts.v ===== *)
(** * Acknowledgement of landed pages (user/vmremote.c, ack_pend)

    A page the source gave up carries a receipt.  The thread that lands the page
    queues the receipt's acknowledgement, one at a time, and confirms it with the
    source while it still holds the page's reservation; an acknowledgement the
    source does not confirm, and a receipt left unsettled at the end of its
    scope, end the process.  The counters and the release of the coherence lock
    around the call are left out. *)
From S2P Require Import Prelude Proto.

Module Receipts.
Import Proto.

(** ** Data (page-receipt.h; the generations and sums are not read here) *)
Record source_page_receipt := mk_receipt {
  sr_target : vmr_mm_binding; sr_base : Z; sr_episode : Z; sr_count : Z; sr_taken : Z;
  sr_ack_queued : bool }.
Record ack := mk_ack { ak_page : Z; ak_episode : Z; ak_target : vmr_mm_binding }.
(** [ack_pend] of one thread, and the acknowledgements the source confirmed to it. *)
Record ack_state := mk_acks { ack_pend : option ack; ack_sent : list ack }.
Definition ack_none : ack_state := mk_acks None [].

Section ops.
(** whether the INSTALLED call returns 0 over a working transport *)
Context (home : list ack -> ack -> bool).

Definition ack_flush (st : ack_state) : result ack_state :=
  match ack_pend st with
  | None => Ok st
  | Some a =>
      if negb (vmr_binding_valid (ak_target a)) || (ak_episode a =? 0) || nz (ak_page a .& 4095)
      then Aborted
      else if negb (home (ack_sent st) a) then Aborted
      else Ok (mk_acks None (ack_sent st ++ [a]))
  end.

Definition ack_installed (receipt : option source_page_receipt) (base : Z) (st : ack_state)
  : result (source_page_receipt * ack_state) :=
  match receipt with
  | None => Aborted
  | Some r =>
      if negb (vmr_binding_valid (sr_target r)) || (sr_episode r =? 0) || sr_ack_queued r ||
         negb (sr_count r =? 1) || nz (base .& 4095) || (base <? sr_base r) ||
         (sr_count r <=? (base - sr_base r) / 4096)
      then Aborted
      else
        let index := u32 ((base - sr_base r) / 4096) in
        if (sr_taken r .& Z.shiftl 1 index) =? 0 then Aborted
        else
          let! st := ack_flush st in
          Ok (mk_receipt (sr_target r) (sr_base r) (sr_episode r) (sr_count r) (sr_taken r) true,
              mk_acks (Some (mk_ack base (sr_episode r) (sr_target r))) (ack_sent st))
  end.

Definition source_receipt_finish (r : source_page_receipt) (st : ack_state) : result ack_state :=
  if sr_episode r =? 0 then Ok st
  else if negb (sr_ack_queued r) then Aborted
  else ack_flush st.

(** ** One thread's receipts

    The receipts of nested scopes, in the order they are opened; a thread lands
    pages, flushes and leaves scopes in any order. *)
Inductive receipt_event := Landed (i : nat) (base : Z) | Flushed | Left (i : nat).
Definition receipt_step (e : receipt_event) (rs : list source_page_receipt) (st : ack_state)
  : result (list source_page_receipt * ack_state) :=
  match e with
  | Landed i base => let! (r, st) := ack_installed (rs !! i) base st in Ok (<[i := r]> rs, st)
  | Flushed => let! st := ack_flush st in Ok (rs, st)
  | Left i =>
      match rs !! i with
      | Some r => let! st := source_receipt_finish r st in Ok (rs, st)
      | None => Ok (rs, st)
      end
  end.
Fixpoint receipt_run (es : list receipt_event) (rs : list source_page_receipt) (st : ack_state)
  : result (list source_page_receipt * ack_state) :=
  match es with
  | [] => Ok (rs, st)
  | e :: es => let! (rs, st) := receipt_step e rs st in receipt_run es rs st
  end.

(** ** What was acknowledged *)
Definition owed_ack (r : source_page_receipt) : option (vmr_mm_binding * Z) :=
  if sr_ack_queued r then Some (sr_target r, sr_episode r) else None.
Definition ack_id (a : ack) : vmr_mm_binding * Z := (ak_target a, ak_episode a).
(** [sent ++ pending] are exactly the receipts whose acknowledgement was queued *)
Definition settled (rs : list source_page_receipt) (st : ack_state) : Prop :=
  ack_id <$> (ack_sent st ++ option_list (ack_pend st)) ≡ₚ omap owed_ack rs.

Lemma ack_flush_spec st st' :
  ack_flush st = Ok st' -> ack_pend st' = None /\ ack_sent st' = ack_sent st ++ option_list (ack_pend st).
Proof.
  unfold ack_flush. destruct (ack_pend st) as [a|] eqn:Hp; intros H.
  - destruct (_ || _); [done|]. destruct (home _ _); by simplify_eq/=.
  - simplify_eq. simpl. by rewrite app_nil_r.
Qed.
Lemma ack_flush_settled rs st st' : settled rs st -> ack_flush st = Ok st' -> settled rs st'.
Proof. unfold settled. intros Hs (Hp & Ht)%ack_flush_spec. rewrite Hp, Ht. simpl. by rewrite app_nil_r. Qed.

Lemma omap_set {A B} (f : A -> option B) (l : list A) i x y :
  l !! i = Some x -> omap f (<[i := y]> l) ++ option_list (f x) ≡ₚ omap f l ++ option_list (f y).
Proof.
  intros Hx. rewrite <- (take_drop_middle l i x Hx) at 2.
  rewrite insert_take_drop by eauto using lookup_lt_Some. rewrite !omap_app. simpl.
  destruct (f x), (f y); simpl; rewrite ?app_nil_r; solve_Permutation.
Qed.

Lemma ack_installed_spec r base st r' st' :
  ack_installed (Some r) base st = Ok (r', st') ->
  sr_ack_queued r = false /\ sr_ack_queued r' = true /\ sr_target r' = sr_target r /\
  sr_episode r' = sr_episode r /\ ack_pend st' = Some (mk_ack base (sr_episode r) (sr_target r)) /\
  ack_sent st' = ack_sent st ++ option_list (ack_pend st).
Proof.
  unfold ack_installed. intros H. destruct (_ || _) eqn:Hg; [done|].
  rewrite !orb_false_iff in Hg. destruct (_ =? 0) in H; [done|].
  destruct (ack_flush st) as [st1|x| | |] eqn:Hf; simplify_eq/=.
  apply ack_flush_spec in Hf as [_ Hs]. tauto.
Qed.

Lemma receipt_step_settled e rs st rs' st' :
  settled rs st -> receipt_step e rs st = Ok (rs', st') -> settled rs' st'.
Proof.
  intros Hs. unfold receipt_step. destruct e as [i base| |i].
  - destruct (rs !! i) as [r|] eqn:Hr; [|done].
    destruct (ack_installed _ _ _) as [[r' st1]|x| | |] eqn:Hi; intros; simplify_eq/=.
    apply ack_installed_spec in Hi as (Hq & Hq' & Ht & He & Hp & Hsent).
    unfold settled in *. rewrite Hp, Hsent. simpl.
    pose proof (omap_set owed_ack rs i r r' Hr) as Hset. unfold owed_ack at 2 4 in Hset.
    rewrite Hq, Hq', Ht, He in Hset. simpl in Hset. rewrite app_nil_r in Hset.
    by rewrite Hset, <- Hs, fmap_app.
  - destruct (ack_flush st) eqn:Hf; intros; simplify_eq/=. by eapply ack_flush_settled.
  - destruct (rs !! i) as [r|]; [|intros; by simplify_eq]. unfold source_receipt_finish.
    destruct (sr_episode r =? 0); simpl; [intros; by simplify_eq|].
    destruct (sr_ack_queued r); simpl; [|done].
    destruct (ack_flush st) eqn:Hf; intros; simplify_eq/=. by eapply ack_flush_settled.
Qed.
Lemma receipt_run_settled es rs st rs' st' :
  settled rs st -> receipt_run es rs st = Ok (rs', st') -> settled rs' st'.
Proof.
  revert rs st. induction es as [|e es IH]; simpl; intros rs st Hs H; [by simplify_eq|].
  destruct (receipt_step e rs st) as [[rs1 st1]|x| | |] eqn:He; simplify_eq/=.
  eapply IH; [|exact H]. by eapply receipt_step_settled.
Qed.
Lemma settled_fresh rs : Forall (fun r => sr_ack_queued r = false) rs -> settled rs ack_none.
Proof.
  unfold settled. simpl. induction 1 as [|r rs Hr _ IH]; [done|]. simpl. unfold owed_ack at 1. by rewrite Hr.
Qed.

(** A page landed under receipt [i], the scope of which is left last. *)
Lemma receipt_left es rs st rs' st' i r :
  receipt_run (es ++ [Left i]) rs st = Ok (rs', st') -> rs' !! i = Some r -> sr_episode r <> 0 ->
  sr_ack_queued r = true /\ ack_pend st' = None.
Proof.
  revert rs st. induction es as [|e es IH]; simpl; intros rs st H Hr He.
  - destruct (rs !! i) as [r0|] eqn:H0; [|simplify_eq/=; congruence]. simpl in H.
    unfold source_receipt_finish in H. destruct (Z.eqb_spec (sr_episode r0) 0).
    { simplify_eq/=. }
    destruct (sr_ack_queued r0) eqn:Hq; simpl in H; [|done].
    destruct (ack_flush st) eqn:Hf; simplify_eq/=. apply ack_flush_spec in Hf. naive_solver.
  - destruct (receipt_step e rs st) as [[rs1 st1]|x| | |]; simplify_eq/=. by eapply IH.
Qed.
End ops.

(** every landed page is acknowledged exactly once.  Through any sequence
    of landings, flushes and scope exits of one thread that does not end the
    process, whatever the source answers, the confirmed acknowledgements and the
    pending one are exactly those of the receipts that landed a page, each once;
    and a thread that leaves the scope of a receipt that names an episode has
    landed its page, has it confirmed, and has none pending. *)
Theorem receipts_acknowledged_once home es rs rs' st' :
  Forall (fun r => sr_ack_queued r = false) rs ->
  receipt_run home es rs ack_none = Ok (rs', st') ->
  ack_id <$> (ack_sent st' ++ option_list (ack_pend st')) ≡ₚ omap owed_ack rs' /\
  forall es' i r, es = es' ++ [Left i] -> rs' !! i = Some r -> sr_episode r <> 0 ->
    sr_ack_queued r = true /\ ack_pend st' = None /\ (sr_target r, sr_episode r) ∈ ack_id <$> ack_sent st'.
Proof.
  intros Hf%settled_fresh Hrun.
  assert (settled rs' st') as Hs by (by eapply receipt_run_settled). split; [exact Hs|].
  intros es' i r -> Hr He. destruct (receipt_left _ _ _ _ _ _ _ _ Hrun Hr He) as [Hq Hp].
  split; [done|]. split; [done|]. unfold settled in Hs. rewrite Hp in Hs. simpl in Hs.
  rewrite app_nil_r in Hs. rewrite Hs. apply list_elem_of_omap. exists r.
  split; [by eapply list_elem_of_lookup_2|]. unfold owed_ack. by rewrite Hq.
Qed.

Definition demo_binding : vmr_mm_binding := mk_binding 1 2 0 3.
Definition demo_receipt (page : Z) : source_page_receipt := mk_receipt demo_binding page page 1 1 false.
Lemma receipts_acknowledged_once_witness :
  exists rs' st', receipt_run (fun _ _ => true) [Landed 0 0x5000; Landed 1 0x7000; Left 1]
      [demo_receipt 0x5000; demo_receipt 0x7000] ack_none = Ok (rs', st') /\
    ack_id <$> (ack_sent st' ++ option_list (ack_pend st')) ≡ₚ omap owed_ack rs'.
Proof.
  eexists _, _. split; [reflexivity|].
  eapply (receipts_acknowledged_once (fun _ _ => true) [Landed 0 0x5000; Landed 1 0x7000; Left 1]
    [demo_receipt 0x5000; demo_receipt 0x7000]); [repeat constructor|reflexivity].
Defined.

(** An unconfirmed acknowledgement grants no continuation. *)
Lemma unconfirmed_ends st a : ack_pend st = Some a -> ack_flush (fun _ _ => false) st = Aborted.
Proof. intros H. unfold ack_flush. rewrite H. by destruct (_ || _). Qed.
End Receipts.
