(* ===== verification/FaultDispatch.v ===== *)
(** * Service of a page fault (user/fault-dispatch.h)

    A fault is served under two reservations: the ownership gate of the page
    (Own.v), which makes siblings wait for the first service, and the page's
    transfer slot (PgState.v).  When the service finds that the source must
    interpret the exception, both reservations end before the source is asked,
    and a source that allows the access restarts the service once under new
    ones.

    [service_section] is the function between two points where another thread
    may run: one access to the shared tables, or one call out of the header
    (the inner service, ack_flush, the presence test, the owner).  What the
    calls answer is an argument.  [fault_step] interleaves any number of faults
    with the other users of the two tables.  Counters and the trace of recently
    vacated ranges are left out. *)
From S2P Require Import Prelude Probe PgState Own Proto Receipts.

Module FaultDispatch.
Import PgState.
Abbreviation own_segment := Own.own_segment.
Abbreviation mover := Own.mover.
Abbreviation mover_key := Own.mover_key.
Abbreviation ownf_state := Ownf.ownf_state.

(** ** Data *)
Definition FAULT_NEEDS_OWNER : Z := 2.

(** the arguments, with [as_id(pid)] *)
Record fault_call := mk_call { fc_as : Z; fc_vec : Z; fc_addr : Z; fc_err : Z; fc_supply_only : bool }.
Definition pk (c : fault_call) : Z := page_base (fc_addr c).
Definition fault_key (c : fault_call) : Z * Z := (fc_as c, pk c).

(** The points of the function, with the locals that are live there; [owf] is
    whether the gate was CLAIMED. *)
Inductive point :=
| AtGate                                                   (* ownf_claim *)
| AtWait (generation : Z)                                  (* ownf_wait *)
| AtClaim (owf : bool)                                     (* pg_try_claim *)
| AtYield                                                  (* ownf_release after a refused claim *)
| AtInner (owf : bool) (claim : pg_claim)                  (* fault_from_home_inner *)
| AtFlush (owf : bool) (claim : pg_claim) (result : Z)     (* ack_flush *)
| AtPresent (owf : bool) (claim : pg_claim) (result : Z)   (* as_any_present *)
| AtFinish (owf : bool) (claim : pg_claim) (result : Z) (present : bool)  (* pg_finish_required *)
| AtRelease (owf : bool) (result : Z) (present : bool)     (* ownf_release and the tests after it *)
| AtOwner                                                  (* owner_takes_fault, restartable *)
| AtException                                              (* owner_takes_fault, other vectors *)
| AtPrefill                                                (* fault_from_home_inner, supply only *)
| AtPrefillFlush (result : Z)                              (* ack_flush, supply only *)
| Returned (result : Z).

(** One call in progress; [ft_ack] is the thread's pending acknowledgement and
    [ft_asked] counts the calls of owner_takes_fault. *)
Record fault_thread := mk_thread {
  ft_call : fault_call; ft_allows : bool; ft_at : point; ft_ack : Receipts.ack_state; ft_asked : nat }.
Record shared := mk_shared { sh_pg : pgstate; sh_gate : ownf_state }.

(** What the calls out of the header answer. *)
Record answers := mk_answers {
  an_tid : Z; an_now : Z; an_woken : bool; an_alloc : nat -> bool;
  an_result : Z; an_queued : Receipts.ack_state -> Receipts.ack_state;
  an_home : list Receipts.ack -> Receipts.ack -> bool;
  an_present : bool; an_owner : Z; an_coh_depth : Z }.

Definition start (c : fault_call) : point :=
  if negb (fc_vec c =? 14) then (if fc_supply_only c then Returned 0 else AtException)
  else if fc_supply_only c then AtPrefill
  else AtGate.

Definition b2z (b : bool) : Z := if b then 1 else 0.
Definition go (p : point) (t : fault_thread) : fault_thread :=
  mk_thread (ft_call t) (ft_allows t) p (ft_ack t) (ft_asked t).
Definition flush (home : list Receipts.ack -> Receipts.ack -> bool) (p : point) (t : fault_thread)
  : result fault_thread :=
  let! k := Receipts.ack_flush home (ft_ack t) in Ok (mk_thread (ft_call t) (ft_allows t) p k (ft_asked t)).
Definition final_state (c : fault_call) (present : bool) : pg_st :=
  if present then (if nz (fc_err c .& 2) then PST_OWNED else PST_SHARED) else PST_INVALID.
(** the tests after the reservations ended *)
Definition after_service (a : answers) (result : Z) (t : fault_thread) : Prelude.result fault_thread :=
  if negb (result =? FAULT_NEEDS_OWNER) then Ok (go (Returned result) t)
  else if ft_allows t then Aborted
  else if nz (an_coh_depth a) then Aborted
  else Ok (go AtOwner t).

Definition service_section (a : answers) (sh : shared) (t : fault_thread) : result (shared * fault_thread) :=
  let c := ft_call t in
  match ft_at t with
  | AtGate =>
      match Ownf.ownf_claim (fc_as c) (pk c) (an_tid a) (an_now a) (sh_gate sh) with
      | (Ownf.OWNF_BUSY g, gate) => Ok (mk_shared (sh_pg sh) gate, go (AtWait g) t)
      | (Ownf.OWNF_CLAIMED, gate) => Ok (mk_shared (sh_pg sh) gate, go (AtClaim true) t)
      | (Ownf.OWNF_OFF, gate) => Ok (mk_shared (sh_pg sh) gate, go (AtClaim false) t)
      end
  | AtWait g =>
      let '(woken, gate) := Ownf.ownf_wait (an_woken a) (sh_gate sh) in
      Ok (mk_shared (sh_pg sh) gate, go (if nz woken then Returned 1 else AtClaim false) t)
  | AtClaim owf =>
      match pg_try_claim (an_alloc a) (fc_as c) (pk c) (pg_st_code PST_REQUESTING) (Some claim_zero) (sh_pg sh) with
      | (Ok _, pg, Some claim) => Ok (mk_shared pg (sh_gate sh), go (AtInner owf claim) t)
      | (Ok _, _, None) => Hung
      | (Err _, pg, _) => Ok (mk_shared pg (sh_gate sh), go (if owf then AtYield else Returned 1) t)
      | (Aborted, _, _) => Aborted
      | (Corrupt, _, _) => Corrupt
      | (Hung, _, _) => Hung
      end
  | AtYield =>
      Ok (mk_shared (sh_pg sh) (Ownf.ownf_release (fc_as c) (pk c) false (sh_gate sh)), go (Returned 1) t)
  | AtInner owf claim =>
      Ok (sh, mk_thread c (ft_allows t) (AtFlush owf claim (an_result a)) (an_queued a (ft_ack t)) (ft_asked t))
  | AtFlush owf claim result =>
      let! t := flush (an_home a) (AtPresent owf claim result) t in Ok (sh, t)
  | AtPresent owf claim result => Ok (sh, go (AtFinish owf claim result (an_present a)) t)
  | AtFinish owf claim result present =>
      match pg_finish_required (an_alloc a) (Some claim) (pg_st_code (final_state c present)) (sh_pg sh) with
      | (Ok _, pg, _) => Ok (mk_shared pg (sh_gate sh), go (AtRelease owf result present) t)
      | (Err e, _, _) => Err e
      | (Aborted, _, _) => Aborted
      | (Corrupt, _, _) => Corrupt
      | (Hung, _, _) => Hung
      end
  | AtRelease owf result present =>
      let gate := if owf then Ownf.ownf_release (fc_as c) (pk c) present (sh_gate sh) else sh_gate sh in
      let! t := after_service a result t in Ok (mk_shared (sh_pg sh) gate, t)
  | AtOwner =>
      let asked := S (ft_asked t) in
      if negb (an_owner a =? 2)
      then Ok (sh, mk_thread c (ft_allows t) (Returned (b2z (an_owner a =? 1))) (ft_ack t) asked)
      else Ok (sh, mk_thread c true AtGate (ft_ack t) asked)
  | AtException =>
      Ok (sh, mk_thread c (ft_allows t) (Returned (b2z (an_owner a =? 1))) (ft_ack t) (S (ft_asked t)))
  | AtPrefill =>
      Ok (sh, mk_thread c (ft_allows t) (AtPrefillFlush (an_result a)) (an_queued a (ft_ack t)) (ft_asked t))
  | AtPrefillFlush result =>
      let! t := flush (an_home a) (Returned result) t in Ok (sh, t)
  | Returned _ => Ok (sh, t)
  end.

(** ** All faults together

    [fw_workers] are the reservations of the other users of the transfer table
    (the page servers and the settling of loans), [fw_movers] the moves of the
    other users of the ownership segment. *)
Record fault_world := mk_fworld {
  fw_sh : shared; fw_threads : list fault_thread; fw_workers : list pg_claim; fw_movers : list mover }.
Definition with_seg (s : own_segment) (g : ownf_state) : ownf_state := Ownf.mk_ownf (Some s) (Ownf.of_stats g).

Inductive fault_step : fault_world -> fault_world -> Prop :=
| fault_arrives c sh ts ws ms :
    is_u64 (fc_as c) -> fc_as c <> 0 -> is_u64 (fc_addr c) ->
    fault_step (mk_fworld sh ts ws ms)
      (mk_fworld sh (ts ++ [mk_thread c false (start c) Receipts.ack_none 0]) ws ms)
| fault_runs i a t t' sh sh' ts ws ms :
    ts !! i = Some t -> service_section a sh t = Ok (sh', t') ->
    fault_step (mk_fworld sh ts ws ms) (mk_fworld sh' (<[i := t']> ts) ws ms)
| worker_runs sh ts ws ms pg' ws' spent :
    pg_step (mk_world (sh_pg sh) ws []) (mk_world pg' ws' spent) ->
    fault_step (mk_fworld sh ts ws ms) (mk_fworld (mk_shared pg' (sh_gate sh)) ts ws' ms)
| mover_runs sh ts ws ms s s' ms' :
    Ownf.of_seg (sh_gate sh) = Some s -> Own.own_step (Own.mk_world s ms) (Own.mk_world s' ms') ->
    fault_step (mk_fworld sh ts ws ms) (mk_fworld (mk_shared (sh_pg sh) (with_seg s' (sh_gate sh))) ts ws ms').

(** The monitor at its start: an empty transfer table; the segment of [slots]
    entries, or none when it could not be mapped. *)
Definition fault_init (slots : option nat) : fault_world :=
  mk_fworld (mk_shared pgstate_init (Ownf.mk_ownf (Own.own_init_create <$> slots) Ownf.demo_stats)) [] [] [].

(** ** What a fault holds *)
Definition claim_of (p : point) : option pg_claim :=
  match p with
  | AtInner _ c | AtFlush _ c _ | AtPresent _ c _ | AtFinish _ c _ _ => Some c
  | _ => None
  end.
Definition gated (p : point) : bool :=
  match p with
  | AtYield => true
  | AtClaim o | AtInner o _ | AtFlush o _ _ | AtPresent o _ _ | AtFinish o _ _ _ | AtRelease o _ _ => o
  | _ => false
  end.
Definition held (t : fault_thread) : option pg_claim := claim_of (ft_at t).
Definition gate_of (t : fault_thread) : option mover :=
  if gated (ft_at t) then Some (Own.mk_mover (fc_as (ft_call t)) (pk (ft_call t)) Own.OWN_T_TO_REMOTE) else None.
Definition in_service (t : fault_thread) : bool := bool_decide (is_Some (held t)).

Definition thread_ok (t : fault_thread) : Prop :=
  let c := ft_call t in
  is_u64 (fc_as c) /\ fc_as c <> 0 /\ is_u64 (fc_addr c) /\
  (forall cl, held t = Some cl -> claim_key cl = fault_key c).

(** every transient slot belongs to an outstanding reservation *)
Definition flight_ok (w : pg_world) : Prop :=
  forall k e, pg_abs (w_tab w) !! k = Some e -> transient_slot e = true ->
    exists c, c ∈ w_held w /\ claim_key c = k.
Definition claims_in (w : fault_world) : list pg_claim := omap held (fw_threads w) ++ fw_workers w.
Definition moves_in (w : fault_world) : list mover := omap gate_of (fw_threads w) ++ fw_movers w.
Record fault_ok (w : fault_world) : Prop := {
  fo_pg : world_ok (mk_world (sh_pg (fw_sh w)) (claims_in w) []);
  fo_flight : flight_ok (mk_world (sh_pg (fw_sh w)) (claims_in w) []);
  fo_own : forall s, Ownf.of_seg (sh_gate (fw_sh w)) = Some s -> Own.world_ok (Own.mk_world s (moves_in w));
  fo_threads : Forall thread_ok (fw_threads w)
}.

(** ** Both tables, up to the order of their users *)
Definition pg_good (s : pgstate) (hs : list pg_claim) : Prop :=
  world_ok (mk_world s hs []) /\ flight_ok (mk_world s hs []).
#[global] Instance pg_good_proper s : Proper (Permutation ==> iff) (pg_good s).
Proof.
  assert (H : forall hs hs', hs ≡ₚ hs' -> pg_good s hs -> pg_good s hs').
  { intros hs hs' Hp [[Hwf Hh Hx _ Ht] Hf]. split; [split; simpl in *; auto|].
    - by rewrite <- Hp.
    - by rewrite <- Hp.
    - intros k e He He'. rewrite <- Hp. by eapply Ht.
    - intros k e He He'. destruct (Hf k e He He') as (c & Hc & Hk). exists c. simpl in *. by rewrite <- Hp. }
  intros hs hs' Hp. split; apply H; [done|by symmetry].
Qed.
Definition own_good (s : own_segment) (ms : list mover) : Prop := Own.world_ok (Own.mk_world s ms).
#[global] Instance own_good_proper s : Proper (Permutation ==> iff) (own_good s).
Proof.
  assert (H : forall ms ms', ms ≡ₚ ms' -> own_good s ms -> own_good s ms').
  { intros ms ms' Hp [Hwf Ha Ho Hd Hf]. split; simpl in *; auto.
    - by rewrite <- Hp.
    - by rewrite <- Hp.
    - intros m Hm. apply Hd. by rewrite Hp.
    - intros k Hk. destruct (Hf k Hk) as (m & Hm & <-). exists m. by rewrite <- Hp. }
  intros ms ms' Hp. split; apply H; [done|by symmetry].
Qed.

Lemma pg_claim_good alloc as_ page m prior c s s' hs :
  pg_good s hs -> is_u64 as_ -> is_u64 page -> pg_transient (pg_st_code m) = true ->
  pg_try_claim alloc as_ page (pg_st_code m) (Some claim_zero) s = (Ok prior, s', Some c) ->
  pg_good s' (c :: hs) /\ claim_key c = (as_, page_base page).
Proof.
  intros [Hw Hf] Ha Hp Hm Hc.
  pose proof (pg_try_claim_spec _ _ _ _ claim_zero _ _ _ _ (wo_wf _ Hw) Ha Hp Hm eq_refl Hc)
    as (_ & _ & _ & _ & Habs & Heq).
  split; [|by simplify_eq]. split; [exact (world_step_claim _ _ _ _ _ _ _ _ _ _ Hw Ha Hp Hm Hc)|].
  intros k e He Ht. simpl in *. rewrite Habs in He.
  apply lookup_insert_Some in He as [[<- <-]|[Hne He]].
  - exists c. split; [by left|]. by simplify_eq.
  - destruct (Hf k e He Ht) as (c' & Hc' & Hk). exists c'. split; [by right|done].
Qed.
Lemma pg_finish_good alloc m c c' r s s' hs :
  pg_good s (c :: hs) -> pg_transient (pg_st_code m) = false ->
  pg_finish alloc (Some c) (pg_st_code m) s = (r, s', c') ->
  r = Ok tt /\ pg_good s' hs /\ pg_view s' = <[claim_key c := (pc_episode c, m)]> (pg_view s).
Proof.
  intros [Hw Hf] Hm Hfin. pose proof (wo_held _ Hw) as Hh. apply Forall_cons in Hh as [Hc _].
  destruct (pg_finish_held _ _ _ _ _ _ _ (wo_wf _ Hw) Hc Hm Hfin) as (-> & _ & _ & Habs).
  split; [done|]. split; [|unfold pg_view; by rewrite Habs, fmap_insert]. split.
  - assert (world_ok (mk_world s' hs [c])) as [? ? ? ?].
    { eapply world_step_ok; [exact Hw|]. by apply (step_finish alloc m c c' s s' [] hs). }
    by split.
  - intros k e He Ht. simpl in *. rewrite Habs in He.
    apply lookup_insert_Some in He as [[<- <-]|[Hne He]].
    { unfold transient_slot in Ht. simpl in Ht. congruence. }
    destruct (Hf k e He Ht) as (c0 & Hc0 & <-). exists c0. split; [|done].
    by apply elem_of_cons in Hc0 as [->|?].
Qed.
Lemma pg_refused_same alloc as_ page m x c s s' hs :
  pg_good s hs -> is_u64 as_ -> is_u64 page -> pg_transient (pg_st_code m) = true ->
  pg_try_claim alloc as_ page (pg_st_code m) (Some claim_zero) s = (Err x, s', c) -> s' = s.
Proof.
  intros [Hw _] Ha Hp Hm Hc.
  by pose proof (pg_try_claim_spec _ _ _ _ claim_zero _ _ _ _ (wo_wf _ Hw) Ha Hp Hm eq_refl Hc) as (_ & _ & -> & _).
Qed.

(** A step of the other users frames the reservations of the faults. *)
Lemma pg_step_good s hs ws s' ws' spent :
  pg_step (mk_world s ws []) (mk_world s' ws' spent) -> pg_good s (hs ++ ws) -> pg_good s' (hs ++ ws').
Proof.
  intros Hst Hg. inversion Hst; subst; clear Hst.
  - rewrite <- Permutation_middle.
    match goal with H : pg_try_claim _ _ _ _ _ _ = _ |- _ =>
      refine (proj1 (pg_claim_good _ _ _ _ _ _ _ _ _ Hg _ _ _ H)); assumption end.
  - match goal with H : pg_try_claim _ _ _ _ _ _ = _ |- _ =>
      apply (pg_refused_same _ _ _ _ _ _ _ _ _ Hg) in H; [by subst|assumption..] end.
  - rewrite app_assoc. rewrite app_assoc, <- Permutation_middle in Hg.
    match goal with H : pg_finish _ _ _ _ = _ |- _ =>
      refine (proj1 (proj2 (pg_finish_good _ _ _ _ _ _ _ _ Hg _ H))); assumption end.
  - match goal with H : _ ∈ [] |- _ => by apply elem_of_nil in H end.
Qed.
Lemma own_begin_good as_ page to tid now s r g s' ms :
  own_good s ms -> is_u64 as_ -> as_ <> 0 -> to <> Own.OWN_T_NONE ->
  Own.own_begin as_ page to tid now s = (r, g, s') ->
  own_good s' (match r with Own.OWN_BEGIN_CLAIMED => Own.mk_mover as_ page to :: ms | _ => ms end).
Proof. apply Own.world_begin. Qed.
Lemma own_end_good m present s ms :
  own_good s (m :: ms) ->
  own_good (snd (if present : bool then Own.own_land (Own.mv_as m) (Own.mv_page m) Own.OWN_REMOTE s
                 else Own.own_abort (Own.mv_as m) (Own.mv_page m) s)) ms.
Proof.
  intros Hg. apply (Own.world_step (Own.mk_world s ([] ++ m :: ms)) (Own.mk_world _ ([] ++ ms))); [exact Hg|].
  destruct present; [eapply Own.step_land|eapply Own.step_abort]; apply surjective_pairing.
Qed.
Lemma own_step_good s hs ms s' ms' :
  Own.own_step (Own.mk_world s ms) (Own.mk_world s' ms') -> own_good s (hs ++ ms) -> own_good s' (hs ++ ms').
Proof.
  intros Hst Hg. inversion Hst; subst; clear Hst.
  - destruct r; try rewrite <- Permutation_middle;
      match goal with H : Own.own_begin _ _ _ _ _ _ = _ |- _ => refine (own_begin_good _ _ _ _ _ _ _ _ _ _ Hg _ _ _ H); assumption end.
  - rewrite app_assoc. rewrite app_assoc in Hg.
    eapply Own.world_step; [exact Hg|]. by eapply Own.step_land.
  - rewrite app_assoc. rewrite app_assoc in Hg.
    eapply Own.world_step; [exact Hg|]. by eapply Own.step_abort.
  - eapply Own.world_step; [exact Hg|]. apply Own.step_waiters.
Qed.

(** ** One section of one fault *)
Definition pg_part (hs : list pg_claim) (sh : shared) (t : fault_thread) : Prop :=
  pg_good (sh_pg sh) (option_list (held t) ++ hs).
Definition own_part (ms : list mover) (sh : shared) (t : fault_thread) : Prop :=
  forall s, Ownf.of_seg (sh_gate sh) = Some s -> own_good s (option_list (gate_of t) ++ ms).

Lemma fault_key_claim cl as_ addr :
  is_u64 addr -> claim_key cl = (as_, page_base (page_base addr)) -> claim_key cl = (as_, page_base addr).
Proof. intros Ha ->. by rewrite page_base_idem. Qed.

Lemma gate_section hs ms a sh t sh' t' :
  ft_at t = AtGate -> pg_part hs sh t -> own_part ms sh t -> thread_ok t ->
  service_section a sh t = Ok (sh', t') -> pg_part hs sh' t' /\ own_part ms sh' t' /\ thread_ok t'.
Proof.
  intros Hat Hp Ho (Ha & Hz & Hu & Hk) H. unfold service_section in H. rewrite Hat in H.
  unfold pg_part, own_part, thread_ok, held, gate_of in *. rewrite Hat in *. simpl in *.
  unfold Ownf.ownf_claim in H. destruct (Ownf.of_seg (sh_gate sh)) as [s|] eqn:Hs.
  2: { simplify_eq/=. rewrite Hs. naive_solver. }
  destruct (Own.own_begin _ _ _ _ _ _) as [[r g] s'] eqn:Hb.
  assert (Hg := own_begin_good _ _ Own.OWN_T_TO_REMOTE _ _ _ _ _ _ _ (Ho s eq_refl) Ha Hz ltac:(done) Hb).
  destruct r; simplify_eq/=; (split; [done|]; split; [|done]); intros; by simplify_eq/=.
Qed.
Lemma wait_section hs ms a sh t sh' t' g :
  ft_at t = AtWait g -> pg_part hs sh t -> own_part ms sh t -> thread_ok t ->
  service_section a sh t = Ok (sh', t') -> pg_part hs sh' t' /\ own_part ms sh' t' /\ thread_ok t'.
Proof.
  intros Hat Hp Ho Ht H. unfold service_section in H. rewrite Hat in H.
  unfold pg_part, own_part, thread_ok, held, gate_of, Ownf.ownf_wait in *. rewrite Hat in *. simpl in *.
  destruct (an_woken a); simplify_eq/=; naive_solver.
Qed.
Lemma claim_section hs ms a sh t sh' t' owf :
  ft_at t = AtClaim owf -> pg_part hs sh t -> own_part ms sh t -> thread_ok t ->
  service_section a sh t = Ok (sh', t') -> pg_part hs sh' t' /\ own_part ms sh' t' /\ thread_ok t'.
Proof.
  intros Hat Hp Ho (Ha & Hz & Hu & Hk) H. unfold service_section in H. rewrite Hat in H.
  assert (is_u64 (pk (ft_call t))) by (by apply page_base_range).
  unfold pg_part, own_part, thread_ok, held, gate_of in *. rewrite Hat in *. simpl in Hp, Ho.
  destruct (pg_try_claim _ _ _ _ _ _) as [[[prior|x| | |] pg] [claim|]] eqn:Hc; try done.
  - apply (pg_claim_good _ _ _ PST_REQUESTING _ _ _ _ _ Hp) in Hc as [Hg Hkey]; [|done..].
    simplify_eq/=. split; [done|]. split; [done|]. split_and!; [done..|]. intros cl [= <-]. by apply fault_key_claim.
  - apply (pg_refused_same _ _ _ PST_REQUESTING _ _ _ _ _ Hp) in Hc as ->; [|done..].
    simplify_eq/=. destruct owf; simpl in *; naive_solver.
  - apply (pg_refused_same _ _ _ PST_REQUESTING _ _ _ _ _ Hp) in Hc as ->; [|done..].
    simplify_eq/=. destruct owf; simpl in *; naive_solver.
Qed.
Lemma final_state_stable c present : pg_transient (pg_st_code (final_state c present)) = false.
Proof. unfold final_state. destruct present; [|done]. by destruct (negb _). Qed.
Lemma finish_section hs ms a sh t owf cl r b :
  ft_at t = AtFinish owf cl r b -> pg_part hs sh t -> own_part ms sh t -> thread_ok t ->
  exists pg, service_section a sh t = Ok (mk_shared pg (sh_gate sh), go (AtRelease owf r b) t) /\
    pg_good pg hs /\
    pg_view pg = <[claim_key cl := (pc_episode cl, final_state (ft_call t) b)]> (pg_view (sh_pg sh)).
Proof.
  intros Hat Hp Ho _. unfold service_section. rewrite Hat.
  unfold pg_part, held in Hp. rewrite Hat in Hp. simpl in Hp. unfold pg_finish_required.
  destruct (pg_finish _ _ _ _) as [[x pg] c'] eqn:Hf.
  apply (pg_finish_good _ _ _ _ _ _ _ _ Hp (final_state_stable _ _)) in Hf as (-> & Hg & Hv). by exists pg.
Qed.
Lemma release_own ms present sh as_ page :
  (forall s, Ownf.of_seg (sh_gate sh) = Some s -> own_good s (Own.mk_mover as_ page Own.OWN_T_TO_REMOTE :: ms)) ->
  forall s, Ownf.of_seg (Ownf.ownf_release as_ page present (sh_gate sh)) = Some s -> own_good s ms.
Proof.
  intros Ho s. unfold Ownf.ownf_release. destruct (Ownf.of_seg (sh_gate sh)) as [s0|] eqn:Hs0; [|congruence].
  intros Hs. injection Hs as <-. apply (own_end_good (Own.mk_mover as_ page Own.OWN_T_TO_REMOTE)). by apply Ho.
Qed.
Lemma after_service_spec a r t t' :
  after_service a r t = Ok t' ->
  ft_call t' = ft_call t /\ held t' = None /\ gate_of t' = None /\ ft_allows t' = ft_allows t /\
  ft_ack t' = ft_ack t /\ ft_asked t' = ft_asked t /\
  (ft_at t' = Returned r \/ ft_at t' = AtOwner /\ ft_allows t = false).
Proof. unfold after_service. intros. break; by auto 10. Qed.
Lemma release_section hs ms a sh t sh' t' owf r b :
  ft_at t = AtRelease owf r b -> pg_part hs sh t -> own_part ms sh t -> thread_ok t ->
  service_section a sh t = Ok (sh', t') -> pg_part hs sh' t' /\ own_part ms sh' t' /\ thread_ok t'.
Proof.
  intros Hat Hp Ho Ht H. unfold service_section in H. rewrite Hat in H.
  destruct (after_service a r t) as [t1|x| | |] eqn:Haft; simplify_eq/=.
  apply after_service_spec in Haft as (Hc & Hh & Hg & _).
  unfold pg_part, own_part, thread_ok in *. rewrite Hc, Hh, Hg. simpl.
  unfold held, gate_of in Hp, Ho. rewrite Hat in *. simpl in Hp, Ho. split; [done|].
  split; [|naive_solver]. intros s Hs. destruct owf; simpl in Ho; [by eapply release_own|by apply Ho].
Qed.

(** Every section keeps both tables consistent with what the fault holds. *)
Lemma section_ok hs ms a sh t sh' t' :
  pg_part hs sh t -> own_part ms sh t -> thread_ok t ->
  service_section a sh t = Ok (sh', t') -> pg_part hs sh' t' /\ own_part ms sh' t' /\ thread_ok t'.
Proof.
  intros Hp Ho Ht H.
  destruct (ft_at t) as [|g|owf| |owf cl|owf cl r|owf cl r|owf cl r b|owf r b| | | |r|r] eqn:Hat;
    eauto using gate_section, wait_section, claim_section, release_section.
  5: { destruct (finish_section hs ms a sh t owf cl r b Hat Hp Ho Ht) as (pg & Hs & Hg & _).
    rewrite Hs in H. simplify_eq/=. split; [exact Hg|]. unfold own_part, thread_ok, gate_of, held in *.
    rewrite Hat in *. simpl in *. naive_solver. }
  all: unfold service_section, flush in H; rewrite Hat in H;
    unfold pg_part, own_part, thread_ok, held, gate_of in *; rewrite Hat in *; simpl in Hp, Ho, H.
  1: { simplify_eq/=. split; [done|]. split; [by eapply release_own|]. naive_solver. }
  all: try destruct (Receipts.ack_flush _ _); try destruct (negb (an_owner a =? 2)); simplify_eq/=;
    rewrite ?Hat; (split; [done|]; split; [done|naive_solver]).
Qed.

(** ** The invariant of all faults *)
Lemma omap_pick {A B} (f : A -> option B) (l : list A) i x y :
  l !! i = Some x ->
  omap f l ≡ₚ option_list (f x) ++ omap f (delete i l) /\
  omap f (<[i := y]> l) ≡ₚ option_list (f y) ++ omap f (delete i l).
Proof.
  intros Hx. rewrite insert_take_drop by eauto using lookup_lt_Some.
  rewrite delete_take_drop. rewrite <- (take_drop_middle l i x Hx) at 1. rewrite !omap_app. simpl.
  destruct (f x), (f y); simpl; split; solve_Permutation.
Qed.

Lemma fault_runs_ok i a t t' sh sh' ts ws ms :
  fault_ok (mk_fworld sh ts ws ms) -> ts !! i = Some t -> service_section a sh t = Ok (sh', t') ->
  fault_ok (mk_fworld sh' (<[i := t']> ts) ws ms).
Proof.
  intros [Hp Hf Ho Ht] Hi Hs. unfold claims_in, moves_in in *. simpl in *.
  destruct (omap_pick held ts i t t' Hi) as [Hc1 Hc2]. destruct (omap_pick gate_of ts i t t' Hi) as [Hg1 Hg2].
  assert (thread_ok t) as Hok by (by eapply Forall_lookup_1).
  assert (pg_part (omap held (delete i ts) ++ ws) sh t) as Hpart.
  { unfold pg_part. rewrite app_assoc, <- Hc1. by split. }
  assert (own_part (omap gate_of (delete i ts) ++ ms) sh t) as Hopart.
  { intros s Hseg. rewrite app_assoc, <- Hg1. by apply Ho. }
  destruct (section_ok _ _ _ _ _ _ _ Hpart Hopart Hok Hs) as (Hp' & Ho' & Ht').
  unfold pg_part in Hp'. rewrite app_assoc, <- Hc2 in Hp'. destruct Hp' as [Hw' Hf'].
  split; unfold claims_in, moves_in; simpl; auto.
  - intros s Hseg. specialize (Ho' s Hseg). by rewrite app_assoc, <- Hg2 in Ho'.
  - by apply Forall_insert.
Qed.
Lemma start_holds c k : held (mk_thread c false (start c) k 0) = None /\ gate_of (mk_thread c false (start c) k 0) = None.
Proof. unfold held, gate_of, start. simpl. by destruct (negb _), (fc_supply_only c). Qed.
Lemma fault_arrives_ok c sh ts ws ms :
  fault_ok (mk_fworld sh ts ws ms) -> is_u64 (fc_as c) -> fc_as c <> 0 -> is_u64 (fc_addr c) ->
  fault_ok (mk_fworld sh (ts ++ [mk_thread c false (start c) Receipts.ack_none 0]) ws ms).
Proof.
  intros [Hp Hf Ho Ht] Ha Hz Hu. destruct (start_holds c Receipts.ack_none) as [Hh Hg].
  unfold claims_in, moves_in in *. simpl in *.
  split; unfold claims_in, moves_in; simpl; rewrite ?omap_app; simpl; rewrite ?Hh, ?Hg, ?app_nil_r; auto.
  apply Forall_app. split; [done|]. constructor; [|done]. unfold thread_ok. rewrite Hh. by split_and!.
Qed.

Lemma fault_step_ok w w' : fault_ok w -> fault_step w w' -> fault_ok w'.
Proof.
  intros Hw Hst. destruct Hst as [c sh ts ws ms Ha Hz Hu|i a t t' sh sh' ts ws ms Hi Hs
    |sh ts ws ms pg' ws' spent Hst|sh ts ws ms s s' ms' Hseg Hst].
  - by apply fault_arrives_ok.
  - by eapply fault_runs_ok.
  - destruct Hw as [Hp Hf Ho Ht]. destruct (pg_step_good _ _ _ _ _ _ Hst (conj Hp Hf)). by split.
  - destruct Hw as [Hp Hf Ho Ht]. split; auto. simpl. intros s0 [= <-].
    exact (own_step_good _ _ _ _ _ Hst (Ho s Hseg)).
Qed.
Definition slots_ok (slots : option nat) : Prop := forall n, slots = Some n -> pow2 n /\ Z.of_nat n <= 2 ^ 32.
Lemma fault_init_ok slots : slots_ok slots -> fault_ok (fault_init slots).
Proof.
  intros Hs. split; simpl; auto.
  - apply world_init_ok.
  - intros k e He. assert (Hnone : pg_abs pgstate_init !! k = None) by done. simpl in He. congruence.
  - intros s Hseg. destruct slots as [n|]; [|done]. simplify_eq/=. destruct (Hs n eq_refl).
    by apply Own.own_world_init_ok.
Qed.
Lemma fault_reachable_ok slots w : slots_ok slots -> steps fault_step (fault_init slots) w -> fault_ok w.
Proof. intros Hs. apply (steps_invariant fault_step fault_ok fault_step_ok), fault_init_ok, Hs. Qed.

Lemma omap_two {A B C} (f : A -> option B) (g : B -> C) (l : list A) (r : list B) i j x y a b :
  NoDup (g <$> (omap f l ++ r)) -> l !! i = Some x -> l !! j = Some y -> i <> j ->
  f x = Some a -> f y = Some b -> g a <> g b.
Proof.
  intros Hnd Hi Hj Hij Ha Hb Heq. destruct (omap_pick f l i x x Hi) as [Hp _].
  rewrite Hp, Ha in Hnd. simpl in Hnd. apply NoDup_cons in Hnd as [Hin _]. apply Hin.
  rewrite Heq. apply list_elem_of_fmap_2, elem_of_app. left. apply list_elem_of_omap. exists y. split; [|done].
  apply list_elem_of_lookup. destruct (decide (j < i)%nat).
  - exists j. by rewrite list_lookup_delete_lt.
  - exists (j - 1)%nat. rewrite list_lookup_delete_ge by lia. by replace (S (j - 1)) with j by lia.
Qed.
Lemma claim_elem w c :
  fault_ok w -> c ∈ claims_in w ->
  (exists t, t ∈ fw_threads w /\ in_service t = true /\ fault_key (ft_call t) = claim_key c) \/ c ∈ fw_workers w.
Proof.
  intros Hw [Hc|Hc]%elem_of_app; [left|by right]. apply list_elem_of_omap in Hc as (t & Ht & Hh).
  exists t. split; [done|]. pose proof (fo_threads _ Hw) as Hts. rewrite Forall_forall in Hts.
  destruct (Hts t Ht) as (_ & _ & _ & Hk). rewrite (Hk c Hh). split; [|done].
  unfold in_service. rewrite Hh. by apply bool_decide_eq_true_2.
Qed.
Lemma in_service_held t : in_service t = true -> exists c, held t = Some c.
Proof. unfold in_service. by intros [c Hc]%bool_decide_eq_true_1; exists c. Qed.
Lemma finish_in_world w i t owf cl r b a :
  fault_ok w -> fw_threads w !! i = Some t -> ft_at t = AtFinish owf cl r b ->
  exists pg, service_section a (fw_sh w) t = Ok (mk_shared pg (sh_gate (fw_sh w)), go (AtRelease owf r b) t) /\
    pg_view pg = <[claim_key cl := (pc_episode cl, final_state (ft_call t) b)]> (pg_view (sh_pg (fw_sh w))).
Proof.
  intros Hw Hi Hat. pose proof (Forall_lookup_1 _ _ _ _ (fo_threads _ Hw) Hi) as Hok.
  destruct (omap_pick held (fw_threads w) i t t Hi) as [Hc _].
  destruct (omap_pick gate_of (fw_threads w) i t t Hi) as [Hg _].
  destruct (finish_section (omap held (delete i (fw_threads w)) ++ fw_workers w)
    (omap gate_of (delete i (fw_threads w)) ++ fw_movers w) a (fw_sh w) t owf cl r b Hat)
    as (pg & Hs & _ & Hv); eauto.
  - unfold pg_part. rewrite app_assoc, <- Hc. split; apply Hw.
  - intros s Hseg. rewrite app_assoc, <- Hg. by apply (fo_own _ Hw).
Qed.

(** C7: faults are served one at a time per page.  In every state any number of
    faults can reach together with the other users of the two tables, two faults
    between the success of their claim and its completion (the inner service,
    the acknowledgement of what it landed and the presence test lie there) are
    for different pages, and no other user of the transfer table has a page that
    a fault is serving.  The completion always succeeds and publishes the page as
    owned after a write fault, shared after a read, or absent when no context of
    the address space has it. *)
Theorem fault_service_exclusive slots w :
  slots_ok slots -> steps fault_step (fault_init slots) w ->
  (forall i j t u, i <> j -> fw_threads w !! i = Some t -> fw_threads w !! j = Some u ->
     in_service t = true -> in_service u = true -> fault_key (ft_call t) <> fault_key (ft_call u)) /\
  (forall t c, t ∈ fw_threads w -> in_service t = true -> c ∈ fw_workers w ->
     claim_key c <> fault_key (ft_call t)) /\
  (forall i t owf c r present a, fw_threads w !! i = Some t -> ft_at t = AtFinish owf c r present ->
     exists pg, service_section a (fw_sh w) t =
         Ok (mk_shared pg (sh_gate (fw_sh w)), go (AtRelease owf r present) t) /\
       pg_view pg = <[fault_key (ft_call t) := (pc_episode c, final_state (ft_call t) present)]>
         (pg_view (sh_pg (fw_sh w)))).
Proof.
  intros Hsl Hr. assert (fault_ok w) as Hw by (by eapply fault_reachable_ok).
  pose proof (wo_excl _ (fo_pg _ Hw)) as Hnd. simpl in Hnd.
  assert (Hkey : forall t c, t ∈ fw_threads w -> held t = Some c -> claim_key c = fault_key (ft_call t)).
  { intros t c Ht Hc. pose proof (fo_threads _ Hw) as Hts. rewrite Forall_forall in Hts.
    destruct (Hts t Ht) as (_ & _ & _ & Hk). by apply Hk. }
  split_and!.
  - intros i j t u Hij Hi Hj [c Hc]%in_service_held [d Hd]%in_service_held.
    rewrite <- (Hkey t c), <- (Hkey u d) by (done || by eapply list_elem_of_lookup_2).
    exact (omap_two held claim_key _ _ _ _ _ _ _ _ Hnd Hi Hj Hij Hc Hd).
  - intros t c Ht [d Hd]%in_service_held Hc. rewrite <- (Hkey t d) by done. intros Heq.
    unfold claims_in in Hnd. rewrite fmap_app, NoDup_app in Hnd. destruct Hnd as (_ & Hnd & _).
    apply (Hnd (claim_key d)).
    + apply list_elem_of_fmap_2, list_elem_of_omap. by exists t.
    + rewrite <- Heq. by apply list_elem_of_fmap_2.
  - intros i t owf c r b a Hi Hat. destruct (finish_in_world w i t owf c r b a Hw Hi Hat) as (pg & Hs & Hv).
    exists pg. split; [done|]. rewrite <- (Hkey t c); [done|by eapply list_elem_of_lookup_2|].
    unfold held. by rewrite Hat.
Qed.

(** no reservation outlives its fault.  A page whose transfer slot is
    transient is being served by a fault, or held by another user of the table;
    a page whose token is in flight is one some fault was admitted for at the
    gate and has not released, or another user's move.  A fault that yielded,
    returned, or is waiting for the source to interpret its exception holds
    neither, so the source can take and give back the very page that faulted. *)
Theorem fault_reservations_end slots w :
  slots_ok slots -> steps fault_step (fault_init slots) w ->
  (forall k e, pg_abs (sh_pg (fw_sh w)) !! k = Some e -> transient_slot e = true ->
     (exists t, t ∈ fw_threads w /\ in_service t = true /\ fault_key (ft_call t) = k) \/
     exists c, c ∈ fw_workers w /\ claim_key c = k) /\
  (forall s k, Ownf.of_seg (sh_gate (fw_sh w)) = Some s -> Own.transit_of s k <> Own.OWN_T_NONE ->
     (exists t, t ∈ fw_threads w /\ gated (ft_at t) = true /\ fault_key (ft_call t) = k) \/
     exists m, m ∈ fw_movers w /\ mover_key m = k) /\
  (forall t, t ∈ fw_threads w -> ft_at t = AtOwner \/ (exists r, ft_at t = Returned r) ->
     in_service t = false /\ gated (ft_at t) = false).
Proof.
  intros Hsl Hr. assert (fault_ok w) as Hw by (by eapply fault_reachable_ok). split_and!.
  - intros k e He Ht. destruct (fo_flight _ Hw k e He Ht) as (c & Hc & <-).
    apply (claim_elem w c Hw) in Hc as [?|?]; eauto.
  - intros s k Hs Hk. destruct (Own.wo_flight _ (fo_own _ Hw s Hs) k Hk) as (m & Hm & <-).
    apply elem_of_app in Hm as [Hm|Hm]; [left|eauto].
    apply list_elem_of_omap in Hm as (t & Ht & Hg). exists t. split; [done|].
    unfold gate_of in Hg. destruct (gated (ft_at t)); [|done]. split; [done|]. simplify_eq.
    pose proof (fo_threads _ Hw) as Hts. rewrite Forall_forall in Hts. destruct (Hts t Ht) as (_ & _ & Hu & _).
    unfold mover_key, fault_key, pk. simpl. by rewrite page_base_idem.
  - intros t _ [Hat|[r Hat]]; unfold in_service, held; by rewrite Hat.
Qed.

(** ** Progress of one fault *)
(** how many sections a fault has left at most *)
Definition sections_left (t : fault_thread) : nat :=
  (if ft_allows t then 0 else 10) +
  match ft_at t with
  | AtGate => 9 | AtWait _ => 8 | AtClaim _ => 7 | AtYield => 6 | AtInner _ _ => 6 | AtFlush _ _ _ => 5
  | AtPresent _ _ _ => 4 | AtFinish _ _ _ _ => 3 | AtRelease _ _ _ => 2 | AtOwner => 1
  | AtException => 1 | AtPrefill => 2 | AtPrefillFlush _ => 1 | Returned _ => 0
  end.
(** an acknowledgement that is malformed or that the source does not confirm *)
Definition unconfirmed (a : answers) (st : Receipts.ack_state) : Prop :=
  exists k, Receipts.ack_pend st = Some k /\
    (Proto.vmr_binding_valid (Receipts.ak_target k) = false \/ Receipts.ak_episode k = 0 \/
     page_aligned (Receipts.ak_page k) = false \/ an_home a (Receipts.ack_sent st) k = false).
(** why the monitor may end at a point *)
Definition ends (a : answers) (sh : shared) (t : fault_thread) : Prop :=
  match ft_at t with
  | AtClaim _ => ps_episode (slot_at (sh_pg sh) (fc_as (ft_call t)) (pk (ft_call t))) = U64MAX \/
      grow_refused (an_alloc a) (sh_pg sh)
  | AtFlush _ _ _ | AtPrefillFlush _ => unconfirmed a (ft_ack t)
  | AtRelease _ r _ => r = FAULT_NEEDS_OWNER /\ (ft_allows t = true \/ an_coh_depth a <> 0)
  | _ => False
  end.
(** the source was asked only by a fault that has moved past the question *)
Definition asked_ok (t : fault_thread) : Prop :=
  (ft_asked t <= 1)%nat /\
  (ft_asked t = 1%nat -> ft_allows t = true \/ exists r, ft_at t = Returned r) /\
  (ft_allows t = true -> ft_at t <> AtOwner /\ ft_at t <> AtException).

Lemma flush_aborts a st r : Receipts.ack_flush (an_home a) st = r ->
  (exists st', r = Ok st') \/ r = Aborted /\ unconfirmed a st.
Proof.
  unfold Receipts.ack_flush, unconfirmed. intros <-. destruct (Receipts.ack_pend st) as [k|]; [|eauto].
  destruct (_ || _) eqn:Hg.
  - right. split; [done|]. exists k. split; [done|]. unfold page_aligned.
    rewrite !orb_true_iff, !negb_true_iff, Z.eqb_eq in Hg. tauto.
  - destruct (an_home a _ k) eqn:Hh; simpl; [eauto|]. right. eauto 10.
Qed.
Lemma asked_section a sh t sh' t' :
  asked_ok t -> service_section a sh t = Ok (sh', t') -> asked_ok t'.
Proof.
  intros (Hle & H1 & H2) H. unfold service_section in H.
  destruct (ft_at t) as [|g|owf| |owf cl|owf cl r|owf cl r|owf cl r b|owf r b| | | |r|r] eqn:Hat; simpl in H.
  9: { destruct (after_service a r t) as [t1|x| | |] eqn:Haft; simplify_eq/=.
    apply after_service_spec in Haft as (_ & _ & _ & Hal & _ & Has & Hcase). unfold asked_ok. rewrite Hal, Has.
    destruct Hcase as [Hc|[Hc Hno]]; rewrite Hc; [naive_solver|].
    split; [done|]. split; [|congruence]. intros [?|[? ?]]%H1; congruence. }
  9: { assert (ft_asked t = 0%nat) as Hz.
    { destruct (ft_asked t) as [|[|n]]; [done| |lia]. destruct H1 as [?|[? ?]]; [done| |congruence]. naive_solver. }
    destruct (negb _); simplify_eq/=; unfold asked_ok; simpl; rewrite Hz; split_and!; eauto. }
  9: { assert (ft_asked t = 0%nat) as Hz.
    { destruct (ft_asked t) as [|[|n]]; [done| |lia]. destruct H1 as [?|[? ?]]; [done| |congruence]. naive_solver. }
    simplify_eq/=; unfold asked_ok; simpl; rewrite Hz; split_and!; eauto. }
  all: unfold flush in H; unfold asked_ok; try destruct (Receipts.ack_flush _ _);
    repeat case_match; simplify_eq/=; rewrite ?Hat; (split; [done|]; split; [|done]); intros ?%H1; naive_solver.
Qed.
Lemma asked_reachable slots w : steps fault_step (fault_init slots) w -> Forall asked_ok (fw_threads w).
Proof.
  apply (steps_invariant fault_step (fun w => Forall asked_ok (fw_threads w))); [|by constructor].
  intros s s' Hs Hst. destruct Hst; simpl in *; auto.
  - apply Forall_app. split; [done|]. constructor; [|done]. unfold asked_ok. simpl. split; [lia|]. by split.
  - apply Forall_insert; [done|]. eapply asked_section; [|done]. by eapply Forall_lookup_1.
Qed.

Lemma section_progress a sh t :
  (forall owf cl r b, ft_at t = AtFinish owf cl r b -> exists pg,
     service_section a sh t = Ok (mk_shared pg (sh_gate sh), go (AtRelease owf r b) t)) ->
  pg_wf (sh_pg sh) -> thread_ok t -> asked_ok t ->
  match service_section a sh t with
  | Ok (_, t') => (exists r, ft_at t = Returned r) \/ (sections_left t' < sections_left t)%nat
  | Aborted => ends a sh t
  | _ => False
  end.
Proof.
  intros Hfin Hwf (Ha & _ & Hu & _) (_ & _ & Hask). unfold ends, sections_left.
  destruct (ft_at t) as [|g|owf| |owf cl|owf cl r|owf cl r|owf cl r b|owf r b| | | |r|r] eqn:Hat.
  8: { destruct (Hfin _ _ _ _ eq_refl) as (pg & Hs). rewrite Hs. simpl. right. lia. }
  all: unfold service_section; rewrite Hat; simpl.
  - destruct (Ownf.ownf_claim _ _ _ _ _) as [[| |g] gate]; simpl; right; lia.
  - right. destruct (negb _); simpl; lia.
  - destruct (pg_try_claim _ _ _ _ _ _) as [[r pg] c'] eqn:Hc.
    assert (Hpk : page_base (pk (ft_call t)) = pk (ft_call t)) by (by apply page_base_idem).
    assert (is_u64 (pk (ft_call t))) by (by apply page_base_range).
    pose proof (pg_try_claim_spec _ _ _ PST_REQUESTING claim_zero _ _ _ _ Hwf Ha ltac:(done) eq_refl eq_refl Hc) as Hsp.
    cbv zeta in Hsp. destruct r as [prior|x| | |]; [|simpl; right; destruct owf; simpl; lia| |done|done].
    + destruct Hsp as (_ & _ & _ & _ & _ & ->). simpl. right. lia.
    + apply (pg_try_claim_aborts _ _ _ PST_REQUESTING claim_zero) in Hc; [|done..]. by rewrite Hpk in Hc.
  - right. lia.
  - right. lia.
  - unfold flush. destruct (flush_aborts a (ft_ack t) _ eq_refl) as [[st Hs]|[Hs Hx]]; rewrite Hs; [simpl; right; lia|done].
  - right. lia.
  - unfold after_service. destruct (Z.eqb_spec r FAULT_NEEDS_OWNER); simpl; [|right; lia].
    destruct (ft_allows t) eqn:Hal; simpl; [eauto|]. destruct (Z.eqb_spec (an_coh_depth a) 0); simpl; [|eauto].
    rewrite Hal. right. lia.
  - destruct (ft_allows t); [naive_solver|]. destruct (negb _); simpl; right; lia.
  - destruct (ft_allows t); [naive_solver|]. simpl. right. lia.
  - right. lia.
  - unfold flush. destruct (flush_aborts a (ft_ack t) _ eq_refl) as [[st Hs]|[Hs Hx]]; rewrite Hs; [simpl; right; lia|done].
  - left. by exists r.
Qed.

(** C32: every fault ends, having asked the source at most once.  In every
    reachable state each section of a fault either brings it strictly closer to
    its return (at most 19 sections, whatever the calls answer), or ends the
    monitor for one of the named reasons: the transfer table is exhausted, an
    acknowledgement is not confirmed, or the service asks for the owner a second
    time or under the coherence lock.  The completion of the reservation is never
    a reason.  A fault asks the source to interpret it at most once. *)
Theorem fault_call_ends slots w i t a :
  slots_ok slots -> steps fault_step (fault_init slots) w -> fw_threads w !! i = Some t ->
  (sections_left t <= 19)%nat /\ (ft_asked t <= 1)%nat /\
  match service_section a (fw_sh w) t with
  | Ok (_, t') => (exists r, ft_at t = Returned r) \/ (sections_left t' < sections_left t)%nat
  | Aborted => ends a (fw_sh w) t
  | _ => False
  end.
Proof.
  intros Hsl Hr Hi. assert (fault_ok w) as Hw by (by eapply fault_reachable_ok).
  apply asked_reachable in Hr. pose proof (Forall_lookup_1 _ _ _ _ Hr Hi) as Hask.
  pose proof (Forall_lookup_1 _ _ _ _ (fo_threads _ Hw) Hi) as Hok.
  split; [unfold sections_left; destruct (ft_allows t), (ft_at t); lia|]. split; [apply Hask|].
  apply section_progress; [|apply Hw|done|done]. intros owf cl r b Hat.
  destruct (finish_in_world w i t owf cl r b a Hw Hi Hat) as (pg & Hs & _). eauto.
Qed.

(** ** Runs of one fault *)
Fixpoint run_fault (n : nat) (a : nat -> answers) (sh : shared) (t : fault_thread) : result (shared * fault_thread) :=
  match n with
  | O => Ok (sh, t)
  | S n => let! (sh, t) := service_section (a n) sh t in run_fault n a sh t
  end.
Lemma run_fault_steps n a sh t sh' t' ws ms :
  run_fault n a sh t = Ok (sh', t') -> steps fault_step (mk_fworld sh [t] ws ms) (mk_fworld sh' [t'] ws ms).
Proof.
  revert sh t. induction n as [|n IH]; simpl; intros sh t H; [simplify_eq; apply steps_refl|].
  destruct (service_section (a n) sh t) as [[sh1 t1]|x| | |] eqn:Hs; simplify_eq/=.
  eapply steps_trans; [|by apply IH]. eapply steps_next; [apply steps_refl|].
  by apply (fault_runs 0 (a n) t t1 sh sh1 [t]).
Qed.

(** A write fault that the source is asked about (sections 16 to 9 counted down)
    and then allows. *)
Definition demo_answers (n : nat) : answers :=
  mk_answers 1 2 true (fun _ => true) (if (8 <? n)%nat then FAULT_NEEDS_OWNER else 1) (fun st => st)
    (fun _ _ => true) true 2 0.
Definition demo_call : fault_call := mk_call 7 14 0x5123 2 false.
Definition demo_thread : fault_thread := mk_thread demo_call false (start demo_call) Receipts.ack_none 0.
Definition demo_shared : shared := fw_sh (fault_init (Some 4%nat)).
Definition demo_service (n : nat) : result (shared * fault_thread) :=
  run_fault n (fun i => demo_answers (15 + i - n)) demo_shared demo_thread.

Lemma demo_reached n sh t :
  demo_service n = Ok (sh, t) -> steps fault_step (fault_init (Some 4%nat)) (mk_fworld sh [t] [] []).
Proof.
  intros H. eapply steps_trans; [|exact (run_fault_steps _ _ _ _ _ _ [] [] H)].
  eapply steps_next; [apply steps_refl|].
  apply (fault_arrives demo_call demo_shared [] [] []); [unfold is_u64, U64MAX; simpl; lia|done|unfold is_u64, U64MAX; simpl; lia].
Qed.
Lemma demo_slots : slots_ok (Some 4%nat).
Proof. intros n [= <-]. split; [by exists 2%nat|lia]. Qed.
Lemma demo_at (n : nat) (P : point -> bool) :
  match demo_service n with Ok (_, t) => P (ft_at t) | _ => false end = true ->
  exists sh t, demo_service n = Ok (sh, t) /\ P (ft_at t) = true.
Proof. destruct (demo_service n) as [[sh t]|x| | |]; [|done..]. intros. by exists sh, t. Qed.


Lemma fault_service_exclusive_witness :
  exists sh t, demo_service 5 = Ok (sh, t) /\ in_service t = true /\
    forall u, [t] !! 1%nat = Some u -> in_service u = true -> fault_key (ft_call t) <> fault_key (ft_call u).
Proof.
  destruct (demo_at 5 (fun p => bool_decide (is_Some (claim_of p)))) as (sh & t & H & Hs); [by vm_compute|].
  exists sh, t. split; [exact H|]. split; [exact Hs|]. intros u Hu Hus.
  destruct (fault_service_exclusive (Some 4%nat) (mk_fworld sh [t] [] []) demo_slots (demo_reached _ _ _ H)) as [Hx _].
  by apply (Hx 0%nat 1%nat).
Defined.
Lemma fault_reservations_end_witness :
  exists sh t, demo_service 7 = Ok (sh, t) /\ ft_at t = AtOwner /\ gated (ft_at t) = false.
Proof.
  destruct (demo_at 7 (fun p => match p with AtOwner => true | _ => false end)) as (sh & t & H & Hs); [by vm_compute|].
  exists sh, t. split; [exact H|]. assert (Hat : ft_at t = AtOwner) by (clear H; by destruct (ft_at t)).
  split; [exact Hat|].
  destruct (fault_reservations_end (Some 4%nat) (mk_fworld sh [t] [] []) demo_slots (demo_reached _ _ _ H)) as (_ & _ & Hx).
  apply (Hx t); [by left|by left].
Defined.
Lemma fault_call_ends_witness :
  exists sh t, demo_service 15 = Ok (sh, t) /\ (exists r, ft_at t = Returned r) /\ (ft_asked t <= 1)%nat.
Proof.
  destruct (demo_at 15 (fun p => match p with Returned _ => true | _ => false end)) as (sh & t & H & Hs); [by vm_compute|].
  exists sh, t. split; [exact H|]. split; [clear H; destruct (ft_at t); try done; eauto|].
  apply (fault_call_ends (Some 4%nat) (mk_fworld sh [t] [] []) 0%nat t (demo_answers 0) demo_slots (demo_reached _ _ _ H) eq_refl).
Defined.
End FaultDispatch.
