(* ===== verification/SnapshotQuiesce.v ===== *)
(** * Snapshot leases (user/snapshot-quiesce.h)

    Before the source takes a snapshot of an address space, every context that
    runs on it is paused by a native lease.  One snapshot of an address space is
    taken at a time: the serial lock of the space is found or made in a registry
    that only grows, and is held from before the members are listed until the
    last lease is released.  [lease_section] is the code between two points where
    another thread may run; [lease_step] interleaves any number of snapshots.
    The native answers are arguments.  Also here: mm_members and as_members of
    vmremote.c, which list the members. *)
From S2P Require Import Prelude.

Module SnapshotQuiesce.

Definition MAX_CTX : nat := 256.

(** ** Members of an address space (vmremote.c) *)
(** a target is a pointer to an immutable record of a context *)
Record target := mk_target { tg_context : Z; tg_record : Z }.
#[global] Instance target_eq_dec : EqDecision target.
Proof. solve_decision. Defined.
(** A context at the time of the scan: its current target, the memory record it
    is bound to, and whether its execution has ended. *)
Record context := mk_context { cx_target : target; cx_mm : Z; cx_ended : bool }.

Fixpoint members_scan (mm : Z) (max : nat) (out : list target) (ctxs : list context) : result (list target) :=
  match ctxs with
  | [] => Ok out
  | c :: ctxs =>
      if negb (cx_mm c =? mm) || cx_ended c then members_scan mm max out ctxs
      else if (max <=? length out)%nat then Aborted
      else members_scan mm max (out ++ [cx_target c]) ctxs
  end.
Definition mm_members (mm : Z) (max : nat) (ctxs : list context) : result (list target) :=
  members_scan mm max [] ctxs.
(** the named context is moved to the front *)
Fixpoint swap_front (t first : target) (seen out : list target) : list target :=
  match out with
  | [] => first :: seen
  | x :: out => if tg_context x =? tg_context t then x :: seen ++ first :: out
                else swap_front t first (seen ++ [x]) out
  end.
Definition as_members (t : option target) (mm : Z) (max : nat) (ctxs : list context) : result (list target) :=
  match t with
  | None => Ok []
  | Some t =>
      let! out := mm_members mm max ctxs in
      Ok (match out with [] => [] | first :: rest => swap_front t first [] rest end)
  end.

(** ** State *)
(** A serial lock with the thread that holds it, and the native leases that are
    outstanding with the thread that took them. *)
Record serial := mk_serial { ss_as : Z; ss_mutex : option nat }.
Record quiesce := mk_quiesce { snapshot_registry : list serial; leases : list (nat * target) }.

Inductive point :=
| AtRegistry                     (* snapshot_begin, under snapshot_registry_lock *)
| AtSerial                       (* locking the serial *)
| AtMembers                      (* as_members *)
| AtPause (todo : list target)   (* the loop over the members *)
| Leased                         (* snapshot_begin returned 0 *)
| AtEnd (failed : bool)          (* snapshot_end *)
| Over (failed : bool).          (* snapshot_end returned; failed: snapshot_begin returned -1 *)
(** The lease of one thread: [gates] is the array with its last element first,
    [held] whether [serial] is set.  [asked] are the members that were listed and
    [gone] those found to have ended. *)
Record snapshot := mk_snapshot {
  sn_pid : target; sn_as : Z; sn_at : point; sn_gates : list target; sn_held : bool;
  sn_asked : list target; sn_gone : list target }.
Record answers := mk_answers {
  an_alloc : bool; an_members : list context; an_mm : Z; an_ended : bool;
  an_begin : bool; an_waited : bool; an_end : bool }.

Definition go (p : point) (t : snapshot) : snapshot :=
  mk_snapshot (sn_pid t) (sn_as t) p (sn_gates t) (sn_held t) (sn_asked t) (sn_gone t).
Definition set_mutex (as_ : Z) (owner : option nat) (r : list serial) : list serial :=
  (fun s => if ss_as s =? as_ then mk_serial (ss_as s) owner else s) <$> r.
Definition find_serial (as_ : Z) (r : list serial) : option serial := head (filter (fun s => ss_as s = as_) r).
Fixpoint drop_lease (x : nat * target) (l : list (nat * target)) : list (nat * target) :=
  match l with [] => [] | y :: l => if decide (x = y) then l else y :: drop_lease x l end.

(** [None] is a thread that waits for the serial lock. *)
Definition lease_section (a : answers) (i : nat) (q : quiesce) (t : snapshot) : option (result (quiesce * snapshot)) :=
  match sn_at t with
  | AtRegistry =>
      match find_serial (sn_as t) (snapshot_registry q) with
      | Some _ => Some (Ok (q, go AtSerial t))
      | None =>
          if an_alloc a
          then Some (Ok (mk_quiesce (mk_serial (sn_as t) None :: snapshot_registry q) (leases q), go AtSerial t))
          else Some (Ok (q, go (Over true) t))
      end
  | AtSerial =>
      match find_serial (sn_as t) (snapshot_registry q) with
      | Some s =>
          match ss_mutex s with
          | Some _ => None
          | None => Some (Ok (mk_quiesce (set_mutex (sn_as t) (Some i) (snapshot_registry q)) (leases q),
              mk_snapshot (sn_pid t) (sn_as t) AtMembers (sn_gates t) true (sn_asked t) (sn_gone t)))
          end
      | None => Some Corrupt
      end
  | AtMembers =>
      Some (let! members := as_members (Some (sn_pid t)) (an_mm a) MAX_CTX (an_members a) in
        Ok (q, mk_snapshot (sn_pid t) (sn_as t) (AtPause members) (sn_gates t) (sn_held t) members (sn_gone t)))
  | AtPause [] => Some (Ok (q, go Leased t))
  | AtPause (m :: todo) =>
      let other := negb (bool_decide (m = sn_pid t)) in
      let skip := mk_snapshot (sn_pid t) (sn_as t) (AtPause todo) (sn_gates t) (sn_held t) (sn_asked t) (m :: sn_gone t) in
      if other && an_ended a then Some (Ok (q, skip))
      else if an_begin a then
        if (length (sn_gates t) <? MAX_CTX)%nat
        then Some (Ok (mk_quiesce (snapshot_registry q) ((i, m) :: leases q),
               mk_snapshot (sn_pid t) (sn_as t) (AtPause todo) (m :: sn_gates t) (sn_held t) (sn_asked t) (sn_gone t)))
        else Some Corrupt
      else if other && an_waited a then Some (Ok (q, skip))
      else Some (Ok (q, go (AtEnd true) t))
  | Leased => Some (Ok (q, go (AtEnd false) t))
  | AtEnd failed =>
      match sn_gates t with
      | m :: gates =>
          if an_end a
          then Some (Ok (mk_quiesce (snapshot_registry q) (drop_lease (i, m) (leases q)),
                 mk_snapshot (sn_pid t) (sn_as t) (AtEnd failed) gates (sn_held t) (sn_asked t) (sn_gone t)))
          else Some Aborted
      | [] =>
          Some (Ok (mk_quiesce (if sn_held t then set_mutex (sn_as t) None (snapshot_registry q) else snapshot_registry q)
                      (leases q),
                mk_snapshot (sn_pid t) (sn_as t) (Over failed) [] false (sn_asked t) (sn_gone t)))
      end
  | Over _ => Some (Ok (q, t))
  end.

(** ** All snapshots together *)
Record lease_world := mk_lworld { lw_q : quiesce; lw_threads : list snapshot }.
Definition lease_init : lease_world := mk_lworld (mk_quiesce [] []) [].
Inductive lease_step : lease_world -> lease_world -> Prop :=
| lease_begins pid as_ q ts :
    lease_step (mk_lworld q ts) (mk_lworld q (ts ++ [mk_snapshot pid as_ AtRegistry [] false [] []]))
| lease_runs i a t t' q q' ts :
    ts !! i = Some t -> lease_section a i q t = Some (Ok (q', t')) ->
    lease_step (mk_lworld q ts) (mk_lworld q' (<[i := t']> ts))
| lease_again i t failed q ts :   (* snapshot_end runs again when the scope is left *)
    ts !! i = Some t -> sn_at t = Over failed ->
    lease_step (mk_lworld q ts) (mk_lworld q (<[i := go (AtEnd failed) t]> ts)).

(** ** The members *)
Definition runs_on (mm : Z) (c : context) : Prop := cx_mm c = mm /\ cx_ended c = false.
#[global] Instance runs_on_dec mm c : Decision (runs_on mm c).
Proof. unfold runs_on. apply _. Defined.
Lemma members_scan_spec mm max out ctxs :
  (length out <= max)%nat ->
  let all := out ++ (cx_target <$> filter (runs_on mm) ctxs) in
  members_scan mm max out ctxs = if (length all <=? max)%nat then Ok all else Aborted.
Proof.
  revert out. induction ctxs as [|c ctxs IH]; simpl; intros out Hle.
  { rewrite app_nil_r. by rewrite (proj2 (Nat.leb_le _ _) Hle). }
  rewrite filter_cons. destruct (decide (runs_on mm c)) as [[Hm He]|Hn].
  - rewrite He, (proj2 (Z.eqb_eq _ _) Hm), fmap_cons. simpl. destruct (Nat.leb_spec max (length out)).
    + rewrite (proj2 (Nat.leb_gt _ _)); [done|]. rewrite length_app. simpl. lia.
    + rewrite (cons_middle (cx_target c) out (cx_target <$> _)), app_assoc. apply IH. rewrite length_app. simpl. lia.
  - assert (negb (cx_mm c =? mm) || cx_ended c = true) as ->; [|by apply IH].
    unfold runs_on in Hn. destruct (Z.eqb_spec (cx_mm c) mm), (cx_ended c); naive_solver.
Qed.
Lemma swap_front_perm t first seen out : swap_front t first seen out ≡ₚ first :: seen ++ out.
Proof.
  revert seen. induction out as [|x out IH]; simpl; intros seen; [by rewrite app_nil_r|].
  destruct (_ =? _); [solve_Permutation|]. rewrite IH. solve_Permutation.
Qed.
Lemma as_members_spec t mm max ctxs :
  match as_members (Some t) mm max ctxs with
  | Ok out => out ≡ₚ cx_target <$> filter (runs_on mm) ctxs /\ (length out <= max)%nat
  | Aborted => (max < length (filter (runs_on mm) ctxs))%nat
  | _ => False
  end.
Proof.
  unfold as_members, mm_members. pose proof (members_scan_spec mm max [] ctxs (Nat.le_0_l _)) as H.
  simpl in H. rewrite length_fmap in H.
  destruct (Nat.leb_spec (length (filter (runs_on mm) ctxs)) max); rewrite H; simpl; [|done].
  destruct (cx_target <$> filter (runs_on mm) ctxs) as [|f r] eqn:Hl; [split; [done|simpl; lia]|].
  pose proof (swap_front_perm t f [] r) as Hp. split; [done|]. rewrite Hp. simpl.
  assert (length (f :: r) = length (filter (runs_on mm) ctxs)) as Hlen by (by rewrite <- Hl, length_fmap).
  simpl in Hlen. lia.
Qed.

(** ** The registry *)
Lemma find_serial_spec as_ r s : find_serial as_ r = Some s -> s ∈ r /\ ss_as s = as_.
Proof.
  unfold find_serial. intros Hs%head_Some_elem_of. by apply list_elem_of_filter in Hs as [? ?].
Qed.
Lemma find_serial_none as_ r : find_serial as_ r = None -> forall s, s ∈ r -> ss_as s <> as_.
Proof.
  unfold find_serial. intros Hn%head_None s Hs Ha. assert (s ∈ filter (fun s => ss_as s = as_) r) as Hin by (by apply list_elem_of_filter).
  rewrite Hn in Hin. by apply elem_of_nil in Hin.
Qed.
Lemma set_mutex_as as_ o r : ss_as <$> set_mutex as_ o r = ss_as <$> r.
Proof.
  unfold set_mutex. rewrite <- list_fmap_compose. apply list_fmap_ext. intros i s _. simpl. by destruct (_ =? _).
Qed.
Lemma set_mutex_elem as_ o r s :
  s ∈ set_mutex as_ o r <->
  (ss_as s = as_ /\ ss_mutex s = o /\ exists s0, s0 ∈ r /\ ss_as s0 = as_) \/ (ss_as s <> as_ /\ s ∈ r).
Proof.
  unfold set_mutex. rewrite list_elem_of_fmap. split.
  - intros (s0 & -> & Hs0). destruct (Z.eqb_spec (ss_as s0) as_); simpl; [left|right]; eauto.
  - intros [(Ha & Hm & s0 & Hs0 & Hs0a)|[Ha Hs]].
    + exists s0. rewrite (proj2 (Z.eqb_eq _ _) Hs0a). split; [|done]. destruct s; simpl in *. congruence.
    + exists s. by rewrite (proj2 (Z.eqb_neq _ _) Ha).
Qed.
Lemma serial_unique r s s' : NoDup (ss_as <$> r) -> s ∈ r -> s' ∈ r -> ss_as s = ss_as s' -> s = s'.
Proof.
  intros Hnd [x Hx]%list_elem_of_lookup [y Hy]%list_elem_of_lookup Heq.
  assert (x = y) as ->; [|congruence].
  apply (NoDup_lookup _ _ _ (ss_as s) Hnd); rewrite list_lookup_fmap; [rewrite Hx|rewrite Hy]; simpl; congruence.
Qed.

(** ** The invariant *)
Definition has_serial (q : quiesce) (as_ : Z) : Prop := exists s, s ∈ snapshot_registry q /\ ss_as s = as_.
Lemma has_serial_set q as_ as' o ls :
  has_serial q as' -> has_serial (mk_quiesce (set_mutex as_ o (snapshot_registry q)) ls) as'.
Proof.
  intros (s & Hs & <-). unfold has_serial. simpl.
  assert (ss_as s ∈ ss_as <$> set_mutex as_ o (snapshot_registry q)) as (s2 & ? & ?)%list_elem_of_fmap.
  { rewrite set_mutex_as. by apply list_elem_of_fmap_2. }
  by exists s2.
Qed.
Definition shape (t : snapshot) : Prop :=
  match sn_at t with
  | AtRegistry | AtSerial | Over _ => sn_gates t = [] /\ sn_held t = false
  | AtMembers => sn_gates t = [] /\ sn_held t = true
  | AtPause todo => sn_held t = true /\ sn_asked t ≡ₚ sn_gates t ++ sn_gone t ++ todo
  | Leased => sn_held t = true /\ sn_asked t ≡ₚ sn_gates t ++ sn_gone t
  | AtEnd _ => sn_gates t = [] \/ sn_held t = true
  end /\ (length (sn_gates t) <= MAX_CTX)%nat /\ (sn_pid t ∉ sn_gone t) /\
  match sn_at t with
  | AtRegistry | AtSerial | AtMembers => sn_gone t = []
  | AtPause _ | Leased => (length (sn_asked t) <= MAX_CTX)%nat
  | _ => True
  end.
Record lease_ok (w : lease_world) : Prop := {
  lo_reg : NoDup (ss_as <$> snapshot_registry (lw_q w));
  lo_mutex : forall s i, s ∈ snapshot_registry (lw_q w) -> ss_mutex s = Some i ->
    exists t, lw_threads w !! i = Some t /\ sn_held t = true /\ sn_as t = ss_as s;
  lo_held : forall i t, lw_threads w !! i = Some t -> sn_held t = true ->
    exists s, s ∈ snapshot_registry (lw_q w) /\ ss_as s = sn_as t /\ ss_mutex s = Some i;
  lo_located : forall i t, lw_threads w !! i = Some t -> sn_at t = AtSerial -> has_serial (lw_q w) (sn_as t);
  lo_leases : forall i, filter (fun x => fst x = i) (leases (lw_q w)) ≡ₚ
    pair i <$> default [] (sn_gates <$> lw_threads w !! i);
  lo_shape : Forall shape (lw_threads w)
}.

Lemma drop_lease_perm x l : x ∈ l -> x :: drop_lease x l ≡ₚ l.
Proof.
  induction l as [|y l IH]; intros Hx; [by apply elem_of_nil in Hx|]. simpl.
  destruct (decide (x = y)) as [->|Hne]; [done|]. apply elem_of_cons in Hx as [?|Hx]; [done|].
  rewrite perm_swap. by rewrite IH.
Qed.
Lemma thread_set (ts : list snapshot) i t' j u :
  <[i := t']> ts !! j = Some u -> (j = i /\ u = t') \/ (j <> i /\ ts !! j = Some u).
Proof. intros [(-> & -> & _)|[? ?]]%list_lookup_insert_Some; auto. Qed.
Lemma gates_set (ts : list snapshot) i t t' j :
  ts !! i = Some t -> sn_gates t' = sn_gates t ->
  default [] (sn_gates <$> (<[i := t']> ts !! j)) = default [] (sn_gates <$> (ts !! j)).
Proof.
  intros Hi Hg. destruct (decide (j = i)) as [->|Hne].
  - rewrite list_lookup_insert_eq by eauto using lookup_lt_Some. by rewrite Hi; simpl; rewrite Hg.
  - by rewrite list_lookup_insert_ne.
Qed.

(** A thread moves on without touching a lock or a lease. *)
Lemma lease_ok_move q ts i t t' :
  lease_ok (mk_lworld q ts) -> ts !! i = Some t ->
  sn_as t' = sn_as t -> sn_gates t' = sn_gates t -> sn_held t' = sn_held t -> shape t' ->
  (sn_at t' = AtSerial -> has_serial q (sn_as t)) -> lease_ok (mk_lworld q (<[i := t']> ts)).
Proof.
  intros [Hr Hm Hh Hl Hg Hs] Hi Ha Hga Hhe Hsh Hloc. simpl in *. split; simpl; auto.
  - intros s j Hs' Hj. destruct (Hm s j Hs' Hj) as (u & Hu & Huh & Hua).
    destruct (decide (j = i)) as [->|]; [|exists u; by rewrite list_lookup_insert_ne].
    exists t'. rewrite list_lookup_insert_eq by eauto using lookup_lt_Some. simplify_eq. split; [done|]. by rewrite Hhe, Ha.
  - intros j u [[-> ->]|[_ Hu]]%thread_set; [rewrite Hhe, Ha|]; by apply Hh.
  - intros j u [[-> ->]|[_ Hu]]%thread_set; [by rewrite Ha|by eapply Hl].
  - intros j. by rewrite (gates_set ts i t).
  - by apply Forall_insert.
Qed.
Lemma shape_of w i t : lease_ok w -> lw_threads w !! i = Some t -> shape t.
Proof. intros Hw Hi. by eapply Forall_lookup_1; [apply Hw|]. Qed.

Lemma registry_section_ok a q ts i t q' t' :
  lease_ok (mk_lworld q ts) -> ts !! i = Some t -> sn_at t = AtRegistry ->
  lease_section a i q t = Some (Ok (q', t')) -> lease_ok (mk_lworld q' (<[i := t']> ts)).
Proof.
  intros Hw Hi Hat H. pose proof (shape_of _ _ _ Hw Hi) as Hsh. unfold shape in Hsh. rewrite Hat in Hsh.
  unfold lease_section in H. rewrite Hat in H.
  destruct (find_serial (sn_as t) (snapshot_registry q)) as [s|] eqn:Hf.
  - simplify_eq. eapply lease_ok_move; eauto; simpl.
    intros _. apply find_serial_spec in Hf as [? ?]. by exists s.
  - pose proof (find_serial_none _ _ Hf) as Hnew. destruct (an_alloc a); simplify_eq.
    + assert (lease_ok (mk_lworld (mk_quiesce (mk_serial (sn_as t) None :: snapshot_registry q) (leases q)) ts)) as Hw'.
      { destruct Hw as [Hr Hm Hh Hl Hg Hs]. simpl in *. split; simpl; auto.
        - apply NoDup_cons. split; [|done]. intros (s & Hsa & Hin)%list_elem_of_fmap. by apply (Hnew s).
        - intros s j [->|Hin]%elem_of_cons; [done|eauto].
        - intros j u Hu Huh. destruct (Hh j u Hu Huh) as (s & Hin & ? & ?). exists s. split; [by right|done].
        - intros j u Hu Hua. destruct (Hl j u Hu Hua) as (s & Hin & ?). exists s. split; [by right|done]. }
      eapply lease_ok_move; eauto. intros _. eexists. split; [by left|done].
    + eapply lease_ok_move; eauto; [|done]. unfold shape. simpl. naive_solver.
Qed.
Lemma serial_section_ok a q ts i t q' t' :
  lease_ok (mk_lworld q ts) -> ts !! i = Some t -> sn_at t = AtSerial ->
  lease_section a i q t = Some (Ok (q', t')) -> lease_ok (mk_lworld q' (<[i := t']> ts)).
Proof.
  intros Hw Hi Hat H. pose proof (shape_of _ _ _ Hw Hi) as Hsh. unfold shape in Hsh. rewrite Hat in Hsh.
  unfold lease_section in H. rewrite Hat in H.
  destruct (find_serial (sn_as t) (snapshot_registry q)) as [s|] eqn:Hf; [|done].
  destruct (ss_mutex s) eqn:Hfree; [done|]. simplify_eq. apply find_serial_spec in Hf as [Hin Has].
  destruct Hw as [Hr Hm Hh Hl Hg Hs]. simpl in *.
  assert (Hfresh : forall j u, ts !! j = Some u -> sn_held u = true -> sn_as u <> sn_as t).
  { intros j u Hu Huh Heq. destruct (Hh j u Hu Huh) as (s' & Hs' & Hs'a & Hs'm).
    assert (s' = s) as ->; [|congruence]. apply (serial_unique _ _ _ Hr); congruence. }
  split; simpl.
  - by rewrite set_mutex_as.
  - intros s' j Hs' Hj. apply set_mutex_elem in Hs' as [(Ha & Hmx & _)|[Hne Hs']].
    + assert (j = i) as -> by congruence. eexists.
      rewrite list_lookup_insert_eq by eauto using lookup_lt_Some. by rewrite Ha.
    + destruct (Hm s' j Hs' Hj) as (u & Hu & Huh & Hua). exists u. split; [|done].
      rewrite list_lookup_insert_ne; [done|]. intros <-. by simplify_eq.
  - intros j u [[-> ->]|[_ Hu]]%thread_set; simpl.
    + intros _. exists (mk_serial (sn_as t) (Some i)). split; [|done]. apply set_mutex_elem. left. simpl. eauto.
    + intros Huh. destruct (Hh j u Hu Huh) as (s' & Hs' & Hs'a & Hs'm). exists s'. split; [|done].
      apply set_mutex_elem. right. split; [|done]. rewrite Hs'a. by eapply Hfresh.
  - intros j u [[-> ->]|[_ Hu]]%thread_set; simpl; [done|]. intros Hua.
    apply has_serial_set. by eapply Hl.
  - intros j. by rewrite (gates_set ts i t).
  - apply Forall_insert; [done|]. unfold shape. simpl. naive_solver.
Qed.

(** ** Leases *)
Lemma filter_fst_cons (i j : nat) (m : target) l :
  filter (fun x => fst x = j) ((i, m) :: l) = (if decide (i = j) then [(i, m)] else []) ++ filter (fun x => fst x = j) l.
Proof. rewrite filter_cons. simpl. by destruct (decide (i = j)). Qed.

(** A thread takes or gives back one lease. *)
Lemma lease_ok_gates q ts i t t' ls :
  lease_ok (mk_lworld q ts) -> ts !! i = Some t ->
  sn_as t' = sn_as t -> sn_held t' = sn_held t -> sn_at t' <> AtSerial -> shape t' ->
  (forall j, j <> i -> filter (fun x => fst x = j) ls ≡ₚ filter (fun x => fst x = j) (leases q)) ->
  filter (fun x => fst x = i) ls ≡ₚ pair i <$> sn_gates t' ->
  lease_ok (mk_lworld (mk_quiesce (snapshot_registry q) ls) (<[i := t']> ts)).
Proof.
  intros [Hr Hm Hh Hl Hg Hs] Hi Ha Hhe Hat Hsh Hoth Hmine. simpl in *. split; simpl; auto.
  - intros s j Hs' Hj. destruct (Hm s j Hs' Hj) as (u & Hu & Huh & Hua).
    destruct (decide (j = i)) as [->|]; [|exists u; by rewrite list_lookup_insert_ne].
    exists t'. rewrite list_lookup_insert_eq by eauto using lookup_lt_Some. simplify_eq. split; [done|]. by rewrite Hhe, Ha.
  - intros j u [[-> ->]|[_ Hu]]%thread_set; [rewrite Hhe, Ha|]; by apply Hh.
  - intros j u [[-> ->]|[_ Hu]]%thread_set; [done|]. exact (Hl j u Hu).
  - intros j. destruct (decide (j = i)) as [->|Hne].
    + by rewrite list_lookup_insert_eq by eauto using lookup_lt_Some.
    + rewrite list_lookup_insert_ne by done. by rewrite Hoth.
  - by apply Forall_insert.
Qed.
Lemma mine_of w i t : lease_ok w -> lw_threads w !! i = Some t ->
  filter (fun x => fst x = i) (leases (lw_q w)) ≡ₚ pair i <$> sn_gates t.
Proof. intros Hw Hi. pose proof (lo_leases _ Hw i) as H. by rewrite Hi in H. Qed.

Lemma members_section_ok a q ts i t q' t' :
  lease_ok (mk_lworld q ts) -> ts !! i = Some t -> sn_at t = AtMembers ->
  lease_section a i q t = Some (Ok (q', t')) -> lease_ok (mk_lworld q' (<[i := t']> ts)).
Proof.
  intros Hw Hi Hat H. pose proof (shape_of _ _ _ Hw Hi) as Hsh. unfold shape in Hsh. rewrite Hat in Hsh.
  unfold lease_section in H. rewrite Hat in H.
  pose proof (as_members_spec (sn_pid t) (an_mm a) MAX_CTX (an_members a)) as Hms.
  destruct (as_members _ _ _ _) as [ms|x| | |]; simplify_eq/=.
  apply (lease_ok_move _ _ _ t); try done. unfold shape. simpl.
  destruct Hsh as ((Hg & Hh) & Hle & Hp & Hgo). rewrite Hg, Hgo. simpl. split_and!; try done; [simpl; lia|set_solver|naive_solver].
Qed.
Lemma pause_section_ok a q ts i t q' t' todo :
  lease_ok (mk_lworld q ts) -> ts !! i = Some t -> sn_at t = AtPause todo ->
  lease_section a i q t = Some (Ok (q', t')) -> lease_ok (mk_lworld q' (<[i := t']> ts)).
Proof.
  intros Hw Hi Hat H. pose proof (shape_of _ _ _ Hw Hi) as Hsh. unfold shape in Hsh. rewrite Hat in Hsh.
  destruct Hsh as ((Hh & Hp) & Hle & Hpid & Hlen).
  unfold lease_section in H. rewrite Hat in H. destruct todo as [|m todo].
  { simplify_eq. apply (lease_ok_move _ _ _ t); try done. unfold shape. simpl. by rewrite app_nil_r in Hp. }
  assert (Hskip : m <> sn_pid t -> lease_ok (mk_lworld q (<[i := mk_snapshot (sn_pid t) (sn_as t) (AtPause todo)
      (sn_gates t) (sn_held t) (sn_asked t) (m :: sn_gone t)]> ts))).
  { intros Hne. apply (lease_ok_move _ _ _ t); try done. unfold shape. simpl. split_and!; try done.
    - rewrite Hp. solve_Permutation.
    - rewrite not_elem_of_cons. by split. }
  assert (Hpause : (length (sn_gates t) < MAX_CTX)%nat ->
    lease_ok (mk_lworld (mk_quiesce (snapshot_registry q) ((i, m) :: leases q)) (<[i := mk_snapshot (sn_pid t) (sn_as t)
      (AtPause todo) (m :: sn_gates t) (sn_held t) (sn_asked t) (sn_gone t)]> ts))).
  { intros Hlt. apply (lease_ok_gates _ _ _ t); try done; simpl.
    - unfold shape. simpl. split_and!; [done|rewrite Hp; solve_Permutation|lia|done|done].
    - intros j Hj. by rewrite filter_fst_cons, decide_False by done.
    - rewrite filter_fst_cons, decide_True by done. simpl. by rewrite (mine_of _ _ _ Hw Hi). }
  assert (Hfail : lease_ok (mk_lworld q (<[i := go (AtEnd true) t]> ts))).
  { apply (lease_ok_move _ _ _ t); try done. unfold shape. simpl. naive_solver. }
  destruct (bool_decide_reflect (m = sn_pid t)) as [Heq|Hne]; simpl in H.
  - destruct (an_begin a); [|by simplify_eq].
    destruct (Nat.ltb_spec (length (sn_gates t)) MAX_CTX); [|done]. simplify_eq. by apply Hpause.
  - destruct (an_ended a); simpl in H; [simplify_eq; by apply Hskip|].
    destruct (an_begin a); [|destruct (an_waited a); simplify_eq; auto].
    destruct (Nat.ltb_spec (length (sn_gates t)) MAX_CTX); [|done]. simplify_eq. by apply Hpause.
Qed.
(** Leaving the serial lock. *)
Lemma lease_ok_unlock q ts i t t' :
  lease_ok (mk_lworld q ts) -> ts !! i = Some t -> sn_held t = true ->
  sn_held t' = false -> sn_gates t' = sn_gates t -> sn_at t' <> AtSerial -> shape t' ->
  lease_ok (mk_lworld (mk_quiesce (set_mutex (sn_as t) None (snapshot_registry q)) (leases q)) (<[i := t']> ts)).
Proof.
  intros [Hr Hm Hh Hl Hg Hs] Hi Hheld Hfree Hga Hat Hsh. simpl in *.
  split; simpl.
  - by rewrite set_mutex_as.
  - intros s j Hs' Hj. apply set_mutex_elem in Hs' as [(_ & Hmx & _)|[Hne Hs']]; [congruence|].
    destruct (Hm s j Hs' Hj) as (u & Hu & Huh & Hua). exists u. split; [|done].
    rewrite list_lookup_insert_ne; [done|]. intros <-. by simplify_eq.
  - intros j u [[-> ->]|[Hji Hu]]%thread_set; [congruence|]. intros Huh.
    destruct (Hh j u Hu Huh) as (s & Hin & Has & Hmx). exists s. split; [|done].
    apply set_mutex_elem. right. split; [|done]. intros Heq.
    destruct (Hh i t Hi Hheld) as (s2 & Hin2 & Has2 & Hmx2).
    assert (s = s2) as ->; [|congruence]. apply (serial_unique _ _ _ Hr); congruence.
  - intros j u [[-> ->]|[_ Hu]]%thread_set; [done|]. intros Hua.
    apply has_serial_set. by eapply Hl.
  - intros j. by rewrite (gates_set ts i t).
  - by apply Forall_insert.
Qed.
Lemma end_section_ok a q ts i t q' t' failed :
  lease_ok (mk_lworld q ts) -> ts !! i = Some t -> sn_at t = AtEnd failed ->
  lease_section a i q t = Some (Ok (q', t')) -> lease_ok (mk_lworld q' (<[i := t']> ts)).
Proof.
  intros Hw Hi Hat H. pose proof (shape_of _ _ _ Hw Hi) as Hsh. unfold shape in Hsh. rewrite Hat in Hsh.
  destruct Hsh as (Hgh & Hle & Hpid & _). pose proof (mine_of _ _ _ Hw Hi) as Hmine. simpl in Hmine.
  unfold lease_section in H. rewrite Hat in H. destruct (sn_gates t) as [|m gates] eqn:Hg.
  - destruct (sn_held t) eqn:Hheld; simplify_eq.
    + by apply lease_ok_unlock.
    + replace (mk_quiesce (snapshot_registry q) (leases q)) with q by (by destruct q).
      by apply (lease_ok_move _ _ _ t).
  - destruct (an_end a); simplify_eq.
    assert ((i, m) ∈ leases q) as Hin.
    { assert ((i, m) ∈ filter (fun x => fst x = i) (leases q)) as [_ ?]%list_elem_of_filter; [|done].
      rewrite Hmine, fmap_cons. by left. }
    pose proof (drop_lease_perm _ _ Hin) as Hd. set (ls := drop_lease (i, m) (leases q)) in *. clearbody ls.
    apply (lease_ok_gates _ _ _ t); try done; simpl.
    + unfold shape. simpl in *. split_and!; [right; naive_solver|lia|done|done].
    + intros j Hj. rewrite <- Hd, filter_fst_cons, decide_False by done. done.
    + rewrite <- Hd, filter_fst_cons, decide_True in Hmine by done. simpl in Hmine.
      by apply Permutation_cons_inv in Hmine.
Qed.

Lemma lease_section_ok a q ts i t q' t' :
  lease_ok (mk_lworld q ts) -> ts !! i = Some t ->
  lease_section a i q t = Some (Ok (q', t')) -> lease_ok (mk_lworld q' (<[i := t']> ts)).
Proof.
  intros Hw Hi H. pose proof (shape_of _ _ _ Hw Hi) as Hsh.
  destruct (sn_at t) as [| | |todo| |failed|failed] eqn:Hat;
    eauto using registry_section_ok, serial_section_ok, members_section_ok, pause_section_ok, end_section_ok.
  all: unfold lease_section in H; unfold shape in Hsh; rewrite Hat in H, Hsh; simplify_eq;
    (eapply lease_ok_move; [exact Hw|exact Hi|..]); try done; try (unfold shape; simpl; rewrite ?Hat; naive_solver).
Qed.
Lemma lease_step_ok w w' : lease_ok w -> lease_step w w' -> lease_ok w'.
Proof.
  intros Hw Hst. destruct Hst as [pid as_ q ts|i a t t' q q' ts Hi H|i t failed q ts Hi Hat].
  - destruct Hw as [Hr Hm Hh Hl Hg Hs]. simpl in *.
    assert (Hnew : forall j u, (ts ++ [mk_snapshot pid as_ AtRegistry [] false [] []]) !! j = Some u ->
      ts !! j = Some u \/ u = mk_snapshot pid as_ AtRegistry [] false [] []).
    { intros j u [Hu|[_ Hu]]%lookup_app_Some; [by left|]. apply list_lookup_singleton_Some in Hu. naive_solver. }
    split; simpl; auto.
    + intros s j Hs' Hj. destruct (Hm s j Hs' Hj) as (u & Hu & ?). exists u. split; [by apply lookup_app_l_Some|done].
    + intros j u [Hu| ->]%Hnew; [by apply Hh|done].
    + intros j u [Hu| ->]%Hnew; [by eapply Hl|done].
    + intros j. rewrite Hg. destruct (ts !! j) as [u|] eqn:Hj.
      * by rewrite (lookup_app_l_Some _ _ _ _ Hj).
      * rewrite lookup_app_r by (by apply lookup_ge_None). by destruct (j - length ts)%nat.
    + apply Forall_app. split; [done|]. constructor; [|done]. unfold shape. simpl. split_and!; [done..|lia|set_solver|done].
  - by eapply lease_section_ok.
  - pose proof (shape_of _ _ _ Hw Hi) as Hsh. unfold shape in Hsh. rewrite Hat in Hsh.
    apply (lease_ok_move _ _ _ t); try done. unfold shape. simpl. naive_solver.
Qed.
Lemma lease_reachable_ok w : steps lease_step lease_init w -> lease_ok w.
Proof.
  apply (steps_invariant lease_step lease_ok lease_step_ok). split; simpl; auto; try done.
  - apply NoDup_nil_2.
  - by intros s i ?%elem_of_nil.
Qed.

(** C27: a snapshot pauses its whole address space, alone.  In every reachable
    state of any number of snapshots: two that hold the serial lock are of
    different address spaces; the native leases outstanding for a thread are
    exactly those in its array, which never overflows; a snapshot whose begin
    returned 0 has a lease on every context that was listed, except contexts
    other than its own that had ended; and one whose begin failed, or that ended,
    has left no lease and no lock behind, however often its end runs. *)
Theorem snapshot_leases w :
  steps lease_step lease_init w ->
  (forall i j t u, lw_threads w !! i = Some t -> lw_threads w !! j = Some u ->
     sn_held t = true -> sn_held u = true -> sn_as t = sn_as u -> i = j) /\
  (forall i t, lw_threads w !! i = Some t ->
     filter (fun x => fst x = i) (leases (lw_q w)) ≡ₚ pair i <$> sn_gates t /\
     (length (sn_gates t) <= MAX_CTX)%nat /\
     match sn_at t with
     | Leased => forall m, m ∈ sn_asked t -> (i, m) ∈ leases (lw_q w) \/ (m ∈ sn_gone t /\ m <> sn_pid t)
     | Over _ => sn_gates t = [] /\ sn_held t = false /\
         forall s, s ∈ snapshot_registry (lw_q w) -> ss_mutex s <> Some i
     | _ => True
     end).
Proof.
  intros Hw%lease_reachable_ok. split.
  - intros i j t u Hi Hj Ht Hu Heq. destruct (lo_held _ Hw i t Hi Ht) as (s & Hs & Hsa & Hsm).
    destruct (lo_held _ Hw j u Hj Hu) as (s' & Hs' & Hsa' & Hsm').
    assert (s = s') as ->; [|congruence]. apply (serial_unique _ _ _ (lo_reg _ Hw)); congruence.
  - intros i t Hi. pose proof (mine_of _ _ _ Hw Hi) as Hmine. split; [done|].
    pose proof (shape_of _ _ _ Hw Hi) as (Hsh & Hle & Hpid & _). split; [done|].
    destruct (sn_at t) as [| | |todo| |failed|failed]; try done.
    + destruct Hsh as [_ Hp]. intros m Hm. rewrite Hp in Hm. apply elem_of_app in Hm as [Hm|Hm]; [left|right].
      * assert ((i, m) ∈ filter (fun x => fst x = i) (leases (lw_q w))) as [_ ?]%list_elem_of_filter; [|done].
        rewrite Hmine. by apply list_elem_of_fmap_2.
      * split; [done|]. intros ->. done.
    + destruct Hsh as [Hg Hh]. split; [done|]. split; [done|]. intros s Hs Hmx.
      destruct (lo_mutex _ Hw s i Hs Hmx) as (u & Hu & Huh & _). congruence.
Qed.

(** No section writes past the array or loses the registry entry; the monitor
    ends only when a release fails or more than [MAX_CTX] contexts run on the
    address space. *)
Lemma lease_section_safe w a i t :
  steps lease_step lease_init w -> lw_threads w !! i = Some t ->
  match lease_section a i (lw_q w) t with
  | Some (Ok _) => True
  | Some Aborted => an_end a = false \/ (MAX_CTX < length (filter (runs_on (an_mm a)) (an_members a)))%nat
  | Some _ => False
  | None => exists s j, s ∈ snapshot_registry (lw_q w) /\ ss_as s = sn_as t /\ ss_mutex s = Some j
  end.
Proof.
  intros Hw%lease_reachable_ok Hi. pose proof (shape_of _ _ _ Hw Hi) as (Hsh & Hle & _ & Hlen).
  unfold lease_section. destruct (sn_at t) as [| | |[|m todo]| |failed|failed] eqn:Hat; try done.
  - destruct (find_serial _ _); [done|]. by destruct (an_alloc a).
  - destruct (find_serial _ _) as [s|] eqn:Hf.
    + apply find_serial_spec in Hf as [Hs Hsa]. destruct (ss_mutex s) as [j|] eqn:Hm; [|done]. by exists s, j.
    + destruct (lo_located _ Hw i t Hi Hat) as (s & Hs & Hsa). by apply (find_serial_none _ _ Hf s).
  - pose proof (as_members_spec (sn_pid t) (an_mm a) MAX_CTX (an_members a)) as Hms.
    destruct (as_members _ _ _ _) as [ms|x| | |]; simpl; auto.
  - destruct Hsh as [_ Hp].
    assert (length (sn_gates t) < MAX_CTX)%nat as Hlt.
    { rewrite Hp, !length_app in Hlen. simpl in Hlen. lia. }
    apply Nat.ltb_lt in Hlt. rewrite Hlt. by destruct (negb _), (an_ended a), (an_begin a), (an_waited a).
  - destruct (sn_gates t); [done|]. destruct (an_end a); auto.
Qed.

(** ** A run *)
Definition yes : answers := mk_answers true
  [mk_context (mk_target 1 1) 5 false; mk_context (mk_target 2 1) 5 true; mk_context (mk_target 3 1) 5 false] 5 false true true true.
Fixpoint run_lease (n : nat) (q : quiesce) (t : snapshot) : option (result (quiesce * snapshot)) :=
  match n with
  | O => Some (Ok (q, t))
  | S n => match lease_section yes 0 q t with Some (Ok (q, t)) => run_lease n q t | r => r end
  end.
Lemma run_lease_steps n q t q' t' :
  run_lease n q t = Some (Ok (q', t')) -> steps lease_step (mk_lworld q [t]) (mk_lworld q' [t']).
Proof.
  revert q t. induction n as [|n IH]; simpl; intros q t H; [simplify_eq; apply steps_refl|].
  destruct (lease_section yes 0 q t) as [[[q1 t1]|x| | |]|] eqn:Hs; simplify_eq/=.
  eapply steps_trans; [|by apply IH]. eapply steps_next; [apply steps_refl|].
  by apply (lease_runs 0 yes t t1 q q1 [t]).
Qed.
Definition demo_snapshot : snapshot := mk_snapshot (mk_target 3 1) 5 AtRegistry [] false [] [].
Lemma snapshot_leases_witness :
  exists q t, run_lease 6 (mk_quiesce [] []) demo_snapshot = Some (Ok (q, t)) /\ sn_at t = Leased /\
    length (leases q) = 2%nat /\ filter (fun x => fst x = 0%nat) (leases q) ≡ₚ pair 0%nat <$> sn_gates t.
Proof.
  eexists _, _. split; [reflexivity|]. split; [reflexivity|]. split; [reflexivity|].
  eapply (proj2 (snapshot_leases (mk_lworld _ [_]) _) 0%nat). reflexivity.
  Unshelve. eapply steps_trans; [eapply steps_next; [apply steps_refl|apply (lease_begins (mk_target 3 1) 5)]|].
  apply (run_lease_steps 6). reflexivity.
Defined.
End SnapshotQuiesce.
