(* ===== verification/ReplyMap.v ===== *)
(** * Mapping effects of a reply (user/vmremote.c, reply_note_map)

    A completed call of the source carries the effect it had on the program's
    mappings, which the source adapter built from the call (Proto.v,
    source_map_effect).  The executor checks the effect, brings its own records
    in line with it (Vacate.v, SharedLayout.v, Construction.v) and leaves the
    operation its own kernel has to make in the reply.  [reply_layout] is the
    part of forward that holds layout_order_lock around this.

    [vacate_keep] is written here and read nowhere, so it is left out, as are
    traces and counters. *)
From S2P Require Import Prelude Ranges Native Proto Buckets SharedLayout Construction Cow CowRuns Loans Retain Regions Vacate.
From stdpp Require Import fin_maps.
Open Scope Z_scope.

Module ReplyMap.
Import Proto Vacate.

(** ** Data *)
Definition VMR_MAP_PROTECT : Z := 2.
Definition VMCTX_MAP_NONE : Z := 0.
Definition VMCTX_MAP_SET : Z := 1.
Definition VMCTX_MAP_PROT : Z := 2.
(** the mapping part of struct vmctx_reply *)
Record map_reply := mk_reply { mr_op : Z; mr_addr : Z; mr_len : Z; mr_prot : Z; mr_off : Z }.
Definition no_reply : map_reply := mk_reply VMCTX_MAP_NONE 0 0 0 0.
Record layout := mk_layout { ly_x : executor; ly_cons : Construction.cons_table }.
Abbreviation L := (prog layout).
Definition on_x {A} (m : X A) : L A := fun l =>
  let '(r, x) := m (ly_x l) in (r, mk_layout x (ly_cons l)).
Definition on_cons (f : Construction.cons_table -> result Construction.cons_table) : L unit := fun l =>
  let r := f (ly_cons l) in (to_unit r, mk_layout (ly_x l) (match r with Ok t => t | _ => ly_cons l end)).

(** ** The checks *)
Definition outside (x mask : Z) : bool := nz (Z.ldiff x mask).
Definition page_up (len : Z) : Z := page_base (u64 (u64 (len + PAGE) - 1)).
Definition effect_bad (reserved : Z) (e : vmr_map_effect) : bool :=
  nz reserved || (VMR_MAP_MOVE <? me_kind e) || outside (me_flags e) (VMR_MAP_SHARED .| VMR_MAP_REPLACE) ||
  outside (me_protection e) (VMR_PROT_READ .| VMR_PROT_WRITE .| VMR_PROT_EXEC) ||
  (me_length e =? 0) || (U64MAX - (PAGE - 1) <? me_length e) || nz (me_address e .& (PAGE - 1)) ||
  (if nz (me_flags e .& VMR_MAP_SHARED)
   then (me_object_id e =? 0) || nz (me_object_offset e .& (PAGE - 1)) || (I64MAX <? me_object_offset e) ||
        (I64MAX - me_object_offset e <? me_length e)
   else nz (me_object_id e)).
Definition effect_wraps (e : vmr_map_effect) : bool :=
  (U64MAX - me_address e <? page_up (me_length e)) ||
  ((me_kind e =? VMR_MAP_SET) && (U64MAX - me_object_offset e <? page_up (me_length e))).
Definition wire_prot (p : Z) : Z :=
  (if nz (p .& VMR_PROT_READ) then Proto.PROT_READ else 0) .|
  (if nz (p .& VMR_PROT_WRITE) then Proto.PROT_WRITE else 0) .|
  (if nz (p .& VMR_PROT_EXEC) then Proto.PROT_EXEC else 0).
Definition prior_bad (e : vmr_map_effect) : bool :=
  nz (me_prior_address e .& (PAGE - 1)) || (U64MAX - (PAGE - 1) <? me_prior_length e).

Section ops.
Context (world : Cow.history -> Cow.call -> Z) (mm_members : Cow.history -> Z -> list Z) (alloc : Z -> bool).
Context (apply_map : list applied -> Z -> Z -> Z -> Z -> Z) (execution_ended : list applied -> Z -> bool).
(** whether a context of the space has the page in its page tables, the bytes of
    a shared page, and the descriptor of the session's shared object *)
Context (any_present : Cow.history -> Z -> Z -> bool) (shared_page : Cow.history -> Z -> Z -> option Cow.bytes) (shared_obj : Z).

(** [page_read_as]: what the contexts map at the address, then the object behind
    it; a shared page never falls through to the private object. *)
Fixpoint peek_members (content : Cow.history -> option Cow.bytes) (addr : Z) (members : list Z) : prog Cow.cow_state (option Cow.bytes) :=
  match members with
  | [] => mret None
  | m :: members =>
      r ← Cow.ask world (Cow.Peek m addr);
      data ← Cow.get (fun s => content (Cow.calls s));
      match data with
      | Some d => if r =? PAGE then mret (Some d) else peek_members content addr members
      | None => peek_members content addr members
      end
  end.
Definition page_read_as (as_ addr : Z) (shared : bool) : prog Cow.cow_state (option Cow.bytes) :=
  if shared then
    members ← Cow.get (fun s => mm_members (Cow.calls s) as_);
    data ← peek_members (fun h => shared_page h as_ addr) addr members;
    match data with
    | Some d => mret (Some d)
    | None =>
        r ← Cow.ask world (Cow.Pread as_ addr);
        if r =? PAGE then Cow.get (fun s => shared_page (Cow.calls s) as_ addr) else mret None
    end
  else Cow.mm_page_read world mm_members as_ addr.

(** The relocation loop of a MOVE; [false] is its return of -1. *)
Fixpoint move_pages (fuel : nat) (as_ olda newa : Z) (shared : Z -> bool) (o oldl newl : Z) : prog Cow.cow_state bool :=
  if negb ((o <? oldl) && (o <? newl)) then mret true
  else
    match fuel with
    | O => stop Hung
    | S fuel =>
        has ← Cow.mm_backing_has as_ (olda + o);
        present ← Cow.get (fun s => any_present (Cow.calls s) as_ (olda + o));
        if negb has && negb present then move_pages fuel as_ olda newa shared (o + PAGE) oldl newl
        else
          data ← page_read_as as_ (olda + o) (shared (olda + o));
          match data with
          | None => mret false
          | Some d =>
              r ← Cow.mm_obj_write world as_ (newa + o) d;
              if r =? PAGE then move_pages fuel as_ olda newa shared (o + PAGE) oldl newl else mret false
          end
    end.
Definition move_fuel (oldl : Z) : nat := Z.to_nat (oldl / PAGE + 1).

(** [true] when every context took the operation *)
Fixpoint apply_all (op start len : Z) (members : list Z) : X bool :=
  match members with
  | [] => mret true
  | m :: members => fun x =>
      let r := apply_map (x_applied x) m op start len in
      let x := mk_executor (x_cow x) (x_pages x) (x_loans x) (x_regions x) (x_shared x)
                 (mk_applied m op start len r :: x_applied x) in
      if r <? 0 then (Ok false, x) else apply_all op start len members x
  end.
Definition on_cow' {A} (m : prog Cow.cow_state A) : X A := fun x =>
  let '(r, c) := m (x_cow x) in (r, mk_executor c (x_pages x) (x_loans x) (x_regions x) (x_shared x) (x_applied x)).
Definition is_shared (as_ : Z) (x : executor) (addr : Z) : bool :=
  bool_decide (is_Some (SharedLayout.shared_layout_lookup as_ addr (x_shared x))).

Definition map_set (pid as_ : Z) (members : list Z) (e : vmr_map_effect) : L (option map_reply) :=
  let length := page_up (me_length e) in
  let prot := wire_prot (me_protection e) in
  let rep := mk_reply VMCTX_MAP_SET (me_address e) length prot (me_object_offset e) in
  if nz (me_flags e .& VMR_MAP_SHARED) && (shared_obj <? 0) then mret None
  else
    on_x (range_vacated_1 world mm_members alloc apply_map execution_ended pid as_
            (me_address e) (u64 (me_address e + length)) false members) ;;
    if nz (me_flags e .& VMR_MAP_SHARED) then
      on_x (on_shared (SharedLayout.shared_layout_note alloc as_ (me_address e) (u64 (me_address e + length))
              (me_object_offset e) prot (me_object_id e))) ;;
      mret (Some (mk_reply VMCTX_MAP_NONE (me_address e) length prot (me_object_offset e)))
    else mret (Some rep).
Definition map_protect (as_ : Z) (e : vmr_map_effect) : L (option map_reply) :=
  let length := page_up (me_length e) in
  let prot := wire_prot (me_protection e) in
  on_x (on_shared (SharedLayout.shared_layout_protect alloc as_ (me_address e) (u64 (me_address e + length)) prot)) ;;
  mret (Some (mk_reply VMCTX_MAP_PROT (me_address e) length prot 0)).
Definition map_move (as_ mmseq : Z) (members : list Z) (e : vmr_map_effect) : L (option map_reply) :=
  let olda := me_prior_address e in
  let newa := me_address e in
  let newl := page_up (me_length e) in
  let oldl := page_up (me_prior_length e) in
  if prior_bad e then mret None
  else if U64MAX - olda <? oldl then mret None
  else if newa =? olda then mret (Some no_reply)
  else
    replaced ← (if nz (me_flags e .& VMR_MAP_REPLACE)
      then on_x (on_cow (Cow.obj_forget world as_ newa newl) ;;
                 on_pages (Retain.retain_forget as_ newa (u64 (newa + newl))) ;;
                 apply_all VMCTX_MAP_UNMAP newa newl members)
      else mret true);
    if negb replaced then mret None
    else
      moved ← (fun l => on_x (on_cow' (move_pages (move_fuel oldl) as_ olda newa (is_shared as_ (ly_x l)) 0 oldl newl)) l);
      if negb moved then mret None
      else
        on_x (on_regions (Regions.region_forget_range as_ newa (u64 (newa + newl)))) ;;
        on_cons (Construction.cons_note_locked alloc as_ newa (u64 (newa + newl)) mmseq 0 0 0) ;;
        mret (Some no_reply).

(** [None] is the return of -1. *)
Definition reply_note_map (pid as_ mmseq : Z) (members : list Z) (reserved : Z) (e : vmr_map_effect) : L (option map_reply) :=
  if me_kind e =? VMR_MAP_NONE then mret (Some no_reply)
  else if effect_bad reserved e then mret None
  else if effect_wraps e then mret None
  else if me_kind e =? VMR_MAP_SET then map_set pid as_ members e
  else if me_kind e =? VMR_MAP_PROTECT then map_protect as_ e
  else map_move as_ mmseq members e.

(** The section of forward under layout_order_lock. *)
Definition reply_layout (pid as_ mmseq : Z) (members : list Z) (reserved : Z) (e : vmr_map_effect) : L (option map_reply) :=
  rep ← reply_note_map pid as_ mmseq members reserved e;
  match rep with
  | None => mret None
  | Some rep =>
      let start := page_base (mr_addr rep) in
      let end_ := page_base (u64 (mr_addr rep + mr_len rep + 0xfff)) in
      (if (me_kind e =? VMR_MAP_SET) && nz (mr_len rep)
       then on_cons (Construction.cons_note_locked alloc as_ start end_ mmseq (mr_op rep) (mr_prot rep) (mr_off rep))
       else mret tt) ;;
      (if (mr_op rep =? VMCTX_MAP_PROT) && nz (mr_len rep)
       then on_cons (Construction.cons_note_locked alloc as_ start end_ mmseq (mr_op rep) (mr_prot rep) 0)
       else mret tt) ;;
      mret (Some rep)
  end.
End ops.

(** ** Lengths and protections *)
Lemma page_up_spec len : 0 <= len <= I64MAX ->
  len <= page_up len < len + PAGE /\ page_aligned (page_up len) = true.
Proof.
  intros Hl. unfold page_up, I64MAX, PAGE in *.
  rewrite (u64_small (len + 4096)) by (unfold is_u64, U64MAX; lia).
  rewrite u64_small by (unfold is_u64, U64MAX; lia).
  assert (Hu : is_u64 (len + 4096 - 1)) by (unfold is_u64, U64MAX; lia).
  split; [|by apply page_base_aligned]. rewrite page_base_sub by done. unfold PAGE.
  pose proof (Z.mod_pos_bound (len + 4096 - 1) 4096). lia.
Qed.
Lemma bit_flag x k : 0 <= k -> nz (x .& 2 ^ k) = Z.testbit x k.
Proof.
  intros Hk. destruct (Z.testbit x k) eqn:Hb.
  - apply negb_true_iff, Z.eqb_neq. intros H. assert (Hz : Z.testbit (x .& 2 ^ k) k = false) by (rewrite H; apply Z.testbit_0_l).
    rewrite Z.land_spec, Hb, Z.pow2_bits_true in Hz by done. done.
  - apply negb_false_iff, Z.eqb_eq. apply Z.bits_inj'. intros n Hn. rewrite Z.land_spec, Z.testbit_0_l.
    destruct (decide (n = k)) as [->|]; [by rewrite Hb|]. by rewrite Z.pow2_bits_false, andb_false_r by done.
Qed.
(** The executor decodes the protection the source encoded. *)
Lemma wire_prot_source p : wire_prot (source_wire_protection p) = p .& 7.
Proof.
  assert (Hlow : p .& 7 = (if Z.testbit p 0 then 1 else 0) .| (if Z.testbit p 1 then 2 else 0) .| (if Z.testbit p 2 then 4 else 0)).
  { apply Z.bits_inj'. intros n Hn. rewrite Z.land_spec.
    destruct (decide (n < 3)) as [Hlt|Hge].
    - assert (n = 0 \/ n = 1 \/ n = 2) as [->|[-> | ->]] by lia; destruct (Z.testbit p 0), (Z.testbit p 1), (Z.testbit p 2); done.
    - rewrite (Z.bits_above_log2 7) by (simpl; lia). rewrite andb_false_r.
      destruct (Z.testbit p 0), (Z.testbit p 1), (Z.testbit p 2); symmetry; apply Z.bits_above_log2; vm_compute Z.lor; simpl; lia. }
  rewrite Hlow. unfold wire_prot, source_wire_protection, VMR_PROT_READ, VMR_PROT_WRITE, VMR_PROT_EXEC,
    Proto.PROT_READ, Proto.PROT_WRITE, Proto.PROT_EXEC.
  assert (nz (p .& 1) = Z.testbit p 0) as -> by exact (bit_flag p 0 ltac:(lia)).
  assert (nz (p .& 2) = Z.testbit p 1) as -> by exact (bit_flag p 1 ltac:(lia)).
  assert (nz (p .& 4) = Z.testbit p 2) as -> by exact (bit_flag p 2 ltac:(lia)).
  by destruct (Z.testbit p 0), (Z.testbit p 1), (Z.testbit p 2).
Qed.

(** ** What the source sends is accepted

    What the source's kernel answers: a successful mmap or shmat gives a page
    aligned range, and a successful mremap moves a page aligned range to another,
    all within the positive half of the address range; a shared object's offset is
    page aligned and the mapped part lies within the largest file. *)
Record kernel_ok (nr : Z) (args : list Z) (ret object_id object_offset shared_length : Z) : Prop := {
  ko_args : Forall is_u64 args;
  ko_failed : u64 ret < u64 (-4095) -> page_aligned (u64 ret) = true;
  ko_mmap : nr = SYS_mmap -> u64 ret < u64 (-4095) ->
    0 < default 0 (args !! 1%nat) /\ u64 ret + default 0 (args !! 1%nat) <= I64MAX - PAGE;
  ko_shmat : nr = SYS_shmat -> u64 ret < u64 (-4095) -> 0 <= shared_length /\ u64 ret + shared_length <= I64MAX - PAGE;
  ko_mremap : nr = SYS_mremap -> u64 ret < u64 (-4095) ->
    0 < default 0 (args !! 2%nat) /\ u64 ret + default 0 (args !! 2%nat) <= I64MAX - PAGE /\
    page_aligned (default 0 (args !! 0%nat)) = true /\
    default 0 (args !! 0%nat) + default 0 (args !! 1%nat) <= I64MAX - PAGE;
  ko_object : object_id <> 0 -> page_aligned object_offset = true /\ 0 <= object_offset /\
    object_offset + (if nr =? SYS_mmap then default 0 (args !! 1%nat) else shared_length) <= I64MAX - PAGE
}.
Definition accepted (e : vmr_map_effect) : Prop :=
  effect_bad 0 e = false /\ effect_wraps e = false /\
  (me_kind e = VMR_MAP_MOVE -> prior_bad e = false /\ (U64MAX - me_prior_address e <? page_up (me_prior_length e)) = false).

Lemma aligned_land x : page_aligned x = true -> nz (x .& (PAGE - 1)) = false.
Proof. unfold page_aligned. intros H. change (PAGE - 1) with 4095. by rewrite H. Qed.
Lemma set_accepted prot len addr object_id off :
  outside prot 7 = false -> 0 < len -> is_u64 addr -> addr + len <= I64MAX - PAGE -> page_aligned addr = true ->
  (object_id <> 0 -> page_aligned off = true /\ 0 <= off /\ off + len <= I64MAX - PAGE) ->
  accepted (mk_effect VMR_MAP_SET (if nz object_id then VMR_MAP_SHARED else 0) prot addr len
    (if nz object_id then off else addr) 0 0 object_id).
Proof.
  intros Hp Hl Hu Hmax Ha Ho. unfold is_u64 in Hu.
  destruct (page_up_spec len) as [Hup _]; [unfold I64MAX, PAGE in *; lia|].
  assert (Hover : forall x, 0 <= x -> x + len <= I64MAX - PAGE -> (U64MAX - x <? page_up len) = false).
  { intros x Hx Hxl. apply Z.ltb_ge. unfold U64MAX, I64MAX, PAGE in *. lia. }
  assert (Hlong : (U64MAX - (PAGE - 1) <? len) = false) by (apply Z.ltb_ge; unfold U64MAX, I64MAX, PAGE in *; lia).
  unfold accepted, effect_bad, effect_wraps. cbn [me_kind me_flags me_protection me_address me_length me_object_offset me_object_id].
  split; [|split; [|done]].
  - rewrite (aligned_land addr Ha), Hlong. change (VMR_PROT_READ .| VMR_PROT_WRITE .| VMR_PROT_EXEC) with 7. rewrite Hp.
    rewrite (proj2 (Z.eqb_neq len 0)) by lia.
    destruct (Z.eqb_spec object_id 0) as [->|Hne]; simpl; [done|].
    destruct (Ho Hne) as (Hoa & Ho0 & Hol). rewrite (aligned_land off Hoa).
    rewrite (proj2 (Z.ltb_ge I64MAX off)), (proj2 (Z.ltb_ge (I64MAX - off) len)) by (unfold PAGE in *; lia). done.
  - rewrite (Hover addr) by lia. simpl. destruct (Z.eqb_spec object_id 0) as [->|Hne]; simpl; [apply Hover; lia|].
    destruct (Ho Hne) as (_ & Ho0 & Hol). by apply Hover.
Qed.
Lemma outside_wire p : outside (source_wire_protection p) 7 = false.
Proof.
  unfold outside, source_wire_protection. by destruct (nz (p .& Proto.PROT_READ)), (nz (p .& Proto.PROT_WRITE)), (nz (p .& Proto.PROT_EXEC)).
Qed.
Lemma arg_u64 args i : Forall is_u64 args -> is_u64 (default 0 (args !! i)).
Proof.
  intros Hf. destruct (args !! i) as [x|] eqn:Hx; simpl; [by eapply Forall_lookup_1|]. unfold is_u64, U64MAX. lia.
Qed.

(** the two sides agree on mapping effects.  Whatever call the source ran,
    if its kernel answered as documented then the effect it builds from a
    successful mmap, shmat or mremap passes every check of the executor's
    reply_note_map (other calls carry no effect); and the protection the executor
    decodes for an mmap is the low three bits of the one the program asked for. *)
Theorem source_effects_accepted nr args ret object_id object_offset shared_length :
  kernel_ok nr args ret object_id object_offset shared_length ->
  let e := source_map_effect nr args ret object_id object_offset shared_length in
  (me_kind e = VMR_MAP_NONE \/ accepted e) /\
  (nr = SYS_mmap -> me_kind e = VMR_MAP_SET -> wire_prot (me_protection e) = default 0 (args !! 2%nat) .& 7).
Proof.
  intros [Hargs Hal Hmmap Hshm Hmre Hobj]. unfold source_map_effect. cbv zeta.
  pose proof (u64_range ret) as Hu. destruct (Z.leb_spec (u64 (-4095)) (u64 ret)) as [Hf|Hf]; [split; [by left|done]|].
  destruct (Z.eqb_spec nr SYS_mmap) as [->|Hn1].
  { split; [|intros; apply wire_prot_source]. right. destruct (Hmmap eq_refl Hf).
    apply set_accepted; auto using outside_wire. }
  destruct (Z.eqb_spec nr SYS_shmat) as [->|Hn2].
  { split; [|done]. destruct ((object_id =? 0) || (shared_length =? 0)) eqn:Hz; [by left|]. right.
    destruct (Hshm eq_refl Hf). apply set_accepted; auto; [|lia].
    unfold outside. by destruct (nz (_ .& SHM_RDONLY)), (nz (_ .& SHM_EXEC)). }
  destruct (Z.eqb_spec nr SYS_mremap) as [->|Hn3]; [|split; [by left|done]].
  split; [|done]. right. destruct (Hmre eq_refl Hf) as (Hl & Hmax & Ha0 & Hmax0).
  pose proof (arg_u64 args 0 Hargs) as H0. pose proof (arg_u64 args 1 Hargs) as H1. unfold is_u64 in *.
  destruct (page_up_spec (default 0 (args !! 2%nat))) as [Hup _]; [unfold I64MAX, PAGE in *; lia|].
  destruct (page_up_spec (default 0 (args !! 1%nat))) as [Hup1 _]; [unfold I64MAX, PAGE in *; lia|].
  unfold accepted, effect_bad, effect_wraps, prior_bad.
  cbn [me_kind me_flags me_protection me_address me_length me_object_offset me_object_id me_prior_address me_prior_length].
  rewrite (aligned_land _ (Hal Hf)), (aligned_land _ Ha0).
  rewrite (proj2 (Z.eqb_neq (default 0 (args !! 2%nat)) 0)) by lia.
  rewrite !(proj2 (Z.ltb_ge _ _)) by (unfold VMR_MAP_MOVE, U64MAX, I64MAX, PAGE in *; lia).
  by destruct (nz (_ .& MREMAP_FIXED)).
Qed.
Lemma source_effects_accepted_witness :
  let e := source_map_effect SYS_mmap [0; 0x2800; 3; 0x22; 0; 0] 0x7f0000001000 0 0 0 in
  me_kind e = VMR_MAP_SET /\ (me_kind e = VMR_MAP_NONE \/ accepted e) /\ wire_prot (me_protection e) = 3.
Proof.
  cbv zeta. split; [reflexivity|].
  destruct (source_effects_accepted SYS_mmap [0; 0x2800; 3; 0x22; 0; 0] 0x7f0000001000 0 0 0) as [H1 H2].
  { split; try done.
    repeat constructor; unfold is_u64, U64MAX; lia. }
  split; [exact H1|]. exact (H2 eq_refl eq_refl).
Defined.

(** ** A new mapping *)
Section set.
Context (world : Cow.history -> Cow.call -> Z) (mm_members : Cow.history -> Z -> list Z) (alloc : Z -> bool).
Context (apply_map : list applied -> Z -> Z -> Z -> Z -> Z) (execution_ended : list applied -> Z -> bool).
Context (any_present : Cow.history -> Z -> Z -> bool) (shared_page : Cow.history -> Z -> Z -> option Cow.bytes) (shared_obj : Z).
Abbreviation note := (reply_note_map world mm_members alloc apply_map execution_ended any_present shared_page shared_obj).

Definition wants_shared (e : vmr_map_effect) : bool := nz (me_flags e .& VMR_MAP_SHARED).
(** What the records say of an address after the effect. *)
Definition set_post (pid as_ : Z) (members : list Z) (e : vmr_map_effect) (x x' : executor) : Prop :=
  let start := me_address e in
  let end_ := start + page_up (me_length e) in
  executor_wf x' /\ content_dropped as_ start end_ x x' /\
  (forall k, Loans.loan_map (x_loans x') !! k = if Retain.in_span as_ start end_ k then None else Loans.loan_map (x_loans x) !! k) /\
  (forall as' a, Regions.region_at (x_regions x') as' a =
     if Retain.in_span as_ start end_ (as', a) then None else Regions.region_at (x_regions x) as' a) /\
  (forall as' a, SharedLayout.shared_at (x_shared x') as' a =
     if Retain.in_span as_ start end_ (as', a)
     then (if wants_shared e then Some (me_object_id e, me_object_offset e + (a - start), wire_prot (me_protection e)) else None)
     else SharedLayout.shared_at (x_shared x) as' a) /\
  exists calls, x_applied x' = reverse calls ++ x_applied x /\
    Forall2 (told pid VMCTX_MAP_UNMAP start (end_ - start)) members calls.
Definition set_reply (e : vmr_map_effect) : map_reply :=
  mk_reply (if wants_shared e then VMCTX_MAP_NONE else VMCTX_MAP_SET) (me_address e) (page_up (me_length e))
    (wire_prot (me_protection e)) (me_object_offset e).
Definition okl {A} (P : A -> layout -> Prop) (r : result A) (l : layout) : Prop :=
  match r with Ok a => P a l | Aborted => True | _ => False end.
Lemma on_x_wp {A} (m : X A) (P : A -> executor -> Prop) (Q : A -> layout -> Prop) l :
  wp m (Vacate.okay P) (ly_x l) -> (forall a x, P a x -> Q a (mk_layout x (ly_cons l))) -> wp (on_x m) (okl Q) l.
Proof.
  unfold wp, on_x. intros Hm Hq. destruct (m (ly_x l)) as [[a| | | |] x]; simpl in *; auto.
Qed.
Lemma okl_then {A B} (m : L A) (k : A -> L B) (P : A -> layout -> Prop) (Q : B -> layout -> Prop) l :
  wp m (okl P) l -> (forall a l', P a l' -> wp (k a) (okl Q) l') -> wp (m ≫= k) (okl Q) l.
Proof. intros Hm Hk. apply wp_bind. eapply wp_mono; [exact Hm|]. intros [] l'; simpl; auto. Qed.
Lemma okl_ret {A} (a : A) (P : A -> layout -> Prop) l : P a l -> wp (mret a : L A) (okl P) l.
Proof. done. Qed.

Lemma map_set_spec pid as_ members e l :
  executor_wf (ly_x l) -> Cow.page_ok (me_address e) -> 0 < me_length e ->
  me_address e + page_up (me_length e) <= I64MAX -> me_length e <= I64MAX -> 0 <= me_object_offset e -> 0 <= me_object_id e ->
  wp (map_set world mm_members alloc apply_map execution_ended shared_obj pid as_ members e)
    (okl (fun rep l' => match rep with
      | None => l' = l /\ wants_shared e = true /\ shared_obj < 0
      | Some rep => rep = set_reply e /\ ly_cons l' = ly_cons l /\ set_post pid as_ members e (ly_x l) (ly_x l')
      end)) l.
Proof.
  intros Hwf Hp Hlen Hmax Hl Hoff Hid. unfold map_set, set_reply. fold (wants_shared e).
  destruct (page_up_spec (me_length e)) as [Hup _]; [lia|].
  assert (Hend : u64 (me_address e + page_up (me_length e)) = me_address e + page_up (me_length e)).
  { apply u64_small. destruct Hp as [Hu _]. unfold is_u64, U64MAX, I64MAX in *. lia. }
  rewrite Hend. set (end_ := me_address e + page_up (me_length e)) in *.
  destruct (wants_shared e && (shared_obj <? 0)) eqn:Hno.
  { apply andb_true_iff in Hno as [Hws Hneg%Z.ltb_lt]. done. }
  eapply (okl_then _ _ (fun _ l1 => vacate_post pid as_ (me_address e) end_ false members (ly_x l) (ly_x l1) /\ ly_cons l1 = ly_cons l)).
  { eapply on_x_wp; [apply (range_vacated_spec world mm_members alloc apply_map execution_ended pid as_ (me_address e) end_ false members); [done|done|lia]|].
    intros u x Hx. by split. }
  intros u l1 [(Hw1 & Hc1 & Hm1 & Ht1) Hcons1]. destruct Hm1 as [Hlo Hre Hsh].
  destruct (wants_shared e) eqn:Hws.
  2: { apply okl_ret. split; [done|]. split; [done|]. unfold set_post. rewrite Hws. fold end_. done. }
  assert (Hge : 0 <= me_address e) by (destruct Hp as [[? _] _]; done).
  pose proof (SharedLayout.shared_note_result alloc as_ (me_address e) end_ (me_object_offset e) (wire_prot (me_protection e))
    (me_object_id e) (x_shared (ly_x l1)) (xw_shared _ Hw1) Hge ltac:(unfold I64MAX, U64MAX in *; lia) Hoff Hid) as Hn.
  cbv zeta in Hn. set (x1 := ly_x l1) in *.
  eapply (okl_then _ _ (fun _ l2 => exists t, ly_cons l2 = ly_cons l /\
    ly_x l2 = mk_executor (x_cow x1) (x_pages x1) (x_loans x1) (x_regions x1) t (x_applied x1) /\ SharedLayout.shared_wf t /\
    forall as' a, SharedLayout.shared_at t as' a = if (as' =? as_) && (me_address e <=? a) && (a <? end_)
      then Some (me_object_id e, me_object_offset e + (a - me_address e), wire_prot (me_protection e))
      else SharedLayout.shared_at (x_shared x1) as' a)).
  { unfold wp, on_x, on_shared. fold x1. destruct (SharedLayout.shared_layout_note _ _ _ _ _ _ _ _) as [t| | | |]; simpl; try done.
    exists t. destruct Hn as (_ & Hwt & Hat). done. }
  intros u2 l2 (t & Hc2 & Hx2 & Hwt & Hat). apply okl_ret. split; [done|]. split; [done|].
  unfold set_post. rewrite Hws, Hx2. fold end_. simpl. destruct Hw1, Hc1.
  split; [by split|]. split; [by split|]. split; [done|]. split; [done|]. split; [|done].
  intros as' a. rewrite Hat. unfold Retain.in_span. simpl.
  destruct ((as' =? as_) && (me_address e <=? a) && (a <? end_)) eqn:Hin; [done|]. rewrite Hsh.
  unfold Retain.in_span. simpl. by rewrite Hin.
Qed.
Lemma effect_checked reserved e : effect_bad reserved e = false -> 0 <= me_length e ->
  0 < me_length e /\ page_aligned (me_address e) = true.
Proof.
  unfold effect_bad. rewrite !orb_false_iff. intros (((((((_ & _) & _) & _) & Hz) & _) & Ha) & _) Hl. split; [lia|].
  unfold page_aligned. change (PAGE - 1) with 4095 in Ha. by apply negb_false_iff in Ha.
Qed.

End set.
Definition demo_effect : vmr_map_effect := mk_effect VMR_MAP_SET VMR_MAP_SHARED 3 0x1000 0x800 0x4000 0 0 77.
Definition demo_layout : layout := mk_layout demo_x Construction.cons_init.
Abbreviation demo_note := (reply_note_map CowRuns.demo_world CowRuns.demo_members (fun _ => true) demo_apply (fun _ _ => true)
  (fun _ _ _ => false) (fun _ _ _ => None) 5).

(** ** A moved mapping *)
Section move.
Context (world : Cow.history -> Cow.call -> Z) (mm_members : Cow.history -> Z -> list Z) (alloc : Z -> bool).
Context (apply_map : list applied -> Z -> Z -> Z -> Z -> Z).
Context (any_present : Cow.history -> Z -> Z -> bool) (shared_page : Cow.history -> Z -> Z -> option Cow.bytes).
Abbreviation cow_state := Cow.cow_state.
Abbreviation objects := Cow.objects.

(** Everything but the objects is as it was. *)
Record others_kept (s s' : cow_state) : Prop := {
  ok_mms : Cow.mms s' = Cow.mms s;
  ok_children : Cow.cow_children s' = Cow.cow_children s;
  ok_marks k : Cow.mark s' k = Cow.mark s k;
  ok_given k : Cow.given s' k = Cow.given s k
}.
Lemma others_quiet s s' : Cow.quiet s s' -> others_kept s s'.
Proof. by intros []. Qed.
Lemma others_trans s1 s2 s3 : others_kept s1 s2 -> others_kept s2 s3 -> others_kept s1 s3.
Proof. intros [? ? H1 H2] [? ? H3 H4]. split; [congruence|congruence|intros; by rewrite H3|intros; by rewrite H4]. Qed.

Lemma write_page_spec as_ p d s :
  wp (Cow.mm_obj_write world as_ p d) (CowRuns.okay (fun r s' => others_kept s s' /\
    objects s' = if r =? PAGE then <[(as_, p) := d]> (objects s) else objects s)) s.
Proof.
  unfold Cow.mm_obj_write. eapply CowRuns.wp_seq; [apply CowRuns.mm_record_spec|]. intros Y s' [-> _].
  unfold wp, Cow.ask, mbind, prog_bind. cbn [fst snd]. set (r := world _ _).
  destruct (r =? PAGE) eqn:Hr; simpl; rewrite Hr; by split.
Qed.

Lemma offset_ok base q m : Cow.page_ok base -> 0 <= q < m -> base + m <= I64MAX -> page_aligned q = true -> Cow.page_ok (base + q).
Proof.
  intros [Hu Ha] Hq Hm Hqa. split; [unfold is_u64, I64MAX, U64MAX in *; lia|].
  apply page_aligned_spec in Ha, Hqa. apply page_aligned_spec. rewrite Z.add_mod, Ha, Hqa by (unfold PAGE; lia). done.
Qed.
Lemma next_aligned q : page_aligned q = true -> page_aligned (q + PAGE) = true.
Proof. rewrite !page_aligned_spec. intros H. rewrite Z.add_mod, H by (unfold PAGE; lia). done. Qed.
Lemma aligned_step o q : page_aligned o = true -> page_aligned q = true -> o < q -> o + PAGE <= q.
Proof.
  rewrite !page_aligned_spec. unfold PAGE. intros Ho Hq Hlt.
  pose proof (Z.div_mod o 4096). pose proof (Z.div_mod q 4096). lia.
Qed.

(** the pages from offset [o] on have been copied *)
Definition copied (as_ olda newa o m : Z) (s s' : cow_state) : Prop :=
  others_kept s s' /\
  (forall q, o <= q < m -> page_aligned q = true -> objects s' !! (as_, newa + q) =
     match objects s !! (as_, olda + q) with Some b => Some b | None => objects s !! (as_, newa + q) end) /\
  (forall k, (forall q, o <= q < m -> page_aligned q = true -> k <> (as_, newa + q)) -> objects s' !! k = objects s !! k).

Lemma move_pages_spec as_ olda newa oldl newl shared :
  Cow.page_ok olda -> Cow.page_ok newa -> olda + oldl <= I64MAX -> newa + newl <= I64MAX ->
  olda + oldl <= newa \/ newa + newl <= olda ->
  (forall a, olda <= a < olda + oldl -> shared a = false) ->
  forall fuel o s, 0 <= o -> page_aligned o = true -> oldl - o < Z.of_nat fuel * PAGE ->
  wp (move_pages world mm_members any_present shared_page fuel as_ olda newa shared o oldl newl)
    (CowRuns.okay (fun ok s' => ok = true -> copied as_ olda newa o (oldl `min` newl) s s')) s.
Proof.
  intros Hold Hnew Hmo Hmn Hdis Hsh. induction fuel as [|fuel IH]; intros o s Ho Hoa Hf; cbn [move_pages].
  all: destruct ((o <? oldl) && (o <? newl)) eqn:Hgo; cbn [negb].
  1: unfold PAGE in *; lia.
  2: apply andb_true_iff in Hgo as [Hgo1%Z.ltb_lt Hgo2%Z.ltb_lt].
  1,3: apply CowRuns.wp_val; intros _; split; [by apply others_quiet, CowRuns.quiet_refl|]; split; [intros q Hq; lia|done].
  assert (Hpo : Cow.page_ok (olda + o)) by (by apply (offset_ok _ _ oldl)).
  (** the rest of the loop, after this page became [v] *)
  assert (Hrest : forall s1, others_kept s s1 ->
    (forall k, k <> (as_, newa + o) -> objects s1 !! k = objects s !! k) ->
    objects s1 !! (as_, newa + o) =
      match objects s !! (as_, olda + o) with Some b => Some b | None => objects s !! (as_, newa + o) end ->
    wp (move_pages world mm_members any_present shared_page fuel as_ olda newa shared (o + PAGE) oldl newl)
      (CowRuns.okay (fun ok s' => ok = true -> copied as_ olda newa o (oldl `min` newl) s s')) s1).
  { intros s1 Hk1 Hoth Hthis. eapply CowRuns.wp_weak; [apply IH; [unfold PAGE; lia|by apply next_aligned|lia]|].
    intros ok s2 H Hok. destruct (H Hok) as (Hk2 & Hin & Hout). split; [by eapply others_trans|].
    assert (Hfar : forall q, o <= q < oldl `min` newl -> page_aligned q = true -> q <> o -> o + PAGE <= q).
    { intros q Hq Hqa Hne. apply aligned_step; [done|done|lia]. }
    split.
    - intros q Hq Hqa. destruct (decide (q = o)) as [->|Hne].
      + rewrite Hout; [by rewrite Hthis|]. intros q' Hq' _ [= Heq]. unfold PAGE in *. lia.
      + rewrite (Hin q); [|split; [by apply Hfar|lia]|done].
        rewrite (Hoth (as_, olda + q)) by (intros [= ?]; lia). by rewrite (Hoth (as_, newa + q)) by (intros [= ?]; lia).
    - intros k Hk. rewrite Hout; [apply Hoth; apply Hk; [lia|done]|].
      intros q Hq Hqa. apply Hk; [unfold PAGE in *; lia|done]. }
  eapply CowRuns.wp_seq; [by apply CowRuns.backing_spec|]. intros has s' [-> Hhas].
  eapply CowRuns.wp_seq; [by apply (CowRuns.wp_state _ (fun _ s' => s' = s))|]. intros present s' ->.
  destruct (negb has && negb present) eqn:Hskip.
  { apply Hrest; [by apply others_quiet, CowRuns.quiet_refl|done|].
    destruct (objects s !! (as_, olda + o)) eqn:Hb; [|done]. assert (has = true) as -> by (apply Hhas; by eexists). done. }
  unfold page_read_as. rewrite (Hsh (olda + o)) by lia.
  eapply CowRuns.wp_seq; [by apply CowRuns.page_read_spec|]. intros d s1 [Hq Hd].
  destruct d as [b|]; [|by apply CowRuns.wp_val].
  eapply CowRuns.wp_seq; [apply write_page_spec|]. intros r s2 [Hk2 Hobj].
  pose proof (Cow.sh_objects _ _ _ _ _ _ _ Hq) as Ho1.
  destruct (r =? PAGE); [|by apply CowRuns.wp_val]. rewrite Ho1 in Hobj. apply Hrest.
  - eapply others_trans; [by apply others_quiet|done].
  - intros k Hne. by rewrite Hobj, lookup_insert_ne.
  - by rewrite Hobj, lookup_insert_eq, Hd.
Qed.

(** What the records say after a move; [replace] is whether the target range
    stood for something before. *)
Record move_post (as_ mmseq : Z) (e : vmr_map_effect) (l l' : layout) : Prop := {
  mp_moved q : 0 <= q < page_up (me_length e) -> page_aligned q = true ->
    objects (x_cow (ly_x l')) !! (as_, me_address e + q) =
      match (if q <? page_up (me_prior_length e) then objects (x_cow (ly_x l)) !! (as_, me_prior_address e + q) else None) with
      | Some b => Some b
      | None => if nz (me_flags e .& VMR_MAP_REPLACE) then None else objects (x_cow (ly_x l)) !! (as_, me_address e + q)
      end;
  mp_objects k : Retain.in_span as_ (me_address e) (me_address e + page_up (me_length e)) k = false ->
    objects (x_cow (ly_x l')) !! k = objects (x_cow (ly_x l)) !! k;
  mp_kept k : Retain.kept (x_pages (ly_x l')) !! k =
    if nz (me_flags e .& VMR_MAP_REPLACE) && Retain.in_span as_ (me_address e) (me_address e + page_up (me_length e)) k
    then None else Retain.kept (x_pages (ly_x l)) !! k;
  mp_regions as' a : Regions.region_at (x_regions (ly_x l')) as' a =
    if Retain.in_span as_ (me_address e) (me_address e + page_up (me_length e)) (as', a)
    then None else Regions.region_at (x_regions (ly_x l)) as' a;
  mp_cow : others_kept (x_cow (ly_x l)) (x_cow (ly_x l'));
  mp_loans : x_loans (ly_x l') = x_loans (ly_x l);
  mp_gens : Retain.gens (x_pages (ly_x l')) = Retain.gens (x_pages (ly_x l));
  mp_shared : x_shared (ly_x l') = x_shared (ly_x l);
  mp_cons : Construction.cons_wf (ly_cons l') /\
    (ly_cons l' = ly_cons l /\ (mmseq = 0 \/
        Construction.superseded as_ (me_address e) (me_address e + page_up (me_length e)) mmseq 0 (ly_cons l)) \/
     Construction.noted as_ (me_address e) (me_address e + page_up (me_length e)) mmseq 0 0 0 (ly_cons l) (ly_cons l'))
}.

Lemma forget_objects_spec as_ addr len s : 0 < len ->
  wp (Cow.obj_forget world as_ addr len) (CowRuns.okay (fun _ s' => others_kept s s' /\
    forall k, objects s' !! k = Cow.punched as_ addr len (objects s) !! k)) s.
Proof.
  intros Hl. unfold Cow.obj_forget. rewrite (proj2 (Z.eqb_neq len 0)) by lia. destruct (_ || _); [done|].
  eapply CowRuns.wp_seq; [by apply CowRuns.ask_spec|]. intros r s1 (Hq & _ & _). destruct (nz r); [done|].
  apply CowRuns.wp_modify. split; [by apply (others_trans _ s1); [by apply others_quiet|]|].
  intros k. cbn [objects Cow.set_writable Cow.set_objects]. rewrite (Cow.sh_objects _ _ _ _ _ _ _ Hq).
  done.
Qed.
Lemma apply_all_spec op start len members x :
  wp (apply_all apply_map op start len members) (Vacate.okay (fun _ x' =>
    (x_cow x', x_pages x', x_loans x', x_regions x', x_shared x') = (x_cow x, x_pages x, x_loans x, x_regions x, x_shared x))) x.
Proof.
  revert x. induction members as [|m members IH]; intros x; [done|]. cbn [apply_all]. unfold wp. cbv zeta.
  destruct (apply_map _ _ _ _ _ <? 0); [done|]. apply (IH (mk_executor _ _ _ _ _ _)).
Qed.

(** The replacement of the target range. *)
Lemma replace_spec as_ newa newl (replace : bool) members x :
  Retain.memory_wf (x_pages x) -> Cow.page_ok newa -> 0 < newl -> newa + newl <= I64MAX -> page_aligned (newa + newl) = true ->
  wp (if replace then on_cow (Cow.obj_forget world as_ newa newl) ;;
        on_pages (Retain.retain_forget as_ newa (newa + newl)) ;; apply_all apply_map VMCTX_MAP_UNMAP newa newl members
      else mret true)
    (Vacate.okay (fun _ x' => others_kept (x_cow x) (x_cow x') /\
      (forall k, objects (x_cow x') !! k = if replace && Retain.in_span as_ newa (newa + newl) k then None else objects (x_cow x) !! k) /\
      (forall k, Retain.kept (x_pages x') !! k = if replace && Retain.in_span as_ newa (newa + newl) k then None else Retain.kept (x_pages x) !! k) /\
      Retain.gens (x_pages x') = Retain.gens (x_pages x) /\
      (x_loans x', x_regions x', x_shared x') = (x_loans x, x_regions x, x_shared x))) x.
Proof.
  intros Hwf Hp Hl Hm Hna. destruct replace; [|by repeat split].
  assert (Hspan : forall k, Cow.punched as_ newa newl (objects (x_cow x)) !! k =
    if Retain.in_span as_ newa (newa + newl) k then None else objects (x_cow x) !! k) by (intros k; apply Cow.punched_whole; [apply Hp|done]).
  eapply (wp_then _ _ (fun _ x1 => others_kept (x_cow x) (x_cow x1) /\
    (forall k, objects (x_cow x1) !! k = if Retain.in_span as_ newa (newa + newl) k then None else objects (x_cow x) !! k) /\
    (x_pages x1, x_loans x1, x_regions x1, x_shared x1) = (x_pages x, x_loans x, x_regions x, x_shared x))).
  { pose proof (forget_objects_spec as_ newa newl (x_cow x) Hl) as H. unfold wp, on_cow in *.
    destruct (Cow.obj_forget world as_ newa newl (x_cow x)) as [[] c]; simpl in *; try done.
    destruct H as [Hk Ho]. split; [done|]. split; [|done]. intros k. by rewrite Ho, Hspan. }
  intros u x1 (Hk1 & Hob & Heq). injection Heq as E1 E2 E3 E4.
  destruct (Retain.retain_forget_spec as_ newa (newa + newl) (x_pages x) Hwf (proj1 Hp)) as (_ & Hg & Hke).
  rewrite (proj2 (Z.leb_gt _ _)) in Hke by lia.
  eapply (wp_then _ _ (fun _ x2 => x2 = (on_pages (Retain.retain_forget as_ newa (newa + newl)) x1).2)); [done|]. intros ? x2 ->.
  eapply wp_mono; [apply apply_all_spec|]. intros [] x3; try done. intros Heq3. injection Heq3 as F1 F2 F3 F4 F5. simpl in *.
  rewrite F1, F2, F3, F4, F5, E1, E2, E3, E4. split; [done|]. split; [done|]. split; [|done].
  intros k. rewrite Hke. by apply Vacate.bury_lookup.
Qed.

Lemma lookup_unshared t as_ a : SharedLayout.shared_layout_lookup as_ a t = None ->
  bool_decide (is_Some (SharedLayout.shared_layout_lookup as_ a t)) = false.
Proof. intros ->. by apply bool_decide_eq_false_2; intros []. Qed.

Lemma okl_then2 {A B C} (m : L A) (k : A -> L B) (c : B -> L C) (P : B -> layout -> Prop) (Q : C -> layout -> Prop) l :
  wp (m ≫= k) (okl P) l -> (forall b l', P b l' -> wp (c b) (okl Q) l') -> wp (m ≫= fun a => k a ≫= c) (okl Q) l.
Proof.
  unfold wp, mbind, prog_bind. destruct (m l) as [[a| | | |] l1]; simpl; try done.
  destruct (k a l1) as [[b| | | |] l2]; simpl; auto.
Qed.
(** The objects after replacement and copying. *)
Lemma moved_objects as_ olda newa oldl newl (replace : bool) s s1 s2 :
  olda + oldl <= newa \/ newa + newl <= olda ->
  (forall k, objects s1 !! k = if replace && Retain.in_span as_ newa (newa + newl) k then None else objects s !! k) ->
  copied as_ olda newa 0 (oldl `min` newl) s1 s2 ->
  (forall q, 0 <= q < newl -> page_aligned q = true -> objects s2 !! (as_, newa + q) =
     match (if q <? oldl then objects s !! (as_, olda + q) else None) with
     | Some b => Some b
     | None => if replace then None else objects s !! (as_, newa + q)
     end) /\
  (forall k, Retain.in_span as_ newa (newa + newl) k = false -> objects s2 !! k = objects s !! k).
Proof.
  intros Hdis Hob (_ & Hin & Hout). split.
  - intros q Hq Hqa.
    assert (Hnew : Retain.in_span as_ newa (newa + newl) (as_, newa + q) = true) by (unfold Retain.in_span; simpl; lia).
    destruct (decide (q < oldl)) as [Hlt|Hge].
    + rewrite (proj2 (Z.ltb_lt _ _) Hlt), Hin by (done || lia). rewrite !Hob, Hnew.
      assert (Retain.in_span as_ newa (newa + newl) (as_, olda + q) = false) as ->.
      { unfold Retain.in_span. simpl. destruct Hdis; lia. }
      by rewrite andb_false_r, andb_true_r.
    + rewrite (proj2 (Z.ltb_ge _ _)) by lia. rewrite Hout by (intros q' Hq' _ [= ?]; lia).
      by rewrite Hob, Hnew, andb_true_r.
  - intros k Hk. rewrite Hout, Hob, Hk, andb_false_r; [done|]. intros q Hq _ ->. unfold Retain.in_span in Hk. simpl in Hk. lia.
Qed.
Lemma move_stage as_ olda newa oldl newl l :
  Cow.page_ok olda -> Cow.page_ok newa -> 0 <= oldl -> olda + oldl <= I64MAX -> newa + newl <= I64MAX ->
  olda + oldl <= newa \/ newa + newl <= olda ->
  (forall a, olda <= a < olda + oldl -> SharedLayout.shared_layout_lookup as_ a (x_shared (ly_x l)) = None) ->
  wp (on_x (on_cow' (move_pages world mm_members any_present shared_page (move_fuel oldl) as_ olda newa (is_shared as_ (ly_x l)) 0 oldl newl)))
    (okl (fun ok l' => ok = true -> ly_cons l' = ly_cons l /\
      copied as_ olda newa 0 (oldl `min` newl) (x_cow (ly_x l)) (x_cow (ly_x l')) /\
      (x_pages (ly_x l'), x_loans (ly_x l'), x_regions (ly_x l'), x_shared (ly_x l')) =
      (x_pages (ly_x l), x_loans (ly_x l), x_regions (ly_x l), x_shared (ly_x l)))) l.
Proof.
  intros Hpo Hpn Hol Hmo Hmn Hdis Hsh.
  pose proof (move_pages_spec as_ olda newa oldl newl (is_shared as_ (ly_x l)) Hpo Hpn Hmo Hmn Hdis) as H.
  assert (Hf : oldl - 0 < Z.of_nat (move_fuel oldl) * PAGE).
  { unfold move_fuel, PAGE in *. pose proof (Z.div_mod oldl 4096). pose proof (Z.mod_pos_bound oldl 4096).
    pose proof (Z.div_pos oldl 4096). rewrite Z2Nat.id by lia. lia. }
  specialize (H ltac:(intros a Ha; unfold is_shared; apply lookup_unshared; by apply Hsh)
    (move_fuel oldl) 0 (x_cow (ly_x l)) ltac:(lia) eq_refl Hf).
  unfold wp, on_x, on_cow' in *. destruct (move_pages _ _ _ _ _ _ _ _ _ _ _ _ (x_cow (ly_x l))) as [[ok| | | |] c]; simpl in *; try done.
  intros Hok. split; [done|]. by split; [apply H|].
Qed.
(** The layout rows and the ordering record of the new range. *)
Lemma publish_stage as_ newa newl mmseq l :
  Regions.regions_wf (x_regions (ly_x l)) -> Construction.cons_wf (ly_cons l) -> Cow.page_ok newa -> 0 < newl ->
  newa + newl <= I64MAX -> 0 <= mmseq ->
  wp (on_x (on_regions (Regions.region_forget_range as_ newa (newa + newl))) ;;
      on_cons (Construction.cons_note_locked alloc as_ newa (newa + newl) mmseq 0 0 0))
    (okl (fun _ l' =>
      (x_cow (ly_x l'), x_pages (ly_x l'), x_loans (ly_x l'), x_shared (ly_x l')) = (x_cow (ly_x l), x_pages (ly_x l), x_loans (ly_x l), x_shared (ly_x l)) /\
      (forall as' a, Regions.region_at (x_regions (ly_x l')) as' a =
        if Retain.in_span as_ newa (newa + newl) (as', a) then None else Regions.region_at (x_regions (ly_x l)) as' a) /\
      Construction.cons_wf (ly_cons l') /\
      (ly_cons l' = ly_cons l /\ (mmseq = 0 \/ Construction.superseded as_ newa (newa + newl) mmseq 0 (ly_cons l)) \/
       Construction.noted as_ newa (newa + newl) mmseq 0 0 0 (ly_cons l) (ly_cons l')))) l.
Proof.
  intros Hregs Hcons [[Hge _] _] Hl Hmn Hseq.
  pose proof (Regions.region_forget_spec as_ newa (newa + newl) (x_regions (ly_x l)) Hregs Hge) as Hreg.
  pose proof (Construction.cons_note_result alloc as_ newa (newa + newl) mmseq 0 0 0 (ly_cons l) Hcons
    Hge ltac:(unfold U64MAX, I64MAX in *; lia) Hseq) as Hn.
  apply wp_bind. unfold wp at 1, on_x, on_regions. destruct (Regions.region_forget_range _ _ _ _) as [rows| | | |]; simpl; try done.
  unfold wp, on_cons. simpl. destruct (Construction.cons_note_locked _ _ _ _ _ _ _ _ _) as [t| | | |]; simpl; try done.
  destruct Hreg as [_ Hat], Hn as [Hw Hcase]. split; [done|]. split; [done|]. split; [done|].
  destruct Hcase as [[-> [Hz|[Hz|Hz]]]|(_ & _ & Hz)]; [left; auto|lia|left; auto|right; exact Hz].
Qed.

Lemma map_move_spec as_ mmseq members e l :
  Retain.memory_wf (x_pages (ly_x l)) -> Regions.regions_wf (x_regions (ly_x l)) -> Construction.cons_wf (ly_cons l) ->
  Cow.page_ok (me_address e) -> Cow.page_ok (me_prior_address e) -> 0 < me_length e <= I64MAX -> 0 <= me_prior_length e <= I64MAX ->
  me_address e + page_up (me_length e) <= I64MAX -> me_prior_address e + page_up (me_prior_length e) <= I64MAX ->
  me_prior_address e + page_up (me_prior_length e) <= me_address e \/ me_address e + page_up (me_length e) <= me_prior_address e ->
  (forall a, me_prior_address e <= a < me_prior_address e + page_up (me_prior_length e) ->
     SharedLayout.shared_layout_lookup as_ a (x_shared (ly_x l)) = None) ->
  me_address e <> me_prior_address e -> 0 <= mmseq ->
  wp (map_move world mm_members alloc apply_map any_present shared_page as_ mmseq members e)
    (okl (fun rep l' => match rep with None => True | Some rep => rep = no_reply /\ move_post as_ mmseq e l l' end)) l.
Proof.
  intros Hpages Hregs Hcons Hpn Hpo Hl Hol Hmn Hmo Hdis Hsh Hne Hseq. unfold map_move.
  destruct (page_up_spec (me_length e)) as [Hup Hup1]; [lia|]. destruct (page_up_spec (me_prior_length e)) as [Hup0 _]; [lia|].
  assert (Hend : u64 (me_address e + page_up (me_length e)) = me_address e + page_up (me_length e)).
  { apply u64_small. destruct Hpn as [Hu _]. unfold is_u64, U64MAX, I64MAX in *. lia. }
  rewrite Hend. set (newa := me_address e) in *. set (olda := me_prior_address e) in *.
  set (newl := page_up (me_length e)) in *. set (oldl := page_up (me_prior_length e)) in *.
  destruct (prior_bad e); [by apply okl_ret|]. destruct (U64MAX - olda <? oldl); [by apply okl_ret|].
  rewrite (proj2 (Z.eqb_neq newa olda)) by done.
  set (replace := nz (me_flags e .& VMR_MAP_REPLACE)).
  assert (Hnend : page_aligned (newa + newl) = true).
  { destruct Hpn as [_ Ha%page_aligned_spec]. apply page_aligned_spec in Hup1. apply page_aligned_spec. by rewrite Z.add_mod, Ha, Hup1 by (unfold PAGE; lia). }
  eapply (okl_then _ _ (fun _ l1 => ly_cons l1 = ly_cons l /\ others_kept (x_cow (ly_x l)) (x_cow (ly_x l1)) /\
    (forall k, objects (x_cow (ly_x l1)) !! k = if replace && Retain.in_span as_ newa (newa + newl) k then None else objects (x_cow (ly_x l)) !! k) /\
    (forall k, Retain.kept (x_pages (ly_x l1)) !! k = if replace && Retain.in_span as_ newa (newa + newl) k then None else Retain.kept (x_pages (ly_x l)) !! k) /\
    Retain.gens (x_pages (ly_x l1)) = Retain.gens (x_pages (ly_x l)) /\
    (x_loans (ly_x l1), x_regions (ly_x l1), x_shared (ly_x l1)) = (x_loans (ly_x l), x_regions (ly_x l), x_shared (ly_x l)))).
  { pose proof (replace_spec as_ newa newl replace members (ly_x l) Hpages Hpn ltac:(lia) ltac:(lia) Hnend) as H.
    destruct replace; [|by repeat split]. eapply on_x_wp; [exact H|]. intros b x Hx. split; [done|exact Hx]. }
  intros replaced l1 (Hc1 & Hk1 & Hob1 & Hke1 & Hg1 & Heq1). injection Heq1 as El Er Es.
  destruct replaced; cbn [negb]; [|by apply okl_ret].
  eapply okl_then; [apply move_stage; rewrite ?Es; try done; lia|].
  intros moved l2 H2. cbv beta in H2. destruct moved; cbn [negb]; [|by apply okl_ret].
  destruct (H2 eq_refl) as (Hc2 & Hcp & Heq2). injection Heq2 as F1 F2 F3 F4.
  pose proof (publish_stage as_ newa newl mmseq l2) as Hpub. rewrite F3, Er, Hc2, Hc1 in Hpub.
  specialize (Hpub Hregs Hcons Hpn ltac:(lia) ltac:(lia) Hseq).
  destruct (moved_objects _ _ _ _ _ _ _ _ _ Hdis Hob1 Hcp) as [Hmoved Hother].
  eapply (okl_then2 _ _ _ _ _ _ Hpub). intros u l4 (Heq3 & Hreg3 & Hcw & Hcase). apply okl_ret. injection Heq3 as G1 G2 G3 G4.
  split; [done|]. split; fold newa olda newl oldl replace; rewrite ?G1, ?G2, ?G3, ?G4, ?F1, ?F2, ?F4; try done.
  eapply others_trans; [done|apply Hcp].
Qed.
End move.

(** What the source's kernel guarantees of a move it made, and that the moved
    range is private memory here. *)
Record move_ok (as_ : Z) (e : vmr_map_effect) (x : executor) : Prop := {
  mo_kind : me_kind e = VMR_MAP_MOVE;
  mo_new : is_u64 (me_address e);
  mo_old : Cow.page_ok (me_prior_address e);
  mo_len : 0 <= me_length e <= I64MAX;
  mo_olen : 0 <= me_prior_length e <= I64MAX;
  mo_new_end : me_address e + page_up (me_length e) <= I64MAX;
  mo_old_end : me_prior_address e + page_up (me_prior_length e) <= I64MAX;
  mo_apart : me_prior_address e + page_up (me_prior_length e) <= me_address e \/
    me_address e + page_up (me_length e) <= me_prior_address e;
  mo_moved : me_address e <> me_prior_address e;
  mo_private a : me_prior_address e <= a < me_prior_address e + page_up (me_prior_length e) ->
    SharedLayout.shared_layout_lookup as_ a (x_shared x) = None
}.

(** C29: a move carries the bytes.  When reply_note_map returns from a MOVE of
    private memory, each page of the new range holds the bytes this side held of
    the old one at that offset; where it held none the target is left as it was,
    or empty when the call replaced it, and so is what lies past the old length.
    Retained copies of a replaced target are gone, the layout forgets the target,
    the landing is recorded in the order of constructions unless a newer record is
    there, the loans, generations, shared rows, marks and every other page are as
    they were, and the kernel is asked for nothing.  The loop ends within its
    fuel. *)
Theorem mapping_move_relocates world mm_members alloc apply_map execution_ended any_present shared_page shared_obj
  pid as_ mmseq members reserved e l :
  Retain.memory_wf (x_pages (ly_x l)) -> Regions.regions_wf (x_regions (ly_x l)) -> Construction.cons_wf (ly_cons l) ->
  move_ok as_ e (ly_x l) -> 0 <= mmseq ->
  match reply_note_map world mm_members alloc apply_map execution_ended any_present shared_page shared_obj
          pid as_ mmseq members reserved e l with
  | (Ok (Some rep), l') => rep = no_reply /\ move_post as_ mmseq e l l'
  | (Ok None, _) | (Aborted, _) => True
  | _ => False
  end.
Proof.
  intros Hp Hr Hc [Hk Hu Hold Hl Hol Hmn Hmo Hdis Hne Hsh] Hseq. unfold reply_note_map. rewrite Hk.
  change (VMR_MAP_MOVE =? VMR_MAP_NONE) with false. change (VMR_MAP_MOVE =? VMR_MAP_SET) with false.
  change (VMR_MAP_MOVE =? VMR_MAP_PROTECT) with false. cbv iota.
  destruct (effect_bad reserved e) eqn:Hbad; [done|]. destruct (effect_wraps e); [done|].
  apply effect_checked in Hbad as [Hz Ha]; [|lia].
  pose proof (map_move_spec world mm_members alloc apply_map any_present shared_page as_ mmseq members e l
    Hp Hr Hc (conj Hu Ha) Hold (conj Hz (proj2 Hl)) Hol Hmn Hmo Hdis Hsh Hne Hseq) as H.
  unfold wp in H. destruct (map_move _ _ _ _ _ _ _ _ _ _ _) as [[[rep|]| | | |] l']; simpl in H; done.
Qed.

Definition demo_move : vmr_map_effect := mk_effect VMR_MAP_MOVE VMR_MAP_REPLACE 0 0x8000 0x2000 0 0x1000 0x1000 0.
Lemma mapping_move_relocates_witness :
  exists l', demo_note 1 1 9 [1] 0 demo_move demo_layout = (Ok (Some no_reply), l') /\
    move_post 1 9 demo_move demo_layout l' /\ Cow.objects (x_cow (ly_x l')) !! (1, 0x8000) = Some [7].
Proof.
  assert (H : match demo_note 1 1 9 [1] 0 demo_move demo_layout with
    | (Ok (Some rep), l') => rep = no_reply /\ move_post 1 9 demo_move demo_layout l' | (Ok None, _) | (Aborted, _) => True | _ => False end).
  { apply (mapping_move_relocates CowRuns.demo_world CowRuns.demo_members (fun _ => true) demo_apply (fun _ _ => true)
      (fun _ _ _ => false) (fun _ _ _ => None) 5 1 1 9 [1] 0 demo_move demo_layout).
    - exact (xw_pages _ demo_x_wf).
    - exact (xw_regions _ demo_x_wf).
    - apply Construction.cons_init_wf.
    - split; try reflexivity; try (by vm_compute); try apply CowRuns.demo_page.
      left. by vm_compute.
    - lia. }
  assert (Hr : match demo_note 1 1 9 [1] 0 demo_move demo_layout with (Ok (Some _), l') => Cow.objects (x_cow (ly_x l')) !! (1, 0x8000) | _ => None end = Some [7])
    by (vm_compute; reflexivity).
  destruct (demo_note 1 1 9 [1] 0 demo_move demo_layout) as [[[rep|]| | | |] l']; try discriminate Hr.
  destruct H as [-> Hm]. exists l'. split; [reflexivity|]. split; [exact Hm|exact Hr].
Defined.

(** ** Moves that lose something

    Two runs of the modelled code. *)
(** A page is moved over one a copy is still owed: the old bytes are punched
    without having been given, the mark stays, and the copy gets the moved page. *)
Definition owed_start : Cow.cow_state :=
  snd (CowRuns.demo_publish 2 1 [] (CowRuns.demo_start [(2, 1); (1, 0)]
    {[(1, 0x1000) := [7]; (1, 0x5000) := [8]]} {[(1, 0x1000)]})).
Definition owed_layout : layout :=
  mk_layout (mk_executor owed_start Retain.memory_init Loans.lent_init [] (SharedLayout.mk_table [] 0) []) Construction.cons_init.
Definition replace_effect : vmr_map_effect := mk_effect VMR_MAP_MOVE VMR_MAP_REPLACE 0 0x1000 0x1000 0 0x5000 0x1000 0.
Theorem replaced_page_reaches_copy :
  Cow.objects owed_start !! (1, 0x1000) = Some [7] /\ Cow.mark owed_start (1, 0x1000) = Cow.COW_PROT_OWED /\
  Cow.objects owed_start !! (2, 0x1000) = None /\
  let l := snd (demo_note 1 1 9 [1] 0 replace_effect owed_layout) in
  fst (demo_note 1 1 9 [1] 0 replace_effect owed_layout) = Ok (Some no_reply) /\
  fst (Cow.cow_give_from_chain CowRuns.demo_world CowRuns.demo_members 2 0x1000 (x_cow (ly_x l))) = Ok true /\
  Cow.objects (snd (Cow.cow_give_from_chain CowRuns.demo_world CowRuns.demo_members 2 0x1000 (x_cow (ly_x l)))) !! (2, 0x1000) = Some [8].
Proof. vm_compute. repeat split; reflexivity. Qed.
(** A shared mapping is moved: the new range has no shared row, so it is private
    memory from then on. *)
Definition shared_layout0 : layout :=
  mk_layout (mk_executor (CowRuns.demo_start [(1, 0)] ∅ ∅) Retain.memory_init Loans.lent_init []
    (SharedLayout.mk_table [SharedLayout.mk_shared 1 0x5000 0x6000 0 77 3] 4) []) Construction.cons_init.
Definition move_effect : vmr_map_effect :=
  source_map_effect SYS_mremap [0x5000; 0x1000; 0x1000; 1; 0; 0] 0x1000 77 0 0x1000.
Theorem moved_sharing_is_lost :
  SharedLayout.shared_at (x_shared (ly_x shared_layout0)) 1 0x5000 = Some (77, 0, 3) /\
  accepted move_effect /\
  let l := snd (demo_note 1 1 9 [1] 0 move_effect shared_layout0) in
  fst (demo_note 1 1 9 [1] 0 move_effect shared_layout0) = Ok (Some no_reply) /\
  SharedLayout.shared_at (x_shared (ly_x l)) 1 0x1000 = None.
Proof. vm_compute. repeat split; reflexivity. Qed.

(** Publication is ordered: a SET that goes through leaves, besides what
    [mapping_set_publishes] says, the record that later vacates are ordered
    against, unless a newer record for the same range is there. *)
Lemma aligned_end a len : is_u64 (a + len + 0xfff) -> page_aligned (a + len) = true -> page_base (u64 (a + len + 0xfff)) = a + len.
Proof.
  intros Hu Ha. rewrite u64_small, page_base_sub by done. apply page_aligned_spec in Ha.
  unfold PAGE in *. rewrite Z.add_mod, Ha by lia. change ((0 + 0xfff mod 4096) mod 4096) with 0xfff. lia.
Qed.
Section order.
Context (world : Cow.history -> Cow.call -> Z) (mm_members : Cow.history -> Z -> list Z) (alloc : Z -> bool).
Context (apply_map : list applied -> Z -> Z -> Z -> Z -> Z) (execution_ended : list applied -> Z -> bool).
Context (any_present : Cow.history -> Z -> Z -> bool) (shared_page : Cow.history -> Z -> Z -> option Cow.bytes) (shared_obj : Z).
Abbreviation note := (reply_note_map world mm_members alloc apply_map execution_ended any_present shared_page shared_obj).
Abbreviation publish := (reply_layout world mm_members alloc apply_map execution_ended any_present shared_page shared_obj).
Lemma set_is_ordered pid as_ mmseq members reserved e l rep l1 :
  Construction.cons_wf (ly_cons l1) -> me_kind e = VMR_MAP_SET -> 0 < mmseq ->
  Cow.page_ok (me_address e) -> 0 < me_length e <= I64MAX -> me_address e + page_up (me_length e) <= I64MAX ->
  note pid as_ mmseq members reserved e l = (Ok (Some rep), l1) -> rep = set_reply e ->
  match publish pid as_ mmseq members reserved e l with
  | (Ok r, l') => r = Some rep /\ ly_x l' = ly_x l1 /\ Construction.cons_wf (ly_cons l') /\
      let start := me_address e in let end_ := start + page_up (me_length e) in
      (Construction.noted as_ start end_ mmseq (mr_op rep) (mr_prot rep) (mr_off rep) (ly_cons l1) (ly_cons l') \/
       ly_cons l' = ly_cons l1 /\ Construction.superseded as_ start end_ mmseq (mr_op rep) (ly_cons l1))
  | (Aborted, _) => True
  | _ => False
  end.
Proof.
  intros Hc Hk Hs [Hu Ha] Hl Hm Hn ->. destruct (page_up_spec (me_length e)) as [Hup Hua]; [lia|].
  unfold reply_layout, mbind, prog_bind. rewrite Hn, Hk. simpl.
  rewrite page_base_id by done. rewrite aligned_end; [|unfold is_u64, I64MAX, U64MAX in *; lia|].
  2: { apply page_aligned_spec in Ha, Hua. apply page_aligned_spec. rewrite Z.add_mod, Ha, Hua by (unfold PAGE; lia). done. }
  rewrite (proj2 (Z.eqb_neq (page_up (me_length e)) 0)) by lia. simpl.
  set (op := if wants_shared e then VMCTX_MAP_NONE else VMCTX_MAP_SET).
  pose proof (Construction.cons_note_result alloc as_ (me_address e) (me_address e + page_up (me_length e)) mmseq op
    (wire_prot (me_protection e)) (me_object_offset e) (ly_cons l1) Hc (proj1 Hu) ltac:(unfold I64MAX, U64MAX in *; lia) ltac:(lia)) as H.
  unfold on_cons. destruct (Construction.cons_note_locked _ _ _ _ _ _ _ _ _) as [t| | | |]; simpl; try done.
  assert ((op =? VMCTX_MAP_PROT) = false) as -> by (by unfold op; destruct (wants_shared e)). simpl.
  split; [done|]. split; [done|]. destruct H as [Hw Hcase]. split; [done|].
  destruct Hcase as [[-> [?|[?|?]]]|(_ & _ & Hnoted)]; [lia|lia|by right|by left].
Qed.
End order.
End ReplyMap.
