(* ===== verification/GuestTlb.v ===== *)
(** * Retiring guest translations (kernel/vmctx.c)

    A guest runs on the host page tables of its task and caches translations in
    a TLB that a host flush does not reach.  When a page is taken away,
    vmctx_kick_guests retires them: it advances vmctx_tlb_gen, then reads
    vmctx_guests_running and, if a guest is running, interrupts every other CPU
    and waits.  The entry (svm_vmrun_once_gpr, vmx_enter_once) counts itself
    first and then compares the generation, arming a flush when its CPU has not
    yet flushed for it.  No lock joins the two: the model interleaves any number
    of takes and entries at their accesses to the shared words, with the
    processor's own fills and evictions in between.

    [tr_stamp], [cp_since], [tk_stamp], [tk_clean] and [bumps] are not in the
    code: they record when a translation was filled, when an entry looked at the
    generation and when a take advanced it.  The statistics counters are left
    out.  [entry_section] and [kick_section] are the code between two such
    accesses; they are executable. *)
From S2P Require Import Prelude Native.

Module GuestTlb.

Inductive backend := SVM | VMX.

(** ** State *)
Record translation := mk_translation { tr_frame : Z; tr_stamp : Z }.

(** Where a CPU is in an entry: before the count (or not in an entry at all),
    counted, controls written, between VMRUN and #VMEXIT, and after it. *)
Inductive cpu_point := Outside | Counted | Ready (flush : bool) | InGuest | Exited.
#[global] Instance cpu_point_eq_dec : EqDecision cpu_point.
Proof. solve_decision. Defined.
Record cpu := mk_cpu {
  cp_at : cpu_point; cpu_tlb_gen : Z; cp_tlb : gmap Z translation; cp_since : Z }.

Inductive take_point := AtUnmap | AtBump | AtRead | AtIpi (todo : list nat) | Returned.
Record take := mk_take { tk_page : Z; tk_at : take_point; tk_stamp : Z; tk_clean : bool }.

(** the page tables of the executors, and the two atomic words *)
Record machine := mk_machine {
  page_table : gmap Z Z; tlb_gen : Z; guests_running : Z; bumps : Z; cpus : list cpu }.

(** ** The entry *)
Definition go_cpu (p : cpu_point) (c : cpu) : cpu := mk_cpu p (cpu_tlb_gen c) (cp_tlb c) (cp_since c).

(** svm_vmrun_once_gpr and vmx_enter_once from the count to the decrement: one
    access per step.  With SVM the generation decides whether tlb_ctl is written
    for this entry; without VPID every VMX entry drops the translations. *)
Definition entry_section (b : backend) (m : machine) (c : cpu) : Z * cpu :=
  match cp_at c with
  | Outside => (i32 (guests_running m + 1), go_cpu Counted c)
  | Counted =>
      (guests_running m,
       match b with
       | SVM =>
           if cpu_tlb_gen c =? tlb_gen m
           then mk_cpu (Ready false) (cpu_tlb_gen c) (cp_tlb c) (bumps m)
           else mk_cpu (Ready true) (tlb_gen m) (cp_tlb c) (bumps m)
       | VMX => mk_cpu (Ready true) (cpu_tlb_gen c) (cp_tlb c) (bumps m)
       end)
  | Ready flush => (guests_running m, mk_cpu InGuest (cpu_tlb_gen c) (if flush then ∅ else cp_tlb c) (cp_since c))
  | InGuest => (guests_running m, go_cpu Exited c)
  | Exited => (i32 (guests_running m - 1), go_cpu Outside c)
  end.

(** ** The take *)
(** every CPU but the one the caller runs on *)
Definition other_cpus (own : nat) (l : list cpu) : list nat := filter (fun j => j <> own) (seq 0 (length l)).

(** vmctx_kick_guests; [own] is the CPU that executes it.  [None] while a CPU
    has not yet handled the interrupt: it does so with interrupts enabled, which
    is neither in the guest nor between the count and the decrement. *)
Definition kick_section (own : nat) (m : machine) (t : take) : option (machine * take) :=
  match tk_at t with
  | AtUnmap =>
      Some (mk_machine (delete (tk_page t) (page_table m)) (tlb_gen m) (guests_running m) (bumps m) (cpus m),
            mk_take (tk_page t) AtBump (tk_stamp t) true)
  | AtBump =>
      Some (mk_machine (page_table m) (u64 (tlb_gen m + 1)) (guests_running m) (bumps m + 1) (cpus m),
            mk_take (tk_page t) AtRead (bumps m + 1) (tk_clean t))
  | AtRead =>
      if guests_running m <=? 0 then Some (m, mk_take (tk_page t) Returned (tk_stamp t) (tk_clean t))
      else match cpus m !! own with
           | Some c => if decide (cp_at c = Outside)
                       then Some (m, mk_take (tk_page t) (AtIpi (other_cpus own (cpus m))) (tk_stamp t) (tk_clean t))
                       else None
           | None => None
           end
  | AtIpi [] => Some (m, mk_take (tk_page t) Returned (tk_stamp t) (tk_clean t))
  | AtIpi (j :: todo) =>
      match cpus m !! j with
      | Some c => if decide (cp_at c = Outside)
                  then Some (m, mk_take (tk_page t) (AtIpi todo) (tk_stamp t) (tk_clean t)) else None
      | None => Some (m, mk_take (tk_page t) (AtIpi todo) (tk_stamp t) (tk_clean t))
      end
  | Returned => Some (m, t)
  end.

(** ** Everything together *)
Definition put_cpu (i : nat) (c : cpu) (running : Z) (m : machine) : machine :=
  mk_machine (page_table m) (tlb_gen m) running (bumps m) (<[i := c]> (cpus m)).
Definition map_page (v f : Z) (m : machine) : machine :=
  mk_machine (<[v := f]> (page_table m)) (tlb_gen m) (guests_running m) (bumps m) (cpus m).
Definition fill (v f : Z) (m : machine) (c : cpu) : cpu :=
  mk_cpu (cp_at c) (cpu_tlb_gen c) (<[v := mk_translation f (bumps m)]> (cp_tlb c)) (cp_since c).
Definition evict (v : Z) (c : cpu) : cpu :=
  mk_cpu (cp_at c) (cpu_tlb_gen c) (delete v (cp_tlb c)) (cp_since c).
(** a take no longer stands for a page that was mapped again *)
Definition soil (v : Z) (t : take) : take :=
  mk_take (tk_page t) (tk_at t) (tk_stamp t) (tk_clean t && negb (tk_page t =? v)).

Record world := mk_world { w_machine : machine; w_takes : list take }.

Inductive tlb_step (b : backend) : world -> world -> Prop :=
| step_entry m ts i c :
    cpus m !! i = Some c ->
    tlb_step b (mk_world m ts)
      (mk_world (put_cpu i (entry_section b m c).2 (entry_section b m c).1 m) ts)
| step_begin m ts v : tlb_step b (mk_world m ts) (mk_world m (ts ++ [mk_take v AtUnmap 0 false]))
| step_kick m ts k t own m' t' :
    ts !! k = Some t -> kick_section own m t = Some (m', t') ->
    tlb_step b (mk_world m ts) (mk_world m' (<[k := t']> ts))
| step_fill m ts i c v f :
    cpus m !! i = Some c -> cp_at c = InGuest -> page_table m !! v = Some f ->
    tlb_step b (mk_world m ts) (mk_world (put_cpu i (fill v f m c) (guests_running m) m) ts)
| step_evict m ts i c v :
    cpus m !! i = Some c ->
    tlb_step b (mk_world m ts) (mk_world (put_cpu i (evict v c) (guests_running m) m) ts)
| step_map m ts v f :
    tlb_step b (mk_world m ts) (mk_world (map_page v f m) (soil v <$> ts)).

(** ATOMIC64_INIT(1), ATOMIC_INIT(0) and zeroed per-CPU words *)
Definition tlb_init (n : nat) : world :=
  mk_world (mk_machine ∅ 1 0 0 (replicate n (mk_cpu Outside 0 ∅ 0))) [].

(** ** Invariant *)
Definition counted (l : list cpu) : Z := Z.of_nat (length (filter (fun c => cp_at c <> Outside) l)).
Definition looked (p : cpu_point) : bool :=
  match p with Ready _ | InGuest | Exited => true | _ => false end.
(** the entries that hold only translations filled since the look *)
Definition settled (p : cpu_point) : bool :=
  match p with Ready false | InGuest | Exited => true | _ => false end.
Definition waits_for (p : take_point) : option (list nat) :=
  match p with AtIpi todo => Some todo | Returned => Some [] | _ => None end.
Definition bumped (p : take_point) : bool := match p with AtUnmap | AtBump => false | _ => true end.

Record cpu_ok (b : backend) (m : machine) (c : cpu) : Prop := {
  co_gen : 0 <= cpu_tlb_gen c <= bumps m + 1;
  co_past : forall v tr, cp_tlb c !! v = Some tr -> tr_stamp tr <= bumps m;
  co_since : looked (cp_at c) = true -> cp_since c <= bumps m;
  co_settled : settled (cp_at c) = true ->
    forall v tr, cp_tlb c !! v = Some tr -> cp_since c <= tr_stamp tr;
  co_svm : b = SVM ->
    (cp_at c <> Ready true -> forall v tr, cp_tlb c !! v = Some tr -> cpu_tlb_gen c <= tr_stamp tr + 1)
    /\ (looked (cp_at c) = true -> cpu_tlb_gen c = cp_since c + 1);
  co_vmx : b = VMX -> cp_at c <> Ready false }.

Record take_ok (m : machine) (t : take) : Prop := {
  to_stamp : bumped (tk_at t) = true -> tk_stamp t <= bumps m;
  to_clean : tk_clean t = true -> page_table m !! tk_page t = None;
  to_old : tk_clean t = true -> bumped (tk_at t) = true ->
    forall i c tr, cpus m !! i = Some c -> cp_tlb c !! tk_page t = Some tr -> tr_stamp tr < tk_stamp t;
  to_passed : forall todo i c, waits_for (tk_at t) = Some todo -> i ∉ todo ->
    cpus m !! i = Some c -> looked (cp_at c) = true -> tk_stamp t <= cp_since c }.

Record tlb_inv (b : backend) (n : nat) (w : world) : Prop := {
  ti_cpus : length (cpus (w_machine w)) = n;
  ti_bumps : 0 <= bumps (w_machine w);
  ti_gen : tlb_gen (w_machine w) = bumps (w_machine w) + 1;
  ti_running : guests_running (w_machine w) = counted (cpus (w_machine w));
  ti_cpu : forall i c, cpus (w_machine w) !! i = Some c -> cpu_ok b (w_machine w) c;
  ti_take : forall k t, w_takes w !! k = Some t -> take_ok (w_machine w) t }.

(** *** Counting *)
Definition weight (c : cpu) : Z := if decide (cp_at c = Outside) then 0 else 1.
Lemma counted_cons c l : counted (c :: l) = weight c + counted l.
Proof.
  unfold counted, weight. rewrite filter_cons.
  destruct (decide (cp_at c <> Outside)), (decide (cp_at c = Outside)); try done; simpl; lia.
Qed.
Lemma counted_insert l i c c' :
  l !! i = Some c -> counted (<[i := c']> l) = counted l - weight c + weight c'.
Proof.
  revert i. induction l as [|x l IH]; intros [|i] Hi; simplify_eq/=; rewrite !counted_cons; [lia|].
  rewrite (IH i) by done. lia.
Qed.
Lemma guests_counted_range l : 0 <= counted l <= Z.of_nat (length l).
Proof. unfold counted. pose proof (length_filter (fun c => cp_at c <> Outside) l). lia. Qed.
Lemma counted_zero l i c : counted l <= 0 -> l !! i = Some c -> cp_at c = Outside.
Proof.
  intros Hz Hi. destruct (decide (cp_at c = Outside)) as [|Hn]; [done|]. exfalso.
  assert (Hin : c ∈ filter (fun c => cp_at c <> Outside) l)
    by (apply list_elem_of_filter; eauto using list_elem_of_lookup_2).
  unfold counted in Hz. destruct (filter _ l); [by apply not_elem_of_nil in Hin|simpl in Hz; lia].
Qed.

(** *** The entry *)
Section entry.
Context (b : backend) (m : machine) (c : cpu).
Context (Hgen : tlb_gen m = bumps m + 1) (Hb : 0 <= bumps m) (Hok : cpu_ok b m c).

Lemma entry_cpu_ok : cpu_ok b m (entry_section b m c).2.
Proof.
  destruct Hok as [Hg Hp Hs Hse Hsvm Hvmx]. unfold entry_section.
  destruct (cp_at c) as [| |flush| |] eqn:Hat; simpl; [| |destruct flush| |].
  2:{ destruct b; [case_match eqn:He; [apply Z.eqb_eq in He|]|]; split; simpl; try done; try lia.
      - intros _ v tr Hv. destruct (Hsvm eq_refl) as [Hs1 _]. specialize (Hs1 ltac:(done) v tr Hv). lia.
      - intros _. destruct (Hsvm eq_refl) as [Hs1 _]. split; [intros _; by apply Hs1|lia]. }
  all: split; simpl; try done; auto.
  all: try (intros v tr; by rewrite lookup_empty); try (intros _ v tr; by rewrite lookup_empty).
  all: intros Hbb; destruct (Hsvm Hbb); split; auto; try done.
  all: intros _; solve [by auto | intros v tr; by rewrite lookup_empty | eauto].
Qed.
(** a CPU that looks at the generation looks at the present one *)
Lemma entry_since :
  looked (cp_at (entry_section b m c).2) = true ->
  cp_since (entry_section b m c).2 = bumps m \/
  (looked (cp_at c) = true /\ cp_since (entry_section b m c).2 = cp_since c).
Proof. unfold entry_section. destruct (cp_at c); simpl; repeat case_match; simpl; auto; done. Qed.
Lemma entry_tlb v tr : cp_tlb (entry_section b m c).2 !! v = Some tr -> cp_tlb c !! v = Some tr.
Proof.
  unfold entry_section. destruct (cp_at c) as [| |[]| |]; simpl; repeat case_match; simpl; auto; by rewrite lookup_empty.
Qed.
Lemma entry_weight :
  - 2 ^ 31 <= guests_running m - 1 -> guests_running m + 1 < 2 ^ 31 ->
  (entry_section b m c).1 = guests_running m - weight c + weight (entry_section b m c).2.
Proof.
  intros. unfold entry_section, weight, i32.
  destruct (cp_at c) eqn:Hat; simpl; rewrite ?Hat; repeat case_match; simpl; simplify_eq; try congruence;
    rewrite ?Z.mod_small; lia.
Qed.
End entry.
(** *** Preservation *)
Lemma cpu_ok_machine b m m' c :
  bumps m <= bumps m' -> cpu_ok b m c -> cpu_ok b m' c.
Proof.
  intros Hle [Hg Hp Hs Hse Hsvm Hvmx]. split; auto; [lia| |].
  - intros v tr Hv. specialize (Hp v tr Hv). lia.
  - intros Hl. specialize (Hs Hl). lia.
Qed.

Lemma take_ok_put m t i c c' r :
  cpus m !! i = Some c ->
  (forall tr, tk_clean t = true -> cp_tlb c' !! tk_page t = Some tr -> cp_tlb c !! tk_page t = Some tr) ->
  (looked (cp_at c') = true -> cp_since c' = bumps m \/ (looked (cp_at c) = true /\ cp_since c' = cp_since c)) ->
  take_ok m t -> take_ok (put_cpu i c' r m) t.
Proof.
  intros Hi Htlb Hl [Hst Hcl Hold Hpass]. split; simpl; auto.
  - intros Hc Hb j d tr Hj Hd. apply list_lookup_insert_Some in Hj as [(-> & <- & _)|[_ Hj]]; [|eauto].
    eapply Hold; eauto.
  - intros todo j d Hw Hn Hj Hd. apply list_lookup_insert_Some in Hj as [(<- & <- & _)|[_ Hj]]; [|eauto].
    destruct (Hl Hd) as [->|[Hlc ->]]; [|by eapply (Hpass todo i c)].
    apply Hst. by destruct (tk_at t).
Qed.

Section preserved.
Context (b : backend) (n : nat) (Hn : Z.of_nat n < 2 ^ 31 - 1).

Lemma put_cpu_inv m ts i c c' r :
  cpus m !! i = Some c ->
  tlb_inv b n (mk_world m ts) ->
  r = guests_running m - weight c + weight c' ->
  cpu_ok b m c' ->
  (forall t tr, t ∈ ts -> tk_clean t = true ->
    cp_tlb c' !! tk_page t = Some tr -> cp_tlb c !! tk_page t = Some tr) ->
  (looked (cp_at c') = true -> cp_since c' = bumps m \/ (looked (cp_at c) = true /\ cp_since c' = cp_since c)) ->
  tlb_inv b n (mk_world (put_cpu i c' r m) ts).
Proof.
  intros Hi [Hlen Hb Hg Hr Hc Ht] -> Hok Htlb Hl. simpl in *. split; simpl; auto.
  - by rewrite length_insert.
  - rewrite (counted_insert _ _ c) by done. lia.
  - intros j d Hj. apply (cpu_ok_machine b m); [simpl; lia|].
    apply list_lookup_insert_Some in Hj as [(_ & <- & _)|[_ Hj]]; [done|eauto].
  - intros k t Hk. eapply take_ok_put; [done| |done|by eauto].
    intros tr Hcl Htr. eapply Htlb; eauto using list_elem_of_lookup_2.
Qed.

Lemma entry_inv m ts i c :
  cpus m !! i = Some c -> tlb_inv b n (mk_world m ts) ->
  tlb_inv b n (mk_world (put_cpu i (entry_section b m c).2 (entry_section b m c).1 m) ts).
Proof.
  intros Hi Hinv. pose proof Hinv as [Hlen Hb Hg Hr Hc Ht]. simpl in *.
  pose proof (guests_counted_range (cpus m)) as Hrange.
  eapply put_cpu_inv; eauto using entry_cpu_ok, entry_tlb, entry_since.
  eapply entry_weight; eauto; lia.
Qed.

Lemma fill_inv m ts i c v f :
  cpus m !! i = Some c -> cp_at c = InGuest -> page_table m !! v = Some f ->
  tlb_inv b n (mk_world m ts) ->
  tlb_inv b n (mk_world (put_cpu i (fill v f m c) (guests_running m) m) ts).
Proof.
  intros Hi Hat Hv Hinv. pose proof Hinv as [Hlen Hb Hg Hr Hc Ht]. simpl in *.
  eapply put_cpu_inv; [done|done|unfold weight; simpl; case_decide; lia| | |by right].
  - destruct (Hc _ _ Hi) as [Hcg Hp Hs Hse Hsvm Hvmx]. split; simpl; auto.
    + intros w tr Hw. apply lookup_insert_Some in Hw as [[<- <-]|[_ Hw]]; simpl; [lia|eauto].
    + intros Hst w tr Hw. apply lookup_insert_Some in Hw as [[<- <-]|[_ Hw]]; simpl; [|eauto].
      apply Hs. by rewrite Hat.
    + intros Hbb. destruct (Hsvm Hbb) as [Hs1 Hs2]. split; [|done].
      intros Hne w tr Hw. apply lookup_insert_Some in Hw as [[<- <-]|[_ Hw]]; simpl; [lia|eauto].
  - intros t tr Hin Hcl. simpl. apply list_elem_of_lookup in Hin as [k Hk].
    rewrite lookup_insert_ne; [done|]. intros ->. pose proof (to_clean _ _ (Ht _ _ Hk) Hcl). congruence.
Qed.

Lemma evict_inv m ts i c v :
  cpus m !! i = Some c -> tlb_inv b n (mk_world m ts) ->
  tlb_inv b n (mk_world (put_cpu i (evict v c) (guests_running m) m) ts).
Proof.
  intros Hi Hinv. pose proof Hinv as [Hlen Hb Hg Hr Hc Ht]. simpl in *.
  assert (Hsub : forall w tr, cp_tlb (evict v c) !! w = Some tr -> cp_tlb c !! w = Some tr)
    by (intros w tr; simpl; by intros [_ ?]%lookup_delete_Some).
  eapply put_cpu_inv; [done|done|unfold weight; simpl; case_decide; lia| |eauto|by right].
  destruct (Hc _ _ Hi) as [Hcg Hp Hs Hse Hsvm Hvmx]. split; eauto.
  intros Hbb. destruct (Hsvm Hbb) as [Hs1 Hs2]. split; eauto.
Qed.

Lemma map_inv m ts v f :
  tlb_inv b n (mk_world m ts) -> tlb_inv b n (mk_world (map_page v f m) (soil v <$> ts)).
Proof.
  intros [Hlen Hb Hg Hr Hc Ht]. simpl in *. split; simpl; auto.
  - intros i c Hi. apply (cpu_ok_machine b m); [simpl; lia|eauto].
  - intros k t Hk. apply list_lookup_fmap_Some in Hk as (t' & -> & Hk).
    destruct (Ht _ _ Hk) as [Hst Hcl Hold Hpass]. split; simpl; auto.
    + intros [H1 H2]%andb_true_iff. apply negb_true_iff, Z.eqb_neq in H2.
      rewrite lookup_insert_ne by done. auto.
    + intros [H1 H2]%andb_true_iff Hbp i c tr Hi. eauto.
Qed.
End preserved.
Lemma take_ok_machine m m' t :
  bumps m <= bumps m' -> cpus m' = cpus m ->
  (forall v, page_table m !! v = None -> page_table m' !! v = None) ->
  take_ok m t -> take_ok m' t.
Proof.
  intros Hb Hc Hp [Hst Hcl Hold Hpass]. split; rewrite ?Hc; eauto.
  intros Hbp. specialize (Hst Hbp). lia.
Qed.

(** what a section of a take does to the machine and to itself *)
Lemma kick_machine b n own m ts t m' t' k :
  tlb_inv b n (mk_world m ts) -> ts !! k = Some t -> kick_section own m t = Some (m', t') ->
  bumps m' < 2 ^ 64 - 1 ->
  cpus m' = cpus m /\ guests_running m' = guests_running m /\ bumps m <= bumps m' /\
  tlb_gen m' = bumps m' + 1 /\
  (forall v, page_table m !! v = None -> page_table m' !! v = None) /\ take_ok m' t'.
Proof.
  intros Hinv Hk Hs Hbound. pose proof Hinv as [Hlen Hb Hg Hr Hc Ht]. simpl in *.
  pose proof (Ht _ _ Hk) as Hok. destruct (Ht _ _ Hk) as [Hst Hcl Hold Hpass].
  unfold kick_section in Hs. destruct (tk_at t) as [| | |[|j todo]|] eqn:Hat.
  - simplify_eq/=. split_and!; auto; try lia.
    + intros v Hv. apply lookup_delete_None. by right.
    + split; simpl; auto; try done. intros _. by rewrite lookup_delete_eq.
  - simplify_eq/=. rewrite u64_small by (unfold is_u64, U64MAX; lia). split_and!; auto; try lia.
    split; simpl; auto; try lia; try done.
    intros Hclean _ i c tr Hi Htr. pose proof (co_past _ _ _ (Hc _ _ Hi) _ _ Htr). lia.
  - destruct (guests_running m <=? 0) eqn:Hrun.
    + apply Z.leb_le in Hrun. simplify_eq/=. split_and!; auto; try lia. split; simpl; auto.
      intros todo i c _ _ Hi Hl. rewrite Hr in Hrun.
      pose proof (counted_zero _ _ _ Hrun Hi) as Ho. by rewrite Ho in Hl.
    + destruct (cpus m !! own) as [co|] eqn:Hown; [|done]. destruct (decide _) as [Ho|]; [|done]. simplify_eq/=.
      split_and!; auto; try lia. split; simpl; auto.
      intros todo i c [= <-] Hn Hi Hl. exfalso. destruct (decide (i = own)) as [->|Hne].
      * rewrite Hown in Hi. simplify_eq. by rewrite Ho in Hl.
      * apply Hn. unfold other_cpus. apply list_elem_of_filter. split; [done|].
        apply elem_of_seq. apply lookup_lt_Some in Hi. lia.
  - simplify_eq/=. split_and!; auto; try lia. split; simpl; auto.
  - assert (Hnext : (forall c, cpus m !! j = Some c -> cp_at c = Outside) ->
      take_ok m (mk_take (tk_page t) (AtIpi todo) (tk_stamp t) (tk_clean t))).
    { intros Hout. split; simpl; auto. intros todo' i c [= <-] Hn Hi Hl.
      destruct (decide (i = j)) as [->|Hne]; [by rewrite (Hout _ Hi) in Hl|].
      eapply (Hpass (j :: todo)); eauto. by rewrite not_elem_of_cons. }
    destruct (cpus m !! j) as [cj|] eqn:Hj; [destruct (decide (cp_at cj = Outside)) as [Ho|]; [|done]|];
      simplify_eq/=; split_and!; auto; try lia; apply Hnext; naive_solver.
  - simplify_eq/=. split_and!; auto; lia.
Qed.
Lemma tlb_step_inv b n w w' :
  Z.of_nat n < 2 ^ 31 - 1 -> (bumps (w_machine w) < 2 ^ 64 - 1 -> tlb_inv b n w) -> tlb_step b w w' ->
  bumps (w_machine w') < 2 ^ 64 - 1 -> tlb_inv b n w'.
Proof.
  intros Hn IH Hstep Hbound.
  destruct Hstep as [m ts i c Hi|m ts v|m ts k t own m' t' Hk Hs|m ts i c v f Hi Hat Hv|m ts i c v Hi|m ts v f];
    simpl in *.
  - by apply entry_inv; auto.
  - destruct (IH Hbound) as [Hlen Hb Hg Hr Hc Ht]. split; auto. simpl. intros k t Hk.
    apply lookup_app_Some in Hk as [Hk|[_ Hk]]; [eauto|].
    apply list_lookup_singleton_Some in Hk as [_ <-]. by split.
  - assert (Hb : bumps m <= bumps m').
    { unfold kick_section in Hs. repeat case_match; simplify_eq/=; lia. }
    specialize (IH ltac:(lia)). pose proof IH as [Hlen H0 Hg Hr Hc Ht]. simpl in *.
    destruct (kick_machine _ _ _ _ _ _ _ _ _ IH Hk Hs Hbound) as (Hc' & Hr' & _ & Hg' & Hp & Hok).
    split; simpl; rewrite ?Hc'; auto; [lia|congruence| |].
    + intros i c Hi. apply (cpu_ok_machine b m); eauto.
    + intros j s Hj. apply list_lookup_insert_Some in Hj as [(_ & <- & _)|[_ Hj]]; [done|].
      apply (take_ok_machine m); eauto.
  - by apply fill_inv; auto.
  - by apply evict_inv; auto.
  - by apply map_inv; auto.
Qed.

Lemma tlb_reachable b n w :
  Z.of_nat n < 2 ^ 31 - 1 -> steps (tlb_step b) (tlb_init n) w -> bumps (w_machine w) < 2 ^ 64 - 1 -> tlb_inv b n w.
Proof.
  intros Hn Hw. revert Hw.
  apply (steps_invariant (tlb_step b) (fun w => bumps (w_machine w) < 2 ^ 64 - 1 -> tlb_inv b n w));
    [intros s s' IH Hst; by apply (tlb_step_inv b n s)|].
  intros _. split; simpl; try done.
  - by rewrite length_replicate.
  - induction n as [|n IH]; [done|]. simpl. rewrite counted_cons, <- IH by lia. done.
  - intros i c [-> _]%lookup_replicate. split; simpl; try done. 
Qed.

(** ** What a guest can reach *)
(** through its TLB, or by a walk when the TLB has nothing *)
Definition reaches (m : machine) (c : cpu) (v f : Z) : Prop :=
  cp_at c = InGuest /\
  match cp_tlb c !! v with Some tr => tr_frame tr = f | None => page_table m !! v = Some f end.

(** ** Runs *)
Inductive action :=
| DoEntry (i : nat) | DoBegin (v : Z) | DoKick (k own : nat) | DoFill (i : nat) (v : Z)
| DoEvict (i : nat) (v : Z) | DoMap (v f : Z).
Definition act (b : backend) (a : action) (w : world) : option world :=
  let m := w_machine w in
  match a with
  | DoEntry i =>
      c ← cpus m !! i; let '(r, c') := entry_section b m c in Some (mk_world (put_cpu i c' r m) (w_takes w))
  | DoBegin v => Some (mk_world m (w_takes w ++ [mk_take v AtUnmap 0 false]))
  | DoKick k own =>
      t ← w_takes w !! k; '(m', t') ← kick_section own m t; Some (mk_world m' (<[k := t']> (w_takes w)))
  | DoFill i v =>
      c ← cpus m !! i; f ← page_table m !! v;
      if decide (cp_at c = InGuest)
      then Some (mk_world (put_cpu i (fill v f m c) (guests_running m) m) (w_takes w)) else None
  | DoEvict i v =>
      c ← cpus m !! i; Some (mk_world (put_cpu i (evict v c) (guests_running m) m) (w_takes w))
  | DoMap v f => Some (mk_world (map_page v f m) (soil v <$> w_takes w))
  end.
Fixpoint run (b : backend) (l : list action) (w : world) : option world :=
  match l with [] => Some w | a :: l => w ← act b a w; run b l w end.

Lemma act_step b a w w' : act b a w = Some w' -> tlb_step b w w'.
Proof.
  destruct w as [m ts], a as [i|v|k own|i v|i v|v f]; simpl; intros H.
  - destruct (cpus m !! i) as [c|] eqn:Hi; simplify_eq/=. pose proof (step_entry b m ts i c Hi) as Hs.
    destruct (entry_section b m c). by simplify_eq/=.
  - simplify_eq. constructor.
  - destruct (ts !! k) as [t|] eqn:Hk; simplify_eq/=.
    destruct (kick_section own m t) as [[m' t']|] eqn:Hs; simplify_eq/=. by econstructor.
  - destruct (cpus m !! i) as [c|] eqn:Hi; simplify_eq/=.
    destruct (page_table m !! v) as [f|] eqn:Hv; simplify_eq/=. destruct (decide _); simplify_eq/=. by econstructor.
  - destruct (cpus m !! i) as [c|] eqn:Hi; simplify_eq/=. by econstructor.
  - simplify_eq. constructor.
Qed.
Lemma run_steps b l w w' : run b l w = Some w' -> steps (tlb_step b) w w'.
Proof.
  revert w. induction l as [|a l IH]; intros w H; simplify_eq/=; [apply steps_refl|].
  destruct (act b a w) as [w1|] eqn:Ha; simplify_eq/=.
  eapply steps_trans; [eapply steps_next; [apply steps_refl|by eapply act_step]|auto].
Qed.

(** ** The property *)
(** C4: once vmctx_kick_guests has returned, no CPU executes its guest on a
    translation older than the call, in any interleaving of takes, entries,
    fills and evictions and on both backends: an entry that was running has been
    interrupted and a later one flushes.  A page that was unmapped before the
    call and not mapped again is out of reach of every guest, and the count the
    decision rests on is exactly the number of CPUs inside an entry. *)
Theorem kick_retires_translations b n w k t :
  Z.of_nat n < 2 ^ 31 - 1 -> steps (tlb_step b) (tlb_init n) w -> bumps (w_machine w) < 2 ^ 64 - 1 ->
  w_takes w !! k = Some t -> tk_at t = Returned ->
  (forall i c v tr, cpus (w_machine w) !! i = Some c -> cp_at c = InGuest ->
     cp_tlb c !! v = Some tr -> tk_stamp t <= tr_stamp tr) /\
  (tk_clean t = true -> forall i c f, cpus (w_machine w) !! i = Some c -> ~ reaches (w_machine w) c (tk_page t) f) /\
  guests_running (w_machine w) = counted (cpus (w_machine w)).
Proof.
  intros Hn Hw Hb Hk Hat. destruct (tlb_reachable b n w Hn Hw Hb) as [Hlen H0 Hg Hr Hc Ht].
  destruct (Ht _ _ Hk) as [Hst Hcl Hold Hpass]. rewrite Hat in *.
  assert (Hnew : forall i c v tr, cpus (w_machine w) !! i = Some c -> cp_at c = InGuest ->
     cp_tlb c !! v = Some tr -> tk_stamp t <= tr_stamp tr).
  { intros i c v tr Hi Hin Htr. trans (cp_since c).
    - eapply (Hpass [] i c); [done|apply not_elem_of_nil|done|by rewrite Hin].
    - eapply co_settled; eauto. by rewrite Hin. }
  split_and!; [done| |done].
  intros Hclean i c f Hi [Hin Hreach]. destruct (cp_tlb c !! tk_page t) as [tr|] eqn:Htr.
  - specialize (Hold Hclean eq_refl i c tr Hi Htr). specialize (Hnew i c _ tr Hi Hin Htr). lia.
  - rewrite (Hcl Hclean) in Hreach. done.
Qed.

(** A guest on CPU 0 has the page cached when it is taken from CPU 1: it is
    interrupted, enters again and finds the page gone. *)
Definition demo_actions : list action :=
  [DoMap 7 42; DoEntry 0; DoEntry 0; DoEntry 0; DoFill 0 7; DoBegin 7; DoKick 0 1; DoKick 0 1; DoKick 0 1;
   DoEntry 0; DoEntry 0; DoKick 0 1; DoKick 0 1; DoEntry 0; DoEntry 0; DoEntry 0].
Lemma kick_retires_translations_witness :
  exists w t c, run SVM demo_actions (tlb_init 2) = Some w /\ w_takes w !! 0%nat = Some t /\
    cpus (w_machine w) !! 0%nat = Some c /\ cp_at c = InGuest /\ tk_at t = Returned /\
    ~ reaches (w_machine w) c 7 42.
Proof.
  destruct (run SVM demo_actions (tlb_init 2)) as [w|] eqn:Hrun; [|by vm_compute in Hrun].
  pose proof (run_steps _ _ _ _ Hrun) as Hs. vm_compute in Hrun. injection Hrun as Hw.
  eexists w, _, _. split; [done|].
  split; [by rewrite <- Hw|]. split; [by rewrite <- Hw|]. split; [done|]. split; [done|].
  refine (proj1 (proj2 (kick_retires_translations SVM 2 w 0 (mk_take 7 Returned 1 true) _ Hs _ _ _)) _ 0%nat _ 42 _);
    rewrite <- ?Hw; done.
Defined.
End GuestTlb.
