(* ===== verification/Vmcs.v ===== *)
(** * VMCS residency (kernel/vmctx.c, Intel backend)

    A VMCS may be active on one CPU only, its fields are reachable only while it
    is the current one of a CPU, and VMLAUNCH and VMRESUME each require the
    launch state they are named after.  vmx_make_current, vmx_release and
    vmx_clear_here keep vmx_cur (per CPU), loaded_cpu and gctx.launched (per run)
    in step with that hidden state; vmx_enter_once and vmx_be_create bracket
    every use between a load and a release with preemption disabled.

    [machine] holds the software state and, separately, the processor's:
    [hw_cur], the launch state and the set of CPUs a VMCS is active on.  The
    fields of a VMCS are named by the constants the code writes them with.
    [section] is the code of one entry (or creation) between two points where
    another CPU may act, and [vmcs_step] interleaves any number of runs; two
    sections never share a CPU, because preemption is disabled. *)
From S2P Require Import Prelude.
From stdpp Require Import strings functions.
Open Scope Z_scope.

Module Vmcs.

(** ** State *)
Record vmcs := mk_vmcs { vc_launched : bool; vc_active : list nat; vc_field : gmap string Z }.

Record exit_info := mk_exit {
  exit_reason : Z; intr_info : Z; intr_error : Z; instr_len : Z; exit_qual : Z; gpa : Z }.

Inductive point := Idle | AtLoad (create : bool) | AtBuild | AtWrite (reloaded : bool) | AtEnter | AtRead | AtOut.
#[global] Instance point_eq_dec : EqDecision point.
Proof. solve_decision. Defined.

(** struct vmx_run; [vr_at] and [vr_cpu] say where its task is *)
Record vmx_run := mk_run {
  rip : Z; rsp : Z; rflags : Z; cr3 : Z; fs_base : Z; gs_base : Z;
  loaded_cpu : Z; launched : bool;
  vm_cached : bool; vm_cr3 : Z; vm_fs : Z; vm_gs : Z; vm_host_fs : Z;
  vr_exit : exit_info; vr_at : point; vr_cpu : nat }.

Record machine := mk_machine {
  hw_cur : nat -> option nat; hw_vmcs : gmap nat vmcs;
  vmx_cur : nat -> option nat; runs : gmap nat vmx_run;
  on_cpu : nat -> option nat }.

(** ** The processor *)
Definition set_hw (f : nat -> option nat) (h : gmap nat vmcs) (m : machine) : machine :=
  mk_machine f h (vmx_cur m) (runs m) (on_cpu m).
Definition set_cur (c : nat) (o : option nat) (m : machine) : machine :=
  mk_machine (hw_cur m) (hw_vmcs m) (<[c := o]> (vmx_cur m)) (runs m) (on_cpu m).
Definition upd_run (r : nat) (f : vmx_run -> vmx_run) (m : machine) : machine :=
  mk_machine (hw_cur m) (hw_vmcs m) (vmx_cur m) (alter f r (runs m)) (on_cpu m).

(** VMCLEAR: the region is written back, no longer active here, launch state clear *)
Definition vmclear (c r : nat) (m : machine) : machine :=
  set_hw (if decide (hw_cur m c = Some r) then <[c := None]> (hw_cur m) else hw_cur m)
    (alter (fun v => mk_vmcs false (filter (fun j => j <> c) (vc_active v)) (vc_field v)) r (hw_vmcs m)) m.
(** VMPTRLD: active and current here *)
Definition vmptrld (c r : nat) (m : machine) : machine :=
  set_hw (<[c := Some r]> (hw_cur m))
    (alter (fun v => mk_vmcs (vc_launched v) (c :: filter (fun j => j <> c) (vc_active v)) (vc_field v)) r (hw_vmcs m)) m.
(** VMWRITE and VMREAD act on the current VMCS of the CPU *)
Definition vmcs_write (c : nat) (w : list (string * Z)) (m : machine) : machine :=
  match hw_cur m c with
  | Some r => set_hw (hw_cur m)
      (alter (fun v => mk_vmcs (vc_launched v) (vc_active v) (list_to_map w ∪ vc_field v)) r (hw_vmcs m)) m
  | None => m
  end.
Definition vmcs_read (c : nat) (m : machine) (f : string) : Z :=
  match hw_cur m c with
  | Some r => match hw_vmcs m !! r with Some v => default 0 (vc_field v !! f) | None => 0 end
  | None => 0
  end.

(** ** The fields set when a context is created *)
(** Settle one control field against its capability MSR: [None] is a read that
    faulted.  Bits of the low half must be 1, bits clear in the high half 0. *)
Definition vmx_adjust_ctl (msr : option Z) (want : Z) : Z :=
  match msr with
  | None => want
  | Some v => (want .| u32 v) .& u32 (v .>> 32)
  end.
Definition PIN_WANT : Z := 0x9.          (* external interrupts, NMIs *)
Definition CPU_WANT : Z := 0x90000000.   (* secondary controls, MSR bitmaps *)
Definition SECONDARY_EXEC_ENABLE_EPT : Z := 0x2.
Definition SECONDARY_WANT : Z := 0x8a.   (* EPT, unrestricted guest, RDTSCP *)
Definition EXIT_WANT : Z := 0x300200.    (* 64-bit host, save and load EFER *)
Definition ENTRY_WANT : Z := 0x8200.     (* IA-32e mode, load EFER *)
Definition EFER_SCE : Z := 1.
Definition X86_CR4_VMXE : Z := 0x2000.
Definition EPTP_FLAGS : Z := 0x1e.       (* write-back, four levels *)
Definition EXCEPTION_MASK : Z := 0xffffffff .& Z.lnot 0x40084.  (* all but NMI, #NM, #MC *)
(** what vmx_build_vmcs reads: the capability MSRs (TRUE ones when bit 55 of
    VMX_BASIC is set), the registers of the CPU it runs on, and two addresses *)
Record build_env := mk_build {
  be_pin : option Z; be_cpu : option Z; be_secondary : option Z; be_exit : option Z; be_entry : option Z;
  be_cr0 : Z; be_cr3 : Z; be_cr4 : Z; be_efer : Z; be_gdt : Z; be_idt : Z; be_tss : Z;
  be_fs : Z; be_gs : Z; be_sysenter_esp : Z; be_sysenter_eip : Z; be_sysenter_cs : Z;
  be_kernel_cs : Z; be_kernel_ds : Z; be_tr_sel : Z; be_bitmap : Z; be_ept : Z }.
Definition vmx_build_vmcs (e : build_env) : option (list (string * Z)) :=
  let secondary := vmx_adjust_ctl (be_secondary e) SECONDARY_WANT in
  if (secondary .& SECONDARY_EXEC_ENABLE_EPT) =? 0 then None else Some
  [("PIN_BASED_VM_EXEC_CONTROL", vmx_adjust_ctl (be_pin e) PIN_WANT);
   ("CPU_BASED_VM_EXEC_CONTROL", vmx_adjust_ctl (be_cpu e) CPU_WANT);
   ("SECONDARY_VM_EXEC_CONTROL", secondary);
   ("VM_EXIT_CONTROLS", vmx_adjust_ctl (be_exit e) EXIT_WANT);
   ("VM_ENTRY_CONTROLS", vmx_adjust_ctl (be_entry e) ENTRY_WANT);
   ("VM_EXIT_MSR_STORE_COUNT", 0); ("VM_EXIT_MSR_LOAD_COUNT", 0); ("VM_ENTRY_MSR_LOAD_COUNT", 0);
   ("VM_ENTRY_INTR_INFO_FIELD", 0); ("MSR_BITMAP", be_bitmap e);
   ("EXCEPTION_BITMAP", EXCEPTION_MASK); ("PAGE_FAULT_ERROR_CODE_MASK", 0); ("PAGE_FAULT_ERROR_CODE_MATCH", 0);
   ("EPT_POINTER", be_ept e .| EPTP_FLAGS); ("VMCS_LINK_POINTER", U64MAX);
   ("HOST_CR0", be_cr0 e); ("HOST_CR3", be_cr3 e); ("HOST_CR4", be_cr4 e .| X86_CR4_VMXE);
   ("HOST_CS_SELECTOR", be_kernel_cs e); ("HOST_SS_SELECTOR", be_kernel_ds e);
   ("HOST_DS_SELECTOR", be_kernel_ds e); ("HOST_ES_SELECTOR", be_kernel_ds e);
   ("HOST_FS_SELECTOR", 0); ("HOST_GS_SELECTOR", 0); ("HOST_TR_SELECTOR", be_tr_sel e);
   ("HOST_GDTR_BASE", be_gdt e); ("HOST_IDTR_BASE", be_idt e); ("HOST_TR_BASE", be_tss e);
   ("HOST_FS_BASE", be_fs e); ("HOST_GS_BASE", be_gs e);
   ("HOST_IA32_SYSENTER_ESP", be_sysenter_esp e); ("HOST_IA32_SYSENTER_EIP", be_sysenter_eip e);
   ("HOST_IA32_SYSENTER_CS", u32 (be_sysenter_cs e)); ("HOST_IA32_EFER", be_efer e);
   ("GUEST_CR0", be_cr0 e); ("GUEST_CR4", be_cr4 e .| X86_CR4_VMXE);
   ("CR0_GUEST_HOST_MASK", 0); ("CR4_GUEST_HOST_MASK", 0); ("CR0_READ_SHADOW", be_cr0 e); ("CR4_READ_SHADOW", be_cr4 e);
   ("GUEST_IA32_EFER", Z.ldiff (be_efer e) EFER_SCE);
   ("GUEST_CS_SELECTOR", 0x33); ("GUEST_CS_BASE", 0); ("GUEST_CS_LIMIT", 0xffffffff); ("GUEST_CS_AR_BYTES", 0xa0fb);
   ("GUEST_SS_SELECTOR", 0x2b); ("GUEST_SS_BASE", 0); ("GUEST_SS_LIMIT", 0xffffffff); ("GUEST_SS_AR_BYTES", 0xc0f3);
   ("GUEST_DS_SELECTOR", 0x2b); ("GUEST_DS_BASE", 0); ("GUEST_DS_LIMIT", 0xffffffff); ("GUEST_DS_AR_BYTES", 0xc0f3);
   ("GUEST_ES_SELECTOR", 0x2b); ("GUEST_ES_BASE", 0); ("GUEST_ES_LIMIT", 0xffffffff); ("GUEST_ES_AR_BYTES", 0xc0f3);
   ("GUEST_FS_SELECTOR", 0); ("GUEST_FS_LIMIT", 0xffffffff); ("GUEST_FS_AR_BYTES", 0xc0f3);
   ("GUEST_GS_SELECTOR", 0); ("GUEST_GS_LIMIT", 0xffffffff); ("GUEST_GS_AR_BYTES", 0xc0f3);
   ("GUEST_LDTR_SELECTOR", 0); ("GUEST_LDTR_BASE", 0); ("GUEST_LDTR_LIMIT", 0); ("GUEST_LDTR_AR_BYTES", 0x10000);
   ("GUEST_TR_SELECTOR", 0); ("GUEST_TR_BASE", 0); ("GUEST_TR_LIMIT", 0xffff); ("GUEST_TR_AR_BYTES", 0x8b);
   ("GUEST_GDTR_BASE", 0); ("GUEST_GDTR_LIMIT", 0xffff); ("GUEST_IDTR_BASE", 0); ("GUEST_IDTR_LIMIT", 0xffff);
   ("GUEST_DR7", 0x400); ("GUEST_ACTIVITY_STATE", 0); ("GUEST_INTERRUPTIBILITY_INFO", 0);
   ("GUEST_PENDING_DBG_EXCEPTIONS", 0); ("GUEST_SYSENTER_CS", 0); ("GUEST_SYSENTER_ESP", 0); ("GUEST_SYSENTER_EIP", 0)].

(** the per-CPU host state, read on the CPU of the entry *)
Record host_state := mk_host { h_gdtr : Z; h_idtr : Z; h_tr : Z; h_cr3 : Z; h_gs : Z; h_sysenter_esp : Z }.
Definition host_writes (h : host_state) : list (string * Z) :=
  [("HOST_GDTR_BASE", h_gdtr h); ("HOST_IDTR_BASE", h_idtr h); ("HOST_TR_BASE", h_tr h); ("HOST_CR3", h_cr3 h);
   ("HOST_GS_BASE", h_gs h); ("HOST_IA32_SYSENTER_ESP", h_sysenter_esp h)].

Section code.
(** whether VMCLEAR accepts the address of a region: it depends on the address alone *)
Context (clear_ok : nat -> bool).

(** ** Residency *)
Definition unload (x : vmx_run) : vmx_run :=
  mk_run (rip x) (rsp x) (rflags x) (cr3 x) (fs_base x) (gs_base x) (-1) false
    (vm_cached x) (vm_cr3 x) (vm_fs x) (vm_gs x) (vm_host_fs x) (vr_exit x) (vr_at x) (vr_cpu x).
Definition vmx_clear_here (c r : nat) (m : machine) : machine :=
  upd_run r unload
    (if decide (vmx_cur m c = Some r)
     then set_cur c None (if clear_ok r then vmclear c r m else m) else m).
(** the interrupt of smp_call_function_single runs on the other CPU before it returns *)
Definition vmx_release (c r : nat) (m : machine) : machine :=
  match runs m !! r with
  | Some x => if loaded_cpu x <? 0 then m
              else if loaded_cpu x =? Z.of_nat c then vmx_clear_here c r m
              else vmx_clear_here (Z.to_nat (loaded_cpu x)) r m
  | None => m
  end.
Definition load (c : nat) (x : vmx_run) : vmx_run :=
  mk_run (rip x) (rsp x) (rflags x) (cr3 x) (fs_base x) (gs_base x) (Z.of_nat c) false
    false (vm_cr3 x) (vm_fs x) (vm_gs x) (vm_host_fs x) (vr_exit x) (vr_at x) (vr_cpu x).
Definition vmx_make_current (load_ok : bool) (c r : nat) (x : vmx_run) (m : machine) : Z * machine :=
  let cur := vmx_cur m c in
  if bool_decide (cur = Some r) && (loaded_cpu x =? Z.of_nat c) then (0, m)
  else
    let m := if (0 <=? loaded_cpu x) && negb (loaded_cpu x =? Z.of_nat c)
             then vmx_clear_here (Z.to_nat (loaded_cpu x)) r m else m in
    let m := match cur with
             | Some r' => if decide (r' = r) then m else vmx_clear_here c r' m
             | None => m
             end in
    let m := set_cur c None m in
    if clear_ok r then
      let m := vmclear c r m in
      if load_ok then (1, upd_run r (load c) (set_cur c (Some r) (vmptrld c r m))) else (-1, m)
    else (-1, m).

(** ** One entry *)
Definition X86_EFLAGS_FIXED : Z := 2.
(** What the processor and the rest of the kernel answer in a section. *)
Record answers := mk_answers {
  an_ready : bool;        (* execution gate, CPU model, VMX root and INVEPT all passed *)
  an_load : bool;         (* VMPTRLD succeeded *)
  an_build : build_env;   (* what vmx_build_vmcs reads *)
  an_entry : Z * Z;       (* entry and stack of a new context *)
  an_cr3 : Z; an_tls : Z * Z;     (* vmx_guest_cr3_of, vmx_sync_tls_bases *)
  an_cr4 : Z;             (* vmctx_guest_cr4 *)
  an_host : host_state;   (* the per-CPU host state read on this CPU *)
  an_host_fs : Z;         (* MSR_FS_BASE *)
  an_enters : bool;       (* the remaining checks of VM entry pass *)
  an_guest : list (string * Z) }. (* what the guest leaves in the VMCS *)

Definition go (p : point) (x : vmx_run) : vmx_run :=
  mk_run (rip x) (rsp x) (rflags x) (cr3 x) (fs_base x) (gs_base x) (loaded_cpu x) (launched x)
    (vm_cached x) (vm_cr3 x) (vm_fs x) (vm_gs x) (vm_host_fs x) (vr_exit x) p (vr_cpu x).
(** r->rip .. of vmx_build_vmcs *)
Definition built (a : answers) (x : vmx_run) : vmx_run :=
  mk_run (fst (an_entry a)) (snd (an_entry a)) X86_EFLAGS_FIXED (an_cr3 a) (fst (an_tls a)) (snd (an_tls a))
    (loaded_cpu x) (launched x) (vm_cached x) (vm_cr3 x) (vm_fs x) (vm_gs x) (vm_host_fs x) (vr_exit x) AtOut (vr_cpu x).

(** the fields written before an entry, given the write cache *)
Definition entry_writes (a : answers) (reloaded : bool) (x : vmx_run) : list (string * Z) :=
  [("GUEST_CR4", an_cr4 a); ("GUEST_RIP", rip x); ("GUEST_RSP", rsp x); ("GUEST_RFLAGS", rflags x .| X86_EFLAGS_FIXED)]
  ++ (if negb (vm_cached x) || negb (vm_cr3 x =? cr3 x) then [("GUEST_CR3", cr3 x)] else [])
  ++ (if negb (vm_cached x) || negb (vm_fs x =? fs_base x) then [("GUEST_FS_BASE", fs_base x)] else [])
  ++ (if negb (vm_cached x) || negb (vm_gs x =? gs_base x) then [("GUEST_GS_BASE", gs_base x)] else [])
  ++ (if negb (vm_cached x) || negb (vm_host_fs x =? an_host_fs a) then [("HOST_FS_BASE", an_host_fs a)] else [])
  ++ (if reloaded then host_writes (an_host a) else []).
Definition written (a : answers) (x : vmx_run) : vmx_run :=
  mk_run (rip x) (rsp x) (rflags x) (cr3 x) (fs_base x) (gs_base x) (loaded_cpu x) (launched x)
    true (cr3 x) (fs_base x) (gs_base x) (an_host_fs a) (vr_exit x) AtEnter (vr_cpu x).

(** vmctx_vmx_enter: VMRESUME when launched, VMLAUNCH otherwise; a VMCS in the
    other launch state makes the instruction fail *)
Definition entry_state_ok (x : vmx_run) (v : vmcs) : bool := Bool.eqb (launched x) (vc_launched v).
Definition guest_ran (a : answers) (v : vmcs) : vmcs :=
  mk_vmcs true (vc_active v) (list_to_map (an_guest a) ∪ vc_field v).

Definition EXIT_REASON_EXCEPTION_NMI : Z := 0.
Definition EXIT_REASON_EXTERNAL_INTERRUPT : Z := 1.
Definition EXIT_REASON_CPUID : Z := 10.
Definition EXIT_REASON_EPT_VIOLATION : Z := 48.
Definition EXIT_REASON_EPT_MISCONFIG : Z := 49.
(** only the fields the reason gives a meaning to *)
Definition read_exit (rd : string -> Z) (old_gpa : Z) : exit_info :=
  let reason := u32 (rd "VM_EXIT_REASON") in
  let basic := reason .& 0xffff in
  let g := if (basic =? EXIT_REASON_EPT_VIOLATION) || (basic =? EXIT_REASON_EPT_MISCONFIG)
           then rd "GUEST_PHYSICAL_ADDRESS" else old_gpa in
  if basic =? EXIT_REASON_EXCEPTION_NMI then
    let info := u32 (rd "VM_EXIT_INTR_INFO") in
    let type := (info .>> 8) .& 7 in
    let vector := info .& 0xff in
    mk_exit reason info
      (if nz (info .& 0x800) then u32 (rd "VM_EXIT_INTR_ERROR_CODE") else 0)
      (if (type =? 6) || (type =? 5) || (type =? 4) then u32 (rd "VM_EXIT_INSTRUCTION_LEN") else 0)
      (if (vector =? 14) || (vector =? 1) then rd "EXIT_QUALIFICATION" else 0) g
  else if basic =? EXIT_REASON_CPUID then mk_exit reason 0 0 (u32 (rd "VM_EXIT_INSTRUCTION_LEN")) 0 g
  else if basic =? EXIT_REASON_EXTERNAL_INTERRUPT then mk_exit reason 0 0 0 0 g
  else mk_exit reason 0 0 0 (rd "EXIT_QUALIFICATION") g.
Definition captured (rd : string -> Z) (x : vmx_run) : vmx_run :=
  mk_run (rd "GUEST_RIP") (rd "GUEST_RSP") (rd "GUEST_RFLAGS") (cr3 x) (rd "GUEST_FS_BASE") (rd "GUEST_GS_BASE")
    (loaded_cpu x) true (vm_cached x) (vm_cr3 x) (rd "GUEST_FS_BASE") (rd "GUEST_GS_BASE") (vm_host_fs x)
    (read_exit rd (gpa (vr_exit x))) AtOut (vr_cpu x).

(** vmx_enter_once and the critical section of vmx_be_create *)
Definition section (a : answers) (c r : nat) (m : machine) : machine :=
  match runs m !! r with
  | None => m
  | Some x =>
      match vr_at x with
      | Idle => m
      | AtLoad create =>
          if an_ready a then
            let '(reloaded, m) := vmx_make_current (an_load a) c r x m in
            upd_run r (go (if reloaded <? 0 then AtOut else if create then AtBuild else AtWrite (reloaded =? 1))) m
          else upd_run r (go AtOut) m
      | AtBuild =>
          match vmx_build_vmcs (an_build a) with
          | Some fields => upd_run r (built a) (vmcs_write c fields m)
          | None => upd_run r (go AtOut) m
          end
      | AtWrite reloaded => upd_run r (written a) (vmcs_write c (entry_writes a reloaded x) m)
      | AtEnter =>
          match hw_cur m c with
          | Some h =>
              match hw_vmcs m !! h with
              | Some v =>
                  if entry_state_ok x v && an_enters a
                  then upd_run r (go AtRead) (set_hw (hw_cur m) (<[h := guest_ran a v]> (hw_vmcs m)) m)
                  else upd_run r (go AtOut) (vmx_release c r m)
              | None => upd_run r (go AtOut) (vmx_release c r m)
              end
          | None => upd_run r (go AtOut) (vmx_release c r m)
          end
      | AtRead => upd_run r (captured (vmcs_read c m)) m
      | AtOut =>
          let m := vmx_release c r m in
          mk_machine (hw_cur m) (hw_vmcs m) (vmx_cur m) (alter (go Idle) r (runs m)) (<[c := None]> (on_cpu m))
      end
  end.

(** ** Everything together *)
(** vmx_run_alloc *)
Definition new_run : vmx_run :=
  mk_run 0 0 0 0 0 0 (-1) false false 0 0 0 0 (mk_exit 0 0 0 0 0 0) Idle 0.
Definition alloc_run (r : nat) (m : machine) : machine :=
  mk_machine (hw_cur m) (<[r := mk_vmcs false [] ∅]> (hw_vmcs m)) (vmx_cur m) (<[r := new_run]> (runs m)) (on_cpu m).
Definition begin_section (create : bool) (c r : nat) (x : vmx_run) (m : machine) : machine :=
  mk_machine (hw_cur m) (hw_vmcs m) (vmx_cur m)
    (<[r := mk_run (rip x) (rsp x) (rflags x) (cr3 x) (fs_base x) (gs_base x) (loaded_cpu x) (launched x) (vm_cached x)
              (vm_cr3 x) (vm_fs x) (vm_gs x) (vm_host_fs x) (vr_exit x) (AtLoad create) c]> (runs m))
    (<[c := Some r]> (on_cpu m)).
(** the registers the exit handler and the monitor give back between two entries *)
Definition set_regs (regs : Z * Z * Z * Z * Z * Z) (x : vmx_run) : vmx_run :=
  let '(ip, sp, fl, c3, fs, gs) := regs in
  mk_run ip sp fl c3 fs gs (loaded_cpu x) (launched x)
    (vm_cached x) (vm_cr3 x) (vm_fs x) (vm_gs x) (vm_host_fs x) (vr_exit x) (vr_at x) (vr_cpu x).
(** vmx_run_free: the pages are gone *)
Definition free_run (c r : nat) (m : machine) : machine :=
  let m := vmx_release c r m in
  mk_machine (hw_cur m) (delete r (hw_vmcs m)) (vmx_cur m) (delete r (runs m)) (on_cpu m).

Inductive vmcs_step : machine -> machine -> Prop :=
| step_alloc m r : runs m !! r = None -> hw_vmcs m !! r = None -> vmcs_step m (alloc_run r m)
| step_begin m create c r x :
    runs m !! r = Some x -> vr_at x = Idle -> on_cpu m c = None ->
    vmcs_step m (begin_section create c r x m)
| step_section m a c r : on_cpu m c = Some r -> vmcs_step m (section a c r m)
| step_regs m r x regs :
    runs m !! r = Some x -> vr_at x = Idle -> vmcs_step m (upd_run r (set_regs regs) m)
| step_free m c r x :
    runs m !! r = Some x -> vr_at x = Idle -> vmcs_step m (free_run c r m).

Definition vmcs_init : machine :=
  mk_machine (fun _ => None) ∅ (fun _ => None) ∅ (fun _ => None).
End code.
(** ** Invariant *)
Section invariant.
Context (clear_ok : nat -> bool).

Definition resident (x : vmx_run) : bool := 0 <=? loaded_cpu x.
Definition holding (p : point) : bool := match p with AtBuild | AtWrite _ | AtEnter | AtRead => true | _ => false end.
Definition unlaunched (p : point) : bool := match p with AtBuild | AtWrite _ | AtEnter => true | _ => false end.
(** the state the entry instruction finds in the VMCS *)
Definition entry_fields (x : vmx_run) (v : vmcs) : Prop :=
  vc_field v !! "GUEST_RIP" = Some (rip x) /\ vc_field v !! "GUEST_RSP" = Some (rsp x) /\
  vc_field v !! "GUEST_RFLAGS" = Some (rflags x .| X86_EFLAGS_FIXED) /\ vc_field v !! "GUEST_CR3" = Some (cr3 x) /\
  vc_field v !! "GUEST_FS_BASE" = Some (fs_base x) /\ vc_field v !! "GUEST_GS_BASE" = Some (gs_base x) /\
  vc_field v !! "HOST_FS_BASE" = Some (vm_host_fs x).

Record run_ok (m : machine) (r : nat) (x : vmx_run) (v : vmcs) : Prop := {
  ro_here : resident x = true ->
    loaded_cpu x = Z.of_nat (vr_cpu x) /\ vr_at x <> Idle /\ (forall b, vr_at x <> AtLoad b) /\
    vmx_cur m (vr_cpu x) = Some r /\ hw_cur m (vr_cpu x) = Some r /\ clear_ok r = true /\ vc_active v = [vr_cpu x];
  ro_away : resident x = false ->
    loaded_cpu x = -1 /\ launched x = false /\ vc_active v = [] /\ holding (vr_at x) = false;
  ro_clear : unlaunched (vr_at x) = true -> launched x = false /\ vc_launched v = false;
  ro_write : forall b, vr_at x = AtWrite b -> b = true /\ vm_cached x = false;
  ro_enter : vr_at x = AtEnter -> entry_fields x v;
  ro_on : vr_at x <> Idle -> on_cpu m (vr_cpu x) = Some r }.

Record vm_inv (m : machine) : Prop := {
  vi_none : forall r, runs m !! r = None -> hw_vmcs m !! r = None;
  vi_run : forall r x, runs m !! r = Some x -> exists v, hw_vmcs m !! r = Some v /\ run_ok m r x v;
  vi_cur : forall c r, vmx_cur m c = Some r -> exists x, runs m !! r = Some x /\ loaded_cpu x = Z.of_nat c;
  vi_hw : forall c r, hw_cur m c = Some r -> exists x, runs m !! r = Some x /\ loaded_cpu x = Z.of_nat c;
  vi_on : forall c r, on_cpu m c = Some r -> exists x, runs m !! r = Some x /\ vr_at x <> Idle /\ vr_cpu x = c }.

(** a section changes its own run, its own VMCS and its own CPU *)
Lemma inv_update m m' c r x' v' :
  vm_inv m -> on_cpu m c = Some r ->
  (forall s, s <> r -> runs m' !! s = runs m !! s /\ hw_vmcs m' !! s = hw_vmcs m !! s) ->
  (forall d, d <> c -> vmx_cur m' d = vmx_cur m d /\ hw_cur m' d = hw_cur m d /\ on_cpu m' d = on_cpu m d) ->
  runs m' !! r = Some x' -> hw_vmcs m' !! r = Some v' -> vr_cpu x' = c ->
  (forall o, vmx_cur m' c = Some o -> o = r /\ loaded_cpu x' = Z.of_nat c) ->
  (forall o, hw_cur m' c = Some o -> o = r /\ loaded_cpu x' = Z.of_nat c) ->
  (forall o, on_cpu m' c = Some o -> o = r /\ vr_at x' <> Idle) ->
  run_ok m' r x' v' -> vm_inv m'.
Proof.
  intros [Hnone Hrun Hcur Hhw Hon] Hc Hother Hcpus Hr' Hv' Hcpu Hcur' Hhw' Hon' Hok.
  assert (Helse : forall s x, s <> r -> runs m !! s = Some x -> vr_at x <> Idle -> vr_cpu x <> c).
  { intros s x Hne Hs Hni <-. destruct (Hrun _ _ Hs) as (v & _ & Hx). pose proof (ro_on _ _ _ _ Hx Hni). congruence. }
  assert (Hloaded : forall s x d, d <> c -> runs m !! s = Some x -> loaded_cpu x = Z.of_nat d -> s <> r).
  { intros s x d Hd Hs Hl ->. destruct (Hrun _ _ Hs) as (v & _ & Hx).
    destruct (ro_here _ _ _ _ Hx) as (Hlc & Hni & _); [unfold resident; apply Z.leb_le; lia|].
    destruct (Hon _ _ Hc) as (y & Hy & _ & Hyc). rewrite Hs in Hy. simplify_eq. lia. }
  split.
  - intros s Hs. destruct (decide (s = r)) as [->|Hne]; [congruence|].
    destruct (Hother s Hne) as [E1 E2]. rewrite E2. apply Hnone. congruence.
  - intros s x Hs. destruct (decide (s = r)) as [->|Hne]; [rewrite Hr' in Hs; simplify_eq; eauto|].
    destruct (Hother s Hne) as [E1 E2]. rewrite E1 in Hs. destruct (Hrun _ _ Hs) as (v & Hv & Hx).
    exists v. split; [congruence|]. destruct Hx as [Hh Ha Hcl Hw He Ho].
    split; auto.
    + intros Hres. destruct (Hh Hres) as (H1 & H2 & H3 & H4 & H5 & H6 & H7).
      destruct (Hcpus (vr_cpu x) (Helse _ _ Hne Hs H2)) as (-> & -> & _). auto 10.
    + intros Hni. destruct (Hcpus (vr_cpu x) (Helse _ _ Hne Hs Hni)) as (_ & _ & ->). auto.
  - intros d s Hs. destruct (decide (d = c)) as [->|Hd].
    + destruct (Hcur' _ Hs) as [-> ?]. eauto.
    + destruct (Hcpus d Hd) as (E & _ & _). rewrite E in Hs. destruct (Hcur _ _ Hs) as (x & Hx & Hl).
      exists x. split; [|done]. rewrite (proj1 (Hother s (Hloaded _ _ _ Hd Hx Hl))). done.
  - intros d s Hs. destruct (decide (d = c)) as [->|Hd].
    + destruct (Hhw' _ Hs) as [-> ?]. eauto.
    + destruct (Hcpus d Hd) as (_ & E & _). rewrite E in Hs. destruct (Hhw _ _ Hs) as (x & Hx & Hl).
      exists x. split; [|done]. rewrite (proj1 (Hother s (Hloaded _ _ _ Hd Hx Hl))). done.
  - intros d s Hs. destruct (decide (d = c)) as [->|Hd].
    + destruct (Hon' _ Hs) as [-> ?]. eauto.
    + destruct (Hcpus d Hd) as (_ & _ & E). rewrite E in Hs. destruct (Hon _ _ Hs) as (x & Hx & Hni & Hxc).
      exists x. split; [|done].
      destruct (decide (s = r)) as [->|Hne]; [destruct (Hon _ _ Hc) as (y & Hy & _ & Hyc); congruence|].
      by rewrite (proj1 (Hother s Hne)).
Qed.
Lemma section_facts m c r :
  vm_inv m -> on_cpu m c = Some r ->
  exists x v, runs m !! r = Some x /\ hw_vmcs m !! r = Some v /\ run_ok m r x v /\ vr_at x <> Idle /\ vr_cpu x = c /\
    (forall o, vmx_cur m c = Some o -> o = r /\ loaded_cpu x = Z.of_nat c) /\
    (forall o, hw_cur m c = Some o -> o = r /\ loaded_cpu x = Z.of_nat c).
Proof.
  intros Hinv Hc. destruct (vi_on _ Hinv _ _ Hc) as (x & Hx & Hni & Hxc).
  destruct (vi_run _ Hinv _ _ Hx) as (v & Hv & Hok).
  assert (Hcpu : forall o y, runs m !! o = Some y -> loaded_cpu y = Z.of_nat c -> o = r /\ loaded_cpu x = Z.of_nat c).
  { intros o y Hy Hl. destruct (vi_run _ Hinv _ _ Hy) as (w & _ & Hyok).
    destruct (ro_here _ _ _ _ Hyok) as (Hlc & Hyi & _); [unfold resident; apply Z.leb_le; lia|].
    pose proof (ro_on _ _ _ _ Hyok Hyi) as Hoy. replace (vr_cpu y) with c in Hoy by lia.
    assert (o = r) as -> by congruence. split; [done|congruence]. }
  exists x, v. split_and!; auto; intros o Ho.
  - destruct (vi_cur _ Hinv _ _ Ho) as (y & Hy & Hl). eauto.
  - destruct (vi_hw _ Hinv _ _ Ho) as (y & Hy & Hl). eauto.
Qed.

Definition others_kept (c r : nat) (m m' : machine) : Prop :=
  (forall s, s <> r -> runs m' !! s = runs m !! s /\ hw_vmcs m' !! s = hw_vmcs m !! s) /\
  (forall d, d <> c -> vmx_cur m' d = vmx_cur m d /\ hw_cur m' d = hw_cur m d /\ on_cpu m' d = on_cpu m d).
Lemma others_refl c r m : others_kept c r m m.
Proof. done. Qed.
Lemma vmcs_others_trans c r m1 m2 m3 : others_kept c r m1 m2 -> others_kept c r m2 m3 -> others_kept c r m1 m3.
Proof.
  intros [H1 H2] [H3 H4]. split.
  - intros s Hs. destruct (H1 s Hs), (H3 s Hs). split; congruence.
  - intros d Hd. destruct (H2 d Hd) as (?&?&?), (H4 d Hd) as (?&?&?). split_and!; congruence.
Qed.

Lemma fn_insert_at (f : nat -> option nat) c o : <[c := o]> f c = o.
Proof. apply fn_lookup_insert. Qed.
Lemma fn_insert_other (f : nat -> option nat) c d o : d <> c -> <[c := o]> f d = f d.
Proof. intros. by apply fn_lookup_insert_ne. Qed.

Lemma others_run c r m f : others_kept c r m (upd_run r f m).
Proof. split; [|done]. intros s Hs. simpl. by rewrite lookup_alter_ne. Qed.
Lemma others_cur c r m o : others_kept c r m (set_cur c o m).
Proof. split; [done|]. intros d Hd. simpl. by rewrite fn_insert_other. Qed.
Lemma others_clear c r m : others_kept c r m (vmclear c r m).
Proof.
  split; [intros s Hs; simpl; by rewrite lookup_alter_ne|]. intros d Hd. simpl.
  case_decide; [by rewrite fn_insert_other|done].
Qed.
Lemma others_load c r m : others_kept c r m (vmptrld c r m).
Proof.
  split; [intros s Hs; simpl; by rewrite lookup_alter_ne|]. intros d Hd. simpl. by rewrite fn_insert_other.
Qed.
Lemma others_hw c r m v : others_kept c r m (set_hw (hw_cur m) (<[r := v]> (hw_vmcs m)) m).
Proof. split; [|done]. intros s Hs. simpl. by rewrite lookup_insert_ne. Qed.

Lemma release_spec m c r x v :
  vm_inv m -> on_cpu m c = Some r -> runs m !! r = Some x -> hw_vmcs m !! r = Some v ->
  let m1 := vmx_release clear_ok c r m in
  others_kept c r m m1 /\ on_cpu m1 = on_cpu m /\ vmx_cur m1 c = None /\ hw_cur m1 c = None /\
  exists x1 v1, runs m1 !! r = Some x1 /\ hw_vmcs m1 !! r = Some v1 /\ loaded_cpu x1 = -1 /\ launched x1 = false /\
    vc_active v1 = [] /\ vr_at x1 = vr_at x /\ vr_cpu x1 = c.
Proof.
  intros Hinv Hc Hx Hv. destruct (section_facts _ _ _ Hinv Hc) as (x' & v' & Hx' & Hv' & Hok & Hni & Hcpu & Hcur & Hhw).
  simplify_eq. unfold vmx_release. rewrite Hx. case_match eqn:Hl.
  - apply Z.ltb_lt in Hl. destruct (ro_away _ _ _ _ Hok) as (Hl' & Hla & Hact & _); [unfold resident; apply Z.leb_gt; lia|].
    split_and!; auto using others_refl.
    + destruct (vmx_cur m (vr_cpu x)) as [o|] eqn:E; [|done]. destruct (Hcur _ eq_refl). lia.
    + destruct (hw_cur m (vr_cpu x)) as [o|] eqn:E; [|done]. destruct (Hhw _ eq_refl). lia.
    + exists x, v. auto 10.
  - apply Z.ltb_ge in Hl. destruct (ro_here _ _ _ _ Hok) as (Hlc & _ & _ & Hc1 & Hc2 & Hclr & Hact);
      [by apply Z.leb_le|].
    rewrite Hlc, Z.eqb_refl. unfold vmx_clear_here. rewrite Hclr. case_decide; [|done].
    split_and!.
    + eauto using vmcs_others_trans, others_run, others_cur, others_clear.
    + done.
    + simpl. by rewrite fn_insert_at.
    + simpl. case_decide; [by rewrite fn_insert_at|done].
    + eexists (unload x), _. simpl. rewrite !lookup_alter_eq, Hx, Hv. simpl. split_and!; try done.
      by rewrite Hact, filter_cons, decide_False by auto.
Qed.
(** the run ends up away from every CPU *)
Lemma run_ok_away m r x v :
  loaded_cpu x = -1 -> launched x = false -> vc_active v = [] -> holding (vr_at x) = false ->
  (vr_at x <> Idle -> on_cpu m (vr_cpu x) = Some r) -> run_ok m r x v.
Proof.
  intros Hl Hla Hact Hh Ho. split; auto; unfold resident; rewrite ?Hl; try done.
  - by destruct (vr_at x).
  - intros b Hb. by rewrite Hb in Hh.
  - intros Hb. by rewrite Hb in Hh.
Qed.

Lemma released_inv m c r x v p :
  vm_inv m -> on_cpu m c = Some r -> runs m !! r = Some x -> hw_vmcs m !! r = Some v -> p = AtOut ->
  vm_inv (upd_run r (go p) (vmx_release clear_ok c r m)).
Proof.
  intros Hinv Hc Hx Hv ->.
  destruct (release_spec _ _ _ _ _ Hinv Hc Hx Hv) as (Ho & Hon & Hcur & Hhw & x1 & v1 & Hx1 & Hv1 & Hl & Hla & Hact & _ & Hcpu).
  set (m1 := vmx_release clear_ok c r m) in *.
  destruct (vmcs_others_trans _ _ _ _ _ Ho (others_run c r m1 (go AtOut))) as [Ho1 Ho2].
  apply (inv_update m _ c r (go AtOut x1) v1); auto; simpl.
  - by rewrite lookup_alter_eq, Hx1.
  - congruence.
  - congruence.
  - intros o. rewrite Hon. split; congruence.
  - apply run_ok_away; auto. simpl. intros _. by rewrite Hon, Hcpu.
Qed.

Lemma out_inv m c r x v :
  vm_inv m -> on_cpu m c = Some r -> runs m !! r = Some x -> hw_vmcs m !! r = Some v ->
  let m1 := vmx_release clear_ok c r m in
  vm_inv (mk_machine (hw_cur m1) (hw_vmcs m1) (vmx_cur m1) (alter (go Idle) r (runs m1)) (<[c := None]> (on_cpu m1))).
Proof.
  intros Hinv Hc Hx Hv m1.
  destruct (release_spec _ _ _ _ _ Hinv Hc Hx Hv) as (Ho & Hon & Hcur & Hhw & x1 & v1 & Hx1 & Hv1 & Hl & Hla & Hact & _ & Hcpu).
  fold m1 in Ho, Hon, Hcur, Hhw, Hx1, Hv1. destruct Ho as [Ho1 Ho2].
  apply (inv_update m _ c r (go Idle x1) v1); auto; simpl.
  - intros s Hs. rewrite lookup_alter_ne by done. auto.
  - intros d Hd. rewrite fn_insert_other by done. auto.
  - by rewrite lookup_alter_eq, Hx1.
  - congruence.
  - congruence.
  - intros o. by rewrite fn_insert_at.
  - by apply run_ok_away.
Qed.

(** writing fields of the current VMCS, and moving on *)
Lemma write_inv m c r x v w f :
  vm_inv m -> on_cpu m c = Some r -> runs m !! r = Some x -> hw_vmcs m !! r = Some v ->
  holding (vr_at x) = true -> unlaunched (vr_at x) = true ->
  loaded_cpu (f x) = loaded_cpu x -> launched (f x) = launched x -> vr_cpu (f x) = vr_cpu x ->
  vr_at (f x) = AtOut \/
  (vr_at (f x) = AtEnter /\ forall v', vc_field v' = list_to_map w ∪ vc_field v -> entry_fields (f x) v') ->
  vm_inv (upd_run r f (vmcs_write c w m)).
Proof.
  intros Hinv Hc Hx Hv Hh Hu Hl Hla Hcp Hat.
  destruct (section_facts _ _ _ Hinv Hc) as (x' & v' & Hx' & Hv' & Hok & Hni & Hcpu & Hcur & Hhw). simplify_eq.
  destruct (resident x) eqn:Hr; [|destruct (ro_away _ _ _ _ Hok Hr) as (_ & _ & _ & ?); congruence].
  destruct (ro_here _ _ _ _ Hok Hr) as (Hlc & _ & _ & Hc1 & Hc2 & Hclr & Hact).
  destruct (ro_clear _ _ _ _ Hok Hu) as [Hx0 Hv0].
  unfold vmcs_write. rewrite Hc2.
  set (v2 := mk_vmcs (vc_launched v) (vc_active v) (list_to_map w ∪ vc_field v)).
  apply (inv_update m _ (vr_cpu x) r (f x) v2); simpl; auto.
  - intros s Hs. by rewrite !lookup_alter_ne.
  - by rewrite lookup_alter_eq, Hx.
  - by rewrite lookup_alter_eq, Hv.
  - intros o Ho. rewrite Hl. auto.
  - intros o Ho. rewrite Hl. auto.
  - intros o Ho. split; [congruence|]. by destruct Hat as [->|[-> _]].
  - split; unfold resident in *; simpl; rewrite ?Hl, ?Hcp.
    + intros _. split_and!; auto; by destruct Hat as [->|[-> _]].
    + congruence.
    + intros _. by rewrite Hla.
    + intros b Hb. destruct Hat as [E|[E _]]; congruence.
    + intros He. destruct Hat as [E|[_ Hf]]; [congruence|by apply Hf].
    + auto.
Qed.

Lemma entry_writes_fields a x v v' :
  vm_cached x = false -> vc_field v' = list_to_map (entry_writes a true x) ∪ vc_field v -> entry_fields (written a x) v'.
Proof.
  intros Hcache Hf. unfold entry_fields. rewrite Hf. unfold entry_writes. rewrite Hcache. cbn [negb orb app].
  match goal with |- context [list_to_map ?l] => assert (Hnd : NoDup (l.*1)) end.
  { cbn. repeat (apply NoDup_cons_2; [rewrite ?not_elem_of_cons; repeat split; try discriminate; apply not_elem_of_nil|]).
    apply NoDup_nil_2. }
  split_and!; apply lookup_union_Some_l, elem_of_list_to_map_1;
    first [exact Hnd | repeat first [apply list_elem_of_here | apply list_elem_of_further]].
Qed.
Lemma load_inv m a c r x v create :
  vm_inv m -> on_cpu m c = Some r -> runs m !! r = Some x -> hw_vmcs m !! r = Some v -> vr_at x = AtLoad create ->
  vm_inv (let '(reloaded, m) := vmx_make_current clear_ok (an_load a) c r x m in
          upd_run r (go (if reloaded <? 0 then AtOut else if create then AtBuild else AtWrite (reloaded =? 1))) m).
Proof.
  intros Hinv Hc Hx Hv Hat.
  destruct (section_facts _ _ _ Hinv Hc) as (x' & v' & Hx' & Hv' & Hok & Hni & Hcpu & Hcur & Hhw). simplify_eq.
  destruct (resident x) eqn:Hr.
  { destruct (ro_here _ _ _ _ Hok Hr) as (_ & _ & Hnl & _). by destruct (Hnl create). }
  destruct (ro_away _ _ _ _ Hok Hr) as (Hl & Hla & Hact & _).
  assert (Hc0 : vmx_cur m (vr_cpu x) = None)
    by (destruct (vmx_cur m (vr_cpu x)) eqn:E; [destruct (Hcur _ eq_refl); lia|done]).
  assert (Hh0 : hw_cur m (vr_cpu x) = None)
    by (destruct (hw_cur m (vr_cpu x)) eqn:E; [destruct (Hhw _ eq_refl); lia|done]).
  unfold vmx_make_current. rewrite Hc0, Hl. simpl.
  destruct (clear_ok r) eqn:Hclr; [destruct (an_load a)|]; simpl.
  - set (p := if create then AtBuild else AtWrite (1 =? 1)).
    set (m1 := vmclear (vr_cpu x) r (set_cur (vr_cpu x) None m)).
    set (m2 := upd_run r (load (vr_cpu x)) (set_cur (vr_cpu x) (Some r) (vmptrld (vr_cpu x) r m1))).
    destruct (vmcs_others_trans (vr_cpu x) r m m2 (upd_run r (go p) m2)) as [Ho1 Ho2];
      [|apply others_run|].
    { eapply vmcs_others_trans; [|apply others_run]. eapply vmcs_others_trans; [|apply others_cur].
      eapply vmcs_others_trans; [|apply others_load]. eapply vmcs_others_trans; [apply others_cur|apply others_clear]. }
    apply (inv_update m _ (vr_cpu x) r (go p (load (vr_cpu x) x)) (mk_vmcs false [vr_cpu x] (vc_field v))); auto; simpl.
    + by rewrite !lookup_alter_eq, Hx.
    + rewrite !lookup_alter_eq, Hv. simpl. by rewrite Hact.
    + intros o. rewrite fn_insert_at. intros [= <-]. done.
    + intros o. rewrite fn_insert_at. intros [= <-]. done.
    + intros o Ho. split; [congruence|]. unfold p. by destruct create.
    + split; simpl.
      * intros _. rewrite !fn_insert_at. split_and!; try done; unfold p; by destruct create.
      * unfold resident. simpl. rewrite Z.leb_gt. lia.
      * done.
      * intros b. unfold p. destruct create; by intros [= <-].
      * unfold p. by destruct create.
      * intros _. auto.
  - apply (inv_update m _ (vr_cpu x) r (go AtOut x) (mk_vmcs false [] (vc_field v))); auto; simpl.
    + intros s Hs. by rewrite !lookup_alter_ne.
    + intros d Hd. rewrite Hh0. simpl. by rewrite fn_insert_other.
    + by rewrite lookup_alter_eq, Hx.
    + rewrite lookup_alter_eq, Hv. simpl. by rewrite Hact.
    + intros o. by rewrite fn_insert_at.
    + intros o. case_decide; [congruence|]. congruence.
    + intros o Ho. split; congruence.
    + apply run_ok_away; auto.
  - apply (inv_update m _ (vr_cpu x) r (go AtOut x) v); auto; simpl.
    + intros s Hs. by rewrite !lookup_alter_ne.
    + intros d Hd. by rewrite fn_insert_other.
    + by rewrite lookup_alter_eq, Hx.
    + intros o. by rewrite fn_insert_at.
    + intros o Ho. split; congruence.
    + apply run_ok_away; auto.
Qed.

(** moving on without leaving the CPU: after the guest ran, or after its state was read *)
Lemma stay_inv m c r x v f v2 :
  vm_inv m -> on_cpu m c = Some r -> runs m !! r = Some x -> hw_vmcs m !! r = Some v ->
  loaded_cpu (f x) = loaded_cpu x -> (resident x = false -> launched (f x) = launched x) -> vr_cpu (f x) = vr_cpu x ->
  vc_active v2 = vc_active v -> (vr_at (f x) = AtOut \/ (vr_at (f x) = AtRead /\ resident x = true)) ->
  vm_inv (upd_run r f (set_hw (hw_cur m) (<[r := v2]> (hw_vmcs m)) m)).
Proof.
  intros Hinv Hc Hx Hv Hl Hla Hcp Hact Hat.
  destruct (section_facts _ _ _ Hinv Hc) as (x' & v' & Hx' & Hv' & Hok & Hni & Hcpu & Hcur & Hhw). simplify_eq.
  apply (inv_update m _ (vr_cpu x) r (f x) v2); simpl; auto.
  - intros s Hs. by rewrite lookup_alter_ne, lookup_insert_ne.
  - by rewrite lookup_alter_eq, Hx.
  - by rewrite lookup_insert_eq.
  - intros o Ho. rewrite Hl. auto.
  - intros o Ho. rewrite Hl. auto.
  - intros o Ho. split; [congruence|]. by destruct Hat as [->|[-> _]].
  - split; unfold resident in *; simpl; rewrite ?Hl, ?Hcp, ?Hact.
    + intros Hr. destruct (ro_here _ _ _ _ Hok Hr) as (? & _ & _ & ? & ? & ? & ?).
      split_and!; auto; by destruct Hat as [->|[-> _]].
    + intros Hr. destruct (ro_away _ _ _ _ Hok Hr) as (? & ? & ? & ?). split_and!; auto; [by rewrite Hla|].
      destruct Hat as [->|[_ ?]]; [done|congruence].
    + by destruct Hat as [->|[-> _]].
    + intros b Hb. destruct Hat as [E|[E _]]; congruence.
    + intros Hb. destruct Hat as [E|[E _]]; congruence.
    + auto.
Qed.
Lemma move_inv m c r x v f :
  vm_inv m -> on_cpu m c = Some r -> runs m !! r = Some x -> hw_vmcs m !! r = Some v ->
  loaded_cpu (f x) = loaded_cpu x -> (resident x = false -> launched (f x) = launched x) -> vr_cpu (f x) = vr_cpu x ->
  vr_at (f x) = AtOut -> vm_inv (upd_run r f m).
Proof.
  intros Hinv Hc Hx Hv Hl Hla Hcp Hat.
  pose proof (stay_inv m c r x v f v Hinv Hc Hx Hv Hl Hla Hcp eq_refl (or_introl Hat)) as H.
  unfold set_hw in H. rewrite insert_id in H by done. by destruct m.
Qed.

Lemma section_inv m a c r : vm_inv m -> on_cpu m c = Some r -> vm_inv (section clear_ok a c r m).
Proof.
  intros Hinv Hc.
  destruct (section_facts _ _ _ Hinv Hc) as (x & v & Hx & Hv & Hok & Hni & Hcpu & Hcur & Hhw).
  unfold section. rewrite Hx. destruct (vr_at x) as [|create| |b| | |] eqn:Hat; [done|..].
  - destruct (an_ready a); [by eapply load_inv|]. by eapply move_inv.
  - destruct (vmx_build_vmcs (an_build a)); [|by eapply move_inv].
    eapply write_inv; eauto; rewrite ?Hat; auto.
  - destruct (ro_write _ _ _ _ Hok _ Hat) as [-> Hcache].
    eapply write_inv; eauto; rewrite ?Hat; auto. right. split; [done|]. intros v'. by apply entry_writes_fields.
  - destruct (hw_cur m c) as [h|] eqn:Hh; [|by eapply released_inv].
    destruct (Hhw _ eq_refl) as [-> Hl]. rewrite Hv. destruct (_ && _); [|by eapply released_inv].
    eapply (stay_inv m c r x v (go AtRead)); eauto. right. split; [done|]. unfold resident. apply Z.leb_le. lia.
  - eapply move_inv; eauto. intros Hr. destruct (ro_away _ _ _ _ Hok Hr) as (_ & _ & _ & E). by rewrite Hat in E.
  - by eapply out_inv.
Qed.
(** outside a section only the run itself changes: no CPU refers to it *)
Lemma idle_update m m' r :
  vm_inv m ->
  (forall x, runs m !! r = Some x -> vr_at x = Idle) ->
  (forall s, s <> r -> runs m' !! s = runs m !! s /\ hw_vmcs m' !! s = hw_vmcs m !! s) ->
  vmx_cur m' = vmx_cur m -> hw_cur m' = hw_cur m ->
  (forall c, on_cpu m' c = on_cpu m c \/
     (on_cpu m c = None /\ on_cpu m' c = Some r /\ exists x, runs m' !! r = Some x /\ vr_at x <> Idle /\ vr_cpu x = c)) ->
  (runs m' !! r = None -> hw_vmcs m' !! r = None) ->
  (forall x, runs m' !! r = Some x -> exists v, hw_vmcs m' !! r = Some v /\ run_ok m' r x v) ->
  vm_inv m'.
Proof.
  intros [Hnone Hrun Hcur Hhw Hon] Hidle Hother Hc' Hh' Hon' Hn' Hr'.
  assert (Hne : forall s x c, runs m !! s = Some x -> loaded_cpu x = Z.of_nat c -> s <> r).
  { intros s x c Hs Hl ->. destruct (Hrun _ _ Hs) as (v & _ & Hok).
    destruct (ro_here _ _ _ _ Hok) as (_ & Hni & _); [unfold resident; apply Z.leb_le; lia|]. by apply Hni, Hidle. }
  split.
  - intros s Hs. destruct (decide (s = r)) as [->|Hsr]; [auto|].
    destruct (Hother s Hsr) as [E1 E2]. rewrite E2. apply Hnone. congruence.
  - intros s x Hs. destruct (decide (s = r)) as [->|Hsr]; [auto|].
    destruct (Hother s Hsr) as [E1 E2]. rewrite E1 in Hs. destruct (Hrun _ _ Hs) as (v & Hv & Hok).
    exists v. split; [congruence|]. destruct Hok as [H1 H2 H3 H4 H5 H6].
    split; auto; rewrite ?Hc', ?Hh'; auto.
    intros Hni. specialize (H6 Hni). destruct (Hon' (vr_cpu x)) as [->|(E & _)]; [done|congruence].
  - intros c s Hs. rewrite Hc' in Hs. destruct (Hcur _ _ Hs) as (x & Hx & Hl). exists x. split; [|done].
    by rewrite (proj1 (Hother s (Hne _ _ _ Hx Hl))).
  - intros c s Hs. rewrite Hh' in Hs. destruct (Hhw _ _ Hs) as (x & Hx & Hl). exists x. split; [|done].
    by rewrite (proj1 (Hother s (Hne _ _ _ Hx Hl))).
  - intros c s Hs. destruct (Hon' c) as [E|(E & E' & x & Hx & Hni & Hxc)].
    + rewrite E in Hs. destruct (Hon _ _ Hs) as (x & Hx & Hni & Hxc). exists x. split; [|done].
      destruct (decide (s = r)) as [->|Hsr]; [by destruct Hni; apply Hidle|]. by rewrite (proj1 (Hother s Hsr)).
    + assert (s = r) as -> by congruence. eauto.
Qed.

Lemma idle_away m r x : vm_inv m -> runs m !! r = Some x -> vr_at x = Idle ->
  exists v, hw_vmcs m !! r = Some v /\ loaded_cpu x = -1 /\ launched x = false /\ vc_active v = [].
Proof.
  intros Hinv Hx Hi. destruct (vi_run _ Hinv _ _ Hx) as (v & Hv & Hok). exists v.
  destruct (resident x) eqn:Hr; [destruct (ro_here _ _ _ _ Hok Hr) as (_ & ? & _); congruence|].
  destruct (ro_away _ _ _ _ Hok Hr) as (? & ? & ? & _). auto.
Qed.

Lemma vmcs_step_inv m m' : vm_inv m -> vmcs_step clear_ok m m' -> vm_inv m'.
Proof.
  intros Hinv Hst. destruct Hst as [m r Hr Hv|m create c r x Hx Hi Hc|m a c r Hc|m r x regs Hx Hi|m c r x Hx Hi].
  - apply (idle_update m _ r); auto; simpl; [congruence| | |].
    + intros s Hs. by rewrite !lookup_insert_ne.
    + by rewrite lookup_insert_eq.
    + intros x. rewrite !lookup_insert_eq. intros [= <-]. eexists. split; [done|]. by apply run_ok_away.
  - destruct (idle_away _ _ _ Hinv Hx Hi) as (v & Hv & Hl & Hla & Hact).
    apply (idle_update m _ r); auto; simpl; [congruence| | | |].
    + intros s Hs. by rewrite lookup_insert_ne.
    + intros d. destruct (decide (d = c)) as [->|Hd]; [|left; by rewrite fn_insert_other].
      right. rewrite fn_insert_at, lookup_insert_eq. split_and!; [done..|]. eexists. by split_and!.
    + by rewrite lookup_insert_eq.
    + intros y. rewrite lookup_insert_eq. intros [= <-]. exists v. split; [done|].
      apply run_ok_away; auto. intros _. simpl. by rewrite fn_insert_at.
  - by apply section_inv.
  - destruct (idle_away _ _ _ Hinv Hx Hi) as (v & Hv & Hl & Hla & Hact).
    apply (idle_update m _ r); auto; simpl; [congruence| | |].
    + intros s Hs. by rewrite lookup_alter_ne.
    + by rewrite lookup_alter_eq, Hx.
    + intros y. rewrite lookup_alter_eq, Hx. intros [= <-]. exists v. split; [done|].
      destruct regs as [[[[[??]?]?]?]?]. apply run_ok_away; auto; simpl; by rewrite Hi.
  - destruct (idle_away _ _ _ Hinv Hx Hi) as (v & Hv & Hl & Hla & Hact).
    unfold free_run, vmx_release. rewrite Hx, Hl. simpl.
    apply (idle_update m _ r); auto; simpl; [congruence| | |].
    + intros s Hs. by rewrite !lookup_delete_ne.
    + intros _. by rewrite lookup_delete_eq.
    + intros y. by rewrite lookup_delete_eq.
Qed.
Lemma vmcs_reachable m : steps (vmcs_step clear_ok) vmcs_init m -> vm_inv m.
Proof. apply (steps_invariant _ vm_inv); [eauto using vmcs_step_inv|]. by split. Qed.
End invariant.

(** ** The property *)
(** C12: in every interleaving of creations, entries and destructions a VMCS is
    active on at most one CPU, only on the one whose section uses it, and on none
    once its run is idle, so a freed page is never one a CPU still works on.  The
    entry instruction always finds the launch state it requires and the guest
    registers, CR3, TLS bases and host FS base of the run it was called for,
    whatever was loaded there before. *)
Theorem vmcs_resident_on_one_cpu clear_ok m r x :
  steps (vmcs_step clear_ok) vmcs_init m -> runs m !! r = Some x ->
  exists v, hw_vmcs m !! r = Some v /\
    (vc_active v = [] \/ vc_active v = [vr_cpu x]) /\
    (vr_at x = Idle -> vc_active v = [] /\ forall c, hw_cur m c <> Some r) /\
    (holding (vr_at x) = true -> hw_cur m (vr_cpu x) = Some r /\ vc_active v = [vr_cpu x]) /\
    (vr_at x = AtEnter -> entry_state_ok x v = true /\ launched x = false /\ entry_fields x v).
Proof.
  intros Hm Hx. pose proof (vmcs_reachable _ _ Hm) as Hinv. destruct (vi_run _ _ Hinv _ _ Hx) as (v & Hv & Hok).
  exists v. split; [done|]. destruct (resident x) eqn:Hr.
  - destruct (ro_here _ _ _ _ _ Hok Hr) as (Hl & Hni & _ & Hc1 & Hc2 & _ & Hact). split_and!; auto; try done.
    intros He. destruct (ro_clear _ _ _ _ _ Hok) as [H1 H2]; [by rewrite He|].
    unfold entry_state_ok. rewrite H1, H2. split_and!; auto. by apply (ro_enter _ _ _ _ _ Hok).
  - destruct (ro_away _ _ _ _ _ Hok Hr) as (Hl & Hla & Hact & Hh). split_and!; auto.
    + intros _. split; [done|]. intros c Hc. destruct (vi_hw _ _ Hinv _ _ Hc) as (y & Hy & Hyl). simplify_eq. lia.
    + congruence.
    + intros He. by rewrite He in Hh.
Qed.

(** Every use of a VMCS is released before preemption is enabled again, so every
    entry loads it anew and the write cache never spares a write. *)
Lemma write_cache_never_hits clear_ok m r x b :
  steps (vmcs_step clear_ok) vmcs_init m -> runs m !! r = Some x -> vr_at x = AtWrite b -> b = true /\ vm_cached x = false.
Proof.
  intros Hm Hx Hat. destruct (vi_run _ _ (vmcs_reachable _ _ Hm) _ _ Hx) as (v & _ & Hok).
  by apply (ro_write _ _ _ _ _ Hok).
Qed.

(** A context is created on CPU 1 and entered on CPU 2. *)
Definition demo_env : build_env :=
  mk_build (Some 0xff00000000) (Some 0xffffffff00000000) (Some 0xff00000000) None None
    0x80050033 0x1000 0x3406f0 0xd01 1 2 3 4 5 6 7 8 0x10 0x18 0x40 0x7000 0x8000.
Definition demo_answers : answers :=
  mk_answers true true demo_env (0x400000, 0x7ffe000) 0x1000 (0x600000, 0) 0x3406f0 (mk_host 1 2 3 4 5 6) 0x7f00 true
    [("GUEST_RIP", 0x400007); ("VM_EXIT_REASON", 1)].
Fixpoint go_on (n : nat) (c r : nat) (m : machine) : machine :=
  match n with O => m | S n => go_on n c r (section (fun _ => true) demo_answers c r m) end.
Definition demo_created : machine :=
  go_on 3 1 0 (begin_section true 1 0 new_run (alloc_run 0 vmcs_init)).
Definition demo_entering : machine :=
  match runs demo_created !! 0%nat with Some x => go_on 2 2 0 (begin_section false 2 0 x demo_created) | None => vmcs_init end.
Lemma go_on_steps n c r m m0 :
  steps (vmcs_step (fun _ => true)) m0 m -> (forall k, (k < n)%nat -> on_cpu (go_on k c r m) c = Some r) ->
  steps (vmcs_step (fun _ => true)) m0 (go_on n c r m).
Proof.
  revert m. induction n as [|n IH]; intros m Hm Hon; [done|]. simpl. apply IH.
  - eapply steps_next; [done|]. apply step_section. apply (Hon O). lia.
  - intros k Hk. apply (Hon (S k)). lia.
Qed.
Lemma vmcs_demo_steps : steps (vmcs_step (fun _ => true)) vmcs_init demo_entering.
Proof.
  assert (H1 : steps (vmcs_step (fun _ => true)) vmcs_init demo_created).
  { unfold demo_created. apply go_on_steps.
    - eapply steps_next; [eapply steps_next; [apply steps_refl|by apply step_alloc]|]. by apply step_begin.
    - intros [|[|[|k]]] Hk; [vm_compute; reflexivity..|lia]. }
  assert (Hi : vr_at <$> runs demo_created !! 0%nat = Some Idle) by (vm_compute; reflexivity).
  assert (Hc : on_cpu demo_created 2 = None) by (vm_compute; reflexivity).
  assert (Hon : forall k, (k < 2)%nat ->
    match runs demo_created !! 0%nat with
    | Some x => bool_decide (on_cpu (go_on k 2 0 (begin_section false 2 0 x demo_created)) 2 = Some 0%nat)
    | None => false
    end = true).
  { intros [|[|k]] Hk; [vm_compute; reflexivity..|lia]. }
  unfold demo_entering. destruct (runs demo_created !! 0%nat) as [x|] eqn:Hx; [|done]. apply go_on_steps.
  - eapply steps_next; [done|]. apply step_begin; [done|by injection Hi|done].
  - intros k Hk. specialize (Hon k Hk). by apply bool_decide_eq_true in Hon.
Qed.
Lemma vmcs_resident_on_one_cpu_witness :
  exists x v, runs demo_entering !! 0%nat = Some x /\ hw_vmcs demo_entering !! 0%nat = Some v /\
    vr_at x = AtEnter /\ vc_active v = [2%nat] /\ entry_fields x v /\ rip x = 0x400000.
Proof.
  destruct (runs demo_entering !! 0%nat) as [x|] eqn:Hx; [|by vm_compute in Hx].
  destruct (vmcs_resident_on_one_cpu (fun _ => true) demo_entering 0 x vmcs_demo_steps Hx) as (v & Hv & _ & _ & Hh & He).
  vm_compute in Hx. injection Hx as <-. destruct (He eq_refl) as (_ & _ & Hf). destruct (Hh eq_refl) as [_ Ha].
  eexists _, v. by split_and!.
Defined.
End Vmcs.
