(* ===== verification/NestedTables.v ===== *)
(** * Nested page tables (kernel/vmctx.c)

    A guest of this module runs on the page tables of its task, so a
    guest-physical address must mean the host frame of that number: the nested
    tables map the low 512 GiB to themselves with 1 GiB leaves
    (svm_build_npt_identity, vmx_build_ept_identity).  The self-test and the
    counter guest instead run in a sandbox of four pages (svm_build_npt).

    The model builds the tables in a physical memory and walks them the way the
    processor does; the theorems say which address every walk ends at.  Page
    addresses are the arguments the allocator answers. *)
From S2P Require Import Prelude.
Open Scope Z_scope.

Module NestedTables.

(** ** The processor's walk *)
(** A table page is 512 entries; memory is the pages by physical address. *)

(** bits 51:[shift] of an entry *)
Definition entry_address (shift e : Z) : Z := (e mod 2 ^ 52) / 2 ^ shift * 2 ^ shift.
Definition level_shift (level : nat) : Z := 12 + 9 * (Z.of_nat level - 1).
Definition table_index (level : nat) (gpa : Z) : nat := Z.to_nat ((gpa / 2 ^ level_shift level) mod 512).
(** bit 7 ends the walk at the levels that have large pages *)
Definition is_leaf (level : nat) (e : Z) : bool :=
  match level with
  | 1%nat => true
  | 2%nat | 3%nat => Z.testbit e 7
  | _ => false
  end.
(** The low three bits are the permissions of both formats (present, writable,
    user; or read, write, execute), and the rights of a walk are those that every
    level gives.  The tables of this module give all or none. *)
Fixpoint walk (m : gmap Z (list Z)) (level : nat) (base gpa rights : Z) : option (Z * Z) :=
  match level with
  | O => None
  | S lower =>
      t ← m !! base;
      e ← t !! table_index level gpa;
      if (e .& 7) =? 0 then None
      else if is_leaf level e
      then Some (entry_address (level_shift level) e + gpa mod 2 ^ level_shift level, rights .& (e .& 7))
      else walk m lower (entry_address 12 e) gpa (rights .& (e .& 7))
  end.
(** four levels translate 48 bits *)
Definition translate (m : gmap Z (list Z)) (root gpa : Z) : option (Z * Z) :=
  if (0 <=? gpa) && (gpa <? 2 ^ 48) then walk m 4 root gpa 7 else None.

(** ** Building *)
Definition zero_page : list Z := replicate 512 0.
Definition set_entry (base : Z) (i : nat) (e : Z) (m : gmap Z (list Z)) : gmap Z (list Z) := alter (fun t => <[i := e]> t) base m.

Definition NPT_PTE_BITS : Z := 7.
Definition VMX_EPT_RWX : Z := 7.
Definition VMX_EPT_MEMTYPE_WB : Z := Z.shiftl 6 3.
Definition VMX_EPT_LARGE : Z := Z.shiftl 1 7.

(** the pages of struct svm_run that the tables name *)
Record svm_run := mk_svm {
  npt0 : Z; npt1 : Z; npt2 : Z; npt3 : Z; code : Z; stack : Z; data : Z; misc : Z }.

Definition svm_build_npt (r : svm_run) (m : gmap Z (list Z)) : gmap Z (list Z) :=
  let m := set_entry (npt0 r) 0 (npt1 r .| NPT_PTE_BITS) m in
  let m := set_entry (npt1 r) 0 (npt2 r .| NPT_PTE_BITS) m in
  let m := set_entry (npt2 r) 0 (npt3 r .| NPT_PTE_BITS) m in
  let m := set_entry (npt3 r) 0 (code r .| NPT_PTE_BITS) m in
  let m := set_entry (npt3 r) 1 (stack r .| NPT_PTE_BITS) m in
  let m := set_entry (npt3 r) 2 (data r .| NPT_PTE_BITS) m in
  set_entry (npt3 r) 3 (misc r .| NPT_PTE_BITS) m.

(** [for (i = 0; i < 512; i++) pdpt[i] = ...] *)
Fixpoint fill_pdpt (entry : Z -> Z) (pdpt : Z) (i : nat) (todo : nat) (m : gmap Z (list Z)) : gmap Z (list Z) :=
  match todo with
  | O => m
  | S todo => fill_pdpt entry pdpt (S i) todo (set_entry pdpt i (entry (Z.of_nat i)) m)
  end.
Definition npt_leaf (i : Z) : Z := Z.shiftl i 30 .| NPT_PTE_BITS .| Z.shiftl 1 7.
Definition svm_build_npt_identity (r : svm_run) (m : gmap Z (list Z)) : gmap Z (list Z) :=
  let m := <[npt0 r := zero_page]> m in
  let m := set_entry (npt0 r) 0 (npt1 r .| NPT_PTE_BITS) m in
  fill_pdpt npt_leaf (npt1 r) 0 512 m.

Definition ept_leaf (i : Z) : Z := Z.shiftl i 30 .| VMX_EPT_RWX .| VMX_EPT_MEMTYPE_WB .| VMX_EPT_LARGE.
Definition vmx_build_ept_identity (pml4 pdpt : Z) (m : gmap Z (list Z)) : gmap Z (list Z) :=
  let m := <[pml4 := zero_page]> m in
  let m := set_entry pml4 0 (pdpt .| VMX_EPT_RWX) m in
  fill_pdpt ept_leaf pdpt 0 512 m.

(** ** Entries *)
Ltac zlia := Z.div_mod_to_equations; lia.
Lemma lor_low k a b : 0 <= k -> a mod 2 ^ k = 0 -> 0 <= b < 2 ^ k -> a .| b = a + b.
Proof.
  intros Hk Ha Hb. symmetry. apply Z.add_nocarry_lor. apply Z.bits_inj'. intros i Hi. rewrite Z.land_spec, Z.bits_0.
  apply Z.div_exact in Ha; [|lia]. rewrite Ha. destruct (decide (i < k)).
  - rewrite Z.mul_comm, Z.mul_pow2_bits_low by lia. done.
  - rewrite <- (Z.mod_small b (2 ^ k)) by lia. rewrite Z.mod_pow2_bits_high by lia. apply andb_false_r.
Qed.

Definition page_ok (pa : Z) : Prop := 0 <= pa < 2 ^ 52 /\ pa mod 4096 = 0.
Lemma entry_lor pa : page_ok pa -> pa .| 7 = pa + 7.
Proof. intros [? ?]. by apply (lor_low 12). Qed.
Lemma entry_low x b : 0 <= b < 8 -> x mod 8 = 0 -> (x + b) .& 7 = b.
Proof. intros Hb Hx. change 7 with (2 ^ 3 - 1). rewrite land_mask_mod by lia. change (2 ^ 3) with 8. zlia. Qed.
Lemma entry_rights pa : page_ok pa -> (pa + 7) .& 7 = 7.
Proof. intros [? ?]. apply entry_low; [lia|zlia]. Qed.
Lemma entry_next pa : page_ok pa -> entry_address 12 (pa + 7) = pa.
Proof. intros [? ?]. unfold entry_address. rewrite Z.mod_small by zlia. change (2 ^ 12) with 4096. zlia. Qed.
Lemma entry_small pa : page_ok pa -> Z.testbit (pa + 7) 7 = false.
Proof.
  intros [? ?]. apply Z.testbit_false; [lia|]. change (2 ^ 7) with 128. zlia.
Qed.

Lemma leaf_values i : 0 <= i < 512 -> npt_leaf i = i * 2 ^ 30 + 135 /\ ept_leaf i = i * 2 ^ 30 + 183.
Proof.
  intros Hi. unfold npt_leaf, ept_leaf. rewrite Z.shiftl_mul_pow2, <- !Z.lor_assoc by lia.
  split; apply (lor_low 30); try lia; try (apply Z.mod_mul; lia); split; vm_compute; congruence.
Qed.
Definition gib_leaf (entry : Z -> Z) : Prop := exists low,
  128 <= low < 256 /\ low mod 8 = 7 /\ forall i, 0 <= i < 512 -> entry i = i * 2 ^ 30 + low.
Lemma npt_leaf_gib : gib_leaf npt_leaf.
Proof. exists 135. split; [lia|]. split; [done|]. intros i Hi. exact (proj1 (leaf_values i Hi)). Qed.
Lemma ept_leaf_gib : gib_leaf ept_leaf.
Proof. exists 183. split; [lia|]. split; [done|]. intros i Hi. exact (proj2 (leaf_values i Hi)). Qed.
Lemma gib_leaf_entry entry i : gib_leaf entry -> 0 <= i < 512 ->
  entry i .& 7 = 7 /\ Z.testbit (entry i) 7 = true /\ entry_address 30 (entry i) = i * 2 ^ 30.
Proof.
  intros (low & Hlow & H7 & He) Hi. rewrite He by done. split_and!.
  - change 7 with (2 ^ 3 - 1) at 1. change (2 ^ 30) with 1073741824. rewrite land_mask_mod by lia. change (2 ^ 3) with 8. zlia.
  - apply Z.testbit_true; [lia|]. change (2 ^ 30) with 1073741824. change (2 ^ 7) with 128. zlia.
  - unfold entry_address. rewrite (Z.mod_small _ (2 ^ 52)) by lia. change (2 ^ 30) with 1073741824. zlia.
Qed.

(** ** Filling a table *)
Lemma set_entry_at m base i e t : m !! base = Some t -> set_entry base i e m !! base = Some (<[i := e]> t).
Proof. intros H. unfold set_entry. by rewrite lookup_alter_eq, H. Qed.
Lemma set_entry_other m base b i e : b <> base -> set_entry base i e m !! b = m !! b.
Proof. intros. unfold set_entry. by rewrite lookup_alter_ne. Qed.
Lemma fill_pdpt_other entry pdpt i todo m b : b <> pdpt -> fill_pdpt entry pdpt i todo m !! b = m !! b.
Proof.
  intros Hb. revert i m. induction todo as [|todo IH]; intros i m; [done|]. simpl. rewrite IH. by apply set_entry_other.
Qed.
Lemma fill_pdpt_spec entry pdpt i todo m t : m !! pdpt = Some t -> (i + todo <= length t)%nat ->
  exists t', fill_pdpt entry pdpt i todo m !! pdpt = Some t' /\ length t' = length t /\
    (forall j, (i <= j < i + todo)%nat -> t' !! j = Some (entry (Z.of_nat j))) /\
    (forall j, (j < i)%nat -> t' !! j = t !! j).
Proof.
  revert i m t. induction todo as [|todo IH]; intros i m t Ht Hlen; [exists t; split_and!; auto; lia|].
  destruct (IH (S i) (set_entry pdpt i (entry (Z.of_nat i)) m) (<[i := entry (Z.of_nat i)]> t)) as (t' & H1 & H2 & H3 & H4);
    [by apply set_entry_at|rewrite length_insert; lia|].
  exists t'. rewrite length_insert in H2. split_and!; auto.
  - intros j Hj. destruct (decide (j = i)) as [->|]; [|apply H3; lia].
    rewrite H4 by lia. apply list_lookup_insert_eq. lia.
  - intros j Hj. rewrite H4 by lia. apply list_lookup_insert_ne. lia.
Qed.

(** ** Walks *)
Lemma index_small level gpa : (table_index level gpa < 512)%nat.
Proof. unfold table_index. pose proof (Z.mod_pos_bound (gpa / 2 ^ level_shift level) 512). lia. Qed.
Lemma walk_table m level base gpa rights t pa :
  m !! base = Some t -> t !! table_index (S level) gpa = Some (pa .| 7) -> page_ok pa -> level <> O ->
  walk m (S level) base gpa rights = walk m level pa gpa (rights .& 7).
Proof.
  intros Hb Ht Hpa Hl. cbn [walk]. rewrite Hb. cbn [mbind option_bind]. rewrite Ht. cbn [mbind option_bind].
  rewrite entry_lor, entry_rights, entry_next by done. change (7 =? 0) with false. cbn iota.
  assert (is_leaf (S level) (pa + 7) = false) as ->; [|done].
  destruct level as [|[|[|level]]]; cbn [is_leaf]; rewrite ?entry_small; done.
Qed.
Lemma walk_hole m level base gpa rights t :
  m !! base = Some t -> t !! table_index (S level) gpa = Some 0 -> walk m (S level) base gpa rights = None.
Proof. intros Hb Ht. cbn [walk]. rewrite Hb. simpl. rewrite Ht. reflexivity. Qed.

(** an identity of 512 GiB in 1 GiB leaves *)
Lemma identity_walk m root pdpt entry t pd :
  gib_leaf entry -> page_ok pdpt ->
  m !! root = Some t -> t !! 0%nat = Some (pdpt .| 7) -> (forall j, (0 < j < 512)%nat -> t !! j = Some 0) ->
  m !! pdpt = Some pd -> (forall j, (j < 512)%nat -> pd !! j = Some (entry (Z.of_nat j))) ->
  forall gpa, translate m root gpa = if (0 <=? gpa) && (gpa <? 2 ^ 39) then Some (gpa, 7) else None.
Proof.
  intros Hleaf Hok Hroot H0 Hrest Hpd Hpde gpa. unfold translate.
  destruct ((0 <=? gpa) && (gpa <? 2 ^ 48)) eqn:Hrange; [|].
  2:{ destruct ((0 <=? gpa) && (gpa <? 2 ^ 39)) eqn:H39; [|done].
      rewrite andb_true_iff, Z.leb_le, Z.ltb_lt in H39. rewrite andb_false_iff, Z.leb_gt, Z.ltb_ge in Hrange. lia. }
  rewrite andb_true_iff, Z.leb_le, Z.ltb_lt in Hrange.
  pose proof (index_small 4 gpa) as Hi4. destruct (decide (gpa < 2 ^ 39)) as [Hlow|Hhigh].
  - replace ((0 <=? gpa) && (gpa <? 2 ^ 39)) with true
      by (symmetry; rewrite andb_true_iff, Z.leb_le, Z.ltb_lt; lia).
    assert (table_index 4 gpa = 0%nat) as Hix.
    { unfold table_index. change (level_shift 4) with 39. rewrite Z.div_small by lia. done. }
    rewrite (walk_table m 3 root gpa 7 t pdpt); [|done|by rewrite Hix|done|done].
    set (i := gpa / 2 ^ 30). assert (Hi : 0 <= i < 512).
    { unfold i. change (2 ^ 30) with 1073741824. change (2 ^ 39) with 549755813888 in Hlow. zlia. }
    assert (table_index 3 gpa = Z.to_nat i) as Hix3.
    { unfold table_index. change (level_shift 3) with 30. fold i. by rewrite Z.mod_small. }
    destruct (gib_leaf_entry entry i Hleaf Hi) as (Hr & Hb & Ha).
    cbn [walk]. rewrite Hpd. cbn [mbind option_bind]. rewrite Hix3, Hpde by lia. cbn [mbind option_bind is_leaf].
    rewrite Z2Nat.id by lia. rewrite Hr, Hb. change (7 =? 0) with false. cbn iota. change (level_shift 3) with 30. rewrite Ha.
    f_equal. f_equal. unfold i. rewrite Z.mul_comm, <- Z.div_mod; lia.
  - replace ((0 <=? gpa) && (gpa <? 2 ^ 39)) with false
      by (symmetry; rewrite andb_false_iff, Z.leb_gt, Z.ltb_ge; lia).
    eapply walk_hole; [done|]. apply Hrest. split; [|done].
    unfold table_index. change (level_shift 4) with 39. rewrite Z.mod_small; [|].
    + change (2 ^ 39) with 549755813888 in *. change (2 ^ 48) with 281474976710656 in *. zlia.
    + change (2 ^ 39) with 549755813888 in *. change (2 ^ 48) with 281474976710656 in *. zlia.
Qed.

Lemma zero_page_lookup j : (j < 512)%nat -> zero_page !! j = Some 0.
Proof. intros. by apply lookup_replicate_2. Qed.

(** the two tables as svm_build_npt_identity and vmx_build_ept_identity leave them *)
Lemma identity_tables m root pdpt entry t0 :
  gib_leaf entry -> page_ok pdpt -> root <> pdpt -> m !! pdpt = Some t0 -> length t0 = 512%nat ->
  forall gpa, translate (fill_pdpt entry pdpt 0 512 (set_entry root 0 (pdpt .| 7) (<[root := zero_page]> m))) root gpa
    = if (0 <=? gpa) && (gpa <? 2 ^ 39) then Some (gpa, 7) else None.
Proof.
  intros Hleaf Hok Hne Ht0 Hlen.
  set (m1 := set_entry root 0 (pdpt .| 7) (<[root := zero_page]> m)).
  destruct (fill_pdpt_spec entry pdpt 0 512 m1 t0) as (pd & Hpd & _ & Hpde & _); [|lia|].
  { unfold m1. rewrite set_entry_other by done. by rewrite lookup_insert_ne. }
  eapply identity_walk; [done|done| | | |done|].
  - rewrite fill_pdpt_other by done. apply set_entry_at. apply lookup_insert_eq.
  - apply list_lookup_insert_eq. unfold zero_page. rewrite length_replicate. lia.
  - intros j Hj. rewrite list_lookup_insert_ne by lia. apply zero_page_lookup. lia.
  - intros j Hj. apply Hpde. lia.
Qed.

(** ** The sandbox *)
Definition sandbox_page (r : svm_run) (i : nat) : option Z :=
  match i with 0%nat => Some (code r) | 1%nat => Some (stack r) | 2%nat => Some (data r) | 3%nat => Some (misc r)
  | _ => None end.
Definition sandbox_ok (r : svm_run) : Prop :=
  NoDup [npt0 r; npt1 r; npt2 r; npt3 r] /\
  Forall page_ok [npt0 r; npt1 r; npt2 r; npt3 r; code r; stack r; data r; misc r].
(** pages as get_zeroed_page gives them *)
Definition zeroed (r : svm_run) (m : gmap Z (list Z)) : Prop :=
  Forall (fun pa => m !! pa = Some zero_page) [npt0 r; npt1 r; npt2 r; npt3 r].

Lemma zero_page_entry j i e : (j < 512)%nat -> (i < 512)%nat ->
  (<[i := e]> zero_page) !! j = Some (if decide (j = i) then e else 0).
Proof.
  intros Hj Hi. case_decide as Hd.
  - subst. apply list_lookup_insert_eq. unfold zero_page. by rewrite length_replicate.
  - rewrite list_lookup_insert_ne by done. by apply zero_page_lookup.
Qed.

Lemma sandbox_tables r m : sandbox_ok r -> zeroed r m ->
  let m' := svm_build_npt r m in
  m' !! npt0 r = Some (<[0%nat := npt1 r .| 7]> zero_page) /\
  m' !! npt1 r = Some (<[0%nat := npt2 r .| 7]> zero_page) /\
  m' !! npt2 r = Some (<[0%nat := npt3 r .| 7]> zero_page) /\
  exists t, m' !! npt3 r = Some t /\
    forall j, (j < 512)%nat -> t !! j = Some (match sandbox_page r j with Some pa => pa .| 7 | None => 0 end).
Proof.
  intros [Hnd _] Hz. unfold zeroed in Hz. rewrite !Forall_cons in Hz. destruct Hz as (H0 & H1 & H2 & H3 & _).
  rewrite !NoDup_cons, !not_elem_of_cons in Hnd.
  destruct Hnd as ((Ha & Hb & Hc & _) & (Hd & He & _) & (Hf & _) & _).
  unfold svm_build_npt. split_and!; [..|eexists; split].
  - do 6 rewrite set_entry_other by done. by apply set_entry_at.
  - do 5 rewrite set_entry_other by done. apply set_entry_at. by rewrite set_entry_other.
  - do 4 rewrite set_entry_other by done. apply set_entry_at. by rewrite !set_entry_other.
  - do 4 apply set_entry_at. by rewrite !set_entry_other by done.
  - intros j Hj. unfold sandbox_page.
    destruct j as [|[|[|[|j]]]]; do 3 try (rewrite list_lookup_insert_ne by lia);
      try (apply list_lookup_insert_eq; rewrite ?length_insert; unfold zero_page; rewrite length_replicate; lia).
    rewrite list_lookup_insert_ne by lia. apply zero_page_lookup. lia.
Qed.

(** below the reach of a table the index is the quotient *)
Lemma index_top level gpa :
  (0 < level)%nat -> 0 <= gpa < 2 ^ (level_shift level + 9) ->
  table_index level gpa = Z.to_nat (gpa / 2 ^ level_shift level).
Proof.
  intros Hl Hg. unfold table_index. rewrite Z.mod_small; [done|].
  split; [apply Z.div_pos; [lia|apply Z.pow_pos_nonneg; unfold level_shift; lia]|].
  apply Z.div_lt_upper_bound; [apply Z.pow_pos_nonneg; unfold level_shift; lia|].
  change 512 with (2 ^ 9). rewrite <- Z.pow_add_r by (unfold level_shift; lia). lia.
Qed.
Lemma single_entry_walk m level base gpa rights pa :
  (1 < level)%nat -> m !! base = Some (<[0%nat := pa .| 7]> zero_page) -> page_ok pa ->
  0 <= gpa < 2 ^ (level_shift level + 9) ->
  walk m level base gpa rights =
  if gpa <? 2 ^ level_shift level then walk m (pred level) pa gpa (rights .& 7) else None.
Proof.
  intros Hl Hb Hpa Hg. destruct level as [|[|level]]; [lia|lia|]. simpl pred.
  pose proof (index_small (S (S level)) gpa) as Hi.
  assert (Hpos : 0 < 2 ^ level_shift (S (S level))) by (apply Z.pow_pos_nonneg; unfold level_shift; lia).
  case_match eqn:Hlt; [apply Z.ltb_lt in Hlt|apply Z.ltb_ge in Hlt].
  - eapply walk_table; [done| |done|done]. rewrite zero_page_entry by lia.
    rewrite decide_True; [done|]. rewrite index_top by lia. rewrite Z.div_small by lia. done.
  - eapply walk_hole; [done|]. rewrite zero_page_entry by lia. rewrite decide_False; [done|].
    rewrite index_top by lia. pose proof (Z.div_le_lower_bound gpa (2 ^ level_shift (S (S level))) 1). lia.
Qed.

Lemma sandbox_walk r m gpa : sandbox_ok r -> zeroed r m ->
  translate (svm_build_npt r m) (npt0 r) gpa =
  if (0 <=? gpa) && (gpa <? 0x4000)
  then (fun pa => (pa + gpa mod PAGE, 7)) <$> sandbox_page r (Z.to_nat (gpa / PAGE)) else None.
Proof.
  intros Hok Hz. destruct (sandbox_tables r m Hok Hz) as (H0 & H1 & H2 & t & H3 & Ht).
  destruct Hok as [_ Hpg]. rewrite !Forall_cons in Hpg. destruct Hpg as (P0 & P1 & P2 & P3 & Pc & Ps & Pd & Pm & _).
  set (m' := svm_build_npt r m) in *. unfold translate.
  destruct ((0 <=? gpa) && (gpa <? 2 ^ 48)) eqn:Hr.
  2:{ destruct ((0 <=? gpa) && (gpa <? 16384)) eqn:Hs; [|done].
      rewrite andb_true_iff, Z.leb_le, Z.ltb_lt in Hs. rewrite andb_false_iff, Z.leb_gt, Z.ltb_ge in Hr. lia. }
  rewrite andb_true_iff, Z.leb_le, Z.ltb_lt in Hr.
  assert (Hbig : 2 ^ 21 <= gpa -> (0 <=? gpa) && (gpa <? 16384) = false)
    by (intros; rewrite andb_false_iff, Z.leb_gt, Z.ltb_ge; lia).
  rewrite (single_entry_walk m' 4 _ _ _ (npt1 r)); [|lia|done|done|exact Hr].
  destruct (gpa <? 2 ^ level_shift 4) eqn:E4; change (level_shift 4) with 39 in E4;
    [apply Z.ltb_lt in E4|apply Z.ltb_ge in E4; by rewrite Hbig by lia].
  rewrite (single_entry_walk m' 3 _ _ _ (npt2 r)); [|lia|done|done|exact (conj (proj1 Hr) E4)].
  destruct (gpa <? 2 ^ level_shift 3) eqn:E3; change (level_shift 3) with 30 in E3;
    [apply Z.ltb_lt in E3|apply Z.ltb_ge in E3; by rewrite Hbig by lia].
  rewrite (single_entry_walk m' 2 _ _ _ (npt3 r)); [|lia|done|done|exact (conj (proj1 Hr) E3)].
  destruct (gpa <? 2 ^ level_shift 2) eqn:E2; change (level_shift 2) with 21 in E2;
    [apply Z.ltb_lt in E2|apply Z.ltb_ge in E2; by rewrite Hbig by lia].
  clear Hbig E4 E3. change (7 .& 7 .& 7 .& 7) with 7. simpl pred.
  assert (Hix : table_index 1 gpa = Z.to_nat (gpa / PAGE)) by (apply (index_top 1); [lia|exact (conj (proj1 Hr) E2)]).
  pose proof (index_small 1 gpa) as Hi. rewrite Hix in Hi.
  assert (Hdiv : (0 <=? gpa) && (gpa <? 16384) = bool_decide (Z.to_nat (gpa / PAGE) < 4)%nat).
  { apply eq_iff_eq_true. rewrite andb_true_iff, Z.leb_le, Z.ltb_lt, bool_decide_eq_true. unfold PAGE. zlia. }
  rewrite Hdiv. cbn [walk]. rewrite H3. cbn [mbind option_bind]. rewrite Hix, Ht by done. cbn [mbind option_bind is_leaf].
  change (level_shift 1) with 12. clear Hix Hdiv Hi.
  destruct (Z.to_nat (gpa / PAGE)) as [|[|[|[|j]]]]; cbn [sandbox_page];
    try (rewrite entry_lor, entry_rights, entry_next by done; reflexivity); reflexivity.
Qed.

(** ** The property *)
(** C39: walking the tables the module builds, the processor translates every
    guest-physical address below 512 GiB to itself with all rights and faults on
    every other one, with the SVM and the VMX format alike; in the sandbox exactly
    the first 16 KiB are mapped, each page to its own, and nothing else is. *)
Theorem nested_walks_exact (r : svm_run) (pml4 pdpt : Z) (m : gmap Z (list Z)) t :
  sandbox_ok r -> zeroed r m -> page_ok pdpt -> pml4 <> pdpt -> m !! pdpt = Some t -> length t = 512%nat ->
  forall gpa,
  translate (svm_build_npt_identity r m) (npt0 r) gpa =
    (if (0 <=? gpa) && (gpa <? 2 ^ 39) then Some (gpa, 7) else None) /\
  translate (vmx_build_ept_identity pml4 pdpt m) pml4 gpa =
    (if (0 <=? gpa) && (gpa <? 2 ^ 39) then Some (gpa, 7) else None) /\
  translate (svm_build_npt r m) (npt0 r) gpa =
    (if (0 <=? gpa) && (gpa <? 0x4000)
     then (fun pa => (pa + gpa mod PAGE, 7)) <$> sandbox_page r (Z.to_nat (gpa / PAGE)) else None).
Proof.
  intros Hok Hz Hpd Hne Ht Hlen gpa. split_and!; [|by eapply identity_tables; eauto using ept_leaf_gib|by apply sandbox_walk].
  destruct Hok as [Hnd Hpg]. unfold zeroed in Hz. rewrite !Forall_cons in Hz, Hpg. rewrite NoDup_cons, !not_elem_of_cons in Hnd.
  destruct Hz as (_ & H1 & _), Hnd as ((Ha & _) & _), Hpg as (_ & P1 & _).
  eapply identity_tables; [apply npt_leaf_gib|done|done|done|]. unfold zero_page. apply length_replicate.
Qed.

Definition demo_run : svm_run := mk_svm 0x1000 0x2000 0x3000 0x4000 0x5000 0x6000 0x7000 0x8000.
Definition demo_memory : gmap Z (list Z) :=
  list_to_map ((fun pa => (pa, zero_page)) <$> [0x1000; 0x2000; 0x3000; 0x4000; 0x9000; 0xa000]).
Lemma nested_walks_exact_witness :
  translate (svm_build_npt demo_run demo_memory) 0x1000 0x1234 = Some (0x6234, 7) /\
  translate (svm_build_npt demo_run demo_memory) 0x1000 0x4000 = None /\
  translate (vmx_build_ept_identity 0x9000 0xa000 demo_memory) 0x9000 0x7fffffffff = Some (0x7fffffffff, 7).
Proof.
  assert (H : forall gpa, _ /\ _ /\ _) by
    (apply (nested_walks_exact demo_run 0x9000 0xa000 demo_memory zero_page);
     [split; [apply (bool_decide_unpack _); vm_compute; exact I|repeat constructor; unfold page_ok; simpl; lia]
     |repeat constructor|split; [lia|done]|done|done|done]).
  split_and!.
  - exact (proj2 (proj2 (H 0x1234))).
  - exact (proj2 (proj2 (H 0x4000))).
  - exact (proj1 (proj2 (H 0x7fffffffff))).
Defined.
End NestedTables.
