(* ===== verification/Device.v ===== *)
(** * The control device (kernel/vmctx.c, kernel/vmctx_uapi.h)

    /dev/vmctx keeps a list of context objects with an IDR that numbers them, and
    can bring the virtualisation extension up on the calling CPU for one context
    to prove that it works.  Every ioctl runs under g_lock, so one ioctl is one
    transition.  The state is the capabilities found at load time, the IDR, the
    list with its counter, the pages the driver holds, and the registers of the
    CPU that bring-up touches.  Allocations, MSR reads, VMXON and the copies from
    and to user memory are answered by the argument of the transition. *)
From S2P Require Import Prelude.
Open Scope Z_scope.

Module Device.

Definition ENODEV : Z := 19.
Definition ENOTTY : Z := 25.

(** ** vmctx_uapi.h *)
Inductive vmctx_vendor := VMCTX_VENDOR_NONE | VMCTX_VENDOR_INTEL | VMCTX_VENDOR_AMD.
#[global] Instance vmctx_vendor_eq_dec : EqDecision vmctx_vendor.
Proof. solve_decision. Defined.
Definition VMCTX_CAP_PRESENT : Z := 1.
Definition VMCTX_CAP_ENABLED : Z := 2.
Definition VMCTX_CAP_EPT_NPT : Z := 4.
Definition VMCTX_CAP_UNRESTRICTED : Z := 8.
Definition VMCTX_CAP_BROUGHT_UP : Z := 16.
Definition VMCTX_CAP_BACKEND : Z := 32.
Inductive vmctx_state := VMCTX_STATE_CREATED | VMCTX_STATE_BROUGHTUP.
Definition VMCTX_CREATE_FLAG_BRINGUP : Z := 1.

(** ** State *)
Record vmctx_caps := mk_caps {
  vendor : vmctx_vendor; caps : Z; vmx_basic : Z; feat_ctl : Z; vm_cr : Z; efer : Z }.
(** struct vmctx; the link and the region pointer are the list and the page *)
Record vmctx := mk_vmctx {
  id : Z; owner_pid : Z; state : vmctx_state; flags : Z;
  vmcs : option Z; vmcs_pa : Z; vmcs_rev : Z;
  host_cr0 : Z; host_cr3 : Z; host_cr4 : Z; host_efer : Z;
  last_exit_reason : Z; last_exit_qual : Z }.
Record registers := mk_registers { r_cr0 : Z; r_cr3 : Z; r_cr4 : Z; r_efer : Z; r_hsave : Z }.
Record device := mk_device {
  g_caps : vmctx_caps; g_idr : gmap Z vmctx; g_contexts : list Z; g_nr_contexts : Z;
  g_pages : list Z; g_cpu : registers }.

Record answers := mk_answers {
  an_alloc : bool;            (* kzalloc of the object *)
  an_idr : bool;              (* idr_alloc found memory *)
  an_page : option Z;         (* get_zeroed_page for the region *)
  an_hsave : option Z;        (* get_zeroed_page for the host save area *)
  an_vmxon : bool;            (* VMXON succeeded *)
  an_vm_cr : option Z;        (* MSR_VM_CR, if readable *)
  an_efer : bool;             (* MSR_EFER readable *)
  an_svme : bool;             (* writing EFER.SVME did not fault *)
  an_in : bool; an_out : bool; (* copy_from_user, copy_to_user *)
  an_pid : Z }.               (* task_pid_nr(current) *)

(** ** Capability detection *)
(** what the read-only MSRs and CPUID say; [None] is a read that faulted *)
Record cpu_facts := mk_facts {
  has_vmx : bool; has_svm : bool; f_efer : option Z; f_feat_ctl : option Z; f_vmx_basic : option Z;
  f_procbased2 : option Z; f_vm_cr : option Z; f_svm_edx : Z }.
Definition detect_caps (f : cpu_facts) : vmctx_caps :=
  let ef := default 0 (f_efer f) in
  if has_vmx f then
    let c := VMCTX_CAP_PRESENT in
    let c := match f_feat_ctl f with
             | Some v => if negb (Z.testbit v 0) || Z.testbit v 2 then c .| VMCTX_CAP_ENABLED else c
             | None => c
             end in
    let c := match f_procbased2 f with
             | Some v => let c := if Z.testbit v 33 then c .| VMCTX_CAP_EPT_NPT else c in
                         if Z.testbit v 39 then c .| VMCTX_CAP_UNRESTRICTED else c
             | None => c
             end in
    mk_caps VMCTX_VENDOR_INTEL c (default 0 (f_vmx_basic f)) (default 0 (f_feat_ctl f)) 0 ef
  else if has_svm f then
    let c := VMCTX_CAP_PRESENT in
    let c := match f_vm_cr f with
             | Some v => if negb (Z.testbit v 4) then c .| VMCTX_CAP_ENABLED else c
             | None => c .| VMCTX_CAP_ENABLED
             end in
    let c := if Z.testbit (f_svm_edx f) 0 then c .| VMCTX_CAP_EPT_NPT else c in
    mk_caps VMCTX_VENDOR_AMD c 0 0 (default 0 (f_vm_cr f)) ef
  else mk_caps VMCTX_VENDOR_NONE 0 0 0 0 ef.

(** ** Bring-up *)
Definition X86_CR4_VMXE : Z := 0x2000.
Definition EFER_SVME : Z := 0x1000.
Definition set_cr4 (v : Z) (r : registers) : registers := mk_registers (r_cr0 r) (r_cr3 r) v (r_efer r) (r_hsave r).
Definition set_efer (v : Z) (r : registers) : registers := mk_registers (r_cr0 r) (r_cr3 r) (r_cr4 r) v (r_hsave r).
Definition set_hsave (v : Z) (r : registers) : registers := mk_registers (r_cr0 r) (r_cr3 r) (r_cr4 r) (r_efer r) v.
(** the host state captured in the context *)
Definition capture (cr0 cr3 cr4 ef : Z) (c : vmctx) : vmctx :=
  mk_vmctx (id c) (owner_pid c) (state c) (flags c) (vmcs c) (vmcs_pa c) (vmcs_rev c) cr0 cr3 cr4 ef
    (last_exit_reason c) (last_exit_qual c).
Definition set_region (page : Z) (c : vmctx) : vmctx :=
  mk_vmctx (id c) (owner_pid c) (state c) (flags c) (Some page) page (vmcs_rev c) (host_cr0 c) (host_cr3 c) (host_cr4 c)
    (host_efer c) (last_exit_reason c) (last_exit_qual c).
Definition set_rev (rev : Z) (c : vmctx) : vmctx :=
  mk_vmctx (id c) (owner_pid c) (state c) (flags c) (vmcs c) (vmcs_pa c) rev (host_cr0 c) (host_cr3 c) (host_cr4 c)
    (host_efer c) (last_exit_reason c) (last_exit_qual c).
Definition brought_up (c : vmctx) : vmctx :=
  mk_vmctx (id c) (owner_pid c) VMCTX_STATE_BROUGHTUP (flags c .| VMCTX_CAP_BROUGHT_UP) (vmcs c) (vmcs_pa c) (vmcs_rev c)
    (host_cr0 c) (host_cr3 c) (host_cr4 c) (host_efer c) (last_exit_reason c) (last_exit_qual c).

Definition bringup_intel (a : answers) (g : vmctx_caps) (c : vmctx) (r : registers) : Z * vmctx * registers :=
  match vmcs c with
  | None => (- ENOMEM, c, r)
  | Some _ =>
      let c := set_rev (vmx_basic g .& 0x7fffffff) c in
      let cr4_saved := r_cr4 r in
      let c := capture (r_cr0 r) (r_cr3 r) cr4_saved (efer g) c in
      let r := set_cr4 (cr4_saved .| X86_CR4_VMXE) r in
      if an_vmxon a
      then (0, brought_up c, set_cr4 cr4_saved r)
      else (- EIO, c, set_cr4 cr4_saved r)
  end.
(** the page of the host save area is freed on every path *)
Definition bringup_amd (a : answers) (c : vmctx) (r : registers) : Z * vmctx * registers :=
  match vmcs c with
  | None => (- ENOMEM, c, r)
  | Some _ =>
      match an_hsave a with
      | None => (- ENOMEM, c, r)
      | Some hsave =>
          let c := capture (r_cr0 r) (r_cr3 r) (r_cr4 r) (host_efer c) c in
          if match an_vm_cr a with Some v => Z.testbit v 4 | None => false end then (- EPERM, c, r)
          else if negb (an_efer a) then (- EIO, c, r)
          else
            let ef := r_efer r in
            let c := capture (host_cr0 c) (host_cr3 c) (host_cr4 c) ef c in
            if negb (an_svme a) then (- EIO, c, r)
            else
              let r := set_efer (ef .| EFER_SVME) r in
              let r := set_hsave hsave r in
              let c := set_rev 0 c in
              let r := set_efer ef r in
              (0, brought_up c, r)
      end
  end.
(** the context, the page taken for its region, and the registers *)
Definition ctx_bringup (a : answers) (g : vmctx_caps) (c : vmctx) (r : registers) : Z * vmctx * list Z * registers :=
  if (caps g .& VMCTX_CAP_PRESENT) =? 0 then (- ENODEV, c, [], r)
  else if (caps g .& VMCTX_CAP_ENABLED) =? 0 then (- EPERM, c, [], r)
  else
    let start (c : vmctx) (pages : list Z) :=
      match vendor g with
      | VMCTX_VENDOR_INTEL => let '(ret, c, r) := bringup_intel a g c r in (ret, c, pages, r)
      | VMCTX_VENDOR_AMD => let '(ret, c, r) := bringup_amd a c r in (ret, c, pages, r)
      | VMCTX_VENDOR_NONE => (- ENODEV, c, pages, r)
      end in
    match vmcs c with
    | Some _ => start c []
    | None => match an_page a with
              | Some p => start (set_region p c) [p]
              | None => (- ENOMEM, c, [], r)
              end
    end.

(** ** Contexts *)
(** idr_alloc from 0: the lowest free number *)
Fixpoint lowest_free (idr : gmap Z vmctx) (fuel : nat) (i : Z) : Z :=
  match fuel with
  | O => i
  | S fuel => match idr !! i with Some _ => lowest_free idr fuel (i + 1) | None => i end
  end.
Definition ctx_find (i : Z) (d : device) : option vmctx := g_idr d !! i.
Definition set_ctx (c : vmctx) (pages : list Z) (r : registers) (d : device) : device :=
  mk_device (g_caps d) (<[id c := c]> (g_idr d)) (g_contexts d) (g_nr_contexts d) (pages ++ g_pages d) r.
Definition ctx_create (a : answers) (owner : Z) (d : device) : (Z + vmctx) * device :=
  if negb (an_alloc a) then (inl (- ENOMEM), d)
  else if negb (an_idr a) then (inl (- ENOMEM), d)
  else
    let i := lowest_free (g_idr d) (size (g_idr d)) 0 in
    let c := mk_vmctx i owner VMCTX_STATE_CREATED (caps (g_caps d) .& 15) None 0 0 0 0 0 0 U64MAX 0 in
    (inr c, mk_device (g_caps d) (<[i := c]> (g_idr d)) (g_contexts d ++ [i]) (u32 (g_nr_contexts d + 1)) (g_pages d) (g_cpu d)).
Definition list_del (i : Z) (l : list Z) : list Z := filter (fun j => j <> i) l.
Definition ctx_destroy (c : vmctx) (d : device) : device :=
  mk_device (g_caps d) (delete (id c) (g_idr d)) (list_del (id c) (g_contexts d)) (u32 (g_nr_contexts d - 1))
    (match vmcs c with Some p => list_del p (g_pages d) | None => g_pages d end) (g_cpu d).

(** ** ioctl *)
Inductive request :=
| VMCTX_IOC_INFO
| VMCTX_IOC_CREATE (rq_flags target_pid : Z)
| VMCTX_IOC_DUMP (rq_id : Z)
| VMCTX_IOC_DESTROY (rq_id : Z)
| IOC_OTHER.
(** what is copied back *)
Inductive reply :=
| RpNone
| RpInfo (g : vmctx_caps) (nr : Z)
| RpCreate (i : Z)
| RpDump (c : vmctx) (g : vmctx_caps).
Definition vmctx_ioctl_info (a : answers) (d : device) : Z * reply * device :=
  if an_out a then (0, RpInfo (g_caps d) (g_nr_contexts d), d) else (- EFAULT, RpNone, d).
Definition vmctx_ioctl_create (a : answers) (fl pid : Z) (d : device) : Z * reply * device :=
  if negb (an_in a) then (- EFAULT, RpNone, d)
  else
    let owner := if pid =? 0 then an_pid a else pid in
    match ctx_create a owner d with
    | (inl e, d) => (e, RpNone, d)
    | (inr c, d) =>
        let '(ret, d) :=
          if nz (fl .& VMCTX_CREATE_FLAG_BRINGUP)
          then let '(ret, c, pages, r) := ctx_bringup a (g_caps d) c (g_cpu d) in (ret, set_ctx c pages r d)
          else (0, d) in
        if an_out a then (ret, RpCreate (id c), d) else (- EFAULT, RpNone, d)
    end.
Definition vmctx_ioctl_dump (a : answers) (i : Z) (d : device) : Z * reply * device :=
  if negb (an_in a) then (- EFAULT, RpNone, d)
  else match ctx_find i d with
       | None => (- ENOENT, RpNone, d)
       | Some c => if an_out a then (0, RpDump c (g_caps d), d) else (- EFAULT, RpNone, d)
       end.
Definition vmctx_ioctl_destroy (a : answers) (i : Z) (d : device) : Z * reply * device :=
  if negb (an_in a) then (- EFAULT, RpNone, d)
  else match ctx_find i d with
       | None => (- ENOENT, RpNone, d)
       | Some c => (0, RpNone, ctx_destroy c d)
       end.
Definition vmctx_ioctl (a : answers) (q : request) (d : device) : Z * reply * device :=
  match q with
  | VMCTX_IOC_INFO => vmctx_ioctl_info a d
  | VMCTX_IOC_CREATE fl pid => vmctx_ioctl_create a fl pid d
  | VMCTX_IOC_DUMP i => vmctx_ioctl_dump a i d
  | VMCTX_IOC_DESTROY i => vmctx_ioctl_destroy a i d
  | IOC_OTHER => (- ENOTTY, RpNone, d)
  end.
(** Module load: a backend is registered on a usable CPU ([registered] is whether
    that succeeded), and CAP_BACKEND says so.  Unload destroys what is left. *)
Definition add_backend (g : vmctx_caps) : vmctx_caps :=
  mk_caps (vendor g) (caps g .| VMCTX_CAP_BACKEND) (vmx_basic g) (feat_ctl g) (vm_cr g) (efer g).
Definition vmctx_init (f : cpu_facts) (registered : bool) (r : registers) : device :=
  let g := detect_caps f in
  let usable := bool_decide (vendor g <> VMCTX_VENDOR_NONE) && nz (caps g .& VMCTX_CAP_ENABLED) in
  mk_device (if usable && registered then add_backend g else g) ∅ [] 0 [] r.
Definition vmctx_exit (d : device) : device :=
  fold_left (fun d i => match g_idr d !! i with Some c => ctx_destroy c d | None => d end) (g_contexts d) d.

(** pages come from an allocator: none is handed out twice *)
Inductive dev_step : device -> device -> Prop :=
| step_ioctl d a q :
    (forall p, an_page a = Some p -> p ∉ g_pages d) ->
    dev_step d (vmctx_ioctl a q d).2.

(** ** Invariant *)
Record dev_ok (d : device) : Prop := {
  dk_nodup : NoDup (g_contexts d);
  dk_listed : forall i, i ∈ g_contexts d <-> is_Some (g_idr d !! i);
  dk_id : forall i c, g_idr d !! i = Some c -> id c = i /\ 0 <= i;
  dk_count : g_nr_contexts d = u32 (Z.of_nat (length (g_contexts d)));
  dk_pages : forall p, p ∈ g_pages d <-> exists i c, g_idr d !! i = Some c /\ vmcs c = Some p;
  dk_own : forall i j c c' p, g_idr d !! i = Some c -> g_idr d !! j = Some c' ->
    vmcs c = Some p -> vmcs c' = Some p -> i = j;
  dk_up : forall i c, g_idr d !! i = Some c -> state c = VMCTX_STATE_BROUGHTUP -> is_Some (vmcs c) }.

Lemma lowest_free_spec idr fuel i :
  let r := lowest_free idr fuel i in
  i <= r /\ (forall j, i <= j < r -> is_Some (idr !! j)) /\ (idr !! r = None \/ r = i + Z.of_nat fuel).
Proof.
  revert i. induction fuel as [|fuel IH]; intros i; simpl.
  - split_and!; [lia|lia|right; lia].
  - destruct (idr !! i) eqn:Hi; [|split_and!; auto; lia].
    destruct (IH (i + 1)) as (H1 & H2 & H3). split_and!; [lia| |].
    + intros j Hj. destruct (decide (j = i)) as [->|]; [eauto|apply H2; lia].
    + destruct H3 as [?|H3]; [by left|right]. rewrite H3. lia.
Qed.
Lemma lowest_free_fresh idr : idr !! lowest_free idr (size idr) 0 = None /\ 0 <= lowest_free idr (size idr) 0.
Proof.
  destruct (lowest_free_spec idr (size idr) 0) as (H1 & H2 & H3). split; [|done].
  destruct H3 as [?|H3]; [done|]. set (n := lowest_free idr (size idr) 0) in *.
  destruct (idr !! n) eqn:Hn; [|done]. exfalso.
  assert (Hsub : (list_to_set (seqZ 0 (n + 1)) : gset Z) ⊆ dom idr).
  { intros j. rewrite elem_of_list_to_set, elem_of_seqZ, elem_of_dom. intros Hj.
    destruct (decide (j = n)) as [->|]; [eauto|apply H2; lia]. }
  apply subseteq_size in Hsub. rewrite size_list_to_set, size_dom, length_seqZ in Hsub by apply NoDup_seqZ. lia.
Qed.

Lemma bringup_registers a g c r ret c' pages r' :
  ctx_bringup a g c r = (ret, c', pages, r') ->
  r_cr0 r' = r_cr0 r /\ r_cr3 r' = r_cr3 r /\ r_cr4 r' = r_cr4 r /\ r_efer r' = r_efer r /\
  (vendor g <> VMCTX_VENDOR_AMD -> r_hsave r' = r_hsave r).
Proof.
  unfold ctx_bringup, bringup_intel, bringup_amd. intros H. destruct r.
  repeat (case_match; simplify_eq/=); split_and!; auto; intros; congruence.
Qed.
(** the context keeps its number, gains at most the page taken, and is only
    reported as brought up when it has a region *)
Lemma bringup_context a g c r ret c' pages r' :
  vmcs c = None -> state c = VMCTX_STATE_CREATED -> ctx_bringup a g c r = (ret, c', pages, r') ->
  id c' = id c /\
  ((pages = [] /\ vmcs c' = None) \/ (exists p, an_page a = Some p /\ pages = [p] /\ vmcs c' = Some p)) /\
  (state c' = VMCTX_STATE_BROUGHTUP -> ret = 0 /\ is_Some (vmcs c')).
Proof.
  unfold ctx_bringup, bringup_intel, bringup_amd. intros Hv Hs H. rewrite Hv in H.
  repeat (case_match; simplify_eq/=); split_and!; eauto; try (intros; congruence);
    try (right; eexists; by split_and!).
Qed.

Lemma create_ok a owner d c d' :
  dev_ok d -> ctx_create a owner d = (inr c, d') ->
  dev_ok d' /\ g_idr d !! id c = None /\ g_idr d' = <[id c := c]> (g_idr d) /\
  vmcs c = None /\ state c = VMCTX_STATE_CREATED /\ g_cpu d' = g_cpu d /\ g_pages d' = g_pages d /\ g_caps d' = g_caps d.
Proof.
  intros [Hnd Hl Hid Hcnt Hpg Hown Hup]. unfold ctx_create.
  destruct (an_alloc a); [|done]. destruct (an_idr a); [|done]. simpl. intros [= <- <-].
  destruct (lowest_free_fresh (g_idr d)) as [Hf H0]. set (i := lowest_free _ _ _) in *. simpl.
  assert (Hni : i ∉ g_contexts d) by (rewrite Hl, Hf; by intros [? ?]).
  split_and!; try done. split; simpl.
  - apply NoDup_app. split_and!; [done| |apply NoDup_singleton]. intros x Hx Hin%list_elem_of_singleton. by subst.
  - intros j. rewrite elem_of_app, list_elem_of_singleton, Hl. destruct (decide (j = i)) as [->|Hj].
    + rewrite lookup_insert_eq. naive_solver.
    + rewrite lookup_insert_ne by done. naive_solver.
  - intros j c [[<- <-]|[_ Hj]]%lookup_insert_Some; [done|auto].
  - rewrite length_app, Hcnt. unfold u32. simpl. rewrite Zplus_mod_idemp_l. f_equal. lia.
  - intros p. rewrite Hpg. split.
    + intros (j & c & Hj & Hv). exists j, c. split; [|done]. rewrite lookup_insert_ne; [done|congruence].
    + intros (j & c & [[<- <-]|[_ Hj]]%lookup_insert_Some & Hv); [done|eauto].
  - intros j k c c' p [[<- <-]|[_ Hj]]%lookup_insert_Some [[<- <-]|[_ Hk]]%lookup_insert_Some; try done. eauto.
  - intros j c [[<- <-]|[_ Hj]]%lookup_insert_Some; [done|eauto].
Qed.

Lemma set_ctx_ok d c0 c pages r :
  dev_ok d -> g_idr d !! id c = Some c0 -> vmcs c0 = None ->
  ((pages = [] /\ vmcs c = None) \/ (exists p, pages = [p] /\ vmcs c = Some p /\ p ∉ g_pages d)) ->
  (state c = VMCTX_STATE_BROUGHTUP -> is_Some (vmcs c)) ->
  dev_ok (set_ctx c pages r d).
Proof.
  intros [Hnd Hl Hid Hcnt Hpg Hown Hup] Hc0 Hv0 Hpages Hst. split; simpl; auto.
  - intros j. rewrite Hl. destruct (decide (j = id c)) as [->|Hj].
    + rewrite lookup_insert_eq, Hc0. split; eauto.
    + by rewrite lookup_insert_ne.
  - intros j c' [[<- <-]|[_ Hj]]%lookup_insert_Some; [|auto]. split; [done|]. by apply Hid in Hc0 as [_ ?].
  - intros p. rewrite elem_of_app, Hpg. split.
    + intros [Hp|(j & c' & Hj & Hv)].
      * destruct Hpages as [[-> _]|(q & -> & Hq & _)]; [by apply not_elem_of_nil in Hp|].
        apply list_elem_of_singleton in Hp as ->. exists (id c), c. by rewrite lookup_insert_eq.
      * exists j, c'. split; [|done]. rewrite lookup_insert_ne; [done|]. intros <-. congruence.
    + intros (j & c' & [[<- <-]|[_ Hj]]%lookup_insert_Some & Hv); [left|right; eauto].
      destruct Hpages as [[_ Hn]|(q & -> & Hq & _)]; [congruence|]. apply list_elem_of_singleton. congruence.
  - intros j k c1 c2 p [[<- <-]|[Hne Hj]]%lookup_insert_Some [[<- <-]|[Hne' Hk]]%lookup_insert_Some; eauto.
    + intros Hp Hp'. destruct Hpages as [[_ Hn]|(q & -> & Hq & Hnq)]; [congruence|].
      destruct Hnq. apply Hpg. exists k, c2. split; congruence.
    + intros Hp Hp'. destruct Hpages as [[_ Hn]|(q & -> & Hq & Hnq)]; [congruence|].
      destruct Hnq. apply Hpg. exists j, c1. split; congruence.
  - intros j c' [[<- <-]|[_ Hj]]%lookup_insert_Some; eauto.
Qed.

Lemma list_del_length i l : NoDup l -> i ∈ l -> length (list_del i l) = pred (length l).
Proof.
  unfold list_del. induction l as [|x l IH]; intros Hnd Hi; [by apply not_elem_of_nil in Hi|].
  apply NoDup_cons in Hnd as [Hx Hnd]. rewrite filter_cons. destruct (decide (x <> i)) as [Hne|He].
  - apply elem_of_cons in Hi as [->|Hi]; [done|]. simpl. rewrite IH by done.
    destruct l; [by apply not_elem_of_nil in Hi|done].
  - apply dec_stable in He as ->. simpl. f_equal. apply filter_all. intros y Hy ->. done.
Qed.

Lemma destroy_ok d i c : dev_ok d -> g_idr d !! i = Some c ->
  dev_ok (ctx_destroy c d) /\ g_idr (ctx_destroy c d) = delete i (g_idr d).
Proof.
  intros [Hnd Hl Hid Hcnt Hpg Hown Hup] Hi. destruct (Hid _ _ Hi) as [Hci H0].
  assert (Hin : i ∈ g_contexts d) by (apply Hl; eauto).
  split; [|by simpl; rewrite Hci]. split; simpl; rewrite ?Hci.
  - by apply NoDup_filter.
  - intros j. unfold list_del. rewrite list_elem_of_filter, Hl. destruct (decide (j = i)) as [->|Hj].
    + rewrite lookup_delete_eq. split; [by intros [? _]|by intros [? ?]].
    + rewrite lookup_delete_ne by done. naive_solver.
  - intros j c' [_ Hj]%lookup_delete_Some. auto.
  - rewrite list_del_length, Hcnt by done. unfold u32. rewrite Zminus_mod_idemp_l. f_equal.
    destruct (g_contexts d); [by apply not_elem_of_nil in Hin|]. simpl. lia.
  - intros p. split.
    + intros Hp. assert (Hp' : p ∈ g_pages d /\ vmcs c <> Some p).
      { destruct (vmcs c) as [q|]; [|done]. unfold list_del in Hp. apply list_elem_of_filter in Hp as [Hne Hp].
        split; [done|]. by intros [= ->]. }
      destruct Hp' as [Hp' Hne]. apply Hpg in Hp' as (j & c' & Hj & Hv). exists j, c'. split; [|done].
      rewrite lookup_delete_ne; [done|]. intros <-. congruence.
    + intros (j & c' & [Hne Hj]%lookup_delete_Some & Hv).
      assert (Hp : p ∈ g_pages d) by (apply Hpg; eauto). destruct (vmcs c) as [q|] eqn:Hq; [|done].
      unfold list_del. apply list_elem_of_filter. split; [|done]. intros ->. destruct Hne. eauto.
  - intros j k c1 c2 p [_ Hj]%lookup_delete_Some [_ Hk]%lookup_delete_Some. eauto.
  - intros j c' [_ Hj]%lookup_delete_Some. eauto.
Qed.

Lemma ioctl_create_ok a fl pid d ret rp d' :
  dev_ok d -> (forall p, an_page a = Some p -> p ∉ g_pages d) ->
  vmctx_ioctl_create a fl pid d = (ret, rp, d') ->
  dev_ok d' /\ g_caps d' = g_caps d /\
  (r_cr0 (g_cpu d'), r_cr3 (g_cpu d'), r_cr4 (g_cpu d'), r_efer (g_cpu d')) =
  (r_cr0 (g_cpu d), r_cr3 (g_cpu d), r_cr4 (g_cpu d), r_efer (g_cpu d)) /\
  (g_idr d' = g_idr d \/ exists c, g_idr d !! id c = None /\ g_idr d' = <[id c := c]> (g_idr d) /\
     (rp = RpCreate (id c) \/ ret = - EFAULT)) /\
  (forall i, rp = RpCreate i -> g_idr d !! i = None /\ is_Some (g_idr d' !! i)).
Proof.
  intros Hok Hfresh. unfold vmctx_ioctl_create. destruct (an_in a); [|intros [= <- <- <-]; split_and!; by auto]. simpl.
  destruct (ctx_create a _ d) as [[e|c] d1] eqn:Hc.
  { intros [= <- <- <-]. unfold ctx_create in Hc. repeat case_match; simplify_eq/=; split_and!; by auto. }
  destruct (create_ok _ _ _ _ _ Hok Hc) as (Hok1 & Hnew & Hidr & Hv & Hs & Hcpu & Hpg & Hcaps).
  destruct (nz (fl .& VMCTX_CREATE_FLAG_BRINGUP)).
  - destruct (ctx_bringup a (g_caps d1) c (g_cpu d1)) as [[[bret c2] pages] r2] eqn:Hb.
    destruct (bringup_registers _ _ _ _ _ _ _ _ Hb) as (R0 & R3 & R4 & Re & _).
    destruct (bringup_context _ _ _ _ _ _ _ _ Hv Hs Hb) as (Hid & Hpages & Hup).
    assert (Hok2 : dev_ok (set_ctx c2 pages r2 d1)).
    { eapply set_ctx_ok; [done|rewrite Hid, Hidr; apply lookup_insert_eq|done| |by intros [_ ?]%Hup].
      destruct Hpages as [?|(p & Hp & ? & ?)]; [by left|right]. exists p. split_and!; auto. rewrite Hpg. auto. }
    assert (Hidr2 : g_idr (set_ctx c2 pages r2 d1) = <[id c2 := c2]> (g_idr d)).
    { simpl. rewrite Hidr, Hid. by rewrite insert_insert_eq. }
    destruct (an_out a); intros [= <- <- <-]; simpl; rewrite ?R0, ?R3, ?R4, ?Re, ?Hcpu; split_and!; auto; try done.
    + right. exists c2. rewrite <- Hid. rewrite Hid at 1. auto.
    + intros i [= <-]. simpl in Hidr2. rewrite Hidr2, <- Hid. rewrite Hid at 1. split; [done|]. rewrite lookup_insert_eq. eauto.
    + right. exists c2. rewrite Hid at 1. auto.
  - destruct (an_out a); intros [= <- <- <-]; rewrite ?Hcpu; split_and!; eauto 10; try done.
    intros i [= <-]. rewrite Hidr, lookup_insert_eq. eauto.
Qed.

Definition kept_registers (r r' : registers) : Prop :=
  (r_cr0 r', r_cr3 r', r_cr4 r', r_efer r') = (r_cr0 r, r_cr3 r, r_cr4 r, r_efer r).
Lemma ioctl_ok a q d :
  dev_ok d -> (forall p, an_page a = Some p -> p ∉ g_pages d) ->
  dev_ok (vmctx_ioctl a q d).2 /\ kept_registers (g_cpu d) (g_cpu (vmctx_ioctl a q d).2).
Proof.
  intros Hok Hf. unfold kept_registers. destruct q as [|fl pid|i|i|]; simpl; [..|done].
  - unfold vmctx_ioctl_info. by case_match.
  - destruct (vmctx_ioctl_create a fl pid d) as [[ret rp] d'] eqn:H.
    by destruct (ioctl_create_ok _ _ _ _ _ _ _ Hok Hf H) as (? & _ & ? & _).
  - unfold vmctx_ioctl_dump. by repeat case_match.
  - unfold vmctx_ioctl_destroy, ctx_find. repeat case_match; try done. simpl. split; [|done].
    by eapply destroy_ok.
Qed.
Lemma init_ok f registered r : dev_ok (vmctx_init f registered r).
Proof.
  split; simpl; try done; try apply NoDup_nil_2.
  - intros i. rewrite lookup_empty. split; [by intros ?%not_elem_of_nil|by intros [? ?]].
  - intros p. split; [by intros ?%not_elem_of_nil|]. intros (i & c & Hi & _). by rewrite lookup_empty in Hi.
Qed.
Lemma exit_ok d : dev_ok d -> g_idr (vmctx_exit d) = ∅ /\ g_contexts (vmctx_exit d) = [] /\ g_pages (vmctx_exit d) = [].
Proof.
  intros Hok. unfold vmctx_exit. remember (g_contexts d) as l eqn:Hl. revert d Hok Hl.
  induction l as [|x l IH]; intros d Hok Hl; simpl.
  - assert (He : g_idr d = ∅).
    { apply map_empty. intros i. destruct (g_idr d !! i) eqn:Hi; [|done].
      assert (Hin : i ∈ g_contexts d) by (apply (dk_listed _ Hok); eauto). rewrite <- Hl in Hin. by apply not_elem_of_nil in Hin. }
    split_and!; [done|done|]. destruct (g_pages d) as [|p ps] eqn:Hp; [done|].
    destruct (proj1 (dk_pages _ Hok p)) as (i & c & Hi & _); [rewrite Hp; apply list_elem_of_here|].
    by rewrite He, lookup_empty in Hi.
  - assert (Hin : x ∈ g_contexts d) by (rewrite <- Hl; apply list_elem_of_here).
    apply (dk_listed _ Hok) in Hin as [c Hc]. rewrite Hc. destruct (destroy_ok _ _ _ Hok Hc) as [Hok' _].
    apply IH; [done|]. simpl. destruct (dk_id _ Hok _ _ Hc) as [-> _]. rewrite <- Hl.
    pose proof (dk_nodup _ Hok) as Hnd. rewrite <- Hl in Hnd. apply NoDup_cons in Hnd as [Hx _].
    unfold list_del. rewrite filter_cons, decide_False by auto. symmetry. apply filter_all. by intros y Hy ->.
Qed.

(** ** The property *)
(** under every sequence of ioctls the list, the numbering and the counter
    agree, a context has its own region page and no other page is held, and a
    context is only reported as brought up when it has a region.  Bring-up leaves
    CR0, CR3, CR4 and EFER of the CPU as they were on every path.  A number that
    is handed out was free, a destroyed context is not found again, and unloading
    leaves no context and no page. *)
Theorem device_contexts_consistent f registered r d :
  steps dev_step (vmctx_init f registered r) d ->
  dev_ok d /\ kept_registers r (g_cpu d) /\
  (forall a fl pid ret i d', (forall p, an_page a = Some p -> p ∉ g_pages d) ->
     vmctx_ioctl a (VMCTX_IOC_CREATE fl pid) d = (ret, RpCreate i, d') ->
     g_idr d !! i = None /\ is_Some (g_idr d' !! i)) /\
  (forall a i rp d', vmctx_ioctl a (VMCTX_IOC_DESTROY i) d = (0, rp, d') ->
     is_Some (g_idr d !! i) /\ g_idr d' = delete i (g_idr d)) /\
  g_idr (vmctx_exit d) = ∅ /\ g_pages (vmctx_exit d) = [].
Proof.
  intros Hd. assert (Hok : dev_ok d /\ kept_registers r (g_cpu d)).
  { revert Hd. apply (steps_invariant dev_step (fun d => dev_ok d /\ kept_registers r (g_cpu d))); [|split; [apply init_ok|done]].
    intros s s' [Hok Hk] Hst. destruct Hst as [d0 a q Hf]. destruct (ioctl_ok a q d0 Hok Hf) as [? Hk'].
    split; [done|]. unfold kept_registers in *. congruence. }
  destruct Hok as [Hok Hk]. destruct (exit_ok d Hok) as (He & _ & Hep). split_and!; auto.
  - intros a fl pid ret i d' Hf H. simpl in H. destruct (ioctl_create_ok _ _ _ _ _ _ _ Hok Hf H) as (_ & _ & _ & _ & Hi). auto.
  - intros a i rp d' H. simpl in H. unfold vmctx_ioctl_destroy, ctx_find in H. case_match; [done|].
    destruct (g_idr d !! i) as [c|] eqn:Hc; simplify_eq/=. split; [eauto|]. by destruct (dk_id _ Hok _ _ Hc) as [-> _].
Qed.

(** An AMD CPU whose context was brought up keeps VM_HSAVE_PA at the page that
    bring-up has freed: EFER is put back, this register is not. *)
Lemma bringup_leaves_host_save_area a c r hsave page :
  vmcs c = Some page -> an_hsave a = Some hsave -> an_vm_cr a = None -> an_efer a = true -> an_svme a = true ->
  exists c' r', bringup_amd a c r = (0, c', r') /\ r_hsave r' = hsave.
Proof. intros Hv Hh Hm He Hs. unfold bringup_amd. rewrite Hv, Hh, Hm, He, Hs. simpl. eauto. Qed.

Definition demo_facts : cpu_facts := mk_facts true false (Some 0xd01) (Some 5) (Some 0x12345) (Some 0x8200000000) None 0.
Definition demo_registers : registers := mk_registers 0x80050033 0x1000 0x3406f0 0xd01 0.
Definition demo_answers : answers := mk_answers true true (Some 0x5000) None true None true true true true 77.
Definition demo_device : device :=
  (vmctx_ioctl demo_answers (VMCTX_IOC_CREATE 1 0) (vmctx_init demo_facts true demo_registers)).2.
Lemma device_contexts_consistent_witness :
  g_pages demo_device = [0x5000] /\ r_cr4 (g_cpu demo_device) = 0x3406f0 /\ g_pages (vmctx_exit demo_device) = [].
Proof.
  assert (Hs : steps dev_step (vmctx_init demo_facts true demo_registers) demo_device).
  { eapply steps_next; [apply steps_refl|]. apply step_ioctl. intros p _. apply not_elem_of_nil. }
  destruct (device_contexts_consistent demo_facts true demo_registers demo_device Hs) as (_ & Hk & _ & _ & _ & He).
  split; [vm_compute; reflexivity|]. split; [|done]. exact (f_equal (fun t => t.1.2) Hk).
Defined.
End Device.
