(* ===== verification/GuestExit.v ===== *)
(** * Guest exits (kernel/vmctx.c)

    What the module does when a guest leaves hardware execution: the exit
    handlers of the SVM and VMX backends (vmctx_be_run_usercode_once and
    vmx_run_usercode_once after the entry), the frame they exchange with the
    owner of the program, and the wrappers that keep the task's own frame.

    The registers of a guest are one record here: the VMCB save area or the run
    struct for RIP, RSP, RFLAGS (and RAX on SVM), gctx for the rest.  The owner
    (vmctx_redirect_fault, vmctx_redirect_syscall) is a parameter: it sees the
    frame and may rewrite it.  So are the instruction bytes, the demand backing
    of an address and the local fault service.  Every call to one of them is
    recorded in [st_log], newest first.  Histories, rings and counters that only
    diagnostics read are left out. *)
From S2P Require Import Prelude Native CpuModel Vmcs.
Import CpuModel.
Open Scope Z_scope.

Module GuestExit.

Definition EOPNOTSUPP : Z := 95.
Definition X86_EFLAGS_FIXED : Z := 2.
Definition X86_EFLAGS_IF : Z := 0x200.
Definition DR6_RESERVED : Z := 0xffff0ff0.

(** ** Registers *)
Record gregs := mk_gregs {
  ip : Z; sp : Z; ax : Z; flags : Z; bx : Z; cx : Z; dx : Z; si : Z; di : Z; bp : Z;
  r8 : Z; r9 : Z; r10 : Z; r11 : Z; r12 : Z; r13 : Z; r14 : Z; r15 : Z }.
(** struct pt_regs; CS and SS are the constants of user mode *)
Record frame := mk_frame { f_regs : gregs; orig_ax : Z }.

Definition set_ip (v : Z) (g : gregs) : gregs :=
  mk_gregs v (sp g) (ax g) (flags g) (bx g) (cx g) (dx g) (si g) (di g) (bp g)
    (r8 g) (r9 g) (r10 g) (r11 g) (r12 g) (r13 g) (r14 g) (r15 g).
Definition set_flags (v : Z) (g : gregs) : gregs :=
  mk_gregs (ip g) (sp g) (ax g) v (bx g) (cx g) (dx g) (si g) (di g) (bp g)
    (r8 g) (r9 g) (r10 g) (r11 g) (r12 g) (r13 g) (r14 g) (r15 g).
(** the answer of CPUID, and the registers SYSCALL clobbers *)
Definition set_cpuid (a b c d : Z) (g : gregs) : gregs :=
  mk_gregs (ip g) (sp g) a (flags g) b c d (si g) (di g) (bp g)
    (r8 g) (r9 g) (r10 g) (r11 g) (r12 g) (r13 g) (r14 g) (r15 g).
Definition set_syscall (i c r : Z) (g : gregs) : gregs :=
  mk_gregs i (sp g) (ax g) (flags g) (bx g) c (dx g) (si g) (di g) (bp g)
    (r8 g) (r9 g) (r10 g) r (r12 g) (r13 g) (r14 g) (r15 g).

(** ** State *)
Record spin := mk_spin { ticks : Z; reported : bool; first_rip : Z }.
Record run := mk_run {
  r_g : gregs; r_bases : Z * Z; last_sysnr : Z; r_spin : spin; unrec_addr : Z; unrec_n : Z }.
(** struct vmctx_task; [fsgs] holds the bases when fsgs_valid is set *)
Record vctx := mk_vctx {
  enters : Z; exits : Z; faults : Z; counter : Z; last_exit_reason : Z; exit_status : Z; fsgs : option (Z * Z) }.
Inductive call :=
| CallBack (addr : Z) | CallUnback (addr : Z) | CallReport (vec addr err : Z) (f : frame)
| CallSyscall (f : frame) | CallLocal (addr err : Z) | CallNmi.
Record st := mk_st { st_run : run; st_frame : frame; st_vc : vctx; st_log : list call }.

Inductive run_code := VMCTX_RUN_CONTINUE | VMCTX_RUN_EXIT | VMCTX_RUN_FAILED (e : Z).
#[global] Instance run_code_eq_dec : EqDecision run_code.
Proof. solve_decision. Defined.

(** The owner and the rest of the kernel.  A report is answered by a number (1:
    served, 0: declined, negative: end the context), the frame as the owner
    leaves it, and the bases it may have set; the log so far is visible to it. *)
Record owner := mk_owner {
  ow_fault : list call -> Z -> Z -> Z -> frame -> Z * frame * option (Z * Z);
  ow_syscall : list call -> frame -> Z * frame * option (Z * Z);
  ow_absent : list call -> Z -> bool;      (* no area of the address space has the page *)
  ow_mmap : list call -> Z -> bool;        (* vm_mmap of the page succeeds *)
  ow_mm : bool;                            (* the task has an address space *)
  ow_fixup : list call -> Z -> Z -> Z;     (* fixup_user_fault *)
  ow_insn : Z -> bool;
  ow_monitor : bool;
  ow_msr : Z * Z;
  ow_model : vmctx_cpu_model }.

(** *** Updates *)
Definition upd_run (f : run -> run) (s : st) : st := mk_st (f (st_run s)) (st_frame s) (st_vc s) (st_log s).
Definition upd_vc (f : vctx -> vctx) (s : st) : st := mk_st (st_run s) (st_frame s) (f (st_vc s)) (st_log s).
Definition set_frame (f : frame) (s : st) : st := mk_st (st_run s) f (st_vc s) (st_log s).
Definition called (c : call) (s : st) : st := mk_st (st_run s) (st_frame s) (st_vc s) (c :: st_log s).
Definition set_g (g : gregs) (r : run) : run := mk_run g (r_bases r) (last_sysnr r) (r_spin r) (unrec_addr r) (unrec_n r).
Definition set_bases (b : Z * Z) (r : run) : run := mk_run (r_g r) b (last_sysnr r) (r_spin r) (unrec_addr r) (unrec_n r).
Definition set_sysnr (n : Z) (r : run) : run := mk_run (r_g r) (r_bases r) n (r_spin r) (unrec_addr r) (unrec_n r).
Definition set_spin (p : spin) (r : run) : run := mk_run (r_g r) (r_bases r) (last_sysnr r) p (unrec_addr r) (unrec_n r).
Definition set_unrec (a n : Z) (r : run) : run := mk_run (r_g r) (r_bases r) (last_sysnr r) (r_spin r) a n.
Definition set_status (e : Z) (v : vctx) : vctx :=
  mk_vctx (enters v) (exits v) (faults v) (counter v) (last_exit_reason v) e (fsgs v).
Definition set_fsgs (b : option (Z * Z)) (v : vctx) : vctx :=
  mk_vctx (enters v) (exits v) (faults v) (counter v) (last_exit_reason v) (exit_status v) b.
Definition add_fault (v : vctx) : vctx :=
  mk_vctx (enters v) (exits v) (u64 (faults v + 1)) (counter v) (last_exit_reason v) (exit_status v) (fsgs v).
Definition add_counter (v : vctx) : vctx :=
  mk_vctx (enters v) (exits v) (faults v) (u64 (counter v + 1)) (last_exit_reason v) (exit_status v) (fsgs v).
Definition add_exit (reason : Z) (v : vctx) : vctx :=
  mk_vctx (u64 (enters v + 1)) (u64 (exits v + 1)) (faults v) (counter v) reason (exit_status v) (fsgs v).

(** ** Shared helpers *)
Definition VMCTX_SPIN_LOUD : Z := 2000.
Definition vmctx_note_spin (rip : Z) (p : spin) : spin :=
  let p := if ticks p =? 0 then mk_spin (ticks p) (reported p) rip else p in
  let p := mk_spin (u64 (ticks p + 1)) (reported p) (first_rip p) in
  if (ticks p =? VMCTX_SPIN_LOUD) && negb (reported p) then mk_spin (ticks p) true (first_rip p) else p.
Definition vmctx_spin_reset (p : spin) : spin := mk_spin 0 false (first_rip p).

Definition guest_to_ptregs (s : st) : st := set_frame (mk_frame (r_g (st_run s)) (last_sysnr (st_run s))) s.
Definition ptregs_to_guest (s : st) : st :=
  let f := f_regs (st_frame s) in
  upd_run (set_g (set_flags (flags f .| X86_EFLAGS_FIXED .| X86_EFLAGS_IF) f)) s.
(** svm_sync_tls_bases and vmx_sync_tls_bases *)
Definition sync_tls_bases (o : owner) (s : st) : st :=
  upd_run (set_bases (match fsgs (st_vc s) with Some b => b | None => ow_msr o end)) s.
(** the exit save-back of the bases the guest may have moved *)
Definition save_bases (b : Z * Z) (s : st) : st :=
  upd_run (set_bases b) (upd_vc (fun v => match fsgs v with Some _ => set_fsgs (Some b) v | None => v end) s).

Definition redirect_fault (o : owner) (vec addr err : Z) (s : st) : Z * st :=
  let '(rc, f, b) := ow_fault o (st_log s) vec addr err (st_frame s) in
  (rc, upd_vc (set_fsgs b) (set_frame f (called (CallReport vec addr err (st_frame s)) s))).
Definition redirect_syscall (o : owner) (s : st) : Z * st :=
  let '(rc, f, b) := ow_syscall o (st_log s) (st_frame s) in
  (rc, upd_vc (set_fsgs b) (set_frame f (called (CallSyscall (st_frame s)) s))).
(** whether vmctx_back_fault created a mapping *)
Definition ow_back (o : owner) (log : list call) (addr : Z) : bool :=
  ow_absent o log (page_base addr) && ow_mmap o log (page_base addr).
Definition VMCTX_PF_WRITE : Z := 2.
Definition VMCTX_PF_FETCH : Z := 16.
Definition FAULT_FLAG_WRITE : Z := 1.
Definition FAULT_FLAG_INSTRUCTION : Z := 256.
Definition vmctx_service_guest_fault (o : owner) (log : list call) (addr err : Z) : Z :=
  if negb (ow_mm o) then - EFAULT
  else
    let fault_flags := if nz (err .& VMCTX_PF_WRITE) then FAULT_FLAG_WRITE else 0 in
    let fault_flags := if nz (err .& VMCTX_PF_FETCH) then fault_flags .| FAULT_FLAG_INSTRUCTION else fault_flags in
    ow_fixup o log addr fault_flags.
Definition vmctx_back_fault (o : owner) (addr : Z) (s : st) : bool * st :=
  (ow_back o (st_log s) addr, called (CallBack (page_base addr)) s).
Definition vmctx_unback_fault (addr : Z) (s : st) : st := called (CallUnback (page_base addr)) s.
Definition vmctx_declined_to_local (o : owner) (addr err : Z) (s : st) : Z * st :=
  (vmctx_service_guest_fault o (st_log s) addr err, called (CallLocal addr err) s).
Definition exit_with (e : Z) (s : st) : run_code * st := (VMCTX_RUN_EXIT, upd_vc (set_status e) s).

(** ** The SVM handler *)
Definition SVM_EXIT_EXCP_BASE : Z := 0x40.
Definition SVM_EXIT_EXCP_UD : Z := 0x46.
Definition SVM_EXIT_EXCP_PF : Z := 0x4e.
Definition SVM_EXIT_INTR : Z := 0x60.
Definition SVM_EXIT_NMI : Z := 0x61.
Definition SVM_EXIT_CPUID : Z := 0x72.
Definition SVM_EXIT_ICEBP : Z := 0x88.
(** the control area of the VMCB, and DR6 *)
Record svm_exit := mk_svm_exit {
  exit_code : Z; exit_info_1 : Z; exit_info_2 : Z; next_rip : Z; dr6 : Z }.

Definition svm_cpuid (o : owner) (x : svm_exit) (s : st) : run_code * st :=
  let g := r_g (st_run s) in
  let next := next_rip x in
  if (next <=? ip g) || (15 <? next - ip g) then (VMCTX_RUN_FAILED (- EOPNOTSUPP), s)
  else
    let '(a, b, c, d) := vmctx_cpu_model_cpuid (ow_model o) (u32 (ax g)) (u32 (cx g)) in
    (VMCTX_RUN_CONTINUE, upd_run (fun r => set_sysnr (-1) (set_g (set_ip next (set_cpuid a b c d (r_g r))) r)) s).

Definition svm_undefined (o : owner) (s : st) : run_code * st :=
  let rip := ip (r_g (st_run s)) in
  let nr := ax (r_g (st_run s)) in
  if negb (ow_insn o rip) then
    let s := guest_to_ptregs s in
    let '(rc, s) := redirect_fault o 6 rip 0 s in
    if rc =? 1 then (VMCTX_RUN_CONTINUE, ptregs_to_guest s)
    else if rc <? 0 then exit_with rc s
    else exit_with (- EFAULT) s
  else
    let s := upd_run (fun r => set_spin (vmctx_spin_reset (r_spin r)) (set_sysnr nr r)) s in
    let s := guest_to_ptregs s in
    let f := f_regs (st_frame s) in
    let next := u64 (ip f + 2) in
    let s := set_frame (mk_frame (set_syscall next next (flags f) f) nr) s in
    let '(ret, s) := redirect_syscall o s in
    if ret <? 0 then let '(c, s) := exit_with ret s in (c, ptregs_to_guest s)
    else if ret =? 0 then let '(c, s) := exit_with (- EIO) s in (c, ptregs_to_guest s)
    else
      let s := sync_tls_bases o s in
      let s := ptregs_to_guest s in
      (VMCTX_RUN_CONTINUE, upd_vc add_counter s).

Definition svm_page_fault (o : owner) (x : svm_exit) (s : st) : run_code * st :=
  let err := exit_info_1 x in
  let addr := exit_info_2 x in
  let s := upd_run (fun r => set_spin (vmctx_spin_reset (r_spin r)) (set_sysnr (-1) r)) s in
  let '(backed_here, s) := vmctx_back_fault o addr s in
  let s := guest_to_ptregs s in
  let '(ret, s) := redirect_fault o 14 addr err s in
  if ret <? 0 then let '(c, s) := exit_with ret s in (c, ptregs_to_guest s)
  else if ret =? 1 then (VMCTX_RUN_CONTINUE, ptregs_to_guest (upd_vc add_fault s))
  else
    let s := if backed_here then vmctx_unback_fault addr s else s in
    let '(ret, s) := vmctx_declined_to_local o addr err s in
    if ret =? 0 then (VMCTX_RUN_CONTINUE, upd_vc add_fault s)
    else
      let page := page_base addr in
      let r := st_run s in
      if (negb (unrec_addr r =? page) || (unrec_n r <? 2)) && ow_monitor o then
        let n := if unrec_addr r =? page then unrec_n r else 0 in
        let s := upd_run (set_unrec page (u32 (n + 1))) s in
        let '(again, s) := redirect_fault o 14 addr err s in
        if again =? 1 then (VMCTX_RUN_CONTINUE, ptregs_to_guest (upd_vc add_fault s))
        else if again <? 0 then let '(c, s) := exit_with again s in (c, ptregs_to_guest s)
        else exit_with (- EFAULT) s
      else exit_with (- EFAULT) s.

(** every other exception; the new DR6 is returned beside the state *)
Definition svm_exception (o : owner) (x : svm_exit) (s : st) : run_code * st * Z :=
  let icebp := exit_code x =? SVM_EXIT_ICEBP in
  let vec := if icebp then 1 else exit_code x - SVM_EXIT_EXCP_BASE in
  let next := next_rip x in
  let rip := ip (r_g (st_run s)) in
  if icebp && ((next <=? rip) || (15 <? next - rip)) then (VMCTX_RUN_FAILED (- EOPNOTSUPP), s, dr6 x)
  else
    let s := if icebp then upd_run (fun r => set_g (set_ip next (r_g r)) r) s else s in
    let s := if ((vec =? 3) || (vec =? 4)) && nz next then upd_run (fun r => set_g (set_ip next (r_g r)) r) s else s in
    let s := guest_to_ptregs s in
    let cause := if icebp then 0 else if vec =? 1 then dr6 x .^ DR6_RESERVED else exit_info_1 x in
    let d := if vec =? 1 then DR6_RESERVED else dr6 x in
    let '(rc, s) := redirect_fault o vec 0 cause s in
    if rc =? 1 then (VMCTX_RUN_CONTINUE, ptregs_to_guest s, d)
    else if rc <? 0 then let '(c, s) := exit_with rc s in (c, s, d)
    else let '(c, s) := exit_with (- EFAULT) s in (c, s, d).

Definition svm_handle (o : owner) (bases : Z * Z) (x : svm_exit) (s : st) : run_code * st * Z :=
  let ec := exit_code x in
  let s := upd_vc (add_exit ec) (save_bases bases s) in
  if (ec =? SVM_EXIT_INTR) || (ec =? SVM_EXIT_NMI) then
    (VMCTX_RUN_CONTINUE,
     upd_run (fun r => set_spin (vmctx_note_spin (ip (r_g r)) (r_spin r)) (set_sysnr (-1) r)) s, dr6 x)
  else if ec =? SVM_EXIT_CPUID then (svm_cpuid o x s, dr6 x)
  else if ec =? SVM_EXIT_EXCP_UD then (svm_undefined o s, dr6 x)
  else if ec =? SVM_EXIT_EXCP_PF then (svm_page_fault o x s, dr6 x)
  else if ((SVM_EXIT_EXCP_BASE <=? ec) && (ec <=? SVM_EXIT_EXCP_BASE + 31)) || (ec =? SVM_EXIT_ICEBP)
  then svm_exception o x s
  else (exit_with (- i32 ec) s, dr6 x).

(** ** The VMX handler *)
Definition EXIT_REASON_XSETBV : Z := 55.
Definition vmx_cpuid (o : owner) (x : Vmcs.exit_info) (s : st) : run_code * st :=
  let g := r_g (st_run s) in
  let '(a, b, c, d) := vmctx_cpu_model_cpuid (ow_model o) (u32 (ax g)) (u32 (cx g)) in
  (VMCTX_RUN_CONTINUE,
   upd_run (fun r => set_sysnr (-1) (set_g (set_ip (u64 (ip g + Vmcs.instr_len x)) (set_cpuid a b c d (r_g r))) r)) s).

Definition vmx_undefined (o : owner) (s : st) : run_code * st :=
  let nr := ax (r_g (st_run s)) in
  if negb (ow_insn o (ip (r_g (st_run s)))) then
    let s := guest_to_ptregs s in
    let '(rc, s) := redirect_fault o 6 (ip (r_g (st_run s))) 0 s in
    if rc =? 1 then (VMCTX_RUN_CONTINUE, ptregs_to_guest s)
    else if rc <? 0 then exit_with rc s
    else exit_with (- EFAULT) s
  else
    let s := upd_run (set_sysnr nr) s in
    let s := upd_run (fun r => set_spin (vmctx_spin_reset (r_spin r)) r) s in
    let s := guest_to_ptregs s in
    let f := f_regs (st_frame s) in
    let next := u64 (ip f + 2) in
    let s := set_frame (mk_frame (set_syscall next next (flags f) f) nr) s in
    let '(ret, s) := redirect_syscall o s in
    if ret <? 0 then (VMCTX_RUN_EXIT, ptregs_to_guest (upd_vc (set_status ret) s))
    else if ret =? 0 then (VMCTX_RUN_EXIT, ptregs_to_guest (upd_vc (set_status (- EIO)) s))
    else (VMCTX_RUN_CONTINUE, upd_vc add_counter (ptregs_to_guest (sync_tls_bases o s))).

Definition vmx_page_fault (o : owner) (x : Vmcs.exit_info) (s : st) : run_code * st :=
  let addr := Vmcs.exit_qual x in
  let err := Vmcs.intr_error x in
  let s := upd_run (set_sysnr (-1)) s in
  let s := upd_run (fun r => set_spin (vmctx_spin_reset (r_spin r)) r) s in
  let '(backed_here, s) := vmctx_back_fault o addr s in
  let s := guest_to_ptregs s in
  let '(ret, s) := redirect_fault o 14 addr err s in
  if ret <? 0 then (VMCTX_RUN_EXIT, ptregs_to_guest (upd_vc (set_status ret) s))
  else if ret =? 1 then (VMCTX_RUN_CONTINUE, ptregs_to_guest (upd_vc add_fault s))
  else
    let s := if backed_here then vmctx_unback_fault addr s else s in
    let '(ret, s) := vmctx_declined_to_local o addr err s in
    if ret =? 0 then (VMCTX_RUN_CONTINUE, upd_vc add_fault s)
    else
      let r := st_run s in
      let other := negb (unrec_addr r =? page_base addr) in
      if (other || (unrec_n r <? 2)) && ow_monitor o then
        let s := if other then upd_run (set_unrec (page_base addr) 0) s else s in
        let s := upd_run (fun r => set_unrec (unrec_addr r) (u32 (unrec_n r + 1)) r) s in
        let '(again, s) := redirect_fault o 14 addr err s in
        if again =? 1 then (VMCTX_RUN_CONTINUE, ptregs_to_guest (upd_vc add_fault s))
        else if again <? 0 then (VMCTX_RUN_EXIT, ptregs_to_guest (upd_vc (set_status again) s))
        else exit_with (- EFAULT) s
      else exit_with (- EFAULT) s.

(** the code at the label guest_exception *)
Definition vmx_exception (o : owner) (vector : Z) (x : Vmcs.exit_info) (s : st) : run_code * st :=
  let type := (Vmcs.intr_info x .>> 8) .& 7 in
  if vector =? 6 then vmx_undefined o s
  else if vector =? 14 then vmx_page_fault o x s
  else if negb (type =? 2) && (vector <? 32) then
    let s := if (type =? 6) || (type =? 5)
             then upd_run (fun r => set_g (set_ip (u64 (ip (r_g r) + Vmcs.instr_len x)) (r_g r)) r) s else s in
    let s := guest_to_ptregs s in
    let '(rc, s) := redirect_fault o vector 0 (if vector =? 1 then Vmcs.exit_qual x else Vmcs.intr_error x) s in
    if rc =? 1 then (VMCTX_RUN_CONTINUE, ptregs_to_guest s)
    else if rc <? 0 then exit_with rc s
    else exit_with (- EFAULT) s
  else if type =? 2 then (VMCTX_RUN_CONTINUE, upd_run (set_sysnr (-1)) (called CallNmi s))
  else exit_with (- EFAULT) s.

Definition vmx_handle (o : owner) (bases : Z * Z) (x : Vmcs.exit_info) (s : st) : run_code * st :=
  let s := upd_vc (add_exit (Vmcs.exit_reason x)) (save_bases bases s) in
  let reason := Vmcs.exit_reason x .& 0xffff in
  if reason =? Vmcs.EXIT_REASON_EXTERNAL_INTERRUPT then
    (VMCTX_RUN_CONTINUE,
     upd_run (fun r => set_spin (vmctx_note_spin (ip (r_g r)) (r_spin r)) (set_sysnr (-1) r)) s)
  else if reason =? Vmcs.EXIT_REASON_CPUID then vmx_cpuid o x s
  else if reason =? EXIT_REASON_XSETBV then
    vmx_exception o 13 (Vmcs.mk_exit (Vmcs.exit_reason x) (Vmcs.intr_info x) (Vmcs.intr_error x) (Vmcs.instr_len x) 0 (Vmcs.gpa x)) s
  else if reason =? Vmcs.EXIT_REASON_EXCEPTION_NMI then vmx_exception o (Vmcs.intr_info x .& 0xff) x s
  else if (reason =? Vmcs.EXIT_REASON_EPT_VIOLATION) || (reason =? Vmcs.EXIT_REASON_EPT_MISCONFIG) then exit_with (- EFAULT) s
  else exit_with (- reason) s.

(** ** The wrappers *)
(** vmctx_be_run_usercode and vmx_be_run_usercode: the task's frame holds the
    guest between runs and the frame of the vmctx_run call is kept aside. *)
Record task := mk_task {
  t_st : st; entry_frame : frame; frame_saved : bool; regs_live : bool }.
Definition be_run_usercode (once : st -> run_code * st * bool) (t : task) : run_code * task :=
  let ef := if frame_saved t then entry_frame t else st_frame (t_st t) in
  let s := if regs_live t then ptregs_to_guest (t_st t) else t_st t in
  let '(ret, s, needs_rebuild) := once s in
  if needs_rebuild then (ret, mk_task s ef true (regs_live t))
  else (ret, mk_task (guest_to_ptregs s) ef true true).
(** vmctx_be_destroy and vmx_be_destroy *)
Definition be_destroy (exit_process : bool) (t : task) : frame :=
  if frame_saved t && regs_live t && negb exit_process
  then let e := f_regs (entry_frame t) in
       let a := ax (f_regs (st_frame (t_st t))) in
       mk_frame (mk_gregs (ip e) (sp e) a (flags e) (bx e) (cx e) (dx e) (si e) (di e) (bp e)
                   (r8 e) (r9 e) (r10 e) (r11 e) (r12 e) (r13 e) (r14 e) (r15 e)) (orig_ax (entry_frame t))
  else st_frame (t_st t).

(** ** Specification *)
(** What an exit means, whichever processor took it. *)
Inductive event :=
| Interrupt                              (* the host's business *)
| HostNmi                                (* to be delivered to the host *)
| Cpuid (next : Z)
| Undefined                              (* #UD: a system call or a bad instruction *)
| PageFault (addr err : Z)
| Trap (vec cause : Z) (past : option Z) (* any other exception; where a trap resumes *)
| Fatal (status : Z)
| Undecodable.

Definition decode_svm (x : svm_exit) (rip : Z) : event :=
  let ec := exit_code x in
  let next := next_rip x in
  let long := (next <=? rip) || (15 <? next - rip) in
  if (ec =? SVM_EXIT_INTR) || (ec =? SVM_EXIT_NMI) then Interrupt
  else if ec =? SVM_EXIT_CPUID then if long then Undecodable else Cpuid next
  else if ec =? SVM_EXIT_EXCP_UD then Undefined
  else if ec =? SVM_EXIT_EXCP_PF then PageFault (exit_info_2 x) (exit_info_1 x)
  else if ec =? SVM_EXIT_ICEBP then if long then Undecodable else Trap 1 0 (Some next)
  else if (SVM_EXIT_EXCP_BASE <=? ec) && (ec <=? SVM_EXIT_EXCP_BASE + 31) then
    let vec := ec - SVM_EXIT_EXCP_BASE in
    Trap vec (if vec =? 1 then dr6 x .^ DR6_RESERVED else exit_info_1 x)
      (if ((vec =? 3) || (vec =? 4)) && nz next then Some next else None)
  else Fatal (- i32 ec).
Definition decode_vmx (x : Vmcs.exit_info) (rip : Z) : event :=
  let reason := Vmcs.exit_reason x .& 0xffff in
  let past := u64 (rip + Vmcs.instr_len x) in
  let exception (vector qual : Z) :=
    let type := (Vmcs.intr_info x .>> 8) .& 7 in
    if vector =? 6 then Undefined
    else if vector =? 14 then PageFault qual (Vmcs.intr_error x)
    else if type =? 2 then HostNmi
    else if vector <? 32
    then Trap vector (if vector =? 1 then qual else Vmcs.intr_error x) (if (type =? 6) || (type =? 5) then Some past else None)
    else Fatal (- EFAULT) in
  if reason =? Vmcs.EXIT_REASON_EXTERNAL_INTERRUPT then Interrupt
  else if reason =? Vmcs.EXIT_REASON_CPUID then Cpuid past
  else if reason =? EXIT_REASON_XSETBV then exception 13 0
  else if reason =? Vmcs.EXIT_REASON_EXCEPTION_NMI then exception (Vmcs.intr_info x .& 0xff) (Vmcs.exit_qual x)
  else if (reason =? Vmcs.EXIT_REASON_EPT_VIOLATION) || (reason =? Vmcs.EXIT_REASON_EPT_MISCONFIG) then Fatal (- EFAULT)
  else Fatal (- reason).

(** an exception that means nothing to this machine: the owner decides *)
Definition ask (o : owner) (vec addr cause : Z) (s : st) : run_code * st :=
  let '(rc, s) := redirect_fault o vec addr cause (guest_to_ptregs s) in
  if rc =? 1 then (VMCTX_RUN_CONTINUE, ptregs_to_guest s)
  else exit_with (if rc <? 0 then rc else - EFAULT) s.
(** a system call belongs to the owner; without one the context ends *)
Definition forward_call (o : owner) (s : st) : run_code * st :=
  let g := r_g (st_run s) in
  let next := u64 (ip g + 2) in
  let s := upd_run (fun r => set_spin (vmctx_spin_reset (r_spin r)) (set_sysnr (ax g) r)) s in
  let '(rc, s) := redirect_syscall o (set_frame (mk_frame (set_syscall next next (flags g) g) (ax g)) s) in
  if 0 <? rc then (VMCTX_RUN_CONTINUE, upd_vc add_counter (ptregs_to_guest (sync_tls_bases o s)))
  else (VMCTX_RUN_EXIT, ptregs_to_guest (upd_vc (set_status (if rc =? 0 then - EIO else rc)) s)).
(** one report of a page fault *)
Definition report (o : owner) (addr err : Z) (declined : st -> run_code * st) (s : st) : run_code * st :=
  let '(rc, s) := redirect_fault o 14 addr err s in
  if rc =? 1 then (VMCTX_RUN_CONTINUE, ptregs_to_guest (upd_vc add_fault s))
  else if rc <? 0 then (VMCTX_RUN_EXIT, ptregs_to_guest (upd_vc (set_status rc) s))
  else declined s.
(** the report after a failed local service, twice at most for one page *)
Definition second_chance (o : owner) (addr err : Z) (s : st) : run_code * st :=
  let r := st_run s in
  let same := unrec_addr r =? page_base addr in
  if (negb same || (unrec_n r <? 2)) && ow_monitor o
  then report o addr err (exit_with (- EFAULT))
         (upd_run (set_unrec (page_base addr) (u32 ((if same then unrec_n r else 0) + 1))) s)
  else exit_with (- EFAULT) s.
Definition serve_fault (o : owner) (addr err : Z) (s : st) : run_code * st :=
  let s := upd_run (fun r => set_spin (vmctx_spin_reset (r_spin r)) (set_sysnr (-1) r)) s in
  let '(backed, s) := vmctx_back_fault o addr s in
  report o addr err (fun s =>
    let '(rc, s) := vmctx_declined_to_local o addr err (if backed then vmctx_unback_fault addr s else s) in
    if rc =? 0 then (VMCTX_RUN_CONTINUE, upd_vc add_fault s) else second_chance o addr err s)
    (guest_to_ptregs s).
Definition respond (o : owner) (e : event) (s : st) : run_code * st :=
  let g := r_g (st_run s) in
  match e with
  | Interrupt =>
      (VMCTX_RUN_CONTINUE, upd_run (fun r => set_spin (vmctx_note_spin (ip g) (r_spin r)) (set_sysnr (-1) r)) s)
  | HostNmi => (VMCTX_RUN_CONTINUE, upd_run (set_sysnr (-1)) (called CallNmi s))
  | Cpuid next =>
      let '(a, b, c, d) := vmctx_cpu_model_cpuid (ow_model o) (u32 (ax g)) (u32 (cx g)) in
      (VMCTX_RUN_CONTINUE, upd_run (fun r => set_sysnr (-1) (set_g (set_ip next (set_cpuid a b c d g)) r)) s)
  | Undefined => if ow_insn o (ip g) then forward_call o s else ask o 6 (ip g) 0 s
  | PageFault addr err => serve_fault o addr err s
  | Trap vec cause past =>
      ask o vec 0 cause (match past with Some i => upd_run (fun r => set_g (set_ip i (r_g r)) r) s | None => s end)
  | Fatal e => exit_with e s
  | Undecodable => (VMCTX_RUN_FAILED (- EOPNOTSUPP), s)
  end.

(** *** The two handlers implement it *)
Lemma ask_direct o vec addr cause s :
  (let '(rc, s) := redirect_fault o vec addr cause (guest_to_ptregs s) in
   if rc =? 1 then (VMCTX_RUN_CONTINUE, ptregs_to_guest s)
   else if rc <? 0 then exit_with rc s else exit_with (- EFAULT) s) = ask o vec addr cause s.
Proof. unfold ask. destruct (redirect_fault _ _ _ _ _) as [rc s']. by repeat case_match. Qed.

Lemma call_direct o s :
  (let '(ret, s) := redirect_syscall o s in
   if ret <? 0 then let '(c, s) := exit_with ret s in (c, ptregs_to_guest s)
   else if ret =? 0 then let '(c, s) := exit_with (- EIO) s in (c, ptregs_to_guest s)
   else (VMCTX_RUN_CONTINUE, upd_vc add_counter (ptregs_to_guest (sync_tls_bases o s)))) =
  let '(rc, s) := redirect_syscall o s in
  if 0 <? rc then (VMCTX_RUN_CONTINUE, upd_vc add_counter (ptregs_to_guest (sync_tls_bases o s)))
  else (VMCTX_RUN_EXIT, ptregs_to_guest (upd_vc (set_status (if rc =? 0 then - EIO else rc)) s)).
Proof.
  destruct (redirect_syscall o s) as [rc s']. unfold exit_with.
  destruct (rc <? 0) eqn:H1, (rc =? 0) eqn:H2, (0 <? rc) eqn:H3; try done;
    rewrite ?Z.ltb_lt, ?Z.ltb_ge, ?Z.eqb_eq, ?Z.eqb_neq in *; lia.
Qed.

Lemma svm_undefined_spec o s : svm_undefined o s = respond o Undefined s.
Proof.
  unfold svm_undefined, respond. destruct (ow_insn o (ip (r_g (st_run s)))); [|apply ask_direct].
  unfold forward_call. rewrite <- call_direct. done.
Qed.
Lemma vmx_undefined_spec o s : vmx_undefined o s = respond o Undefined s.
Proof.
  unfold vmx_undefined, respond. destruct (ow_insn o (ip (r_g (st_run s)))); [|apply ask_direct].
  unfold forward_call. rewrite <- call_direct. unfold exit_with. by destruct (redirect_syscall _ _) as [rc s'].
Qed.
(** a report answered by a negative number, by 1 or by anything else *)
Lemma report_direct o addr err k s :
  (let '(ret, s) := redirect_fault o 14 addr err s in
   if ret <? 0 then (VMCTX_RUN_EXIT, ptregs_to_guest (upd_vc (set_status ret) s))
   else if ret =? 1 then (VMCTX_RUN_CONTINUE, ptregs_to_guest (upd_vc add_fault s)) else k s) = report o addr err k s.
Proof.
  unfold report. destruct (redirect_fault o 14 addr err s) as [ret s'].
  destruct (ret <? 0) eqn:H1, (ret =? 1) eqn:H2; try done. apply Z.ltb_lt in H1. apply Z.eqb_eq in H2. lia.
Qed.
Lemma report_ext o addr err k k' s : (forall s, k s = k' s) -> report o addr err k s = report o addr err k' s.
Proof. intros H. unfold report. destruct (redirect_fault o 14 addr err s). by repeat case_match. Qed.

Lemma svm_page_fault_spec o x s : svm_page_fault o x s = serve_fault o (exit_info_2 x) (exit_info_1 x) s.
Proof.
  unfold svm_page_fault, serve_fault, exit_with at 1. destruct (vmctx_back_fault o _ _) as [backed s1].
  rewrite <- report_direct. destruct (redirect_fault o 14 _ _ _) as [ret s2].
  repeat (case_match; [done|]). destruct (vmctx_declined_to_local o _ _ _) as [rc s3].
  destruct (rc =? 0); [done|]. unfold second_chance, report.
  destruct (unrec_addr (st_run s3) =? page_base (exit_info_2 x)); cbn [negb orb andb];
    match goal with |- context [if ?b then _ else exit_with _ s3] => destruct b; [|done] end;
    destruct (redirect_fault o 14 _ _ _); unfold exit_with in *; by repeat case_match.
Qed.
Lemma vmx_page_fault_spec o x s : vmx_page_fault o x s = serve_fault o (Vmcs.exit_qual x) (Vmcs.intr_error x) s.
Proof.
  unfold vmx_page_fault, serve_fault.
  change (upd_run (fun r => set_spin (vmctx_spin_reset (r_spin r)) r) (upd_run (set_sysnr (-1)) s))
    with (upd_run (fun r => set_spin (vmctx_spin_reset (r_spin r)) (set_sysnr (-1) r)) s).
  destruct (vmctx_back_fault o _ _) as [backed s1].
  rewrite <- report_direct. destruct (redirect_fault o 14 _ _ _) as [ret s2].
  repeat (case_match; [done|]). destruct (vmctx_declined_to_local o _ _ _) as [rc s3].
  destruct (rc =? 0); [done|]. unfold second_chance, report.
  destruct (unrec_addr (st_run s3) =? page_base (Vmcs.exit_qual x)) eqn:Hs; cbn [negb orb andb];
    match goal with |- context [if ?b then _ else exit_with _ s3] => destruct b; [|done] end.
  - apply Z.eqb_eq in Hs. rewrite <- Hs. destruct (redirect_fault o 14 _ _ _). by repeat case_match.
  - destruct (redirect_fault o 14 _ _ _). by repeat case_match.
Qed.

(** what both do before they look at the reason *)
Definition exited (reason : Z) (bases : Z * Z) (s : st) : st := upd_vc (add_exit reason) (save_bases bases s).

Definition new_dr6 (x : svm_exit) (e : event) : Z :=
  match e with Trap vec _ _ => if vec =? 1 then DR6_RESERVED else dr6 x | _ => dr6 x end.
Lemma svm_handle_spec o bases x s :
  let s1 := exited (exit_code x) bases s in
  let e := decode_svm x (ip (r_g (st_run s1))) in
  svm_handle o bases x s = (respond o e s1, new_dr6 x e).
Proof.
  intros s1 e. unfold svm_handle. fold (exited (exit_code x) bases s). fold s1. unfold e, decode_svm.
  destruct ((exit_code x =? SVM_EXIT_INTR) || (exit_code x =? SVM_EXIT_NMI)); [done|].
  destruct (exit_code x =? SVM_EXIT_CPUID).
  { unfold svm_cpuid. destruct (_ || _); [done|]. simpl. by destruct (vmctx_cpu_model_cpuid _ _ _) as [[[a b] c] d]. }
  destruct (exit_code x =? SVM_EXIT_EXCP_UD); [by rewrite svm_undefined_spec|].
  destruct (exit_code x =? SVM_EXIT_EXCP_PF); [by rewrite svm_page_fault_spec|].
  destruct (exit_code x =? SVM_EXIT_ICEBP) eqn:Hice.
  - rewrite orb_true_r. unfold svm_exception. rewrite Hice. cbn [andb].
    destruct (_ || _); [done|]. cbn [orb andb Z.eqb]. unfold respond, new_dr6.
    rewrite <- ask_direct. destruct (redirect_fault _ _ _ _ _) as [rc s2]. unfold exit_with. by repeat case_match.
  - rewrite orb_false_r. destruct (_ && (exit_code x <=? _)); [|done].
    unfold svm_exception. rewrite Hice. cbn [andb]. set (vec := exit_code x - SVM_EXIT_EXCP_BASE).
    destruct (((vec =? 3) || (vec =? 4)) && nz (next_rip x)); unfold respond, new_dr6;
      rewrite <- ask_direct; destruct (redirect_fault _ _ _ _ _) as [rc s2]; unfold exit_with; by repeat case_match.
Qed.

Lemma vmx_exception_spec o vector x s :
  let type := (Vmcs.intr_info x .>> 8) .& 7 in
  vmx_exception o vector x s =
  respond o (if vector =? 6 then Undefined
    else if vector =? 14 then PageFault (Vmcs.exit_qual x) (Vmcs.intr_error x)
    else if type =? 2 then HostNmi
    else if vector <? 32
    then Trap vector (if vector =? 1 then Vmcs.exit_qual x else Vmcs.intr_error x)
           (if (type =? 6) || (type =? 5) then Some (u64 (ip (r_g (st_run s)) + Vmcs.instr_len x)) else None)
    else Fatal (- EFAULT)) s.
Proof.
  intros type. unfold vmx_exception. fold type.
  destruct (vector =? 6); [apply vmx_undefined_spec|]. destruct (vector =? 14); [apply vmx_page_fault_spec|].
  destruct (type =? 2); cbn [negb andb]; [done|]. destruct (vector <? 32); [|done].
  unfold respond. destruct ((type =? 6) || (type =? 5)); by rewrite <- ask_direct.
Qed.
Lemma vmx_handle_spec o bases x s :
  let s1 := exited (Vmcs.exit_reason x) bases s in
  vmx_handle o bases x s = respond o (decode_vmx x (ip (r_g (st_run s1)))) s1.
Proof.
  intros s1. unfold vmx_handle. fold (exited (Vmcs.exit_reason x) bases s). fold s1. unfold decode_vmx.
  destruct (_ =? Vmcs.EXIT_REASON_EXTERNAL_INTERRUPT); [done|].
  destruct (_ =? Vmcs.EXIT_REASON_CPUID).
  { unfold vmx_cpuid. simpl. by destruct (vmctx_cpu_model_cpuid _ _ _) as [[[a b] c] d]. }
  destruct (_ =? EXIT_REASON_XSETBV); [by rewrite vmx_exception_spec|].
  destruct (_ =? Vmcs.EXIT_REASON_EXCEPTION_NMI); [apply vmx_exception_spec|]. by destruct (_ || _).
Qed.

(** ** Properties *)
(** the number of the exit is the only thing the processors must disagree on *)
Definition forget (s : st) : st :=
  let v := st_vc s in
  mk_st (st_run s) (st_frame s) (mk_vctx (enters v) (exits v) (faults v) (counter v) 0 (exit_status v) (fsgs v)) (st_log s).
Definition forget_outcome (p : run_code * st) : run_code * st := (fst p, forget (snd p)).

Section forgetting.
Context (o : owner).
Lemma forget_fault vec addr err s :
  redirect_fault o vec addr err (forget s) =
  let '(rc, s') := redirect_fault o vec addr err s in (rc, forget s').
Proof. unfold redirect_fault. simpl. by destruct (ow_fault o _ vec addr err _) as [[rc f] b]. Qed.
Lemma forget_syscall s :
  redirect_syscall o (forget s) = let '(rc, s') := redirect_syscall o s in (rc, forget s').
Proof. unfold redirect_syscall. simpl. by destruct (ow_syscall o _ _) as [[rc f] b]. Qed.
Lemma forget_ask vec addr cause s : ask o vec addr cause (forget s) = forget_outcome (ask o vec addr cause s).
Proof.
  unfold ask. change (guest_to_ptregs (forget s)) with (forget (guest_to_ptregs s)). rewrite forget_fault.
  destruct (redirect_fault o vec addr cause _) as [rc s']. by repeat case_match.
Qed.
Lemma forget_call s : forward_call o (forget s) = forget_outcome (forward_call o s).
Proof.
  unfold forward_call. simpl st_run.
  match goal with |- context [redirect_syscall o (set_frame ?f (upd_run ?g (forget s)))] =>
    change (set_frame f (upd_run g (forget s))) with (forget (set_frame f (upd_run g s))) end.
  rewrite forget_syscall. destruct (redirect_syscall o _) as [rc s']. by repeat case_match.
Qed.
Lemma forget_report addr err k s :
  (forall s, k (forget s) = forget_outcome (k s)) -> report o addr err k (forget s) = forget_outcome (report o addr err k s).
Proof.
  intros Hk. unfold report. rewrite forget_fault. destruct (redirect_fault o 14 addr err s) as [rc s'].
  repeat case_match; try done.
Qed.
Lemma forget_serve addr err s : serve_fault o addr err (forget s) = forget_outcome (serve_fault o addr err s).
Proof.
  unfold serve_fault, vmctx_back_fault. simpl st_log.
  match goal with |- report o addr err ?k (guest_to_ptregs (called ?c (upd_run ?g (forget s)))) = _ =>
    change (guest_to_ptregs (called c (upd_run g (forget s)))) with (forget (guest_to_ptregs (called c (upd_run g s)))) end.
  apply forget_report. intros s'. unfold vmctx_declined_to_local.
  destruct (ow_back o _ addr); simpl st_log; (case_match; [done|]); unfold second_chance; simpl st_run;
    (case_match; [|done]); rewrite <- forget_report by done; done.
Qed.
Lemma forget_respond e s : respond o e (forget s) = forget_outcome (respond o e s).
Proof.
  destruct e as [| |next| |addr err|vec cause past|status|]; try done.
  - unfold respond. simpl st_run. by destruct (vmctx_cpu_model_cpuid _ _ _) as [[[a b] c] d].
  - unfold respond. simpl st_run. case_match; [apply forget_call|apply forget_ask].
  - apply forget_serve.
  - unfold respond. destruct past; [|apply forget_ask]. rewrite <- forget_ask. done.
Qed.
End forgetting.

(** A handler of either backend has dealt with event [e] from state [s], in which
    the exit has been counted. *)
Inductive handles (o : owner) : event -> st -> run_code * st -> Prop :=
| by_svm bases x s0 :
    handles o (decode_svm x (ip (r_g (st_run s0)))) (exited (exit_code x) bases s0) (fst (svm_handle o bases x s0))
| by_vmx bases x s0 :
    handles o (decode_vmx x (ip (r_g (st_run s0)))) (exited (Vmcs.exit_reason x) bases s0) (vmx_handle o bases x s0).
Lemma handles_respond o e s p : handles o e s p -> p = respond o e s.
Proof.
  intros H. destruct H as [bases x s0|bases x s0].
  - rewrite svm_handle_spec. done.
  - apply vmx_handle_spec.
Qed.

(** How a guest may go on after a stop the owner has a say in.  The last call
    was answered by the owner and the registers are what it left in the frame;
    or the owner declined the fault and the local kernel has mapped the page, and
    the registers are those of the exit. *)
Definition resumed_with (f : frame) : gregs :=
  set_flags (flags (f_regs f) .| X86_EFLAGS_FIXED .| X86_EFLAGS_IF) (f_regs f).
Inductive resumes (o : owner) (s s' : st) : Prop :=
| resumed_by_report vec addr err f log f' b :
    st_log s' = CallReport vec addr err f :: log -> ow_fault o log vec addr err f = (1, f', b) ->
    r_g (st_run s') = resumed_with f' -> resumes o s s'
| resumed_by_call f log rc f' b :
    st_log s' = CallSyscall f :: log -> ow_syscall o log f = (rc, f', b) -> 0 < rc ->
    r_g (st_run s') = resumed_with f' -> resumes o s s'
| resumed_locally addr err f log unback rc f' b :
    st_log s' = CallLocal addr err :: unback ++ CallReport 14 addr err f :: log ->
    (unback = [] \/ unback = [CallUnback (page_base addr)]) ->
    ow_fault o log 14 addr err f = (rc, f', b) -> 0 <= rc -> rc <> 1 ->
    vmctx_service_guest_fault o (unback ++ CallReport 14 addr err f :: log) addr err = 0 ->
    r_g (st_run s') = r_g (st_run s) -> resumes o s s'.

Definition is_report (c : call) : bool := match c with CallReport _ _ _ _ | CallSyscall _ => true | _ => false end.
Definition asks (l : list call) : nat := length (List.filter is_report l).
(** the page made for the fault is gone when the owner declined *)
Definition unbacked (o : owner) (s s' : st) (addr err : Z) : Prop :=
  forall rc f b,
  ow_fault o (CallBack (page_base addr) :: st_log s) 14 addr err (mk_frame (r_g (st_run s)) (-1)) = (rc, f, b) ->
  ow_back o (st_log s) addr = true -> 0 <= rc -> rc <> 1 -> CallUnback (page_base addr) ∈ st_log s'.

Lemma ask_owner o vec addr cause s c s' :
  ask o vec addr cause s = (c, s') ->
  (exists f, st_log s' = CallReport vec addr cause f :: st_log s) /\
  (c = VMCTX_RUN_CONTINUE -> resumes o s s') /\ (c = VMCTX_RUN_EXIT -> exit_status (st_vc s') < 0).
Proof.
  unfold ask, redirect_fault. destruct (ow_fault o _ _ _ _ _) as [[rc f] b] eqn:Ho. simpl in Ho. cbn iota beta.
  destruct (rc =? 1) eqn:H1; [apply Z.eqb_eq in H1; subst rc|]; intros [= <- <-]; simpl; split_and!; eauto; try done.
  - intros _. by eapply resumed_by_report.
  - intros _. case_match; [by apply Z.ltb_lt|done].
Qed.
Lemma call_owner o s c s' :
  forward_call o s = (c, s') ->
  (exists f, st_log s' = CallSyscall f :: st_log s) /\
  (c = VMCTX_RUN_CONTINUE -> resumes o s s') /\ (c = VMCTX_RUN_EXIT -> exit_status (st_vc s') < 0).
Proof.
  unfold forward_call, redirect_syscall. destruct (ow_syscall o _ _) as [[rc f] b] eqn:Ho. simpl in Ho. cbn iota beta.
  destruct (0 <? rc) eqn:H1; rewrite ?Z.ltb_lt, ?Z.ltb_ge in H1; intros [= <- <-]; simpl; split_and!; eauto; try done.
  - intros _. by eapply resumed_by_call.
  - intros _. case_match eqn:H0; [done|]. apply Z.eqb_neq in H0. lia.
Qed.
Lemma report_owner o addr err k s c s' :
  report o addr err k s = (c, s') ->
  exists rc f b, ow_fault o (st_log s) 14 addr err (st_frame s) = (rc, f, b) /\
  ((0 <= rc /\ rc <> 1 /\
    k (upd_vc (set_fsgs b) (set_frame f (called (CallReport 14 addr err (st_frame s)) s))) = (c, s')) \/
   (st_log s' = CallReport 14 addr err (st_frame s) :: st_log s /\ st_run s' = set_g (r_g (st_run s')) (st_run s) /\
    (rc = 1 \/ rc < 0) /\
    (c = VMCTX_RUN_CONTINUE -> forall s0, resumes o s0 s') /\ (c = VMCTX_RUN_EXIT -> exit_status (st_vc s') < 0))).
Proof.
  unfold report, redirect_fault. destruct (ow_fault o _ _ _ _ _) as [[rc f] b] eqn:Ho. cbn iota beta. intros H.
  exists rc, f, b. split; [done|]. destruct (rc =? 1) eqn:H1; rewrite ?Z.eqb_eq, ?Z.eqb_neq in H1.
  - subst rc. simplify_eq. right. simpl. split_and!; auto; try done. intros _ s0. by eapply resumed_by_report.
  - destruct (rc <? 0) eqn:H2; rewrite ?Z.ltb_lt, ?Z.ltb_ge in H2; [|by left].
    simplify_eq. right. simpl. split_and!; auto; done.
Qed.

Lemma second_chance_owner o addr err s c s' :
  second_chance o addr err s = (c, s') ->
  exists calls, st_log s' = calls ++ st_log s /\ (asks calls <= 1)%nat /\
  (c = VMCTX_RUN_CONTINUE -> forall s0, resumes o s0 s') /\ (c = VMCTX_RUN_EXIT -> exit_status (st_vc s') < 0) /\
  (0 <= unrec_n (st_run s) <= 2 -> 0 <= unrec_n (st_run s') <= 2) /\
  (unrec_addr (st_run s) = page_base addr -> 2 <= unrec_n (st_run s) -> c = VMCTX_RUN_EXIT /\ calls = []).
Proof.
  unfold second_chance. destruct (_ && ow_monitor o) eqn:Hc.
  - intros H. apply report_owner in H as (rc & f & b & _ & [(H1 & H2 & Hk)|(Hl & Hr & _ & Hcont & Hex)]).
    + unfold exit_with in Hk. simplify_eq/=. eexists [_]. split_and!; [done|done|done|done| |].
      * intros Hn. apply andb_true_iff in Hc as [Hc _]. unfold u32.
        destruct (unrec_addr _ =? _); simpl in Hc; [apply Z.ltb_lt in Hc|]; rewrite Z.mod_small; lia.
      * intros Ha Hn. rewrite Ha, Z.eqb_refl in Hc. simpl in Hc. rewrite (proj2 (Z.ltb_ge _ _)) in Hc by lia. done.
    + eexists [_]. split_and!; [done|done|done|done| |].
      * intros Hn. rewrite Hr. simpl. apply andb_true_iff in Hc as [Hc _]. unfold u32.
        destruct (unrec_addr _ =? _); simpl in Hc; [apply Z.ltb_lt in Hc|]; rewrite Z.mod_small; lia.
      * intros Ha Hn. rewrite Ha, Z.eqb_refl in Hc. simpl in Hc. rewrite (proj2 (Z.ltb_ge _ _)) in Hc by lia. done.
  - unfold exit_with. intros [= <- <-]. exists []. split_and!; simpl; auto; done.
Qed.

Lemma serve_owner o addr err s c s' :
  serve_fault o addr err s = (c, s') ->
  exists calls, st_log s' = calls ++ st_log s /\ (asks calls <= 2)%nat /\
  (c = VMCTX_RUN_CONTINUE -> resumes o s s') /\ (c = VMCTX_RUN_EXIT -> exit_status (st_vc s') < 0) /\
  (0 <= unrec_n (st_run s) <= 2 -> 0 <= unrec_n (st_run s') <= 2) /\ unbacked o s s' addr err.
Proof.
  unfold serve_fault, vmctx_back_fault. intros H.
  apply report_owner in H as (rc & f & b & Ho & [(H1 & H2 & Hk)|(Hl & Hr & Hrc & Hcont & Hex)]); simpl in *.
  2:{ eexists [_; _]. split_and!; [exact Hl|unfold asks; simpl; lia|auto|done|by rewrite Hr|].
      intros rc' f' b' Ho' Hback H0 Hn1. rewrite Ho in Ho'. simplify_eq. lia. }
  set (s1 := set_frame f _) in Hk. set (unback := if ow_back o (st_log s) addr then [CallUnback (page_base addr)] else []).
  assert (Hlog1 : st_log s1 = CallReport 14 addr err (mk_frame (r_g (st_run s)) (-1)) :: CallBack (page_base addr) :: st_log s) by done.
  assert (Hrun1 : r_g (st_run s1) = r_g (st_run s) /\ unrec_n (st_run s1) = unrec_n (st_run s)) by done.
  set (s2 := if ow_back o (st_log s) addr then _ else _) in Hk.
  assert (Hlog2 : st_log s2 = unback ++ st_log s1) by (unfold s2, unback; by destruct (ow_back o (st_log s) addr)).
  assert (Hrun2 : st_run s2 = st_run s1) by (unfold s2; by destruct (ow_back o (st_log s) addr)).
  clearbody s2. destruct Hrun1 as [Hg Hn]. unfold vmctx_declined_to_local in Hk.
  assert (Hun : forall l, unbacked o s (mk_st (st_run s') (st_frame s') (st_vc s') (l ++ unback ++ st_log s1)) addr err).
  { intros l rc' f' b' _ Hb _ _. simpl. unfold unback. rewrite Hb. apply elem_of_app. right. apply list_elem_of_here. }
  destruct (vmctx_service_guest_fault o (st_log s2) addr err =? 0) eqn:Hloc.
  - apply Z.eqb_eq in Hloc. simplify_eq. simpl. rewrite Hlog2, Hlog1.
    exists (CallLocal addr err :: unback ++ [CallReport 14 addr err (mk_frame (r_g (st_run s)) (-1)); CallBack (page_base addr)]).
    split_and!.
    + simpl. by rewrite <- app_assoc.
    + unfold asks, unback. by destruct (ow_back o (st_log s) addr); simpl; lia.
    + intros _. eapply (resumed_locally _ _ _ addr err _ _ unback rc f b); simpl; [by rewrite Hlog2, Hlog1| |exact Ho|done|done| |].
      * unfold unback. destruct (ow_back o (st_log s) addr); auto.
      * by rewrite <- Hlog1, <- Hlog2.
      * by rewrite Hrun2.
    + done.
    + simpl. by rewrite Hrun2, Hn.
    + intros rc' f' b' Ho' Hbk H0 Hn1. specialize (Hun [CallLocal addr err] rc' f' b' Ho' Hbk H0 Hn1). simpl in *.
      by rewrite Hlog2.
  - apply second_chance_owner in Hk as (calls & Hl & Ha & Hc & Hx & Hb & _). simpl in *. rewrite Hrun2 in Hb.
    exists (calls ++ CallLocal addr err :: unback ++ [CallReport 14 addr err (mk_frame (r_g (st_run s)) (-1)); CallBack (page_base addr)]).
    split_and!; auto.
    + rewrite Hl, Hlog2. unfold s1. rewrite <- app_assoc. simpl. by rewrite <- app_assoc.
    + unfold asks in *. rewrite List.filter_app, length_app. simpl. rewrite List.filter_app, length_app.
      unfold unback. destruct (ow_back o (st_log s) addr); simpl; lia.
    + intros rc' f' b' Ho' Hbk H0 Hn1. specialize (Hun (calls ++ [CallLocal addr err]) rc' f' b' Ho' Hbk H0 Hn1). simpl in Hun.
      rewrite Hl, Hlog2. by rewrite <- app_assoc in Hun.
Qed.

(** C37: an exit that means the same to both processors is handled the same: the
    calls to the owner and to the local kernel, their order and arguments, the
    registers the guest goes on with, the frame, the counters and the status are
    equal whether the SVM or the VMX handler ran. *)
Theorem exits_handled_alike o bases x y s :
  decode_svm x (ip (r_g (st_run s))) = decode_vmx y (ip (r_g (st_run s))) ->
  forget_outcome (fst (svm_handle o bases x s)) = forget_outcome (vmx_handle o bases y s).
Proof.
  intros H. rewrite svm_handle_spec, vmx_handle_spec. simpl fst. rewrite <- !forget_respond.
  change (forget (exited (Vmcs.exit_reason y) bases s)) with (forget (exited (exit_code x) bases s)).
  simpl. by rewrite H.
Qed.

(** C11: on both backends a guest stopped by a system call, a fault or an
    exception goes on only with the registers the owner left in the frame it was
    shown, or, for a page fault the owner declined and the local kernel then
    served, with those of the exit.  Otherwise the context ends with a negative
    status; a system call without an owner never runs locally.  The owner is
    asked at most twice, and a page made for the fault is taken away again when it
    declines. *)
Theorem guest_resumes_as_told o e s c s' :
  handles o e s (c, s') ->
  match e with Undefined | PageFault _ _ | Trap _ _ _ => True | _ => False end ->
  (c = VMCTX_RUN_CONTINUE -> resumes o s s') /\
  (c = VMCTX_RUN_EXIT -> exit_status (st_vc s') < 0) /\
  (exists calls, st_log s' = calls ++ st_log s /\ (asks calls <= 2)%nat) /\
  (forall addr err, e = PageFault addr err ->
     unbacked o s s' addr err /\ (0 <= unrec_n (st_run s) <= 2 -> 0 <= unrec_n (st_run s') <= 2)).
Proof.
  intros H He. apply handles_respond in H. symmetry in H.
  assert (Hask : forall vec addr cause s0, ask o vec addr cause s0 = (c, s') ->
    st_log s0 = st_log s -> (resumes o s0 s' -> resumes o s s') ->
    (c = VMCTX_RUN_CONTINUE -> resumes o s s') /\ (c = VMCTX_RUN_EXIT -> exit_status (st_vc s') < 0) /\
    (exists calls, st_log s' = calls ++ st_log s /\ (asks calls <= 2)%nat)).
  { intros vec addr cause s0 Ha Hl Hr. apply ask_owner in Ha as ([f Hf] & Hc & Hx). split_and!; auto.
    exists [CallReport vec addr cause f]. rewrite Hf, Hl. split; [done|]. unfold asks. simpl. lia. }
  destruct e as [| |next| |addr err|vec cause past|status|]; try done; unfold respond in H.
  - destruct (ow_insn o _).
    + apply call_owner in H as ([f Hf] & Hc & Hx). split_and!; auto; try done.
      exists [CallSyscall f]. rewrite Hf. split; [done|]. unfold asks. simpl. lia.
    + destruct (Hask _ _ _ _ H) as (? & ? & ?); auto. split_and!; auto; done.
  - apply serve_owner in H as (calls & Hl & Ha & Hc & Hx & Hb & Hu). split_and!; eauto.
    intros addr' err' [= <- <-]. auto.
  - assert (Hlast : forall f, st_log s' = CallReport vec 0 cause f :: st_log s -> c = VMCTX_RUN_CONTINUE ->
      forall s0, resumes o s0 s' -> resumes o s s').
    { intros f Hf _ s0 [v a er f1 l f2 b Hl Ho Hg|f1 l rc f2 b Hl Ho Hp Hg|a er f1 l u rc f2 b Hl Hu Ho H0 H1 Hk Hg].
      - by eapply resumed_by_report.
      - by eapply resumed_by_call.
      - congruence. }
    set (s0 := match past with Some i => _ | None => s end) in H.
    assert (Hl0 : st_log s0 = st_log s) by (unfold s0; by destruct past).
    apply ask_owner in H as ([f Hf] & Hc & Hx). rewrite Hl0 in Hf. split_and!; eauto; try done.
    exists [CallReport vec 0 cause f]. rewrite Hf. split; [done|]. unfold asks. simpl. lia.
Qed.

(** ** The frame of the task *)
(** A context as vmctx_be_create_usercode leaves it: a restored one is already
    live, and the frame of its creation is the one to give back. *)
Definition created (restore : bool) (s : st) : task :=
  mk_task s (if restore then st_frame s else mk_frame (mk_gregs 0 0 0 0 0 0 0 0 0 0 0 0 0 0 0 0 0 0) 0) restore restore.
(** the guest runs [n] times; between runs the kernel may change the frame *)
Fixpoint runs (once : st -> run_code * st * bool) (touch : frame -> frame) (n : nat) (t : task) : task :=
  match n with
  | O => t
  | S n => let '(_, t) := be_run_usercode once t in
           runs once touch n (mk_task (set_frame (touch (st_frame (t_st t))) (t_st t)) (entry_frame t) (frame_saved t) (regs_live t))
  end.

(** One run: the state it was entered with, the state it left, and whether the
    context is to be built anew. *)
Record visit := mk_visit { v_in : st; v_out : st; v_rebuild : bool }.
(** the frame a run leaves: the guest's registers, unless the context is rebuilt *)
Definition frame_left (v : visit) : frame :=
  if v_rebuild v then st_frame (v_out v)
  else mk_frame (r_g (st_run (v_out v))) (last_sysnr (st_run (v_out v))).
(** the guest of [r] entered with frame [f]: a live one with the registers of [f],
    its reserved flag and interrupts on *)
Definition entered_with (live : bool) (f : frame) (s : st) : st :=
  mk_st (if live then mk_run (set_flags (flags (f_regs f) .| X86_EFLAGS_FIXED .| X86_EFLAGS_IF) (f_regs f))
                        (r_bases (st_run s)) (last_sysnr (st_run s)) (r_spin (st_run s)) (unrec_addr (st_run s)) (unrec_n (st_run s))
         else st_run s) f (st_vc s) (st_log s).
Definition was_live (restore : bool) (tr : list visit) : bool := restore || existsb (fun v => negb (v_rebuild v)) tr.
(** a frame but for its RAX *)
Definition with_ax (a : Z) (f : frame) : frame :=
  let e := f_regs f in
  mk_frame (mk_gregs (ip e) (sp e) a (flags e) (bx e) (cx e) (dx e) (si e) (di e) (bp e)
              (r8 e) (r9 e) (r10 e) (r11 e) (r12 e) (r13 e) (r14 e) (r15 e)) (orig_ax f).

(** the runs [tr] of a context in state [s] that end in state [s'] *)
Fixpoint lived (once : st -> run_code * st * bool) (touch : frame -> frame) (live : bool) (s : st) (tr : list visit) (s' : st) : Prop :=
  match tr with
  | [] => s' = s
  | v :: tr =>
      v_in v = entered_with live (st_frame s) s /\ (exists c, once (v_in v) = (c, v_out v, v_rebuild v)) /\
      lived once touch (live || negb (v_rebuild v)) (set_frame (touch (frame_left v)) (v_out v)) tr s'
  end.
Lemma run_visit once t : exists v c, (be_run_usercode once t).1 = c /\
  v_in v = entered_with (regs_live t) (st_frame (t_st t)) (t_st t) /\ once (v_in v) = (c, v_out v, v_rebuild v) /\
  (be_run_usercode once t).2 = mk_task (set_frame (frame_left v) (v_out v))
    (if frame_saved t then entry_frame t else st_frame (t_st t)) true (regs_live t || negb (v_rebuild v)).
Proof.
  unfold be_run_usercode.
  assert (He : (if regs_live t then ptregs_to_guest (t_st t) else t_st t) = entered_with (regs_live t) (st_frame (t_st t)) (t_st t)).
  { unfold ptregs_to_guest, upd_run, set_g, entered_with. by destruct t as [[] ? ? []]. }
  rewrite He. destruct (once (entered_with _ _ _)) as [[c s1] rb] eqn:Ho.
  exists (mk_visit (entered_with (regs_live t) (st_frame (t_st t)) (t_st t)) s1 rb), c.
  destruct rb; (split; [done|]; split; [done|]; split; [done|]); cbn [snd negb v_out]; unfold frame_left; cbn [v_rebuild v_out].
  - rewrite orb_false_r. by destruct s1.
  - by rewrite orb_true_r.
Qed.
Lemma runs_lived once touch n t :
  exists tr, length tr = n /\ lived once touch (regs_live t) (t_st t) tr (t_st (runs once touch n t)) /\
    ((0 < n)%nat \/ frame_saved t = true -> frame_saved (runs once touch n t) = true /\
       entry_frame (runs once touch n t) = if frame_saved t then entry_frame t else st_frame (t_st t)) /\
    regs_live (runs once touch n t) = was_live (regs_live t) tr.
Proof.
  revert t. induction n as [|n IH]; intros t.
  { exists []. unfold was_live. simpl. rewrite orb_false_r. split_and!; try done. intros [?| ->]; [lia|done]. }
  destruct (run_visit once t) as (v & c & Hc & Hin & Ho & Ht). cbn [runs]. destruct (be_run_usercode once t) as [c' t1].
  simpl in Hc, Ht. subst c' t1. cbn [t_st entry_frame frame_saved regs_live].
  match goal with |- context [runs once touch n ?x] => destruct (IH x) as (tr & Hn & Hl & Hf & Hr) end.
  destruct (Hf (or_intror eq_refl)) as [Hf1 Hf2]. exists (v :: tr). split; [by rewrite <- Hn|]. split; [|split].
  - split; [done|]. split; [by exists c|]. exact Hl.
  - intros _. split; [done|exact Hf2].
  - rewrite Hr. unfold was_live. simpl. by rewrite orb_assoc.
Qed.
Lemma lived_first once touch live s tr s' v : lived once touch live s tr s' -> tr !! 0%nat = Some v ->
  v_in v = entered_with live (st_frame s) s.
Proof. destruct tr as [|w tr]; [done|]. intros [H _] [= <-]. done. Qed.
Lemma lived_visit once touch live s tr s' v : lived once touch live s tr s' -> v ∈ tr ->
  exists c, once (v_in v) = (c, v_out v, v_rebuild v).
Proof.
  revert live s. induction tr as [|w tr IH]; intros live s; [by rewrite elem_of_nil|]. intros (_ & Hw & Ht) [->|H]%elem_of_cons; [done|].
  by eapply IH.
Qed.
Lemma lived_next once touch live s tr s' i v w : lived once touch live s tr s' -> tr !! i = Some v -> tr !! S i = Some w ->
  v_in w = entered_with (was_live live (take (S i) tr)) (touch (frame_left v)) (v_out v).
Proof.
  revert live s i. induction tr as [|u tr IH]; intros live s i; [done|]. intros (_ & _ & Ht) Hv Hw.
  destruct i as [|i].
  - injection Hv as ->. simpl in Hw. rewrite (lived_first _ _ _ _ _ _ _ Ht Hw). unfold was_live. simpl. by rewrite ?take_0, orb_false_r.
  - simpl in Hv, Hw. rewrite (IH _ _ _ Ht Hv Hw). unfold was_live. cbn [take existsb]. by rewrite orb_assoc.
Qed.
Lemma lived_last once touch live s tr s' v : lived once touch live s tr s' -> last tr = Some v ->
  st_frame s' = touch (frame_left v).
Proof.
  revert live s. induction tr as [|u tr IH]; intros live s; [done|]. intros (_ & _ & Ht). destruct tr as [|w tr].
  - intros [= ->]. simpl in Ht. by subst s'.
  - intros Hv. rewrite last_cons in Hv. destruct (last (w :: tr)) as [x|] eqn:Hx; [|by rewrite last_None in Hx]. injection Hv as ->.
    by eapply IH.
Qed.


(** *** Witnesses *)
Definition demo_regs : gregs := mk_gregs 0x401000 0x7fff0000 39 0x246 1 2 3 4 5 6 7 8 9 10 11 12 13 14.
Definition demo_st : st :=
  mk_st (mk_run demo_regs (0, 0) (-1) (mk_spin 0 false 0) 0 0) (mk_frame demo_regs (-1)) (mk_vctx 0 0 0 0 0 0 None) [].
Definition demo_model : vmctx_cpu_model := mk_model 1 0 0 0 0 0 0 0 0 0 0.
(** an owner that answers a call by a new RAX, declines faults, and a kernel that maps nothing *)
Definition demo_owner : owner :=
  mk_owner (fun _ _ _ _ f => (0, f, None))
    (fun _ f => (1, mk_frame (set_cpuid 7 0 0 0 (f_regs f)) (orig_ax f), None))
    (fun _ _ => true) (fun _ _ => true) true (fun _ _ _ => - EFAULT) (fun _ => true) true (0, 0)
    demo_model.
Definition demo_svm : svm_exit := mk_svm_exit SVM_EXIT_EXCP_PF 6 0x500123 0 0xffff0ff0.
Definition demo_vmx : Vmcs.exit_info := Vmcs.mk_exit 0 0x80000b0e 6 0 0x500123 0.
Lemma exits_handled_alike_witness :
  forget_outcome (fst (svm_handle demo_owner (0, 0) demo_svm demo_st)) =
    forget_outcome (vmx_handle demo_owner (0, 0) demo_vmx demo_st) /\
  fst (vmx_handle demo_owner (0, 0) demo_vmx demo_st) = VMCTX_RUN_EXIT.
Proof. split; [apply exits_handled_alike; vm_compute; reflexivity|vm_compute; reflexivity]. Defined.
Lemma guest_resumes_as_told_witness :
  exists c s', vmx_handle demo_owner (0, 0) demo_vmx demo_st = (c, s') /\
    exit_status (st_vc s') < 0 /\ (exists calls, st_log s' = calls ++ [] /\ (asks calls <= 2)%nat).
Proof.
  destruct (vmx_handle demo_owner (0, 0) demo_vmx demo_st) as [c s'] eqn:H. exists c, s'. split; [done|].
  assert (Hc : c = VMCTX_RUN_EXIT) by (change c with (fst (c, s')); rewrite <- H; vm_compute; reflexivity).
  assert (Hh : handles demo_owner (PageFault 0x500123 6) (exited 0 (0, 0) demo_st) (c, s'))
    by (rewrite <- H; apply (by_vmx demo_owner (0, 0) demo_vmx demo_st)).
  destruct (guest_resumes_as_told _ _ _ _ _ Hh I) as (_ & Hx & Hl & _). auto.
Defined.
Definition demo_once (s : st) : run_code * st * bool := (VMCTX_RUN_CONTINUE, upd_run (set_g (set_ip 0x402000 demo_regs)) s, false).
(** three runs, and the frame of the call is back with the last RAX *)
Example demo_frame_restored :
  be_destroy false (runs demo_once (fun f => f) 3 (created false demo_st)) = with_ax 39 (mk_frame demo_regs (-1)).
Proof. vm_compute. reflexivity. Qed.
End GuestExit.
