(* ===== verification/GuestEntry.v ===== *)
(** * Entering a guest (kernel/vmctx.c, SVM)

    The control block svm_build_vmcb_usercode gives a context, and one entry
    through it (svm_vmrun_once_gpr): the execution gate, the check of the CPU
    model on the CPU that runs, the state of the processor that is the host's
    (EFER, VM_HSAVE_PA, XCR0, the interrupt flag and the preemption count) and the
    features the guest is entered with.  The generation check of the entry is the
    subject of GuestTlb.v and is not repeated here. *)
From S2P Require Import Prelude CpuModel Vmcs.
Import CpuModel.
Open Scope Z_scope.

Module GuestEntry.

Definition EOPNOTSUPP : Z := 95.
Definition EFER_SCE : Z := 1.
Definition EFER_SVME : Z := 0x1000.
Definition X86_CR4_FSGSBASE : Z := 0x10000.
Definition X86_CR4_OSXSAVE : Z := 0x40000.
Definition X86_CR4_PKE : Z := 0x400000.
Definition X86_CR4_CET : Z := 0x800000.

(** ** The control block *)
Definition INTERCEPT_EXCEPTION_OFFSET : Z := 64.
Definition INTERCEPT_INTR : Z := 96.
Definition INTERCEPT_NMI : Z := 97.
Definition INTERCEPT_CPUID : Z := 114.
Definition INTERCEPT_SHUTDOWN : Z := 127.
Definition INTERCEPT_VMRUN : Z := 128.
Definition INTERCEPT_VMMCALL : Z := 129.
Definition INTERCEPT_ICEBP : Z := 136.
(** the six words of the intercept vector *)
Definition intercept (b : Z) (words : list Z) : list Z :=
  alter (fun w => w .| u32 (Z.shiftl 1 (b mod 32))) (Z.to_nat (b / 32)) words.
(** [for (v = 0; v < 32; v++)] with the three vectors that are the host's skipped *)
Fixpoint intercept_exceptions (v : Z) (todo : nat) (words : list Z) : list Z :=
  match todo with
  | O => words
  | S todo => intercept_exceptions (v + 1) todo
      (if (v =? 2) || (v =? 7) || (v =? 18) then words else intercept (INTERCEPT_EXCEPTION_OFFSET + v) words)
  end.
Record segment := mk_segment { selector : Z; attrib : Z; limit : Z; base : Z }.
Record vmcb := mk_vmcb {
  intercepts : list Z; asid : Z; tlb_ctl : Z; nested_ctl : Z; nested_cr3 : Z; clean : Z;
  s_cr0 : Z; s_cr3 : Z; s_cr4 : Z; s_efer : Z; s_rflags : Z; s_dr6 : Z; s_dr7 : Z; s_rip : Z; s_rsp : Z; s_rax : Z; s_cpl : Z;
  s_cs : segment; s_ss : segment; s_ds : segment; s_es : segment; s_fs : segment; s_gs : segment }.
(** the registers of the CPU the block is built on *)
Record build_regs := mk_build { b_cr0 : Z; b_cr3 : Z; b_cr4 : Z; b_efer : Z; b_fs : Z; b_gs : Z; b_npt : Z }.
Definition svm_build_vmcb_usercode (e : build_regs) (entry stack : Z) (words : list Z) : vmcb :=
  let ud := INTERCEPT_EXCEPTION_OFFSET + 6 in
  let pf := INTERCEPT_EXCEPTION_OFFSET + 14 in
  let gp := INTERCEPT_EXCEPTION_OFFSET + 13 in
  let w := intercept INTERCEPT_VMRUN words in
  let w := intercept INTERCEPT_CPUID w in
  let w := intercept INTERCEPT_VMMCALL w in
  let w := intercept INTERCEPT_SHUTDOWN w in
  let w := intercept INTERCEPT_INTR w in
  let w := intercept INTERCEPT_ICEBP w in
  let w := intercept INTERCEPT_NMI w in
  let w := intercept ud w in
  let w := intercept pf w in
  let w := intercept gp w in
  let w := intercept_exceptions 0 32 w in
  let data := mk_segment 0x2b 0x0cf3 0xffffffff 0 in
  mk_vmcb w 1 1 1 (b_npt e) 0 (b_cr0 e) (b_cr3 e) (b_cr4 e) (Z.ldiff (b_efer e) EFER_SCE .| EFER_SVME) 2
    0xffff0ff0 0x400 entry stack 0 3
    (mk_segment 0x33 0x0afa 0xffffffff 0) data data data
    (mk_segment 0 0x0cf3 0xffffffff (b_fs e)) (mk_segment 0 0x0cf3 0xffffffff (b_gs e)).
Definition intercepted (words : list Z) (b : Z) : bool :=
  match words !! Z.to_nat (b / 32) with Some w => Z.testbit w (b mod 32) | None => false end.

(** ** The processor and the task *)
Record host := mk_host { h_efer : Z; h_hsave : Z; h_xcr0 : Z; h_irqs : bool; h_preempt : Z; h_gate : Z }.
(** struct vmctx_task: whether it runs user code, whether the model is installed *)
Record vctx := mk_vctx { usercode : bool; model_ready : bool; model : vmctx_cpu_model }.
(** what the guest is entered with *)
Record view := mk_view { v_cr4 : Z; v_rip : Z; v_xcr0 : Z; v_efer : Z; v_hsave : Z }.

Definition vmctx_guest_cpu_check (vc : option vctx) (caps : vmctx_cpu_model) : Z :=
  match vc with
  | Some v => if negb (usercode v) then 0
              else if negb (model_ready v) then - EPROTO
              else if vmctx_cpu_model_subset (model v) caps then 0 else - EOPNOTSUPP
  | None => 0
  end.
Definition vmctx_guest_cr4 (vc : option vctx) (cr4 : Z) : Z :=
  match vc with
  | Some v =>
      if negb (usercode v) then cr4
      else
        let cr4 := Z.ldiff cr4 (X86_CR4_FSGSBASE .| X86_CR4_PKE .| X86_CR4_CET) in
        if (leaf1_ecx (model v) .& VMCTX_CPU_BIT 26) =? 0 then Z.ldiff cr4 X86_CR4_OSXSAVE else cr4
  | None => cr4
  end.
(** the host value to restore, and the value now in the register *)
Definition vmctx_guest_xcr0_enter (vc : option vctx) (xsave : bool) (x : Z) : Z * Z :=
  if negb xsave then (0, x)
  else match vc with
       | Some v => if usercode v && negb (x =? xcr0 (model v)) then (x, xcr0 (model v)) else (x, x)
       | None => (x, x)
       end.
Definition vmctx_guest_xcr0_leave (saved x : Z) : Z := if nz saved && negb (x =? saved) then saved else x.

Record answers := mk_answers {
  an_gate : Z;                 (* vmctx_execution_enter *)
  an_caps : vmctx_cpu_model;   (* vmctx_cpu_caps_current *)
  an_xsave : bool;             (* X86_FEATURE_XSAVE *)
  an_svme : bool }.            (* writing EFER.SVME did not fault *)

Definition set_msrs (ef hs : Z) (h : host) : host := mk_host ef hs (h_xcr0 h) (h_irqs h) (h_preempt h) (h_gate h).
Definition set_xcr0 (x : Z) (h : host) : host := mk_host (h_efer h) (h_hsave h) x (h_irqs h) (h_preempt h) (h_gate h).
Definition set_cpu (irqs : bool) (preempt gate : Z) (h : host) : host :=
  mk_host (h_efer h) (h_hsave h) (h_xcr0 h) irqs preempt gate.

(** the CR4 field of the block, which the entry rewrites *)
Definition set_cr4 (x : Z) (v : vmcb) : vmcb :=
  mk_vmcb (intercepts v) (asid v) (tlb_ctl v) (nested_ctl v) (nested_cr3 v) (clean v) (s_cr0 v) (s_cr3 v) x (s_efer v)
    (s_rflags v) (s_dr6 v) (s_dr7 v) (s_rip v) (s_rsp v) (s_rax v) (s_cpl v) (s_cs v) (s_ss v) (s_ds v) (s_es v) (s_fs v) (s_gs v).

(** One entry.  The result, the host and the block after it, and what the guest was
    entered with if it was entered.  [hsave] is the address of the run's save area. *)
Definition svm_vmrun_once_gpr (a : answers) (vc : option vctx) (hsave : Z) (v : vmcb) (h : host) : Z * host * vmcb * option view :=
  if nz (an_gate a) then (an_gate a, h, v, None)
  else
    let flags := h_irqs h in
    let h := set_cpu (h_irqs h) (h_preempt h) (h_gate h + 1) h in
    let h := set_cpu (h_irqs h) (h_preempt h + 1) (h_gate h) h in
    let h := set_cpu false (h_preempt h) (h_gate h) h in
    let out (ret : Z) (h : host) (v : vmcb) (g : option view) :=
      let h := set_cpu flags (h_preempt h) (h_gate h) h in
      let h := set_cpu (h_irqs h) (h_preempt h - 1) (h_gate h) h in
      (ret, set_cpu (h_irqs h) (h_preempt h) (h_gate h - 1) h, v, g) in
    let ret := vmctx_guest_cpu_check vc (an_caps a) in
    if nz ret then out ret h v None
    else
      let v := set_cr4 (vmctx_guest_cr4 vc (s_cr4 v)) v in
      let efer_saved := h_efer h in
      let hsave_saved := h_hsave h in
      if negb (an_svme a) then out (- EIO) h v None
      else
        let h := set_msrs (efer_saved .| EFER_SVME) (h_hsave h) h in
        let h := set_msrs (h_efer h) hsave h in
        let '(host_xcr0, x) := vmctx_guest_xcr0_enter vc (an_xsave a) (h_xcr0 h) in
        let h := set_xcr0 x h in
        let g := mk_view (s_cr4 v) (s_rip v) (h_xcr0 h) (h_efer h) (h_hsave h) in
        let h := set_xcr0 (vmctx_guest_xcr0_leave host_xcr0 (h_xcr0 h)) h in
        let h := set_msrs (h_efer h) hsave_saved h in
        let h := set_msrs efer_saved (h_hsave h) h in
        out 0 h v (Some g).

(** ** Intercepts *)
Lemma intercept_length b w : length (intercept b w) = length w.
Proof. unfold intercept. apply length_alter. Qed.
(** setting one intercept sets no other *)
Lemma intercept_spec words b c : 0 <= b < 192 -> 0 <= c < 192 -> length words = 6%nat ->
  intercepted (intercept b words) c = bool_decide (c = b) || intercepted words c.
Proof.
  intros Hb Hc Hl. unfold intercepted, intercept.
  assert (Hbit : forall w, Z.testbit (w .| u32 (Z.shiftl 1 (b mod 32))) (c mod 32) =
    bool_decide (c mod 32 = b mod 32) || Z.testbit w (c mod 32)).
  { intros w. assert (0 <= b mod 32 < 32) by (apply Z.mod_pos_bound; lia). assert (0 <= c mod 32 < 32) by (apply Z.mod_pos_bound; lia).
    rewrite Z.lor_spec, orb_comm. f_equal. unfold u32. rewrite Z.mod_pow2_bits_low by lia. rewrite Z.shiftl_1_l.
    rewrite Z.pow2_bits_eqb by lia. apply eq_iff_eq_true. rewrite Z.eqb_eq, bool_decide_eq_true. lia. }
  destruct (decide (b / 32 = c / 32)) as [He|Hne].
  - rewrite He, list_lookup_alter_eq. destruct (words !! Z.to_nat (c / 32)) as [w|] eqn:Hw.
    + simpl. rewrite Hbit. f_equal. apply bool_decide_ext. split; intros; [|by subst].
      rewrite (Z.div_mod b 32), (Z.div_mod c 32) by lia. congruence.
    + exfalso. apply lookup_ge_None in Hw. rewrite Hl in Hw. pose proof (Z.div_lt_upper_bound c 32 6). lia.
  - rewrite list_lookup_alter_ne; [|intros E; apply Hne; pose proof (Z.div_pos b 32); pose proof (Z.div_pos c 32); lia].
    rewrite bool_decide_false; [done|]. intros ->. done.
Qed.
Lemma intercept_exceptions_spec todo v words c :
  0 <= v -> v + Z.of_nat todo <= 32 -> 0 <= c < 192 -> length words = 6%nat ->
  intercepted (intercept_exceptions v todo words) c =
  ((64 + v <=? c) && (c <? 64 + v + Z.of_nat todo) && negb ((c =? 66) || (c =? 71) || (c =? 82))) || intercepted words c.
Proof.
  revert v words. induction todo as [|todo IH]; intros v words Hv Hn Hc Hl; simpl.
  - apply eq_iff_eq_true. rewrite orb_true_iff, !andb_true_iff, Z.leb_le, Z.ltb_lt. naive_solver lia.
  - rewrite IH; [|lia|lia|lia|case_match; rewrite ?intercept_length; done].
    unfold INTERCEPT_EXCEPTION_OFFSET. apply eq_iff_eq_true.
    destruct ((v =? 2) || (v =? 7) || (v =? 18)) eqn:Hskip.
    + rewrite !orb_true_iff, !Z.eqb_eq in Hskip.
      rewrite !orb_true_iff, !andb_true_iff, !negb_true_iff, !orb_false_iff, !Z.leb_le, !Z.ltb_lt, !Z.eqb_neq. naive_solver lia.
    + rewrite !orb_false_iff, !Z.eqb_neq in Hskip. rewrite intercept_spec by (done || lia).
      rewrite !orb_true_iff, bool_decide_eq_true, !andb_true_iff, !negb_true_iff, !orb_false_iff, !Z.leb_le, !Z.ltb_lt, !Z.eqb_neq. naive_solver lia.
Qed.

(** the exceptions that leave the guest, whatever the block held before *)
Lemma exceptions_intercepted e entry stack words vec :
  length words = 6%nat -> 0 <= vec < 32 ->
  intercepted (intercepts (svm_build_vmcb_usercode e entry stack words)) (INTERCEPT_EXCEPTION_OFFSET + vec) =
  Z.testbit Vmcs.EXCEPTION_MASK vec || intercepted words (INTERCEPT_EXCEPTION_OFFSET + vec).
Proof.
  intros Hl Hv. unfold svm_build_vmcb_usercode, INTERCEPT_EXCEPTION_OFFSET. cbn [intercepts].
  rewrite intercept_exceptions_spec by (rewrite ?intercept_length; (done || lia)).
  rewrite !intercept_spec by (rewrite ?intercept_length; (done || unfold INTERCEPT_VMRUN, INTERCEPT_CPUID, INTERCEPT_VMMCALL,
    INTERCEPT_SHUTDOWN, INTERCEPT_INTR, INTERCEPT_ICEBP, INTERCEPT_NMI; lia)).
  assert (Hm : Z.testbit Vmcs.EXCEPTION_MASK vec = negb ((vec =? 2) || (vec =? 7) || (vec =? 18))).
  { unfold Vmcs.EXCEPTION_MASK. rewrite Z.land_spec. change 4294967295 with (Z.ones 32).
    rewrite Z.ones_spec_low, Z.lnot_spec by lia. simpl andb. f_equal.
    change 262276 with (2 ^ 2 .| 2 ^ 7 .| 2 ^ 18). rewrite !Z.lor_spec, !Z.pow2_bits_eqb by lia.
    by rewrite (Z.eqb_sym 2), (Z.eqb_sym 7), (Z.eqb_sym 18). }
  rewrite Hm. destruct (negb ((vec =? 2) || (vec =? 7) || (vec =? 18))) eqn:Hk.
  - replace ((64 + 0 <=? 64 + vec) && _ && _) with true; [done|]. symmetry.
    rewrite negb_true_iff, !orb_false_iff, !Z.eqb_neq in Hk.
    rewrite !andb_true_iff, negb_true_iff, !orb_false_iff, Z.leb_le, Z.ltb_lt, !Z.eqb_neq. lia.
  - rewrite negb_false_iff, !orb_true_iff, !Z.eqb_eq in Hk. destruct Hk as [[->| ->]| ->]; reflexivity.
Qed.

(** ** Features *)
Lemma ldiff_mask_bit x m i : Z.testbit m i = true -> Z.testbit (Z.ldiff x m) i = false.
Proof. intros H. rewrite Z.ldiff_spec, H. apply andb_false_r. Qed.
Definition OUTSIDE_MODEL : list Z := [16; 22; 23].  (* FSGSBASE, PKE, CET *)
Lemma guest_cr4_spec v cr4 : usercode v = true ->
  (forall i, i ∈ OUTSIDE_MODEL -> Z.testbit (vmctx_guest_cr4 (Some v) cr4) i = false) /\
  (leaf1_ecx (model v) .& VMCTX_CPU_BIT 26 = 0 -> Z.testbit (vmctx_guest_cr4 (Some v) cr4) 18 = false) /\
  (forall i, Z.testbit (vmctx_guest_cr4 (Some v) cr4) i = true -> Z.testbit cr4 i = true).
Proof.
  intros Hu. unfold vmctx_guest_cr4. rewrite Hu. cbn [negb].
  set (m := X86_CR4_FSGSBASE .| X86_CR4_PKE .| X86_CR4_CET).
  assert (Hm : forall i, i ∈ OUTSIDE_MODEL -> Z.testbit (Z.ldiff cr4 m) i = false).
  { intros i Hi. apply ldiff_mask_bit. unfold OUTSIDE_MODEL in Hi.
    rewrite !elem_of_cons, elem_of_nil in Hi. destruct Hi as [->|[->|[->|[]]]]; reflexivity. }
  split_and!.
  - intros i Hi. case_match; [|auto]. rewrite Z.ldiff_spec, Hm by done. done.
  - intros H0. rewrite H0. change (0 =? 0) with true. cbn iota. by apply ldiff_mask_bit.
  - intros i. case_match; rewrite !Z.ldiff_spec, ?andb_true_iff; tauto.
Qed.
Lemma xcr0_leave_spec saved x : saved <> 0 -> vmctx_guest_xcr0_leave saved x = saved.
Proof.
  intros H. unfold vmctx_guest_xcr0_leave. apply Z.eqb_neq in H. rewrite H. simpl.
  destruct (x =? saved) eqn:E; [by apply Z.eqb_eq|done].
Qed.
Lemma xcr0_restored vc xsave x saved g : (xsave = true -> x <> 0) ->
  vmctx_guest_xcr0_enter vc xsave x = (saved, g) -> vmctx_guest_xcr0_leave saved g = x.
Proof.
  intros Hx. unfold vmctx_guest_xcr0_enter. destruct xsave; simpl; [|by intros [= <- <-]].
  specialize (Hx eq_refl). intros H. assert (saved = x) as -> by (repeat case_match; by simplify_eq). by apply xcr0_leave_spec.
Qed.

(** Evaluates one entry up to its branches; strict, so that each state is computed once. *)
Ltac run_entry H :=
  cbv beta zeta iota delta [svm_vmrun_once_gpr set_cpu set_msrs set_xcr0 h_efer h_hsave h_xcr0 h_irqs h_preempt h_gate] in H.

(** ** The property *)
(** C38: on every path an entry leaves EFER, VM_HSAVE_PA, XCR0, the interrupt flag,
    the preemption count and the execution gate as it found them.  The guest runs
    only when the CPU has every feature of the installed model, with XCR0 of the
    model and CR4 without the facilities outside it (OSXSAVE only when the model
    has it); and the exceptions that leave the guest are the same on SVM as on VMX. *)
Theorem entry_restores_host a vc hsave v h ret h' v' g :
  (an_xsave a = true -> h_xcr0 h <> 0) ->
  svm_vmrun_once_gpr a vc hsave v h = (ret, h', v', g) ->
  h' = h /\ (v' = v \/ v' = set_cr4 (vmctx_guest_cr4 vc (s_cr4 v)) v) /\ (ret = 0 <-> is_Some g) /\
  (forall w t, g = Some w -> vc = Some t -> usercode t = true ->
     model_ready t = true /\ vmctx_cpu_model_subset (model t) (an_caps a) = true /\
     (an_xsave a = true -> v_xcr0 w = xcr0 (model t)) /\
     (forall i, i ∈ OUTSIDE_MODEL -> Z.testbit (v_cr4 w) i = false) /\
     (leaf1_ecx (model t) .& VMCTX_CPU_BIT 26 = 0 -> Z.testbit (v_cr4 w) 18 = false) /\
     v_hsave w = hsave /\ v_rip w = s_rip v) /\
  (forall e entry stack vec, 0 <= vec < 32 ->
     intercepted (intercepts (svm_build_vmcb_usercode e entry stack (replicate 6 0))) (INTERCEPT_EXCEPTION_OFFSET + vec)
     = Z.testbit Vmcs.EXCEPTION_MASK vec).
Proof.
  intros Hx Hrun. assert (Hex : forall e entry stack vec, 0 <= vec < 32 ->
     intercepted (intercepts (svm_build_vmcb_usercode e entry stack (replicate 6 0))) (INTERCEPT_EXCEPTION_OFFSET + vec)
     = Z.testbit Vmcs.EXCEPTION_MASK vec).
  { intros e entry stack vec Hv. rewrite exceptions_intercepted by done. unfold intercepted.
    destruct (replicate 6 0 !! _) as [w|] eqn:Hw; [|apply orb_false_r].
    apply lookup_replicate in Hw as [-> _]. by rewrite Z.bits_0, orb_false_r. }
  split; [|split; [|split; [|split; [|exact Hex]]]]; clear Hex;
    destruct h as [ef hs x irq pre gate]; cbn in Hx; run_entry Hrun.
  - destruct (nz (an_gate a)); [by simplify_eq|].
    destruct (nz (vmctx_guest_cpu_check vc (an_caps a))); [simplify_eq; f_equal; lia|].
    destruct (negb (an_svme a)); [simplify_eq; f_equal; lia|].
    destruct (vmctx_guest_xcr0_enter vc (an_xsave a) x) as [saved y] eqn:He. simplify_eq.
    f_equal; [by eapply xcr0_restored|lia|lia].
  - destruct (nz (an_gate a)); [simplify_eq; auto|].
    destruct (nz (vmctx_guest_cpu_check vc (an_caps a))); [simplify_eq; auto|].
    destruct (negb (an_svme a)); [simplify_eq; auto|].
    destruct (vmctx_guest_xcr0_enter vc (an_xsave a) x) as [saved y]. cbn in Hrun. simplify_eq. auto.
  - destruct (an_gate a =? 0) eqn:Hg; cbn in Hrun; [|apply Z.eqb_neq in Hg; simplify_eq; split; [done|by intros [? ?]]].
    destruct (vmctx_guest_cpu_check vc (an_caps a) =? 0) eqn:Hk; cbn in Hrun;
      [|apply Z.eqb_neq in Hk; simplify_eq; split; [done|by intros [? ?]]].
    destruct (negb (an_svme a)); [simplify_eq; split; [done|by intros [? ?]]|].
    destruct (vmctx_guest_xcr0_enter vc (an_xsave a) x) as [saved y]. cbn in Hrun. simplify_eq. split; eauto.
  - intros w t -> -> Hu. destruct (nz (an_gate a)); [done|].
    destruct (vmctx_guest_cpu_check (Some t) (an_caps a) =? 0) eqn:Hk; cbn [negb] in Hrun; [|done].
    destruct (negb (an_svme a)); [done|].
    destruct (vmctx_guest_xcr0_enter (Some t) (an_xsave a) x) as [saved y] eqn:He. cbn in Hrun. simplify_eq. cbn.
    destruct (guest_cr4_spec t (s_cr4 v) Hu) as (C1 & C2 & _).
    apply Z.eqb_eq in Hk. unfold vmctx_guest_cpu_check in Hk. rewrite Hu in Hk. cbn in Hk.
    destruct (model_ready t); cbn in Hk; [|done]. destruct (vmctx_cpu_model_subset (model t) (an_caps a)); [|done].
    split_and!; auto. intros Hxs. unfold vmctx_guest_xcr0_enter in He. rewrite Hxs, Hu in He. cbn in He.
    destruct (x =? xcr0 (model t)) eqn:E; cbn in He; simplify_eq; [by apply Z.eqb_eq|done].
Qed.

(** A CPU with AVX runs a model without XSAVE: the guest has XCR0 3 and no OSXSAVE. *)
Lemma entry_restores_host_witness :
  exists a t v h w, svm_vmrun_once_gpr a (Some t) 4096 v h = (0, h, set_cr4 0x600 v, Some w) /\
    v_xcr0 w = 3 /\ v_cr4 w = 0x600 /\ h_xcr0 h = 7 /\ vmctx_cpu_model_subset (model t) (an_caps a) = true.
Proof.
  pose (caps := vmctx_cpu_model_trim (mk_model 1 0 U32MAX U32MAX U32MAX U32MAX U32MAX U32MAX U32MAX 0 7)).
  pose (m := vmctx_cpu_model_trim (mk_model 1 0 (VMCTX_CPU_BIT 0) U32MAX U32MAX 0 0 0 U32MAX 0 3)).
  pose (a := mk_answers 0 caps true true). pose (t := mk_vctx true true m).
  pose (v := svm_build_vmcb_usercode (mk_build 0x80050033 0x1000 0xc50600 0xd01 0 0 0x2000) 0x400000 0x7fff0000 (replicate 6 0)).
  pose (h := mk_host 0xd01 0x5000 7 true 0 0).
  destruct (svm_vmrun_once_gpr a (Some t) 4096 v h) as [[[ret h'] v'] g] eqn:Hrun.
  assert (Hx : an_xsave a = true -> h_xcr0 h <> 0) by (intros _; vm_compute; discriminate).
  destruct (entry_restores_host a (Some t) 4096 v h ret h' v' g Hx Hrun) as (Hh & _ & Hr & Hg & _). subst h'.
  assert (Hc : svm_vmrun_once_gpr a (Some t) 4096 v h = (0, h, set_cr4 0x600 v, Some (mk_view 0x600 0x400000 3 0x1d01 4096)))
    by (vm_compute; reflexivity).
  rewrite Hc in Hrun. injection Hrun as <- <- <-.
  destruct (Hg _ _ eq_refl eq_refl eq_refl) as (_ & Hsub & _).
  exists a, t, v, h, (mk_view 0x600 0x400000 3 0x1d01 4096). split_and!; [exact Hc|reflexivity|reflexivity|reflexivity|exact Hsub].
Defined.

End GuestEntry.
