(* ===== verification/SourceTables.v ===== *)
(** * Small tables of the source monitor (user/vmhome.c)

    - the sealed ranges ([relro_mm_note], [relro_has], [relro_mm_forget],
      [relro_inherit]): where a read-only file page may differ from its file;
    - the ranges of shared files ([sh_file_note], [sh_file_forget],
      [sh_file_has], [sh_file_reclaim], [sh_file_reclaim_held]): pages that are
      taken back before the file can be seen, in a table of 64 rows;
    - the identities of shared objects ([sh_shared_identity]);
    - the batched scan of the page record ([pg_scan]).

    Both range tables hold rows of the same shape, which may overlap, and are
    given as an instance of [RangeRow]; what each update keeps is [carve] of
    Ranges.v.  Traces and counters are left out. *)
From stdpp Require Import sorting.
From S2P Require Import Prelude Ranges.
Open Scope Z_scope.

Module SourceTables.

Record file_range := mk_range { fr_start : Z; fr_end : Z; fr_as : Z }.
#[global] Instance file_range_row : RangeRow file_range unit := {
  row_as := fr_as; row_st := fr_start; row_en := fr_end;
  cut_hi x r := mk_range (fr_start r) x (fr_as r);
  cut_lo x r := mk_range x (fr_end r) (fr_as r);
  row_at _ _ := () }.
#[global] Instance file_range_laws : RangeRowLaws file_range unit.
Proof. by split. Qed.

(** [addr & ~0xfff] and [(addr + len + 0xfff) & ~0xfff] *)
Definition range_lo (addr : Z) : Z := page_base addr.
Definition range_hi (addr len : Z) : Z := page_base (u64 (u64 (addr + len) + 0xfff)).
Definition same_range (as_ lo hi : Z) (r : file_range) : bool :=
  (fr_as r =? as_) && (fr_start r =? lo) && (fr_end r =? hi).
(** the search of [relro_has] and of [sh_file_has] *)
Definition range_has (as_ a : Z) (rows : list file_range) : bool := existsb (row_in as_ a) rows.

(** ** Sealed ranges *)
Record relro_table := mk_relro { relro : list file_range; relro_cap : Z }.
Definition sizeof_relro_range : Z := 24.
Definition relro_reserve (alloc : Z -> bool) (n : Z) (t : relro_table) : result relro_table :=
  let! cap := reserve alloc sizeof_relro_range n (relro_cap t) in Ok (mk_relro (relro t) cap).
(** [relro[relro_n++] = r] *)
Definition relro_push (r : file_range) (t : relro_table) : result relro_table :=
  let! rows := push (relro_cap t) r (relro t) in Ok (mk_relro rows (relro_cap t)).
Definition relro_n (t : relro_table) : Z := Z.of_nat (length (relro t)).

Definition relro_mm_note (alloc : Z -> bool) (as_ addr len : Z) (t : relro_table) : result relro_table :=
  let start := range_lo addr in
  let end_ := range_hi addr len in
  if (len =? 0) || (end_ <=? start) then Ok t
  else if existsb (same_range as_ start end_) (relro t) then Ok t
  else let! t := relro_reserve alloc (relro_n t + 1) t in relro_push (mk_range start end_ as_) t.
Definition relro_has (as_ addr : Z) (t : relro_table) : bool := range_has as_ addr (relro t).

Fixpoint relro_forget_loop (alloc : Z -> bool) (as_ start end_ : Z) (fuel i : nat) (t : relro_table)
  : result relro_table :=
  match fuel with
  | O => Hung
  | S fuel =>
      match relro t !! i with
      | None => Ok t
      | Some r =>
          if negb (fr_as r =? as_) || (fr_end r <=? start) || (end_ <=? fr_start r)
          then relro_forget_loop alloc as_ start end_ fuel (S i) t
          else if fr_start r <? start then
            let t := mk_relro (<[i := cut_hi start r]> (relro t)) (relro_cap t) in
            let! t := (if end_ <? fr_end r
                       then let! t := relro_reserve alloc (relro_n t + 1) t in relro_push (cut_lo end_ r) t
                       else Ok t) in
            relro_forget_loop alloc as_ start end_ fuel (S i) t
          else if end_ <? fr_end r then
            relro_forget_loop alloc as_ start end_ fuel (S i) (mk_relro (<[i := cut_lo end_ r]> (relro t)) (relro_cap t))
          else relro_forget_loop alloc as_ start end_ fuel i (mk_relro (swap_remove i (relro t)) (relro_cap t))
      end
  end.
Definition relro_mm_forget (alloc : Z -> bool) (as_ start len : Z) (t : relro_table) : result relro_table :=
  let end_ := u64 (start + len) in
  if (len =? 0) || (end_ <=? start) then Ok t
  else relro_forget_loop alloc as_ start end_ (S (2 * length (relro t))) 0 t.

Definition relro_inherit (alloc : Z -> bool) (ca pa : Z) (t : relro_table) : result relro_table :=
  if ca =? pa then Ok t
  else
    let! t := relro_reserve alloc (2 * relro_n t + 1) t in
    let! rows := copy_loop (relro_cap t) pa (fun r => mk_range (fr_start r) (fr_end r) ca) (relro t) (relro t) in
    Ok (mk_relro rows (relro_cap t)).

(** ** Shared file ranges *)
Definition SH_FILE_MAX : nat := 64.
(** [sh_file_add_locked] *)
Definition sh_file_add_locked (as_ start end_ : Z) (rows : list file_range) : list file_range :=
  if decide (length rows < SH_FILE_MAX)%nat then rows ++ [mk_range start end_ as_] else rows.
Definition sh_file_note (as_ addr len : Z) (rows : list file_range) : list file_range :=
  let start := range_lo addr in
  let end_ := range_hi addr len in
  if len =? 0 then rows
  else if existsb (same_range as_ start end_) rows then rows
  else sh_file_add_locked as_ start end_ rows.
Fixpoint sh_forget_loop (as_ lo hi : Z) (fuel i : nat) (rows : list file_range) : result (list file_range) :=
  match fuel with
  | O => Hung
  | S fuel =>
      match rows !! i with
      | None => Ok rows
      | Some r =>
          if negb (fr_as r =? as_) || (fr_end r <=? lo) || (hi <=? fr_start r)
          then sh_forget_loop as_ lo hi fuel (S i) rows
          else
            let rows := swap_remove i rows in
            let rows := if fr_start r <? lo then sh_file_add_locked as_ (fr_start r) lo rows else rows in
            let rows := if hi <? fr_end r then sh_file_add_locked as_ hi (fr_end r) rows else rows in
            sh_forget_loop as_ lo hi fuel i rows
      end
  end.
Definition sh_file_forget (as_ addr len : Z) (rows : list file_range) : result (list file_range) :=
  let lo := range_lo addr in
  let hi := range_hi addr len in
  if len =? 0 then Ok rows else sh_forget_loop as_ lo hi (S (3 * length rows)) 0 rows.
Definition sh_file_has (as_ addr : Z) (rows : list file_range) : bool := range_has as_ addr rows.

(** [sh_file_reclaim]: the table is read anew for every row, [tab i] is what it
    holds at that moment.  The pages pulled, in order. *)
Fixpoint pages_from (fuel : nat) (p e : Z) : list Z :=
  match fuel with
  | O => []
  | S fuel => if p <? e then p :: pages_from fuel (u64 (p + PAGE)) e else []
  end.
Definition pages_between (s e : Z) : list Z := pages_from (Z.to_nat ((e - s) / PAGE + 1)) s e.
Fixpoint reclaim_rows (tab : nat -> list file_range) (as_ : Z) (take_back : file_range -> list Z) (fuel i : nat) : list Z :=
  match fuel with
  | O => []
  | S fuel =>
      match tab i !! i with
      | None => []
      | Some r => (if negb (fr_as r =? as_) then [] else take_back r) ++ reclaim_rows tab as_ take_back fuel (S i)
      end
  end.
Definition clipped_pages (lo hi : Z) (r : file_range) : list Z :=
  if (fr_end r <=? lo) || (hi <=? fr_start r) then []
  else pages_between (if fr_start r <? lo then lo else fr_start r) (if hi <? fr_end r then hi else fr_end r).
Definition sh_file_reclaim (tab : nat -> list file_range) (as_ addr len : Z) : list Z :=
  if len =? 0 then []
  else reclaim_rows tab as_ (clipped_pages (range_lo addr) (range_hi addr len)) (S SH_FILE_MAX) 0.

(** ** The scan of the page record
    [scan k start end] is the answer of the [k]-th PGSCAN: a failure, or at most
    VMCTX_PGSCAN_MAX pages.  The result is the return value and the pages the
    callback was given. *)
Definition VMCTX_PGSCAN_MAX : nat := 64.
Fixpoint pg_scan_loop (scan : nat -> Z -> Z -> option (list Z)) (fuel k : nat) (start end_ : Z) (seen : list Z)
  : result (Z * list Z) :=
  match fuel with
  | O => Hung
  | S fuel =>
      if start <? end_ then
        match scan k start end_ with
        | None => Ok (if decide (seen = []) then -1 else Z.of_nat (length seen), seen)
        | Some pages =>
            let seen := seen ++ pages in
            if decide (length pages < VMCTX_PGSCAN_MAX)%nat then Ok (Z.of_nat (length seen), seen)
            else match last pages with
                 | Some p => pg_scan_loop scan fuel (S k) (u64 (p + PAGE)) end_ seen
                 | None => Corrupt
                 end
        end
      else Ok (Z.of_nat (length seen), seen)
  end.
Definition pg_scan (scan : nat -> Z -> Z -> option (list Z)) (start end_ : Z) : result (Z * list Z) :=
  pg_scan_loop scan (S (Z.to_nat ((end_ - start) / PAGE + 1))) 0 start end_ [].
(** [sh_file_reclaim_held]: every page the record does not give to this side *)
Definition row_held_pages (scan : nat -> Z -> Z -> option (list Z)) (r : file_range) : list Z :=
  match pg_scan scan (fr_start r) (fr_end r) with Ok (_, pages) => pages | _ => [] end.
Definition sh_file_reclaim_held (tab : nat -> list file_range) (scan : nat -> Z -> Z -> option (list Z)) (as_ : Z) : list Z :=
  if decide (tab 0%nat = []) then [] else reclaim_rows tab as_ (row_held_pages scan) (S SH_FILE_MAX) 0.

(** ** Identities of shared objects *)
Record sh_shared_object := mk_object { so_dev : Z; so_ino : Z; so_fd : Z }.
Definition sizeof_shared_object : Z := 24.
Definition INT64_MAX : Z := 2 ^ 63 - 1.
Fixpoint object_index (dev ino : Z) (i : nat) (l : list sh_shared_object) : option nat :=
  match l with
  | [] => None
  | o :: l => if (so_dev o =? dev) && (so_ino o =? ino) then Some i else object_index dev ino (S i) l
  end.
(** The identity or the error, the table, and whether [fd] was closed. *)
Definition sh_shared_identity (fstat : Z + Z * Z) (alloc : Z -> bool) (fd foff len : Z) (tab : list sh_shared_object)
  : (Z + Z) * list sh_shared_object * bool :=
  match fstat with
  | inl e => (inl e, tab, true)
  | inr (dev, ino) =>
      if (len =? 0) || nz (foff .& 4095) || (INT64_MAX <? foff) || (INT64_MAX - foff <? len)
      then (inl EOVERFLOW, tab, true)
      else match object_index dev ino 0 tab with
           | Some i => (inr (Z.of_nat i + 1), tab, true)
           | None =>
               let n := Z.of_nat (length tab) in
               if n =? U64MAX / sizeof_shared_object then (inl EOVERFLOW, tab, true)
               else if negb (alloc ((n + 1) * sizeof_shared_object)) then (inl ENOMEM, tab, true)
               else (inr (n + 1), tab ++ [mk_object dev ino fd], false)
           end
  end.

(** ** The mapping a call has made *)
Record vmctx_mapping := mk_mapping { m_flags : Z; m_start : Z; m_len : Z; m_offset : Z; m_fd : Z; m_prot : Z }.
Definition VMCTX_MAPPING_SHARED : Z := 1.
Definition PROT_WRITE : Z := 2.
Definition MAP_SHARED : Z := 1.
Definition SYS_mmap : Z := 9.
Definition SYS_shmat : Z := 30.
Record shared_mapping := mk_shared_mapping { sm_object : Z; sm_offset : Z; sm_length : Z }.
Record source_objects := mk_objects { sh_shared : list sh_shared_object; sh_file : list file_range }.
(** [query] is the answer of VMCTX_CTL_MAPPING; [Aborted] is ctx_pull_failed. *)
Definition note_shared_mapping (query : option vmctx_mapping) (fstat : Z + Z * Z) (alloc : Z -> bool)
    (as_ nr arg1 arg3 ret : Z) (s : source_objects) : result (shared_mapping * source_objects) :=
  if (ret <? 0) || negb ((nr =? SYS_shmat) || ((nr =? SYS_mmap) && nz (arg3 .& MAP_SHARED)))
  then Ok (mk_shared_mapping 0 0 0, s)
  else match query with
  | None => Aborted
  | Some m =>
      if negb (nz (m_flags m .& VMCTX_MAPPING_SHARED)) || (ret <? m_start m) || (m_len m <=? ret - m_start m) || (m_fd m <? 0)
      then Aborted
      else
        let inside := ret - m_start m in
        let length := if nr =? SYS_mmap then arg1 else m_len m - inside in
        if (m_len m - inside <? length) || (U64MAX - inside <? m_offset m) then Aborted
        else
          let offset := m_offset m + inside in
          match sh_shared_identity fstat alloc (m_fd m) offset length (sh_shared s) with
          | (inl _, _, _) => Aborted
          | (inr object, objects, _) =>
              Ok (mk_shared_mapping object offset length,
                  mk_objects objects (if nz (m_prot m .& PROT_WRITE) then sh_file_note as_ ret length (sh_file s) else sh_file s))
          end
  end.

(** ** What the rows cover *)
Lemma range_has_spec as_ a rows : range_has as_ a rows = true <-> exists r, r ∈ rows /\ row_in as_ a r = true.
Proof. unfold range_has. rewrite existsb_exists. by setoid_rewrite <- list_elem_of_In. Qed.
#[global] Instance range_has_proper as_ a : Proper (Permutation ==> eq) (range_has as_ a).
Proof. intros l l' Hp. apply eq_iff_eq_true. rewrite !range_has_spec. by setoid_rewrite Hp. Qed.
Lemma range_has_app as_ a l l' : range_has as_ a (l ++ l') = range_has as_ a l || range_has as_ a l'.
Proof. apply existsb_app. Qed.

(** what is left after a removal *)
Definition outside (as_ lo hi as' a : Z) : bool := negb ((as' =? as_) && (lo <=? a) && (a <? hi)).
Lemma carve_has as_ lo hi as' a (r : file_range) :
  range_has as' a (carve as_ lo hi r) = row_in as' a r && outside as_ lo hi as' a.
Proof.
  unfold carve, outside, row_hit, row_in. cbn [row_as row_st row_en cut_hi cut_lo file_range_row].
  destruct (negb _) eqn:Hh.
  - rewrite range_has_app. unfold range_has.
    destruct (fr_start r <? lo) eqn:H1, (hi <? fr_end r) eqn:H2; cbn -[Z.eqb Z.leb Z.ltb]; unfold row_in; cbn; lia.
  - cbn -[Z.eqb Z.leb Z.ltb]. unfold row_in; cbn. lia.
Qed.
Lemma carved_has as_ lo hi as' a (rows : list file_range) :
  range_has as' a (rows ≫= carve as_ lo hi) = range_has as' a rows && outside as_ lo hi as' a.
Proof.
  induction rows as [|r rows IH]; [done|]. rewrite bind_cons, range_has_app, carve_has, IH.
  change (range_has as' a (r :: rows)) with (row_in as' a r || range_has as' a rows).
  by destruct (row_in as' a r), (range_has as' a rows), (outside as_ lo hi as' a).
Qed.
Lemma same_range_has as_ lo hi rows as' a :
  existsb (same_range as_ lo hi) rows = true -> (as' =? as_) && (lo <=? a) && (a <? hi) = true -> range_has as' a rows = true.
Proof.
  rewrite existsb_exists. intros (r & Hr & Hs) Ha. apply range_has_spec. exists r. split; [by apply list_elem_of_In|].
  unfold same_range, row_in in *. cbn. lia.
Qed.

(** ** The removal of the sealed ranges *)
Definition relro_ok (t : relro_table) : Prop := relro_n t <= relro_cap t.
Lemma relro_reserve_ok alloc n t t' :
  relro_ok t -> relro_reserve alloc n t = Ok t' -> relro t' = relro t /\ n <= relro_cap t' /\ relro_ok t'.
Proof.
  unfold relro_reserve, relro_ok, relro_n. intros Hok H.
  destruct (reserve alloc _ n (relro_cap t)) as [cap| | | |] eqn:Hr; simplify_eq/=.
  apply reserve_ok in Hr as (? & ? & ?); [|lia]. split; [done|]. lia.
Qed.
Lemma relro_reserve_fails alloc n t : match relro_reserve alloc n t with Ok _ | Aborted => True | _ => False end.
Proof. unfold relro_reserve, reserve. repeat case_match; simplify_eq/=; done. Qed.
Lemma relro_push_ok r t : relro_n t < relro_cap t -> relro_push r t = Ok (mk_relro (relro t ++ [r]) (relro_cap t)).
Proof. unfold relro_push, push, relro_n. intros H. by rewrite (proj2 (Z.ltb_lt _ _) H). Qed.
(** room for one more row, and the row written there *)
Definition relro_append (alloc : Z -> bool) (r : file_range) (t : relro_table) : result relro_table :=
  let! t := relro_reserve alloc (relro_n t + 1) t in relro_push r t.
Lemma relro_append_spec alloc r t : relro_ok t ->
  match relro_append alloc r t with
  | Ok t' => relro t' = relro t ++ [r] /\ relro_ok t' | Aborted => True | _ => False end.
Proof.
  intros Hok. unfold relro_append. pose proof (relro_reserve_fails alloc (relro_n t + 1) t) as Hf.
  destruct (relro_reserve alloc (relro_n t + 1) t) as [t1| | | |] eqn:H1; try done. simpl.
  destruct (relro_reserve_ok _ _ _ _ Hok H1) as (Hrows & Hc & Hok1).
  rewrite relro_push_ok by (unfold relro_n in *; rewrite Hrows; lia). simpl. rewrite Hrows. split; [done|].
  unfold relro_ok, relro_n in *. simpl. rewrite length_app. simpl. lia.
Qed.

Lemma relro_forget_loop_spec alloc as_ lo hi fuel i t :
  relro_ok t -> (i <= length (relro t))%nat -> (weight as_ lo hi (drop i (relro t)) < fuel)%nat ->
  match relro_forget_loop alloc as_ lo hi fuel i t with
  | Ok t' => relro t' ≡ₚ take i (relro t) ++ (drop i (relro t) ≫= carve as_ lo hi) /\ relro_ok t'
  | Aborted => True | _ => False end.
Proof.
  revert i t. induction fuel as [|fuel IH]; intros i t Hok Hi Hw; [lia|]. simpl.
  destruct (relro t !! i) as [r|] eqn:Hlk; cycle 1.
  { apply lookup_ge_None in Hlk. rewrite drop_ge, take_ge by lia. simpl. by rewrite app_nil_r. }
  pose proof (lookup_lt_Some _ _ _ Hlk) as Hlt. rewrite (drop_S _ r) in Hw |- * by done.
  rewrite weight_cons in Hw. rewrite bind_cons. unfold carve at 1.
  assert (Hb : row_hit as_ lo hi r = negb (negb (fr_as r =? as_) || (fr_end r <=? lo) || (hi <=? fr_start r))) by done.
  destruct (negb (fr_as r =? as_) || (fr_end r <=? lo) || (hi <=? fr_start r)) eqn:Hskip; rewrite Hb in *; simpl negb in *; cbn iota in *.
  { specialize (IH (S i) t Hok ltac:(lia) ltac:(lia)). destruct (relro_forget_loop _ _ _ _ _ _ _); try done.
    destruct IH as [Hp ?]. split; [|done]. rewrite Hp, (take_S_r _ _ r) by done. by rewrite <- app_assoc. }
  cbn [row_st row_en cut_hi cut_lo file_range_row].
  destruct (fr_start r <? lo) eqn:H1.
  - set (t1 := mk_relro (<[i := _]> (relro t)) (relro_cap t)).
    assert (Hok1 : relro_ok t1) by (unfold relro_ok, relro_n, t1 in *; simpl; by rewrite length_insert).
    destruct (hi <? fr_end r) eqn:H2.
    + change (let! t0 := relro_reserve alloc (relro_n t1 + 1) t1 in relro_push (mk_range hi (fr_end r) (fr_as r)) t0)
        with (relro_append alloc (mk_range hi (fr_end r) (fr_as r)) t1).
      pose proof (relro_append_spec alloc (mk_range hi (fr_end r) (fr_as r)) t1 Hok1) as Ha.
      destruct (relro_append _ _ t1) as [t2| | | |]; try done. destruct Ha as [Hr2 Hok2]. simpl.
      assert (Hd : drop (S i) (relro t2) = drop (S i) (relro t) ++ [mk_range hi (fr_end r) (fr_as r)]).
      { rewrite Hr2. unfold t1. simpl relro. rewrite drop_app_le by (rewrite length_insert; lia). by rewrite drop_insert_next. }
      assert (Hnh : row_hit as_ lo hi (mk_range hi (fr_end r) (fr_as r)) = false) by (unfold row_hit; cbn; lia).
      specialize (IH (S i) t2 Hok2). rewrite Hd, weight_snoc, weight_cons, Hnh in IH.
      specialize (IH ltac:(rewrite Hr2; unfold t1; simpl; rewrite length_app, length_insert; simpl; lia) ltac:(lia)).
      destruct (relro_forget_loop _ _ _ _ _ _ _); try done. destruct IH as [Hp ?]. split; [|done].
      rewrite Hp, bind_app. simpl. unfold carve at 2. rewrite Hnh. rewrite Hr2. unfold t1. simpl relro.
      rewrite take_app_le by (rewrite length_insert; lia). rewrite take_insert_next by done. simpl. solve_Permutation.
    + simpl. specialize (IH (S i) t1 Hok1). unfold t1 in IH. simpl relro in IH. rewrite drop_insert_next, length_insert in IH.
      specialize (IH ltac:(lia) ltac:(lia)). fold t1 in IH. destruct (relro_forget_loop _ _ _ _ _ _ _); try done. destruct IH as [Hp ?].
      split; [|done]. rewrite Hp, take_insert_next by done. by rewrite <- app_assoc.
  - destruct (hi <? fr_end r) eqn:H2.
    + set (t1 := mk_relro (<[i := _]> (relro t)) (relro_cap t)).
      assert (Hok1 : relro_ok t1) by (unfold relro_ok, relro_n, t1 in *; simpl; by rewrite length_insert).
      specialize (IH (S i) t1 Hok1). unfold t1 in IH. simpl relro in IH. rewrite drop_insert_next, length_insert in IH.
      specialize (IH ltac:(lia) ltac:(lia)). fold t1 in IH. destruct (relro_forget_loop _ _ _ _ _ _ _); try done. destruct IH as [Hp ?].
      split; [|done]. rewrite Hp, take_insert_next by done. by rewrite <- app_assoc.
    + destruct (swap_remove_split i _ r Hlk) as [Ht Hd]. pose proof (swap_remove_length i (relro t) Hlt) as Hlen.
      set (t1 := mk_relro (swap_remove i (relro t)) (relro_cap t)).
      assert (Hok1 : relro_ok t1) by (unfold relro_ok, relro_n, t1 in *; simpl; lia).
      specialize (IH i t1 Hok1). unfold t1 in IH. simpl relro in IH. rewrite (weight_perm _ _ _ _ _ Hd) in IH.
      specialize (IH ltac:(lia) ltac:(lia)). fold t1 in IH. destruct (relro_forget_loop _ _ _ _ _ _ _); try done. destruct IH as [Hp ?].
      split; [|done]. rewrite Hp, Ht. simpl. by rewrite Hd.
Qed.

(** ** The removal of the shared file ranges *)
Definition heavy (as_ lo hi : Z) (rows : list file_range) : nat :=
  (length rows + 2 * length (filter (fun r => row_hit as_ lo hi r = true) rows))%nat.
Lemma heavy_perm as_ lo hi rows rows' : rows ≡ₚ rows' -> heavy as_ lo hi rows = heavy as_ lo hi rows'.
Proof. intros Hp. unfold heavy. by rewrite Hp. Qed.
Lemma heavy_cons as_ lo hi r rows :
  heavy as_ lo hi (r :: rows) = (heavy as_ lo hi rows + if row_hit as_ lo hi r then 3 else 1)%nat.
Proof.
  unfold heavy. rewrite filter_cons. case_decide as Hh; [rewrite Hh|apply not_true_is_false in Hh; rewrite Hh]; simpl; lia.
Qed.
Lemma heavy_snoc as_ lo hi r rows : heavy as_ lo hi (rows ++ [r]) = heavy as_ lo hi (r :: rows).
Proof. apply heavy_perm. by rewrite Permutation_app_comm. Qed.
Lemma heavy_le as_ lo hi rows : (heavy as_ lo hi rows <= 3 * length rows)%nat.
Proof. unfold heavy. pose proof (length_filter (fun r => row_hit as_ lo hi r = true) rows). lia. Qed.
(** the rows a removal may add *)
Definition hits (as_ lo hi : Z) (rows : list file_range) : nat := length (filter (fun r => row_hit as_ lo hi r = true) rows).
Lemma hits_perm as_ lo hi rows rows' : rows ≡ₚ rows' -> hits as_ lo hi rows = hits as_ lo hi rows'.
Proof. intros Hp. unfold hits. by rewrite Hp. Qed.

(** One addition: the row, or nothing when the table is full. *)
Lemma sh_add_cases as_ s e rows :
  (sh_file_add_locked as_ s e rows = rows ++ [mk_range s e as_] /\ (length rows < SH_FILE_MAX)%nat) \/
  (sh_file_add_locked as_ s e rows = rows /\ (SH_FILE_MAX <= length rows)%nat).
Proof. unfold sh_file_add_locked. case_decide; [left|right]; split; auto; lia. Qed.

(** the pieces of one removed row, as far as they fit *)
Definition readd (as_ lo hi : Z) (r : file_range) (rows : list file_range) : list file_range :=
  let rows := if fr_start r <? lo then sh_file_add_locked as_ (fr_start r) lo rows else rows in
  if hi <? fr_end r then sh_file_add_locked as_ hi (fr_end r) rows else rows.
Lemma readd_spec as_ lo hi r rows : row_hit as_ lo hi r = true ->
  exists pieces, readd as_ lo hi r rows = rows ++ pieces /\ pieces ⊆ carve as_ lo hi r /\
    Forall (fun x => row_hit as_ lo hi x = false) pieces /\ (length pieces <= 2)%nat /\
    ((length rows <= SH_FILE_MAX)%nat -> (length rows + length pieces <= SH_FILE_MAX)%nat) /\
    ((length rows + 1 < SH_FILE_MAX)%nat -> pieces = carve as_ lo hi r).
Proof.
  intros Hh. unfold readd, carve. rewrite Hh. unfold row_hit in Hh. cbn in Hh.
  cbn [row_st row_en cut_hi cut_lo file_range_row].
  assert (Has : fr_as r = as_) by lia. rewrite <- Has.
  assert (Hl : row_hit (fr_as r) lo hi (mk_range (fr_start r) lo (fr_as r)) = false) by (unfold row_hit; cbn; lia).
  assert (Hu : row_hit (fr_as r) lo hi (mk_range hi (fr_end r) (fr_as r)) = false) by (unfold row_hit; cbn; lia).
  destruct (fr_start r <? lo) eqn:H1.
  - destruct (sh_add_cases (fr_as r) (fr_start r) lo rows) as [[-> Hlen]|[-> Hlen]].
    + destruct (hi <? fr_end r) eqn:H2.
      * destruct (sh_add_cases (fr_as r) hi (fr_end r) (rows ++ [mk_range (fr_start r) lo (fr_as r)])) as [[-> Hlen2]|[-> Hlen2]];
          rewrite length_app in Hlen2; simpl in Hlen2.
        -- eexists [_; _]. rewrite <- app_assoc. split; [done|]. split; [set_solver|].
           split; [by repeat constructor|]. simpl. split_and!; auto; lia.
        -- eexists [_]. split; [done|]. split; [set_solver|]. split; [by repeat constructor|]. simpl. split_and!; auto; lia.
      * eexists [_]. split; [done|]. split; [set_solver|]. split; [by repeat constructor|]. simpl. split_and!; auto; lia.
    + destruct (hi <? fr_end r) eqn:H2.
      * destruct (sh_add_cases (fr_as r) hi (fr_end r) rows) as [[-> Hlen2]|[-> Hlen2]]; [lia|].
        exists []. rewrite app_nil_r. split; [done|]. split; [set_solver|]. split; [done|]. simpl. split_and!; auto; lia.
      * exists []. rewrite app_nil_r. split; [done|]. split; [set_solver|]. split; [done|]. simpl. split_and!; auto; lia.
  - destruct (hi <? fr_end r) eqn:H2.
    + destruct (sh_add_cases (fr_as r) hi (fr_end r) rows) as [[-> Hlen2]|[-> Hlen2]].
      * eexists [_]. split; [done|]. split; [set_solver|]. split; [by repeat constructor|]. simpl. split_and!; auto; lia.
      * exists []. rewrite app_nil_r. split; [done|]. split; [set_solver|]. split; [done|]. simpl. split_and!; auto; lia.
    + exists []. rewrite app_nil_r. split; [done|]. split; [set_solver|]. split; [done|]. simpl. split_and!; auto; lia.
Qed.

Lemma sh_forget_loop_step as_ lo hi fuel i rows r : rows !! i = Some r -> row_hit as_ lo hi r = true ->
  sh_forget_loop as_ lo hi (S fuel) i rows = sh_forget_loop as_ lo hi fuel i (readd as_ lo hi r (swap_remove i rows)).
Proof.
  intros Hr Hh. simpl. rewrite Hr. unfold row_hit in Hh. cbn in Hh. apply negb_true_iff in Hh. by rewrite Hh.
Qed.
Lemma carve_none as_ lo hi (l : list file_range) :
  Forall (fun x => row_hit as_ lo hi x = false) l -> l ≫= carve as_ lo hi = l.
Proof.
  induction 1 as [|x l Hx _ IH]; [done|]. rewrite bind_cons, IH. unfold carve. by rewrite Hx.
Qed.
Lemma hits_none as_ lo hi l : Forall (fun x => row_hit as_ lo hi x = false) l -> hits as_ lo hi l = 0%nat.
Proof. induction 1 as [|x l Hx _ IH]; [done|]. unfold hits. rewrite filter_cons, decide_False by congruence. done. Qed.
Lemma heavy_none as_ lo hi l : Forall (fun x => row_hit as_ lo hi x = false) l -> heavy as_ lo hi l = length l.
Proof. intros H. unfold heavy. apply hits_none in H. unfold hits in H. lia. Qed.
Lemma heavy_app as_ lo hi l l' : heavy as_ lo hi (l ++ l') = (heavy as_ lo hi l + heavy as_ lo hi l')%nat.
Proof. unfold heavy. rewrite filter_app, !length_app. lia. Qed.
Lemma hits_app as_ lo hi l l' : hits as_ lo hi (l ++ l') = (hits as_ lo hi l + hits as_ lo hi l')%nat.
Proof. unfold hits. by rewrite filter_app, length_app. Qed.

Lemma sh_forget_loop_spec as_ lo hi fuel i rows :
  (i <= length rows <= SH_FILE_MAX)%nat -> (heavy as_ lo hi (drop i rows) < fuel)%nat ->
  exists rows', sh_forget_loop as_ lo hi fuel i rows = Ok rows' /\ (length rows' <= SH_FILE_MAX)%nat /\
    rows' ⊆ take i rows ++ (drop i rows ≫= carve as_ lo hi) /\
    ((length rows + hits as_ lo hi (drop i rows) <= SH_FILE_MAX)%nat ->
       rows' ≡ₚ take i rows ++ (drop i rows ≫= carve as_ lo hi)).
Proof.
  revert i rows. induction fuel as [|fuel IH]; intros i rows Hi Hw; [lia|].
  destruct (rows !! i) as [r|] eqn:Hlk; cycle 1.
  { simpl. rewrite Hlk. apply lookup_ge_None in Hlk. rewrite drop_ge, take_ge by lia. simpl. rewrite app_nil_r. eauto with lia. }
  pose proof (lookup_lt_Some _ _ _ Hlk) as Hlt. rewrite (drop_S _ r) in Hw |- * by done. rewrite heavy_cons in Hw.
  rewrite bind_cons. destruct (row_hit as_ lo hi r) eqn:Hh; cycle 1.
  - destruct (IH (S i) rows ltac:(lia) ltac:(lia)) as (rows' & Hr & Hl & Hsub & Hperm).
    exists rows'. simpl. rewrite Hlk. pose proof Hh as Hb. unfold row_hit in Hb. cbn in Hb. apply negb_false_iff in Hb. rewrite Hb.
    rewrite (take_S_r _ _ r), <- app_assoc in Hsub, Hperm by done. unfold carve at 1 3. rewrite Hh.
    split; [done|]. split; [done|]. split; [done|]. intros Hn. apply Hperm.
    unfold hits in Hn. rewrite filter_cons, decide_False in Hn by congruence. unfold hits. lia.
  - rewrite (sh_forget_loop_step _ _ _ _ _ _ r Hlk Hh).
    destruct (swap_remove_split i _ r Hlk) as [Ht Hd]. pose proof (swap_remove_length i rows Hlt) as Hlen.
    destruct (readd_spec as_ lo hi r (swap_remove i rows) Hh) as (pieces & -> & Hin & Hno & Hp2 & Hmax & Hall).
    assert (Hdp : drop i (swap_remove i rows ++ pieces) = drop i (swap_remove i rows) ++ pieces) by (apply drop_app_le; lia).
    assert (Htp : take i (swap_remove i rows ++ pieces) = take i rows) by (rewrite take_app_le by lia; done).
    destruct (IH i (swap_remove i rows ++ pieces)) as (rows' & Hr & Hl & Hsub & Hperm).
    + rewrite length_app. lia.
    + rewrite Hdp, heavy_app, (heavy_none _ _ _ pieces Hno), (heavy_perm _ _ _ _ _ Hd). lia.
    + assert (Hb : drop i (swap_remove i rows) ≫= carve as_ lo hi ≡ₚ drop (S i) rows ≫= carve as_ lo hi) by (by rewrite Hd).
      rewrite Hdp, Htp, bind_app, (carve_none _ _ _ pieces Hno) in Hsub, Hperm. rewrite Hb in Hsub.
      exists rows'. split; [done|]. split; [done|]. split; [set_solver|]. intros Hn.
      change (r :: drop (S i) rows) with ([r] ++ drop (S i) rows) in Hn. rewrite hits_app in Hn.
      assert (H1 : hits as_ lo hi [r] = 1%nat) by (unfold hits; rewrite filter_cons, decide_True by done; done).
      rewrite Hperm; [|rewrite hits_app, (hits_none _ _ _ pieces Hno), (hits_perm _ _ _ _ _ Hd), length_app; lia].
      rewrite Hall by lia. rewrite Hb. apply Permutation_app_head. apply Permutation_app_comm.
Qed.

(** ** Sequences of updates
    The reference: which addresses of a space are in a recorded range. *)
Inductive range_op := OpNote (as_ addr len : Z) | OpForget (as_ addr len : Z) | OpInherit (child parent : Z).
Definition cover := Z -> Z -> bool.
Definition inside (as_ lo hi as' a : Z) : bool := (as' =? as_) && (lo <=? a) && (a <? hi).
Definition relro_step (alloc : Z -> bool) (op : range_op) (t : relro_table) : result relro_table :=
  match op with
  | OpNote as_ addr len => relro_mm_note alloc as_ addr len t
  | OpForget as_ addr len => relro_mm_forget alloc as_ addr len t
  | OpInherit child parent => relro_inherit alloc child parent t
  end.
Definition relro_ref (op : range_op) (f : cover) : cover :=
  match op with
  | OpNote as_ addr len => if len =? 0 then f else fun as' a => f as' a || inside as_ (range_lo addr) (range_hi addr len) as' a
  | OpForget as_ addr len => if len =? 0 then f else fun as' a => f as' a && negb (inside as_ addr (u64 (addr + len)) as' a)
  | OpInherit child parent => fun as' a => f as' a || ((as' =? child) && f parent a)
  end.
Fixpoint relro_run (alloc : Z -> bool) (ops : list range_op) (t : relro_table) : result relro_table :=
  match ops with [] => Ok t | op :: ops => let! t := relro_step alloc op t in relro_run alloc ops t end.
Fixpoint ref_run (step : range_op -> cover -> cover) (ops : list range_op) (f : cover) : cover :=
  match ops with [] => f | op :: ops => ref_run step ops (step op f) end.
Definition relro_empty : relro_table := mk_relro [] 0.

Lemma relro_step_spec alloc op t : relro_ok t ->
  match relro_step alloc op t with
  | Ok t' => relro_ok t' /\ forall as_ a, relro_has as_ a t' = relro_ref op (fun as_ a => relro_has as_ a t) as_ a
  | Aborted => True | _ => False end.
Proof.
  intros Hok. destruct op as [as_ addr len|as_ addr len|child parent]; cbn [relro_step relro_ref].
  - unfold relro_mm_note. destruct (len =? 0); [by simpl|]. cbn [orb].
    destruct (range_hi addr len <=? range_lo addr) eqn:Hle.
    { split; [done|]. intros as' a. assert (Hi : inside as_ (range_lo addr) (range_hi addr len) as' a = false) by (unfold inside; lia).
      by rewrite Hi, orb_false_r. }
    destruct (existsb _ _) eqn:Hex.
    { split; [done|]. intros as' a. destruct (inside _ _ _ _ _) eqn:Hin; [|by rewrite orb_false_r].
      unfold relro_has. by rewrite (same_range_has _ _ _ _ _ _ Hex Hin). }
    change (let! t0 := relro_reserve alloc (relro_n t + 1) t in relro_push (mk_range (range_lo addr) (range_hi addr len) as_) t0)
      with (relro_append alloc (mk_range (range_lo addr) (range_hi addr len) as_) t).
    pose proof (relro_append_spec alloc (mk_range (range_lo addr) (range_hi addr len) as_) t Hok) as Ha.
    destruct (relro_append _ _ _) as [t'| | | |]; try done. destruct Ha as [Hr Hok']. split; [done|]. intros as' a.
    unfold relro_has. rewrite Hr, range_has_app. f_equal. cbn. unfold row_in, inside. cbn. lia.
  - unfold relro_mm_forget. destruct (len =? 0); [by simpl|]. cbn [orb].
    destruct (u64 (addr + len) <=? addr) eqn:Hle.
    { split; [done|]. intros as' a. assert (Hi : inside as_ addr (u64 (addr + len)) as' a = false) by (unfold inside; lia).
      by rewrite Hi, andb_true_r. }
    pose proof (weight_le as_ addr (u64 (addr + len)) (relro t)) as Hw.
    pose proof (relro_forget_loop_spec alloc as_ addr (u64 (addr + len)) (S (2 * length (relro t))) 0 t Hok) as Hs.
    rewrite drop_0 in Hs. specialize (Hs ltac:(lia) ltac:(lia)). destruct (relro_forget_loop _ _ _ _ _ _ _) as [t'| | | |]; try done.
    destruct Hs as [Hp Hok']. split; [done|]. intros as' a. unfold relro_has. rewrite Hp. simpl. by rewrite carved_has.
  - unfold relro_inherit. destruct (Z.eqb_spec child parent) as [->|Hne].
    { split; [done|]. intros as' a. destruct (Z.eqb_spec as' parent) as [->|]; cbn; [by destruct (relro_has _ _ _)|by rewrite orb_false_r]. }
    pose proof (relro_reserve_fails alloc (2 * relro_n t + 1) t) as Hf.
    destruct (relro_reserve alloc _ t) as [t1| | | |] eqn:H1; try done. simpl.
    destruct (relro_reserve_ok _ _ _ _ Hok H1) as (Hrows & Hc & Hok1).
    pose proof (of_parent_length parent (relro t1)) as Hpl. rewrite copy_loop_spec by (unfold relro_n in *; rewrite Hrows in *; lia). simpl.
    split; [unfold relro_ok, relro_n in *; simpl; rewrite length_app, length_fmap; rewrite Hrows in *; lia|].
    intros as' a. unfold relro_has. simpl. rewrite range_has_app, Hrows. f_equal.
    apply eq_iff_eq_true. rewrite andb_true_iff, !range_has_spec, Z.eqb_eq. split.
    + intros (x & (r & -> & Hr)%list_elem_of_fmap & Hin). apply list_elem_of_filter in Hr as [Hr1 Hr2]. unfold row_in in *. cbn in *.
      split; [lia|]. exists r. split; [done|]. lia.
    + intros (-> & r & Hr & Hin). eexists. split; [apply list_elem_of_fmap; exists r; split; [done|]; apply list_elem_of_filter; split; [|done]|];
        unfold row_in in *; cbn in *; lia.
Qed.

(** ** Shared file ranges against their reference *)
Inductive sh_op := ShNote (as_ addr len : Z) | ShForget (as_ addr len : Z).
Definition op_as (op : sh_op) : Z := match op with ShNote s _ _ | ShForget s _ _ => s end.
Definition op_lo (op : sh_op) : Z := match op with ShNote _ a _ | ShForget _ a _ => range_lo a end.
Definition op_hi (op : sh_op) : Z := match op with ShNote _ a l | ShForget _ a l => range_hi a l end.
Definition sh_step (op : sh_op) (rows : list file_range) : result (list file_range) :=
  match op with
  | ShNote as_ addr len => Ok (sh_file_note as_ addr len rows)
  | ShForget as_ addr len => sh_file_forget as_ addr len rows
  end.
Definition sh_ref (op : sh_op) (f : cover) : cover :=
  match op with
  | ShNote as_ addr len => if len =? 0 then f else fun as' a => f as' a || inside as_ (range_lo addr) (range_hi addr len) as' a
  | ShForget as_ addr len => if len =? 0 then f else fun as' a => f as' a && negb (inside as_ (range_lo addr) (range_hi addr len) as' a)
  end.
(** whether the table has room for what the update may add *)
Definition fits (op : sh_op) (rows : list file_range) : bool :=
  match op with
  | ShNote _ _ _ => bool_decide (length rows < SH_FILE_MAX)%nat
  | ShForget _ _ _ => bool_decide (length rows + hits (op_as op) (op_lo op) (op_hi op) rows <= SH_FILE_MAX)%nat
  end.
Fixpoint sh_run (ops : list sh_op) (rows : list file_range) : result (list file_range * bool) :=
  match ops with
  | [] => Ok (rows, true)
  | op :: ops =>
      let! rows' := sh_step op rows in
      let! rest := sh_run ops rows' in Ok (rest.1, fits op rows && rest.2)
  end.
Fixpoint sh_ref_run (ops : list sh_op) (f : cover) : cover :=
  match ops with [] => f | op :: ops => sh_ref_run ops (sh_ref op f) end.

(** every bound is a page address *)
Definition bound_ok (x : Z) : Prop := is_u64 x /\ page_aligned x = true.
Definition sh_ok (rows : list file_range) : Prop :=
  (length rows <= SH_FILE_MAX)%nat /\ Forall (fun r => bound_ok (fr_start r) /\ bound_ok (fr_end r)) rows.
Definition op_ok (op : sh_op) : Prop := match op with ShNote _ a _ | ShForget _ a _ => is_u64 a end.
Lemma op_bounds op : op_ok op -> bound_ok (op_lo op) /\ bound_ok (op_hi op).
Proof. destruct op; simpl; unfold range_lo, range_hi, bound_ok; eauto 10 using page_base_range, page_base_aligned, u64_range. Qed.

Lemma sh_step_spec op rows : sh_ok rows -> op_ok op ->
  exists rows', sh_step op rows = Ok rows' /\ sh_ok rows' /\
    (forall as_ a, sh_file_has as_ a rows' = true -> sh_ref op (fun as_ a => sh_file_has as_ a rows) as_ a = true) /\
    (fits op rows = true -> forall as_ a, sh_file_has as_ a rows' = sh_ref op (fun as_ a => sh_file_has as_ a rows) as_ a).
Proof.
  intros [Hlen Hrows] Hop. destruct (op_bounds op Hop) as [Hlo Hhi].
  destruct op as [as_ addr len|as_ addr len]; cbn [sh_step sh_ref fits op_as op_lo op_hi] in *.
  - exists (sh_file_note as_ addr len rows). unfold sh_file_note. split; [done|]. destruct (len =? 0); [done|].
    destruct (existsb _ _) eqn:Hex.
    { split; [done|]. assert (He : forall as' a, sh_file_has as' a rows = sh_file_has as' a rows || inside as_ (range_lo addr) (range_hi addr len) as' a).
      { intros as' a. destruct (inside _ _ _ _ _) eqn:Hin; [|by rewrite orb_false_r].
        unfold sh_file_has. by rewrite (same_range_has _ _ _ _ _ _ Hex Hin). }
      split; [|done]. intros as' a. by rewrite <- He. }
    destruct (sh_add_cases as_ (range_lo addr) (range_hi addr len) rows) as [[-> Hn]|[-> Hn]].
    + split; [split; [rewrite length_app; simpl; lia|]; apply Forall_app; split; [done|by apply Forall_singleton]|].
      assert (He : forall as' a, sh_file_has as' a (rows ++ [mk_range (range_lo addr) (range_hi addr len) as_]) =
        sh_file_has as' a rows || inside as_ (range_lo addr) (range_hi addr len) as' a).
      { intros as' a. unfold sh_file_has. rewrite range_has_app. f_equal. cbn. unfold row_in, inside. cbn. lia. }
      split; [intros as' a; by rewrite He|done].
    + split; [done|]. split; [intros as' a ->; done|]. rewrite bool_decide_eq_true. lia.
  - unfold sh_file_forget. destruct (len =? 0); [by exists rows|].
    destruct (sh_forget_loop_spec as_ (range_lo addr) (range_hi addr len) (S (3 * length rows)) 0 rows) as (rows' & -> & Hl & Hsub & Hperm).
    { lia. } { rewrite drop_0. pose proof (heavy_le as_ (range_lo addr) (range_hi addr len) rows). lia. }
    rewrite drop_0 in *. simpl take in *. simpl app in *. exists rows'. split; [done|].
    assert (Hsound : forall as' a, sh_file_has as' a rows' = true -> sh_file_has as' a (rows ≫= carve as_ (range_lo addr) (range_hi addr len)) = true).
    { intros as' a. unfold sh_file_has. rewrite !range_has_spec. intros (r & Hr & Hin). exists r. split; [by apply Hsub|done]. }
    unfold sh_file_has in Hsound. setoid_rewrite carved_has in Hsound. split.
    + split; [done|]. rewrite Forall_forall in Hrows |- *. intros x Hx. apply Hsub, list_elem_of_bind in Hx as (r & Hx & Hr).
      specialize (Hrows r Hr). unfold carve in Hx. destruct (row_hit _ _ _ r); [|by apply list_elem_of_singleton in Hx as ->].
      apply elem_of_app in Hx as [Hx|Hx]; case_match; try (by apply elem_of_nil in Hx); apply list_elem_of_singleton in Hx as ->; simpl; tauto.
    + split; [done|]. rewrite bool_decide_eq_true. intros Hf as' a. unfold sh_file_has. rewrite (Hperm Hf). apply carved_has.
Qed.

Lemma sh_ref_mono op f g : (forall s a, f s a = true -> g s a = true) -> forall s a, sh_ref op f s a = true -> sh_ref op g s a = true.
Proof.
  intros H s a. destruct op; simpl; destruct (len =? 0); auto; rewrite ?orb_true_iff, ?andb_true_iff; intros; naive_solver.
Qed.
Lemma sh_ref_ext op f g : (forall s a, f s a = g s a) -> forall s a, sh_ref op f s a = sh_ref op g s a.
Proof. intros H s a. destruct op; simpl; destruct (len =? 0); rewrite ?H; auto. Qed.
Lemma sh_ref_run_mono ops f g : (forall s a, f s a = true -> g s a = true) -> forall s a, sh_ref_run ops f s a = true -> sh_ref_run ops g s a = true.
Proof. revert f g. induction ops as [|op ops IH]; simpl; auto. intros f g H. apply IH. by apply sh_ref_mono. Qed.
Lemma sh_ref_run_ext ops f g : (forall s a, f s a = g s a) -> forall s a, sh_ref_run ops f s a = sh_ref_run ops g s a.
Proof. revert f g. induction ops as [|op ops IH]; simpl; auto. intros f g H. apply IH. by apply sh_ref_ext. Qed.

Lemma sh_run_spec ops rows : sh_ok rows -> Forall op_ok ops ->
  exists rows' fit, sh_run ops rows = Ok (rows', fit) /\ sh_ok rows' /\
    (forall s a, sh_file_has s a rows' = true -> sh_ref_run ops (fun s a => sh_file_has s a rows) s a = true) /\
    (fit = true -> forall s a, sh_file_has s a rows' = sh_ref_run ops (fun s a => sh_file_has s a rows) s a).
Proof.
  revert rows. induction ops as [|op ops IH]; intros rows Hok Hops; simpl; [by eauto 10|].
  apply Forall_cons in Hops as [Hop Hops]. destruct (sh_step_spec op rows Hok Hop) as (r1 & -> & Hok1 & Hs1 & Hf1). simpl.
  destruct (IH r1 Hok1 Hops) as (r2 & fit & -> & Hok2 & Hs2 & Hf2). simpl. exists r2, (fits op rows && fit). split_and!; auto.
  - intros s a H. eapply sh_ref_run_mono; [|by apply Hs2]. done.
  - intros [H1 H2]%andb_prop s a. rewrite Hf2 by done. by apply sh_ref_run_ext; intros; apply Hf1.
Qed.

(** ** Pages of an interval *)
Lemma aligned_mod x : bound_ok x <-> is_u64 x /\ x mod PAGE = 0.
Proof. unfold bound_ok. by rewrite page_aligned_spec. Qed.
Lemma pages_from_spec fuel s e p : bound_ok s -> bound_ok e -> (e - s) / PAGE < Z.of_nat fuel ->
  p ∈ pages_from fuel s e <-> s <= p < e /\ p mod PAGE = 0.
Proof.
  rewrite !aligned_mod. unfold is_u64, U64MAX, PAGE. intros [Hs Hs2] [He He2]. revert s Hs Hs2.
  induction fuel as [|fuel IH]; intros s Hs Hs2 Hf.
  { simpl. rewrite elem_of_nil. split; [done|]. Z.div_mod_to_equations. lia. }
  simpl. destruct (s <? e) eqn:Hlt; [apply Z.ltb_lt in Hlt|apply Z.ltb_ge in Hlt; rewrite elem_of_nil; split; [done|lia]].
  assert (Hn : u64 (s + PAGE) = s + 4096).
  { unfold u64, PAGE. apply Z.mod_small. Z.div_mod_to_equations. lia. }
  rewrite Hn, elem_of_cons, IH; Z.div_mod_to_equations; lia.
Qed.
Lemma pages_between_spec s e p : bound_ok s -> bound_ok e -> p ∈ pages_between s e <-> s <= p < e /\ p mod PAGE = 0.
Proof.
  intros Hs He. unfold pages_between. destruct (decide (s <= e)).
  - apply pages_from_spec; auto. pose proof (Z.div_pos (e - s) PAGE). unfold PAGE in *. lia.
  - assert ((e - s) / PAGE < 0) by (apply Z.div_lt_upper_bound; unfold PAGE; lia).
    destruct (Z.to_nat _) as [|k]; simpl; [|rewrite (proj2 (Z.ltb_ge _ _)) by lia]; rewrite elem_of_nil; lia.
Qed.

(** ** Rows of a table that does not change *)
Lemma reclaim_rows_spec rows as_ f fuel i p : (length rows < fuel + i)%nat ->
  p ∈ reclaim_rows (fun _ => rows) as_ f fuel i <-> exists j r, (i <= j)%nat /\ rows !! j = Some r /\ fr_as r = as_ /\ p ∈ f r.
Proof.
  revert i. induction fuel as [|fuel IH]; intros i Hl; simpl.
  { rewrite elem_of_nil. split; [done|]. intros (j & r & Hj & Hr & _). apply lookup_lt_Some in Hr. lia. }
  destruct (rows !! i) as [r|] eqn:Hr; cycle 1.
  { rewrite elem_of_nil. split; [done|]. intros (j & r & Hj & Hr2 & _). apply lookup_lt_Some in Hr2. apply lookup_ge_None in Hr. lia. }
  rewrite elem_of_app, IH by lia. split.
  - intros [H|(j & r' & Hj & ?)]; [|exists j, r'; split; [lia|done]].
    destruct (Z.eqb_spec (fr_as r) as_); simpl in H; [|by apply elem_of_nil in H]. by exists i, r.
  - intros (j & r' & Hj & Hr' & Ha & Hp). destruct (decide (j = i)) as [->|]; [left|right; exists j, r'; split; [lia|done]].
    simplify_eq. by rewrite Z.eqb_refl.
Qed.
Lemma reclaim_table rows as_ f p : (length rows <= SH_FILE_MAX)%nat ->
  p ∈ reclaim_rows (fun _ => rows) as_ f (S SH_FILE_MAX) 0 <-> exists r, r ∈ rows /\ fr_as r = as_ /\ p ∈ f r.
Proof.
  intros Hl. rewrite reclaim_rows_spec by lia. split.
  - intros (j & r & _ & Hr & ?). exists r. split; [by eapply list_elem_of_lookup_2|done].
  - intros (r & [j Hj]%list_elem_of_lookup & ?). exists j, r. split; [lia|done].
Qed.
Lemma reclaim_spec rows as_ addr len p : sh_ok rows -> is_u64 addr ->
  p ∈ sh_file_reclaim (fun _ => rows) as_ addr len <->
  len <> 0 /\ range_lo addr <= p < range_hi addr len /\ p mod PAGE = 0 /\ sh_file_has as_ p rows = true.
Proof.
  intros [Hl Hr] Ha. destruct (op_bounds (ShNote as_ addr len) Ha) as [Hlo Hhi]. simpl in Hlo, Hhi. unfold sh_file_reclaim.
  destruct (Z.eqb_spec len 0); [rewrite elem_of_nil; naive_solver|]. rewrite reclaim_table by done.
  unfold sh_file_has. rewrite range_has_spec. rewrite Forall_forall in Hr. unfold clipped_pages, row_in. cbn [row_as row_st row_en file_range_row]. split.
  - intros (r & Hin & Has & Hp). destruct (Hr r Hin) as [H1 H2].
    destruct (_ || _) eqn:Hout; [by apply elem_of_nil in Hp|].
    rewrite pages_between_spec in Hp; [|destruct (fr_start r <? range_lo addr); done|destruct (range_hi addr len <? fr_end r); done]. destruct Hp as [Hp Hm].
    assert (Hp' : range_lo addr <= p < range_hi addr len /\ fr_start r <= p < fr_end r) by (repeat case_match; lia).
    split; [done|]. split; [lia|]. split; [done|]. exists r. split; [done|]. lia.
  - intros (_ & Hp & Hm & r & Hin & Hrow). destruct (Hr r Hin) as [H1 H2]. exists r. split; [done|]. split; [lia|].
    destruct (_ || _) eqn:Hout; [lia|]. rewrite pages_between_spec; [|destruct (fr_start r <? range_lo addr); done|destruct (range_hi addr len <? fr_end r); done]. split; [|done]. repeat case_match; lia.
Qed.

(** ** The scan
    VMCTX_CTL_PGSCAN answers the first VMCTX_PGSCAN_MAX pages of the interval
    that are in one of the states asked for, in ascending order. *)
Definition scan_lists (held : list Z) (scan : nat -> Z -> Z -> option (list Z)) : Prop :=
  StronglySorted Z.lt held /\ Forall (fun p => 0 <= p /\ p + PAGE <= U64MAX /\ p mod PAGE = 0) held /\
  forall k s e, scan k s e = Some (take VMCTX_PGSCAN_MAX (filter (fun p => s <= p < e) held)).
Lemma sorted_filter (P : Z -> Prop) `{!forall x, Decision (P x)} (l : list Z) : StronglySorted Z.lt l -> StronglySorted Z.lt (filter P l).
Proof.
  induction 1 as [|x l _ IH Hx]; [constructor|]. rewrite filter_cons. case_decide; [|done]. constructor; [done|].
  rewrite Forall_forall in Hx |- *. intros y Hy. apply Hx. by apply list_elem_of_filter in Hy as [_ ?].
Qed.
Lemma filter_twice (P Q : Z -> Prop) `{!forall x, Decision (P x), !forall x, Decision (Q x)} (l : list Z) :
  (forall x, P x -> Q x) -> filter P (filter Q l) = filter P l.
Proof.
  intros HPQ. induction l as [|x l IH]; [done|]. rewrite (filter_cons Q), (filter_cons P).
  destruct (decide (Q x)); [rewrite filter_cons, IH; done|]. rewrite decide_False by auto. done.
Qed.
Lemma scan_split held s e l p rest : StronglySorted Z.lt held -> Forall (fun q => q mod PAGE = 0) held ->
  filter (fun p => s <= p < e) held = (l ++ [p]) ++ rest -> filter (fun q => p + PAGE <= q < e) held = rest.
Proof.
  intros Hs Ha Hf.
  assert (Hs' : StronglySorted Z.lt ((l ++ [p]) ++ rest)) by (rewrite <- Hf; by apply sorted_filter).
  assert (Hsub : filter (fun q => p + PAGE <= q < e) held = filter (fun q => p + PAGE <= q < e) (filter (fun q => s <= q < e) held)).
  { symmetry. apply filter_twice. intros q Hq. assert (Hp : p ∈ filter (fun q => s <= q < e) held) by (rewrite Hf; set_solver).
    apply list_elem_of_filter in Hp. unfold PAGE in *. lia. }
  rewrite Hsub, Hf, filter_app. rewrite <- (app_nil_l rest) at 2. 
  assert (Hal : forall q, q ∈ (l ++ [p]) ++ rest -> q mod PAGE = 0 /\ q < e).
  { intros q Hq. rewrite <- Hf in Hq. apply list_elem_of_filter in Hq as [Hq1 Hq2]. rewrite Forall_forall in Ha. split; [by apply Ha|lia]. }
  apply StronglySorted_app in Hs' as (Hx & Hl1 & Hl2). f_equal.
  - apply filter_none. intros q Hq Hge. assert (q <= p); [|unfold PAGE in *; lia].
    apply elem_of_app in Hq as [Hq|Hq]; [|by apply list_elem_of_singleton in Hq as ->; lia].
    apply StronglySorted_app in Hl1 as (Hlt & _). specialize (Hlt q p Hq ltac:(by left)). lia.
  - apply filter_all. intros q Hq. assert (p < q) by (apply Hx; [set_solver|done]).
    destruct (Hal p ltac:(set_solver)) as [Hp _], (Hal q ltac:(set_solver)) as [Hq2 Hqe]. unfold PAGE in *. Z.div_mod_to_equations. lia.
Qed.
Lemma sorted_count l s e : StronglySorted Z.lt l -> Forall (fun p => s <= p < e /\ p mod PAGE = 0) l ->
  l <> [] -> (Z.of_nat (length l) - 1) * PAGE < e - s.
Proof.
  revert s. induction l as [|x l IH]; [done|]. intros s Hs Hf _. apply Forall_cons in Hf as [[Hx Hxa] Hf].
  apply StronglySorted_inv in Hs as [Hs Hlt]. destruct l as [|y l]; [simpl; lia|].
  assert (Hc : (Z.of_nat (length (y :: l)) - 1) * PAGE < e - (x + PAGE)); [|simpl length in *; lia].
  apply IH; [done| |done].
  rewrite Forall_forall in Hf, Hlt |- *. intros q Hq. specialize (Hf q Hq). specialize (Hlt q Hq). unfold PAGE in *.
    split; [Z.div_mod_to_equations; lia|tauto].
Qed.
Lemma pg_scan_loop_spec held scan fuel k s e seen : scan_lists held scan ->
  (length (filter (fun p => (s <= p < e)%Z) held) < fuel)%nat ->
  pg_scan_loop scan fuel k s e seen =
  Ok (Z.of_nat (length (seen ++ filter (fun p => s <= p < e) held)), seen ++ filter (fun p => s <= p < e) held).
Proof.
  intros (Hs & Ha & Hscan). revert k s seen. induction fuel as [|fuel IH]; intros k s seen Hl; [lia|]. simpl.
  destruct (s <? e) eqn:Hse; cycle 1.
  { apply Z.ltb_ge in Hse. rewrite (filter_none _ held), app_nil_r; [done|]. intros x _. lia. }
  rewrite Hscan. set (L := filter (fun p => s <= p < e) held) in *. case_decide as Hfull.
  { rewrite take_ge; [done|]. rewrite length_take in Hfull. lia. }
  rewrite length_take in Hfull.
  assert (Hne : take VMCTX_PGSCAN_MAX L <> []).
  { intros E. apply (f_equal length) in E. rewrite length_take in E. change (length (@nil Z)) with 0%nat in E.
    change VMCTX_PGSCAN_MAX with 64%nat in *. lia. }
  destruct (exists_last Hne) as (l & x & Ht). rewrite Ht.
  rewrite last_snoc. assert (HL : L = (l ++ [x]) ++ drop VMCTX_PGSCAN_MAX L) by (rewrite <- Ht; by rewrite take_drop).
  assert (Hal : Forall (fun q => q mod PAGE = 0) held) by (eapply Forall_impl; [exact Ha|]; simpl; tauto).
  pose proof (scan_split held s e l x _ Hs Hal HL) as Hrest.
  assert (Hx : u64 (x + PAGE) = x + PAGE).
  { assert (Hin : x ∈ L) by (rewrite HL; set_solver). apply list_elem_of_filter in Hin as [_ Hin]. rewrite Forall_forall in Ha.
    destruct (Ha x Hin) as (? & ? & _). unfold u64, U64MAX, PAGE in *. apply Z.mod_small. lia. }
  rewrite Hx, IH; [|rewrite Hrest; apply (f_equal length) in HL; rewrite !length_app in HL; simpl in HL; lia].
  rewrite Hrest. rewrite HL at 3 4. by rewrite !app_assoc.
Qed.
Lemma pg_scan_spec held scan s e : scan_lists held scan ->
  exists n, pg_scan scan s e = Ok (n, filter (fun p => s <= p < e) held).
Proof.
  intros Hsc. eexists. unfold pg_scan. rewrite (pg_scan_loop_spec held scan); [done|done|].
  destruct Hsc as (Hs & Ha & _). pose proof (sorted_count (filter (fun p => s <= p < e) held) s e) as Hc.
  destruct (filter (fun p => s <= p < e) held) as [|x l] eqn:HL; [simpl; lia|]. rewrite <- HL in Hc |- *.
  assert (Hc' : (Z.of_nat (length (filter (fun p => s <= p < e) held)) - 1) * PAGE < e - s).
  { apply Hc; [by apply sorted_filter| |by rewrite HL]. apply Forall_forall. intros q Hq.
    apply list_elem_of_filter in Hq as [Hq Hin]. rewrite Forall_forall in Ha. split; [done|]. by apply Ha. }
  rewrite HL in *. assert (Z.of_nat (length (x :: l)) - 1 <= (e - s) / PAGE); [|lia]. apply Z.div_le_lower_bound; unfold PAGE in *; lia.
Qed.

(** ** Identities *)
Definition objects_ok (tab : list sh_shared_object) : Prop := NoDup ((fun o => (so_dev o, so_ino o)) <$> tab).
Lemma object_index_spec dev ino i tab :
  match object_index dev ino i tab with
  | Some j => exists k o, j = (i + k)%nat /\ tab !! k = Some o /\ so_dev o = dev /\ so_ino o = ino
  | None => (dev, ino) ∉ (fun o => (so_dev o, so_ino o)) <$> tab
  end.
Proof.
  revert i. induction tab as [|o tab IH]; intros i; simpl; [apply not_elem_of_nil|].
  destruct (Z.eqb_spec (so_dev o) dev), (Z.eqb_spec (so_ino o) ino); simpl.
  { exists 0%nat, o. split; [lia|done]. }
  all: specialize (IH (S i)); destruct (object_index dev ino (S i) tab) as [j|];
    [destruct IH as (k & o' & -> & ? & ? & ?); exists (S k), o'; split; [lia|done]|].
  all: rewrite not_elem_of_cons; split; [congruence|done].
Qed.
Lemma identity_spec fstat alloc fd foff len tab r tab' closed :
  objects_ok tab -> 0 <= len -> sh_shared_identity fstat alloc fd foff len tab = (r, tab', closed) ->
  objects_ok tab' /\ tab `prefix_of` tab' /\
  match r with
  | inl _ => tab' = tab /\ closed = true
  | inr n => exists dev ino o, fstat = inr (dev, ino) /\ 0 < n /\ tab' !! Z.to_nat (n - 1) = Some o /\ so_dev o = dev /\ so_ino o = ino /\
      (if closed then tab' = tab else tab' = tab ++ [mk_object dev ino fd]) /\
      0 < len /\ foff mod PAGE = 0 /\ foff + len <= INT64_MAX
  end.
Proof.
  intros Hok Hlen H. unfold sh_shared_identity in H. destruct fstat as [e|[dev ino]]; [by simplify_eq|].
  destruct ((len =? 0) || nz (foff .& 4095) || (INT64_MAX <? foff) || (INT64_MAX - foff <? len)) eqn:Hb; [by simplify_eq|].
  assert (Hargs : 0 < len /\ foff mod PAGE = 0 /\ foff + len <= INT64_MAX).
  { rewrite !orb_false_iff, Z.eqb_neq, negb_false_iff, Z.eqb_eq, !Z.ltb_ge in Hb. rewrite <- page_aligned_spec. unfold page_aligned. lia. }
  pose proof (object_index_spec dev ino 0 tab) as Hi. destruct (object_index dev ino 0 tab) as [i|].
  - destruct Hi as (k & o & -> & Hk & <- & <-). simplify_eq. split; [done|]. split; [done|]. exists (so_dev o), (so_ino o), o.
    replace (Z.to_nat (Z.of_nat (0 + k) + 1 - 1)) with k by lia. split_and!; try done; lia.
  - destruct (_ =? U64MAX / _); [by simplify_eq|]. destruct (alloc _); simpl in H; [|by simplify_eq]. simplify_eq. split.
    + unfold objects_ok. rewrite fmap_app, NoDup_app. split; [done|]. split; [|apply NoDup_singleton].
      intros x Hx ->%list_elem_of_singleton. done.
    + split; [by apply prefix_app_r|]. exists dev, ino, (mk_object dev ino fd).
      replace (Z.to_nat (Z.of_nat (length tab) + 1 - 1)) with (length tab) by lia.
      rewrite lookup_app_r, Nat.sub_diag by lia. split_and!; try done; lia.
Qed.

(** ** Sealed ranges against their reference *)
Lemma relro_ref_ext op f g : (forall s a, f s a = g s a) -> forall s a, relro_ref op f s a = relro_ref op g s a.
Proof. intros H s a. destruct op; simpl; try destruct (len =? 0); rewrite ?H; auto. Qed.
Lemma ref_run_ext ops f g : (forall s a, f s a = g s a) -> forall s a, ref_run relro_ref ops f s a = ref_run relro_ref ops g s a.
Proof. revert f g. induction ops as [|op ops IH]; simpl; auto. intros f g H. apply IH. by apply relro_ref_ext. Qed.
Lemma relro_run_spec alloc ops t : relro_ok t ->
  match relro_run alloc ops t with
  | Ok t' => forall s a, relro_has s a t' = ref_run relro_ref ops (fun s a => relro_has s a t) s a
  | Aborted => True | _ => False end.
Proof.
  revert t. induction ops as [|op ops IH]; intros t Hok; simpl; [done|].
  pose proof (relro_step_spec alloc op t Hok) as Hs. destruct (relro_step alloc op t) as [t1| | | |]; try done. simpl.
  destruct Hs as [Hok1 H1]. specialize (IH t1 Hok1). destruct (relro_run alloc ops t1) as [t2| | | |]; try done.
  intros s a. rewrite IH. by apply ref_run_ext.
Qed.

(** ** The properties *)
(** C34: whatever was noted, forgotten and inherited, an address is sealed exactly
    when the reference says so, whole pages at a note and the bytes named at a
    removal; and a range of a shared file covers an address only if the
    reference has it, always ends, and covers every such address while the table
    had room for each update. *)
Theorem range_tables_refine alloc ops sops :
  (match relro_run alloc ops relro_empty with
   | Ok t => forall s a, relro_has s a t = ref_run relro_ref ops (fun _ _ => false) s a
   | Aborted => True | _ => False end) /\
  (Forall op_ok sops -> exists rows fit, sh_run sops [] = Ok (rows, fit) /\ (length rows <= SH_FILE_MAX)%nat /\
     (forall s a, sh_file_has s a rows = true -> sh_ref_run sops (fun _ _ => false) s a = true) /\
     (fit = true -> forall s a, sh_file_has s a rows = sh_ref_run sops (fun _ _ => false) s a)).
Proof.
  split.
  - pose proof (relro_run_spec alloc ops relro_empty) as H. apply H. unfold relro_ok, relro_n. simpl. lia.
  - intros Hops. destruct (sh_run_spec sops []) as (rows & fit & Hr & [Hl _] & Hs & Hf); [|done|].
    { split; [unfold SH_FILE_MAX; simpl; lia|constructor]. }
    exists rows, fit. split_and!; auto.
Qed.
Lemma range_tables_refine_witness :
  exists rows, sh_run [ShNote 7 0x10000 0x8000; ShForget 7 0x12000 0x1000] [] = Ok (rows, true) /\
    sh_file_has 7 0x12000 rows = false /\ sh_file_has 7 0x13000 rows = true.
Proof.
  assert (Hops : Forall op_ok [ShNote 7 0x10000 0x8000; ShForget 7 0x12000 0x1000])
    by (repeat constructor; unfold is_u64, U64MAX; lia).
  destruct (proj2 (range_tables_refine (fun _ => true) [] _) Hops) as (rows & fit & Hr & _ & _ & Hf).
  assert (Hc : sh_run [ShNote 7 0x10000 0x8000; ShForget 7 0x12000 0x1000] [] =
    Ok ([mk_range 0x10000 0x12000 7; mk_range 0x13000 0x18000 7], true)) by (vm_compute; reflexivity).
  rewrite Hc in Hr. injection Hr as <- <-. exists [mk_range 0x10000 0x12000 7; mk_range 0x13000 0x18000 7].
  split; [exact Hc|]. split; rewrite (Hf eq_refl); vm_compute; reflexivity.
Defined.

(** before msync and munmap exactly the pages of the call's range that lie in
    a recorded range of the address space are taken back, and before any call
    exactly the recorded pages the page record lists as handed over or moving,
    however many batches the scan takes. *)
Theorem shared_files_taken_back rows held scan as_ p :
  sh_ok rows -> scan_lists held scan ->
  (forall addr len, is_u64 addr ->
     p ∈ sh_file_reclaim (fun _ => rows) as_ addr len <->
     len <> 0 /\ range_lo addr <= p < range_hi addr len /\ p mod PAGE = 0 /\ sh_file_has as_ p rows = true) /\
  (p ∈ sh_file_reclaim_held (fun _ => rows) scan as_ <-> p ∈ held /\ sh_file_has as_ p rows = true).
Proof.
  intros Hok Hsc. split; [intros; by apply reclaim_spec|]. unfold sh_file_reclaim_held. case_decide as He.
  { rewrite He. unfold sh_file_has. cbn. rewrite elem_of_nil. naive_solver. }
  rewrite reclaim_table by apply Hok. unfold sh_file_has. rewrite range_has_spec. unfold row_held_pages. split.
  - intros (r & Hr & Has & Hp). destruct (pg_scan_spec held scan (fr_start r) (fr_end r) Hsc) as [n Hn]. rewrite Hn in Hp.
    apply list_elem_of_filter in Hp as [Hp Hin]. split; [done|]. exists r. split; [done|]. unfold row_in. cbn. lia.
  - intros (Hin & r & Hr & Hrow). exists r. unfold row_in in Hrow. cbn in Hrow. split; [done|]. split; [lia|].
    destruct (pg_scan_spec held scan (fr_start r) (fr_end r) Hsc) as [n Hn]. rewrite Hn. apply list_elem_of_filter. split; [lia|done].
Qed.
Definition demo_held : list Z := [0x11000; 0x14000; 0x30000].
Definition demo_scan (k : nat) (s e : Z) : option (list Z) :=
  Some (take VMCTX_PGSCAN_MAX (filter (fun p => s <= p < e) demo_held)).
Lemma shared_files_taken_back_witness :
  0x14000 ∈ sh_file_reclaim_held (fun _ => [mk_range 0x10000 0x18000 7]) demo_scan 7.
Proof.
  assert (Hok : sh_ok [mk_range 0x10000 0x18000 7]).
  { split; [vm_compute; lia|]. repeat constructor; unfold is_u64, U64MAX; simpl; try lia; reflexivity. }
  assert (Hsc : scan_lists demo_held demo_scan).
  { split; [|split; [|done]].
    - unfold demo_held. repeat (constructor || lia).
    - unfold demo_held, U64MAX, PAGE. repeat constructor; reflexivity || lia. }
  apply (proj2 (shared_files_taken_back _ _ _ 7 0x14000 Hok Hsc)). split; [|vm_compute; reflexivity].
  unfold demo_held. apply elem_of_cons; right. apply elem_of_cons; left. reflexivity.
Defined.

(** an object keeps its identity for the life of the monitor and no two
    objects share one; a mapping that was reported names the object, the file
    offset of its first byte and an extent inside both the mapping and the file's
    range; the descriptor of the query is kept exactly when the object is new; and
    a writable mapping is recorded for reclaiming. *)
Theorem shared_mapping_identity query fstat alloc as_ nr arg1 arg3 ret s sm s' :
  objects_ok (sh_shared s) -> 0 <= arg1 ->
  note_shared_mapping query fstat alloc as_ nr arg1 arg3 ret s = Ok (sm, s') ->
  objects_ok (sh_shared s') /\ sh_shared s `prefix_of` sh_shared s' /\
  (sm_object sm = 0 -> sm = mk_shared_mapping 0 0 0 /\ s' = s) /\
  (sm_object sm <> 0 -> exists m dev ino o,
     query = Some m /\ fstat = inr (dev, ino) /\ sh_shared s' !! Z.to_nat (sm_object sm - 1) = Some o /\ so_dev o = dev /\ so_ino o = ino /\
     sm_offset sm - m_offset m = ret - m_start m /\ m_start m <= ret /\ 0 < sm_length sm /\
     ret + sm_length sm <= m_start m + m_len m /\ sm_offset sm + sm_length sm <= INT64_MAX /\ sm_offset sm mod PAGE = 0 /\
     (sh_shared s' = sh_shared s \/ sh_shared s' = sh_shared s ++ [mk_object dev ino (m_fd m)]) /\
     sh_file s' = (if nz (m_prot m .& PROT_WRITE) then sh_file_note as_ ret (sm_length sm) (sh_file s) else sh_file s)).
Proof.
  intros Hok Ha H. unfold note_shared_mapping in H. destruct ((ret <? 0) || _); [simplify_eq/=; naive_solver|].
  destruct query as [m|]; [|done]. destruct (negb _ || _ || _ || _) eqn:H1; [done|].
  rewrite !orb_false_iff, !Z.ltb_ge, Z.leb_gt in H1. destruct H1 as [[[_ Hst] Hin] Hfd].
  set (ln := if nr =? SYS_mmap then arg1 else m_len m - (ret - m_start m)) in *.
  assert (Hlen : 0 <= ln) by (subst ln; destruct (nr =? SYS_mmap); lia). clearbody ln.
  destruct ((m_len m - (ret - m_start m) <? ln) || _) eqn:H2; [done|]. rewrite orb_false_iff, !Z.ltb_ge in H2.
  destruct (sh_shared_identity fstat alloc (m_fd m) (m_offset m + (ret - m_start m)) ln (sh_shared s)) as [[r tab'] closed] eqn:Hid.
  destruct (identity_spec _ _ _ _ _ _ _ _ _ Hok Hlen Hid) as (Hok' & Hpre & Hr). destruct r as [e|n]; [done|].
  destruct Hr as (dev & ino & o & -> & Hn & Ho & Hd & Hi & Htab & Hl & Hal & Hmax). simplify_eq/=.
  split_and!; auto; [lia|]. intros _. exists m, (so_dev o), (so_ino o), o. split_and!; auto; try lia. destruct closed; auto.
Qed.
Lemma shared_mapping_identity_witness :
  exists s', note_shared_mapping (Some (mk_mapping 1 0x10000 0x8000 0x2000 5 3)) (inr (8, 99)) (fun _ => true)
    7 SYS_mmap 0x4000 1 0x11000 (mk_objects [] []) = Ok (mk_shared_mapping 1 0x3000 0x4000, s') /\
    sh_file_has 7 0x14000 (sh_file s') = true /\ objects_ok (sh_shared s').
Proof.
  assert (Hc : note_shared_mapping (Some (mk_mapping 1 0x10000 0x8000 0x2000 5 3)) (inr (8, 99)) (fun _ => true)
    7 SYS_mmap 0x4000 1 0x11000 (mk_objects [] []) =
    Ok (mk_shared_mapping 1 0x3000 0x4000, mk_objects [mk_object 8 99 5] [mk_range 0x11000 0x15000 7])) by (vm_compute; reflexivity).
  assert (H0 : objects_ok []) by constructor. assert (Ha : 0 <= 0x4000) by lia.
  destruct (shared_mapping_identity _ _ _ _ _ _ _ _ (mk_objects [] []) _ _ H0 Ha Hc) as (Hok & _).
  exists (mk_objects [mk_object 8 99 5] [mk_range 0x11000 0x15000 7]). split; [exact Hc|]. split; [vm_compute; reflexivity|exact Hok].
Defined.

(** The table of shared files has 64 rows.  When it is full, removing the middle
    of a range loses what lies above it: those pages are mapped, but they are not
    taken back any more. *)
Definition full_table : list file_range := (fun i => mk_range (0x100000 * (Z.of_nat i + 1)) (0x100000 * (Z.of_nat i + 1) + 0x8000) 7) <$> seq 0 64.
Lemma full_table_loses_tail :
  exists rows, sh_file_forget 7 0x102000 0x1000 full_table = Ok rows /\
    sh_file_has 7 0x101000 rows = true /\ sh_file_has 7 0x104000 full_table = true /\ sh_file_has 7 0x104000 rows = false.
Proof. eexists. split; [vm_compute; reflexivity|]. vm_compute. done. Qed.

End SourceTables.
