(* ===== verification/SourceFault.v ===== *)
(** * The fault service of the source (user/vmhome.c)

    A context of the source that touches a page it does not have stops, and its
    fault-service thread ([ctx_monitor]) answers: from the record of the page,
    from the other machine over the page channel ([pg_get_op]), or by saying that
    the local kernel may fill it.  While the program is inside a call the next
    pages are asked for in the same round trip ([prefetch_issue],
    [prefetch_read_replies], [prefetch_settle]).  [ctx_pull_page_mode] is the same
    fetch for a thread that is about to use the page itself.

    The kernel, the other machine, the clock and the tables of the other threads
    are a [world] that answers each call from the history of all calls; a theorem
    for every world covers every sequence of answers.  [Aborted] is
    ctx_pull_failed, which ends the process.  Traces, counters and the detectors
    of stale copies are left out. *)
From S2P Require Import Prelude Native Traces Proto SourceTables.
Open Scope Z_scope.

Module SourceFault.
Import Traces Proto SourceTables.

Abbreviation bytes := (list Z).
Definition EEXIST : Z := 17.
Definition PG_NONE : Z := 0.
Definition PG_OURS : Z := 1.
Definition PG_THEIRS : Z := 2.
Definition PG_CLAIM : Z := 3.
Definition PG_INTRANSIT : Z := 4.
Definition PG_GONE (st : Z) : bool := (st =? PG_THEIRS) || (st =? PG_CLAIM) || (st =? PG_INTRANSIT).
Definition VMR_PG_GET : Z := 1.
Definition VMR_PG_COWBREAK : Z := 10.
Definition VMR_PG_ABSENT : Z := 1.
Definition VMR_PG_INFLIGHT : Z := 2.
Definition VMR_INFLIGHT_PULL : Z := 1.
Definition VMCTX_PGC_VALID : Z := 1.
Definition VMCTX_PGC_FILE : Z := 2.
Definition VMCTX_PGC_SHARED : Z := 4.
Definition VMCTX_PGC_WRITE : Z := 8.
Definition VMCTX_ACT_SELF : Z := 0.
Definition VMCTX_ACT_DONE : Z := 1.
Definition VMCTX_ACT_KILL : Z := 2.
Definition VMCTX_RECALL_BEGIN : Z := 0.
Definition VMCTX_RECALL_COMMIT : Z := 1.
Definition VMCTX_RECALL_CANCEL : Z := 2.
Definition RA_MAX : Z := 4.
Definition zeros : bytes := replicate 4096 0.

(** ** Calls *)
Inductive event :=
| EvBinding (r : option vmr_mm_binding)                     (* source_binding_snapshot *)
| EvConnect (r : option Z) | EvClose (fd : Z)
| EvSend (fd : Z) (q : vmr_pgreq) (ok : bool)
| EvReply (fd : Z) (r : option vmr_pgrsp)
| EvPage (fd : Z) (r : option bytes)
| EvState (addr : Z) (r : option (Z * Z))                   (* VMCTX_CTL_PGSTATE: state, gen *)
| EvSet (addr st gen : Z) (ok : bool)                       (* VMCTX_CTL_PGSET *)
| EvPresent (addr r : Z)
| EvLand (addr : Z) (b : bytes) (gen : Z) (if_absent : bool) (r : Z)
| EvRecall (addr op ticket : Z) (b : bytes) (gen : Z) (r : Z + Z * Z)   (* an error, or the result and the ticket *)
| EvClock (t : Z) | EvSleep (us : Z)
| EvIncall (r : bool) | EvSealed (addr : Z) (r : bool) | EvParent (mm : Z) (r : bool)
| EvBreak (addr : Z)                                        (* cow_note_break *)
| EvResume (action : Z) (ended : bool)                      (* VMCTX_CTL_RESUME; [ended] is ESRCH *)
| EvKill.                                                   (* SIGKILL *)
Abbreviation history := (list event).

Record world := mk_world {
  w_binding : history -> option vmr_mm_binding;
  w_connect : history -> option Z;
  w_send : history -> Z -> vmr_pgreq -> bool;
  w_reply : history -> Z -> option vmr_pgrsp;
  w_page : history -> Z -> option bytes;
  w_state : history -> Z -> option (Z * Z);
  w_set : history -> Z -> Z -> Z -> bool;
  w_present : history -> Z -> Z;
  w_land : history -> Z -> bytes -> Z -> bool -> Z;
  w_recall : history -> Z -> Z -> Z -> bytes -> Z -> Z + Z * Z;
  w_clock : history -> Z;
  w_incall : history -> bool;               (* incall_get of this context *)
  w_relro : history -> relro_table;         (* the sealed ranges at this moment *)
  w_parent : history -> Z -> bool;          (* a live task of the parent address space *)
  w_ended : history -> bool }.

(** ** The thread *)
(** [pg] is its page channel; a window of readahead is [ra_n] while its replies
    are on the way and [ra_got] when they have been read. *)
Record mon := mk_mon {
  hist : history; pg : option Z; last_get_gen : Z;
  ra_fd : option Z; ra_target : vmr_mm_binding; ra_n : list (Z * Z); ra_got : list (Z * Z * vmr_pgrsp * bytes);
  ra_next : Z; ra_win : Z; get_rtt_us : Z; get_rtt_samples : Z; kill_asked : Z }.

Definition call {A} (f : history -> A) (ev : A -> event) : prog mon A := fun m =>
  let a := f (hist m) in
  (Ok a, mk_mon (ev a :: hist m) (pg m) (last_get_gen m) (ra_fd m) (ra_target m) (ra_n m) (ra_got m)
           (ra_next m) (ra_win m) (get_rtt_us m) (get_rtt_samples m) (kill_asked m)).
Definition emit (e : event) : prog mon unit := call (fun _ => ()) (fun _ => e).
Definition read {A} (f : mon -> A) : prog mon A := fun m => (Ok (f m), m).
Definition update (f : mon -> mon) : prog mon unit := fun m => (Ok (), f m).
Definition set_pg (fd : option Z) (m : mon) : mon :=
  mk_mon (hist m) fd (last_get_gen m) (ra_fd m) (ra_target m) (ra_n m) (ra_got m) (ra_next m) (ra_win m) (get_rtt_us m) (get_rtt_samples m) (kill_asked m).
Definition set_gen (g : Z) (m : mon) : mon :=
  mk_mon (hist m) (pg m) g (ra_fd m) (ra_target m) (ra_n m) (ra_got m) (ra_next m) (ra_win m) (get_rtt_us m) (get_rtt_samples m) (kill_asked m).
Definition set_ra (fd : option Z) (t : vmr_mm_binding) (n : list (Z * Z)) (got : list (Z * Z * vmr_pgrsp * bytes)) (m : mon) : mon :=
  mk_mon (hist m) (pg m) (last_get_gen m) fd t n got (ra_next m) (ra_win m) (get_rtt_us m) (get_rtt_samples m) (kill_asked m).
Definition set_run (next win : Z) (m : mon) : mon :=
  mk_mon (hist m) (pg m) (last_get_gen m) (ra_fd m) (ra_target m) (ra_n m) (ra_got m) next win (get_rtt_us m) (get_rtt_samples m) (kill_asked m).
Definition set_rtt (rtt samples : Z) (m : mon) : mon :=
  mk_mon (hist m) (pg m) (last_get_gen m) (ra_fd m) (ra_target m) (ra_n m) (ra_got m) (ra_next m) (ra_win m) rtt samples (kill_asked m).
Definition set_kills (n : Z) (m : mon) : mon :=
  mk_mon (hist m) (pg m) (last_get_gen m) (ra_fd m) (ra_target m) (ra_n m) (ra_got m) (ra_next m) (ra_win m) (get_rtt_us m) (get_rtt_samples m) n.

Section service.
(** [self] is getpid() *)
Context (w : world) (ra_min_rtt_us self : Z).

Definition ctx_pull_failed {A} : prog mon A := emit EvKill ;; stop Aborted.
Definition usleep (us : Z) : prog mon unit := emit (EvSleep us).
Definition now_us : prog mon Z := call (w_clock w) EvClock.
Definition ctx_present (addr : Z) : prog mon Z := call (fun h => w_present w h addr) (EvPresent addr).
Definition pg_state_gen (page : Z) : prog mon (option (Z * Z)) :=
  call (fun h => w_state w h (page_base page)) (EvState (page_base page)).
Definition pg_state (page : Z) : prog mon Z :=
  r ← pg_state_gen page; mret (match r with Some (st, _) => st | None => -1 end).
(** whether the record was written *)
Definition pg_set (page st : Z) : prog mon bool :=
  let page := page_base page in
  r ← pg_state_gen page;
  let gen := match r with Some (_, g) => g | None => 0 end in
  call (fun h => w_set w h page st gen) (EvSet page st gen).
Definition ctx_land (page : Z) (b : bytes) (gen : Z) (if_absent : bool) : prog mon Z :=
  let page := page_base page in
  call (fun h => w_land w h page b gen if_absent) (EvLand page b gen if_absent).
Definition recall (addr op ticket : Z) (b : bytes) (gen : Z) : prog mon (Z + Z * Z) :=
  call (fun h => w_recall w h addr op ticket b gen) (EvRecall addr op ticket b gen).
Definition pg_connect : prog mon unit :=
  fd ← call (w_connect w) EvConnect; update (set_pg fd).
Definition drop_channel : prog mon unit :=
  fd ← read pg;
  match fd with Some fd => emit (EvClose fd) ;; update (set_pg None) | None => mret () end.

(** ** Readahead *)
Definition prefetch_abort : prog mon unit :=
  n ← read ra_n; got ← read ra_got;
  match n, got with
  | [], [] => update (fun m => set_ra None (ra_target m) [] [] m)
  | _, _ => ctx_pull_failed
  end.
Definition prefetch_note_rtt (dt : Z) : prog mon unit :=
  update (fun m => set_rtt (if nz (get_rtt_us m) then (get_rtt_us m * 7 + dt) / 8 else dt) (u64 (get_rtt_samples m + 1)) m).
Definition prefetch_pays (m : mon) : bool := (16 <=? get_rtt_samples m) && (ra_min_rtt_us <=? get_rtt_us m).
Definition get_request (target : vmr_mm_binding) (op addr : Z) : vmr_pgreq := mk_pgreq VMR_PG_MAGIC op addr 0 target self.

(** admission of the window, page by page *)
Fixpoint window (base : Z) (todo : nat) (i : Z) (q : list (Z * Z)) : prog mon (list (Z * Z)) :=
  match todo with
  | O => mret q
  | S todo =>
      let a := u64 (base + (i + 1) * VMR_PG_SIZE) in
      st ← pg_state a;
      if st <? 0 then ctx_pull_failed
      else if st =? PG_OURS then mret q
      else if (st =? PG_CLAIM) || (st =? PG_INTRANSIT) then mret q
      else
        r ← recall a VMCTX_RECALL_BEGIN 0 [] 0;
        match r with
        | inr (admitted, ticket) => if admitted =? 1 then mret q else window base todo (i + 1) (q ++ [(a, ticket)])
        | inl e => if e =? EAGAIN then mret q else ctx_pull_failed
        end
  end.
Fixpoint send_window (fd : Z) (target : vmr_mm_binding) (q : list (Z * Z)) : prog mon unit :=
  match q with
  | [] => mret ()
  | (a, _) :: q =>
      let rq := get_request target VMR_PG_GET a in
      ok ← call (fun h => w_send w h fd rq) (EvSend fd rq);
      if negb (ok : bool) then ctx_pull_failed else send_window fd target q
  end.
Definition prefetch_issue (fd : Z) (base : Z) (target : vmr_mm_binding) : prog mon unit :=
  n ← read ra_n; got ← read ra_got;
  (match n, got with [], [] => mret () | _, _ => prefetch_abort end) ;;
  incall ← call (w_incall w) EvIncall;
  pays ← read prefetch_pays;
  if negb (incall : bool) || negb pays then mret ()
  else
    update (fun m =>
      set_run (u64 (base + VMR_PG_SIZE))
        (if base =? ra_next m then (if RA_MAX <? ra_win m * 2 then RA_MAX else if nz (ra_win m) then ra_win m * 2 else 1) else 0) m) ;;
    win ← read ra_win;
    if win =? 0 then mret ()
    else
      q ← window base (Z.to_nat win) 0 [];
      match last q with
      | None => mret ()
      | Some (a, _) =>
          update (set_run (u64 (a + VMR_PG_SIZE)) win) ;;
          send_window fd target q ;;
          update (set_ra (Some fd) target q [])
      end.
Fixpoint read_window (fd : Z) (target : vmr_mm_binding) (q : list (Z * Z)) : prog mon (list (Z * Z * vmr_pgrsp * bytes)) :=
  match q with
  | [] => mret []
  | (a, ticket) :: q =>
      r ← call (fun h => w_reply w h fd) (EvReply fd);
      match r with
      | Some rs =>
          if negb (vmr_page_reply_matches (get_request target VMR_PG_GET a) rs) then ctx_pull_failed
          else
            p ← call (fun h => w_page w h fd) (EvPage fd);
            match p with
            | Some b => rest ← read_window fd target q; mret ((a, ticket, rs, b) :: rest)
            | None => ctx_pull_failed
            end
      | None => ctx_pull_failed
      end
  end.
Definition prefetch_read_replies (fd : Z) : prog mon unit :=
  n ← read ra_n; rfd ← read ra_fd;
  match n with
  | [] => mret ()
  | _ => if negb (bool_decide (rfd = Some fd)) then mret ()
         else
           target ← read ra_target;
           got ← read_window fd target n;
           update (set_ra (Some fd) target [] got)
  end.
Fixpoint settle_window (got : list (Z * Z * vmr_pgrsp * bytes)) : prog mon unit :=
  match got with
  | [] => mret ()
  | (a, ticket, rs, b) :: got =>
      if pr_status rs =? 0 then
        r ← recall a VMCTX_RECALL_COMMIT ticket b (pr_gen rs);
        match r with
        | inr (result, _) => if result =? VMR_PG_SIZE then settle_window got else ctx_pull_failed
        | inl _ => ctx_pull_failed
        end
      else
        r ← recall a VMCTX_RECALL_CANCEL ticket [] 0;
        match r with
        | inr (result, _) => if result =? 0 then settle_window got else ctx_pull_failed
        | inl e => if e =? ESTALE then settle_window got else ctx_pull_failed
        end
  end.
Definition prefetch_settle : prog mon unit :=
  n ← read ra_n;
  (match n with [] => mret () | _ => prefetch_abort end) ;;
  got ← read ra_got;
  settle_window got ;;
  update (fun m => set_ra None (ra_target m) [] [] m).

(** ** One page over the channel *)
Inductive got := GotFailed | GotPage (b : bytes) | GotAbsent | GotLanded.
Definition failed (g : got) : bool := match g with GotFailed => true | _ => false end.

(** [landed] is whether a landing on this side may end the request; [t0] is the
    time of the first INFLIGHT. *)
Fixpoint get_loop (fuel : nat) (fd op addr : Z) (target : vmr_mm_binding) (landed : bool) (t0 : option Z) : prog mon got :=
  match fuel with
  | O => stop Hung
  | S fuel =>
      let rq := get_request target op addr in
      ok ← call (fun h => w_send w h fd rq) (EvSend fd rq);
      if negb (ok : bool) then mret GotFailed
      else
        prefetch_read_replies fd ;;
        r ← call (fun h => w_reply w h fd) (EvReply fd);
        match r with
        | None => mret GotFailed
        | Some rs =>
            if negb (vmr_page_reply_matches rq rs) then mret GotFailed
            else if negb (pr_status rs =? 0) && negb (pr_status rs =? VMR_PG_ABSENT) && negb (pr_status rs =? VMR_PG_INFLIGHT)
            then mret GotFailed
            else
              p ← call (fun h => w_page w h fd) (EvPage fd);
              match p with
              | None => mret GotFailed
              | Some incoming =>
                  if pr_status rs =? VMR_PG_INFLIGHT then
                    here ← (if landed && negb (pr_why rs =? VMR_INFLIGHT_PULL) then
                              r ← ctx_present addr;
                              if r =? 1 then
                                s ← pg_state_gen addr;
                                mret (match s with
                                      | Some (lst, lg) => (lst =? PG_OURS) && nz lg && (pr_gen rs <=? lg)
                                      | None => false
                                      end)
                              else mret false
                            else mret false);
                    if here : bool then mret GotLanded
                    else
                      t0 ← (match t0 with Some t => mret t | None => now_us end);
                      t ← now_us;
                      if t - t0 <? 1500000 then usleep 500 ;; get_loop fuel fd op addr target landed (Some t0)
                      else mret GotFailed
                  else
                    update (set_gen (pr_gen rs)) ;;
                    mret (if pr_status rs =? VMR_PG_ABSENT then GotAbsent else GotPage incoming)
              end
        end
  end.
(** The deadline is 1.5 s and a turn waits 500 us. *)
Definition get_fuel : nat := Z.to_nat 3002.
Definition pg_get_op (fd op addr : Z) (target : vmr_mm_binding) (landed : bool) : prog mon got :=
  if negb (vmr_binding_valid target) then mret GotFailed else get_loop get_fuel fd op addr target landed None.
Definition pg_get (fd addr : Z) (target : vmr_mm_binding) : prog mon got := pg_get_op fd VMR_PG_GET addr target false.

(** ** One fault *)
Record vmctx_event := mk_event { ev_fault : bool; ev_addr : Z; ev_err : Z; ev_class : Z; ev_state : Z; ev_record : Z }.
Definition has (x bit : Z) : bool := nz (x .& bit).
Definition rec_on (e : vmctx_event) : bool := has (ev_record e) VMCTX_PGC_VALID.
Definition first_prior (e : vmctx_event) : Z := if rec_on e then ev_state e else PG_NONE.
Definition private_file (e : vmctx_event) : bool :=
  has (ev_class e) VMCTX_PGC_VALID && has (ev_class e) VMCTX_PGC_FILE && negb (has (ev_class e) VMCTX_PGC_SHARED).
Definition ro_file (e : vmctx_event) : bool := private_file e && negb (has (ev_class e) VMCTX_PGC_WRITE).
Definition moving (st : Z) : bool := (st =? PG_CLAIM) || (st =? PG_INTRANSIT).

(** the wait for a transfer that stands: at most 4000 looks *)
Definition wait_spins : nat := Z.to_nat 4000.
Fixpoint wait_settled (spins : nat) (base st : Z) : prog mon Z :=
  match spins with
  | O => mret st
  | S spins => st ← pg_state base; if moving st then usleep 500 ;; wait_settled spins base st else mret st
  end.
(** [while (rt < 30 && got < 0)] *)
Fixpoint regain (todo : nat) (base : Z) (target : vmr_mm_binding) (landed : bool) : prog mon got :=
  match todo with
  | O => mret GotFailed
  | S todo =>
      usleep 500 ;;
      fd ← read pg;
      (match fd with None => pg_connect | Some _ => mret () end) ;;
      fd ← read pg;
      match fd with
      | None => regain todo base target landed
      | Some fd =>
          g ← pg_get_op fd VMR_PG_GET base target landed;
          if failed g then drop_channel ;; regain todo base target landed else mret g
      end
  end.
(** the request for the faulting page, with the window in front of it *)
Definition fetch (e : vmctx_event) (base : Z) (target : vmr_mm_binding) : prog mon got :=
  let landed := negb (has (ev_err e) 1) in
  fd ← read pg;
  (match fd with None => pg_connect | Some _ => mret () end) ;;
  fd ← read pg;
  g ← match fd with
      | None => mret GotFailed
      | Some fd =>
          t0 ← now_us;
          (if negb (ro_file e) then prefetch_issue fd base target else mret ()) ;;
          g ← pg_get_op fd VMR_PG_GET base target landed;
          n ← read ra_got;
          (match g, n with
           | GotPage _, [] => t ← now_us; prefetch_note_rtt (t - t0)
           | _, _ => mret ()
           end) ;;
          (if failed g then prefetch_abort ;; drop_channel else mret ()) ;;
          mret g
      end;
  if failed g then regain 30 base target landed else mret g.

(** the break of copy-on-write on the other machine: taken and landed *)
Definition cowbreak (base : Z) (target : vmr_mm_binding) : prog mon bool :=
  alive ← call (fun h => w_parent w h (mb_mm target)) (EvParent (mb_mm target));
  fd ← read pg;
  match alive : bool, fd with
  | true, Some fd =>
      g ← pg_get_op fd VMR_PG_COWBREAK base target false;
      match g with
      | GotPage b =>
          gen ← read last_get_gen;
          r ← ctx_land base b gen false;
          if r =? VMR_PG_SIZE then emit (EvBreak base) ;; mret true else mret false
      | _ => mret false
      end
  | _, _ => mret false
  end.
(** ABSENT for a page this side handed over: ask again, then give up *)
Fixpoint ask_again (todo : nat) (base : Z) (target : vmr_mm_binding) : prog mon got :=
  match todo with
  | O => mret GotAbsent
  | S todo =>
      usleep 500 ;;
      fd ← read pg;
      (match fd with None => pg_connect | Some _ => mret () end) ;;
      fd ← read pg;
      match fd with
      | None => mret GotAbsent
      | Some fd =>
          g ← pg_get fd base target;
          if failed g then drop_channel ;; mret g
          else
            r ← ctx_present base;
            if r =? 1 then mret g
            else match g with GotAbsent => ask_again todo base target | _ => mret g end
      end
  end.
Definition absent (base : Z) (target : vmr_mm_binding) (prior : Z) : prog mon Z :=
  r ← ctx_present base;
  if r =? 1 then mret VMCTX_ACT_DONE
  else if PG_GONE prior then
    g ← ask_again 40 base target;
    landed ← (match g with
              | GotPage b => gen ← read last_get_gen; r ← ctx_land base b gen false; mret (r =? VMR_PG_SIZE)
              | _ => mret false
              end);
    if landed : bool then mret VMCTX_ACT_DONE
    else r ← ctx_present base; mret (if r =? 1 then VMCTX_ACT_DONE else VMCTX_ACT_KILL)
  else
    broke ← cowbreak base target;
    if broke : bool then mret VMCTX_ACT_DONE
    else
      r ← ctx_land base zeros 0 true;
      if r =? VMR_PG_SIZE then mret VMCTX_ACT_DONE
      else r ← ctx_present base; mret (if r =? 1 then VMCTX_ACT_DONE else VMCTX_ACT_SELF).
(** the answer to a fetch *)
Definition answer (e : vmctx_event) (base : Z) (target : vmr_mm_binding) (prior : Z) (g : got) : prog mon Z :=
  match g with
  | GotLanded => mret VMCTX_ACT_DONE
  | GotPage b =>
      gen ← read last_get_gen;
      r ← ctx_land base b gen (negb (has (ev_err e) 1));
      mret (if r =? VMR_PG_SIZE then VMCTX_ACT_DONE else if r =? - EEXIST then VMCTX_ACT_DONE else VMCTX_ACT_KILL)
  | GotAbsent =>
      if private_file e && negb (PG_GONE prior) then
        broke ← cowbreak base target;
        mret (if broke : bool then VMCTX_ACT_DONE else VMCTX_ACT_SELF)
      else absent base target prior
  | GotFailed => mret (if PG_GONE prior then VMCTX_ACT_KILL else VMCTX_ACT_SELF)
  end.

(** What the fault ended with.  [oc_prior] is what the record said last, [oc_lost]
    that the channel failed for a page the record says exists. *)
Record outcome := mk_outcome { oc_action : Z; oc_prior : Z; oc_claimed : bool; oc_lost : bool }.
Definition serve_fault (e : vmctx_event) (base : Z) (target : vmr_mm_binding) : prog mon outcome :=
  let prior := first_prior e in
  sealed ← (if ro_file e && negb (PG_GONE prior)
            then call (fun h => relro_has (mb_mm target) base (w_relro w h)) (EvSealed base) else mret true);
  if negb (sealed : bool) then mret (mk_outcome VMCTX_ACT_SELF prior false false)
  else if rec_on e && (prior =? PG_OURS) then mret (mk_outcome VMCTX_ACT_SELF prior false false)
  else
    go ← (if rec_on e && moving prior then
            stt ← wait_settled wait_spins base prior;
            here ← (if stt =? PG_OURS then r ← ctx_present base; mret (r =? 1) else mret false);
            if here : bool then mret (inl (mk_outcome VMCTX_ACT_DONE prior false false))
            else if stt =? PG_OURS then mret (inl (mk_outcome VMCTX_ACT_SELF stt false false))
            else
              let prior := if moving stt then PG_NONE else stt in
              ok ← pg_set base PG_CLAIM;
              mret (if ok : bool then inr (prior, true) else inl (mk_outcome VMCTX_ACT_DONE prior false false))
          else mret (inr (prior, false)));
    match go with
    | inl o => mret o
    | inr (prior, claimed) =>
        g ← fetch e base target;
        act ← answer e base target prior g;
        mret (mk_outcome act prior claimed (failed g && PG_GONE prior))
    end.

(** ** The service *)
Definition settle_claim (o : outcome) (base st : Z) : prog mon unit :=
  if oc_claimed o then
    now ← pg_state base;
    if now =? PG_CLAIM then r ← pg_set base st; let _ : bool := r in mret () else mret ()
  else mret ().
Definition resume (action : Z) : prog mon bool := call (w_ended w) (EvResume action).
(** one event; the result says whether the loop goes on *)
Definition monitor_turn (e : vmctx_event) : prog mon bool :=
  let finish (action : Z) : prog mon bool := prefetch_settle ;; ended ← resume action; mret (negb ended) in
  if negb (ev_fault e) then finish VMCTX_ACT_SELF
  else
    b ← call (w_binding w) EvBinding;
    match b with
    | None => ctx_pull_failed
    | Some target =>
        let base := page_base (ev_addr e) in
        o ← serve_fault e base target;
        (if oc_lost o then update (fun m => set_kills (kill_asked m + 1) m) else mret ()) ;;
        kills ← read kill_asked;
        if oc_lost o && (3 <=? kills) then
          settle_claim o base (oc_prior o) ;; r ← resume (oc_action o); let _ : bool := r in emit EvKill ;; mret false
        else
          settle_claim o base (if oc_action o =? VMCTX_ACT_KILL then oc_prior o else PG_OURS) ;;
          finish (oc_action o)
    end.
(** [events] are what VMCTX_CTL_WAIT delivers until it fails *)
Fixpoint ctx_monitor (events : list vmctx_event) : prog mon unit :=
  match events with
  | [] => drop_channel
  | e :: events => go ← monitor_turn e; if go : bool then ctx_monitor events else drop_channel
  end.

(** ** Fetching a page for a call
    [route] is whether the context's route is known. *)
Fixpoint begin_pull (fuel : nat) (base : Z) (allow_gone : bool) (began : Z) : prog mon (option Z + Z) :=
  match fuel with
  | O => stop Hung
  | S fuel =>
      r ← recall base VMCTX_RECALL_BEGIN 0 [] 0;
      match r with
      | inr (result, ticket) =>
          if result =? 1 then mret (inl None) else if result =? 0 then mret (inr ticket) else ctx_pull_failed
      | inl e =>
          if allow_gone && (e =? ESRCH) then mret (inl (Some (- ESRCH)))
          else if negb (e =? EAGAIN) then ctx_pull_failed
          else t ← now_us;
               if 6000000 <? t - began then ctx_pull_failed else usleep 100 ;; begin_pull fuel base allow_gone began
      end
  end.
Definition admit_fuel : nat := Z.to_nat 60002.
Definition ctx_pull_page_mode (route : bool) (target : vmr_mm_binding) (base : Z) (allow_gone : bool) : prog mon Z :=
  began ← now_us;
  if negb route then mret 0
  else
    a ← begin_pull admit_fuel base allow_gone began;
    match a with
    | inl None => mret 0
    | inl (Some e) => mret e
    | inr ticket =>
        let cancel : prog mon Z := r ← recall base VMCTX_RECALL_CANCEL ticket [] 0; let _ : Z + Z * Z := r in ctx_pull_failed in
        fd ← read pg;
        (match fd with None => pg_connect | Some _ => mret () end) ;;
        fd ← read pg;
        match fd with
        | None => cancel
        | Some fd =>
            g ← pg_get_op fd VMR_PG_GET base target true;
            match g with
            | GotPage b =>
                gen ← read last_get_gen;
                r ← recall base VMCTX_RECALL_COMMIT ticket b gen;
                match r with
                | inr (result, _) => if result =? VMR_PG_SIZE then mret 1 else ctx_pull_failed
                | inl _ => ctx_pull_failed
                end
            | _ => cancel
            end
        end
    end.
End service.

(** ** Programs and their traces *)
Abbreviation safe := (Traces.safe hist).
Section traces.
Context (P : history -> event -> Prop).
Lemma safe_call {A} (f : history -> A) ev Q s :
  P (hist s) (ev (f (hist s))) -> Q (f (hist s)) (call f ev s).2 -> safe P (call f ev) Q s.
Proof. intros H HQ. split; [by apply grown_one|done]. Qed.
Lemma safe_read {A} (f : mon -> A) Q s : Q (f s) s -> safe P (read f) Q s.
Proof. intros H. split; [apply grown_refl|done]. Qed.
Lemma safe_update f Q s : hist (f s) = hist s -> Q () (f s) -> safe P (update f) Q s.
Proof. intros H HQ. split; [simpl; rewrite H; apply grown_refl|done]. Qed.
End traces.

(** ** What a landing may hold
    The bytes of the last reply to a request for this page of this address
    space, with its generation. *)
Definition received (h : history) (target : vmr_mm_binding) (addr : Z) (b : bytes) (gen : Z) : Prop :=
  exists h1 h2 fd rs, h = h1 ++ EvPage fd (Some b) :: EvReply fd (Some rs) :: h2 /\
    pr_status rs = 0 /\ pr_target rs = target /\ pr_addr rs = addr /\ pr_gen rs = gen /\
    (pr_op rs = VMR_PG_GET \/ pr_op rs = VMR_PG_COWBREAK).
Lemma received_grown P h h' t a b g : grown P h h' -> received h t a b g -> received h' t a b g.
Proof.
  intros (new & -> & _) (h1 & h2 & fd & rs & -> & ?). exists (new ++ h1), h2, fd, rs. split; [by rewrite <- app_assoc|done].
Qed.
(** [base] is the faulting page; [fresh] says that the record does
    not give it away.  No context is resumed. *)
Definition allowed (target : vmr_mm_binding) (base : Z) (fresh : history -> Prop) (h : history) (e : event) : Prop :=
  match e with
  | EvLand addr b gen if_absent _ =>
      addr = base /\ (received h target base b gen \/ (b = zeros /\ gen = 0 /\ if_absent = true /\ fresh h))
  | EvRecall addr op _ b gen _ => op = VMCTX_RECALL_COMMIT -> received h target addr b gen
  | EvResume _ _ => False
  | _ => True
  end.

(** ** The thread's readahead and its tickets
    An admission stays open until the kernel took the page it commits, or says of
    its cancellation that it is done or that the ticket was stale: a refused
    commit, or another error, settles nothing. *)
Definition closes (op : Z) (r : Z + Z * Z) : bool :=
  match r with
  | inr (result, _) => result =? (if op =? VMCTX_RECALL_COMMIT then VMR_PG_SIZE else 0)
  | inl e => negb (op =? VMCTX_RECALL_COMMIT) && (e =? ESTALE)
  end.
Fixpoint open_tickets (h : history) : gmultiset Z :=
  match h with
  | [] => ∅
  | EvRecall _ op ticket _ _ r :: h =>
      if op =? VMCTX_RECALL_BEGIN
      then match r with inr (result, t) => if result =? 1 then open_tickets h else {[+ t +]} ⊎ open_tickets h | inl _ => open_tickets h end
      else if closes op r then open_tickets h ∖ {[+ ticket +]} else open_tickets h
  | _ :: h => open_tickets h
  end.
Definition tickets (q : list (Z * Z)) : gmultiset Z := list_to_set_disj (snd <$> q).
Definition got_tickets (l : list (Z * Z * vmr_pgrsp * bytes)) : gmultiset Z := list_to_set_disj ((fun x => x.1.1.2) <$> l).
Lemma tickets_cons x q : tickets (x :: q) = {[+ x.2 +]} ⊎ tickets q.
Proof. done. Qed.
Lemma got_tickets_cons x l : got_tickets (x :: l) = {[+ x.1.1.2 +]} ⊎ got_tickets l.
Proof. done. Qed.
Definition reply_ok (h : history) (target : vmr_mm_binding) (x : Z * Z * vmr_pgrsp * bytes) : Prop :=
  pr_status x.1.2 = 0 -> received h target x.1.1.1 x.2 (pr_gen x.1.2).
(** the window belongs to this fault, and holds every open ticket beyond [T] *)
Record window_ok (T : gmultiset Z) (target : vmr_mm_binding) (m : mon) : Prop := {
  wo_target : ra_n m <> [] \/ ra_got m <> [] -> ra_target m = target;
  wo_one : ra_n m = [] \/ ra_got m = [];
  wo_replies : Forall (reply_ok (hist m) target) (ra_got m);
  wo_tickets : open_tickets (hist m) = tickets (ra_n m) ⊎ got_tickets (ra_got m) ⊎ T }.
Definition idle (m : mon) : Prop := ra_n m = [] /\ ra_got m = [].
(** the fields of the thread a call leaves alone *)
Definition same_thread (m m' : mon) : Prop :=
  pg m' = pg m /\ last_get_gen m' = last_get_gen m /\ ra_n m' = ra_n m /\ ra_got m' = ra_got m /\ ra_target m' = ra_target m /\ ra_fd m' = ra_fd m.
(** events that land no page, touch no ticket and let no context run *)
Definition plain (e : event) : bool := match e with EvLand _ _ _ _ _ | EvRecall _ _ _ _ _ _ | EvResume _ _ => false | _ => true end.
Lemma plain_tickets e h : plain e = true -> open_tickets (e :: h) = open_tickets h.
Proof. by destruct e. Qed.
Lemma replies_grown P h h' t l : grown P h h' -> Forall (reply_ok h t) l -> Forall (reply_ok h' t) l.
Proof. intros Hg Hf. eapply Forall_impl; [exact Hf|]. intros x H Hs. eapply received_grown; [exact Hg|]. by apply H. Qed.
Lemma window_ok_event (P : history -> event -> Prop) T t m m' e : P (hist m) e -> hist m' = e :: hist m -> same_thread m m' -> open_tickets (hist m') = open_tickets (hist m) ->
  window_ok T t m -> window_ok T t m'.
Proof.
  intros HP Hh (_ & _ & Hn & Hg & Ht & _) Ho [H1 Hone H2 H3]. split; rewrite ?Hn, ?Hg, ?Ht, ?Ho; auto.
  eapply (replies_grown P); [|done]. rewrite Hh. by apply grown_one.
Qed.
Lemma window_ok_idle T t t' m : idle m -> window_ok T t m -> window_ok T t' m.
Proof. intros [Hn Hg] [H1 Hone H2 H3]. split; rewrite ?Hn, ?Hg in *; [naive_solver|done|constructor|done]. Qed.

(** what shows that the page is on this side, or that another holds the claim *)
Definition shows (base : Z) (e : event) : Prop :=
  match e with
  | EvLand a _ _ _ r => a = base /\ (r = VMR_PG_SIZE \/ r = - EEXIST)
  | EvPresent a r => a = base /\ r = 1
  | EvSet a _ _ ok => a = base /\ ok = false
  | _ => False
  end.
Abbreviation evidence base := (happened (shows base)).
Lemma evidence_grown P base h1 h2 h3 : grown P h2 h3 -> evidence base h1 h2 -> evidence base h1 h3.
Proof. apply happened_grown. Qed.
Lemma evidence_since P base h1 h2 h3 : grown P h1 h2 -> evidence base h2 h3 -> evidence base h1 h3.
Proof. apply happened_since. Qed.
Lemma evidence_one base e h : shows base e -> evidence base h (e :: h).
Proof. apply happened_one. Qed.

(** the other machine said that it does not have the page *)
Definition denies (target : vmr_mm_binding) (base : Z) (e : event) : Prop :=
  match e with
  | EvReply _ (Some rs) => pr_status rs = VMR_PG_ABSENT /\ pr_target rs = target /\ pr_addr rs = base
  | _ => False
  end.

Section safety.
Context (w : world) (ra_min_rtt_us self : Z) (T : gmultiset Z) (target : vmr_mm_binding) (base : Z) (fresh : history -> Prop).
Context (Hbase : page_base base = base).
Abbreviation P := (allowed target base fresh).
Abbreviation ok := (window_ok T target).

(** A call that is neither a landing nor a recall. *)
Lemma safe_plain {A} (f : history -> A) ev (Q : A -> mon -> Prop) s :
  (forall a, plain (ev a) = true) -> ok s ->
  (forall a s', a = f (hist s) -> hist s' = ev a :: hist s -> same_thread s s' -> ok s' -> Q a s') ->
  safe P (call f ev) Q s.
Proof.
  intros Hp Hok HQ. assert (Ha : forall e h, plain e = true -> P h e) by (by intros []).
  apply safe_call; [by apply Ha|]. apply HQ; try done.
  eapply (window_ok_event P); [|done|done| |done]; [by apply Ha|]. by apply plain_tickets.
Qed.
Lemma safe_emit e (Q : unit -> mon -> Prop) s : plain e = true -> ok s ->
  (forall s', hist s' = e :: hist s -> same_thread s s' -> ok s' -> Q () s') -> safe P (emit e) Q s.
Proof. intros He Hok HQ. apply safe_plain; auto. intros [] s' _. auto. Qed.
Lemma safe_failed {A} (Q : A -> mon -> Prop) s : ok s -> safe P ctx_pull_failed Q s.
Proof. intros Hok. apply safe_bind. apply safe_emit; [done|done|]. intros s' _ _ _. by apply safe_stop. Qed.
Lemma safe_state page (Q : option (Z * Z) -> mon -> Prop) s : ok s ->
  (forall r s', same_thread s s' -> ok s' -> Q r s') -> safe P (pg_state_gen w page) Q s.
Proof. intros Hok HQ. apply safe_plain; [done|done|]. intros r s' _ _ ? ?. auto. Qed.
Lemma safe_pg_state page (Q : Z -> mon -> Prop) s : ok s ->
  (forall r s', same_thread s s' -> ok s' -> Q r s') -> safe P (pg_state w page) Q s.
Proof. intros Hok HQ. apply safe_bind. apply safe_state; [done|]. intros r s' ? ?. apply safe_ret. auto. Qed.
Lemma safe_present a (Q : Z -> mon -> Prop) s : ok s ->
  (forall r s', (r = 1 -> evidence a (hist s) (hist s')) -> same_thread s s' -> ok s' -> Q r s') -> safe P (ctx_present w a) Q s.
Proof.
  intros Hok HQ. apply safe_plain; [done|done|]. intros r s' _ Hh ? ?. apply HQ; auto.
  intros ->. rewrite Hh. by apply evidence_one.
Qed.
Lemma safe_sleep us (Q : unit -> mon -> Prop) s : ok s -> (forall s', same_thread s s' -> ok s' -> Q () s') -> safe P (usleep us) Q s.
Proof. intros Hok HQ. apply safe_emit; auto. Qed.
Lemma safe_clock (Q : Z -> mon -> Prop) s : ok s -> (forall t s', same_thread s s' -> ok s' -> Q t s') -> safe P (now_us w) Q s.
Proof. intros Hok HQ. apply safe_plain; [done|done|]. auto. Qed.

(** a landing of the faulting page *)
Lemma safe_land b gen if_absent (Q : Z -> mon -> Prop) s : ok s ->
  (received (hist s) target base b gen \/ (b = zeros /\ gen = 0 /\ if_absent = true /\ fresh (hist s))) ->
  (forall r s', (r = VMR_PG_SIZE \/ r = - EEXIST -> evidence base (hist s) (hist s')) -> same_thread s s' -> ok s' -> Q r s') ->
  safe P (ctx_land w base b gen if_absent) Q s.
Proof.
  intros Hok Hb HQ. unfold ctx_land. rewrite Hbase. set (r := w_land w (hist s) base b gen if_absent).
  assert (Ha : P (hist s) (EvLand base b gen if_absent r)) by done.
  apply safe_call; [done|]. apply HQ; [|done|].
  - intros Hr. simpl. by apply evidence_one.
  - by eapply (window_ok_event P).
Qed.
Lemma safe_connect (Q : unit -> mon -> Prop) s : ok s ->
  (forall s', ra_n s' = ra_n s /\ ra_got s' = ra_got s -> ok s' -> Q () s') -> safe P (pg_connect w) Q s.
Proof.
  intros Hok HQ. apply safe_bind. apply safe_plain; [done|done|]. intros fd s' _ _ (_ & _ & H1 & H2 & _) [? ? ? ?].
  apply safe_update; [done|]. by apply HQ.
Qed.
Lemma safe_drop (Q : unit -> mon -> Prop) s : ok s ->
  (forall s', ra_n s' = ra_n s /\ ra_got s' = ra_got s -> ok s' -> Q () s') -> safe P drop_channel Q s.
Proof.
  intros Hok HQ. apply safe_bind, safe_read. destruct (pg s) as [fd|]; [|apply safe_ret; auto].
  apply safe_bind. apply safe_emit; [done|done|]. intros s' _ (_ & _ & H1 & H2 & _) [? ? ? ?]. apply safe_update; [done|]. by apply HQ.
Qed.
End safety.

Section recalls.
Context (w : world) (ra_min_rtt_us self : Z) (target : vmr_mm_binding) (base : Z) (fresh : history -> Prop).
Context (Hbase : page_base base = base).
Abbreviation P := (allowed target base fresh).
Abbreviation ok T := (window_ok T target).


Lemma safe_recall T (T' : Z + Z * Z -> gmultiset Z) a op tk b gen (Q : Z + Z * Z -> mon -> Prop) s : ok T s ->
  (op = VMCTX_RECALL_COMMIT -> received (hist s) target a b gen) ->
  (forall r, open_tickets (EvRecall a op tk b gen r :: hist s) = tickets (ra_n s) ⊎ got_tickets (ra_got s) ⊎ T' r) ->
  (forall r s', same_thread s s' -> ok (T' r) s' -> Q r s') ->
  safe P (recall w a op tk b gen) Q s.
Proof.
  intros [H1 Hone H2 H3] Hc Ho HQ. set (r := w_recall w (hist s) a op tk b gen). assert (Ha : P (hist s) (EvRecall a op tk b gen r)) by done.
  apply safe_call; [done|]. apply HQ; [done|]. split; [done|done| |apply Ho].
  eapply (replies_grown P); [|done]. by apply grown_one.
Qed.
Definition begun (T : gmultiset Z) (r : Z + Z * Z) : gmultiset Z :=
  match r with inr (result, tk) => if result =? 1 then T else {[+ tk +]} ⊎ T | inl _ => T end.
Lemma safe_begin T a (Q : Z + Z * Z -> mon -> Prop) s : ok T s ->
  (forall r s', same_thread s s' -> ok (begun T r) s' -> Q r s') -> safe P (recall w a VMCTX_RECALL_BEGIN 0 [] 0) Q s.
Proof.
  intros Hok. apply (safe_recall T (begun T)); [done|done|]. destruct Hok as [_ _ _ Ht]. intros r. simpl.
  destruct r as [e|[result tk]]; simpl; [by rewrite Ht|]. destruct (result =? 1); rewrite Ht; multiset_solver.
Qed.
Definition ended (op tk : Z) (r : Z + Z * Z) (T : gmultiset Z) : gmultiset Z := if closes op r then T else {[+ tk +]} ⊎ T.
Lemma safe_end T a op tk b gen (Q : Z + Z * Z -> mon -> Prop) s : ok ({[+ tk +]} ⊎ T) s -> op <> VMCTX_RECALL_BEGIN ->
  (op = VMCTX_RECALL_COMMIT -> received (hist s) target a b gen) ->
  (forall r s', same_thread s s' -> ok (ended op tk r T) s' -> Q r s') -> safe P (recall w a op tk b gen) Q s.
Proof.
  intros Hok Hop Hc. apply (safe_recall ({[+ tk +]} ⊎ T) (fun r => ended op tk r T)); [done|done|]. destruct Hok as [_ _ _ Ht]. intros r.
  unfold ended. simpl. rewrite (proj2 (Z.eqb_neq _ _) Hop), Ht. destruct (closes op r); multiset_solver.
Qed.

(** ** The window *)
Lemma window_safe todo i q T (Q : list (Z * Z) -> mon -> Prop) b0 s : ok (tickets q ⊎ T) s ->
  (forall q' s', same_thread s s' -> ok (tickets q' ⊎ T) s' -> Q q' s') -> safe P (window w b0 todo i q) Q s.
Proof.
  revert i q s. induction todo as [|todo IH]; intros i q s Hok HQ; simpl; [by apply safe_ret, HQ|].
  apply safe_bind. apply (safe_pg_state _ (tickets q ⊎ T)); [done|]. intros st s1 Hs1 Hok1.
  destruct (st <? 0); [by eapply safe_failed|]. destruct (st =? PG_OURS); [by apply safe_ret, HQ|].
  destruct (_ || _); [by apply safe_ret, HQ|]. apply safe_bind. apply (safe_begin (tickets q ⊎ T)); [done|].
  intros [e|[result tk]] s2 Hs2 Hok2; simpl in Hok2.
  { destruct (e =? EAGAIN); [|by eapply safe_failed]. apply safe_ret, HQ; [|done]. unfold same_thread in *. intuition congruence. }
  destruct (result =? 1); [apply safe_ret, HQ; [|done]; unfold same_thread in *; intuition congruence|].
  apply IH.
  - replace (tickets (q ++ [(u64 (b0 + (i + 1) * VMR_PG_SIZE), tk)]) ⊎ T) with ({[+ tk +]} ⊎ (tickets q ⊎ T)); [done|].
    unfold tickets. rewrite fmap_app, list_to_set_disj_app. simpl. multiset_solver.
  - intros q' s' Hs' ?. apply HQ; [|done]. unfold same_thread in *. intuition congruence.
Qed.
Lemma send_window_safe T fd q (Q : unit -> mon -> Prop) s : ok T s ->
  (forall s', same_thread s s' -> ok T s' -> Q () s') -> safe P (send_window w self fd target q) Q s.
Proof.
  revert s. induction q as [|[a tk] q IH]; intros s Hok HQ; simpl; [by apply safe_ret, HQ|].
  apply safe_bind. apply (safe_plain T); [done|done|]. intros b s1 _ _ Hs1 Hok1. destruct b; simpl; [|by eapply safe_failed].
  apply IH; [done|]. intros s' Hs' ?. apply HQ; [|done]. unfold same_thread in *. intuition congruence.
Qed.
Lemma issue_safe T fd b0 (Q : unit -> mon -> Prop) s : ok T s -> idle s ->
  (forall s', pg s' = pg s -> ok T s' -> Q () s') -> safe P (prefetch_issue w ra_min_rtt_us self fd b0 target) Q s.
Proof.
  intros Hok [Hn Hg] HQ. unfold prefetch_issue. apply safe_bind, safe_read, safe_bind, safe_read. rewrite Hn, Hg.
  apply safe_bind, safe_ret, safe_bind. apply (safe_plain T); [done|done|]. intros b s1 _ _ (Hp & _ & Hn1 & Hg1 & _) Hok1.
  apply safe_bind, safe_read. destruct (_ || _); [apply safe_ret, HQ; [done|done]|].
  apply safe_bind, safe_update; [done|]. set (s2 := set_run _ _ _). assert (Hok2 : ok T s2) by (destruct Hok1; by split).
  apply safe_bind, safe_read. destruct (ra_win s2 =? 0); [apply safe_ret, HQ; done|].
  apply safe_bind. apply (window_safe _ _ [] T). { replace (tickets [] ⊎ T) with T by (unfold tickets; simpl; multiset_solver). done. }
  intros q s3 Hs3 Hok3. destruct (last q) as [[a tk]|] eqn:Hl.
  2:{ apply last_None in Hl as ->. apply safe_ret, HQ; [destruct Hs3 as (-> & _); done|].
      replace (tickets [] ⊎ T) with T in Hok3 by (unfold tickets; simpl; multiset_solver). done. }
  apply safe_bind, safe_update; [done|]. set (s4 := set_run _ _ s3). assert (Hok4 : ok (tickets q ⊎ T) s4) by (destruct Hok3; by split).
  apply safe_bind. apply (send_window_safe (tickets q ⊎ T)); [done|]. intros s5 Hs5 [_ _ Hr5 Ht5].
  apply safe_update; [done|]. destruct Hs3 as (Hp3 & _ & Hn3 & Hg3 & _), Hs5 as (Hp5 & _ & Hn5 & Hg5 & _).
  apply HQ; [simpl in *; congruence|]. split; simpl; [done|by right|constructor|].
  rewrite Ht5, Hn5, Hg5. unfold s4. simpl. rewrite Hn3, Hg3. unfold s2. simpl. rewrite Hn1, Hg1, Hn, Hg.
  unfold tickets, got_tickets. simpl. multiset_solver.
Qed.

(** ** Replies *)
Lemma reply_matches op a rs : vmr_page_reply_matches (get_request self target op a) rs = true ->
  pr_target rs = target /\ pr_addr rs = a /\ pr_op rs = op.
Proof.
  unfold vmr_page_reply_matches, get_request. simpl. rewrite !andb_true_iff, !Z.eqb_eq, binding_equal_spec. naive_solver.
Qed.
(** a reply and its page, read one after the other *)
Lemma received_now op a fd rs b h h' : vmr_page_reply_matches (get_request self target op a) rs = true ->
  op = VMR_PG_GET \/ op = VMR_PG_COWBREAK -> pr_status rs = 0 ->
  h' = EvPage fd (Some b) :: EvReply fd (Some rs) :: h -> received h' target a b (pr_gen rs).
Proof.
  intros Hm Hop Hs ->. destruct (reply_matches _ _ _ Hm) as (? & ? & ?). exists [], h, fd, rs. simpl. naive_solver.
Qed.
Lemma read_window_safe T fd q (Q : list (Z * Z * vmr_pgrsp * bytes) -> mon -> Prop) s : ok T s ->
  (forall l s', same_thread s s' -> ok T s' -> got_tickets l = tickets q -> Forall (reply_ok (hist s') target) l -> Q l s') ->
  safe P (read_window w self fd target q) Q s.
Proof.
  revert Q s. induction q as [|[a tk] q IH]; intros Q s Hok HQ; simpl; [by apply safe_ret, HQ|].
  apply safe_bind. apply (safe_plain T); [done|done|]. intros r s1 _ Hh1 Hs1 Hok1. destruct r as [rs|]; [|by eapply safe_failed].
  destruct (vmr_page_reply_matches _ rs) eqn:Hm; simpl; [|by eapply safe_failed].
  apply safe_bind. apply (safe_plain T); [done|done|]. intros p s2 _ Hh2 Hs2 Hok2. destruct p as [b|]; [|by eapply safe_failed].
  apply safe_bind. eapply safe_mono; [apply (IH (fun l s' => same_thread s2 s' /\ ok T s' /\ got_tickets l = tickets q /\ Forall (reply_ok (hist s') target) l)); auto|].
  intros l s3 Hg (Hs3 & Hok3 & Hl & Hf). apply safe_ret, HQ.
  - unfold same_thread in *. intuition congruence.
  - done.
  - by rewrite got_tickets_cons, tickets_cons, Hl.
  - constructor; [|done]. intros Hst. simpl in *. eapply received_grown; [exact Hg|].
    rewrite Hh1 in Hh2. eapply received_now; eauto.
Qed.
Lemma replies_safe T fd (Q : unit -> mon -> Prop) s : ok T s ->
  (forall s', pg s' = pg s -> ok T s' -> (idle s -> idle s') -> Q () s') -> safe P (prefetch_read_replies w self fd) Q s.
Proof.
  intros Hok HQ. unfold prefetch_read_replies. apply safe_bind, safe_read, safe_bind, safe_read.
  destruct (ra_n s) as [|x n] eqn:Hn; [by apply safe_ret, HQ|]. destruct (negb _); [by apply safe_ret, HQ|].
  apply safe_bind, safe_read. pose proof (wo_target _ _ _ Hok) as Ht. rewrite Hn in Ht. rewrite Ht by (by left).
  apply safe_bind. apply (read_window_safe T); [done|]. intros l s1 (Hp & _ & Hn1 & Hg1 & _) [H1 Hone H2 H3] Hl Hf.
  apply safe_update; [done|]. apply HQ; [done| |intros [? _]; congruence]. split; simpl; [done|by left|done|].
  rewrite H3, Hn1, Hl, Hn. rewrite Hn1, Hn in Hone. destruct Hone as [Hone|Hone]; [done|]. rewrite Hone. unfold got_tickets. simpl.
  unfold tickets. multiset_solver.
Qed.
Lemma abort_safe T (Q : unit -> mon -> Prop) s : ok T s ->
  (forall s', pg s' = pg s -> hist s' = hist s -> ok T s' -> idle s' -> Q () s') -> safe P prefetch_abort Q s.
Proof.
  intros Hok HQ. unfold prefetch_abort. apply safe_bind, safe_read, safe_bind, safe_read.
  destruct (ra_n s) eqn:Hn; [|by eapply safe_failed]. destruct (ra_got s) eqn:Hg; [|by eapply safe_failed].
  apply safe_update; [done|]. apply HQ; [done|done| |done]. destruct Hok as [_ _ _ Ht]. split; simpl; [naive_solver|by left|constructor|].
  by rewrite Ht, Hn, Hg.
Qed.
Lemma failed_safe {A} (Q : A -> mon -> Prop) s : safe P ctx_pull_failed Q s.
Proof. apply safe_bind, safe_call; [done|]. by apply safe_stop. Qed.
Lemma settle_window_safe T l (Q : unit -> mon -> Prop) s : open_tickets (hist s) = got_tickets l ⊎ T -> Forall (reply_ok (hist s) target) l ->
  (forall s', same_thread s s' -> open_tickets (hist s') = T -> Q () s') -> safe P (settle_window w l) Q s.
Proof.
  revert s. induction l as [|[[[a tk] rs] b] l IH]; intros s Ho Hf HQ; simpl.
  { apply safe_ret, HQ; [done|]. rewrite Ho. unfold got_tickets. simpl. multiset_solver. }
  rewrite got_tickets_cons in Ho. simpl in Ho. apply Forall_cons in Hf as [Hx Hf].
  assert (Hnext : forall op b' g s1, op <> VMCTX_RECALL_BEGIN -> same_thread s s1 ->
    (exists r, closes op r = true /\ hist s1 = EvRecall a op tk b' g r :: hist s) -> safe P (settle_window w l) Q s1).
  { intros op b' g s1 Hop Hs1 (r & Hcl & Hh). apply IH.
    - rewrite Hh. simpl. rewrite (proj2 (Z.eqb_neq _ _) Hop), Hcl, Ho. multiset_solver.
    - eapply (replies_grown (fun _ _ => True)); [|done]. rewrite Hh. by apply grown_one.
    - intros s' Hs' ?. apply HQ; [|done]. unfold same_thread in *. intuition congruence. }
  destruct (Z.eqb_spec (pr_status rs) 0) as [Hst|Hst]; apply safe_bind, safe_call.
  - intros _. by apply Hx.
  - destruct (w_recall _ _ _ _ _ _ _) as [e|[result tk']] eqn:Hw; [apply failed_safe|].
    destruct (result =? VMR_PG_SIZE) eqn:Hr; [|apply failed_safe]. eapply (Hnext VMCTX_RECALL_COMMIT); [done|done|]. exists (inr (result, tk')). split; [exact Hr|simpl; by rewrite Hw].
  - done.
  - destruct (w_recall _ _ _ _ _ _ _) as [e|[result tk']] eqn:Hw.
    + destruct (e =? ESTALE) eqn:Hr; [|apply failed_safe]. eapply (Hnext VMCTX_RECALL_CANCEL); [done|done|]. exists (inl e). split; [exact Hr|simpl; by rewrite Hw].
    + destruct (result =? 0) eqn:Hr; [|apply failed_safe]. eapply (Hnext VMCTX_RECALL_CANCEL); [done|done|]. exists (inr (result, tk')). split; [exact Hr|simpl; by rewrite Hw].
Qed.
Lemma settle_safe T (Q : unit -> mon -> Prop) s : ok T s ->
  (forall s', ok T s' -> idle s' -> Q () s') -> safe P (prefetch_settle w) Q s.
Proof.
  intros Hok HQ. unfold prefetch_settle. apply safe_bind, safe_read, safe_bind.
  assert (Hrest : forall s1, ok T s1 -> ra_n s1 = [] ->
    safe P (got ← read ra_got; settle_window w got ;; update (fun m => set_ra None (ra_target m) [] [] m)) Q s1).
  { intros s1 [H1 H2 H3 H4] Hn1. apply safe_bind, safe_read, safe_bind. apply (settle_window_safe T); [|done|].
    - rewrite H4, Hn1. unfold tickets. simpl. multiset_solver.
    - intros s2 _ Ho. apply safe_update; [done|]. apply HQ; [|done]. split; simpl; [naive_solver|by left|constructor|].
      rewrite Ho. unfold tickets, got_tickets. simpl. multiset_solver. }
  destruct (ra_n s) eqn:Hn; [by apply safe_ret, Hrest|].
  apply (abort_safe T); [done|]. intros s1 _ _ Hok1 [Hn1 _]. by apply Hrest.
Qed.

(** ** A page over the channel *)
Definition fetched (a : Z) (h0 : history) (g : got) (s : mon) : Prop :=
  match g with
  | GotPage b => received (hist s) target a b (last_get_gen s)
  | GotLanded => evidence a h0 (hist s)
  | GotAbsent => happened (denies target a) h0 (hist s)
  | GotFailed => True
  end.
(** asking again gives up without an answer *)
Definition fetched_again (a : Z) (h0 : history) (g : got) (s : mon) : Prop :=
  match g with GotAbsent => True | _ => fetched a h0 g s end.
(** what a program that talks to the channel leaves of the thread *)
Definition kept T (s s' : mon) : Prop := ok T s' /\ (idle s -> idle s').
Lemma same_idle s s' : same_thread s s' -> idle s -> idle s'.
Proof. intros (_ & _ & H1 & H2 & _) [? ?]. split; congruence. Qed.

Lemma get_loop_safe T fuel fd op a landed t0 h0 (Q : got -> mon -> Prop) s :
  op = VMR_PG_GET \/ op = VMR_PG_COWBREAK -> ok T s -> grown P h0 (hist s) ->
  (forall g s', kept T s s' -> fetched a h0 g s' -> Q g s') ->
  safe P (get_loop w self fuel fd op a target landed t0) Q s.
Proof.
  intros Hop. revert t0 s. induction fuel as [|fuel IH]; intros t0 s Hok Hg0 HQ; simpl; [by apply safe_stop|].
  apply safe_bind. apply (safe_plain T); [done|done|]. intros b s1 _ Hh1 Hs1 Hok1.
  assert (Hq : forall g s', ok T s' -> (idle s -> idle s') -> fetched a h0 g s' -> Q g s') by (intros; apply HQ; [by split|done]).
  destruct b; simpl; [|apply safe_ret, Hq; [done|by apply same_idle|done]].
  apply safe_bind. eapply safe_mono; [apply (replies_safe T _ (fun _ s' => ok T s' /\ (idle s1 -> idle s'))); auto|].
  intros [] s2 Hg2 [Hok2 Hi2]. assert (Hi : idle s -> idle s2) by (intros; apply Hi2; by eapply same_idle).
  assert (Hg02 : grown P h0 (hist s2)).
  { eapply grown_trans; [exact Hg0|]. eapply grown_trans; [|exact Hg2]. rewrite Hh1. by apply grown_one. }
  apply safe_bind. apply (safe_plain T); [done|done|]. intros r s3 _ Hh3 Hs3 Hok3.
  assert (Hi3 : idle s -> idle s3) by eauto using same_idle.
  destruct r as [rs|]; [|apply safe_ret, Hq; done]. destruct (vmr_page_reply_matches _ rs) eqn:Hm; simpl; [|apply safe_ret, Hq; done].
  destruct (negb _ && negb _ && negb _) eqn:Hst; [apply safe_ret, Hq; done|].
  apply safe_bind. apply (safe_plain T); [done|done|]. intros p s4 _ Hh4 Hs4 Hok4. rewrite Hh3 in Hh4.
  assert (Hi4 : idle s -> idle s4) by eauto using same_idle.
  assert (Hg04 : grown P h0 (hist s4)).
  { eapply grown_trans; [exact Hg02|]. rewrite Hh4. eapply grown_trans; by apply grown_one. }
  destruct p as [incoming|]; [|apply safe_ret, Hq; done].
  destruct (pr_status rs =? VMR_PG_INFLIGHT) eqn:Hif.
  - apply safe_bind. eapply (safe_mono _ _ (fun (here : bool) s' => ok T s' /\ (idle s -> idle s') /\ (here = true -> evidence a (hist s4) (hist s')))).
    + destruct (landed && negb _); [|by apply safe_ret]. apply safe_bind. apply (safe_present _ T); [done|].
      intros r s5 He Hs5 Hok5. destruct (Z.eqb_spec r 1) as [->|]; [|apply safe_ret; split; [done|]; split; [eauto using same_idle|done]].
      apply safe_bind. eapply safe_mono; [apply (safe_state _ T _ _ _ _ (fun _ s' => same_thread s5 s' /\ ok T s')); auto|].
      intros st s6 Hg6 [Hs6 Hok6]. apply safe_ret. split; [done|]. split; [eauto using same_idle|]. intros _. eapply evidence_grown; [exact Hg6|]. by apply He.
    + intros here s5 Hg5 (Hok5 & Hi5 & He). destruct here.
      { apply safe_ret, Hq; [done|done|]. eapply evidence_since; eauto. }
      apply safe_bind. eapply (safe_mono _ _ (fun _ s' => ok T s' /\ (idle s -> idle s'))).
      { destruct t0 as [t|]; [by apply safe_ret|]. apply (safe_clock _ T); [done|]. eauto using same_idle. }
      intros t1 s6 Hg6 [Hok6 Hi6]. apply safe_bind.
      eapply safe_mono; [apply (safe_clock _ T _ _ _ (fun _ s' => ok T s' /\ (idle s -> idle s'))); [done|]; eauto using same_idle|].
      intros t s7 Hg7 [Hok7 Hi7]. destruct (t - t1 <? 1500000); [|apply safe_ret, Hq; done].
      apply safe_bind. eapply safe_mono; [apply (safe_sleep T _ _ _ _ (fun _ s' => ok T s' /\ (idle s -> idle s'))); [done|]; eauto using same_idle|].
      intros [] s8 Hg8 [Hok8 Hi8]. apply IH; [done|exact (grown_trans _ _ _ _ Hg04 (grown_trans _ _ _ _ Hg5 (grown_trans _ _ _ _ Hg6 (grown_trans _ _ _ _ Hg7 Hg8))))|].
      intros g s' [Hok' Hi'] Hf. apply Hq; auto.
  - apply safe_bind, safe_update; [done|]. apply safe_ret, Hq; [by destruct Hok4; split|done|].
    destruct (Z.eqb_spec (pr_status rs) VMR_PG_ABSENT) as [Ha|].
    { simpl. eapply happened_since; [exact Hg02|]. rewrite Hh4. apply (happened_grown P _ _ (EvReply fd (Some rs) :: hist s2)); [by apply grown_one|].
      apply happened_one. destruct (reply_matches _ _ _ Hm) as (? & ? & _). done. }
    simpl.
    eapply received_now; eauto. rewrite !andb_false_iff, !negb_false_iff, !Z.eqb_eq in Hst. apply Z.eqb_neq in Hif. naive_solver.
Qed.
Lemma get_op_safe T fd op a landed h0 (Q : got -> mon -> Prop) s :
  op = VMR_PG_GET \/ op = VMR_PG_COWBREAK -> ok T s -> grown P h0 (hist s) ->
  (forall g s', kept T s s' -> fetched a h0 g s' -> Q g s') -> safe P (pg_get_op w self fd op a target landed) Q s.
Proof.
  intros Hop Hok Hg HQ. unfold pg_get_op. destruct (negb _); [apply safe_ret, HQ; done|]. by eapply get_loop_safe.
Qed.
Lemma wait_safe T spins st (Q : Z -> mon -> Prop) s : ok T s -> (forall r s', kept T s s' -> Q r s') -> safe P (wait_settled w spins base st) Q s.
Proof.
  revert st s. induction spins as [|spins IH]; intros st s Hok HQ; simpl; [by apply safe_ret, HQ|].
  apply safe_bind. apply (safe_pg_state _ T); [done|]. intros st' s1 Hs1 Hok1.
  destruct (moving st'); [|apply safe_ret, HQ; split; eauto using same_idle].
  apply safe_bind. apply (safe_sleep T); [done|]. intros s2 Hs2 Hok2. apply IH; [done|].
  intros r s' [? ?]. apply HQ. split; eauto using same_idle.
Qed.
(** the channel, opened if it was not *)
Lemma channel_safe T (Q : unit -> mon -> Prop) s : ok T s -> (forall s', kept T s s' -> Q () s') ->
  safe P (match pg s with None => pg_connect w | Some _ => mret () end) Q s.
Proof.
  intros Hok HQ. destruct (pg s); [by apply safe_ret, HQ|]. apply (safe_connect _ T); [done|]. intros s' [H1 H2] ?.
  apply HQ. split; [done|]. intros [? ?]. split; congruence.
Qed.
Lemma drop_safe T (Q : unit -> mon -> Prop) s : ok T s -> (forall s', kept T s s' -> Q () s') -> safe P drop_channel Q s.
Proof.
  intros Hok HQ. apply (safe_drop T); [done|]. intros s' [H1 H2] ?. apply HQ. split; [done|]. intros [? ?]. split; congruence.
Qed.
Lemma kept_trans T s1 s2 s3 : kept T s1 s2 -> kept T s2 s3 -> kept T s1 s3.
Proof. intros [_ ?] [? ?]. split; auto. Qed.
Lemma fetched_since a h0 h1 g s : grown P h0 h1 -> fetched a h1 g s -> fetched a h0 g s.
Proof. intros Hg. destruct g; simpl; auto; by apply happened_since with P. Qed.

Lemma regain_safe T todo landed h0 (Q : got -> mon -> Prop) s : ok T s -> grown P h0 (hist s) ->
  (forall g s', kept T s s' -> fetched base h0 g s' -> Q g s') -> safe P (regain w self todo base target landed) Q s.
Proof.
  revert s. induction todo as [|todo IH]; intros s Hok Hg0 HQ; simpl; [by apply safe_ret, HQ|].
  apply safe_bind. eapply safe_mono; [apply (safe_sleep T _ _ _ _ (fun _ s' => kept T s s')); [done|]; split; eauto using same_idle|].
  intros [] s1 Hg1 Hk1. apply safe_bind, safe_read, safe_bind.
  eapply safe_mono; [apply (channel_safe T (fun _ s' => kept T s1 s')); [apply Hk1|done]|]. intros [] s2 Hg2 Hk2.
  apply safe_bind, safe_read. assert (Hk : kept T s s2) by eauto using kept_trans.
  assert (Hg02 : grown P h0 (hist s2)) by (exact (grown_trans _ _ _ _ Hg0 (grown_trans _ _ _ _ Hg1 Hg2))).
  destruct (pg s2) as [fd|]; [|apply IH; [apply Hk|done|]; intros; apply HQ; eauto using kept_trans].
  apply safe_bind. eapply safe_mono; [apply (get_op_safe T _ _ _ _ h0 (fun g s' => kept T s2 s' /\ fetched base h0 g s')); [by left|apply Hk|done|done]|].
  intros g s3 Hg3 [Hk3 Hf]. destruct (failed g) eqn:Hfail; [|apply safe_ret, HQ; eauto using kept_trans].
  apply safe_bind. eapply safe_mono; [apply (drop_safe T (fun _ s' => kept T s3 s')); [apply Hk3|done]|]. intros [] s4 Hg4 Hk4.
  apply IH; [apply Hk4|exact (grown_trans _ _ _ _ Hg02 (grown_trans _ _ _ _ Hg3 Hg4))|]. intros; apply HQ; eauto using kept_trans.
Qed.
Lemma fetch_safe T e h0 (Q : got -> mon -> Prop) s : ok T s -> idle s -> grown P h0 (hist s) ->
  (forall g s', ok T s' -> (failed g = true -> idle s') -> fetched base h0 g s' -> Q g s') ->
  safe P (fetch w ra_min_rtt_us self e base target) Q s.
Proof.
  intros Hok Hi Hg0 HQ. unfold fetch. apply safe_bind, safe_read, safe_bind.
  eapply safe_mono; [apply (channel_safe T (fun _ s' => kept T s s')); [apply Hok|done]|]. intros [] s1 Hg1 Hk1.
  apply safe_bind, safe_read. assert (Hg01 := grown_trans _ _ _ _ Hg0 Hg1). assert (Hi1 : idle s1) by (by apply Hk1).
  apply safe_bind. apply (safe_mono _ _ (fun g s' => ok T s' /\ (failed g = true -> idle s') /\ fetched base h0 g s' /\ grown P h0 (hist s'))).
  - destruct (pg s1) as [fd|]; [|by apply safe_ret; destruct Hk1].
    apply safe_bind. eapply safe_mono; [apply (safe_clock _ T _ _ _ (fun _ s' => kept T s1 s')); [apply Hk1|]; split; eauto using same_idle|].
    intros t0 s2 Hg2 Hk2. apply safe_bind.
    eapply (safe_mono _ _ (fun _ s' => ok T s')).
    { destruct (negb (ro_file e)); [|apply safe_ret; apply Hk2]. apply (issue_safe T); [apply Hk2|by apply Hk2|done]. }
    intros [] s3 Hg3 Hok3. assert (Hg03 := grown_trans _ _ _ _ Hg01 (grown_trans _ _ _ _ Hg2 Hg3)).
    apply safe_bind. eapply safe_mono; [apply (get_op_safe T _ _ _ _ h0 (fun g s' => kept T s3 s' /\ fetched base h0 g s')); [by left|done|done|done]|].
    intros g s4 Hg4 [Hk4 Hf4]. assert (Hg04 := grown_trans _ _ _ _ Hg03 Hg4). apply safe_bind, safe_read, safe_bind.
    eapply (safe_mono _ _ (fun _ s' => ok T s' /\ fetched base h0 g s')).
    { assert (Hret : safe P (mret ()) (fun _ s' => ok T s' /\ fetched base h0 g s') s4) by (apply safe_ret; split; [apply Hk4|done]).
      destruct g as [|b| |]; try done. destruct (ra_got s4); [|done]. apply safe_bind.
      eapply safe_mono; [apply (safe_clock _ T _ _ _ (fun _ s' => same_thread s4 s' /\ ok T s')); [apply Hk4|done]|].
      intros t s5 Hg5 [Hs5 Hok5]. apply safe_update; [done|]. split; [by destruct Hok5; split|]. simpl in *.
      eapply received_grown; [exact Hg5|]. destruct Hs5 as (_ & Hlg & _). by rewrite Hlg. }
    intros [] s5 Hg5 [Hok5 Hf5]. assert (Hg05 := grown_trans _ _ _ _ Hg04 Hg5). apply safe_bind.
    destruct (failed g) eqn:Hfail.
    + apply safe_bind. apply (abort_safe T); [done|]. intros s6 Hp6 Hh6 Hok6 Hi6.
      eapply safe_mono; [apply (drop_safe T (fun _ s' => kept T s6 s')); [done|done]|]. intros [] s7 Hg7 [Hok7 Hi7]. apply safe_ret.
      split; [done|]. split; [by intros _; apply Hi7|]. split; [by destruct g|]. rewrite Hh6 in Hg7. exact (grown_trans _ _ _ _ Hg05 Hg7).
    + apply safe_ret, safe_ret. split_and!; auto. congruence.
  - intros g s2 Hg2 (Hok2 & Hi2 & Hf2 & Hg02). destruct (failed g) eqn:Hfail; [|apply safe_ret, HQ; auto; congruence].
    apply (regain_safe T _ _ h0); [done|done|]. intros g' s' [Hok' Hi'] Hf'. apply HQ; auto.
Qed.
Lemma cowbreak_safe T h0 (Q : bool -> mon -> Prop) s : ok T s -> grown P h0 (hist s) ->
  (forall b s', ok T s' -> (b = true -> evidence base h0 (hist s')) -> grown P h0 (hist s') -> Q b s') -> safe P (cowbreak w self base target) Q s.
Proof.
  intros Hok Hg0 HQ. unfold cowbreak. apply safe_bind.
  eapply safe_mono; [apply (safe_plain T _ _ _ _ _ (fun _ s' => ok T s')); [done|done|auto]|]. intros alive s1 Hg1 Hok1.
  assert (Hg01 := grown_trans _ _ _ _ Hg0 Hg1). apply safe_bind, safe_read. destruct alive; [|by apply safe_ret, HQ].
  destruct (pg s1) as [fd|]; [|by apply safe_ret, HQ].
  apply safe_bind. eapply safe_mono; [apply (get_op_safe T _ _ _ _ h0 (fun g s' => kept T s1 s' /\ fetched base h0 g s')); [by right|done|done|done]|].
  intros g s2 Hg2 [[Hok2 _] Hf]. assert (Hg02 := grown_trans _ _ _ _ Hg01 Hg2). destruct g as [|b| |]; try (by apply safe_ret, HQ).
  apply safe_bind, safe_read, safe_bind.
  eapply safe_mono; [apply (safe_land _ T _ _ _ Hbase _ _ _ (fun r s' => ok T s' /\ (r = VMR_PG_SIZE -> evidence base (hist s2) (hist s')))); [done|by left|]; intros r s' He' _ ?; split; [done|]; intros Hr; apply He'; by left|].
  intros r s3 Hg3 [Hok3 He]. assert (Hg03 := grown_trans _ _ _ _ Hg02 Hg3). destruct (Z.eqb_spec r VMR_PG_SIZE); [|by apply safe_ret, HQ].
  apply safe_bind. eapply safe_mono; [apply (safe_emit T _ _ _ _ (fun _ s' => ok T s')); [done|done|auto]|]. intros [] s4 Hg4 Hok4.
  apply safe_ret, HQ; [done| |exact (grown_trans _ _ _ _ Hg03 Hg4)]. intros _. eapply evidence_grown; [exact Hg4|]. eapply evidence_since; [exact Hg02|]. by apply He.
Qed.

(** ** The answers *)
Lemma ask_again_safe T todo h0 (Q : got -> mon -> Prop) s : ok T s -> grown P h0 (hist s) ->
  (forall g s', ok T s' -> grown P h0 (hist s') -> fetched_again base h0 g s' -> Q g s') -> safe P (ask_again w self todo base target) Q s.
Proof.
  revert s. induction todo as [|todo IH]; intros s Hok Hg0 HQ; simpl; [by apply safe_ret, HQ|].
  apply safe_bind. eapply safe_mono; [apply (safe_sleep T _ _ _ _ (fun _ s' => ok T s')); [done|auto]|].
  intros [] s1 Hg1 Hok1. apply safe_bind, safe_read, safe_bind.
  eapply safe_mono; [apply (channel_safe T (fun _ s' => kept T s1 s')); [done|done]|]. intros [] s2 Hg2 [Hok2 _].
  apply safe_bind, safe_read. assert (Hg02 := grown_trans _ _ _ _ Hg0 (grown_trans _ _ _ _ Hg1 Hg2)).
  destruct (pg s2) as [fd|]; [|by apply safe_ret, HQ].
  apply safe_bind. eapply safe_mono; [apply (get_op_safe T _ _ _ _ h0 (fun g s' => kept T s2 s' /\ fetched base h0 g s')); [by left|done|done|done]|].
  intros g s3 Hg3 [[Hok3 _] Hf]. assert (Hg03 := grown_trans _ _ _ _ Hg02 Hg3). destruct (failed g) eqn:Hfail.
  - apply safe_bind. eapply safe_mono; [apply (drop_safe T (fun _ s' => kept T s3 s')); [done|done]|]. intros [] s4 Hg4 [Hok4 _].
    apply safe_ret, HQ; [done|exact (grown_trans _ _ _ _ Hg03 Hg4)|by destruct g].
  - apply safe_bind. eapply safe_mono; [apply (safe_present _ T _ _ _ _ (fun _ s' => same_thread s3 s' /\ ok T s')); [done|auto]|].
    intros r s4 Hg4 [Hs4 Hok4]. assert (Hg04 := grown_trans _ _ _ _ Hg03 Hg4).
    assert (Hf4 : fetched_again base h0 g s4).
    { destruct g as [|b| |]; simpl in *; [done| |done|exact (evidence_grown _ _ _ _ _ Hg4 Hf)].
      destruct Hs4 as (_ & -> & _). exact (received_grown _ _ _ _ _ _ _ Hg4 Hf). }
    destruct (r =? 1); [apply safe_ret, HQ; [done|done|exact Hf4]|].
    destruct g; try (apply safe_ret, HQ; [done|done|exact Hf4]). by apply IH.
Qed.
(** what the fault is told: done only with evidence, filled locally only for a
    page the record does not give away *)
Definition answer_ok T h0 (prior act : Z) (s : mon) : Prop :=
  ok T s /\ (act = VMCTX_ACT_DONE -> evidence base h0 (hist s)) /\ (act = VMCTX_ACT_SELF -> PG_GONE prior = false) /\
  (act = VMCTX_ACT_DONE \/ act = VMCTX_ACT_SELF \/ act = VMCTX_ACT_KILL).
Lemma absent_safe T h0 prior (Q : Z -> mon -> Prop) s : (PG_GONE prior = false -> forall h, grown P h0 h -> fresh h) -> ok T s -> grown P h0 (hist s) ->
  (forall act s', answer_ok T h0 prior act s' -> Q act s') -> safe P (absent w self base target prior) Q s.
Proof.
  intros Hfr Hok Hg0 HQ. unfold absent. apply safe_bind.
  assert (Hpres : forall s1 (Q' : Z -> mon -> Prop), ok T s1 -> grown P h0 (hist s1) ->
    (forall r s', ok T s' -> grown P h0 (hist s') -> (r = 1 -> evidence base h0 (hist s')) -> Q' r s') -> safe P (ctx_present w base) Q' s1).
  { intros s1 Q' Hok1 Hg1 HQ'. eapply safe_mono; [apply (safe_present _ T _ _ _ _ (fun r s' => ok T s' /\ (r = 1 -> evidence base (hist s1) (hist s')))); [done|auto]|].
    intros r s' Hg [? He]. apply HQ'; [done|exact (grown_trans _ _ _ _ Hg1 Hg)|]. intros Hr. eapply evidence_since; [exact Hg1|]. by apply He. }
  assert (Hland : forall s1 b gen ifa (Q' : Z -> mon -> Prop), ok T s1 -> grown P h0 (hist s1) ->
    (received (hist s1) target base b gen \/ (b = zeros /\ gen = 0 /\ ifa = true /\ fresh (hist s1))) ->
    (forall r s', ok T s' -> grown P h0 (hist s') -> (r = VMR_PG_SIZE -> evidence base h0 (hist s')) -> Q' r s') -> safe P (ctx_land w base b gen ifa) Q' s1).
  { intros s1 b gen ifa Q' Hok1 Hg1 Hb HQ'.
    eapply safe_mono; [apply (safe_land _ T _ _ _ Hbase _ _ _ (fun r s' => ok T s' /\ (r = VMR_PG_SIZE -> evidence base (hist s1) (hist s')))); [done|done|]; intros r s' He' _ ?; split; [done|]; intros Hr; apply He'; by left|].
    intros r s' Hg [? He]. apply HQ'; [done|exact (grown_trans _ _ _ _ Hg1 Hg)|]. intros Hr. eapply evidence_since; [exact Hg1|]. by apply He. }
  apply Hpres; [done|done|]. intros r s1 Hok1 Hg1 He1. destruct (Z.eqb_spec r 1); [apply safe_ret, HQ; split_and!; auto; done|].
  destruct (PG_GONE prior) eqn:Hgone.
  - apply safe_bind. apply (ask_again_safe T _ h0); [done|done|]. intros g s2 Hok2 Hg2 Hf2. apply safe_bind.
    eapply (safe_mono _ _ (fun (l : bool) s' => ok T s' /\ grown P h0 (hist s') /\ (l = true -> evidence base h0 (hist s')))).
    { destruct g as [|b| |]; try (by apply safe_ret). apply safe_bind, safe_read, safe_bind. apply Hland; [done|done|by left|].
      intros r2 s3 ? ? ?. apply safe_ret. split_and!; auto. intros E. apply Z.eqb_eq in E. auto. }
    intros l s3 _ (Hok3 & Hg3 & He3). destruct l; [apply safe_ret, HQ; split_and!; auto; done|].
    apply safe_bind. apply Hpres; [done|done|]. intros r2 s4 Hok4 Hg4 He4. apply safe_ret, HQ.
    destruct (Z.eqb_spec r2 1); split_and!; auto; done.
  - apply safe_bind. apply (cowbreak_safe T h0); [done|done|]. intros b s2 Hok2 He2 Hg2. destruct b; [apply safe_ret, HQ; split_and!; auto; done|].
    apply safe_bind. apply Hland; [done|done|right; auto|]. intros r2 s3 Hok3 Hg3 He3. destruct (Z.eqb_spec r2 VMR_PG_SIZE); [apply safe_ret, HQ; split_and!; auto; done|].
    apply safe_bind. apply Hpres; [done|done|]. intros r3 s4 Hok4 Hg4 He4. apply safe_ret, HQ.
    destruct (Z.eqb_spec r3 1); split_and!; auto; done.
Qed.
Lemma answer_safe T h0 e prior g (Q : Z -> mon -> Prop) s : (g = GotAbsent -> PG_GONE prior = false -> forall h, grown P (hist s) h -> fresh h) -> ok T s -> grown P h0 (hist s) ->
  fetched base h0 g s -> (forall act s', answer_ok T h0 prior act s' -> (failed g = true -> s' = s) -> Q act s') ->
  safe P (answer w self e base target prior g) Q s.
Proof.
  intros Hfr Hok Hg0 Hf HQ. destruct g as [|b| |]; simpl.
  - apply safe_ret, HQ; [|done]. destruct (PG_GONE prior) eqn:?; split_and!; auto; done.
  - apply safe_bind, safe_read, safe_bind.
    eapply safe_mono; [apply (safe_land _ T _ _ _ Hbase _ _ _ (fun r s' => ok T s' /\ (r = VMR_PG_SIZE \/ r = - EEXIST -> evidence base (hist s) (hist s')))); [done|by left|auto]|].
    intros r s' Hg [Hok' He]. apply safe_ret, HQ; [|done].
    assert (He' : r = VMR_PG_SIZE \/ r = - EEXIST -> evidence base h0 (hist s')) by (intros Hr; eapply evidence_since; [exact Hg0|]; by apply He).
    destruct (Z.eqb_spec r VMR_PG_SIZE); [split_and!; auto; done|]. destruct (Z.eqb_spec r (- EEXIST)); split_and!; auto; done.
  - destruct (private_file e && negb (PG_GONE prior)) eqn:Hp.
    + apply andb_true_iff in Hp as [_ Hp%negb_true_iff]. apply safe_bind. apply (cowbreak_safe T h0); [done|done|].
      intros b s2 Hok2 He2 _. apply safe_ret, HQ; [|done]. destruct b; split_and!; auto; done.
    + apply (absent_safe T (hist s)); [by apply Hfr|done|apply grown_refl|]. intros act s' (? & He & ?). apply HQ; [|done].
      split; [done|]. split; [|done]. intros Hd. eapply evidence_since; [exact Hg0|]. by apply He.
  - apply safe_ret, HQ; [|done]. split_and!; auto; done.
Qed.

(** ** One fault *)
Definition said (r : option (Z * Z)) : Z := match r with Some (st, _) => st | None => -1 end.
Definition looks (new : history) : list Z :=
  omap (fun e => match e with EvState a r => if a =? base then Some (said r) else None | _ => None end) new.
Lemma looks_app n1 n2 : looks (n1 ++ n2) = looks n1 ++ looks n2.
Proof. unfold looks. by rewrite omap_app. Qed.
(** the wait looks until the transfer is over, or [spins] times *)
Lemma wait_looks T spins st (Q : Z -> mon -> Prop) s : ok T s ->
  (forall r new s', hist s' = new ++ hist s -> kept T s s' ->
     (moving r = false /\ r ∈ looks new) \/ (spins <= length (List.filter moving (looks new)))%nat -> Q r s') ->
  safe P (wait_settled w spins base st) Q s.
Proof.
  revert st s. induction spins as [|spins IH]; intros st s Hok HQ; simpl.
  { apply safe_ret, (HQ _ []); [done|by split|]. right. simpl. lia. }
  apply safe_bind, safe_bind. apply (safe_plain T); [done|done|]. intros r s1 _ Hh1 Hs1 Hok1. rewrite Hbase in Hh1. apply safe_ret.
  assert (Hl : forall new, looks (new ++ [EvState base r]) = looks new ++ [said r]).
  { intros new. rewrite looks_app. unfold looks. simpl. by rewrite Z.eqb_refl. }
  change (match r with Some (x, _) => x | None => -1 end) with (said r). destruct (moving (said r)) eqn:Hm.
  - apply safe_bind. apply (safe_emit T); [done|done|]. intros s2 Hh2 Hs2 Hok2. apply IH; [done|].
    intros r' new s' Hh' Hk' Hr'. apply (HQ _ (new ++ [EvSleep 500; EvState base r])).
    + rewrite Hh', Hh2, Hh1. by rewrite <- app_assoc.
    + split; [apply Hk'|]. intros. apply Hk'. eauto using same_idle.
    + assert (Hx : looks (new ++ [EvSleep 500; EvState base r]) = looks new ++ [said r]).
      { change [EvSleep 500; EvState base r] with ([EvSleep 500] ++ [EvState base r]). rewrite app_assoc, Hl, looks_app. unfold looks at 2. simpl. by rewrite app_nil_r. }
      rewrite Hx, List.filter_app, length_app. simpl. rewrite Hm. simpl. destruct Hr' as [[? ?]|?]; [left|right; lia].
      split; [done|]. apply elem_of_app. auto.
  - apply safe_ret, (HQ _ [EvState base r]); [done|split; eauto using same_idle|]. left. split; [done|].
    change [EvState base r] with ([] ++ [EvState base r]). rewrite Hl. by apply elem_of_app; right; left.
Qed.
End recalls.

(** The page is not the other machine's to keep: the record does not say so, or
    said so of a transfer that the wait saw end elsewhere than there. *)
Definition not_given (e : vmctx_event) (base : Z) (h h' : history) : Prop :=
  PG_GONE (first_prior e) = false \/
  (moving (first_prior e) = true /\ exists new, h' = new ++ h /\ Exists (fun st => PG_GONE st = false) (looks base new)).
(** The wait was given up: 4000 looks all saw the transfer under way.  The page
    may then be the other machine's all the same. *)
Definition wait_given_up (e : vmctx_event) (base : Z) (h h' : history) : Prop :=
  moving (first_prior e) = true /\ exists new, h' = new ++ h /\ 4000 <= Z.of_nat (length (List.filter moving (looks base new))).
Definition may_fill (e : vmctx_event) (base : Z) (h h' : history) : Prop := not_given e base h h' \/ wait_given_up e base h h'.
(** the service makes up a page only for one the other machine said it has not *)
Definition may_zero (target : vmr_mm_binding) (e : vmctx_event) (base : Z) (h h' : history) : Prop :=
  may_fill e base h h' /\ happened (denies target base) h h'.
Lemma may_fill_grown P e base h h1 h2 : grown P h1 h2 -> may_fill e base h h1 -> may_fill e base h h2.
Proof.
  intros (n & -> & _) [[?|(Hm & new & -> & H)]|(Hm & new & -> & H)]; [left; by left|left; right|right]; (split; [done|]; exists (n ++ new); rewrite app_assoc; split; [done|]).
  - rewrite looks_app, Exists_app. auto.
  - rewrite looks_app, List.filter_app, length_app. lia.
Qed.
Lemma may_fill_since P e base h h1 h2 : grown P h h1 -> may_fill e base h1 h2 -> may_fill e base h h2.
Proof.
  intros (n & -> & _) [[?|(Hm & new & -> & H)]|(Hm & new & -> & H)]; [left; by left|left; right|right]; (split; [done|]; exists (new ++ n); rewrite app_assoc; split; [done|]).
  - rewrite looks_app, Exists_app. auto.
  - rewrite looks_app, List.filter_app, length_app. lia.
Qed.

Section fault.
Context (w : world) (ra_min_rtt_us self : Z) (target : vmr_mm_binding) (base : Z) (e : vmctx_event) (h0 : history).
Context (Hbase : page_base base = base).
Abbreviation P := (allowed target base (may_zero target e base h0)).
Abbreviation ok T := (window_ok T target).

(** How a fault may end. *)
Definition outcome_ok T (o : outcome) (s : mon) : Prop :=
  ok T s /\ (oc_action o = VMCTX_ACT_DONE -> evidence base h0 (hist s)) /\
  (oc_action o = VMCTX_ACT_SELF -> may_fill e base h0 (hist s)) /\
  (oc_action o = VMCTX_ACT_DONE \/ oc_action o = VMCTX_ACT_SELF \/ oc_action o = VMCTX_ACT_KILL) /\
  (oc_lost o = true -> idle s).
Lemma spins_eq : Z.of_nat wait_spins = 4000.
Proof. by apply Z2Nat.id. Qed.
(** from the fetch on *)
Lemma fetched_fault_safe T prior claimed (Q : outcome -> mon -> Prop) s : ok T s -> idle s -> grown P h0 (hist s) ->
  (PG_GONE prior = false -> may_fill e base h0 (hist s)) -> (forall o s', outcome_ok T o s' -> Q o s') ->
  safe P (g ← fetch w ra_min_rtt_us self e base target; act ← answer w self e base target prior g;
          mret (mk_outcome act prior claimed (failed g && PG_GONE prior))) Q s.
Proof.
  intros Hok Hi Hg0 Hng HQ. apply safe_bind.
  eapply safe_mono; [apply (fetch_safe _ _ _ _ _ _ Hbase T _ h0 (fun g s' => ok T s' /\ (failed g = true -> idle s') /\ fetched target base h0 g s')); auto|].
  intros g s1 Hg1 (Hok1 & Hi1 & Hf1). assert (Hg01 := grown_trans _ _ _ _ Hg0 Hg1). apply safe_bind.
  eapply safe_mono; [apply (answer_safe _ _ _ _ _ Hbase T h0 _ _ _ (fun act s' => answer_ok target base T h0 prior act s' /\ (failed g = true -> s' = s1))); [|done|done|done|by split]|].
  { intros -> Hp h Hgh. split; [eapply may_fill_grown; [exact Hgh|]; eapply may_fill_grown; [exact Hg1|]; auto|].
    eapply happened_grown; [exact Hgh|exact Hf1]. }
  intros act s2 Hg2 [(Hok2 & He & Hs & Ht) Hsame]. apply safe_ret, HQ. split_and!; simpl; auto.
  - intros Ha. eapply may_fill_grown; [exact Hg2|]. eapply may_fill_grown; [exact Hg1|]. auto.
  - intros [Hfail _]%andb_true_iff. rewrite Hsame by done. auto.
Qed.
(** the wait for a transfer that stands, and the claim after it *)
Lemma moving_fault_safe T prior (Q : outcome + Z * bool -> mon -> Prop) s : ok T s -> idle s -> grown P h0 (hist s) ->
  prior = first_prior e -> moving prior = true ->
  (forall o s', outcome_ok T o s' -> Q (inl o) s') ->
  (forall p c s', ok T s' -> idle s' -> grown P h0 (hist s') -> (PG_GONE p = false -> may_fill e base h0 (hist s')) -> Q (inr (p, c)) s') ->
  safe P (stt ← wait_settled w wait_spins base prior;
          here ← (if stt =? PG_OURS then r ← ctx_present w base; mret (r =? 1) else mret false);
          if here : bool then mret (inl (mk_outcome VMCTX_ACT_DONE prior false false))
          else if stt =? PG_OURS then mret (inl (mk_outcome VMCTX_ACT_SELF stt false false))
          else
            let prior := if moving stt then PG_NONE else stt in
            ok ← pg_set w base PG_CLAIM;
            mret (if ok : bool then inr (prior, true) else inl (mk_outcome VMCTX_ACT_DONE prior false false))) Q s.
Proof.
  intros Hok Hi Hg0 -> Hm Hl Hr. assert (Hspins := spins_eq). revert Hspins. generalize wait_spins. intros spins Hspins. apply safe_bind.
  eapply safe_mono; [apply (wait_looks _ _ _ _ Hbase T _ _ (fun st s' => kept target T s s' /\ (PG_GONE st = false \/ moving st = true -> may_fill e base h0 (hist s')))); [done|]|].
  { intros r new s' Hh Hk Hn. split; [done|]. intros Hgone. eapply may_fill_since; [exact Hg0|].
    destruct Hn as [[Hmv Hin]|Hn]; [left; right|right]; (split; [done|]; exists new; split; [done|]); [|apply inj_le in Hn; rewrite Hspins in Hn; exact Hn]. apply Exists_exists. exists r. split; [done|]. destruct Hgone; congruence. }
  intros st s1 Hg1 [[Hok1 Hi1] Hn1]. specialize (Hi1 Hi). apply safe_bind. assert (Hg01 := grown_trans _ _ _ _ Hg0 Hg1). destruct (Z.eqb_spec st PG_OURS) as [->|Hours].
  - apply safe_bind. eapply safe_mono; [apply (safe_present _ T _ _ _ _ (fun r s' => (r = 1 -> evidence base (hist s1) (hist s')) /\ ok T s')); [done|auto]|].
    intros r s2 Hg2 [He Hok2]. apply safe_ret. destruct (Z.eqb_spec r 1) as [Hr1|_]; apply safe_ret, Hl; split_and!; simpl; auto; try done.
    + intros _. eapply evidence_since; [exact Hg01|auto].
    + intros _. eapply may_fill_grown; [exact Hg2|]. apply Hn1. by left.
  - apply safe_ret. cbv zeta. apply safe_bind. unfold pg_set. rewrite Hbase. apply safe_bind.
    eapply safe_mono; [apply (safe_state _ T _ _ _ _ (fun _ s' => same_thread s1 s' /\ ok T s')); [done|auto]|]. intros r s2 Hg2 [Hs2 Hok2].
    eapply safe_mono; [apply (safe_plain T _ _ _ _ _ (fun a s' => hist s' = EvSet base PG_CLAIM (match r with Some (_, g) => g | None => 0 end) a :: hist s2 /\ same_thread s2 s' /\ ok T s')); [done|done|auto]|].
    intros b s3 Hg3 (Hh3 & Hs3 & Hok3). assert (Hg13 := grown_trans _ _ _ _ Hg2 Hg3). apply safe_ret. destruct b.
    + apply Hr; [done|eauto using same_idle|exact (grown_trans _ _ _ _ Hg01 Hg13)|]. intros Hp. eapply may_fill_grown; [exact Hg13|].
      apply Hn1. destruct (moving st); auto.
    + apply Hl. split_and!; simpl; auto; try done. intros _. eapply evidence_since; [exact (grown_trans _ _ _ _ Hg01 Hg2)|]. rewrite Hh3. by apply evidence_one.
Qed.
Lemma serve_fault_safe T (Q : outcome -> mon -> Prop) s : ok T s -> idle s -> hist s = h0 ->
  (forall o s', outcome_ok T o s' -> Q o s') -> safe P (serve_fault w ra_min_rtt_us self e base target) Q s.
Proof.
  intros Hok Hi Hh HQ. unfold serve_fault. cbv zeta. apply safe_bind.
  assert (Hg0 : grown P h0 (hist s)) by (rewrite Hh; apply grown_refl).
  eapply (safe_mono _ _ (fun (sealed : bool) s' => kept target T s s' /\ (sealed = false -> PG_GONE (first_prior e) = false))).
  { destruct (ro_file e && negb (PG_GONE (first_prior e))) eqn:Hro; [|apply safe_ret; by split].
    apply (safe_plain T); [done|done|]. intros a s' _ _ Hs ?. split; [split; eauto using same_idle|]. intros _.
    by apply andb_true_iff in Hro as [_ ?%negb_true_iff]. }
  intros sealed s1 Hg1 [[Hok1 Hi1] Hsl]. specialize (Hi1 Hi). assert (Hg01 := grown_trans _ _ _ _ Hg0 Hg1).
  destruct sealed; cbv [negb]; [|apply safe_ret, HQ; split_and!; simpl; auto; try done; intros _; left; left; auto].
  destruct (rec_on e && (first_prior e =? PG_OURS)) eqn:Hours.
  { apply andb_true_iff in Hours as [_ Hours%Z.eqb_eq]. apply safe_ret, HQ. split_and!; simpl; auto; try done. intros _. left. left.
    by rewrite Hours. }
  apply safe_bind. destruct (rec_on e && moving (first_prior e)) eqn:Hmv.
  - apply andb_true_iff in Hmv as [_ Hmv]. apply (moving_fault_safe T); [done|done|done|done|done| |].
    + intros o s' Ho. by apply safe_ret, HQ.
    + intros p c s' ? ? ? ?. by apply (fetched_fault_safe T).
  - apply safe_ret. apply (fetched_fault_safe T); [done|done|done|by left; left|done].
Qed.
End fault.

(** ** The service *)
(** What the thread may do between two faults: a context runs on only with every
    admission it opened closed, and only received bytes are committed or landed. *)
Definition turn_event (T : gmultiset Z) (h : history) (e : event) : Prop :=
  match e with
  | EvResume _ _ => open_tickets h = T
  | EvRecall a op _ b gen _ => op = VMCTX_RECALL_COMMIT -> exists target, received h target a b gen
  | EvLand a b gen if_absent _ => (exists target, received h target a b gen) \/ (b = zeros /\ gen = 0 /\ if_absent = true)
  | _ => True
  end.
Lemma allowed_turn T target base fresh h e : allowed target base fresh h e -> turn_event T h e.
Proof. destruct e; simpl; naive_solver. Qed.
Definition quiet (T : gmultiset Z) (m : mon) : Prop := idle m /\ open_tickets (hist m) = T.
Lemma quiet_ok T target m : quiet T m -> window_ok T target m.
Proof.
  intros [[Hn Hg] Ho]. split; rewrite ?Hn, ?Hg, ?Ho; [naive_solver|by left|constructor|].
  unfold tickets, got_tickets. simpl. multiset_solver.
Qed.
Lemma ok_quiet T target m : window_ok T target m -> idle m -> quiet T m.
Proof.
  intros [_ _ _ Ht] [Hn Hg]. split; [done|]. rewrite Ht, Hn, Hg. unfold tickets, got_tickets. simpl. multiset_solver.
Qed.

Section turns.
Context (w : world) (ra_min_rtt_us self : Z) (T : gmultiset Z).
Abbreviation P := (turn_event T).
Lemma claim_safe target o base st (Q : unit -> mon -> Prop) s : window_ok T target s ->
  (forall s', window_ok T target s' -> (idle s -> idle s') -> Q () s') -> safe P (settle_claim w o base st) Q s.
Proof.
  intros Hok HQ. apply (safe_impl (allowed target base (fun _ => False))); [apply allowed_turn|]. unfold settle_claim.
  destruct (oc_claimed o); [|apply safe_ret; auto]. apply safe_bind. apply (safe_pg_state _ T); [done|]. intros now s1 Hs1 Hok1.
  destruct (now =? PG_CLAIM); [|apply safe_ret, HQ; [done|by apply same_idle]]. apply safe_bind, safe_bind. apply (safe_state _ T); [done|].
  intros r s2 Hs2 Hok2. apply (safe_plain T); [done|done|]. intros b s3 _ _ Hs3 Hok3. apply safe_ret, HQ; eauto using same_idle.
Qed.
Lemma resume_safe act (Q : bool -> mon -> Prop) s : quiet T s -> (forall b s', quiet T s' -> Q b s') -> safe P (resume w act) Q s.
Proof. intros [Hi Ho] HQ. apply safe_call; [done|]. by apply HQ. Qed.
Lemma finish_safe target act (Q : bool -> mon -> Prop) s : window_ok T target s -> (forall b s', quiet T s' -> Q b s') ->
  safe P (prefetch_settle w ;; ended ← resume w act; mret (negb ended)) Q s.
Proof.
  intros Hok HQ. apply safe_bind. apply (safe_impl (allowed target 0 (fun _ => False))); [apply allowed_turn|].
  apply (settle_safe _ _ 0 _ eq_refl T); [done|]. intros s1 Hok1 Hi1. apply safe_bind. apply resume_safe; [by eapply ok_quiet|].
  intros b s2 Hq2. apply safe_ret. auto.
Qed.
Lemma turn_safe e (Q : bool -> mon -> Prop) s : quiet T s -> (forall b s', quiet T s' -> Q b s') ->
  safe P (monitor_turn w ra_min_rtt_us self e) Q s.
Proof.
  intros Hq HQ. unfold monitor_turn. cbv zeta. destruct (ev_fault e); simpl; [|by apply (finish_safe (ra_target s)); [apply quiet_ok|]].
  apply safe_bind, safe_call; [done|]. destruct (w_binding w (hist s)) as [target|]; [|by apply safe_bind, safe_call; [|apply safe_stop]].
  set (s1 := snd _). assert (Hok1 : window_ok T target s1) by (apply quiet_ok; destruct Hq; split; done). assert (Hi1 : idle s1) by apply Hq.
  apply safe_bind. set (base := page_base (ev_addr e)). assert (Hbase : page_base base = base) by (unfold base, page_base; rewrite <- Z.land_assoc; done).
  apply (safe_impl (allowed target base (may_zero target e base (hist s1)))); [apply allowed_turn|].
  apply (serve_fault_safe _ _ _ _ _ _ _ Hbase T); [done|done|done|]. intros o s2 (Hok2 & _ & _ & _ & Hi2).
  apply safe_bind. eapply (safe_mono _ _ (fun _ s' => window_ok T target s' /\ (oc_lost o = true -> idle s'))).
  { destruct (oc_lost o); [|by apply safe_ret]. apply safe_update; [done|]. split; [by destruct Hok2; split|by auto]. }
  intros [] s3 _ [Hok3 Hi3]. apply safe_bind, safe_read. destruct (oc_lost o) eqn:Hl; simpl; [destruct (3 <=? kill_asked s3)|].
  1:{ apply safe_bind. apply (claim_safe target); [done|]. intros s4 Hok4 Hi4. apply safe_bind.
      apply resume_safe; [eapply ok_quiet; eauto|]. intros b s5 Hq5. apply safe_bind, safe_call; [done|]. by apply safe_ret, HQ. }
  all: apply safe_bind; apply (claim_safe target); [done|]; intros s4 Hok4 _; by apply (finish_safe target).
Qed.
Lemma monitor_safe events (Q : unit -> mon -> Prop) s : quiet T s -> (forall s', quiet T s' -> Q () s') ->
  safe P (ctx_monitor w ra_min_rtt_us self events) Q s.
Proof.
  assert (Hend : forall s1 (Q : unit -> mon -> Prop), quiet T s1 -> (forall s', quiet T s' -> Q () s') -> safe P drop_channel Q s1).
  { intros s1 Q' Hq HQ. apply (safe_impl (allowed (ra_target s1) 0 (fun _ => False))); [apply allowed_turn|].
    apply (drop_safe _ _ _ T); [by apply quiet_ok|]. intros s' [Hok' Hi']. apply HQ. eapply ok_quiet; [done|]. apply Hi', Hq. }
  revert Q s. induction events as [|e events IH]; intros Q s Hq HQ; simpl; [by apply Hend|].
  apply safe_bind. apply turn_safe; [done|]. intros b s1 Hq1. destruct b; auto.
Qed.
End turns.

(** ** Fetching a page for a call *)
(** what the answer of [ctx_pull_page_mode] rests on *)
Definition pull_shown (route : bool) (base : Z) (allow_gone : bool) (r : Z) (new : history) : Prop :=
  (r = 1 /\ Exists (fun e => match e with EvRecall a op _ _ _ (inr (result, _)) => a = base /\ op = VMCTX_RECALL_COMMIT /\ result = VMR_PG_SIZE | _ => False end) new) \/
  (r = 0 /\ (route = false \/ Exists (fun e => match e with EvRecall a op _ _ _ (inr (result, _)) => a = base /\ op = VMCTX_RECALL_BEGIN /\ result = 1 | _ => False end) new)) \/
  (r = - ESRCH /\ allow_gone = true /\ Exists (fun e => match e with EvRecall a op _ _ _ (inl err) => a = base /\ op = VMCTX_RECALL_BEGIN /\ err = ESRCH | _ => False end) new).
Lemma pull_shown_app route base gone r new old : pull_shown route base gone r new -> pull_shown route base gone r (new ++ old).
Proof. unfold pull_shown. rewrite !Exists_app. naive_solver. Qed.
Lemma pull_shown_later route base gone r new old : pull_shown route base gone r old -> pull_shown route base gone r (new ++ old).
Proof. unfold pull_shown. rewrite !Exists_app. naive_solver. Qed.
Lemma safe_call_hist {A} P (f : history -> A) ev (Q : A -> mon -> Prop) s :
  safe P (call f ev) Q s -> safe P (call f ev) (fun a s' => Q a s' /\ hist s' = ev a :: hist s) s.
Proof. intros [? ?]. by split. Qed.

Section pull.
Context (w : world) (self : Z) (target : vmr_mm_binding) (base : Z) (T : gmultiset Z) (route gone : bool).
Context (Hbase : page_base base = base).
Abbreviation P := (allowed target base (fun _ => False)).
Abbreviation ok T := (window_ok T target).
Lemma admit_safe fuel began (Q : option Z + Z -> mon -> Prop) s : ok T s -> idle s ->
  (forall r s', match r with
     | inr tk => ok ({[+ tk +]} ⊎ T) s'
     | inl e => ok T s' /\ exists new, hist s' = new ++ hist s /\ pull_shown route base gone (default 0 e) new
     end -> idle s' -> Q r s') -> safe P (begin_pull w fuel base gone began) Q s.
Proof.
  revert s. induction fuel as [|fuel IH]; intros s Hok Hi HQ; simpl; [by apply safe_stop|]. apply safe_bind.
  eapply safe_mono; [apply safe_call_hist, (safe_begin _ _ _ _ Hbase T _ (fun r s' => same_thread s s' /\ ok (begun T r) s')); [done|auto]|].
  intros r s1 _ [[Hs1 Hok1] Hh1]. assert (Hi1 : idle s1) by (by eapply same_idle).
  destruct r as [err|[result tk]]; simpl in Hok1.
  - destruct (gone && (err =? ESRCH)) eqn:Hgone.
    { apply andb_true_iff in Hgone as [Hgt ->%Z.eqb_eq]. apply safe_ret, HQ; [|done]. split; [done|]. eexists [_]. split; [exact Hh1|]. right; right. split_and!; [done|done|]. by left. }
    destruct (negb _); [by eapply safe_failed|]. apply safe_bind.
    eapply safe_mono; [apply (safe_clock _ T _ _ _ (fun _ s' => same_thread s1 s' /\ ok T s')); [done|auto]|]. intros t s2 (n2 & Hh2 & _) [Hs2 Hok2].
    destruct (_ <? _); [by eapply safe_failed|]. apply safe_bind.
    eapply safe_mono; [apply (safe_sleep T _ _ _ _ (fun _ s' => same_thread s2 s' /\ ok T s')); [done|auto]|]. intros [] s3 (n3 & Hh3 & _) [Hs3 Hok3].
    apply IH; [done|eauto using same_idle|]. intros r s' Hr Hi'. apply HQ; [|done]. destruct r as [e|tk]; [|done]. destruct Hr as [? (new & Hh & Hp)]. split; [done|].
    exists (new ++ n3 ++ n2 ++ [EvRecall base VMCTX_RECALL_BEGIN 0 [] 0 (inl err)]). rewrite Hh, Hh3, Hh2, Hh1, <- !app_assoc. split; [done|]. by apply pull_shown_app.
  - destruct (Z.eqb_spec result 1) as [->|].
    + apply safe_ret, HQ; [|done]. split; [done|]. eexists [_]. split; [exact Hh1|]. right; left. split; [done|]. right. by left.
    + destruct (result =? 0); [by apply safe_ret, HQ|by eapply safe_failed].
Qed.
Lemma pull_safe (Q : Z -> mon -> Prop) s : quiet T s ->
  (forall r s', quiet T s' -> (exists new, hist s' = new ++ hist s /\ pull_shown route base gone r new) -> Q r s') ->
  safe P (ctx_pull_page_mode w self route target base gone) Q s.
Proof.
  intros Hq HQ. assert (Hok := quiet_ok T target s Hq). assert (Hi : idle s) by apply Hq. unfold ctx_pull_page_mode. generalize admit_fuel. intros fuel. apply safe_bind.
  eapply safe_mono; [apply (safe_clock _ T _ _ _ (fun _ s' => same_thread s s' /\ ok T s')); [done|auto]|]. intros began s1 (n1 & Hh1 & _) [Hs1 Hok1].
  assert (Hi1 : idle s1) by (by eapply same_idle). destruct (negb route) eqn:Hroute.
  { apply safe_ret, HQ; [by eapply ok_quiet|]. exists n1. split; [done|]. right; left. apply negb_true_iff in Hroute. auto. }
  apply safe_bind. eapply safe_mono; [apply (admit_safe _ _ (fun r s' => idle s' /\ match r with
     | inr tk => ok ({[+ tk +]} ⊎ T) s'
     | inl e => ok T s' /\ exists new, hist s' = new ++ hist s1 /\ pull_shown route base gone (default 0 e) new
     end)); [done|done|auto]|].
  intros a s2 (n2 & Hh2 & _) [Hi2 Ha]. assert (Hback : forall r s', ok T s' -> idle s' -> (exists new, hist s' = new ++ hist s1 /\ pull_shown route base gone r new) -> Q r s').
  { intros r s' Ho' Hi' (new & Hh & Hp). apply HQ; [by eapply ok_quiet|]. exists (new ++ n1). rewrite Hh, Hh1, <- app_assoc. split; [done|]. by apply pull_shown_app. }
  destruct a as [[e|]|tk]; [destruct Ha; by apply safe_ret, Hback|destruct Ha; by apply safe_ret, Hback|].
  assert (Hcancel : forall s3, ok ({[+ tk +]} ⊎ T) s3 -> safe P (r ← recall w base VMCTX_RECALL_CANCEL tk [] 0; let _ : Z + Z * Z := r in ctx_pull_failed) Q s3).
  { intros s3 Hok3. apply safe_bind. apply (safe_end _ _ _ _ Hbase T); [done|done|done|]. intros r s4 _ Hok4. by eapply safe_failed. }
  cbv zeta. apply safe_bind, safe_read, safe_bind.
  eapply safe_mono; [apply (channel_safe _ _ _ _ ({[+ tk +]} ⊎ T) (fun _ s' => kept target ({[+ tk +]} ⊎ T) s2 s')); [done|done]|]. intros [] s3 (n3 & Hh3 & _) [Hok3 Hi3].
  apply safe_bind, safe_read. destruct (pg s3) as [fd|]; [|by apply Hcancel]. apply safe_bind.
  eapply safe_mono; [apply (get_op_safe _ _ _ _ _ Hbase ({[+ tk +]} ⊎ T) _ _ _ _ (hist s3) (fun g s' => kept target ({[+ tk +]} ⊎ T) s3 s' /\ fetched target base (hist s3) g s')); [by left|done|apply grown_refl|done]|].
  intros g s4 (n4 & Hh4 & _) [[Hok4 Hi4] Hf4]. destruct g as [|b| |]; try (by apply Hcancel).
  apply safe_bind, safe_read, safe_bind.
  eapply safe_mono; [apply safe_call_hist, (safe_end _ _ _ _ Hbase T _ _ _ _ _ (fun r s' => same_thread s4 s' /\ ok (ended VMCTX_RECALL_COMMIT tk r T) s')); [done|done|done|auto]|].
  intros r s5 _ [[Hs5 Hok5] Hh5]. destruct r as [err|[result tk']]; [by eapply safe_failed|].
  destruct (Z.eqb_spec result VMR_PG_SIZE) as [->|]; [|by eapply safe_failed]. apply safe_ret, Hback; [done|eauto using same_idle|].
  exists ([EvRecall base VMCTX_RECALL_COMMIT tk b (last_get_gen s4) (inr (VMR_PG_SIZE, tk'))] ++ n4 ++ n3 ++ n2).
  rewrite Hh5, Hh4, Hh3, Hh2, <- !app_assoc. split; [done|]. left. split; [done|]. by left.
Qed.
End pull.

(** ** Every wait is bounded
    The clock never goes back, and a sleep takes at least as long as it says. *)
Record clock (w : world) (time : history -> Z) : Prop := {
  clock_read : forall h, w_clock w h = time h;
  clock_mono : forall e h, time h <= time (e :: h);
  clock_sleep : forall us h, time h + us <= time (EvSleep us :: h) }.

Section ends.
Context (w : world) (ra_min_rtt_us self : Z) (time : history -> Z) (Hc : clock w time).
Abbreviation ends m s := (Traces.ends hist time m s).
Lemma ends_read {A} (f : mon -> A) s : ends (read f) s.
Proof. split; [done|]. simpl. lia. Qed.
Lemma ends_call {A} (f : history -> A) ev s : ends (call f ev) s.
Proof. split; [done|]. apply (clock_mono _ _ Hc). Qed.
Lemma ends_update f s : hist (f s) = hist s -> ends (update f) s.
Proof. intros H. split; [done|]. simpl. rewrite H. lia. Qed.
Lemma ends_failed {A} s : ends (@ctx_pull_failed A) s.
Proof. apply ends_bind; [apply ends_call|]. intros [] s'. split; [done|]. simpl. lia. Qed.

(** one step of a straight-line program *)
Local Ltac step :=
  first
  [ apply ends_ret | apply ends_read | apply ends_failed | apply ends_call | apply ends_update; reflexivity
  | apply ends_bind; [|intros ? ?]
  | match goal with
    | |- ends (if ?b then _ else _) _ => destruct b
    | |- ends (match ?x with _ => _ end) _ => destruct x
    | |- ends (match ?x with _ => _ end _) _ => destruct x
    | |- ends (match ?x with _ => _ end _ _) _ => destruct x
    end ].
Local Ltac steps := repeat step.
Lemma ends_window b0 todo i q s : ends (window w b0 todo i q) s.
Proof. revert i q s. induction todo as [|todo IH]; intros i q s; simpl; unfold pg_state, pg_state_gen, recall; steps; apply IH. Qed.
Lemma ends_send_window fd t q s : ends (send_window w self fd t q) s.
Proof. revert s. induction q as [|[a tk] q IH]; intros s; simpl; steps; apply IH. Qed.
Lemma ends_read_window fd t q s : ends (read_window w self fd t q) s.
Proof. revert s. induction q as [|[a tk] q IH]; intros s; simpl; steps; apply IH. Qed.
Lemma ends_settle_window l s : ends (settle_window w l) s.
Proof. revert s. induction l as [|[[[a tk] rs] b] l IH]; intros s; simpl; unfold recall; steps; apply IH. Qed.
Lemma ends_abort s : ends prefetch_abort s.
Proof. unfold prefetch_abort. steps. Qed.
Lemma ends_issue fd b0 t s : ends (prefetch_issue w ra_min_rtt_us self fd b0 t) s.
Proof. unfold prefetch_issue. steps; auto using ends_abort, ends_window, ends_send_window. Qed.
Lemma ends_replies fd s : ends (prefetch_read_replies w self fd) s.
Proof. unfold prefetch_read_replies. steps; auto using ends_read_window. Qed.
Lemma ends_settle s : ends (prefetch_settle w) s.
Proof. unfold prefetch_settle. steps; auto using ends_abort, ends_settle_window. Qed.
(** the wait for a page on the way: a turn sleeps 500 us, and 1.5 s end it *)
Lemma ends_get_loop fuel fd op a t landed t0 s k : (0 <= k <= 3000) -> 3001 <= Z.of_nat fuel + k ->
  match t0 with Some t0 => t0 + 500 * k <= time (hist s) | None => 3002 <= Z.of_nat fuel /\ k = 0 end ->
  ends (get_loop w self fuel fd op a t landed t0) s.
Proof.
  revert t0 s k. induction fuel as [|fuel IH]; intros t0 s k Hk Hf Ht; [exfalso; destruct t0; lia|]. simpl.
  apply ends_bind'; [apply ends_call|]. intros b s1 _ Ht1. destruct b; simpl; [|apply ends_ret].
  apply ends_bind'; [apply ends_replies|]. intros [] s2 _ Ht2.
  apply ends_bind'; [apply ends_call|]. intros r s3 _ Ht3. destruct r as [rs|]; [|apply ends_ret].
  destruct (negb _); [apply ends_ret|]. destruct (negb _ && negb _ && negb _); [apply ends_ret|].
  apply ends_bind'; [apply ends_call|]. intros p s4 _ Ht4. destruct p as [incoming|]; [|apply ends_ret].
  destruct (_ =? VMR_PG_INFLIGHT); [|steps].
  apply ends_bind'; [steps|]. intros here s5 _ Ht5. destruct here; [apply ends_ret|].
  apply ends_bind'; [steps|]. intros t1 s6 H1 Ht6. apply ends_bind'; [apply ends_call|]. intros t2 s7 H2 Ht7.
  destruct (Z.ltb_spec (t2 - t1) 1500000); [|apply ends_ret].
  apply ends_bind'; [apply ends_call|]. intros [] s8 H8 Ht8.
  injection H8 as <-. injection H2 as <- <-. simpl in *. rewrite (clock_read _ _ Hc) in *.
  assert (Hs := clock_sleep _ _ Hc 500 (EvClock (time (hist s6)) :: hist s6)).
  apply (IH _ _ (k + 1)); destruct t0 as [t0|]; injection H1 as <- <-; simpl in *; rewrite ?(clock_read _ _ Hc) in *; lia.
Qed.
Lemma ends_get fd op a t landed s : ends (pg_get_op w self fd op a t landed) s.
Proof.
  unfold pg_get_op. destruct (negb _); [apply ends_ret|].
  apply (ends_get_loop _ _ _ _ _ _ _ _ 0); unfold get_fuel; rewrite ?Z2Nat.id; lia.
Qed.
Lemma ends_wait spins b st s : ends (wait_settled w spins b st) s.
Proof. revert st s. induction spins as [|spins IH]; intros st s; simpl; unfold pg_state, pg_state_gen, usleep, emit; steps; apply IH. Qed.
Lemma ends_connect s : ends (pg_connect w) s.
Proof. unfold pg_connect. steps. Qed.
Lemma ends_drop s : ends drop_channel s.
Proof. unfold drop_channel, emit. steps. Qed.
Local Hint Resolve ends_get ends_wait ends_connect ends_drop ends_abort ends_issue ends_settle : ends.
Local Ltac go := repeat first [solve [auto 1 with ends] | step].
Lemma ends_regain todo b t landed s : ends (regain w self todo b t landed) s.
Proof. revert s. induction todo as [|todo IH]; intros s; simpl; go. Qed.
Local Hint Resolve ends_regain : ends.
Lemma ends_fetch e b t s : ends (fetch w ra_min_rtt_us self e b t) s.
Proof. unfold fetch, prefetch_note_rtt. generalize 30%nat. intros n. go. Qed.
Lemma ends_again todo b t s : ends (ask_again w self todo b t) s.
Proof. unfold ask_again, pg_get. revert s. induction todo as [|todo IH]; intros s; go. Qed.
Lemma ends_cowbreak b t s : ends (cowbreak w self b t) s.
Proof. unfold cowbreak, ctx_land, emit. go. Qed.
Local Hint Resolve ends_fetch ends_again ends_cowbreak : ends.
Lemma ends_answer e b t prior g s : ends (answer w self e b t prior g) s.
Proof. unfold answer, absent, ctx_land. generalize 40%nat. intros n. go. Qed.
Local Hint Resolve ends_answer : ends.
Lemma ends_fault e b t s : ends (serve_fault w ra_min_rtt_us self e b t) s.
Proof. unfold serve_fault, pg_set, pg_state_gen. cbv zeta. generalize wait_spins. intros spins. go. Qed.
Local Hint Resolve ends_fault : ends.
Lemma ends_turn e s : ends (monitor_turn w ra_min_rtt_us self e) s.
Proof. unfold monitor_turn, settle_claim, pg_state, pg_set, pg_state_gen, resume, emit. cbv zeta. go. Qed.
Local Hint Resolve ends_turn : ends.
Lemma ends_monitor events s : ends (ctx_monitor w ra_min_rtt_us self events) s.
Proof. revert s. induction events as [|e events IH]; intros s; simpl; go. Qed.

(** the admission of a pull: a turn sleeps 100 us, and 6 s end it *)
Lemma ends_admit fuel b gone began s k : (0 <= k <= 60001) -> 60002 <= Z.of_nat fuel + k -> began + 100 * k <= time (hist s) ->
  ends (begin_pull w fuel b gone began) s.
Proof.
  revert s k. induction fuel as [|fuel IH]; intros s k Hk Hf Ht; [exfalso; lia|]. simpl.
  apply ends_bind'; [apply ends_call|]. intros r s1 _ Ht1. destruct r as [err|[result tk]]; [|steps].
  destruct (gone && _); [apply ends_ret|]. destruct (negb _); [apply ends_failed|].
  apply ends_bind'; [apply ends_call|]. intros t s2 H2 Ht2. destruct (Z.ltb_spec 6000000 (t - began)); [apply ends_failed|].
  apply ends_bind'; [apply ends_call|]. intros [] s3 H3 Ht3.
  injection H3 as <-. injection H2 as <- <-. simpl in *. rewrite (clock_read _ _ Hc) in *.
  assert (Hs := clock_sleep _ _ Hc 100 (EvClock (time (hist s1)) :: hist s1)). apply (IH _ (k + 1)); simpl; lia.
Qed.
Lemma ends_pull route t b gone s : ends (ctx_pull_page_mode w self route t b gone) s.
Proof.
  assert (Hf : Z.of_nat admit_fuel = 60002) by (by unfold admit_fuel; rewrite Z2Nat.id).
  unfold ctx_pull_page_mode. revert Hf. generalize admit_fuel. intros fuel Hf. apply ends_bind'; [apply ends_call|]. intros began s1 H1 Ht1. injection H1 as <- <-. simpl.
  destruct (negb route); [apply ends_ret|]. apply ends_bind.
  - apply (ends_admit _ _ _ _ _ 0); [lia|lia|]. simpl.
    rewrite (clock_read _ _ Hc). pose proof (clock_mono _ _ Hc (EvClock (time (hist s))) (hist s)). lia.
  - intros a s2. cbv zeta. unfold recall. go.
Qed.
End ends.

(** ** A run
    The other machine answers every request with the page; the record gives
    every page to it. *)
Definition demo_target : vmr_mm_binding := mk_binding 7 9 3 1.
Definition demo_sends (h : history) : list vmr_pgreq := omap (fun e => match e with EvSend _ q _ => Some q | _ => None end) (rev h).
Definition demo_replies (h : history) : nat := length (omap (fun e => match e with EvReply fd _ => Some fd | _ => None end) h).
Definition demo_time (h : history) : Z := foldr (fun e t => match e with EvSleep us => Z.max 0 us + t | _ => t end) 0 h.
Definition demo_reply (status : Z) (h : history) : option vmr_pgrsp :=
  q ← demo_sends h !! demo_replies h;
  Some (mk_pgrsp VMR_PG_MAGIC status 5 0 (pq_target q) (pq_addr q) (pq_op q) 0).
Definition demo_recall (h : history) (op : Z) : Z + Z * Z :=
  if op =? VMCTX_RECALL_BEGIN then inr (0, 100 + Z.of_nat (length h)) else if op =? VMCTX_RECALL_COMMIT then inr (VMR_PG_SIZE, 0) else inr (0, 0).
Definition demo_world : world :=
  mk_world (fun _ => Some demo_target) (fun _ => Some 5) (fun _ _ _ => true) (fun h _ => demo_reply 0 h) (fun _ _ => Some (replicate 4096 7))
    (fun _ _ => Some (PG_THEIRS, 1)) (fun _ _ _ _ => true) (fun _ _ => 0) (fun _ _ _ _ _ => VMR_PG_SIZE)
    (fun h _ op _ _ _ => demo_recall h op) demo_time (fun _ => true) (fun _ => mk_relro [] 0) (fun _ _ => false) (fun _ => false).
(** the thread in the middle of a sequential run *)
Definition demo_mon : mon := mk_mon [] (Some 5) 0 None no_binding [] [] 0x5000 1 1000 16 0.
Definition demo_fault : vmctx_event := mk_event true 0x5123 0 0 PG_THEIRS VMCTX_PGC_VALID.
Definition action_of (r : result outcome) : option Z := match r with Ok o => Some (oc_action o) | _ => None end.
Lemma demo_clock : clock demo_world demo_time.
Proof. split; [done| |]; intros; simpl; [|lia]. destruct e; simpl; lia. Qed.
Lemma demo_quiet T : T = ∅ -> quiet T demo_mon.
Proof. by intros ->. Qed.
(** two pages of readahead and the faulting page, one round trip *)
Example demo_run : let r := ctx_monitor demo_world 500 42 [demo_fault] demo_mon in
  r.1 = Ok () /\ open_tickets (hist r.2) = ∅ /\
  omap (fun e => match e with EvRecall a op _ _ _ _ => Some (a, op) | EvLand a _ _ _ _ => Some (a, -1) | EvResume act _ => Some (act, -2) | _ => None end) (rev (hist r.2)) =
    [(0x6000, 0); (0x7000, 0); (0x5000, -1); (0x6000, 1); (0x7000, 1); (VMCTX_ACT_DONE, -2)].
Proof. by vm_compute. Qed.

(** ** The properties *)


(** C14: the service leaves no transfer half open.  Whatever the kernel and the
    other machine answer, every admission the readahead opens is committed with
    received bytes or cancelled before any context runs on, over any number of
    faults; and a fetch for a call that returns has closed its own admission, by a
    commit that the kernel accepted when it says 1.  A commit counts as closing an
    admission only when the kernel took the whole page, a cancellation only when
    the kernel did it or found the ticket stale: after any other answer no
    context runs on. *)
Theorem recall_tickets_settled (w : world) (ra_min_rtt_us self : Z) (T : gmultiset Z) (s : mon) (Hq : quiet T s) :
  (forall events, let r := ctx_monitor w ra_min_rtt_us self events s in
     grown (turn_event T) (hist s) (hist r.2) /\ (r.1 = Ok () -> quiet T r.2)) /\
  (forall route target base gone, page_base base = base ->
     let r := ctx_pull_page_mode w self route target base gone s in
     grown (turn_event T) (hist s) (hist r.2) /\
     (forall z, r.1 = Ok z -> quiet T r.2 /\ exists new, hist r.2 = new ++ hist s /\ pull_shown route base gone z new)).
Proof.
  split.
  - intros events. destruct (monitor_safe w ra_min_rtt_us self T events (fun _ s' => quiet T s') s Hq) as [Hg HQ]; [done|].
    split; [done|]. intros Hr. by rewrite Hr in HQ.
  - intros route target base gone Hb. cbv zeta.
    destruct (pull_safe w self target base T route gone Hb (fun z s' => quiet T s' /\ exists new, hist s' = new ++ hist s /\ pull_shown route base gone z new) s Hq) as [Hg HQ]; [auto|].
    split; [eapply grown_impl; [|exact Hg]; intros h e; apply allowed_turn|]. intros z Hr. by rewrite Hr in HQ.
Qed.
Lemma recall_tickets_settled_witness :
  quiet ∅ (ctx_monitor demo_world 500 42 [demo_fault; demo_fault] demo_mon).2 /\
  (ctx_pull_page_mode demo_world 42 true demo_target 0x8000 false demo_mon).1 = Ok 1.
Proof.
  assert (Hr : (ctx_monitor demo_world 500 42 [demo_fault; demo_fault] demo_mon).1 = Ok ()) by (by vm_compute).
  split; [|by vm_compute].
  exact (proj2 (proj1 (recall_tickets_settled demo_world 500 42 ∅ demo_mon (demo_quiet ∅ eq_refl)) [demo_fault; demo_fault]) Hr).
Defined.

(** C33: every wait of the service ends by itself.  With a clock that does not go
    back and sleeps that last as long as asked, the service of any sequence of
    faults, and the fetch of a page for a call, return or give the process up,
    whatever the kernel and the other machine answer: the wait for a page on its
    way takes at most 3002 turns and the wait for an admission at most 60002. *)
Theorem fault_service_ends (w : world) (ra_min_rtt_us self : Z) (time : history -> Z) (Hc : clock w time) (s : mon) :
  (forall events, Traces.ends hist time (ctx_monitor w ra_min_rtt_us self events) s) /\
  (forall route target base gone, Traces.ends hist time (ctx_pull_page_mode w self route target base gone) s).
Proof. split; intros; [by apply ends_monitor|by apply ends_pull]. Qed.
(** the page is always on its way: 3001 looks, then 30 more tries, then the kill *)
Definition busy_world : world :=
  mk_world (fun _ => Some demo_target) (fun _ => Some 5) (fun _ _ _ => true) (fun h _ => demo_reply VMR_PG_INFLIGHT h) (fun _ _ => Some (replicate 4096 0))
    (fun _ _ => Some (PG_INTRANSIT, 1)) (fun _ _ _ _ => true) (fun _ _ => 0) (fun _ _ _ _ _ => VMR_PG_SIZE)
    (fun h _ op _ _ _ => inl EAGAIN) demo_time (fun _ => true) (fun _ => mk_relro [] 0) (fun _ _ => false) (fun _ => false).
Lemma busy_clock : clock busy_world demo_time.
Proof. split; [done| |]; intros; simpl; [|lia]. destruct e; simpl; lia. Qed.
Lemma fault_service_ends_witness : Traces.ends hist demo_time (ctx_monitor demo_world 500 42 [demo_fault]) demo_mon /\ Traces.ends hist demo_time (ctx_pull_page_mode busy_world 42 true demo_target 0x8000 false) demo_mon.
Proof.
  split; [exact (proj1 (fault_service_ends demo_world 500 42 demo_time demo_clock demo_mon) [demo_fault])|].
  exact (proj2 (fault_service_ends busy_world 500 42 demo_time busy_clock demo_mon) true demo_target 0x8000 false).
Defined.

(** A transfer that outlasts the 4000 looks and then settles at the other machine:
    the record says so, the claim is taken, the channel is down, and the context is
    told to fill the page itself. *)
Definition late_world : world :=
  mk_world (fun _ => Some demo_target) (fun _ => None) (fun _ _ _ => false) (fun _ _ => None) (fun _ _ => None)
    (fun h _ => Some (if Z.of_nat (length h) <? 8000 then PG_INTRANSIT else PG_THEIRS, 1)) (fun _ _ _ _ => true) (fun _ _ => 0) (fun _ _ _ _ _ => VMR_PG_SIZE)
    (fun h _ op _ _ _ => inl EAGAIN) demo_time (fun _ => true) (fun _ => mk_relro [] 0) (fun _ _ => false) (fun _ => false).
Lemma timed_out_wait_invents_page :
  let r := serve_fault late_world 500 42 (mk_event true 0x5123 0 0 PG_INTRANSIT VMCTX_PGC_VALID) 0x5000 demo_target
             (mk_mon [] None 0 None no_binding [] [] 0 0 0 0 0) in
  action_of r.1 = Some VMCTX_ACT_SELF /\
  w_state late_world (hist r.2) 0x5000 = Some (PG_THEIRS, 1).
Proof. by vm_compute. Qed.
End SourceFault.
