(* ===== verification/PageTake.v ===== *)
(** * Moving a page out of the executor (user/vmremote.c, page_take_mode)

    A guest address space is one backing object mapped into several contexts.
    [page_take_mode] takes a page out of all of them, for a hand-over to the
    source ([page_take_away]) or to be written straight back
    ([page_make_writable]); [page_protect_read] freezes it for a shared copy.

    The memory they act on is modelled with the operations of the control device
    (VMCTX_CTL_TAKEOBJ, TAKE, PROTECTOBJ, MAPOBJ, and writing a context's memory)
    and of the object's file; the kernel may refuse any of them, and before each
    the guest's threads run.  The object keeps, beside its bytes, what the
    program last stored to each of its pages, which nothing the executor does
    changes, so that a lost store can be stated.  The take generations and the watch marks are the calls to Retain.v and Loans.v,
    kept in the order they are made.  Diagnostics are left out. *)
From S2P Require Import Prelude Native.
Open Scope Z_scope.

Module PageTake.

Abbreviation bytes := (list Z).
Definition VMR_PG_SIZE : Z := 4096.
Definition VMR_TAKE_STUCK : nat := Z.to_nat 500.
Definition TAKE_TRIES : nat := Z.to_nat 1000.
Definition hole : bytes := replicate 4096 0.

(** ** Memory *)
Record guest_memory := mk_memory {
  obj : gmap (Z * Z) bytes;       (* (object, page): the page in a backing object *)
  pte : gmap (Z * Z) bool;        (* (context, page): the object's page, mapped; may it be written *)
  anon : gmap (Z * Z) bytes;      (* (context, page): a private page *)
  stored : gmap (Z * Z) bytes }.  (* (object, page): what the program last stored there *)

Inductive kop := KTakeObj | KTake | KProtect | KMap | KPoke | KPunch | KRead.
#[global] Instance kop_eq_dec : EqDecision kop.
Proof. solve_decision. Defined.
(** the target is a context, or an object for its file *)
Inductive event :=
| EvCall (op : kop) (target : Z) (r : Z + Z * bytes)   (* errno, or the result and the bytes *)
| EvPresent (ctx : Z) (r : bool)
| EvBump                                               (* pgen_bump *)
| EvWatch (on : bool).                                 (* page_watch_set *)
#[global] Instance event_eq_dec : EqDecision event.
Proof. solve_decision. Defined.
Abbreviation history := (list event).

Record world := mk_world {
  w_env : history -> guest_memory -> guest_memory;       (* what the guest's threads do meanwhile *)
  w_refuse : history -> kop -> Z -> option Z;
  w_members : history -> list Z;             (* members_of *)
  object : Z -> option Z;                    (* backing_find *)
  vma : Z -> Z -> bool }.                    (* the context maps its object there *)
Record thread := mk_thread { mem : guest_memory; hist : history }.
Definition set_mem (m : guest_memory) (s : thread) : thread := mk_thread m (hist s).

Section ops.
Context (w : world) (page : Z).

(** the context maps the object [o] *)
Definition on (o : Z) (c : Z) : bool := bool_decide (object w c = Some o).
Definition unmapped (o : Z) (m : guest_memory) : gmap (Z * Z) bool :=
  filter (fun x => ~ (x.1.2 = page /\ object w x.1.1 = Some o)) (pte m).
Definition mappers (o : Z) (m : guest_memory) : nat :=
  size (filter (fun x => x.1.2 = page /\ object w x.1.1 = Some o) (pte m)).
Definition out_of_object (o : Z) (m : guest_memory) : guest_memory :=
  mk_memory (delete (o, page) (obj m)) (unmapped o m) (anon m) (stored m).

Definition kernel (op : kop) (t : Z) (data : bytes) (m : guest_memory) : (Z + Z * bytes) * guest_memory :=
  match op with
  | KTakeObj =>
      match object w t with
      | Some o =>
          if negb (vma w t page) then (inl ENOENT, m)
          else match obj m !! (o, page) with
               | Some b => (inr (VMR_PG_SIZE, b), out_of_object o m)
               | None => (inr (0, []), m)
               end
      | None => (inl ENOENT, m)
      end
  | KTake =>
      match anon m !! (t, page) with
      | Some b => (inr (VMR_PG_SIZE, b), mk_memory (obj m) (pte m) (delete (t, page) (anon m)) (stored m))
      | None =>
          match pte m !! (t, page), object w t with
          | Some _, Some o =>
              match obj m !! (o, page) with
              | Some b =>
                  if 1 <? Z.of_nat (mappers o m) then (inl EBUSY, m)
                  else (inr (VMR_PG_SIZE, b), mk_memory (obj m) (delete (t, page) (pte m)) (anon m) (stored m))
              | None => (inr (0, []), m)
              end
          | _, _ => (inr (0, []), m)
          end
      end
  | KProtect =>
      match object w t with
      | Some o =>
          if negb (vma w t page) then (inl ENOENT, m)
          else match obj m !! (o, page) with
               | Some b =>
                   (inr (VMR_PG_SIZE, b),
                    mk_memory (obj m) (map_imap (fun k v => Some (if bool_decide (k.2 = page /\ object w k.1 = Some o) then false else v)) (pte m))
                      (anon m) (stored m))
               | None => (inr (0, []), m)
               end
      | None => (inl ENOENT, m)
      end
  | KMap =>
      match object w t with
      | Some o =>
          if negb (vma w t page) then (inl ENOENT, m)
          else match obj m !! (o, page) with
               | Some _ => (inr (VMR_PG_SIZE, []), mk_memory (obj m) (<[(t, page) := true]> (pte m)) (anon m) (stored m))
               | None => (inr (0, []), m)
               end
      | None => (inl ENOENT, m)
      end
  | KPoke =>
      match object w t with
      | Some o =>
          if negb (vma w t page) then (inr (VMR_PG_SIZE, []), mk_memory (obj m) (pte m) (<[(t, page) := data]> (anon m)) (stored m))
          else (inr (VMR_PG_SIZE, []),
                mk_memory (<[(o, page) := data]> (obj m)) (<[(t, page) := true]> (pte m)) (anon m) (stored m))
      | None => (inr (VMR_PG_SIZE, []), mk_memory (obj m) (pte m) (<[(t, page) := data]> (anon m)) (stored m))
      end
  | KPunch => (inr (0, []), out_of_object t m)
  | KRead => (inr (VMR_PG_SIZE, default hole (obj m !! (t, page))), m)
  end.
Definition call (op : kop) (t : Z) (data : bytes) : prog thread (Z + Z * bytes) := fun s =>
  let m := w_env w (hist s) (mem s) in
  let x := match w_refuse w (hist s) op t with Some e => (inl e, m) | None => kernel op t data m end in
  (Ok x.1, mk_thread x.2 (EvCall op t x.1 :: hist s)).
Definition note (e : event) : prog thread unit := fun s => (Ok (), mk_thread (mem s) (e :: hist s)).
Definition members_of : prog thread (list Z) := fun s => (Ok (w_members w (hist s)), s).
(** the presence of the page in a context, and in its object *)
Definition page_present (c : Z) : prog thread bool := fun s =>
  let m := w_env w (hist s) (mem s) in
  let r := bool_decide (is_Some (pte m !! (c, page)) \/ is_Some (anon m !! (c, page))) in
  (Ok r, mk_thread m (EvPresent c r :: hist s)).
Definition backing_has (o : Z) : prog thread bool := fun s =>
  let m := w_env w (hist s) (mem s) in (Ok (bool_decide (is_Some (obj m !! (o, page)))), set_mem m s).

(** ** Taking *)
(** [while ((r = ctl(...)) < 0 && errno == EBUSY && busy++ < n) usleep(1000)] *)
Fixpoint patient (n : nat) (op : kop) (c : Z) : prog thread (Z + Z * bytes) :=
  r ← call op c [];
  match r, n with
  | inl e, S n => if e =? EBUSY then patient n op c else mret r
  | _, _ => mret r
  end.
(** what one object-wide attempt decides: taken, not there, or ask on *)
Inductive taken := Took (b : bytes) | Nothing | Unknown.
Definition verdict (r : Z + Z * bytes) : taken :=
  match r with inr (r, b) => if r =? VMR_PG_SIZE then Took b else if r =? 0 then Nothing else Unknown | inl _ => Unknown end.
Fixpoint take_siblings (pid myobj : Z) (l : list Z) : prog thread taken :=
  match l with
  | [] => mret Unknown
  | c :: l =>
      if (c =? pid) || negb (on myobj c) then take_siblings pid myobj l
      else r ← patient TAKE_TRIES KTakeObj c;
           match verdict r with Unknown => take_siblings pid myobj l | v => mret v end
  end.
Definition take_object (pid : Z) : prog thread taken :=
  r ← patient VMR_TAKE_STUCK KTakeObj pid;
  match r with
  | inl e => if e =? EBUSY then stop Aborted
             else l ← members_of;
                  match object w pid with Some o => take_siblings pid o l | None => mret Unknown end
  | inr _ => match verdict r with
             | Unknown => l ← members_of;
                          match object w pid with Some o => take_siblings pid o l | None => mret Unknown end
             | v => mret v
             end
  end.
(** one context at a time; the bytes of the last that had it *)
Fixpoint take_each (l : list Z) (buf : option bytes) : prog thread (option bytes) :=
  match l with
  | [] => mret buf
  | c :: l =>
      r ← patient TAKE_TRIES KTake c;
      take_each l (match r with inr (r, b) => if r =? VMR_PG_SIZE then Some b else buf | inl _ => buf end)
  end.
Definition read_object (pid : Z) : prog thread (option bytes) :=
  match object w pid with
  | None => mret None
  | Some o =>
      has ← backing_has o;
      if negb (has : bool) then mret None
      else r ← call KRead o [];
           mret (match r with inr (r, b) => if r =? VMR_PG_SIZE then Some b else None | inl _ => None end)
  end.
Definition punch_object (pid : Z) : prog thread unit :=
  match object w pid with
  | None => mret ()
  | Some o => r ← call KPunch o []; let _ : Z + Z * bytes := r in mret ()
  end.
(** [Some bytes] is 1 with the buffer, [None] is 0 *)
Definition take_by_pieces (pid : Z) (away punch : bool) : prog thread (option bytes) :=
  l ← members_of;
  b ← take_each l None;
  b ← (match b with None => if away then read_object pid else mret None | Some _ => mret b end);
  match b with
  | Some _ => (if punch then punch_object pid else mret ()) ;; mret b
  | None => mret None
  end.
Definition page_take_mode (pid : Z) (away punch : bool) : prog thread (option bytes) :=
  v ← (if away then take_object pid else mret Unknown);
  match v with
  | Nothing => mret None
  | Took b => note EvBump ;; mret (Some b)
  | Unknown =>
      b ← take_by_pieces pid away punch;
      match b with Some b => note EvBump ;; mret (Some b) | None => mret None end
  end.
Definition page_take_away (pid : Z) : prog thread (option bytes) := page_take_mode pid true true.

(** ** Freezing *)
Fixpoint protect_each (l : list Z) (r : Z + Z * bytes) : prog thread (Z + Z * bytes) :=
  match l with
  | [] => mret r
  | c :: l =>
      r ← call KProtect c [];
      match r with
      | inl e => if (e =? ENOENT) || (e =? ESRCH) then protect_each l r else mret r
      | inr _ => mret r
      end
  end.
Definition page_protect_read : prog thread (option bytes) :=
  l ← members_of;
  r ← protect_each l (inl ENOENT);
  match r with
  | inr (r, b) => if r =? VMR_PG_SIZE then note (EvWatch true) ;; mret (Some b) else mret None
  | inl _ => mret None
  end.

(** ** Granting the write *)
Definition poke (pid : Z) (b : bytes) : prog thread bool :=
  r ← call KPoke pid b;
  mret (match r with inr (r, _) => r =? VMR_PG_SIZE | inl _ => false end).
Definition page_make_writable (pid : Z) : prog thread bool :=
  here ← page_present pid;
  mapped ← (if here : bool then
              r ← call KMap pid [];
              mret (match r with inr (r, _) => r =? VMR_PG_SIZE | inl _ => false end)
            else mret false);
  if mapped : bool then note (EvWatch false) ;; note EvBump ;; mret true
  else
    b ← page_take_mode pid true false;
    match b with
    | None => mret false
    | Some b =>
        ok ← poke pid b;
        if ok : bool then note (EvWatch false) ;; mret true else mret false
    end.
End ops.

#[global] Arguments VMR_TAKE_STUCK : simpl never.
#[global] Arguments TAKE_TRIES : simpl never.
#[global] Opaque VMR_TAKE_STUCK TAKE_TRIES.

(** ** What stays true of the page *)
Section page.
Context (w : world) (page : Z).
(** A page of an object holds what was last stored to it, and a context maps only
    a page its object holds. *)
Record mem_ok (m : guest_memory) : Prop := {
  ok_stored : forall o b, obj m !! (o, page) = Some b -> stored m !! (o, page) = Some b;
  ok_pte : forall c x, pte m !! (c, page) = Some x -> exists o, object w c = Some o /\ is_Some (obj m !! (o, page)) }.
(** The guest's threads store to what the object has, and may have a page back
    that was taken. *)
Definition guest_ok : Prop := forall h m, mem_ok m -> mem_ok (w_env w h m).
(** They get no private page by themselves: a fault for one goes to the
    executor. *)
Definition private_served : Prop := forall h m c, anon m !! (c, page) = None -> anon (w_env w h m) !! (c, page) = None.
Definition gone (o : Z) (m : guest_memory) : Prop := obj m !! (o, page) = None.
Lemma gone_unmapped o m c : mem_ok m -> gone o m -> object w c = Some o -> pte m !! (c, page) = None.
Proof.
  intros Hok Hg Hc. destruct (pte m !! (c, page)) as [x|] eqn:Hp; [|done].
  destruct (ok_pte m Hok _ _ Hp) as (o' & Ho' & [b Hb]). unfold gone in Hg. congruence.
Qed.

(** ** The calls *)
Lemma out_ok o m : mem_ok m -> mem_ok (out_of_object w page o m) /\ gone o (out_of_object w page o m).
Proof.
  intros [H1 H2]. split; [|unfold gone; simpl; by rewrite lookup_delete_eq]. split; simpl.
  - intros o' b [_ Hb]%lookup_delete_Some. auto.
  - intros c x [Hp Hn]%map_lookup_filter_Some. simpl in *. destruct (H2 _ _ Hp) as (o' & Ho' & Hs). exists o'. split; [done|].
    rewrite lookup_delete_ne; [done|]. intros [= ->]. naive_solver.
Qed.
Lemma kernel_ok op t data m : mem_ok m -> op <> KPoke ->
  let x := kernel w page op t data m in mem_ok x.2 /\ forall c, anon m !! (c, page) = None -> anon x.2 !! (c, page) = None.
Proof.
  intros Hok Hop. destruct op; simpl; try done.
  - destruct (object w t) as [o|]; [|done]. destruct (vma w t page); simpl; [|done].
    destruct (obj m !! (o, page)); simpl; [|done]. split; [by apply out_ok|done].
  - destruct (anon m !! (t, page)); simpl.
    { split; [by destruct Hok|]. intros c Hc. apply lookup_delete_None. by right. }
    destruct (pte m !! (t, page)); simpl; [|done].
    destruct (object w t) as [o|]; simpl; [|done]. destruct (obj m !! (o, page)); simpl; [|done]. destruct (1 <? _); simpl; [done|].
    split; [|done]. destruct Hok as [H1 H2]. split; [done|]. simpl. intros c x [_ ?]%lookup_delete_Some. eauto.
  - destruct (object w t) as [o|]; [|done]. destruct (vma w t page); simpl; [|done].
    destruct (obj m !! (o, page)); simpl; [|done]. split; [|done]. destruct Hok as [H1 H2]. split; [done|]. simpl.
    intros c x. rewrite map_lookup_imap. destruct (pte m !! (c, page)) eqn:Hp; [|done]. eauto.
  - destruct (object w t) as [o|] eqn:Ht; [|done]. destruct (vma w t page); simpl; [|done].
    destruct (obj m !! (o, page)) eqn:Ho; simpl; [|done]. split; [|done]. destruct Hok as [H1 H2]. split; [done|]. simpl.
    intros c x. destruct (decide (c = t)) as [->|]; [|rewrite lookup_insert_ne by congruence; eauto].
    intros _. exists o. rewrite Ho. eauto.
  - split; [by apply out_ok|done].
Qed.
End page.

(** ** Programs
    [step m Q s]: the program returns, or ends the process where a context is
    still busy after every try of an object-wide take; the page stays coherent,
    and [Q] holds of the result and of what was added to the history. *)
Definition stuck (s : thread) : Prop := exists c, hd_error (hist s) = Some (EvCall KTakeObj c (inl EBUSY)).
Section steps.
Context (w : world) (page : Z) (Hguest : guest_ok w page).
Abbreviation ok m := (mem_ok w page m).
Abbreviation gone := (gone page).
Definition step {A} (m : prog thread A) (Q : A -> history -> thread -> Prop) (s : thread) : Prop :=
  match m s with
  | (Ok a, s') => ok (mem s') /\ exists new, hist s' = new ++ hist s /\ Q a new s'
  | (Aborted, s') => stuck s'
  | _ => False
  end.
Lemma step_ret {A} (a : A) Q s : ok (mem s) -> Q a [] s -> step (mret a) Q s.
Proof. intros Hok HQ. split; [done|]. by exists []. Qed.
Lemma step_bind {A B} (m : prog thread A) (k : A -> prog thread B) Q s :
  step m (fun a new s' => ok (mem s') -> step (k a) (fun b new' => Q b (new' ++ new)) s') s -> step (m ≫= k) Q s.
Proof.
  unfold step, mbind, prog_bind. destruct (m s) as [[a| | | |] s1]; try done. intros (Hok & new & Hh & Hk). specialize (Hk Hok).
  destruct (k a s1) as [[b| | | |] s2]; try done. destruct Hk as (Hok2 & new' & Hh' & HQ). split; [done|].
  exists (new' ++ new). rewrite Hh', Hh, app_assoc. done.
Qed.
Lemma step_mono {A} (m : prog thread A) (Q Q' : A -> history -> thread -> Prop) s :
  step m Q s -> (forall a new s', ok (mem s') -> Q a new s' -> Q' a new s') -> step m Q' s.
Proof.
  unfold step. destruct (m s) as [[a| | | |] s']; try done. intros (Hok & new & Hh & HQ) H. split; [done|]. exists new. auto.
Qed.
Lemma step_note e (Q : unit -> history -> thread -> Prop) s :
  ok (mem s) -> Q () [e] (mk_thread (mem s) (e :: hist s)) -> step (note e) Q s.
Proof. intros Hok HQ. split; [done|]. by exists [e]. Qed.
Lemma step_members (Q : list Z -> history -> thread -> Prop) s : ok (mem s) -> Q (w_members w (hist s)) [] s -> step (members_of w) Q s.
Proof. intros Hok HQ. split; [done|]. by exists []. Qed.

(** no private page comes back *)
Definition kept (s s' : thread) : Prop :=
  private_served w page -> forall c, anon (mem s) !! (c, page) = None -> anon (mem s') !! (c, page) = None.
Lemma kept_refl s : kept s s.
Proof. by intros ?. Qed.
Lemma take_kept_trans s1 s2 s3 : kept s1 s2 -> kept s2 s3 -> kept s1 s3.
Proof. intros H1 H2 Hp c Hc. auto. Qed.
(** a call: what the kernel answered, in the memory it found *)
Lemma step_call op t data (Q : Z + Z * bytes -> history -> thread -> Prop) s : op <> KPoke -> ok (mem s) ->
  (forall r m s', ok m -> kept s s' -> (r, mem s') = kernel w page op t data m \/ ((exists e, r = inl e) /\ mem s' = m) ->
     hist s' = EvCall op t r :: hist s -> Q r [EvCall op t r] s') -> step (call w page op t data) Q s.
Proof.
  intros Hop Hok HQ. unfold step, call. pose proof (Hguest (hist s) (mem s) Hok) as Hok1.
  assert (Hpriv : private_served w page -> forall c, anon (mem s) !! (c, page) = None -> anon (w_env w (hist s) (mem s)) !! (c, page) = None) by auto.
  set (m := w_env w (hist s) (mem s)) in *. destruct (kernel_ok w page op t data m Hok1 Hop) as [Hok2 Hq2].
  destruct (w_refuse w (hist s) op t) as [e|]; simpl.
  - split; [done|]. eexists [_]. split; [done|]. apply (HQ _ m); [done|exact Hpriv|by eauto|done].
  - split; [done|]. eexists [_]. split; [done|]. apply (HQ _ m); [done| |left; by destruct (kernel w page op t data m)|done].
    intros Hp c Hc. simpl. auto.
Qed.
Lemma step_present c (Q : bool -> history -> thread -> Prop) s : ok (mem s) ->
  (forall b s', kept s s' -> Q b [EvPresent c b] s') -> step (page_present w page c) Q s.
Proof.
  intros Hok HQ. split; [by apply Hguest|]. eexists [_]. split; [done|]. apply HQ. intros Hp c' Hc. by apply Hp.
Qed.
Lemma step_has o (Q : bool -> history -> thread -> Prop) s : ok (mem s) ->
  (forall b s', kept s s' -> Q b [] s') -> step (backing_has w page o) Q s.
Proof.
  intros Hok HQ. split; [by apply Hguest|]. exists []. split; [done|]. apply HQ. intros Hp c' Hc. by apply Hp.
Qed.

(** *** Object-wide takes *)
Definition by_object (e : event) : Prop := match e with EvCall KTakeObj _ (inr (r, _)) => r = VMR_PG_SIZE | _ => False end.
#[global] Instance by_object_dec e : Decision (by_object e).
Proof. destruct e as [[] ? [|[]]| | |]; simpl; apply _. Defined.
Definition no_punch (e : event) : Prop := match e with EvCall KPunch _ (inl _) => False | _ => True end.
(** neither the generation nor the watch *)
Definition silent (e : event) : Prop := match e with EvBump | EvWatch _ => False | _ => True end.
Definition answered (op : kop) (c : Z) (e : event) : Prop := exists r, e = EvCall op c (inr r).
Definition refused (op : kop) (c : Z) (e : event) : Prop := exists r, e = EvCall op c (inl r).
(** a call that gave the page's bytes *)
Definition gives (b : bytes) (e : event) : Prop :=
  match e with EvCall (KTakeObj | KTake | KRead) _ (inr (r, b')) => r = VMR_PG_SIZE /\ b' = b | _ => False end.
Definition barren (new : history) : Prop := Forall (fun e => forall b, ~ gives b e) new.
(** the first call was an object-wide take of the context *)
Definition tried (pid : Z) (new : history) : Prop := exists r, last new = Some (EvCall KTakeObj pid r).
Lemma tried_app pid n1 n2 : tried pid n1 -> tried pid (n2 ++ n1).
Proof. intros [r Hr]. exists r. by rewrite last_app, Hr. Qed.
Lemma tried_calls pid r rest : Forall (refused KTakeObj pid) rest -> tried pid (EvCall KTakeObj pid r :: rest).
Proof.
  intros Hf. unfold tried. rewrite last_cons. destruct (last rest) as [e|] eqn:He; [|by exists r].
  apply last_Some_elem_of in He. rewrite Forall_forall in Hf. destruct (Hf e He) as [x ->]. by exists (inl x).
Qed.
Lemma barren_calls op c r rest : (forall b, r <> inr (VMR_PG_SIZE, b)) -> Forall (refused op c) rest -> barren (EvCall op c r :: rest).
Proof.
  intros Hr Hf. constructor.
  - intros b. destruct r as [e|[r b']]; [destruct op; simpl; tauto|]. destruct op; simpl; try tauto; intros [-> _]; by destruct (Hr b').
  - eapply Forall_impl; [exact Hf|]. intros e (x & ->) b. destruct op; simpl; tauto.
Qed.
Lemma takeobj_took o c m b m' : object w c = Some o -> ok m -> kernel w page KTakeObj c [] m = (inr (VMR_PG_SIZE, b), m') ->
  gone o m' /\ stored m' !! (o, page) = Some b.
Proof.
  simpl. intros -> Hok. destruct (vma w c page); simpl; [|done]. destruct (obj m !! (o, page)) eqn:Ho; [|done]. intros [= <- <-].
  split; [by apply out_ok|]. simpl. by apply (ok_stored _ _ _ Hok).
Qed.
(** a context whose take was not refused has no private page *)
Lemma take_private c m r m' : kernel w page KTake c [] m = (inr r, m') -> anon m' !! (c, page) = None.
Proof.
  simpl. destruct (anon m !! (c, page)) eqn:Ha; [intros [= _ <-]; simpl; apply lookup_delete_eq|].
  destruct (pte m !! (c, page)); [|by intros [= _ <-]]. destruct (object w c) as [o|]; [|by intros [= _ <-]].
  destruct (obj m !! (o, page)); [|by intros [= _ <-]]. destruct (1 <? _); [done|]. by intros [= _ <-].
Qed.
(** the answer of a patient call is that of its last try; the tries before it were
    refused *)
Lemma step_patient n op c (Q : Z + Z * bytes -> history -> thread -> Prop) s : op <> KPoke -> ok (mem s) ->
  (forall r m s' rest, ok m -> kept s s' -> (r, mem s') = kernel w page op c [] m \/ ((exists e, r = inl e) /\ mem s' = m) ->
     hd_error (hist s') = Some (EvCall op c r) -> Forall (refused op c) rest -> Q r (EvCall op c r :: rest) s') ->
  step (patient w page n op c) Q s.
Proof.
  intros Hop. revert Q s. induction n as [|n IH]; intros Q s Hok HQ; simpl; apply step_bind;
    (apply step_call; [done|done|]); intros r m s1 Hm Hk1 Hr Hh Hok1.
  - destruct r; (apply step_ret; [done|]; simpl; apply (HQ _ m); [done|done|done|by rewrite Hh|constructor]).
  - assert (Hdone : step (mret r) (fun b new' => Q b (new' ++ [EvCall op c r])) s1).
    { apply step_ret; [done|]. simpl. apply (HQ _ m); [done|done|done|by rewrite Hh|constructor]. }
    destruct r as [e|]; [|done]. destruct (e =? EBUSY); [|done].
    apply IH; [done|]. intros r' m' s' rest Hm' Hk' Hr' Hh' Hf. apply (HQ _ m'); [done|by eapply take_kept_trans|done|done|].
    apply Forall_app. split; [done|]. constructor; [by eexists|constructor].
Qed.
End steps.

Section takes.
Context (w : world) (page : Z) (Hguest : guest_ok w page).
Abbreviation ok m := (mem_ok w page m).
Abbreviation gone := (gone page).
Abbreviation step := (step w page).
Abbreviation kept := (kept w page).
(** events that neither punch in vain nor touch the records *)
Definition calm (new : history) : Prop := Forall no_punch new /\ Forall silent new.
Lemma calm_app n1 n2 : calm n1 -> calm n2 -> calm (n1 ++ n2).
Proof. intros [? ?] [? ?]. by split; apply Forall_app. Qed.
Lemma calm_calls op c r rest : op <> KPunch -> Forall (refused op c) rest -> calm (EvCall op c r :: rest).
Proof.
  intros Hop Hf. split; (constructor; [by destruct op|]); (eapply Forall_impl; [exact Hf|]); intros e (r' & ->); [by destruct op|done].
Qed.
Lemma quiet_calls op c r rest : (forall b, r <> inr (VMR_PG_SIZE, b)) \/ op <> KTakeObj ->
  Forall (refused op c) rest -> Forall (fun e => ~ by_object e) (EvCall op c r :: rest).
Proof.
  intros Hop Hf. constructor.
  - destruct op; try (simpl; tauto). destruct r as [|[r b]]; simpl; [tauto|]. intros ->. destruct Hop as [Hop|]; [|done]. by destruct (Hop b).
  - eapply Forall_impl; [exact Hf|]. intros e (r' & ->). destruct op; simpl; tauto.
Qed.
Local Hint Resolve calm_app : core.

(** an object-wide answer *)
Definition object_answer (pid : Z) (v : taken) (new : history) (s s' : thread) : Prop :=
  kept s s' /\ calm new /\
  match v with
  | Took b => Exists by_object new /\ Exists (gives b) new /\ forall o, object w pid = Some o -> gone o (mem s') /\ stored (mem s') !! (o, page) = Some b
  | Nothing => barren new
  | Unknown => Forall (fun e => ~ by_object e) new /\ barren new
  end.
Lemma object_answer_app pid v n1 n2 s1 s2 s3 : kept s1 s2 -> calm n1 -> Forall (fun e => ~ by_object e) n1 /\ barren n1 ->
  object_answer pid v n2 s2 s3 -> object_answer pid v (n2 ++ n1) s1 s3.
Proof.
  intros Hk Hc [Hb Hn] (Hk2 & Hc2 & Hv). split; [by eapply take_kept_trans|]. split; [auto|].
  destruct v; [|by apply Forall_app|split; apply Forall_app; naive_solver].
  destruct Hv as (He & Hg & ?). split; [apply Exists_app; by left|]. split; [apply Exists_app; by left|done].
Qed.
Lemma verdict_cases r : match verdict r with
  | Took b => r = inr (VMR_PG_SIZE, b) | _ => forall b, r <> inr (VMR_PG_SIZE, b) end.
Proof.
  destruct r as [e|[r b]]; simpl; [done|]. destruct (Z.eqb_spec r VMR_PG_SIZE) as [->|]; [done|].
  destruct (r =? 0); naive_solver.
Qed.
(** one patient object-wide take of a context on the object of [pid] *)
Lemma try_object n pid c (Q : Z + Z * bytes -> history -> thread -> Prop) s : object w c = object w pid -> ok (mem s) ->
  (forall r new s', object_answer pid (verdict r) new s s' -> hd_error (hist s') = Some (EvCall KTakeObj c r) -> tried c new -> Q r new s') ->
  step (patient w page n KTakeObj c) Q s.
Proof.
  intros Hobj Hok HQ. apply step_patient; [done|done|done|]. intros r m s' rest Hm Hk Hr Hh Hf. apply HQ; [|done|by apply tried_calls].
  pose proof (verdict_cases r) as Hv. split; [done|]. split; [by apply calm_calls|].
  destruct (verdict r); [|by apply barren_calls|split; [by apply quiet_calls; [left|]|by apply barren_calls]].
  subst r. split; [by left|]. split; [by left|]. intros o Ho. destruct Hr as [Hr|[[e ?] _]]; [|done]. apply (takeobj_took w page o c m b); [congruence|done|done].
Qed.
Lemma siblings_ok pid o l (Q : taken -> history -> thread -> Prop) s : object w pid = Some o -> ok (mem s) ->
  (forall v new s', object_answer pid v new s s' -> Q v new s') -> step (take_siblings w page pid o l) Q s.
Proof.
  intros Hpid. revert Q s. induction l as [|c l IH]; intros Q s Hok HQ; simpl.
  { apply step_ret; [done|]. apply HQ. split; [apply kept_refl|]. split; split; constructor. }
  destruct (_ || _) eqn:Hskip; [by apply IH|]. apply orb_false_iff in Hskip as [_ Hon%negb_false_iff%bool_decide_eq_true].
  apply step_bind, (try_object _ pid); [congruence|done|]. intros r new s1 Ha _ _ Hok1.
  destruct (verdict r) eqn:Hv; try (apply step_ret; [done|]; by apply HQ).
  apply IH; [done|]. intros v new' s' Hv'. apply HQ. destruct Ha as (? & ? & ?). by eapply object_answer_app.
Qed.
Lemma take_object_ok pid (Q : taken -> history -> thread -> Prop) s : ok (mem s) ->
  (forall v new s', object_answer pid v new s s' -> tried pid new -> Q v new s') -> step (take_object w page pid) Q s.
Proof.
  intros Hok HQ. unfold take_object. generalize VMR_TAKE_STUCK. intros n. apply step_bind, (try_object _ pid); [done|done|]. intros r new s1 Ha Hh Htr Hok1.
  assert (Hon : verdict r = Unknown -> step (l ← members_of w; match object w pid with Some o => take_siblings w page pid o l | None => mret Unknown end)
    (fun v new' => Q v (new' ++ new)) s1).
  { intros Hv. rewrite Hv in Ha. destruct Ha as (Hk & Hc & Hb). apply step_bind, step_members; [done|]. intros _.
    destruct (object w pid) as [o|] eqn:Ho.
    - apply (siblings_ok pid o); [done|done|]. intros v new' s' Hv'. rewrite app_nil_r. apply HQ; [by eapply object_answer_app|by apply tried_app].
    - apply step_ret; [done|]. apply HQ; [split; [done|by split]|done]. }
  destruct r as [e|x].
  { destruct (Z.eqb_spec e EBUSY) as [->|]; [|by apply Hon]. exists pid. exact Hh. }
  destruct (verdict (inr x)) eqn:Hv; [| |by apply Hon]; (apply step_ret; [done|]; by apply HQ).
Qed.

(** *** By pieces *)
Definition pieces (new : history) : Prop := Forall (fun e => ~ by_object e) new /\ Forall silent new.
Lemma pieces_app n1 n2 : pieces n1 -> pieces n2 -> pieces (n1 ++ n2).
Proof. intros [? ?] [? ?]. by split; apply Forall_app. Qed.
Local Hint Resolve pieces_app : core.
Lemma pieces_nil : pieces [].
Proof. split; constructor. Qed.
Local Hint Resolve pieces_nil : core.
Lemma pieces_calls op t r rest : op <> KTakeObj -> Forall (refused op t) rest -> pieces (EvCall op t r :: rest).
Proof.
  intros Hop Hf. split; [by apply quiet_calls; [right|]|]. constructor; [done|]. eapply Forall_impl; [exact Hf|]. by intros e (r' & ->).
Qed.
(** The contexts [l] were asked: whoever was not refused has no private page. *)
Definition asked (l : list Z) (new : history) (s' : thread) : Prop :=
  forall c, c ∈ l -> Exists (refused KTake c) new \/ Exists (answered KTake c) new /\ (private_served w page -> anon (mem s') !! (c, page) = None).
Lemma asked_later l new new' s s' : kept s s' -> asked l new s -> asked l (new' ++ new) s'.
Proof.
  intros Hk H c Hc. destruct (H c Hc) as [Hr|[Ha Hn]]; [left; apply Exists_app; by right|right].
  split; [apply Exists_app; by right|]. intros Hp. by apply Hk, Hn.
Qed.
Lemma take_each_ok l buf (Q : option bytes -> history -> thread -> Prop) s : ok (mem s) ->
  (forall b new s', kept s s' -> pieces new -> asked l new s' ->
     match b with Some x => buf = Some x \/ Exists (gives x) new | None => buf = None /\ barren new end -> Q b new s') -> step (take_each w page l buf) Q s.
Proof.
  revert buf Q s. induction l as [|c l IH]; intros buf Q s Hok HQ; simpl.
  { apply step_ret; [done|]. apply HQ; [apply kept_refl|done|intros c Hc%elem_of_nil; done|]. destruct buf; [by left|]. split; [done|constructor]. }
  apply step_bind, step_patient; [done|done|done|]. intros r m s1 rest Hm Hk Hr Hh Hf Hok1. apply IH; [done|].
  intros b new' s' Hk' Hp Ha Hb. apply HQ; [by eapply take_kept_trans|apply pieces_app; [done|by apply pieces_calls]| |].
  2: { destruct b as [x|].
    - destruct Hb as [Hb|Hb]; [|right; apply Exists_app; by left]. destruct r as [e|[r y]]; [by left|].
      destruct (Z.eqb_spec r VMR_PG_SIZE) as [->|]; [|by left]. injection Hb as ->. right. apply Exists_app. right. by left.
    - destruct Hb as [Hb Hn]. split; [|apply Forall_app; split; [done|]; apply barren_calls; [|done]].
      + destruct r as [e|[r y]]; [done|]. by destruct (r =? VMR_PG_SIZE).
      + intros y ->. by rewrite Z.eqb_refl in Hb. }
  intros x [->|Hx]%elem_of_cons.
  - assert (Hc : asked [c] (EvCall KTake c r :: rest) s1); [|by apply (asked_later [c] _ _ s1 s'); [| |left]].
    intros x ->%list_elem_of_singleton. destruct r as [e|r]; [left; left; by exists e|right]. split; [left; by exists r|]. intros _.
    destruct Hr as [Hr|[[e ?] _]]; [|done]. apply (take_private w page c m r). by symmetry.
  - destruct (Ha x Hx) as [Hr'|[Han Hn]]; [left|right; split; [|done]]; apply Exists_app; by left.
Qed.
Lemma read_object_ok pid (Q : option bytes -> history -> thread -> Prop) s : ok (mem s) ->
  (forall b new s', kept s s' -> pieces new -> match b with Some x => Exists (gives x) new | None => barren new end -> Q b new s') -> step (read_object w page pid) Q s.
Proof.
  intros Hok HQ. unfold read_object. destruct (object w pid) as [o|]; [|apply step_ret; [done|]; apply HQ; [apply kept_refl|done|constructor]].
  apply step_bind, step_has; [done|done|]. intros has s1 Hk1 Hok1. destruct has; simpl; [|apply step_ret; [done|]; apply HQ; [done|done|constructor]].
  apply step_bind, step_call; [done|done|done|]. intros r m s2 Hm Hk2 Hr _ Hok2. apply step_ret; [done|].
  apply HQ; [by eapply take_kept_trans|by apply (pieces_calls KRead)|].
  destruct r as [e|[r b]]; [by apply (barren_calls KRead)|]. destruct (Z.eqb_spec r VMR_PG_SIZE) as [->|Hne]; [by left|].
  apply (barren_calls KRead); [by intros b' [= ? ?]|constructor].
Qed.
Lemma punch_ok pid (Q : unit -> history -> thread -> Prop) s : ok (mem s) ->
  (forall new s', kept s s' -> pieces new -> barren new -> (forall o, object w pid = Some o -> Forall no_punch new -> gone o (mem s')) -> Q () new s') ->
  step (punch_object w page pid) Q s.
Proof.
  intros Hok HQ. unfold punch_object. destruct (object w pid) as [o|] eqn:Ho; [|apply step_ret; [done|]; by apply HQ; [apply kept_refl|done|constructor|]].
  apply step_bind, step_call; [done|done|done|]. intros r m s1 Hm Hk1 Hr _ Hok1. apply step_ret; [done|].
  apply HQ; [done|by apply (pieces_calls KPunch)|constructor; [by intros b []|constructor]|].
  intros o' [= <-] Hn. destruct Hr as [[= _ ->]|[[e ->] _]]; [by apply out_ok|]. by apply Forall_cons in Hn as [[] _].
Qed.

(** ** A take *)
Definition take_spec (pid : Z) (punch : bool) (b : option bytes) (new : history) (s s' : thread) : Prop :=
  tried pid new /\
  match b with
  | Some b =>
      (exists rest, new = EvBump :: rest /\ Forall silent rest) /\ Exists (gives b) new /\
      (forall o, object w pid = Some o ->
        (Exists by_object new -> gone o (mem s') /\ stored (mem s') !! (o, page) = Some b) /\
        (punch = true -> Forall no_punch new -> gone o (mem s'))) /\
      (Forall (fun e => ~ by_object e) new -> exists h1 h2, new = EvBump :: h2 ++ h1 /\ asked (w_members w (h1 ++ hist s)) new s')
  | None => Forall silent new /\ barren new
  end.
Lemma take_by_pieces_ok pid punch (Q : option bytes -> history -> thread -> Prop) s : ok (mem s) ->
  (forall b new s', kept s s' -> pieces new -> asked (w_members w (hist s)) new s' ->
     (forall o, object w pid = Some o -> b <> None -> punch = true -> Forall no_punch new -> gone o (mem s')) ->
     match b with Some x => Exists (gives x) new | None => barren new end -> Q b new s') ->
  step (take_by_pieces w page pid true punch) Q s.
Proof.
  intros Hok HQ. unfold take_by_pieces. apply step_bind, step_members; [done|]. intros _.
  apply step_bind, take_each_ok; [done|]. intros b1 n1 s1 Hk1 Hp1 Ha1 Hb1 Hok1.
  apply step_bind. apply (step_mono _ _ _ (fun b new s' => kept s1 s' /\ pieces new /\ match b with Some x => Exists (gives x) (new ++ n1) | None => barren (new ++ n1) end)).
  { destruct b1; [apply step_ret; [done|]; split; [apply kept_refl|]; split; [done|]; by destruct Hb1|]. destruct Hb1 as [_ Hb1].
    apply read_object_ok; [done|]. intros b new s' Hk Hp Hb. split; [done|]. split; [done|]. destruct b; [apply Exists_app; by left|by apply Forall_app]. }
  intros b2 n2 s2 _ (Hk2 & Hp2 & Hb2) Hok2. assert (Hk := take_kept_trans _ _ _ _ _ Hk1 Hk2). assert (Ha2 := asked_later _ _ n2 _ _ Hk2 Ha1). destruct b2 as [b|].
  2:{ apply step_ret; [done|]. rewrite app_nil_r, !app_nil_l. apply HQ; [done|auto|done|done|done]. }
  apply step_bind. apply (step_mono _ _ _ (fun _ new s' => kept s2 s' /\ pieces new /\
     (forall o, object w pid = Some o -> punch = true -> Forall no_punch new -> gone o (mem s')))).
  { destruct punch; [|apply step_ret; [done|]; split; [apply kept_refl|done]]. apply punch_ok; [done|]. auto. }
  intros [] n3 s3 _ (Hk3 & Hp3 & Hg3) Hok3. apply step_ret; [done|]. rewrite app_nil_r, !app_nil_l. assert (Ha3 := asked_later _ _ n3 _ _ Hk3 Ha2).
  apply HQ; [by eapply take_kept_trans|repeat apply pieces_app; auto|by rewrite <- app_assoc in *| |].
  2: { rewrite <- app_assoc. apply Exists_app. by right. }
  intros o Ho _ Hpunch Hn. rewrite !Forall_app in Hn. apply Hg3; tauto.
Qed.
Lemma take_mode_ok pid punch (Q : option bytes -> history -> thread -> Prop) s : ok (mem s) ->
  (forall b new s', take_spec pid punch b new s s' -> Q b new s') -> step (page_take_mode w page pid true punch) Q s.
Proof.
  intros Hok HQ. unfold page_take_mode. apply (step_mono _ _ _ (fun b new s' => take_spec pid punch b new s s')); [|auto].
  apply step_bind. apply (step_mono _ _ _ (fun v new s' => object_answer pid v new s s' /\ tried pid new /\ hist s' = new ++ hist s)).
  { pose proof (take_object_ok pid (fun v new s' => object_answer pid v new s s' /\ tried pid new) s Hok (fun _ _ _ H1 H2 => conj H1 H2)) as H.
    unfold PageTake.step in *. destruct (take_object w page pid s) as [[] s']; try done. destruct H as (H1 & new & H2 & H3 & H4). split; [done|]. by exists new. }
  intros v n1 s1 Hok1 ((Hk1 & [Hn1 Hb1] & Hv) & Htr & Hh1) _.
  destruct v as [b| |].
  - apply step_bind, step_note; [done|]. intros Hok2. apply step_ret; [done|]. destruct Hv as (He & Hgv & Hv). split; [by apply (tried_app _ _ [EvBump])|].
    split; [by exists n1|]. split; [by right|]. split.
    + intros o Ho. destruct (Hv o Ho). auto.
    + intros Hno. exfalso. apply Forall_cons in Hno as [_ Hno]. by eapply Forall_Exists_neg in Hno.
  - apply step_ret; [done|]. by split.
  - apply step_bind, take_by_pieces_ok; [done|]. intros b n2 s2 Hk2 [Hp2 Hnb2] Ha Hg Hgv Hok2. destruct Hv as [Hv Hbar]. destruct b as [b|].
    2:{ apply step_ret; [done|]. simpl. split; [by apply tried_app|]. split; by apply Forall_app. }
    apply step_bind, step_note; [done|]. intros Hok3. apply step_ret; [done|]. split; [by apply (tried_app _ _ (EvBump :: n2))|].
    split; [exists (n2 ++ n1); split; [done|]; by apply Forall_app|]. split; [right; apply Exists_app; by left|]. split; [intros o Ho; simpl; split|].
    + intros He. exfalso. apply Exists_cons in He as [[]|He]. apply Exists_app in He as [He|He]; [by eapply Forall_Exists_neg in Hp2|by eapply Forall_Exists_neg in Hv].
    + intros Hpunch Hn. apply Forall_cons in Hn as [_ [Hn _]%Forall_app]. by apply (Hg o Ho).
    + intros _. exists n1, n2. split; [done|]. rewrite <- Hh1. intros c Hc. destruct (Ha c Hc) as [Hr|[Hr Hn]]; [left|right; split; [|done]];
        simpl; apply Exists_cons; right; apply Exists_app; by left.
Qed.
End takes.

Section grants.
Context (w : world) (page : Z) (Hguest : guest_ok w page).
Abbreviation ok m := (mem_ok w page m).
Abbreviation gone := (gone page).
Abbreviation step := (step w page).
Abbreviation kept := (kept w page).

(** ** Freezing *)
Definition frozen (o : Z) (b : bytes) (m : guest_memory) : Prop :=
  obj m !! (o, page) = Some b /\ stored m !! (o, page) = Some b /\ forall c, object w c = Some o -> pte m !! (c, page) <> Some true.
Lemma protect_froze c m b m' : ok m -> kernel w page KProtect c [] m = (inr (VMR_PG_SIZE, b), m') ->
  exists o, object w c = Some o /\ frozen o b m'.
Proof.
  simpl. destruct (object w c) as [o|] eqn:Hc; [|done]. intros Hok. destruct (vma w c page); simpl; [|done].
  destruct (obj m !! (o, page)) as [b'|] eqn:Ho; [|done]. intros [= -> <-]. exists o. split; [done|]. split; [done|]. split; [by apply (ok_stored _ _ _ Hok)|].
  simpl. intros c' Hc'. rewrite map_lookup_imap. destruct (pte m !! (c', page)); simpl; [|done]. by rewrite bool_decide_true.
Qed.
(** No context of [l] gave the page: each was asked in turn, up to one that
    answered otherwise than by not having it. *)
Definition unfrozen (l : list Z) (new : history) : Prop :=
  exists l1 l2 rs, l = l1 ++ l2 /\ length rs = length l1 /\ new = rev (zip_with (EvCall KProtect) l1 rs) /\
    (forall r b, r ∈ rs -> r <> inr (VMR_PG_SIZE, b)) /\
    (l2 <> [] -> exists r, last rs = Some r /\ r <> inl ENOENT /\ r <> inl ESRCH).
Lemma unfrozen_one c l r : (forall b, r <> inr (VMR_PG_SIZE, b)) -> (r <> inl ENOENT /\ r <> inl ESRCH) -> unfrozen (c :: l) [EvCall KProtect c r].
Proof.
  intros Hr Hn. exists [c], l, [r]. split_and!; try done; [|by exists r]. by intros r' b ->%list_elem_of_singleton.
Qed.
Lemma unfrozen_cons c l e new : unfrozen l new -> unfrozen (c :: l) (new ++ [EvCall KProtect c (inl e)]).
Proof.
  intros (l1 & l2 & rs & -> & Hlen & -> & Hrs & Hl2). exists (c :: l1), l2, (inl e :: rs). split_and!; [done|simpl; lia|done| |].
  - intros r b [->|Hr]%elem_of_cons; [done|by apply Hrs].
  - intros Hne. destruct (Hl2 Hne) as (r & Hl & ?). exists r. split; [|done]. by rewrite last_cons, Hl.
Qed.
Lemma protect_each_ok l r0 (Q : Z + Z * bytes -> history -> thread -> Prop) s : ok (mem s) -> (exists e, r0 = inl e) ->
  (forall r new s',
     match r with
     | inr (x, b) => if x =? VMR_PG_SIZE then exists c o, c ∈ l /\ object w c = Some o /\ frozen o b (mem s') else unfrozen l new
     | inl _ => unfrozen l new
     end -> Q r new s') ->
  step (protect_each w page l r0) Q s.
Proof.
  revert r0 Q s. induction l as [|c l IH]; intros r0 Q s Hok [e0 ->] HQ; simpl.
  { apply step_ret; [done|]. apply HQ. exists [], [], []. split_and!; try done. by intros r b ?%elem_of_nil. }
  apply step_bind, step_call; [done|done|done|]. intros r m s1 Hm _ Hr _ Hok1.
  assert (Hret : (r <> inl ENOENT /\ r <> inl ESRCH) -> step (mret r) (fun b new' => Q b (new' ++ [EvCall KProtect c r])) s1).
  { intros Hn. apply step_ret; [done|]. apply HQ. destruct r as [e|[x b]]; [by apply unfrozen_one|]. destruct (Z.eqb_spec x VMR_PG_SIZE) as [->|Hne].
    - destruct Hr as [Hr|[[e ?] _]]; [|done]. destruct (protect_froze c m b (mem s1) Hm ltac:(done)) as (o & Ho & Hf).
      exists c, o. split; [by left|done].
    - apply unfrozen_one; [by intros b' [= ? ?]|done]. }
  destruct r as [e|]; [|by apply Hret]. destruct ((e =? ENOENT) || (e =? ESRCH)) eqn:He.
  2: { apply Hret. apply orb_false_iff in He. split; intros [= ->]; lia. }
  apply IH; [done|eauto|]. intros r new s' Hf. apply HQ. destruct r as [e'|[x b]]; [by apply unfrozen_cons|]. destruct (x =? VMR_PG_SIZE); [|by apply unfrozen_cons].
  destruct Hf as (c' & o & Hin & ?). exists c', o. split; [by right|done].
Qed.

Lemma protect_returns l r0 s : exists r s', protect_each w page l r0 s = (Ok r, s').
Proof.
  revert r0 s. induction l as [|c l IH]; intros r0 s; simpl; [by eexists _, _|]. unfold mbind, prog_bind, call.
  destruct (match w_refuse w _ _ _ with Some e => _ | None => _ end) as [r m]; cbn [fst snd].
  destruct r as [e|]; [|by eexists _, _]. destruct (_ || _); [apply IH|by eexists _, _].
Qed.

(** ** Granting *)
(** The bytes [b] taken in [s1] are back in the object, whatever the guest's
    threads did in between, and the watch is over. *)
Definition put_back (pid o : Z) (b : bytes) (s1 s' : thread) : Prop :=
  pte (mem s') !! (pid, page) = Some true /\ obj (mem s') !! (o, page) = Some b /\
  stored (mem s') = stored (w_env w (hist s1) (mem s1)) /\
  hist s' = EvWatch false :: EvCall KPoke pid (inr (VMR_PG_SIZE, [])) :: hist s1.
(** a thread stored to the page between the take that ended in [s1] and the
    put-back *)
Definition stored_meanwhile (o : Z) (s1 : thread) : Prop :=
  stored (w_env w (hist s1) (mem s1)) !! (o, page) <> stored (mem s1) !! (o, page).
Definition bumps (new : history) : nat := length (filter (eq EvBump) new).
Lemma silent_bumps new : Forall silent new -> bumps new = O /\ (EvWatch false ∉ new).
Proof.
  unfold bumps. induction 1 as [|e new He _ [IH1 IH2]]; [split; [done|by intros ?%elem_of_nil]|].
  rewrite filter_cons_False by (by intros <-). split; [done|]. intros [<-|]%elem_of_cons; done.
Qed.
Lemma bumps_app n1 n2 : bumps (n1 ++ n2) = (bumps n1 + bumps n2)%nat.
Proof. unfold bumps. by rewrite filter_app, length_app. Qed.
Lemma bumps_took rest : Forall silent rest -> bumps (EvBump :: rest) = 1%nat /\ EvWatch false ∉ EvBump :: rest.
Proof.
  intros H. destruct (silent_bumps _ H) as [H1 H2]. split; [|by intros [?|?]%elem_of_cons].
  change (EvBump :: rest) with ([EvBump] ++ rest). by rewrite bumps_app, H1.
Qed.
Lemma map_granted c o m r b : ok m -> object w c = Some o -> (inr (r, b), r =? VMR_PG_SIZE) = ((kernel w page KMap c [] m).1, true) ->
  let m' := (kernel w page KMap c [] m).2 in pte m' !! (c, page) = Some true /\ exists b, obj m' !! (o, page) = Some b /\ stored m' !! (o, page) = Some b.
Proof.
  intros Hok Ho. simpl. rewrite Ho. destruct (vma w c page); simpl; [|done]. destruct (obj m !! (o, page)) as [d|] eqn:Hb; simpl.
  - intros _. rewrite lookup_insert_eq. split; [done|]. exists d. split; [done|]. by apply (ok_stored _ _ _ Hok).
  - intros [= -> -> ?]. done.
Qed.
(** The write permission is asked of the kernel first. *)
Lemma map_first_ok pid o s : ok (mem s) -> object w pid = Some o ->
  step (here ← page_present w page pid;
        if here : bool then
          r ← call w page KMap pid [];
          mret (match r with inr (r, _) => r =? VMR_PG_SIZE | inl _ => false end)
        else mret false)
    (fun mapped new s' => Forall silent new /\ (mapped = true -> pte (mem s') !! (pid, page) = Some true /\
       exists b, obj (mem s') !! (o, page) = Some b /\ stored (mem s') !! (o, page) = Some b)) s.
Proof.
  intros Hok Ho. apply step_bind, step_present; [done|done|]. intros here s1 _ Hok1.
  destruct here; [|apply step_ret; [done|]; split; [by repeat constructor|done]].
  apply step_bind, step_call; [done|done|done|]. intros r m s2 Hm _ Hr _ Hok2. apply step_ret; [done|].
  split; [by repeat constructor|]. destruct r as [e|[r b]]; [done|]. intros Hr1. destruct Hr as [Hr|[[e ?] _]]; [|done].
  pose proof (map_granted pid o m r b Hm Ho) as Hmap. rewrite <- Hr in Hmap. cbn [fst snd] in Hmap. apply Hmap. by rewrite Hr1.
Qed.
Lemma poke_run pid o b s1 : object w pid = Some o -> vma w pid page = true ->
  match poke w page pid b s1 with
  | (Ok true, s2) => pte (mem s2) !! (pid, page) = Some true /\ obj (mem s2) !! (o, page) = Some b /\
      stored (mem s2) = stored (w_env w (hist s1) (mem s1)) /\ hist s2 = EvCall KPoke pid (inr (VMR_PG_SIZE, [])) :: hist s1
  | (Ok false, s2) => mem s2 = w_env w (hist s1) (mem s1) /\ exists e, hist s2 = EvCall KPoke pid (inl e) :: hist s1
  | _ => False
  end.
Proof.
  intros Ho Hv. unfold poke, mbind, prog_bind, call. destruct (w_refuse w (hist s1) KPoke pid) as [e|]; simpl; [by eauto|].
  rewrite Ho, Hv. simpl. by rewrite !lookup_insert_eq.
Qed.
Lemma bind_assoc_at {A B C} (m : prog thread A) (f : A -> prog thread B) (k : B -> prog thread C) s :
  (m ≫= (fun a => f a ≫= k)) s = ((m ≫= f) ≫= k) s.
Proof. unfold mbind, prog_bind. by destruct (m s) as [[] ?]. Qed.
Lemma make_writable_run pid o s : ok (mem s) -> object w pid = Some o -> vma w pid page = true ->
  match page_make_writable w page pid s with
  | (Ok true, s') => exists new b,
      hist s' = new ++ hist s /\ bumps new = 1%nat /\ EvWatch false ∈ new /\
      pte (mem s') !! (pid, page) = Some true /\ obj (mem s') !! (o, page) = Some b /\
      (stored (mem s') !! (o, page) = Some b \/
       exists s0 s1 took, page_take_mode w page pid true false s0 = (Ok (Some b), s1) /\ hist s1 = took ++ hist s0 /\
         put_back pid o b s1 s' /\ (stored_meanwhile o s1 \/ Forall (fun e => ~ by_object e) took))
  | (Ok false, s') => exists new,
      hist s' = new ++ hist s /\ (EvWatch false ∉ new) /\ ok (mem s') /\
      (bumps new = O /\ (exists s0, page_take_mode w page pid true false s0 = (Ok None, s')) \/
       bumps new = 1%nat /\ exists e, hd_error new = Some (EvCall KPoke pid (inl e)))
  | (Aborted, s') => stuck s'
  | _ => False
  end.
Proof.
  intros Hok Ho Hv. pose proof (map_first_ok pid o s Hok Ho) as H. unfold step in H.
  unfold page_make_writable. rewrite bind_assoc_at.
  set (m := page_present w page pid ≫= _) in *. unfold mbind at 1, prog_bind at 1.
  destruct (m s) as [[mapped| | | |] s1]; try done. destruct H as (Hok1 & n1 & Hh1 & Hs1 & Hgr). destruct (silent_bumps n1 Hs1) as [Hb1 Hw1].
  destruct mapped.
  { destruct (Hgr eq_refl) as (Hp & b & Hb & Hst). exists ([EvBump; EvWatch false] ++ n1), b. simpl. rewrite Hh1.
    split_and!; [done| |set_solver|done|done|by left]. change (bumps ([EvBump; EvWatch false] ++ n1) = 1%nat). rewrite bumps_app, Hb1. done. }
  pose proof (take_mode_ok w page Hguest pid false (fun b new s' => take_spec w page pid false b new s1 s') s1 Hok1 (fun _ _ _ H => H)) as H.
  unfold step in H. unfold mbind at 1, prog_bind at 1.
  destruct (page_take_mode w page pid true false s1) as [[b| | | |] s2] eqn:Etake; try done. destruct H as (Hok2 & n2 & Hh2 & Hspec).
  destruct b as [b|].
  2: { destruct Hspec as (_ & Hspec & _). destruct (silent_bumps n2 Hspec) as [Hb2 Hw2]. exists (n2 ++ n1). rewrite Hh2, Hh1, app_assoc, bumps_app, Hb1, Hb2.
       split_and!; [done|set_solver|done|left; split; [done|by exists s1]]. }
  destruct Hspec as (_ & (rest & -> & Hsil) & _ & Hobj & _). destruct (bumps_took rest Hsil) as [Hb2 Hw2].
  pose proof (poke_run pid o b s2 Ho Hv) as Hpoke. unfold mbind at 1, prog_bind at 1.
  destruct (poke w page pid b s2) as [[ok'| | | |] s3]; try done. destruct ok'.
  - destruct Hpoke as (Hp & Hb & Hst & Hh3). exists ([EvWatch false; EvCall KPoke pid (inr (VMR_PG_SIZE, []))] ++ (EvBump :: rest) ++ n1), b. simpl.
    rewrite Hh3, Hh2, Hh1. split_and!; [by rewrite <- app_assoc| |set_solver|done|done|].
    + change (bumps ([EvWatch false; EvCall KPoke pid (inr (VMR_PG_SIZE, []))] ++ (EvBump :: rest) ++ n1) = 1%nat).
      rewrite !bumps_app, Hb1, Hb2. done.
    + destruct (decide (stored (w_env w (hist s2) (mem s2)) !! (o, page) = stored (mem s2) !! (o, page))) as [Heq|Hne].
      * destruct (decide (Exists by_object (EvBump :: rest))) as [He|Hne].
        -- left. rewrite Hst, Heq. by apply (Hobj o Ho).
        -- right. exists s1, s2, (EvBump :: rest). split_and!; [done|done|split; [exact Hp|]; split; [exact Hb|]; split; [exact Hst|]; simpl; by rewrite Hh2, Hh1|right; by apply Forall_Exists_neg].
      * right. exists s1, s2, (EvBump :: rest). split_and!; [done|done|split; [exact Hp|]; split; [exact Hb|]; split; [exact Hst|]; simpl; by rewrite Hh2, Hh1|by left].
  - destruct Hpoke as (Hm & e & Hh3). exists ([EvCall KPoke pid (inl e)] ++ (EvBump :: rest) ++ n1). simpl.
    rewrite Hh3, Hh2, Hh1. split_and!; [by rewrite <- app_assoc|set_solver| |right; split; [|by eexists]].
    + rewrite Hm. by apply Hguest.
    + change (bumps ([EvCall KPoke pid (inl e)] ++ (EvBump :: rest) ++ n1) = 1%nat). rewrite !bumps_app, Hb1, Hb2. done.
Qed.
End grants.


(** ** Every program returns or ends the process, in any memory *)
Class Returns {A} (m : prog thread A) : Prop := returns s : match (m s).1 with Ok _ | Aborted => True | _ => False end.
Section returns.
Context (w : world) (page : Z).
#[local] Instance returns_ret {A} (a : A) : Returns (mret a).
Proof. by intros s. Qed.
#[local] Instance returns_abort {A} : Returns (stop Aborted : prog thread A).
Proof. by intros s. Qed.
#[local] Instance returns_bind {A B} (m : prog thread A) (k : A -> prog thread B) : Returns m -> (forall a, Returns (k a)) -> Returns (m ≫= k).
Proof. intros Hm Hk s. unfold mbind, prog_bind. specialize (Hm s). destruct (m s) as [[a| | | |] s']; try done. apply Hk. Qed.
#[local] Instance returns_call op t b : Returns (call w page op t b).
Proof. by intros s. Qed.
#[local] Instance returns_note e : Returns (note e).
Proof. by intros s. Qed.
#[local] Instance returns_members : Returns (members_of w).
Proof. by intros s. Qed.
#[local] Instance returns_present c : Returns (page_present w page c).
Proof. by intros s. Qed.
#[local] Instance returns_has o : Returns (backing_has w page o).
Proof. by intros s. Qed.
#[local] Instance returns_if {A} (b : bool) (m m' : prog thread A) : Returns m -> Returns m' -> Returns (if b then m else m').
Proof. by destruct b. Qed.
#[local] Instance returns_option {A B} (o : option B) (m : prog thread A) (k : B -> prog thread A) :
  Returns m -> (forall b, Returns (k b)) -> Returns (match o with Some b => k b | None => m end).
Proof. intros. by destruct o. Qed.
#[local] Instance returns_patient n op c : Returns (patient w page n op c).
Proof. induction n; simpl; apply returns_bind; try apply _; intros []; apply _. Qed.
#[local] Instance returns_siblings pid o l : Returns (take_siblings w page pid o l).
Proof. induction l; simpl; [apply _|]. apply returns_if; [done|]. apply returns_bind; [apply _|]. intros r. destruct (verdict r); apply _. Qed.
#[local] Instance returns_take_object pid : Returns (take_object w page pid).
Proof. unfold take_object. apply returns_bind; [apply _|]. intros r. destruct r as [e|x]; [apply _|]. destruct (verdict (inr x)); apply _. Qed.
#[local] Instance returns_each l b : Returns (take_each w page l b).
Proof. revert b. induction l; intros b; simpl; apply _. Qed.
#[local] Instance returns_pieces pid away punch : Returns (take_by_pieces w page pid away punch).
Proof. unfold take_by_pieces, read_object, punch_object. apply _. Qed.
#[local] Instance returns_take pid away punch : Returns (page_take_mode w page pid away punch).
Proof. unfold page_take_mode. apply returns_bind; [apply _|]. intros v. destruct v; apply _. Qed.
Lemma make_writable_returns pid : Returns (page_make_writable w page pid).
Proof. unfold page_make_writable, poke. apply _. Qed.
End returns.

(** ** Runs
    Two contexts map one object; a third thread writes while the kernel is busy. *)
Definition demo_page : Z := 0x5000.
Definition demo_writes (b : bytes) (m : guest_memory) : guest_memory :=
  match pte m !! (2, demo_page), obj m !! (9, demo_page) with
  | Some true, Some _ => mk_memory (<[(9, demo_page) := b]> (obj m)) (pte m) (anon m) (<[(9, demo_page) := b]> (stored m))
  | _, _ => m
  end.
Definition demo_object (c : Z) : option Z := if (c =? 1) || (c =? 2) then Some 9 else None.
Definition demo_world (poke_fails : bool) : world :=
  mk_world (fun h m => demo_writes [Z.of_nat (length h)] m)
    (fun h op _ => match op with KTakeObj => if (length h <? 3)%nat then Some EBUSY else None | KPoke => if poke_fails then Some EFAULT else None | KMap => Some EINVAL | _ => None end)
    (fun _ => [1; 2]) demo_object (fun _ _ => true).
Definition demo_thread : thread :=
  mk_thread (mk_memory {[ (9, demo_page) := [0] ]} {[ (1, demo_page) := false; (2, demo_page) := true ]} ∅ {[ (9, demo_page) := [0] ]}) [].
Lemma demo_ok : mem_ok (demo_world false) demo_page (mem demo_thread).
Proof.
  split; simpl.
  - intros o b. rewrite !lookup_singleton_Some. by intros [-> ->].
  - intros c x Hx. rewrite lookup_insert_Some, lookup_singleton_Some in Hx. destruct Hx as [[[= <-] _]|[_ [[= <-] _]]]; exists 9; done.
Qed.
Lemma demo_guest f : guest_ok (demo_world f) demo_page.
Proof.
  intros h m [H1 H2]. simpl. unfold demo_writes. destruct (pte m !! (2, demo_page)) as [[]|] eqn:Hp; [|done|done].
  destruct (obj m !! (9, demo_page)) as [b|] eqn:Hb; [|done]. split; simpl.
  - intros o b'. destruct (decide (o = 9)) as [->|]; [by rewrite !lookup_insert_eq|]. rewrite !lookup_insert_ne by congruence. auto.
  - intros c x (o & Ho & Hs)%H2. exists o. split; [done|]. destruct (decide (o = 9)) as [->|]; [by rewrite lookup_insert_eq|]. by rewrite lookup_insert_ne by congruence.
Qed.
(** The other thread has the page back and stores to it before the put-back. *)
Definition racing_world : world :=
  mk_world (fun _ m => match obj m !! (9, demo_page) with
                       | None => mk_memory {[ (9, demo_page) := [8] ]} {[ (2, demo_page) := true ]} (anon m) {[ (9, demo_page) := [8] ]} | Some _ => m end)
    (fun _ op _ => match op with KMap => Some EINVAL | _ => None end) (fun _ => [1; 2]) demo_object (fun _ _ => true).
Lemma racing_putback_overwrites :
  exists s', page_make_writable racing_world demo_page 1 demo_thread = (Ok true, s') /\
    stored (mem s') !! (9, demo_page) = Some [8] /\ obj (mem s') !! (9, demo_page) = Some [0].
Proof. eexists. split; [by vm_compute|]. by vm_compute. Qed.
(** Two contexts with private pages, of which one's take is refused. *)
Definition private_world : world :=
  mk_world (fun _ m => m) (fun _ op c => match op with KTakeObj => Some EINVAL | KTake => if c =? 2 then Some EINVAL else None | _ => None end)
    (fun _ => [1; 2]) (fun _ => None) (fun _ _ => false).
Definition private_thread : thread := mk_thread (mk_memory ∅ ∅ {[ (1, demo_page) := [5]; (2, demo_page) := [6] ]} ∅) [].
Lemma refused_take_keeps_private :
  exists s', page_take_away private_world demo_page 1 private_thread = (Ok (Some [5]), s') /\ anon (mem s') = {[ (2, demo_page) := [6] ]}.
Proof. eexists. split; [by vm_compute|]. by vm_compute. Qed.

(** ** The properties *)



(** The put-back is refused after the take: the page is in no context and not in
    the object, although this take was told to leave it there, and the caller is
    told only that the write was not granted. *)
Lemma failed_putback_loses_page :
  exists s', page_make_writable (demo_world true) demo_page 1 demo_thread = (Ok false, s') /\
    obj (mem s') = ∅ /\ pte (mem s') = ∅ /\ anon (mem s') = ∅.
Proof. eexists. split; [by vm_compute|]. done. Qed.

End PageTake.
