(* ===== verification/PageSettle.v ===== *)
(** * Settling loans before a snapshot (user/page-settle.h)

    Before the source takes a snapshot, [page_recall_all] brings home every page of
    the address space that is on loan.  Each page is reserved, pulled
    ([source_page_fetch], [ctx_page_pull]), stored where it is backed, acknowledged
    (Receipts.v) and retired from the loan table, in that order; a page that the
    source is itself fetching is let go and tried again for four seconds.  Retiring
    the loan of a shared copy grants the guest the write (PageTake.v,
    [page_make_writable]) in the same critical section.

    The transfer table, the loan table, the mappings and the source are a [world]
    that answers each call from the history of all calls; so is the guest's memory
    as a write grant finds it.  The acknowledgements of the thread are its own.  Messages and counters are left out. *)
From S2P Require Import Prelude Native Traces Proto Receipts PageTake.
Open Scope Z_scope.

Module PageSettle.
Import Traces Proto Receipts.

Abbreviation bytes := (list Z).
Definition VMR_PG_SIZE : Z := 4096.
Definition SETTLE_BYTES : Z := 1.
Definition SETTLE_ABSENT : Z := 2.
Definition SETTLE_CLAIM : Z := 3.
Definition SETTLE_NOTHOLDER : Z := 6.
Definition PULL_NOMAP : Z := 4.
Definition PULL_FAILED : Z := 5.
Definition PULL_COWBREAK : Z := 7.
Definition PULL_GONE : Z := 8.
Definition VMR_CTXPAGE_ABSENT : Z := -61.
Definition VMR_CTXPAGE_CLAIMING : Z := -11.
Definition VMR_CTXPAGE_NOTHOLDER : Z := -116.
Definition VMR_CTXPAGE_COWBREAK : Z := -18.
Definition VMR_CTXPAGE_GONE : Z := -19.
Definition EACCES : Z := 13.
Definition PST_SHARED : Z := 1.
Definition PST_OWNED : Z := 2.

(** ** Calls *)
(** the reply to CTXPAGE, with its transport *)
Record fetch_reply := mk_reply {
  fr_failed : bool; fr_result : Z; fr_bytes : bytes;
  fr_target : vmr_mm_binding; fr_base : Z; fr_episode : Z; fr_count : Z; fr_taken : Z }.
Inductive place := AtSlot (off : Z) | AtContext | AtObject.
Inductive event :=
| EvClock (t : Z) | EvSleep (us : Z)
| EvClaim (page : Z) (r : Z + Z)                 (* pg_try_claim: errno, or the state before *)
| EvRelease (page final : Z)                     (* pg_request_release *)
| EvHolder (page owner : Z) | EvShared (page : Z) (r : bool)
| EvMapped (page : Z) (r : bool) | EvOffset (page off : Z)
| EvFetch (page nocow : Z) (r : fetch_reply)
| EvSignal | EvAlive (r : bool)                  (* ctx_stop_unservable *)
| EvEnter | EvLeave                              (* the coherence lock *)
| EvStore (page : Z) (where_ : place) (b : bytes) (ok : bool)
| EvInstalled (page : Z) | EvRetain (page : Z) (b : bytes)
| EvPresent (page : Z) (r : bool)                (* a surviving copy in the object *)
| EvAck (a : ack) (ok : bool)
| EvGrant (page : Z) (e : PageTake.event)        (* a call of page_make_writable *)
| EvRetire (page : Z).                           (* page_lend(..., 0) *)
Abbreviation history := (list event).

Record world := mk_world {
  w_clock : history -> Z;
  w_claim : history -> Z -> Z + Z;
  w_holder : history -> Z -> Z;
  w_shared : history -> Z -> bool;
  w_mapped : history -> Z -> bool;
  w_offset : history -> Z -> Z;
  w_fetch : history -> Z -> Z -> fetch_reply;
  w_alive : history -> bool;
  w_store : history -> Z -> place -> bytes -> bool;
  w_present : history -> Z -> bool -> bool;
  w_ack : history -> ack -> bool;
  ctx : Z;
  w_guest : history -> PageTake.world * PageTake.guest_memory }.
Record settler := mk_settler { hist : history; acks : ack_state }.

Definition call {A} (f : history -> A) (ev : A -> event) : prog settler A := fun s =>
  let a := f (hist s) in (Ok a, mk_settler (ev a :: hist s) (acks s)).
Definition emit (e : event) : prog settler unit := call (fun _ => ()) (fun _ => e).

Section service.
Context (w : world).

(** ** Pulling *)
Definition no_receipt : source_page_receipt := mk_receipt no_binding 0 0 0 0 false.
Definition fetch_answered (result : Z) : bool :=
  (0 <? result) || (result =? VMR_CTXPAGE_ABSENT) || (result =? VMR_CTXPAGE_CLAIMING) || (result =? VMR_CTXPAGE_NOTHOLDER) ||
  (result =? VMR_CTXPAGE_COWBREAK) || (result =? VMR_CTXPAGE_GONE) || (result =? - EFAULT) || (result =? - EACCES).
Definition source_page_fetch (page nocow : Z) : prog settler (Z * bytes * source_page_receipt) :=
  r ← call (fun h => w_fetch w h page nocow) (EvFetch page nocow);
  if fr_failed r || negb (fetch_answered (fr_result r)) then stop Aborted
  else if fr_result r <=? 0 then mret (fr_result r, [], no_receipt)
  else mret (fr_result r, fr_bytes r, mk_receipt (fr_target r) (fr_base r) (fr_episode r) (fr_count r) (fr_taken r) false).
Definition pull_answer (g : Z) : Z :=
  if g =? VMR_PG_SIZE then SETTLE_BYTES
  else if g =? VMR_CTXPAGE_CLAIMING then SETTLE_CLAIM
  else if g =? VMR_CTXPAGE_ABSENT then SETTLE_ABSENT
  else if g =? VMR_CTXPAGE_NOTHOLDER then SETTLE_NOTHOLDER
  else if g =? VMR_CTXPAGE_COWBREAK then PULL_COWBREAK
  else if g =? VMR_CTXPAGE_GONE then PULL_GONE
  else if (g =? - EFAULT) || (g =? - EACCES) then PULL_NOMAP
  else PULL_FAILED.
Definition ctx_page_pull_mode (page nocow : Z) : prog settler (Z * bytes * source_page_receipt) :=
  x ← source_page_fetch page nocow;
  mret (pull_answer x.1.1, x.1.2, x.2).
Fixpoint wait_ended (n : nat) : prog settler unit :=
  match n with
  | O => mret ()
  | S n => alive ← call (w_alive w) EvAlive; if alive : bool then emit (EvSleep 1000) ;; wait_ended n else mret ()
  end.
Definition ctx_stop_unservable : prog settler unit := emit EvSignal ;; wait_ended (Z.to_nat 1000).
Definition ctx_page_pull (page : Z) : prog settler (Z * bytes * source_page_receipt) :=
  x ← ctx_page_pull_mode page 0;
  (if x.1.1 =? PULL_GONE then ctx_stop_unservable else mret ()) ;;
  mret x.

(** ** Acknowledging (Receipts.v) *)
Definition flush : prog settler unit := fun s =>
  match ack_pend (acks s) with
  | None => (Ok (), s)
  | Some a =>
      let ok := w_ack w (hist s) a in
      match Receipts.ack_flush (fun _ _ => ok) (acks s) with
      | Ok st => (Ok (), mk_settler (EvAck a ok :: hist s) st)
      | _ => (Aborted, mk_settler (EvAck a ok :: hist s) (acks s))
      end
  end.
(** the check of the receipt, the flush of an earlier one, the queueing *)
Definition acked (receipt : source_page_receipt) (page : Z) : prog settler source_page_receipt := fun s =>
  match Receipts.ack_installed (fun _ _ => true) (Some receipt) page (mk_acks None (ack_sent (acks s))) with
  | Ok (r, st) =>
      match flush s with
      | (Ok _, s) => (Ok r, mk_settler (hist s) (mk_acks (ack_pend st) (ack_sent (acks s))))
      | (_, s) => (Aborted, s)
      end
  | _ => (Aborted, s)
  end.
Definition finish (receipt : source_page_receipt) : prog settler unit :=
  if sr_episode receipt =? 0 then mret ()
  else if negb (sr_ack_queued receipt) then stop Aborted
  else flush.

(** ** One attempt at one page *)
Inductive turn := Settled | Waiting | Failed.
#[global] Instance turn_eq_dec : EqDecision turn.
Proof. solve_decision. Defined.
Definition claim (page : Z) : prog settler (Z + Z) := call (fun h => w_claim w h page) (EvClaim page).
Definition release (page final : Z) : prog settler unit := emit (EvRelease page final).
Definition mapped_at (page : Z) : prog settler bool := call (fun h => w_mapped w h page) (EvMapped page).
Definition offset_at (page : Z) : prog settler Z := call (fun h => w_offset w h page) (EvOffset page).
Definition store (page : Z) (p : place) (b : bytes) : prog settler bool := call (fun h => w_store w h page p b) (EvStore page p b).
(** the landing, under the coherence lock *)
Definition land (page : Z) (slot : option Z) (b : bytes) : prog settler bool :=
  emit EvEnter ;;
  copied ← store page (match slot with Some off => AtSlot off | None => AtContext end) b;
  ok ← (if copied : bool then emit (EvInstalled page) ;; mret true
        else match slot with
             | Some _ => mret false
             | None => w ← store page AtObject b;
                       if w : bool then emit (EvRetain page b) ;; mret true else mret false
             end);
  emit EvLeave ;;
  mret ok.
(** its result is not looked at *)
Definition grant (page : Z) : prog settler unit := fun s =>
  let '(g, m) := w_guest w (hist s) in
  let '(r, t) := PageTake.page_make_writable g page (ctx w) (PageTake.mk_thread m []) in
  (let! _ := r in Ok (),
   mk_settler (map (EvGrant page) (PageTake.hist t) ++ hist s) (acks s)).
Definition retire (page : Z) (shared : bool) : prog settler unit :=
  emit EvEnter ;;
  (if shared then grant page else mret ()) ;;
  emit (EvRetire page) ;;
  emit EvLeave.
(** has the page the backing it had before the pull *)
Definition moved (page : Z) (slot : option Z) : prog settler bool :=
  m ← mapped_at page;
  match slot, m : bool with
  | Some off, true => off' ← offset_at page; mret (negb (off' =? off))
  | None, false => mret false
  | _, _ => mret true
  end.
Definition leave_page (page prior : Z) (receipt : source_page_receipt) : prog settler turn :=
  finish receipt ;; release page prior ;; mret Failed.
Definition done (page : Z) (shared : bool) (receipt : source_page_receipt) : prog settler turn :=
  retire page shared ;; finish receipt ;; release page (if shared then PST_SHARED else PST_OWNED) ;; mret Settled.
(** what the pull brought *)
Definition settle_answer (page prior : Z) (shared : bool) (slot : option Z) (pull : Z) (b : bytes) (receipt : source_page_receipt) : prog settler turn :=
  if pull =? SETTLE_CLAIM then release page prior ;; finish receipt ;; mret Waiting
  else if pull =? SETTLE_BYTES then
    ok ← land page slot b;
    if ok : bool then
      receipt ← acked receipt page;
      flush ;;
      done page shared receipt
    else leave_page page prior receipt
  else if (pull =? SETTLE_ABSENT) || (pull =? SETTLE_NOTHOLDER) then
    present ← call (fun h => w_present w h page (bool_decide (is_Some slot))) (EvPresent page);
    if present : bool then done page shared receipt else leave_page page prior receipt
  else leave_page page prior receipt.
Definition settle_turn (page : Z) : prog settler turn :=
  r ← claim page;
  match r with
  | inl e => mret (if e =? EBUSY then Waiting else Failed)
  | inr prior =>
      owner ← call (fun h => w_holder w h page) (EvHolder page);
      if owner =? 0 then release page prior ;; mret Settled
      else
        shared ← call (fun h => w_shared w h page) (EvShared page);
        mapped ← mapped_at page;
        slot ← (if mapped : bool then off ← offset_at page; mret (Some off) else mret None);
        if (match slot with Some off => off <? 0 | None => false end) then release page prior ;; mret Failed
        else
          x ← ctx_page_pull page;
          gone ← moved page slot;
          if gone : bool then leave_page page prior x.2
          else settle_answer page prior shared slot x.1.1 x.1.2 x.2
  end.

(** ** Every page *)
(** a turn sleeps 1 ms, and 4 s end the wait *)
Definition settle_fuel : nat := Z.to_nat 4002.
Fixpoint settle_page (fuel : nat) (page started : Z) : prog settler bool :=
  match fuel with
  | O => stop Hung
  | S fuel =>
      t ← settle_turn page;
      match t with
      | Settled => mret true
      | Failed => mret false
      | Waiting =>
          now ← call (w_clock w) EvClock;
          if 4000000 <=? now - started then mret false
          else emit (EvSleep 1000) ;; settle_page fuel page started
      end
  end.
Fixpoint settle_all (pages : list Z) : prog settler bool :=
  match pages with
  | [] => mret true
  | page :: pages =>
      started ← call (w_clock w) EvClock;
      ok ← settle_page settle_fuel page started;
      if ok : bool then settle_all pages else mret false
  end.
(** [pages] is the loan snapshot *)
Definition page_recall_all (pages : list Z) : prog settler Z :=
  ok ← settle_all pages;
  flush ;;
  mret (if ok : bool then 0 else -1).
End service.

(** ** The order of the calls *)
(** How far the page that is reserved has come. *)
Inductive phase :=
| Idle | Held (page : Z) | Pulled (page : Z) (b : bytes) (episode : Z) | Stored (page episode : Z)
| Acked (page : Z) | Asked (page : Z) | Kept (page : Z) | Retired (page : Z).
Definition next (e : event) (ph : phase) : phase :=
  match e, ph with
  | EvClaim p (inr _), _ => Held p
  | EvRelease _ _, _ => Idle
  | EvFetch p _ r, Held p' =>
      if negb (p =? p') then ph
      else let g := pull_answer (fr_result r) in
           if g =? SETTLE_BYTES then Pulled p (fr_bytes r) (fr_episode r)
           else if (g =? SETTLE_ABSENT) || (g =? SETTLE_NOTHOLDER) then Asked p else ph
  | EvStore p _ b true, Pulled p' b' ep => if bool_decide (p = p' /\ b = b') then Stored p ep else ph
  | EvAck a true, Stored p ep => if (ak_page a =? p) && (ak_episode a =? ep) then Acked p else ph
  | EvPresent p true, Asked p' => if p =? p' then Kept p else ph
  | EvRetire p, _ => Retired p
  | _, _ => ph
  end.
Fixpoint phase_of (h : history) : phase := match h with [] => Idle | e :: h => next e (phase_of h) end.
Fixpoint locked (h : history) : bool :=
  match h with [] => false | EvEnter :: _ => true | EvLeave :: _ => false | _ :: h => locked h end.
(** What may happen when: one reservation at a time; only pulled bytes are stored;
    a loan is retired only when the bytes are stored and acknowledged, or when the
    source does not hold the page and a copy is here; the coherence lock is held
    for neither the source nor a wait, but for the calls of a write grant. *)
Definition ordered (h : history) (e : event) : Prop :=
  match e with
  | EvClaim _ _ => phase_of h = Idle /\ locked h = false
  | EvRelease _ _ => phase_of h <> Idle /\ locked h = false
  | EvStore p _ b _ => (exists ep, phase_of h = Pulled p b ep) /\ locked h = true
  | EvRetire p | EvGrant p _ => (phase_of h = Acked p \/ phase_of h = Kept p) /\ locked h = true
  | EvFetch p _ _ => phase_of h = Held p /\ locked h = false
  | EvAck _ _ | EvSleep _ => locked h = false
  | EvEnter => locked h = false
  | EvLeave => locked h = true
  | _ => True
  end.

Section order.
Context (w : world).
Abbreviation P := ordered.
Abbreviation safe := (Traces.safe hist).
Definition at_ (ph : phase) (lk : bool) (s : settler) : Prop := phase_of (hist s) = ph /\ locked (hist s) = lk.
(** events that leave the phase and the lock alone *)
Definition plain (e : event) : bool :=
  match e with
  | EvClock _ | EvHolder _ _ | EvShared _ _ | EvMapped _ _ | EvOffset _ _ | EvSignal | EvAlive _ | EvInstalled _ | EvRetain _ _ => true
  | _ => false
  end.
Lemma settle_safe_call {A} (f : history -> A) ev (Q : A -> settler -> Prop) s :
  P (hist s) (ev (f (hist s))) -> Q (f (hist s)) (call f ev s).2 -> safe P (call f ev) Q s.
Proof. intros H HQ. split; [by apply grown_one|done]. Qed.
Lemma settle_safe_plain {A} (f : history -> A) ev ph lk (Q : A -> settler -> Prop) s : (forall a, plain (ev a) = true) -> at_ ph lk s ->
  (forall a s', hist s' = ev a :: hist s -> acks s' = acks s -> at_ ph lk s' -> Q a s') -> safe P (call f ev) Q s.
Proof.
  intros Hp [H1 H2] HQ. specialize (Hp (f (hist s))). apply settle_safe_call; [by destruct (ev _)|]. apply HQ; [done|done|].
  split; simpl; by destruct (ev _).
Qed.
Lemma settle_safe_emit e ph' lk' (Q : unit -> settler -> Prop) s : P (hist s) e -> next e (phase_of (hist s)) = ph' -> locked (e :: hist s) = lk' ->
  (forall s', hist s' = e :: hist s -> acks s' = acks s -> at_ ph' lk' s' -> Q () s') -> safe P (emit e) Q s.
Proof. intros He H1 H2 HQ. apply settle_safe_call; [done|]. by apply HQ. Qed.
Lemma settle_safe_sleep us ph (Q : unit -> settler -> Prop) s : at_ ph false s ->
  (forall s', acks s' = acks s -> at_ ph false s' -> Q () s') -> safe P (emit (EvSleep us)) Q s.
Proof. intros [H1 H2] HQ. apply (settle_safe_emit _ ph false); [done|simpl; by destruct (phase_of _)|done|]. auto. Qed.

(** *** The source *)
Definition pulled (page : Z) (g : Z) (b : bytes) (ep : Z) : phase :=
  if g =? SETTLE_BYTES then Pulled page b ep
  else if (g =? SETTLE_ABSENT) || (g =? SETTLE_NOTHOLDER) then Asked page else Held page.
Lemma pull_bytes g : pull_answer g = SETTLE_BYTES -> g = VMR_PG_SIZE.
Proof. unfold pull_answer. repeat case_match; try done. intros _. by apply Z.eqb_eq. Qed.
Lemma settle_wait_safe n ph (Q : unit -> settler -> Prop) s : at_ ph false s -> (forall s', acks s' = acks s -> at_ ph false s' -> Q () s') -> safe P (wait_ended w n) Q s.
Proof.
  revert s. induction n as [|n IH]; intros s Ha HQ; simpl; [by apply safe_ret, HQ|].
  apply safe_bind. apply (settle_safe_plain _ _ ph false); [done|done|]. intros b s1 _ Hk1 Ha1. destruct b; [|apply safe_ret, HQ; [congruence|done]].
  apply safe_bind. apply (settle_safe_sleep _ ph); [done|]. intros s2 Hk2 Ha2. apply IH; [done|]. intros s' Hk' Ha'. apply HQ; [congruence|done].
Qed.
Lemma settle_pull_safe page (Q : Z * bytes * source_page_receipt -> settler -> Prop) s : at_ (Held page) false s ->
  (forall g b r s', acks s' = acks s -> at_ (pulled page g b (sr_episode r)) false s' -> sr_ack_queued r = false -> Q (g, b, r) s') ->
  safe P (ctx_page_pull w page) Q s.
Proof.
  intros [Hp Hl] HQ. unfold ctx_page_pull, ctx_page_pull_mode, source_page_fetch.
  apply safe_bind, safe_bind, safe_bind, settle_safe_call; [by split|]. set (r := w_fetch w (hist s) page 0).
  destruct (fr_failed r || negb _); [by apply safe_stop|].
  assert (Hlk : locked (EvFetch page 0 r :: hist s) = false) by done.
  assert (Hph : phase_of (EvFetch page 0 r :: hist s) = pulled page (pull_answer (fr_result r)) (fr_bytes r) (fr_episode r)).
  { simpl. rewrite Hp, Z.eqb_refl. done. }
  assert (Hend : forall g b rc s1, acks s1 = acks s -> at_ (pulled page g b (sr_episode rc)) false s1 -> sr_ack_queued rc = false ->
    safe P ((if (g, b, rc).1.1 =? PULL_GONE then ctx_stop_unservable w else mret ()) ;; mret (g, b, rc)) Q s1).
  { intros g b rc s1 Hk1 Ha1 Hrc. apply safe_bind. simpl. destruct (g =? PULL_GONE); [|apply safe_ret, safe_ret; by apply HQ].
    destruct Ha1 as [Ha1 Hl1]. apply safe_bind. apply (settle_safe_emit _ (pulled page g b (sr_episode rc)) false); [done|simpl; rewrite Ha1; by destruct (pulled _ _ _ _)|done|].
    intros s2 _ Hk2 Ha2. apply (settle_wait_safe _ (pulled page g b (sr_episode rc))); [done|]. intros s3 Hk3 Ha3. apply safe_ret, HQ; [congruence|done|done]. }
  destruct (fr_result r <=? 0) eqn:Hle; apply safe_ret, safe_ret; (apply Hend; [done| |done]); (split; [etrans; [exact Hph|]|exact Hlk]); [|done].
  unfold pulled. simpl. destruct (Z.eqb_spec (pull_answer (fr_result r)) SETTLE_BYTES) as [Hb|]; [|done].
  apply pull_bytes in Hb. rewrite Hb in Hle. done.
Qed.

(** *** Acknowledgements *)
Lemma flush_safe ph (Q : unit -> settler -> Prop) s : at_ ph false s ->
  (forall s', ack_pend (acks s') = None ->
     at_ (match ack_pend (acks s) with Some a => next (EvAck a true) ph | None => ph end) false s' -> Q () s') ->
  safe P (flush w) Q s.
Proof.
  intros [H1 H2] HQ. unfold flush, Traces.safe. destruct (ack_pend (acks s)) as [a|] eqn:Ha.
  - destruct (Receipts.ack_flush _ (acks s)) as [st| | | |] eqn:Hf; simpl; (split; [by apply grown_one|]); try done.
    destruct (ack_flush_spec _ _ _ Hf) as [Hn _]. unfold Receipts.ack_flush in Hf. rewrite Ha in Hf.
    destruct (_ || _); [done|]. destruct (w_ack w (hist s) a); [|done]. apply HQ; [done|]. split; simpl; [by rewrite H1|done].
  - simpl. split; [apply grown_refl|]. apply HQ; [done|by split].
Qed.
Definition unstored (ph : phase) : Prop := match ph with Stored _ _ => False | _ => True end.
Lemma flush_idle ph (Q : unit -> settler -> Prop) s : at_ ph false s -> unstored ph ->
  (forall s', ack_pend (acks s') = None -> at_ ph false s' -> Q () s') -> safe P (flush w) Q s.
Proof.
  intros Ha Hu HQ. apply (flush_safe ph); [done|]. intros s' Hn Ha'. apply HQ; [done|]. destruct (ack_pend (acks s)); [|done]. by destruct ph.
Qed.
Lemma acked_safe page r ep (Q : source_page_receipt -> settler -> Prop) s : at_ (Stored page ep) false s -> sr_episode r = ep ->
  (forall r' s' a, (at_ (Stored page ep) false s' \/ at_ (Acked page) false s') -> ack_pend (acks s') = Some a ->
     ak_page a = page -> ak_episode a = ep -> sr_episode r' = ep -> sr_ack_queued r' = true -> Q r' s') ->
  safe P (acked w r page) Q s.
Proof.
  intros Ha <- HQ. unfold acked, Traces.safe. set (hd := Receipts.ack_installed (fun _ _ => true) (Some r) page (mk_acks None (ack_sent (acks s)))).
  assert (Hhd : forall r' st, hd = Ok (r', st) -> sr_episode r' = sr_episode r /\ sr_ack_queued r' = true /\
    exists a, ack_pend st = Some a /\ ak_page a = page /\ ak_episode a = sr_episode r).
  { intros r' st. unfold hd, Receipts.ack_installed. destruct (_ || _); [done|]. destruct (_ =? 0); [done|]. simpl. intros [= <- <-]. simpl. eauto 10. }
  destruct hd as [[r' st]| | | |]; try (split; [apply grown_refl|done]). destruct (Hhd r' st eq_refl) as (He & Hq & a & Ha' & Hpg & Hep).
  pose proof (flush_safe (Stored page (sr_episode r)) (fun _ s' => at_ (match ack_pend (acks s) with Some a => next (EvAck a true) (Stored page (sr_episode r)) | None => Stored page (sr_episode r) end) false s') s Ha (fun _ _ H => H)) as [Hg Hs].
  destruct (flush w s) as [[[]| | | |] s1]; simpl in *; (split; [done|]); try done.
  apply (HQ r' _ a); [|done|done|done|done|done].
  destruct (ack_pend (acks s)) as [a0|]; [|by left]. simpl in Hs. destruct (_ && _); [by right|by left].
Qed.
Lemma flush_acked page a ep (Q : unit -> settler -> Prop) s : at_ (Stored page ep) false s \/ at_ (Acked page) false s ->
  ack_pend (acks s) = Some a -> ak_page a = page -> ak_episode a = ep ->
  (forall s', ack_pend (acks s') = None -> at_ (Acked page) false s' -> Q () s') -> safe P (flush w) Q s.
Proof.
  intros [Ha|Ha] Hp Hpg Hep HQ.
  - apply (flush_safe (Stored page ep)); [done|]. rewrite Hp. simpl. rewrite Hpg, Hep, !Z.eqb_refl. auto.
  - by apply (flush_idle (Acked page)).
Qed.
Lemma settle_finish_safe ph r (Q : unit -> settler -> Prop) s : at_ ph false s -> unstored ph ->
  (forall s', at_ ph false s' -> Q () s') -> safe P (finish w r) Q s.
Proof.
  intros Ha Hu HQ. unfold finish. destruct (sr_episode r =? 0); [by apply safe_ret, HQ|]. destruct (sr_ack_queued r); simpl; [|by apply safe_stop].
  apply (flush_idle ph); auto.
Qed.
(** a receipt that was never acknowledged ends the process *)
Lemma finish_lost ph r (Q : unit -> settler -> Prop) s : at_ ph false s -> sr_ack_queued r = false ->
  (sr_episode r = 0 -> Q () s) -> safe P (finish w r) Q s.
Proof.
  intros Ha Hq HQ. unfold finish. destruct (Z.eqb_spec (sr_episode r) 0); [by apply safe_ret, HQ|]. rewrite Hq. by apply safe_stop.
Qed.

(** *** Landing, retiring, letting go *)
Lemma land_safe page slot b ep (Q : bool -> settler -> Prop) s : at_ (Pulled page b ep) false s ->
  (forall ok s', acks s' = acks s -> at_ (if ok : bool then Stored page ep else Pulled page b ep) false s' -> Q ok s') ->
  safe P (land w page slot b) Q s.
Proof.
  intros [Hp Hl] HQ. unfold land. apply safe_bind. apply (settle_safe_emit _ (Pulled page b ep) true); [done|simpl; by rewrite Hp|done|].
  intros s1 _ Hk1 [Hp1 Hl1].
  assert (Hstore : forall pl s2 (Q' : bool -> settler -> Prop), at_ (Pulled page b ep) true s2 ->
    (forall ok s', acks s' = acks s2 -> at_ (if ok : bool then Stored page ep else Pulled page b ep) true s' -> Q' ok s') -> safe P (store w page pl b) Q' s2).
  { intros pl s2 Q' [Hp2 Hl2] HQ'. apply settle_safe_call; [split; [by eexists|done]|]. apply HQ'; [done|].
    split; simpl; [|done]. rewrite Hp2. destruct (w_store _ _ _ _ _); [|done]. by rewrite bool_decide_true. }
  apply safe_bind, Hstore; [done|]. intros copied s2 Hk2 Ha2. apply safe_bind.
  apply (safe_mono _ _ (fun (ok : bool) s' => acks s' = acks s /\ at_ (if ok then Stored page ep else Pulled page b ep) true s')).
  { destruct copied.
    - apply safe_bind. apply (settle_safe_plain _ _ (Stored page ep) true); [done|done|]. intros [] s3 _ Hk3 Ha3. apply safe_ret. split; [congruence|done].
    - destruct slot; [apply safe_ret; split; [congruence|done]|]. apply safe_bind, Hstore; [done|]. intros ok s3 Hk3 Ha3.
      destruct ok; [|apply safe_ret; split; [congruence|done]]. apply safe_bind. apply (settle_safe_plain _ _ (Stored page ep) true); [done|done|].
      intros [] s4 _ Hk4 Ha4. apply safe_ret. split; [congruence|done]. }
  intros ok s3 _ [Hk3 [Hp3 Hl3]]. apply safe_bind. apply (settle_safe_emit _ (if ok : bool then Stored page ep else Pulled page b ep) false); [done|simpl; rewrite Hp3; by destruct ok|done|].
  intros s4 _ Hk4 Ha4. apply safe_ret, HQ; [congruence|done].
Qed.
(** what settles a page: its loan is retired, or nobody held it *)
Definition settles (page : Z) (e : event) : Prop := e = EvRetire page \/ e = EvHolder page 0.
Lemma grant_safe page ph (Q : unit -> settler -> Prop) s : at_ ph true s -> ph = Acked page \/ ph = Kept page ->
  (forall s', acks s' = acks s -> at_ ph true s' -> Q () s') -> safe P (grant w page) Q s.
Proof.
  intros [Hp Hl] Hph HQ. unfold Traces.safe, grant. destruct (w_guest w (hist s)) as [g m].
  pose proof (PageTake.make_writable_returns g page (ctx w) (PageTake.mk_thread m [])) as Hret.
  destruct (PageTake.page_make_writable g page (ctx w) (PageTake.mk_thread m [])) as [r t]. simpl.
  assert (Hg : forall l, at_ ph true (mk_settler (map (EvGrant page) l ++ hist s) (acks s)) /\ grown P (hist s) (map (EvGrant page) l ++ hist s)).
  { induction l as [|e l [[IH1 IH2] IH3]]; [split; [done|apply grown_refl]|]. simpl in *. split; [split; simpl; [by rewrite IH1|done]|].
    eapply grown_trans; [exact IH3|]. apply grown_one. split; [by rewrite IH1|done]. }
  destruct (Hg (PageTake.hist t)) as [Ha Hgr]. split; [done|]. destruct r; try done. by apply HQ.
Qed.
Lemma retire_safe page ph shared (Q : unit -> settler -> Prop) s : at_ ph false s -> ph = Acked page \/ ph = Kept page ->
  (forall s', happened (settles page) (hist s) (hist s') -> acks s' = acks s -> at_ (Retired page) false s' -> Q () s') -> safe P (retire w page shared) Q s.
Proof.
  intros [Hp Hl] Hph HQ. unfold retire. apply safe_bind. apply (settle_safe_emit _ ph true); [done|simpl; rewrite Hp; by destruct Hph as [-> | ->]|done|].
  intros s1 Hh1 Hk1 Ha1. apply safe_bind. apply (safe_mono _ _ (fun _ s' => acks s' = acks s /\ at_ ph true s')).
  { destruct shared; [|by apply safe_ret]. apply (grant_safe page ph); [done|done|]. intros s2 Hk2 Ha2. split; [congruence|done]. }
  intros [] s2 Hg2 [Hk2 [Hp2 Hl2]]. apply safe_bind. apply (settle_safe_emit _ (Retired page) true); [split; [by rewrite Hp2|done]|simpl; by destruct (phase_of _)|done|].
  intros s3 Hh3 Hk3 [Hp3 Hl3]. apply (settle_safe_emit _ (Retired page) false); [done|simpl; by rewrite Hp3|done|].
  intros s4 Hh4 Hk4 Ha4. apply HQ; [|congruence|done].
  rewrite Hh4, Hh3. destruct Hg2 as (n2 & -> & _). rewrite Hh1. exists ([EvLeave; EvRetire page] ++ n2 ++ [EvEnter]).
  split; [by rewrite <- !app_assoc|]. right; left. by left.
Qed.
Lemma release_safe page final ph (Q : unit -> settler -> Prop) s : at_ ph false s -> ph <> Idle ->
  (forall s', hist s' = EvRelease page final :: hist s -> acks s' = acks s -> at_ Idle false s' -> Q () s') -> safe P (release page final) Q s.
Proof. intros [Hp Hl] Hne HQ. apply (settle_safe_emit _ Idle false); [split; congruence|simpl; by destruct (phase_of _)|done|]. auto. Qed.

(** *** One attempt *)
Lemma grown_event e h h' : P h e -> h' = e :: h -> grown P h h'.
Proof. intros H ->. by apply grown_one. Qed.
Lemma give_up_safe page prior r ph (Q : turn -> settler -> Prop) s : at_ ph false s -> unstored ph -> ph <> Idle ->
  (forall s', at_ Idle false s' -> Q Failed s') -> safe P (leave_page w page prior r) Q s.
Proof.
  intros Ha Hu Hne HQ. unfold leave_page. apply safe_bind. apply (settle_finish_safe ph); [done|done|]. intros s1 Ha1.
  apply safe_bind. apply (release_safe _ _ ph); [done|done|]. intros s2 _ _ Ha2. by apply safe_ret, HQ.
Qed.
Lemma done_safe page shared r ph (Q : turn -> settler -> Prop) s : at_ ph false s -> ph = Acked page \/ ph = Kept page ->
  (forall s', at_ Idle false s' -> happened (settles page) (hist s) (hist s') -> Q Settled s') -> safe P (done w page shared r) Q s.
Proof.
  intros Ha Hph HQ. unfold PageSettle.done. apply safe_bind. apply (retire_safe page ph); [done|done|]. intros s1 He1 _ Ha1.
  apply safe_bind. eapply safe_mono; [apply (settle_finish_safe (Retired page) _ (fun _ s' => at_ (Retired page) false s')); [done|done|auto]|].
  intros [] s2 Hg2 Ha2. apply safe_bind. eapply safe_mono; [apply (release_safe page _ (Retired page) (fun _ s' => at_ Idle false s')); [done|done|auto]|].
  intros [] s3 Hg3 Ha3. apply safe_ret, HQ; [done|]. eapply happened_grown; [exact Hg3|]. eapply happened_grown; [exact Hg2|exact He1].
Qed.
Lemma settle_answer_safe page prior shared slot g b r (Q : turn -> settler -> Prop) s : at_ (pulled page g b (sr_episode r)) false s ->
  (forall t s', at_ Idle false s' -> (t = Settled -> happened (settles page) (hist s) (hist s')) -> Q t s') ->
  safe P (settle_answer w page prior shared slot g b r) Q s.
Proof.
  intros Ha HQ. unfold settle_answer, pulled in *.
  assert (Hfail : forall ph s1, at_ ph false s1 -> unstored ph -> ph <> Idle -> safe P (leave_page w page prior r) Q s1).
  { intros ph s1 Ha1 Hu Hne. apply (give_up_safe _ _ _ ph); [done|done|done|]. intros s' Ha'. by apply HQ. }
  destruct (Z.eqb_spec g SETTLE_CLAIM) as [->|].
  { apply safe_bind. apply (release_safe _ _ (Held page)); [done|done|]. intros s1 _ _ Ha1.
    apply safe_bind. apply (settle_finish_safe Idle); [done|done|]. intros s2 Ha2. apply safe_ret, HQ; [done|done]. }
  destruct (Z.eqb_spec g SETTLE_BYTES) as [->|].
  - apply safe_bind. eapply safe_mono; [apply (land_safe page slot b (sr_episode r) (fun (ok : bool) s' => at_ (if ok then Stored page (sr_episode r) else Pulled page b (sr_episode r)) false s')); [done|auto]|].
    intros ok s1 Hg1 Ha1. destruct ok; [|by apply (Hfail _ s1 Ha1)].
    apply safe_bind. eapply safe_mono; [apply (acked_safe page r (sr_episode r) (fun r' s' => exists a, (at_ (Stored page (sr_episode r)) false s' \/ at_ (Acked page) false s') /\
      ack_pend (acks s') = Some a /\ ak_page a = page /\ ak_episode a = sr_episode r)); [done|done|]; intros; eexists; by split_and!|].
    intros r' s2 Hg2 (a & Ha2 & Hp & Hpg & Hep). apply safe_bind.
    eapply safe_mono; [apply (flush_acked page a (sr_episode r) (fun _ s' => at_ (Acked page) false s')); [done|done|done|done|auto]|].
    intros [] s3 Hg3 Ha3. apply (done_safe page shared r' (Acked page)); [done|by left|]. intros s4 Ha4 He. apply HQ; [done|]. intros _.
    eapply happened_since; [exact Hg1|]. eapply happened_since; [exact Hg2|]. eapply happened_since; [exact Hg3|exact He].
  - destruct (_ || _) eqn:Habs.
    + apply safe_bind, settle_safe_call; [done|]. destruct Ha as [Hp Hl]. destruct (w_present _ _ _ _) eqn:Hpres.
      * set (s1 := snd _). assert (Ha1 : at_ (Kept page) false s1) by (split; simpl; [by rewrite Hpres, Hp, Z.eqb_refl|done]).
        apply (done_safe page shared r (Kept page)); [done|by right|]. intros s2 Ha2 He. apply HQ; [done|]. intros _.
        eapply happened_since; [|exact He]. apply (grown_event (EvPresent page true)); [done|]. simpl. by rewrite Hpres.
      * apply (Hfail (Asked page)); [|done|done]. split; simpl; [by rewrite Hpres, Hp|done].
    + by apply (Hfail (Held page)).
Qed.
Lemma moved_safe page slot ph (Q : bool -> settler -> Prop) s : at_ ph false s -> (forall b s', acks s' = acks s -> at_ ph false s' -> Q b s') ->
  safe P (moved w page slot) Q s.
Proof.
  intros Ha HQ. unfold moved. apply safe_bind. apply (settle_safe_plain _ _ ph false); [done|done|]. intros m s1 _ Hk1 Ha1.
  destruct slot as [off|], m; try (by apply safe_ret, HQ). apply safe_bind. apply (settle_safe_plain _ _ ph false); [done|done|].
  intros off' s2 _ Hk2 Ha2. apply safe_ret, HQ; [congruence|done].
Qed.
Lemma settle_turn_safe page (Q : turn -> settler -> Prop) s : at_ Idle false s ->
  (forall t s', at_ Idle false s' -> (t = Settled -> happened (settles page) (hist s) (hist s')) -> Q t s') ->
  safe P (settle_turn w page) Q s.
Proof.
  intros [Hp Hl] HQ. unfold settle_turn. apply safe_bind, settle_safe_call; [by split|]. destruct (w_claim w (hist s) page) as [e|prior] eqn:Hc.
  { apply safe_ret, HQ; [split; simpl; [by rewrite Hc, Hp|done]|]. by destruct (e =? EBUSY). }
  set (s1 := snd _). assert (Hg1 : grown P (hist s) (hist s1)) by (apply (grown_event (EvClaim page (inr prior))); [by split|simpl; by rewrite Hc]).
  assert (Ha1 : at_ (Held page) false s1) by (split; simpl; [rewrite Hc; by destruct (phase_of _)|done]). clearbody s1.
  apply safe_bind. eapply safe_mono; [apply (settle_safe_plain _ _ (Held page) false (fun o s' => hist s' = EvHolder page o :: hist s1 /\ at_ (Held page) false s')); [done|done|auto]|].
  intros owner s2 Hg2 [Hh2 Ha2]. assert (Hg02 := grown_trans _ _ _ _ Hg1 Hg2). destruct (Z.eqb_spec owner 0) as [->|].
  { apply safe_bind. eapply safe_mono; [apply (release_safe page _ (Held page) (fun _ s' => at_ Idle false s')); [done|done|auto]|].
    intros [] s3 Hg3 Ha3. apply safe_ret, HQ; [done|]. intros _. eapply happened_since; [exact Hg1|]. eapply happened_grown; [exact Hg3|].
    rewrite Hh2. apply happened_one. by right. }
  apply safe_bind. eapply safe_mono; [apply (settle_safe_plain _ _ (Held page) false (fun _ s' => at_ (Held page) false s')); [done|done|auto]|]. intros shared s3 Hg3 Ha3.
  apply safe_bind. eapply safe_mono; [apply (settle_safe_plain _ _ (Held page) false (fun _ s' => at_ (Held page) false s')); [done|done|auto]|]. intros mapped s4 Hg4 Ha4.
  apply safe_bind. apply (safe_mono _ _ (fun _ s' => at_ (Held page) false s')).
  { destruct mapped; [|by apply safe_ret]. apply safe_bind. apply (settle_safe_plain _ _ (Held page) false); [done|done|]. intros off s5 _ _ Ha5. by apply safe_ret. }
  intros slot s5 Hg5 Ha5. assert (Hg05 := grown_trans _ _ _ _ Hg02 (grown_trans _ _ _ _ Hg3 (grown_trans _ _ _ _ Hg4 Hg5))).
  destruct (match slot with Some off => off <? 0 | None => false end).
  { apply safe_bind. apply (release_safe page _ (Held page)); [done|done|]. intros s6 _ _ Ha6. by apply safe_ret, HQ. }
  apply safe_bind. eapply safe_mono; [apply (settle_pull_safe page (fun x s' => at_ (pulled page x.1.1 x.1.2 (sr_episode x.2)) false s')); [done|auto]|].
  intros [[g b] r] s6 Hg6 Ha6. simpl in Ha6. apply safe_bind.
  eapply safe_mono; [apply (moved_safe page slot (pulled page g b (sr_episode r)) (fun _ s' => at_ (pulled page g b (sr_episode r)) false s')); [done|auto]|].
  intros gone s7 Hg7 Ha7. destruct gone.
  - apply (give_up_safe _ _ _ (pulled page g b (sr_episode r))); [done| | |intros s' Ha'; by apply HQ]; unfold pulled; simpl; by repeat case_match.
  - apply settle_answer_safe; [done|]. intros t s' Ha' He. apply HQ; [done|]. intros Ht. eapply happened_since; [exact Hg05|].
    eapply happened_since; [exact Hg6|]. eapply happened_since; [exact Hg7|]. by apply He.
Qed.

(** *** Every page *)
Lemma page_safe fuel page started (Q : bool -> settler -> Prop) s : at_ Idle false s ->
  (forall ok s', at_ Idle false s' -> (ok = true -> happened (settles page) (hist s) (hist s')) -> Q ok s') ->
  safe P (settle_page w fuel page started) Q s.
Proof.
  revert s. induction fuel as [|fuel IH]; intros s Ha HQ; simpl; [by apply safe_stop|]. apply safe_bind.
  eapply safe_mono; [apply (settle_turn_safe page (fun t s' => at_ Idle false s' /\ (t = Settled -> happened (settles page) (hist s) (hist s')))); [done|auto]|].
  intros t s1 Hg1 [Ha1 He]. destruct t; [apply safe_ret, HQ; auto| |by apply safe_ret, HQ].
  apply safe_bind. eapply safe_mono; [apply (settle_safe_plain _ _ Idle false (fun _ s' => at_ Idle false s')); [done|done|auto]|]. intros now s2 Hg2 Ha2.
  destruct (_ <=? _); [by apply safe_ret, HQ|]. apply safe_bind.
  eapply safe_mono; [apply (settle_safe_sleep _ Idle (fun _ s' => at_ Idle false s')); [done|auto]|]. intros [] s3 Hg3 Ha3.
  apply IH; [done|]. intros ok s' Ha' He'. apply HQ; [done|]. intros Hok. eapply happened_since; [exact Hg1|].
  eapply happened_since; [exact Hg2|]. eapply happened_since; [exact Hg3|]. auto.
Qed.
Lemma all_safe pages (Q : bool -> settler -> Prop) s : at_ Idle false s ->
  (forall ok s', at_ Idle false s' -> (ok = true -> Forall (fun page => happened (settles page) (hist s) (hist s')) pages) -> Q ok s') ->
  safe P (settle_all w pages) Q s.
Proof.
  revert Q s. induction pages as [|page pages IH]; intros Q s Ha HQ; [apply safe_ret, HQ; [done|constructor]|].
  cbn [settle_all]. generalize settle_fuel. intros fuel. apply safe_bind.
  eapply safe_mono; [apply (settle_safe_plain _ _ Idle false (fun _ s' => at_ Idle false s')); [done|done|auto]|]. intros t s1 Hg1 Ha1.
  apply safe_bind. eapply safe_mono; [apply (page_safe fuel page t (fun ok s' => at_ Idle false s' /\ (ok = true -> happened (settles page) (hist s1) (hist s')))); [done|auto]|].
  intros ok s2 Hg2 [Ha2 He2]. destruct ok; [|by apply safe_ret, HQ].
  eapply safe_mono; [apply (IH (fun ok s' => at_ Idle false s' /\ (ok = true -> Forall (fun page => happened (settles page) (hist s2) (hist s')) pages))); [done|auto]|].
  intros ok s3 Hg3 [Ha3 He3]. apply HQ; [done|]. intros Hok. constructor.
  - eapply happened_since; [exact Hg1|]. eapply happened_grown; [exact Hg3|]. auto.
  - eapply Forall_impl; [by apply He3|]. intros p Hp. eapply happened_since; [exact Hg1|]. by eapply happened_since; [exact Hg2|].
Qed.
Lemma recall_safe pages (Q : Z -> settler -> Prop) s : at_ Idle false s ->
  (forall r s', at_ Idle false s' -> ack_pend (acks s') = None -> r = 0 \/ r = -1 ->
     (r = 0 -> Forall (fun page => happened (settles page) (hist s) (hist s')) pages) -> Q r s') ->
  safe P (page_recall_all w pages) Q s.
Proof.
  intros Ha HQ. unfold page_recall_all. apply safe_bind.
  eapply safe_mono; [apply (all_safe pages (fun ok s' => at_ Idle false s' /\ (ok = true -> Forall (fun page => happened (settles page) (hist s) (hist s')) pages))); [done|auto]|].
  intros ok s1 Hg1 [Ha1 He1]. apply safe_bind.
  eapply safe_mono; [apply (flush_idle Idle (fun _ s' => ack_pend (acks s') = None /\ at_ Idle false s')); [done|done|auto]|].
  intros [] s2 Hg2 [Hn2 Ha2]. apply safe_ret, HQ; [done|done|destruct ok; auto|]. destruct ok; [|done]. intros _.
  eapply Forall_impl; [by apply He1|]. intros p Hp. by eapply happened_grown; [exact Hg2|].
Qed.
End order.

(** ** The wait ends *)
Record clock (w : world) (time : history -> Z) : Prop := {
  clock_read : forall h, w_clock w h = time h;
  clock_mono : forall e h, time h <= time (e :: h);
  clock_sleep : forall us h, time h + us <= time (EvSleep us :: h) }.
Section ends.
Context (w : world) (time : history -> Z) (Hc : clock w time).
Abbreviation ends m s := (Traces.ends hist time m s).
Lemma settle_ends_call {A} (f : history -> A) ev s : ends (call f ev) s.
Proof. split; [done|]. apply (clock_mono _ _ Hc). Qed.
Lemma settle_ends_abort {A} s : ends (stop Aborted : prog settler A) s.
Proof. split; [done|]. simpl. lia. Qed.
Lemma ends_flush s : ends (flush w) s.
Proof.
  unfold Traces.ends, flush. destruct (ack_pend (acks s)); simpl; [|lia].
  destruct (Receipts.ack_flush _ _); simpl; (split; [done|]); apply (clock_mono _ _ Hc).
Qed.
Lemma ends_acked r page s : ends (acked w r page) s.
Proof.
  unfold Traces.ends, acked. destruct (Receipts.ack_installed _ _ _ _) as [[r' st]| | | |]; simpl; try lia.
  pose proof (ends_flush s) as [H1 H2]. destruct (flush w s) as [[[]| | | |] s1]; simpl in *; (split; [done|]); lia.
Qed.
Local Hint Resolve ends_flush ends_acked : ends.
Local Ltac step :=
  first
  [ solve [auto 1 with ends] | apply ends_ret | apply settle_ends_call | apply settle_ends_abort
  | apply ends_bind; [|intros ? ?]
  | match goal with
    | |- Traces.ends _ _ (if ?b then _ else _) _ => destruct b
    | |- Traces.ends _ _ (match ?x with _ => _ end) _ => destruct x
    end ].
Local Ltac steps := repeat step.
Lemma ends_finish r s : ends (finish w r) s.
Proof. unfold finish. steps. Qed.
Lemma settle_ends_wait n s : ends (wait_ended w n) s.
Proof. revert s. induction n as [|n IH]; intros s; simpl; steps; apply IH. Qed.
Local Hint Resolve ends_finish settle_ends_wait : ends.
Lemma settle_ends_pull page s : ends (ctx_page_pull w page) s.
Proof. unfold ctx_page_pull, ctx_page_pull_mode, source_page_fetch, ctx_stop_unservable. generalize (Z.to_nat 1000). intros n. steps. Qed.
Lemma ends_land page slot b s : ends (land w page slot b) s.
Proof. unfold land, store. steps. Qed.
Lemma ends_moved page slot s : ends (moved w page slot) s.
Proof. unfold moved, mapped_at, offset_at. steps. Qed.
Lemma ends_give_up page prior r s : ends (leave_page w page prior r) s.
Proof. unfold leave_page, release. steps. Qed.
Lemma ends_grant page s : ends (grant w page) s.
Proof.
  unfold Traces.ends, grant. destruct (w_guest w (hist s)) as [g m].
  pose proof (PageTake.make_writable_returns g page (ctx w) (PageTake.mk_thread m [])) as Hret. unfold PageTake.Returns in Hret.
  destruct (PageTake.page_make_writable g page (ctx w) (PageTake.mk_thread m [])) as [r t]. simpl in *. split; [by destruct r|].
  induction (PageTake.hist t) as [|e l IH]; simpl; [lia|]. pose proof (clock_mono _ _ Hc (EvGrant page e) (map (EvGrant page) l ++ hist s)). lia.
Qed.
Local Hint Resolve ends_grant : ends.
Lemma ends_done page shared r s : ends (done w page shared r) s.
Proof. unfold PageSettle.done, retire, release. steps. Qed.
Local Hint Resolve settle_ends_pull ends_land ends_moved ends_give_up ends_done : ends.
Lemma settle_ends_answer page prior shared slot g b r s : ends (settle_answer w page prior shared slot g b r) s.
Proof. unfold settle_answer, release. steps. Qed.
Local Hint Resolve settle_ends_answer : ends.
Lemma settle_ends_turn page s : ends (settle_turn w page) s.
Proof. unfold settle_turn, claim, release, mapped_at, offset_at. steps. Qed.
Lemma ends_page fuel page started s k : (0 <= k <= 4000) -> 4001 <= Z.of_nat fuel + k -> started + 1000 * k <= time (hist s) ->
  ends (settle_page w fuel page started) s.
Proof.
  revert s k. induction fuel as [|fuel IH]; intros s k Hk Hf Ht; [exfalso; lia|]. simpl.
  apply ends_bind'; [apply settle_ends_turn|]. intros t s1 _ Ht1. destruct t; [apply ends_ret| |apply ends_ret].
  apply ends_bind'; [apply settle_ends_call|]. intros now s2 H2 Ht2. destruct (Z.leb_spec 4000000 (now - started)); [apply ends_ret|].
  apply ends_bind'; [apply settle_ends_call|]. intros [] s3 H3 Ht3.
  injection H3 as <-. injection H2 as <- <-. simpl in *. rewrite (clock_read _ _ Hc) in *.
  assert (Hs := clock_sleep _ _ Hc 1000 (EvClock (time (hist s1)) :: hist s1)). apply (IH _ (k + 1)); simpl; lia.
Qed.
Lemma fuel_eq : Z.of_nat settle_fuel = 4002.
Proof. by apply Z2Nat.id. Qed.
Lemma ends_all pages s : ends (settle_all w pages) s.
Proof.
  pose proof fuel_eq as Hf. revert Hf. unfold settle_all. generalize settle_fuel. intros fuel Hf.
  revert s. induction pages as [|page pages IH]; intros s; [apply ends_ret|].
  apply ends_bind'; [apply settle_ends_call|]. intros started s1 H1 Ht1. injection H1 as <- <-. apply ends_bind.
  - apply (ends_page _ _ _ _ 0); [lia|lia|]. simpl. rewrite (clock_read _ _ Hc).
    pose proof (clock_mono _ _ Hc (EvClock (time (hist s))) (hist s)). lia.
  - intros ok s2. destruct ok; [apply IH|apply ends_ret].
Qed.
Lemma ends_recall pages s : ends (page_recall_all w pages) s.
Proof. unfold page_recall_all. apply ends_bind; [apply ends_all|]. intros ok s1. apply ends_bind; [apply ends_flush|]. intros [] s2. apply ends_ret. Qed.
End ends.

(** ** A run
    Two loans: the source is fetching the first when it is first asked, and does
    not hold the second, which survives in the object. *)
Definition demo_target : vmr_mm_binding := mk_binding 7 9 3 1.
Definition demo_time (h : history) : Z := foldr (fun e t => match e with EvSleep us => Z.max 0 us + t | _ => t end) 0 h.
Definition demo_fetch (h : history) (page : Z) : fetch_reply :=
  if page =? 0x2000 then mk_reply false VMR_CTXPAGE_NOTHOLDER [] demo_target 0 0 0 0
  else if demo_time h =? 0 then mk_reply false VMR_CTXPAGE_CLAIMING [] demo_target 0 0 0 0
  else mk_reply false VMR_PG_SIZE [7] demo_target page 5 1 1.
Definition demo_of (shared : Z -> bool) : world :=
  mk_world demo_time (fun _ _ => inr 2) (fun _ _ => 4) (fun _ => shared) (fun _ _ => false) (fun _ _ => -1)
    (fun h page _ => demo_fetch h page) (fun _ => false) (fun _ _ p _ => match p with AtContext => false | _ => true end) (fun _ _ _ => true) (fun _ _ => true)
    1 (fun _ => (PageTake.demo_world false, PageTake.mem PageTake.demo_thread)).
Definition demo_world : world := demo_of (fun _ => false).
Definition demo_settler : settler := mk_settler [] ack_none.
Lemma settle_demo_clock : clock demo_world demo_time.
Proof. split; [done| |]; intros; simpl; [|lia]. destruct e; simpl; lia. Qed.
Example settle_demo_run : let r := page_recall_all demo_world [0x1000; 0x2000] demo_settler in
  r.1 = Ok 0 /\ omap (fun e => match e with EvAck a _ => Some (ak_page a) | EvRetire p => Some (- p) | EvSleep _ => Some 0 | _ => None end) (rev (hist r.2)) =
    [0; 0x1000; -0x1000; -0x2000].
Proof. by vm_compute. Qed.

(** The loan of a shared copy: the write grant finds the page busy, and waits for
    it with the coherence lock held. *)
Lemma grant_waits_locked : exists h1 h2,
  hist (page_recall_all (demo_of (fun page => page =? 0x5000)) [0x5000] demo_settler).2 =
    h1 ++ EvGrant 0x5000 (PageTake.EvCall PageTake.KTakeObj 1 (inl EBUSY)) :: h2 /\ locked h2 = true /\
  (page_recall_all (demo_of (fun page => page =? 0x5000)) [0x5000] demo_settler).1 = Ok 0.
Proof.
  set (h := hist (page_recall_all (demo_of (fun page => page =? 0x5000)) [0x5000] demo_settler).2).
  exists (take 7 h), (drop 8 h). split; [|split]; by vm_compute.
Qed.

(** ** The properties *)

(** C13: settling keeps its order and ends.  Whatever the transfer table, the loan
    table, the mappings, the guest's memory and the source answer, and with a clock
    that does not go back, [page_recall_all] returns 0 or -1, or ends the process;
    one page is reserved at a time and no reservation or pending acknowledgement
    is left.  Only bytes pulled under the reservation are stored; a loan is
    retired, and the write of a shared page granted, only after its bytes were
    stored and acknowledged to the source, or when the source says it does not
    hold the page and a copy is here.  The coherence lock is held across no
    request or acknowledgement to the source and no sleep of the loop; it is held
    across the storing and across the calls of the write grant, which waits for a
    busy page with it held ([grant_waits_locked]).  With 0 every page of the
    snapshot had no holder or had its loan retired. *)
Theorem loans_settled_in_order (w : world) (time : history -> Z) (pages : list Z) (s : settler)
  (Hc : clock w time) (Hidle : phase_of (hist s) = Idle) (Hlock : locked (hist s) = false) :
  let r := page_recall_all w pages s in
  grown ordered (hist s) (hist r.2) /\
  match r.1 with
  | Ok z => phase_of (hist r.2) = Idle /\ locked (hist r.2) = false /\ ack_pend (acks r.2) = None /\ (z = 0 \/ z = -1) /\
            (z = 0 -> Forall (fun page => happened (settles page) (hist s) (hist r.2)) pages)
  | Aborted => True
  | _ => False
  end.
Proof.
  intros r. destruct (recall_safe w pages (fun z s' => at_ Idle false s' /\ ack_pend (acks s') = None /\ (z = 0 \/ z = -1) /\
    (z = 0 -> Forall (fun page => happened (settles page) (hist s) (hist s')) pages)) s (conj Hidle Hlock)) as [Hg HQ]; [by auto|].
  destruct (ends_recall w time Hc pages s) as [He _]. split; [done|]. subst r.
  destruct (page_recall_all w pages s) as [[z| | | |] s']; simpl in *; try done. destruct HQ as ([? ?] & ?). tauto.
Qed.
Lemma loans_settled_in_order_witness :
  phase_of (hist (page_recall_all demo_world [0x1000; 0x2000] demo_settler).2) = Idle /\
  grown ordered (hist demo_settler) (hist (page_recall_all demo_world [0x1000; 0x2000] demo_settler).2).
Proof.
  pose proof (loans_settled_in_order demo_world demo_time [0x1000; 0x2000] demo_settler settle_demo_clock eq_refl eq_refl) as H.
  cbv zeta in H. destruct H as [H _]. split; [by vm_compute|exact H].
Defined.
End PageSettle.
