(* ===== verification/SourcePage.v ===== *)
(** * Page requests of a connection (user/vmhome.c, serve)

    The executor asks the source for a page (CTXPAGE), acknowledges its landing
    (INSTALLED) and reports a write it is about to grant (WRITEPREP).  [ctx_page]
    begins a native transfer in the connection's custody (SourceTransfer.v),
    captures and reads it, and answers with its episode; an answer without a page
    cancels the transfer.  [page_request] is the part of [serve] around them: the
    checks of a request, the refusal of other work while transfers are open, the
    dispatch of the four page operations and their reply; any other operation
    is dispatched elsewhere.  The lineage tables are those of SourceLineage.v.

    The kernel's transfers are [native] of SourceTransfer.v; what other calls
    find is the record [conn_env] of one request. *)
From S2P Require Import Prelude Native Proto SourceTransfer SourceLineage Receipts.
Open Scope Z_scope.

Module SourcePage.
Import Proto SourceTransfer SourceLineage.

Definition ENXIO : Z := 6.
Definition EACCES : Z := 13.
Definition VMR_MAGIC : Z := 0x50524d56.
Definition VMR_CTXPAGE_ABSENT : Z := -61.
Definition VMR_CTXPAGE_CLAIMING : Z := -11.
Definition VMR_CTXPAGE_NOTHOLDER : Z := -116.
Definition VMR_CTXPAGE_FAILED : Z := -4096.
Definition VMR_CTXPAGE_COWBREAK : Z := -18.
Definition VMR_CTXPAGE_GONE : Z := -19.
Definition VMCTX_SERVE_CLAIMING : Z := 4.
Definition VMCTX_SERVE_DENIED : Z := 5.
Definition VMCTX_PGC_SHARED : Z := 4.
Definition VMCTX_PGC_PRESENT : Z := 16.
Definition VMCTX_PGC_RO : Z := 32.
Definition PG_NONE : Z := 0.
Definition PG_THEIRS : Z := 2.
Definition FORK_REL_MAX : Z := 256.
Definition MAXDATA : Z := 256 * 1024.
Definition zeros : list Z := replicate 4096 0.

(** ** State and environment *)
Record conn := mk_conn { custody : source_custody; calls : history }.
(** the answer to VMCTX_CTL_SERVE with PROBE *)
Record serve_probe := mk_probe { sp_status : Z; sp_state : Z; sp_class : Z }.
Record conn_env := mk_env {
  e_self : Z; e_source : Z;                (* this thread; conn_source *)
  e_known : bool;                          (* source_record_has_binding *)
  e_parent : bool;                         (* source_memory_target_for_mm of the parent *)
  e_lineage : lineage_table; e_cow : cow_table;
  e_probe : option serve_probe; e_ended : bool;      (* as_has_ended *)
  e_alloc : bool; e_buf : Z }.
(** the result of [ctx_page]: the page and its receipt when it is positive *)
Record page_answer := mk_answer { pa_ret : Z; pa_bytes : list Z; pa_episode : Z; pa_gen : Z }.
Definition no_page (ret : Z) : page_answer := mk_answer ret [] 0 0.

Definition in_custody {A} (f : source_custody -> history -> result A * source_custody * history) : prog conn A := fun c =>
  let '(r, cu, h) := f (custody c) (calls c) in (r, mk_conn cu h).
(** on the entry [source_custody_begin] left at the head *)
Definition on_entry {A} (f : source_transfer -> history -> result A * source_transfer * history) : prog conn A := fun c =>
  match cu_pending (custody c) with
  | [] => (Corrupt, c)
  | e :: _ => let '(r, t, h) := f (ce_transfer e) (calls c) in (r, mk_conn (update_at 0 t (custody c)) h)
  end.
Definition entry : prog conn source_transfer := fun c =>
  match cu_pending (custody c) with [] => (Corrupt, c) | e :: _ => (Ok (ce_transfer e), c) end.
Definition pending_length : prog conn nat := fun c => (Ok (length (cu_pending (custody c))), c).

Section requests.
Context (native : history -> ncall -> nanswer).

(** ** Serving a page *)
Definition cow_still_shared (e : conn_env) (target : vmr_mm_binding) (nocow : Z) : Z :=
  if nz nocow || (fork_parent_mm (mb_mm target) (e_lineage e) =? 0) then 0
  else match e_probe e with
       | None => VMR_CTXPAGE_FAILED
       | Some sv => if negb (sp_state sv =? PG_NONE) then 0
                    else if nz (sp_class sv .& VMCTX_PGC_SHARED) then 0
                    else if nz (sp_class sv .& VMCTX_PGC_PRESENT) then 0 else 1
       end.
Definition cancel_transfer (e : conn_env) (target : vmr_mm_binding) (address episode : Z) : prog conn bool :=
  r ← attempt (in_custody (source_custody_cancel native (e_self e) target address episode));
  mret (match r with inr _ => true | inl _ => false end).
Definition is_data (q : vmctx_transfer) : bool := (vt_status q =? VMCTX_SERVE_TAKEN) || (vt_status q =? VMCTX_SERVE_COPIED).
Definition is_zero (q : vmctx_transfer) : bool := (vt_status q =? VMCTX_SERVE_ABSENT) && nz (vt_flags q .& VMCTX_SERVE_GRANT).
(** the answer for a capture that delivers nothing and was cancelled *)
Definition refusal (captured : vmctx_transfer) : Z :=
  if vt_status captured =? VMCTX_SERVE_CLAIMING then VMR_CTXPAGE_CLAIMING
  else if vt_status captured =? VMCTX_SERVE_ABSENT
       then (if vt_state captured =? PG_THEIRS then VMR_CTXPAGE_NOTHOLDER else VMR_CTXPAGE_ABSENT)
  else if vt_status captured =? VMCTX_SERVE_DENIED then - EACCES
  else if vt_status captured =? VMCTX_SERVE_NOMAP then - EFAULT
  else VMR_CTXPAGE_FAILED.
(** what follows a successful capture *)
Definition deliver (e : conn_env) (target : vmr_mm_binding) (address episode : Z) (captured : vmctx_transfer) : prog conn page_answer :=
  if is_data captured || is_zero captured then
    r ← attempt (on_entry (fun t => source_transfer_read native t (e_buf e)));
    mret (match r with
          | inl _ => no_page VMR_CTXPAGE_FAILED
          | inr bytes => mk_answer VMR_PG_SIZE (if is_zero captured then zeros else default [] bytes) episode (vt_gen captured)
          end)
  else
    ok ← cancel_transfer e target address episode;
    mret (no_page (if ok : bool then refusal captured else VMR_CTXPAGE_FAILED)).
Definition ctx_page (e : conn_env) (target : vmr_mm_binding) (address length capacity nocow : Z) : prog conn page_answer :=
  if negb (length =? VMR_PG_SIZE) || nz (address .& 4095) || (capacity <? length) || (I64MAX - length <? address)
  then mret (no_page VMR_CTXPAGE_FAILED)
  else
    let shared := cow_still_shared e target nocow in
    if shared <? 0 then mret (no_page shared)
    else if nz shared then mret (no_page VMR_CTXPAGE_COWBREAK)
    else
      before ← pending_length;
      r ← attempt (in_custody (source_custody_begin native (e_alloc e) (e_self e) target address));
      match r with
      | inl err =>
          after ← pending_length;
          mret (no_page (if negb (before <? after)%nat && ((err =? ESRCH) || (err =? ENXIO)) then - err else VMR_CTXPAGE_FAILED))
      | inr _ =>
          t ← entry;
          let episode := st_ticket t in
          r ← attempt (on_entry (source_transfer_capture native));
          match r with
          | inl err =>
              if err =? EBUSY then
                ok ← cancel_transfer e target address episode;
                mret (no_page (if ok : bool then VMR_CTXPAGE_CLAIMING else VMR_CTXPAGE_FAILED))
              else mret (no_page VMR_CTXPAGE_FAILED)
          | inr _ => t ← entry; deliver e target address episode (st_result t)
          end
      end.
Definition ctx_page_ack (e : conn_env) (target : vmr_mm_binding) (address episode : Z) : prog conn Z :=
  r ← attempt (in_custody (source_custody_ack native (e_self e) target address episode));
  mret (match r with inr _ => 0 | inl err => - (if nz err then err else EIO) end).

(** ** A write about to be granted
    whether some fork child has not been given the page *)
Fixpoint owed (kids : list Z) (page : Z) (t : cow_table) : result bool :=
  match kids with
  | [] => Ok false
  | k :: kids => let! broken := cow_mm_is_broken k page t in
                 let! rest := owed kids page t in Ok (negb broken || rest)
  end.
Definition ctx_write_prep (e : conn_env) (target : vmr_mm_binding) (address : Z) : result Z :=
  let page := page_base address in
  let! kids := fork_rel_children (mb_mm target) FORK_REL_MAX (e_lineage e) in
  match e_probe e with
  | None => Ok VMR_CTXPAGE_FAILED
  | Some sv =>
      if sp_status sv =? VMCTX_SERVE_NOMAP then Ok (- EFAULT)
      else if sp_status sv =? VMCTX_SERVE_DENIED then Ok (- EACCES)
      else if nz (sp_class sv .& VMCTX_PGC_RO) then Ok (- EACCES)
      else let! some := owed kids page (e_cow e) in
           Ok (if some then VMR_CTXPAGE_COWBREAK else 0)
  end.

(** ** One request *)
Inductive served :=
| Closed                                                   (* the connection ends *)
| Elsewhere                                                (* not a page operation *)
| Replied (rs : vmr_rsp) (gen : Z) (bytes : list Z).
Definition arg (rq : vmr_req) (i : nat) : Z := default 0 (rq_args rq !! i).
Definition request_ok (e : conn_env) (rq : vmr_req) : bool :=
  if vmr_memory_operation (rq_nr rq) then
    vmr_binding_valid (rq_target rq) && (mb_context (rq_target rq) <=? I32MAX) && e_known e &&
    (fork_parent_mm (mb_mm (rq_target rq)) (e_lineage e) =? mb_parent_mm (rq_target rq)) && (0 <? e_source e) &&
    (if rq_nr rq =? VMR_OP_CHILD_PAGES
     then nz (mb_parent_mm (rq_target rq)) && (arg rq 0 =? mb_context (rq_target rq)) && e_parent e
     else mb_context (rq_target rq) =? e_source e) &&
    negb ((rq_nr rq =? VMR_OP_CTXPAGE) &&
          (nz (rq_datalen rq) || nz (arg rq 0 .& 4095) || negb (arg rq 1 =? VMR_PG_SIZE) ||
           (I64MAX - arg rq 1 <? arg rq 0) || (1 <? arg rq 2) || nz (arg rq 3) || nz (arg rq 4) || nz (arg rq 5)))
  else vmr_binding_empty (rq_target rq).
(** the operations an open transfer allows *)
Definition page_traffic (nr : Z) : bool := (nr =? VMR_OP_CTXPAGE) || (nr =? VMR_OP_INSTALLED) || (nr =? VMR_OP_STALETRAIL).
Definition page_reply (rq : vmr_req) (a : page_answer) : vmr_rsp :=
  let page := (rq_nr rq =? VMR_OP_CTXPAGE) && (0 <? pa_ret a) in
  let rs := mk_rsp VMR_MAGIC 0 0 0 no_binding 0 (replicate 6 0) 0 (pa_ret a) 0 (if page then pa_ret a else 0) 0 0 0 0
              (if page then 1 else 0) (if page then pa_episode a else 0) 0 (if page then 1 else 0) no_binding no_binding in
  if vmr_memory_operation (rq_nr rq) then vmr_memory_receipt rq rs else rs.
(** a native task that is gone: whether its memory is decides the answer *)
Definition gone_answer (e : conn_env) (a : page_answer) : page_answer :=
  if (pa_ret a =? - ESRCH) || (pa_ret a =? - ENXIO)
  then no_page (if e_ended e then VMR_CTXPAGE_GONE else VMR_CTXPAGE_CLAIMING) else a.
Definition page_handle (e : conn_env) (rq : vmr_req) : option (prog conn page_answer) :=
  if rq_nr rq =? VMR_OP_CTXPAGE then
    Some (a ← ctx_page e (rq_target rq) (arg rq 0) (arg rq 1) MAXDATA (arg rq 2); mret (gone_answer e a))
  else if rq_nr rq =? VMR_OP_INSTALLED then
    Some (if nz (rq_datalen rq) || nz (arg rq 2) || nz (arg rq 3) || nz (arg rq 4) || nz (arg rq 5)
          then mret (no_page (- EINVAL))
          else r ← ctx_page_ack e (rq_target rq) (arg rq 0) (arg rq 1); mret (no_page r))
  else if rq_nr rq =? VMR_OP_STALETRAIL then Some (mret (no_page 0))
  else if rq_nr rq =? VMR_OP_WRITEPREP then
    Some (r ← stop (ctx_write_prep e (rq_target rq) (arg rq 0)); mret (no_page r))
  else None.
Definition page_request (e : conn_env) (rq : vmr_req) : prog conn served := fun c =>
  if negb (request_ok e rq) then (Ok Closed, c)
  else if nz (cu_count (custody c)) && negb (page_traffic (rq_nr rq)) then (Ok Closed, c)
  else match page_handle e rq with
       | None => (Ok Elsewhere, c)
       | Some m => (a ← m; mret (Replied (page_reply rq a) (pa_gen a) (pa_bytes a))) c
       end.
(** the end of the connection *)
Definition source_connection_close (e : conn_env) : prog conn unit := fun c =>
  let unresolved := cu_count (custody c) in
  match in_custody (source_custody_abandon native (e_self e)) c with
  | (Ok _, c) => (if nz unresolved then Aborted else Ok (), c)
  | (_, c) => (Aborted, c)
  end.
End requests.

(** ** The custody of one transfer
    [opened]: the collection holds one entry more, for this page, not settled. *)
Record opened (self : Z) (target : vmr_mm_binding) (address : Z) (cu0 cu : source_custody) (t : source_transfer) : Prop := {
  op_pending : cu_pending cu = mk_entry target t :: cu_pending cu0;
  op_count : cu_count cu = u64 (cu_count cu0 + 1); op_room : cu_count cu0 <> U64MAX;
  op_owner : cu_owner cu = Some self; op_closed : cu_closed cu = false;
  op_target : vmr_binding_valid target = true; op_aligned : nz (address .& 4095) = false;
  op_mm : st_mm t = mb_mm target; op_address : st_address t = address; op_ticket : st_ticket t <> 0;
  op_unsettled : st_settled t = false; op_uncancelled : st_cancelled t = false }.

Section transfer.
Context (native : history -> ncall -> nanswer) (self : Z) (target : vmr_mm_binding) (address : Z).
Abbreviation opened := (opened self target address).

Lemma begin_opened alloc cu h r cu' h' :
  source_custody_begin native alloc self target address cu h = (r, cu', h') ->
  match r with
  | Ok _ => exists t, opened cu cu' t /\ st_captured t = false /\ st_read t = false
  | Err _ => cu_pending cu' = cu_pending cu \/ exists x, cu_pending cu' = x :: cu_pending cu
  | _ => False
  end.
Proof.
  unfold source_custody_begin. destruct (source_custody_thread self cu) as [r0 cu0] eqn:Ht.
  assert (cu_pending cu0 = cu_pending cu /\ cu_count cu0 = cu_count cu /\
    (r0 = Ok tt /\ cu_owner cu0 = Some self \/ exists e, r0 = Err e)) as (Hp & Hc & Hr).
  { unfold source_custody_thread in Ht. destruct (cu_owner cu) eqn:Ho; [destruct (Z.eqb_spec z self)|]; simplify_eq/=; eauto 10. }
  destruct Hr as [[-> Ho]|[e ->]]; [|intros; simplify_eq; auto].
  destruct (cu_closed cu0) eqn:Hcl; [intros; simplify_eq; auto|].
  destruct (_ || _ || _) eqn:Hg; [intros; simplify_eq; auto|].
  destruct (Z.eqb_spec (cu_count cu0) U64MAX) as [|Hroom]; [intros; simplify_eq; auto|].
  destruct alloc; simpl; [|intros; simplify_eq; auto].
  unfold source_transfer_begin, issue.
  destruct (_ || st_begun _ || _ || _); [intros; simplify_eq/=; auto|].
  destruct (native h _) as [e|q b]; [intros; simplify_eq/=; auto|].
  destruct (_ || nz (vt_reserved q)) eqn:Hq; intros; simplify_eq/=; [rewrite Hp; eauto|].
  exists (mk_transfer (mb_mm target) address (vt_ticket q) xfer_zero true false false false false 0). split; [|done].
  assert (vt_ticket q <> 0) by (clear -Hq; repeat (apply orb_false_iff in Hq as [Hq ?]); lia).
  repeat (apply orb_false_iff in Hg as [Hg ?]). apply negb_false_iff in Hg. split; simpl; try done; congruence.
Qed.

Lemma opened_update cu0 cu t t' :
  opened cu0 cu t -> same_handle t t' -> st_settled t' = st_settled t -> st_cancelled t' = st_cancelled t ->
  opened cu0 (update_at 0 t' cu) t'.
Proof.
  intros [Hp ? ? ? ? ? ? ? ? ? ? ?] (? & ? & ?) ? ?. unfold update_at. rewrite Hp. simpl. split; simpl; congruence.
Qed.
Lemma step_total t op buf h r h' :
  source_transfer_step native t op buf h = (r, h') -> match r with Ok _ | Err _ => True | _ => False end.
Proof. intros [[_ ->]|(a & _ & Hr)]%step_calls; [done|]. by destruct r. Qed.

Lemma capture_opened cu0 cu t h r t' h' :
  opened cu0 cu t -> source_transfer_capture native t h = (r, t', h') ->
  opened cu0 (update_at 0 t' cu) t' /\ st_read t' = st_read t /\
  match r with Ok _ => st_captured t' = true | Err _ => True | _ => False end.
Proof.
  intros Ho. unfold source_transfer_capture. destruct (source_transfer_step _ _ _ _ _) as [r0 h0] eqn:Hs.
  apply step_total in Hs. intros Heq.
  assert (Hu : forall t1, same_handle t t1 -> st_settled t1 = st_settled t -> st_cancelled t1 = st_cancelled t ->
    opened cu0 (update_at 0 t1 cu) t1) by (intros; by eapply opened_update).
  repeat case_match; simplify_eq; (split; [by apply Hu|done]).
Qed.
(** what READ delivered *)
Definition page_read (buf : Z) (t : source_transfer) (bytes : list Z) (h : history) : Prop :=
  exists q b h0, h = (NStep VMCTX_TRANSFER_READ (mb_mm target) address (st_ticket t) buf, NOk q b) :: h0 /\
    same_result q (st_result t) = true /\
    bytes = if is_data (st_result t) then b else zeros.
Lemma read_opened buf cu0 cu t h r t' h' :
  opened cu0 cu t -> st_captured t = true -> source_transfer_read native t buf h = (r, t', h') ->
  opened cu0 (update_at 0 t' cu) t' /\ st_captured t' = true /\ st_result t' = st_result t /\ st_ticket t' = st_ticket t /\
  match r with
  | Ok bytes => st_read t' = true /\
      forall captured, captured = st_result t -> is_data captured || is_zero captured = true ->
      page_read buf t' (if is_zero captured then zeros else default [] bytes) h'
  | Err _ => True
  | _ => False
  end.
Proof.
  intros Ho Hc. unfold source_transfer_read. rewrite Hc. simpl.
  destruct (source_transfer_step _ _ _ _ _) as [r0 h0] eqn:Hs. pose proof (step_total _ _ _ _ _ _ Hs) as Ht.
  assert (Hu : forall t1, same_handle t t1 -> st_settled t1 = st_settled t -> st_cancelled t1 = st_cancelled t ->
    opened cu0 (update_at 0 t1 cu) t1) by (intros; by eapply opened_update).
  destruct r0 as [[q b]|e| | |]; try done; [|intros; simplify_eq; split; [by apply Hu|done]].
  destruct (same_result q (st_result t)) eqn:Hsame; intros; simplify_eq/=; [|split; [by apply Hu|done]].
  split; [by apply Hu|]. split; [done|]. split; [done|]. split; [done|]. split; [done|].
  intros captured -> Hd. apply step_calls in Hs as [[_ ?]|(a & -> & ->)]; [done|].
  exists q, b, h. simpl. rewrite (op_mm _ _ _ _ _ _ Ho), (op_address _ _ _ _ _ _ Ho).
  split; [done|]. split; [done|].
  assert (Hst : vt_status q = vt_status (st_result t)) by (unfold same_result in Hsame; lia).
  unfold is_data, is_zero in *. rewrite Hst.
  destruct (Z.eqb_spec (vt_status (st_result t)) VMCTX_SERVE_ABSENT) as [He|]; simpl in *.
  - rewrite He in *. simpl in *. by rewrite Hd.
  - rewrite orb_false_r in Hd. by rewrite Hd.
Qed.

Lemma find_opened cu0 cu t :
  opened cu0 cu t -> source_custody_find self target address (st_ticket t) cu = (Ok 0%nat, cu).
Proof.
  intros [Hp Hc ? Ho Hcl Hv Hal Hm Ha Htk ? ?]. unfold source_custody_find, source_custody_thread.
  rewrite Ho, Z.eqb_refl, Hcl, Hv, Hal, (proj2 (Z.eqb_neq _ _) Htk), Hp. simpl.
  rewrite Z.eqb_refl, Ha, Z.eqb_refl. simpl. by rewrite (proj2 (binding_equal_spec _ _) eq_refl).
Qed.
Lemma cancel_opened cu0 cu t h r cu' h' :
  opened cu0 cu t -> source_custody_cancel native self target address (st_ticket t) cu h = (r, cu', h') ->
  match r with Ok _ => cu_pending cu' = cu_pending cu0 | Err _ => True | _ => False end.
Proof.
  intros Ho. unfold source_custody_cancel. rewrite (find_opened _ _ _ Ho), (op_pending _ _ _ _ _ _ Ho). simpl.
  unfold source_transfer_cancel. rewrite (op_unsettled _ _ _ _ _ _ Ho).
  destruct (source_transfer_step _ _ VMCTX_TRANSFER_CANCEL _ _) as [r0 h0] eqn:Hs. apply step_total in Hs.
  destruct r0 as [x|e| | |]; try done; [|intros; by simplify_eq].
  unfold update_at. rewrite (op_pending _ _ _ _ _ _ Ho). simpl. unfold source_custody_retire. simpl.
  unfold source_transfer_forget. simpl.
  destruct (source_transfer_step _ _ VMCTX_TRANSFER_FORGET _ _) as [r1 h1] eqn:Hs1. apply step_total in Hs1.
  destruct r1; try done; intros; by simplify_eq.
Qed.
End transfer.

(** ** Specification of the operations *)
Lemma wp_in_custody {A} (f : source_custody -> history -> result A * source_custody * history) Q c :
  (forall r cu h, f (custody c) (calls c) = (r, cu, h) -> Q r (mk_conn cu h)) -> wp (in_custody f) Q c.
Proof. intros H. unfold wp, in_custody. destruct (f _ _) as [[r cu] h] eqn:Hf. by apply H. Qed.
Lemma wp_on_entry {A} (f : source_transfer -> history -> result A * source_transfer * history) x rest Q c :
  cu_pending (custody c) = x :: rest ->
  (forall r t h, f (ce_transfer x) (calls c) = (r, t, h) -> Q r (mk_conn (update_at 0 t (custody c)) h)) ->
  wp (on_entry f) Q c.
Proof. intros Hp H. unfold wp, on_entry. rewrite Hp. destruct (f _ _) as [[r t] h] eqn:Hf. by apply H. Qed.
Lemma wp_entry x rest Q c : cu_pending (custody c) = x :: rest -> Q (Ok (ce_transfer x)) c -> wp entry Q c.
Proof. intros Hp H. unfold wp, entry. by rewrite Hp. Qed.

Section spec.
Context (native : history -> ncall -> nanswer) (e : conn_env).

(** The answer carries a page: one transfer more, captured and read, under the
    answer's episode, and the page is what READ wrote or a granted zero page. *)
Definition backed (target : vmr_mm_binding) (address : Z) (a : page_answer) (c c' : conn) : Prop :=
  exists t, opened (e_self e) target address (custody c) (custody c') t /\ st_captured t = true /\ st_read t = true /\
    st_ticket t = pa_episode a /\ vt_gen (st_result t) = pa_gen a /\
    (is_data (st_result t) || is_zero (st_result t)) = true /\
    page_read target address (e_buf e) t (pa_bytes a) (calls c').
Definition answered (target : vmr_mm_binding) (address : Z) (c : conn) (r : result page_answer) (c' : conn) : Prop :=
  match r with
  | Ok a => (pa_ret a = VMR_PG_SIZE /\ backed target address a c c') \/
            (exists ret, a = no_page ret /\ ret < 0 /\
              (ret <> VMR_CTXPAGE_FAILED -> cu_pending (custody c') = cu_pending (custody c)))
  | _ => False
  end.
Lemma answered_no_page target address c c' ret :
  ret < 0 -> (ret <> VMR_CTXPAGE_FAILED -> cu_pending (custody c') = cu_pending (custody c)) ->
  answered target address c (Ok (no_page ret)) c'.
Proof. intros H1 H2. right. eauto. Qed.

Lemma cancel_transfer_spec target address c0 t Q c :
  opened (e_self e) target address (custody c0) (custody c) t ->
  (forall ok c', (ok = true -> cu_pending (custody c') = cu_pending (custody c0)) -> Q (Ok ok) c') ->
  wp (cancel_transfer native e target address (st_ticket t)) Q c.
Proof.
  intros Ho HQ. unfold cancel_transfer. apply wp_bind, wp_attempt, wp_in_custody. intros r cu h Hr.
  pose proof (cancel_opened _ _ _ _ _ _ _ _ _ _ _ Ho Hr) as Hc. destruct r; try done; apply wp_ret, HQ; done.
Qed.
Lemma refusal_neg q : refusal q < 0.
Proof. unfold refusal. repeat case_match; done. Qed.
Lemma deliver_spec target address c0 t c :
  opened (e_self e) target address (custody c0) (custody c) t -> st_captured t = true ->
  wp (deliver native e target address (st_ticket t) (st_result t)) (answered target address c0) c.
Proof.
  intros Ho Hcap. unfold deliver. destruct (is_data _ || is_zero _) eqn:Hd.
  - apply wp_bind, wp_attempt. eapply wp_on_entry; [apply Ho|]. intros r t' h Hr.
    destruct (read_opened _ _ _ _ _ _ _ _ _ _ _ _ Ho Hcap Hr) as (Ho' & Hc' & Hres & Htk & Hb).
    destruct r as [bytes|err| | |]; try done; apply wp_ret; [|by apply answered_no_page].
    destruct Hb as [Hrd Hb]. left. split; [done|]. exists t'. simpl. rewrite Hres.
    repeat (split; [done|]). by apply Hb.
  - apply wp_bind. eapply cancel_transfer_spec; [done|]. intros ok c' Hk. apply wp_ret, answered_no_page.
    + destruct ok; [apply refusal_neg|done].
    + destruct ok; [auto|done].
Qed.
Lemma ctx_page_spec target address length capacity nocow c :
  wp (ctx_page native e target address length capacity nocow) (answered target address c) c.
Proof.
  unfold ctx_page. destruct (_ || _); [by apply wp_ret, answered_no_page|]. cbv zeta.
  assert (Hsh : cow_still_shared e target nocow = VMR_CTXPAGE_FAILED \/ 0 <= cow_still_shared e target nocow)
    by (unfold cow_still_shared; repeat case_match; auto; right; lia).
  destruct (Z.ltb_spec (cow_still_shared e target nocow) 0).
  { destruct Hsh as [->|]; [by apply wp_ret, answered_no_page|lia]. }
  destruct (nz _); [by apply wp_ret, answered_no_page|].
  apply wp_bind. unfold pending_length at 1, wp at 1. simpl.
  apply wp_bind, wp_attempt, wp_in_custody. intros r cu h Hr. apply begin_opened in Hr.
  destruct r as [[]|err| | |]; try done.
  2:{ apply wp_bind. unfold pending_length, wp at 1. simpl. apply wp_ret, answered_no_page.
      - destruct (_ && _) eqn:Hb; [|done]. unfold ESRCH, ENXIO in Hb. lia.
      - simpl. destruct Hr as [->|[x ->]]; [done|]. simpl.
        by rewrite (proj2 (Nat.ltb_lt _ _)) by lia. }
  destruct Hr as (t & Ho & Hcap & Hrd). apply wp_bind. eapply wp_entry; [apply Ho|]. simpl.
  apply wp_bind, wp_attempt. eapply wp_on_entry; [apply Ho|]. intros r t' h' Hc.
  destruct (capture_opened _ _ _ _ _ _ _ _ _ _ _ Ho Hc) as (Ho' & _ & Hk).
  assert (Htk : st_ticket t' = st_ticket t) by (apply capture_ok in Hc as [(_ & _ & ?) _]; done).
  simpl in Ho'. rewrite <- Htk. destruct r as [[]|err| | |]; try done.
  - apply wp_bind. eapply wp_entry; [apply Ho'|]. by eapply deliver_spec.
  - destruct (err =? EBUSY); [|by apply wp_ret, answered_no_page].
    apply wp_bind. eapply cancel_transfer_spec; [exact Ho'|]. intros ok c' Hk'. apply wp_ret, answered_no_page; by destruct ok; auto.
Qed.

Lemma gone_answered target address c a c' :
  answered target address c (Ok a) c' -> answered target address c (Ok (gone_answer e a)) c'.
Proof.
  intros H. unfold gone_answer. destruct (_ || _) eqn:Hg; [|done]. apply answered_no_page; [by destruct (e_ended e)|].
  intros _. destruct H as [[Hr _]|(ret & -> & _ & Hp)]; simpl in *.
  - rewrite Hr in Hg. done.
  - apply Hp. unfold ESRCH, ENXIO, VMR_CTXPAGE_FAILED in *. lia.
Qed.

Lemma scan_Ok target address ticket i pending k :
  custody_scan target address ticket i pending = Ok k -> exists x, pending !! (k - i)%nat = Some x /\ (i <= k)%nat.
Proof.
  revert i. induction pending as [|x rest IH]; intros i; simpl; [done|]. destruct (negb _).
  - intros (y & Hy & Hle)%IH. exists y. replace (k - i)%nat with (S (k - S i)) by lia. split; [done|lia].
  - destruct (_ || _); [done|]. intros. simplify_eq. exists x. rewrite Nat.sub_diag. auto.
Qed.
Lemma scan_total target address ticket i pending :
  match custody_scan target address ticket i pending with Ok _ | Err _ => True | _ => False end.
Proof. revert i. induction pending as [|x rest IH]; intros i; simpl; [done|]. destruct (negb _); [apply IH|]. by destruct (_ || _). Qed.
Lemma delete_inserted {A} (i : nat) (x : A) (l : list A) : delete i (<[i := x]> l) = delete i l.
Proof. revert i. induction l as [|y l IH]; intros [|i]; [done..|]. cbn. f_equal. apply IH. Qed.
(** What [source_custody_ack] leaves. *)
Definition acked (target : vmr_mm_binding) (address ticket : Z) (cu cu' : source_custody) : Prop :=
  exists i x, cu_pending cu !! i = Some x /\ ce_target x = target /\ st_address (ce_transfer x) = address /\
    st_ticket (ce_transfer x) = ticket /\ cu_pending cu' = delete i (cu_pending cu).
Lemma custody_find_spec self target address ticket cu r cu' :
  source_custody_find self target address ticket cu = (r, cu') ->
  cu_pending cu' = cu_pending cu /\
  match r with
  | Ok i => exists x, cu_pending cu !! i = Some x /\ ce_target x = target /\ st_address (ce_transfer x) = address /\
              st_ticket (ce_transfer x) = ticket
  | Err _ => True
  | _ => False
  end.
Proof.
  unfold source_custody_find. destruct (source_custody_thread self cu) as [r0 cu0] eqn:Ht.
  assert (cu_pending cu0 = cu_pending cu /\ (r0 = Ok tt \/ exists err, r0 = Err err)) as (Hp & Hr).
  { unfold source_custody_thread in Ht. destruct (cu_owner cu) eqn:Ho; [destruct (Z.eqb_spec z self)|]; simplify_eq/=; eauto. }
  destruct Hr as [->|[err ->]]; [|intros; by simplify_eq].
  destruct (cu_closed cu0); [intros; by simplify_eq|]. destruct (_ || _); [intros; by simplify_eq|].
  intros Heq. injection Heq as <- <-. split; [done|].
  pose proof (scan_total target address ticket 0 (cu_pending cu0)) as Hn.
  destruct (custody_scan _ _ _ _ _) as [i|err| | |] eqn:Hs; try done.
  destruct (scan_Ok _ _ _ _ _ _ Hs) as (x & Hx & _). exists x.
  destruct (custody_scan_found _ _ _ _ _ _ _ Hs Hx) as (_ & Htk & Ha & Hb).
  rewrite Nat.sub_0_r, Hp in Hx. split; [done|]. split; [by apply binding_equal_spec|]. done.
Qed.
Lemma retire_pending i x cu h r cu' h' :
  cu_pending cu !! i = Some x -> source_custody_retire native i cu h = (r, cu', h') ->
  match r with Ok _ => cu_pending cu' = delete i (cu_pending cu) | Err _ => True | _ => False end.
Proof.
  intros Hi. unfold source_custody_retire. rewrite Hi.
  destruct (source_transfer_forget native (ce_transfer x) h) as [[r0 t] h0] eqn:Hf. apply forget_spec in Hf.
  destruct r0; try done; intros; by simplify_eq.
Qed.
Lemma ack_spec self target address ticket cu h r cu' h' :
  source_custody_ack native self target address ticket cu h = (r, cu', h') ->
  match r with Ok _ => acked target address ticket cu cu' | Err _ => True | _ => False end.
Proof.
  unfold source_custody_ack. destruct (source_custody_find _ _ _ _ _) as [r0 cu0] eqn:Hf.
  apply custody_find_spec in Hf as [Hp Hi]. destruct r0 as [i|err| | |]; try done; [|intros; by simplify_eq].
  destruct Hi as (x & Hx & Htg & Ha & Htk). rewrite Hp, Hx.
  destruct (source_transfer_ack native (ce_transfer x) h) as [[r1 t] h1] eqn:Hack.
  assert (Hr1 : match r1 with Ok _ => st_settled t = true | Err _ => True | _ => False end).
  { destruct r1 as [[]| | | |]; [by apply ack_success in Hack|done|..]; unfold source_transfer_ack in Hack;
      destruct (source_transfer_step _ _ _ _ _) as [r2 h2] eqn:Hs; apply step_total in Hs; repeat case_match; by simplify_eq. }
  assert (Hup : cu_pending (update_at i t cu0) = <[i := mk_entry (ce_target x) t]> (cu_pending cu)).
  { unfold update_at. rewrite Hp, Hx. simpl. done. }
  destruct (st_settled t); simpl; [|intros; simplify_eq; by destruct r].
  destruct (source_custody_retire native i (update_at i t cu0) h1) as [[r2 cu2] h2] eqn:Hr.
  eapply retire_pending in Hr; [|rewrite Hup; apply list_lookup_insert_eq; by eapply lookup_lt_Some].
  destruct r2; try done; intros; simplify_eq; [|done]. destruct r; try done. exists i, x. rewrite Hr, Hup, delete_inserted. done.
Qed.

(** A write is granted at once when every fork child has its own page. *)
Lemma owed_spec kids page t :
  cow_wf t -> exists some, owed kids page t = Ok some /\ (some = false <-> forall k, k ∈ kids -> (k, page_base page) ∈ cow_set t).
Proof.
  intros Hwf. induction kids as [|k kids (some & IH & Hk)]; simpl; [exists false; split; [done|]; split; [set_solver|done]|].
  rewrite cow_is_broken_spec by done. simpl. rewrite IH. simpl. eexists. split; [done|].
  rewrite orb_false_iff, negb_false_iff, bool_decide_eq_true, Hk. set_solver.
Qed.
Definition forked_rows (mm : Z) : list source_lineage := filter (fun r => sl_parent r = mm) (fork_rel (e_lineage e)).
Lemma write_prep_spec target address :
  cow_wf (e_cow e) -> is_u64 address ->
  match ctx_write_prep e target address with
  | Ok ret => ret <= 0 /\ (ret = 0 -> forall r, r ∈ forked_rows (mb_mm target) -> (sl_child r, page_base address) ∈ cow_set (e_cow e))
  | Aborted => FORK_REL_MAX < Z.of_nat (length (forked_rows (mb_mm target)))
  | _ => False
  end.
Proof.
  intros Hwf Ha. unfold ctx_write_prep, fork_rel_children. rewrite children_scan_spec by (simpl; unfold FORK_REL_MAX; lia).
  fold (forked_rows (mb_mm target)). cbn [length app]. destruct (Z.leb_spec (Z.of_nat 0 + Z.of_nat (length (forked_rows (mb_mm target)))) FORK_REL_MAX); simpl; [|lia].
  assert (Hneg : forall ret (P : Prop), ret < 0 -> ret <= 0 /\ (ret = 0 -> P)) by (intros; split; lia).
  destruct (e_probe e) as [sv|]; [|by apply Hneg].
  destruct (sp_status sv =? VMCTX_SERVE_NOMAP); [by apply Hneg|].
  destruct (sp_status sv =? VMCTX_SERVE_DENIED); [by apply Hneg|]. destruct (nz _); [by apply Hneg|].
  destruct (owed_spec (sl_child <$> forked_rows (mb_mm target)) (page_base address) _ Hwf) as (some & Ho & Hk).
  rewrite Ho. simpl. destruct some; [by apply Hneg|]. split; [done|]. intros _ r Hr.
  rewrite page_base_idem in Hk by done. apply (proj1 Hk); [done|]. apply list_elem_of_fmap. eauto.
Qed.

(** ** Requests *)
Lemma args_equal_refl l : args_equal l l = true.
Proof. induction l as [|x l IH]; simpl; [done|]. by rewrite Z.eqb_refl. Qed.
Lemma page_reply_matches rq a :
  request_ok e rq = true -> vmr_memory_operation (rq_nr rq) = true -> vmr_memory_reply_matches rq (page_reply rq a) = true.
Proof.
  unfold request_ok, vmr_memory_reply_matches, page_reply. intros Hok Hm. rewrite Hm in *. simpl.
  rewrite !andb_true_iff in Hok. rewrite Z.eqb_refl, (proj2 (binding_equal_spec _ _) eq_refl), args_equal_refl.
  by destruct Hok as [[[[[[-> _] _] _] _] _] _].
Qed.
Lemma page_reply_valid rq a :
  request_ok e rq = true ->
  (rq_nr rq = VMR_OP_CTXPAGE -> 0 < pa_ret a -> pa_ret a = VMR_PG_SIZE /\ pa_episode a <> 0) ->
  source_page_response_valid rq (page_reply rq a) = true.
Proof.
  intros Hok Hp. unfold source_page_response_valid. destruct (Z.eqb_spec (rq_nr rq) VMR_OP_CTXPAGE) as [Hn|]; [|done]. simpl.
  unfold request_ok in Hok. rewrite Hn in Hok. simpl in Hok. rewrite !andb_true_iff, negb_true_iff in Hok. destruct Hok as [_ Hok].
  unfold page_reply. rewrite Hn. simpl. destruct (Z.leb_spec (pa_ret a) 0).
  { rewrite (proj2 (Z.ltb_ge _ _)) by lia. done. }
  rewrite (proj2 (Z.ltb_lt _ _)) by lia. simpl. destruct (Hp Hn) as [-> He]; [done|]. simpl.
  fold (arg rq 0) (arg rq 1). unfold VMR_PG_SIZE in Hok.
  repeat (apply orb_false_iff in Hok as [Hok ?]). destruct (arg rq 1 =? 4096); [|done]. destruct (nz (arg rq 0 .& 4095)); [done|].
  simpl. rewrite (proj2 (Z.eqb_neq _ _) He). done.
Qed.

(** What a reply of each operation stands for. *)
Definition stands_for (rq : vmr_req) (rs : vmr_rsp) (gen : Z) (bytes : list Z) (c c' : conn) : Prop :=
  (rq_nr rq = VMR_OP_CTXPAGE -> 0 < rs_retval rs ->
     backed (rq_target rq) (arg rq 0) (mk_answer (rs_retval rs) bytes (rs_page_episode rs) gen) c c') /\
  (rq_nr rq = VMR_OP_CTXPAGE -> rs_retval rs <= 0 -> bytes = [] /\
     (rs_retval rs <> VMR_CTXPAGE_FAILED -> cu_pending (custody c') = cu_pending (custody c))) /\
  (rq_nr rq = VMR_OP_INSTALLED -> rs_retval rs = 0 ->
     acked (rq_target rq) (arg rq 0) (arg rq 1) (custody c) (custody c')) /\
  (rq_nr rq = VMR_OP_WRITEPREP -> c' = c /\
     (rs_retval rs = 0 -> forall r, r ∈ forked_rows (mb_mm (rq_target rq)) ->
        (sl_child r, page_base (arg rq 0)) ∈ cow_set (e_cow e))).
Definition request_spec (rq : vmr_req) (c : conn) (r : result served) (c' : conn) : Prop :=
  match r with
  | Ok (Replied rs gen bytes) =>
      vmr_memory_reply_matches rq rs = true /\ source_page_response_valid rq rs = true /\ stands_for rq rs gen bytes c c'
  | Ok _ => c' = c
  | Aborted => c' = c /\ rq_nr rq = VMR_OP_WRITEPREP /\
      FORK_REL_MAX < Z.of_nat (length (forked_rows (mb_mm (rq_target rq))))
  | _ => False
  end.

Lemma page_reply_fields rq a :
  rs_retval (page_reply rq a) = pa_ret a /\
  (rq_nr rq = VMR_OP_CTXPAGE -> 0 < pa_ret a -> rs_page_episode (page_reply rq a) = pa_episode a).
Proof.
  unfold page_reply. destruct (vmr_memory_operation _); simpl; (split; [done|]); intros -> Hp; by rewrite (proj2 (Z.ltb_lt _ _) Hp).
Qed.
Lemma fetch_request_spec rq c :
  request_ok e rq = true -> rq_nr rq = VMR_OP_CTXPAGE ->
  wp (a ← (a ← ctx_page native e (rq_target rq) (arg rq 0) (arg rq 1) MAXDATA (arg rq 2); mret (gone_answer e a));
      mret (Replied (page_reply rq a) (pa_gen a) (pa_bytes a))) (request_spec rq c) c.
Proof.
  intros Hok Hn. apply wp_bind, wp_bind. eapply wp_mono; [apply ctx_page_spec|]. intros r c' Ha.
  destruct r as [a0|err| | |]; try done. apply wp_ret, wp_ret. apply gone_answered in Ha. set (a := gone_answer e a0) in *. clearbody a. clear a0.
  destruct (page_reply_fields rq a) as [Hret Hep]. split; [by apply page_reply_matches; [|rewrite Hn]|]. split.
  { apply page_reply_valid; [done|]. intros _ Hp.
    destruct Ha as [[Hr (t & Ho & _ & _ & Htk & _)]|(ret & -> & ? & _)]; simpl in *; [|lia]. rewrite <- Htk. split; [done|apply Ho]. }
  split; [|split; [|by rewrite Hn]].
  - rewrite Hret. intros _ Hp. destruct Ha as [[Hr Hb]|(ret & -> & ? & _)]; simpl in *; [|lia]. rewrite Hep by done. by destruct a.
  - rewrite Hret. intros _ Hp. destruct Ha as [[Hr _]|(ret & -> & ? & Hpend)]; simpl in *; [by rewrite Hr in Hp|]. split; [done|apply Hpend].
Qed.
Lemma small_reply rq a c c' :
  request_ok e rq = true -> vmr_memory_operation (rq_nr rq) = true -> rq_nr rq <> VMR_OP_CTXPAGE ->
  (rq_nr rq = VMR_OP_INSTALLED -> pa_ret a = 0 -> acked (rq_target rq) (arg rq 0) (arg rq 1) (custody c) (custody c')) ->
  (rq_nr rq = VMR_OP_WRITEPREP -> c' = c /\ (pa_ret a = 0 -> forall r, r ∈ forked_rows (mb_mm (rq_target rq)) ->
        (sl_child r, page_base (arg rq 0)) ∈ cow_set (e_cow e))) ->
  request_spec rq c (Ok (Replied (page_reply rq a) (pa_gen a) (pa_bytes a))) c'.
Proof.
  intros Hok Hm Hn Hi Hw. split; [by apply page_reply_matches|]. split; [by apply page_reply_valid|].
  destruct (page_reply_fields rq a) as [Hret _]. split; [done|]. split; [done|]. rewrite Hret. done.
Qed.
Lemma installed_request_spec rq c :
  request_ok e rq = true -> rq_nr rq = VMR_OP_INSTALLED ->
  wp (a ← (if nz (rq_datalen rq) || nz (arg rq 2) || nz (arg rq 3) || nz (arg rq 4) || nz (arg rq 5)
           then mret (no_page (- EINVAL))
           else r ← ctx_page_ack native e (rq_target rq) (arg rq 0) (arg rq 1); mret (no_page r));
      mret (Replied (page_reply rq a) (pa_gen a) (pa_bytes a))) (request_spec rq c) c.
Proof.
  intros Hok Hn. assert (Hm : vmr_memory_operation (rq_nr rq) = true) by by rewrite Hn.
  assert (Hc : rq_nr rq <> VMR_OP_CTXPAGE) by by rewrite Hn. assert (Hw : rq_nr rq <> VMR_OP_WRITEPREP) by by rewrite Hn.
  apply wp_bind. destruct (_ || _); [by apply wp_ret, wp_ret, small_reply|].
  apply wp_bind. unfold ctx_page_ack. apply wp_bind, wp_attempt, wp_in_custody. intros r cu h Hr. apply ack_spec in Hr.
  destruct r as [[]|err| | |]; try done; apply wp_ret, wp_ret, wp_ret, small_reply; try done. simpl. intros _ Hz. exfalso.
  destruct (Z.eqb_spec err 0) as [->|Hne]; [done|]. simpl in Hz. lia.
Qed.

(** C9: Every request of a connection ends, whatever the kernel answers, in a
    dispatch elsewhere, a closed connection, or a reply that its requester
    accepts and that stands for what happened.  A page is answered only with one
    transfer more in the connection's custody: captured and read by the kernel
    under the episode of the reply, not settled, and the bytes are those its READ
    delivered (zeros for a granted absent page).  Any other page answer but
    FAILED leaves the custody as it was.  An INSTALLED answered 0 removed exactly
    the transfer it named; a WRITEPREP answered 0 means that every address space
    forked from this one has been given its own page.  The process ends only at
    more than 256 such address spaces. *)
Theorem page_replies_backed rq c :
  cow_wf (e_cow e) -> is_u64 (arg rq 0) ->
  let '(r, c') := page_request native e rq c in request_spec rq c r c'.
Proof.
  intros Hwf Ha. enough (H : wp (page_request native e rq) (request_spec rq c) c) by (unfold wp in H; by destruct (page_request _ _ _ _)).
  unfold page_request, wp. destruct (request_ok e rq) eqn:Hok; [|done]. simpl. destruct (_ && _); [done|]. unfold page_handle.
  destruct (Z.eqb_spec (rq_nr rq) VMR_OP_CTXPAGE) as [Hn|Hn]; [by apply fetch_request_spec|].
  destruct (Z.eqb_spec (rq_nr rq) VMR_OP_INSTALLED) as [Hi|Hi]; [by apply installed_request_spec|].
  destruct (Z.eqb_spec (rq_nr rq) VMR_OP_STALETRAIL) as [Hs|Hs].
  { apply small_reply; try done; by rewrite Hs. }
  destruct (Z.eqb_spec (rq_nr rq) VMR_OP_WRITEPREP) as [Hw|Hw]; [|done].
  pose proof (write_prep_spec (rq_target rq) (arg rq 0) Hwf Ha) as Hp. unfold mbind, prog_bind, stop.
  destruct (ctx_write_prep e (rq_target rq) (arg rq 0)) as [ret|err| | |]; try done. simpl.
  apply (small_reply rq (no_page ret)); try done; [by rewrite Hw|]. intros _. split; [done|]. simpl. apply Hp.
Qed.
End spec.

(** ** Landing a page and settling it *)
(** The kernel takes the acknowledgement of a ticket and forgets it. *)
Definition accepts (native : history -> ncall -> nanswer) (mm address ticket : Z) : Prop :=
  forall h op, op = VMCTX_TRANSFER_ACK \/ op = VMCTX_TRANSFER_FORGET ->
  exists q b, native h (NStep op mm address ticket 0) = NOk q b /\
    vt_version q = VMCTX_TRANSFER_ABI /\ vt_size q = sizeof_transfer /\ vt_op q = op /\ vt_mm_identity q = mm /\
    vt_address q = address /\ vt_ticket q = ticket /\ vt_buf q = 0 /\ vt_reserved q = 0 /\ vt_features q = VMCTX_TRANSFER_FEATURES.
Section landing.
Context (native : history -> ncall -> nanswer).

Lemma step_accepted t op h :
  accepts native (st_mm t) (st_address t) (st_ticket t) -> op = VMCTX_TRANSFER_ACK \/ op = VMCTX_TRANSFER_FORGET ->
  st_ticket t <> 0 -> st_mm t <> 0 -> exists x h', source_transfer_step native t op 0 h = (Ok x, h').
Proof.
  intros Ha Hop Ht Hm. unfold source_transfer_step, issue.
  destruct (Ha h op Hop) as (q & b & -> & H1 & H2 & H3 & H4 & H5 & H6 & H7 & H8 & H9).
  rewrite (proj2 (Z.eqb_neq _ _) Ht), (proj2 (Z.eqb_neq _ _) Hm), H1, H2, H3, H4, H5, H6, H7, H8, H9, !Z.eqb_refl. simpl.
  rewrite andb_false_r. eauto.
Qed.
Lemma ack_opened self target address cu0 cu t h :
  opened self target address cu0 cu t -> st_read t = true -> accepts native (mb_mm target) address (st_ticket t) ->
  0 <= cu_count cu0 <= U64MAX ->
  exists cu' h', source_custody_ack native self target address (st_ticket t) cu h = (Ok tt, cu', h') /\
    cu_pending cu' = cu_pending cu0 /\ cu_count cu' = cu_count cu0.
Proof.
  intros Ho Hrd Hacc Hcount. unfold source_custody_ack. rewrite (find_opened _ _ _ _ _ _ Ho), (op_pending _ _ _ _ _ _ Ho). simpl.
  destruct Ho as [Hp Hc Hroom Hown Hcl Hv Hal Hm Haddr Htk Hst Hca]. unfold source_transfer_ack. rewrite Hca, Hrd, Hst. simpl.
  assert (Hmm : st_mm t <> 0) by (rewrite Hm; intros Hz; unfold vmr_binding_valid in Hv; rewrite Hz in Hv; lia).
  assert (Hacc' : accepts native (st_mm t) (st_address t) (st_ticket t)) by by rewrite Hm, Haddr.
  destruct (step_accepted t VMCTX_TRANSFER_ACK h Hacc') as (x & h1 & ->); auto. simpl.
  unfold update_at. rewrite Hp. simpl. unfold source_custody_retire. simpl. unfold source_transfer_forget. simpl.
  destruct (step_accepted (set_settled 0 t) VMCTX_TRANSFER_FORGET h1 Hacc') as (x' & h2 & ->); auto. simpl.
  eexists _, _. split; [done|]. simpl. split; [done|]. rewrite Hc.
  assert (U64MAX = 18446744073709551615) by reflexivity. rewrite (u64_small (_ + 1)) by (unfold is_u64; lia).
  rewrite u64_small by (unfold is_u64; lia). lia.
Qed.

(** C19: A page handed over is settled by its acknowledgement: when a CTXPAGE
    was answered with a page, and the same thread of the connection then gets the
    INSTALLED for that page and the episode of the reply, and the kernel takes the
    acknowledgement, the source answers 0 and the connection's custody is back to
    what it was before the page was asked for. *)
Theorem page_handover_roundtrip e rq c rs gen bytes c1 e2 rq2 :
  0 <= cu_count (custody c) <= U64MAX ->
  rq_nr rq = VMR_OP_CTXPAGE -> page_request native e rq c = (Ok (Replied rs gen bytes), c1) -> 0 < rs_retval rs ->
  accepts native (mb_mm (rq_target rq)) (arg rq 0) (rs_page_episode rs) ->
  e_self e2 = e_self e -> request_ok e2 rq2 = true -> rq_nr rq2 = VMR_OP_INSTALLED -> rq_datalen rq2 = 0 ->
  rq_target rq2 = rq_target rq -> rq_args rq2 = [arg rq 0; rs_page_episode rs; 0; 0; 0; 0] ->
  exists rs2 c2, page_request native e2 rq2 c1 = (Ok (Replied rs2 0 []), c2) /\ rs_retval rs2 = 0 /\
    cu_pending (custody c2) = cu_pending (custody c) /\ cu_count (custody c2) = cu_count (custody c).
Proof.
  intros Hcount Hn Hreq Hpos Hacc Hself Hok2 Hn2 Hd2 Ht2 Hargs2.
  assert (Hs : stands_for e rq rs gen bytes c c1).
  { assert (H : wp (page_request native e rq) (request_spec e rq c) c); [|unfold wp in H; rewrite Hreq in H; apply H].
    unfold page_request in *. unfold wp. destruct (request_ok e rq) eqn:Hok; [|done]. simpl in *.
    destruct (_ && _); [done|]. unfold page_handle. rewrite Hn. by apply fetch_request_spec. }
  destruct Hs as [Hb _]. destruct (Hb Hn Hpos) as (t & Ho & _ & Hrd & Htk & _). simpl in Htk. rewrite <- Htk in *.
  destruct (ack_opened _ _ _ _ _ _ (calls c1) Ho Hrd Hacc Hcount) as (cu' & h' & Hack & Hpend & Hcnt).
  unfold page_request. rewrite Hok2, Hn2. simpl. rewrite andb_false_r. unfold page_handle, arg. rewrite Hn2, Hd2, Hargs2, Ht2. simpl.
  unfold ctx_page_ack, mbind, prog_bind, attempt, in_custody. rewrite Hself. fold (arg rq 0). rewrite Hack.
  eexists _, _. split; [reflexivity|]. split; [|done]. unfold page_reply. by rewrite Hn2.
Qed.
End landing.

(** ** A connection's life *)
Section life.
Context (native : history -> ncall -> nanswer).
Definition conn_zero : conn := mk_conn custody_zero [].
Inductive conn_step : conn -> conn -> Prop :=
| conn_request e rq r c c' : page_request native e rq c = (r, c') -> conn_step c c'.
Definition conn_ok (c : conn) : Prop := custody_ok (custody c) (calls c).
(** a program keeps the custody equal to the tickets the kernel has issued *)
Definition keeps {A} (m : prog conn A) : Prop := forall c, conn_ok c -> conn_ok (m c).2.

Lemma keeps_pure {A} (m : prog conn A) : (forall c, (m c).2 = c) -> keeps m.
Proof. intros H c Hc. by rewrite H. Qed.
Lemma keeps_bind {A B} (m : prog conn A) (k : A -> prog conn B) : keeps m -> (forall a, keeps (k a)) -> keeps (m ≫= k).
Proof.
  intros Hm Hk c Hc. specialize (Hm c Hc). unfold mbind, prog_bind. destruct (m c) as [[a| | | |] c']; try done. by apply Hk.
Qed.
Lemma keeps_attempt {A} (m : prog conn A) : keeps m -> keeps (attempt m).
Proof. intros Hm c Hc. specialize (Hm c Hc). unfold attempt. by destruct (m c) as [[] c']. Qed.
Lemma keeps_custody {A} (f : source_custody -> history -> result A * source_custody * history) :
  (forall cu h r cu' h', f cu h = (r, cu', h') -> custody_step native (cu, h) (cu', h')) -> keeps (in_custody f).
Proof.
  intros Hf c Hc. unfold in_custody. destruct (f _ _) as [[r cu] h] eqn:He. apply Hf in He.
  apply (custody_step_ok native (custody c, calls c) (cu, h) Hc He).
Qed.
Lemma keeps_entry {A} (f : source_transfer -> history -> result A * source_transfer * history) :
  (forall cu x h r t h', cu_pending cu !! 0%nat = Some x -> f (ce_transfer x) h = (r, t, h') ->
     custody_step native (cu, h) (update_at 0 t cu, h')) -> keeps (on_entry f).
Proof.
  intros Hf c Hc. unfold on_entry. destruct (cu_pending (custody c)) as [|x rest] eqn:Hp; [done|].
  destruct (f _ _) as [[r t] h] eqn:He. eapply Hf in He; [|by rewrite Hp].
  apply (custody_step_ok native (custody c, calls c) (update_at 0 t (custody c), h) Hc He).
Qed.
Lemma keeps_cancel e target address episode : keeps (cancel_transfer native e target address episode).
Proof. apply keeps_bind; [|intros; by apply keeps_pure]. apply keeps_attempt, keeps_custody. intros. by eapply cs_cancel. Qed.
Lemma keeps_deliver e target address episode q : keeps (deliver native e target address episode q).
Proof.
  unfold deliver. destruct (_ || _); (apply keeps_bind; [|intros; by apply keeps_pure]); [|apply keeps_cancel].
  apply keeps_attempt, keeps_entry. intros. by eapply cs_read.
Qed.
Lemma keeps_ctx_page e target address length capacity nocow : keeps (ctx_page native e target address length capacity nocow).
Proof.
  assert (Hentry : keeps entry) by (apply keeps_pure; intros c; unfold entry; by destruct (cu_pending _)).
  unfold ctx_page. destruct (_ || _); [by apply keeps_pure|]. cbv zeta. destruct (_ <? 0); [by apply keeps_pure|].
  destruct (nz _); [by apply keeps_pure|]. apply keeps_bind; [by apply keeps_pure|]. intros before.
  apply keeps_bind; [apply keeps_attempt, keeps_custody; intros; by eapply cs_begin|]. intros [err|[]].
  { apply keeps_bind; [by apply keeps_pure|]. intros; by apply keeps_pure. }
  apply keeps_bind; [done|]. intros t. apply keeps_bind; [apply keeps_attempt, keeps_entry; intros; by eapply cs_capture|].
  intros [err|[]].
  - destruct (_ =? _); [|by apply keeps_pure]. apply keeps_bind; [apply keeps_cancel|]. intros; by apply keeps_pure.
  - apply keeps_bind; [done|]. intros; apply keeps_deliver.
Qed.
Lemma keeps_request e rq : keeps (page_request native e rq).
Proof.
  intros c Hc. unfold page_request. destruct (negb _); [done|]. destruct (_ && _); [done|]. unfold page_handle.
  assert (Hrep : forall m : prog conn page_answer, keeps m ->
    conn_ok ((a ← m; mret (Replied (page_reply rq a) (pa_gen a) (pa_bytes a))) c).2).
  { intros m Hm. apply keeps_bind; [done|intros; by apply keeps_pure|done]. }
  destruct (rq_nr rq =? VMR_OP_CTXPAGE); [apply Hrep, keeps_bind; [apply keeps_ctx_page|intros; by apply keeps_pure]|].
  destruct (rq_nr rq =? VMR_OP_INSTALLED).
  { apply Hrep. destruct (_ || _); [by apply keeps_pure|].
    apply keeps_bind; [|intros; by apply keeps_pure]. apply keeps_bind; [|intros; by apply keeps_pure].
    apply keeps_attempt, keeps_custody. intros. by eapply cs_ack. }
  destruct (rq_nr rq =? VMR_OP_STALETRAIL); [by apply Hrep, keeps_pure|].
  destruct (rq_nr rq =? VMR_OP_WRITEPREP); [|done]. apply Hrep, keeps_bind; intros; by apply keeps_pure.
Qed.
Lemma conn_reachable c : steps conn_step conn_zero c -> conn_ok c.
Proof.
  apply (steps_invariant conn_step conn_ok).
  - intros s s' Hok Hst. destruct Hst as [e rq r c0 c' H]. pose proof (keeps_request e rq c0 Hok) as Hk. by rewrite H in Hk.
  - apply (custody_reachable native). apply steps_refl.
Qed.

(** C15: At every point of a connection, whatever requests came and whatever the
    kernel answered, its custody holds exactly the tickets the kernel has issued
    and not forgotten; work that may wait (a system call, an exit, any operation
    but the page traffic) starts only while there are none; and the connection is
    closed without ending the program only when there were none. *)
Theorem open_transfers_block_work c e rq s c' :
  steps conn_step conn_zero c ->
  live (calls c) = tickets (custody c) /\
  (page_request native e rq c = (Ok s, c') -> s <> Closed ->
     rq_nr rq ∉ [VMR_OP_CTXPAGE; VMR_OP_INSTALLED; VMR_OP_STALETRAIL] -> live (calls c) = ∅) /\
  ((source_connection_close native e c).1 = Ok () -> live (calls c) = ∅).
Proof.
  intros Hs%conn_reachable. assert (Hz : cu_count (custody c) = 0 -> live (calls c) = ∅).
  { destruct Hs as [Hc _ Hl _ _]. intros H0. rewrite Hl. rewrite H0 in Hc. unfold tickets.
    destruct (cu_pending (custody c)); [done|]. simpl in Hc. lia. }
  split; [apply Hs|]. split.
  - unfold page_request. intros Hr Hne Hnr. assert (Hpt : page_traffic (rq_nr rq) = false).
    { rewrite !not_elem_of_cons in Hnr. unfold page_traffic. lia. }
    rewrite Hpt in Hr. destruct (negb (request_ok e rq)); [by simplify_eq|].
    apply Hz. destruct (Z.eqb_spec (cu_count (custody c)) 0); [done|]. simpl in Hr. by simplify_eq.
  - unfold source_connection_close. destruct (in_custody _ c) as [[[]| | | |] c1]; try done. simpl.
    destruct (Z.eqb_spec (cu_count (custody c)) 0); [auto|done].
Qed.
End life.

(** ** Examples *)
Definition demo_mm : vmr_mm_binding := mk_binding 1 3 0 5.
Definition demo_env : conn_env := mk_env 9 1 true false fork_init cow_init (Some (mk_probe 1 1 1)) false true 64.
Definition demo_fetch : vmr_req := mk_req VMR_MAGIC VMR_OP_CTXPAGE 0 0 0 0 [0x7000; 4096; 0; 0; 0; 0] 0 demo_mm.
Definition demo_installed : vmr_req := mk_req VMR_MAGIC VMR_OP_INSTALLED 0 0 0 0 [0x7000; 7; 0; 0; 0; 0] 0 demo_mm.
Definition fetched : result served * conn := page_request demo_native demo_env demo_fetch conn_zero.
Definition fetched_reply : vmr_rsp := match fetched.1 with Ok (Replied rs _ _) => rs | _ => page_reply demo_fetch (no_page 0) end.
Lemma page_replies_backed_witness : request_spec demo_env demo_fetch conn_zero fetched.1 fetched.2 /\ rs_retval fetched_reply = 4096.
Proof.
  pose proof (page_replies_backed demo_native demo_env demo_fetch conn_zero) as H. split; [|reflexivity].
  assert (Hw : cow_wf (e_cow demo_env)) by exact cow_init_wf. assert (Ha : is_u64 (arg demo_fetch 0)) by done.
  specialize (H Hw Ha). unfold fetched. destruct (page_request _ _ _ _) as [r c]. exact H.
Defined.
Lemma page_handover_roundtrip_witness :
  exists rs2 c2, page_request demo_native demo_env demo_installed fetched.2 = (Ok (Replied rs2 0 []), c2) /\ rs_retval rs2 = 0 /\
    cu_pending (custody c2) = [] /\ cu_count (custody c2) = 0.
Proof.
  apply (page_handover_roundtrip demo_native demo_env demo_fetch conn_zero fetched_reply 5 [1; 2; 3] fetched.2); try reflexivity.
  - done.
  - intros h op _. eexists _, _. repeat split.
Defined.
Lemma fetched_step : steps (conn_step demo_native) conn_zero fetched.2.
Proof. eapply steps_next; [apply steps_refl|]. eapply (conn_request _ demo_env demo_fetch). reflexivity. Qed.
Lemma open_transfers_block_work_witness :
  live (calls fetched.2) = {[+ 7 +]} /\ live (calls conn_zero) = ∅.
Proof.
  destruct (open_transfers_block_work demo_native fetched.2 demo_env demo_fetch Closed fetched.2) as [H _]; [exact fetched_step|].
  destruct (open_transfers_block_work demo_native conn_zero demo_env demo_fetch Closed conn_zero) as (_ & _ & H2); [apply steps_refl|].
  split; [rewrite H; vm_compute; reflexivity|]. apply H2. reflexivity.
Defined.
End SourcePage.
