(* ===== verification/Exceptions.v ===== *)
(** * An exception between the two machines

    The executor does not interpret an exception: [owner_takes_fault]
    (user/vmremote.c) sends the machine state to the source through
    [home_call_target_runtime], and the source ([source_exception_reply],
    [ctx_deliver_exception], [source_publish_reply], user/vmhome.c) has its kernel
    deliver the exception to the task and answers with the state to go on with.
    Both ends and the wire between them are modelled; the calls of either kernel
    are the records [exec_env] and [source_env] of one exception. *)
From S2P Require Import Prelude Native Proto.
Open Scope Z_scope.

Module Exceptions.
Import Proto.

Definition VMR_MAGIC : Z := 0x50524d56.
Definition VMR_NR_EXCEPTION : Z := 0xf02.
Definition VMR_EXC_LEGAL : Z := 2.
Definition scratch_size : Z := 256 * 1024.

(** ** The wire *)
(** the first [len] bytes of a state arrive in a buffer that held [garbage] *)
Definition arrives (cpu : vmr_cpu_state) (garbage : list Z) : vmr_cpu_state :=
  let n := Z.to_nat (cs_xstate_size cpu) in
  mk_cpu (cs_xstate_size cpu) (cs_reserved cpu) (cs_regs cpu) (take n (cs_xstate cpu) ++ drop n garbage).
(** what a state says once it has been sent: nothing past its own size *)
Definition canonical (cpu : vmr_cpu_state) : vmr_cpu_state :=
  let n := Z.to_nat (cs_xstate_size cpu) in
  mk_cpu (cs_xstate_size cpu) 0 (cs_regs cpu) (take n (cs_xstate cpu) ++ replicate (Z.to_nat VMR_XSTATE_MAX - n) 0).

(** ** The source
    Its kernel's calls are recorded, oldest first; each answer depends on the
    calls before it.  A left answer is an error number. *)
Inductive kernel_call :=
| Credit (epoch ns : Z) (r : option Z)
| SetState (cpu : vmr_cpu_state) (r : option Z)
| Raise (vec err addr : Z) (r : Z + Z * list Z)       (* the result and the registers *)
| GetState (r : Z + vmr_cpu_state).
Abbreviation calls := (list kernel_call).
Record source_env := mk_source {
  se_id : Z; se_garbage : list Z;
  se_snapshot : option vmr_mm_binding;               (* before the delivery *)
  se_credit : calls -> Z -> Z -> option Z; se_setcpu : calls -> vmr_cpu_state -> option Z;
  se_exception : calls -> Z -> Z -> Z -> Z + Z * list Z;
  se_getcpu : calls -> Z + vmr_cpu_state;
  se_dead : nat -> option Z;                         (* the exit status, at each query *)
  se_observed : option vmr_mm_binding }.             (* at publication *)
Fixpoint await_dead (dead : nat -> option Z) (k n : nat) : option Z :=
  match n with O => None | S n => match dead k with Some st => Some st | None => await_dead dead (S k) n end end.
Definition cpu_task_ended (e : source_env) (error : Z) : option Z :=
  if negb (error =? ESRCH) && negb (error =? EINVAL) && negb (error =? ETIMEDOUT) then None
  else await_dead (se_dead e) 0 100.
Definition source_runtime_credit (e : source_env) (rq : vmr_req) (h : calls) : option Z * calls :=
  let r := se_credit e h (rq_execution_epoch rq) (rq_execution_ns rq) in
  (r, h ++ [Credit (rq_execution_epoch rq) (rq_execution_ns rq) r]).
(** The result; the state in the buffer afterwards. *)
Definition ctx_deliver_exception (e : source_env) (vec err addr : Z) (cpu : vmr_cpu_state) (h : calls) : Z * vmr_cpu_state * calls :=
  let r := se_setcpu e h cpu in
  let h := h ++ [SetState cpu r] in
  match r with
  | Some err => (- err, cpu, h)
  | None =>
      let r := se_exception e h vec err addr in
      let h := h ++ [Raise vec err addr r] in
      match r with
      | inl err => (- err, cpu, h)
      | inr (ret, regs) =>
          if ret =? VMR_EXC_LEGAL then (VMR_EXC_LEGAL, cpu, h)
          else if nz ret then (i32 ret, cpu, h)
          else
            let r := se_getcpu e h in
            let h := h ++ [GetState r] in
            match r with
            | inl err => (- err, cpu, h)
            | inr cpu => (1, mk_cpu (cs_xstate_size cpu) (cs_reserved cpu) regs (cs_xstate cpu), h)
            end
      end
  end.
Definition exception_result (retval datalen ended status : Z) (binding : vmr_mm_binding) : vmr_rsp :=
  mk_rsp VMR_MAGIC 0 0 0 no_binding 0 (replicate 6 0) 0 retval 0 datalen 0 ended status 0 0 0 0 0 binding no_binding.
(** [None] ends the connection. *)
Definition source_exception_reply (e : source_env) (rq : vmr_req) (cpu : vmr_cpu_state) : option (vmr_rsp * vmr_cpu_state) * calls :=
  let arg i := default 0 (rq_args rq !! i) in
  if se_id e <=? 0 then (Some (exception_result (- EINVAL) 0 0 0 no_binding, cpu), [])
  else match vmr_cpu_wire_decode cpu (rq_datalen rq) with
  | Ok cpu =>
      match se_snapshot e with
      | None => (None, [])
      | Some binding =>
          let '(credit, h) := source_runtime_credit e rq [] in
          let '(result, cpu, h) := match credit with
                                   | Some err => (- err, cpu, h)
                                   | None => ctx_deliver_exception e (arg 0%nat) (arg 1%nat) (arg 2%nat) cpu h
                                   end in
          (match (if result <? 0 then cpu_task_ended e (- result) else None) with
           | Some status => Some (exception_result 0 0 1 status binding, cpu)
           | None =>
               if result =? 1 then
                 let size := vmr_cpu_wire_size cpu in
                 Some (exception_result (if size =? 0 then - EPROTO else 0) size 0 0 binding, cpu)
               else Some (exception_result result 0 0 0 binding, cpu)
           end, h)
      end
  | _ => (Some (exception_result (- EINVAL) 0 0 0 no_binding, cpu), [])
  end.
Definition with_binding (b : vmr_mm_binding) (r : vmr_rsp) : vmr_rsp :=
  mk_rsp (rs_magic r) (rs_call_state r) (rs_ticket r) (rs_prepare_flags r) (rs_memory_target r) (rs_memory_op r)
    (rs_memory_args r) (rs_child_shared_mm r) (rs_retval r) (rs_child_source r) (rs_datalen r) (rs_regs_valid r)
    (rs_ended r) (rs_ended_status r) (rs_effects r) (rs_pages_taken r) (rs_page_episode r) (rs_mmseq r) (rs_ngen r)
    b (rs_child_binding r).
Definition source_publish_reply (e : source_env) (reply : vmr_rsp) : result vmr_rsp :=
  match se_observed e with
  | None => Aborted
  | Some observed =>
      if vmr_binding_valid (rs_binding reply) && negb (vmr_binding_equal (rs_binding reply) observed) then Err ESTALE
      else Ok (with_binding observed reply)
  end.
(** The case of the request loop: what is written to the connection, if anything. *)
Definition serve_exception (e : source_env) (rq : vmr_req) (sent : vmr_cpu_state) : option (vmr_rsp * vmr_cpu_state) * calls :=
  let '(x, h) := source_exception_reply e rq (arrives sent (se_garbage e)) in
  (match x with
   | None => None
   | Some (rs, cpu) => match source_publish_reply e rs with Ok rs => Some (rs, cpu) | _ => None end
   end, h).

(** ** The executor *)
Inductive action := SetCpu (cpu : vmr_cpu_state) | EndedNote (status : Z) | Kill.
Record exec_env := mk_exec {
  ee_target : vmr_mm_binding;                        (* pid->source *)
  ee_getcpu : option vmr_cpu_state; ee_runtime : option (Z * Z);
  ee_setcpu : bool; ee_wait_ended : bool }.
(** [None] is a failed call ([home_call_failed]). *)
Definition home_call_target_runtime (wire : vmr_req -> vmr_cpu_state -> option (vmr_rsp * vmr_cpu_state)) (rq : vmr_req)
    (sent : vmr_cpu_state) (outmax : Z) : option (vmr_rsp * vmr_cpu_state) :=
  if (if vmr_memory_operation (rq_nr rq) then negb (vmr_binding_valid (rq_target rq)) else negb (vmr_binding_empty (rq_target rq)))
  then None
  else match wire rq sent with
  | None => None
  | Some (rs, payload) =>
      if negb (rs_magic rs =? VMR_MAGIC) || negb (vmr_rsp_bindings_valid rs) || negb (vmr_memory_reply_matches rq rs) ||
         negb (source_page_response_valid rq rs) || (16 <? rs_ngen rs) || (scratch_size <? rs_datalen rs) || (outmax <? rs_datalen rs)
      then None
      else Some (rs, if nz (rs_datalen rs) then arrives payload (cs_xstate sent) else sent)
  end.
(** 0 not handled, 1 handled, 2 the access is legal; the actions in order. *)
Definition owner_takes_fault (e : exec_env) (wire : vmr_req -> vmr_cpu_state -> option (vmr_rsp * vmr_cpu_state))
    (vec addr err : Z) : result Z * list action :=
  match ee_getcpu e with
  | None => (Ok 0, [])
  | Some cpu =>
      let cpu_len := vmr_cpu_wire_size cpu in
      if cpu_len =? 0 then (Ok 0, [])
      else match ee_runtime e with
      | None => (Ok 0, [])
      | Some (epoch, ns) =>
          let rq := mk_req VMR_MAGIC VMR_NR_EXCEPTION 0 0 epoch ns [vec; err; addr; 0; 0; 0] cpu_len no_binding in
          match home_call_target_runtime wire rq cpu sizeof_cpu_state with
          | None => (Aborted, [])
          | Some (reply, cpu) =>
              let g := rs_retval reply in
              if negb (vmr_binding_equal (rs_binding reply) (ee_target e)) then (Aborted, [])
              else if ((rs_ended reply =? 0) && nz (rs_ended_status reply)) || (nz g && nz (rs_datalen reply)) then (Aborted, [])
              else if nz (rs_ended reply) then
                if negb (rs_ended reply =? 1) || nz g || nz (rs_datalen reply) then (Aborted, [])
                else if ee_wait_ended e then (Ok 1, [EndedNote (rs_ended_status reply); Kill])
                else (Aborted, [EndedNote (rs_ended_status reply); Kill])
              else if g =? VMR_EXC_LEGAL then (Ok 2, [])
              else if g =? 0 then
                match vmr_cpu_wire_decode cpu (rs_datalen reply) with
                | Ok cpu => (Ok (if ee_setcpu e then 1 else 0), [SetCpu cpu])
                | _ => (Ok 0, [])
                end
              else (Ok 0, [])
          end
      end
  end.

(** ** What the exchange is for
    [judged cpu o h]: the calls [h] of the source's kernel for a guest in state
    [cpu] that raised the exception [vec], [err], [addr] have the outcome [o]. *)
Inductive outcome := Delivered (cpu : vmr_cpu_state) | Legal | Ended (status : Z) | Refused.
Definition with_regs (regs : list Z) (c : vmr_cpu_state) : vmr_cpu_state :=
  mk_cpu (cs_xstate_size c) (cs_reserved c) regs (cs_xstate c).
Section judgement.
Context (dead : nat -> option Z) (epoch ns vec err addr : Z) (cpu : vmr_cpu_state).
(** A call failed with this error: the task ended, as seen in a hundred looks, or not. *)
Inductive failure (error : Z) : outcome -> Prop :=
| failed_ended k status : error ∈ [ESRCH; EINVAL; ETIMEDOUT] -> (k < 100)%nat ->
    (forall j, (j < k)%nat -> dead j = None) -> dead k = Some status -> failure error (Ended status)
| failed_alive : (error ∉ [ESRCH; EINVAL; ETIMEDOUT] \/ forall k, (k < 100)%nat -> dead k = None) -> failure error Refused.
(** The state came back with a size that cannot be sent, or is delivered. *)
Inductive returned (c : vmr_cpu_state) : outcome -> Prop :=
| returned_whole : vmr_cpu_wire_size c <> 0 -> returned c (Delivered c)
| returned_broken : vmr_cpu_wire_size c = 0 -> returned c Refused.
Inductive judged : calls -> outcome -> Prop :=
| j_credit x o : 0 < x -> failure x o -> judged [Credit epoch ns (Some x)] o
| j_set x o : 0 < x -> failure x o -> judged [Credit epoch ns None; SetState cpu (Some x)] o
| j_raise x o : 0 < x -> failure x o -> judged [Credit epoch ns None; SetState cpu None; Raise vec err addr (inl x)] o
| j_legal regs : judged [Credit epoch ns None; SetState cpu None; Raise vec err addr (inr (VMR_EXC_LEGAL, regs))] Legal
| j_failed ret regs o : i32 ret < 0 -> failure (- i32 ret) o ->
    judged [Credit epoch ns None; SetState cpu None; Raise vec err addr (inr (ret, regs))] o
| j_unknown ret regs : 2 < i32 ret -> judged [Credit epoch ns None; SetState cpu None; Raise vec err addr (inr (ret, regs))] Refused
| j_get regs x o : 0 < x -> failure x o ->
    judged [Credit epoch ns None; SetState cpu None; Raise vec err addr (inr (0, regs)); GetState (inl x)] o
| j_delivered regs c o : returned (with_regs regs c) o ->
    judged [Credit epoch ns None; SetState cpu None; Raise vec err addr (inr (0, regs)); GetState (inr c)] o.
End judgement.
(** what the executor makes of it *)
Definition respond (e : exec_env) (o : outcome) : result Z * list action :=
  match o with
  | Delivered cpu => (Ok (if ee_setcpu e then 1 else 0), [SetCpu (canonical cpu)])
  | Legal => (Ok 2, [])
  | Ended status => (if ee_wait_ended e then Ok 1 else Aborted, [EndedNote status; Kill])
  | Refused => (Ok 0, [])
  end.

Definition full (cpu : vmr_cpu_state) : Prop := length (cs_xstate cpu) = Z.to_nat VMR_XSTATE_MAX.
(** Documented of the source's kernel: errors are positive, EXCEPTION answers 0,
    a known code or a negative error, and a state has the native capacity. *)
Record kernel_ok (e : source_env) : Prop := {
  ko_credit h a b x : se_credit e h a b = Some x -> 0 < x;
  ko_setcpu h c x : se_setcpu e h c = Some x -> 0 < x;
  ko_raise h a b c x : se_exception e h a b c = inl x -> 0 < x;
  ko_result h a b c ret regs : se_exception e h a b c = inr (ret, regs) -> ret = 0 \/ i32 ret < 0 \/ ret = VMR_EXC_LEGAL \/ 2 < i32 ret;
  ko_getcpu h x : se_getcpu e h = inl x -> 0 < x;
  ko_state h c : se_getcpu e h = inr c -> full c }.

Lemma wire_size_cases cpu :
  vmr_cpu_wire_size cpu = 0 \/
  (vmr_cpu_wire_size cpu = xstate_offset + cs_xstate_size cpu /\ 576 <= cs_xstate_size cpu <= VMR_XSTATE_MAX).
Proof. unfold vmr_cpu_wire_size. destruct (_ || _) eqn:H; [by left|]. right. split; [done|lia]. Qed.
Lemma decode_arrives cpu garbage :
  full cpu -> length garbage = Z.to_nat VMR_XSTATE_MAX -> vmr_cpu_wire_size cpu <> 0 ->
  vmr_cpu_wire_decode (arrives cpu garbage) (vmr_cpu_wire_size cpu) = Ok (canonical cpu).
Proof.
  intros Hf Hg Hs. destruct (wire_size_cases cpu) as [?|[_ Hr]]; [done|].
  destruct (cpu_wire_roundtrip cpu garbage 0 Hf Hg) as [H _]; [lia|]. by apply H.
Qed.
Lemma await_dead_spec dead k n :
  match await_dead dead k n with
  | Some status => exists j, (k <= j < k + n)%nat /\ dead j = Some status /\ forall i, (k <= i < j)%nat -> dead i = None
  | None => forall i, (k <= i < k + n)%nat -> dead i = None
  end.
Proof.
  revert k. induction n as [|n IH]; intros k; simpl; [intros i ?; lia|]. destruct (dead k) as [st|] eqn:Hk.
  { exists k. split; [lia|]. split; [done|]. intros i ?; lia. }
  specialize (IH (S k)). destruct (await_dead dead (S k) n) as [st|].
  - destruct IH as (j & ? & ? & Hi). exists j. split; [lia|]. split; [done|]. intros i ?.
    destruct (decide (i = k)) as [->|]; [done|]. apply Hi. lia.
  - intros i ?. destruct (decide (i = k)) as [->|]; [done|]. apply IH. lia.
Qed.
Lemma cpu_task_ended_spec e error : failure (se_dead e) error
  match cpu_task_ended e error with Some status => Ended status | None => Refused end.
Proof.
  unfold cpu_task_ended. destruct (negb _ && _ && _) eqn:Hc.
  { apply failed_alive. left. rewrite !elem_of_cons, elem_of_nil. lia. }
  pose proof (await_dead_spec (se_dead e) 0 100) as Hd. destruct (await_dead _ _ _) as [st|].
  - destruct Hd as (j & ? & ? & Hi). apply (failed_ended _ _ j); [|lia| |done]; [|intros i ?; apply Hi; lia].
    rewrite !elem_of_cons, elem_of_nil. lia.
  - apply failed_alive. right. intros k ?. apply Hd. lia.
Qed.

Section exchange.
Context (x : exec_env) (e : source_env) (cpu : vmr_cpu_state).
(** The task is known and its binding is the one the executor saved; the states
    have the native capacity. *)
Hypothesis Hid : 0 < se_id e.
Hypothesis Hsnap : se_snapshot e = Some (ee_target x).
Hypothesis Hobs : se_observed e = Some (ee_target x).
Hypothesis Hvalid : vmr_binding_valid (ee_target x) = true.
Hypothesis Hget : ee_getcpu x = Some cpu.
Hypothesis Hsize : vmr_cpu_wire_size cpu <> 0.
Hypothesis Hfull : full cpu.
Hypothesis Hgarbage : length (se_garbage e) = Z.to_nat VMR_XSTATE_MAX.
Hypothesis Hkernel : kernel_ok e.

(** What the source writes for each outcome. *)
Definition written (o : outcome) (r : option (vmr_rsp * vmr_cpu_state)) : Prop :=
  match o with
  | Delivered c => full c /\ vmr_cpu_wire_size c <> 0 /\ r = Some (exception_result 0 (vmr_cpu_wire_size c) 0 0 (ee_target x), c)
  | Legal => exists c, r = Some (exception_result VMR_EXC_LEGAL 0 0 0 (ee_target x), c)
  | Ended status => exists c, r = Some (exception_result 0 0 1 status (ee_target x), c)
  | Refused => exists retval c, retval <> VMR_EXC_LEGAL /\ r = Some (exception_result retval 0 0 0 (ee_target x), c)
  end.
(** the reply of [source_exception_reply] for a result *)
Definition answer_for (result : Z) (after : vmr_cpu_state) : option (vmr_rsp * vmr_cpu_state) :=
  match (if result <? 0 then cpu_task_ended e (- result) else None) with
  | Some status => Some (exception_result 0 0 1 status (ee_target x), after)
  | None =>
      if result =? 1 then
        let size := vmr_cpu_wire_size after in
        Some (exception_result (if size =? 0 then - EPROTO else 0) size 0 0 (ee_target x), after)
      else Some (exception_result result 0 0 0 (ee_target x), after)
  end.
Lemma answer_failed result after : result < 0 ->
  exists o, failure (se_dead e) (- result) o /\ written o (answer_for result after).
Proof.
  intros Hr. unfold answer_for. rewrite (proj2 (Z.ltb_lt _ _) Hr). pose proof (cpu_task_ended_spec e (- result)) as Hf.
  destruct (cpu_task_ended e (- result)) as [st|]; [exists (Ended st); split; [done|]; by eexists|].
  exists Refused. split; [done|]. rewrite (proj2 (Z.eqb_neq _ _)) by lia. exists result, after. split; [unfold VMR_EXC_LEGAL; lia|done].
Qed.
Lemma answer_returned c : full c -> exists o, returned c o /\ written o (answer_for 1 c).
Proof.
  intros Hf. unfold answer_for. simpl. destruct (Z.eqb_spec (vmr_cpu_wire_size c) 0) as [Hz|Hz].
  - exists Refused. split; [by constructor|]. exists (- EPROTO), c. by rewrite Hz.
  - exists (Delivered c). split; [by constructor|]. done.
Qed.
Lemma publish_answer result after :
  match answer_for result after with
  | Some (rs, cpu) => match source_publish_reply e rs with Ok rs => Some (rs, cpu) | _ => None end
  | None => None
  end = answer_for result after.
Proof.
  assert (Hpub : forall retval datalen ended status,
    source_publish_reply e (exception_result retval datalen ended status (ee_target x)) =
    Ok (exception_result retval datalen ended status (ee_target x))).
  { intros. unfold source_publish_reply. rewrite Hobs. simpl. by rewrite (proj2 (binding_equal_spec _ _) eq_refl), andb_false_r. }
  unfold answer_for. cbv zeta. repeat case_match; simplify_eq; rewrite ?Hpub in *; congruence.
Qed.

(** the request, and what its answer is *)
Definition exception_request (vec err addr epoch ns : Z) : vmr_req :=
  mk_req VMR_MAGIC VMR_NR_EXCEPTION 0 0 epoch ns [vec; err; addr; 0; 0; 0] (vmr_cpu_wire_size cpu) no_binding.
Lemma source_writes vec err addr epoch ns :
  let rq := exception_request vec err addr epoch ns in
  exists o, judged (se_dead e) epoch ns vec err addr (canonical cpu) (serve_exception e rq cpu).2 o /\
            written o (serve_exception e rq cpu).1.
Proof.
  intros rq. unfold serve_exception, source_exception_reply. rewrite (proj2 (Z.leb_gt _ _)) by done.
  change (rq_datalen rq) with (vmr_cpu_wire_size cpu). rewrite decode_arrives, Hsnap by done. cbn -[ctx_deliver_exception].
  assert (Hans : forall result after h o, judged (se_dead e) epoch ns vec err addr (canonical cpu) h o -> written o (answer_for result after) ->
    exists o, judged (se_dead e) epoch ns vec err addr (canonical cpu) h o /\
      written o (match answer_for result after with
                 | Some (rs, cpu) => match source_publish_reply e rs with Ok rs => Some (rs, cpu) | _ => None end
                 | None => None end)).
  { intros result after h o Hj Hw. rewrite publish_answer. by exists o. }
  destruct (se_credit e [] epoch ns) as [err'|] eqn:Hc.
  { apply ko_credit in Hc; [|done]. destruct (answer_failed (- err') (canonical cpu)) as (o & Hf & Hw); [lia|].
    rewrite Z.opp_involutive in Hf. apply (Hans _ _ _ o); [|done]. by constructor. }
  unfold ctx_deliver_exception. cbn [app]. destruct (se_setcpu e _ _) as [err'|] eqn:Hs.
  { apply ko_setcpu in Hs; [|done]. destruct (answer_failed (- err') (canonical cpu)) as (o & Hf & Hw); [lia|].
    rewrite Z.opp_involutive in Hf. apply (Hans _ _ _ o); [|done]. by constructor. }
  destruct (se_exception e _ vec err addr) as [err'|[ret regs]] eqn:Hx.
  { apply ko_raise in Hx; [|done]. destruct (answer_failed (- err') (canonical cpu)) as (o & Hf & Hw); [lia|].
    rewrite Z.opp_involutive in Hf. apply (Hans _ _ _ o); [|done]. by constructor. }
  apply ko_result in Hx; [|done]. destruct (Z.eqb_spec ret VMR_EXC_LEGAL) as [->|Hl].
  { apply (Hans VMR_EXC_LEGAL (canonical cpu) _ Legal); [constructor|]. by eexists. }
  destruct (Z.eqb_spec ret 0) as [->|Hz]; cbn [negb].
  - destruct (se_getcpu e _) as [err'|c] eqn:Hg.
    + apply ko_getcpu in Hg; [|done]. destruct (answer_failed (- err') (canonical cpu)) as (o & Hf & Hw); [lia|].
      rewrite Z.opp_involutive in Hf. apply (Hans _ _ _ o); [|done]. by constructor.
    + apply ko_state in Hg; [|done]. destruct (answer_returned (with_regs regs c)) as (o & Hr & Hw); [done|].
      apply (Hans _ _ _ o); [|done]. by apply j_delivered.
  - destruct Hx as [?|[Hn|[?|Hp]]]; [done| |done|].
    + destruct (answer_failed (i32 ret) (canonical cpu)) as (o & Hf & Hw); [done|]. apply (Hans _ _ _ o); [|done]. by constructor.
    + apply (Hans _ _ _ Refused); [by constructor|]. unfold answer_for. rewrite (proj2 (Z.ltb_ge _ _)), (proj2 (Z.eqb_neq _ _)) by lia.
      exists (i32 ret), (canonical cpu). split; [unfold VMR_EXC_LEGAL; lia|done].
Qed.
Lemma published_accepted retval datalen ended status payload wire rq :
  rq_nr rq = VMR_NR_EXCEPTION -> rq_target rq = no_binding -> 0 <= datalen <= sizeof_cpu_state ->
  wire rq cpu = Some (exception_result retval datalen ended status (ee_target x), payload) ->
  home_call_target_runtime wire rq cpu sizeof_cpu_state =
  Some (exception_result retval datalen ended status (ee_target x), if nz datalen then arrives payload (cs_xstate cpu) else cpu).
Proof.
  intros Hn Ht Hd Hw. unfold home_call_target_runtime. rewrite Hn, Ht, Hw. simpl.
  unfold vmr_rsp_bindings_valid, vmr_memory_reply_matches, source_page_response_valid. rewrite Hn, Ht. simpl. rewrite Hvalid. simpl.
  rewrite andb_false_r. simpl. unfold sizeof_cpu_state, scratch_size in *.
  rewrite (proj2 (Z.ltb_ge _ _)), (proj2 (Z.ltb_ge _ _)) by lia. done.
Qed.

(** C16: An exception crosses the two machines unchanged: whenever the source's
    task is still the one the executor runs, the source's kernel is called in
    order (credit the run's time, install the guest's state, raise the
    exception, read the state back) up to the first call that fails or settles
    the matter, with exactly that state (nothing past its own size) and
    exception, and the executor does what answers these calls' outcome.  A
    delivered exception installs exactly the state the kernel read back, with
    the registers it raised the exception with, and nothing is installed
    otherwise; a legal access is reported as such; a failed call of a task seen
    to have ended notes it and kills, reporting it handled only once its
    execution was seen to end; any other failure or unknown answer leaves the
    fault unhandled. *)
Theorem exception_exchange_refines epoch ns vec addr err :
  ee_runtime x = Some (epoch, ns) ->
  exists o, judged (se_dead e) epoch ns vec err addr (canonical cpu) (serve_exception e (exception_request vec err addr epoch ns) cpu).2 o /\
    owner_takes_fault x (fun rq sent => (serve_exception e rq sent).1) vec addr err = respond x o.
Proof.
  intros Hrt. destruct (source_writes vec err addr epoch ns) as (o & Hj & Hw). exists o. split; [done|].
  unfold owner_takes_fault. rewrite Hget, (proj2 (Z.eqb_neq _ _) Hsize), Hrt. cbv zeta.
  fold (exception_request vec err addr epoch ns). set (rq := exception_request vec err addr epoch ns) in *.
  assert (Hb : vmr_binding_equal (ee_target x) (ee_target x) = true) by by apply binding_equal_spec.
  assert (Hcall : forall retval datalen ended status payload,
    (serve_exception e rq cpu).1 = Some (exception_result retval datalen ended status (ee_target x), payload) -> 0 <= datalen <= sizeof_cpu_state ->
    home_call_target_runtime (fun rq sent => (serve_exception e rq sent).1) rq cpu sizeof_cpu_state =
    Some (exception_result retval datalen ended status (ee_target x), if nz datalen then arrives payload (cs_xstate cpu) else cpu)).
  { intros. by apply published_accepted. }
  destruct o as [c| |status|]; simpl in Hw.
  - destruct Hw as (Hf & Hz & Hs). rewrite (Hcall _ _ _ _ _ Hs).
    2:{ destruct (wire_size_cases c) as [?|[-> ?]]; [done|]. unfold xstate_offset, sizeof_cpu_state, VMR_XSTATE_MAX in *. lia. }
    simpl. rewrite Hb. simpl. rewrite (proj2 (Z.eqb_neq _ _) Hz). simpl. by rewrite decode_arrives.
  - destruct Hw as (c & Hs). rewrite (Hcall _ _ _ _ _ Hs) by done. simpl. by rewrite Hb.
  - destruct Hw as (c & Hs). rewrite (Hcall _ _ _ _ _ Hs) by done. simpl. rewrite Hb. simpl. by destruct (ee_wait_ended x).
  - destruct Hw as (retval & c & Hne & Hs). rewrite (Hcall _ _ _ _ _ Hs) by done. simpl. rewrite Hb, andb_false_r. simpl.
    rewrite (proj2 (Z.eqb_neq _ _) Hne). destruct (retval =? 0); [|done].
    unfold vmr_cpu_wire_decode. done.
Qed.
End exchange.

(** ** Whatever the other side answers *)
(** a reply the executor may act on *)
Record acceptable (target : vmr_mm_binding) (rq : vmr_req) (rs : vmr_rsp) : Prop := {
  ac_magic : rs_magic rs = VMR_MAGIC;
  ac_bindings : vmr_rsp_bindings_valid rs = true;
  ac_matches : vmr_memory_reply_matches rq rs = true;
  ac_page : source_page_response_valid rq rs = true;
  ac_gens : rs_ngen rs <= 16;
  ac_length : rs_datalen rs <= scratch_size /\ rs_datalen rs <= sizeof_cpu_state;
  ac_target : rs_binding rs = target;
  ac_running : rs_ended rs = 0 -> rs_ended_status rs = 0;
  ac_failed : rs_retval rs <> 0 -> rs_datalen rs = 0;
  ac_ended : rs_ended rs = 0 \/ (rs_ended rs = 1 /\ rs_retval rs = 0 /\ rs_datalen rs = 0) }.
Lemma call_checked wire rq cpu :
  rq_nr rq = VMR_NR_EXCEPTION -> rq_target rq = no_binding ->
  home_call_target_runtime wire rq cpu sizeof_cpu_state =
  match wire rq cpu with
  | Some (rs, payload) =>
      if decide (rs_magic rs = VMR_MAGIC /\ vmr_rsp_bindings_valid rs = true /\ vmr_memory_reply_matches rq rs = true /\
                 source_page_response_valid rq rs = true /\ rs_ngen rs <= 16 /\ rs_datalen rs <= scratch_size /\ rs_datalen rs <= sizeof_cpu_state)
      then Some (rs, if nz (rs_datalen rs) then arrives payload (cs_xstate cpu) else cpu) else None
  | None => None
  end.
Proof.
  intros Hn Ht. unfold home_call_target_runtime. rewrite Hn, Ht. simpl. destruct (wire rq cpu) as [[rs payload]|]; [|done].
  case_decide as Hd.
  - destruct Hd as (-> & -> & -> & -> & Hg & Hs & Hz). rewrite !(proj2 (Z.ltb_ge _ _)) by done. done.
  - destruct (_ || _) eqn:Hb; [done|]. destruct Hd. repeat (apply orb_false_iff in Hb as [Hb ?]).
    rewrite !negb_false_iff in *. rewrite !Z.ltb_ge in *. by apply Z.eqb_eq in Hb.
Qed.
Lemma accepted_cases target rq rs :
  (rs_magic rs = VMR_MAGIC /\ vmr_rsp_bindings_valid rs = true /\ vmr_memory_reply_matches rq rs = true /\
   source_page_response_valid rq rs = true /\ rs_ngen rs <= 16 /\ rs_datalen rs <= scratch_size /\ rs_datalen rs <= sizeof_cpu_state) ->
  rs_binding rs = target -> ((rs_ended rs =? 0) && nz (rs_ended_status rs)) || (nz (rs_retval rs) && nz (rs_datalen rs)) = false ->
  rs_ended rs = 0 \/ (rs_ended rs = 1 /\ rs_retval rs = 0 /\ rs_datalen rs = 0) -> acceptable target rq rs.
Proof.
  intros (? & ? & ? & ? & ? & ? & ?) Ht Hm He. apply orb_false_iff in Hm as [Hm1 Hm2].
  constructor; try done; lia.
Qed.
(** a state that arrived, and what is installed of it *)
Lemma decode_received c garbage len :
  full c -> length garbage = Z.to_nat VMR_XSTATE_MAX ->
  vmr_cpu_wire_decode (arrives c garbage) len =
  if decide (len <> 0 /\ len = vmr_cpu_wire_size c) then Ok (canonical c) else Err EPROTO.
Proof.
  intros Hf Hg. case_decide as Hd.
  - destruct Hd as [? ->]. by apply decode_arrives.
  - unfold vmr_cpu_wire_decode. change (vmr_cpu_wire_size (arrives c garbage)) with (vmr_cpu_wire_size c).
    destruct (Z.eqb_spec len (vmr_cpu_wire_size c)) as [->|]; [|by rewrite orb_true_r].
    destruct (wire_size_cases c) as [Hz|[Hz ?]]; [by rewrite Hz|]. destruct Hd. unfold xstate_offset in *. lia.
Qed.

(** C35: What the executor makes of any answer whatever.  A call that fails, and
    a reply that is not for this request (wrong magic, invalid bindings, a
    memory or page answer nobody asked for, too many generations, more bytes
    than there is room for), not of the task it saved, or contradicts itself (an
    exit status of a running task, a state with a failure, an end with either),
    ends the session before anything is done.  Of an acceptable reply, an end is
    noted and the context killed, reported handled only once it was seen to
    end; a legal access is reported as such; any other failure leaves the fault
    unhandled; and a success installs exactly the state received, nothing past
    its own size, when the reply announces that state's length, and leaves the
    fault unhandled otherwise. *)
Theorem exception_answers_checked x cpu epoch ns wire vec addr err :
  ee_getcpu x = Some cpu -> ee_runtime x = Some (epoch, ns) -> vmr_cpu_wire_size cpu <> 0 -> full cpu ->
  let rq := exception_request cpu vec err addr epoch ns in
  let out := owner_takes_fault x wire vec addr err in
  match wire rq cpu with
  | None => out = (Aborted, [])
  | Some (rs, state) =>
      full state ->
      (~ acceptable (ee_target x) rq rs -> out = (Aborted, [])) /\
      (acceptable (ee_target x) rq rs ->
         (rs_ended rs = 1 -> out = (if ee_wait_ended x then Ok 1 else Aborted, [EndedNote (rs_ended_status rs); Kill])) /\
         (rs_ended rs = 0 -> rs_retval rs = VMR_EXC_LEGAL -> out = (Ok 2, [])) /\
         (rs_ended rs = 0 -> rs_retval rs <> VMR_EXC_LEGAL -> rs_retval rs <> 0 -> out = (Ok 0, [])) /\
         (rs_ended rs = 0 -> rs_retval rs = 0 ->
            out = if decide (rs_datalen rs <> 0 /\ rs_datalen rs = vmr_cpu_wire_size state)
                  then (Ok (if ee_setcpu x then 1 else 0), [SetCpu (canonical state)]) else (Ok 0, [])))
  end.
Proof.
  intros Hget Hrt Hsize Hfull rq out.
  assert (Hout : out = owner_takes_fault x wire vec addr err) by done. clearbody out.
  unfold owner_takes_fault in Hout. rewrite Hget, (proj2 (Z.eqb_neq _ _) Hsize), Hrt in Hout. cbv zeta in Hout.
  fold (exception_request cpu vec err addr epoch ns) in Hout. fold rq in Hout. rewrite call_checked in Hout by done.
  destruct (wire rq cpu) as [[rs state]|]; [|done]. intros Hs. case_decide as Hw.
  2:{ split; [by intros _|]. intros [? ? ? ? ? [? ?] ? ? ? ?]. by destruct Hw. }
  destruct (vmr_binding_equal (rs_binding rs) (ee_target x)) eqn:Hb; cbn [negb] in Hout.
  2:{ split; [by intros _|]. intros Ha. apply ac_target in Ha. apply binding_equal_spec in Ha. congruence. }
  apply binding_equal_spec in Hb. destruct (_ || _) eqn:Hm in Hout.
  { split; [by intros _|]. intros Ha. pose proof (ac_running _ _ _ Ha). pose proof (ac_failed _ _ _ Ha). lia. }
  destruct (Z.eqb_spec (rs_ended rs) 0) as [He|He]; cbn [negb] in Hout.
  - split; [intros Hn; destruct Hn; apply accepted_cases; [done|done|by rewrite He|by left]|]. intros Ha. split; [lia|].
    destruct (Z.eqb_spec (rs_retval rs) VMR_EXC_LEGAL) as [Hl|Hl].
    { split; [done|]. split; [done|]. unfold VMR_EXC_LEGAL in *. lia. }
    split; [done|]. destruct (Z.eqb_spec (rs_retval rs) 0) as [Hr|Hr]; [|by split].
    split; [done|]. intros _ _. subst out. destruct (Z.eqb_spec (rs_datalen rs) 0) as [Hz|Hz]; cbn [negb].
    + rewrite Hz. by rewrite decide_False by naive_solver.
    + rewrite decode_received by done. by case_decide.
  - destruct (Z.eqb_spec (rs_ended rs) 1) as [H1|H1]; cbn [negb orb] in Hout.
    2:{ split; [by intros _|]. intros Ha. destruct (ac_ended _ _ _ Ha); lia. }
    destruct (nz (rs_retval rs) || nz (rs_datalen rs)) eqn:Hz.
    { split; [by intros _|]. intros Ha. destruct (ac_ended _ _ _ Ha) as [?|(_ & ? & ?)]; lia. }
    apply orb_false_iff in Hz as [Hz1 Hz2]. split.
    { intros Hn; destruct Hn; apply accepted_cases; [done|done|by rewrite H1|right; lia]. }
    intros _. split; [|by repeat split]. subst out. by destruct (ee_wait_ended x).
Qed.
(** ** Examples *)
Definition demo_task : vmr_mm_binding := mk_binding 1 3 0 5.
Definition demo_state (r : Z) : vmr_cpu_state := mk_cpu 576 0 [r] (demo_xstate 1).
(** a kernel that delivers the exception and moves the program to register 9 *)
Definition demo_source : source_env :=
  mk_source 1 (demo_xstate 0) (Some demo_task) (fun _ _ _ => None) (fun _ _ => None) (fun _ _ _ _ => inr (0, [9]))
    (fun _ => inr (demo_state 4)) (fun _ => None) (Some demo_task).
Definition demo_executor : exec_env := mk_exec demo_task (Some (demo_state 2)) (Some (7, 100)) true true.
Definition demo_request : vmr_req := exception_request (demo_state 2) 14 6 0x5000 7 100.
Lemma demo_full b : length (demo_xstate b) = Z.to_nat VMR_XSTATE_MAX.
Proof. apply length_replicate. Qed.
Lemma demo_kernel : kernel_ok demo_source.
Proof.
  constructor; try done.
  - intros h a b c ret regs H. injection H as <- _. by left.
  - intros h c H. injection H as <-. apply demo_full.
Qed.
Lemma exception_exchange_refines_witness :
  exists o, judged (se_dead demo_source) 7 100 14 6 0x5000 (canonical (demo_state 2)) (serve_exception demo_source demo_request (demo_state 2)).2 o /\
    owner_takes_fault demo_executor (fun rq sent => (serve_exception demo_source rq sent).1) 14 0x5000 6 = respond demo_executor o.
Proof.
  apply (exception_exchange_refines demo_executor demo_source (demo_state 2)); [reflexivity..|done| | | |reflexivity].
  - apply demo_full.
  - apply demo_full.
  - apply demo_kernel.
Defined.
Example demo_exchange :
  owner_takes_fault demo_executor (fun rq sent => (serve_exception demo_source rq sent).1) 14 0x5000 6 = (Ok 1, [SetCpu (canonical (demo_state 9))]).
Proof. vm_compute. reflexivity. Qed.
(** a reply without the magic number *)
Definition demo_forged : vmr_rsp :=
  mk_rsp 0 0 0 0 no_binding 0 (replicate 6 0) 0 0 0 0 0 1 9 0 0 0 0 0 demo_task no_binding.
Lemma exception_answers_checked_witness :
  owner_takes_fault demo_executor (fun _ _ => Some (demo_forged, demo_state 9)) 14 0x5000 6 = (Aborted, []).
Proof.
  refine (proj1 (exception_answers_checked demo_executor (demo_state 2) 7 100 (fun _ _ => Some (demo_forged, demo_state 9)) 14 0x5000 6
    eq_refl eq_refl _ (demo_full 1) (demo_full 1)) _).
  - done.
  - intros [Hm _]. done.
Defined.

End Exceptions.
