(* ===== verification/SourceServe.v ===== *)
(** * Requests of the executor that update the source's tables (user/vmhome.c)

    Three cases of the request loop [serve], each composed with the module whose
    state it changes and with the module that reads its answer:

    - the access journal (VMR_OP_ACCESS_READ, VMR_OP_ACCESS_ACK): the kernel's log
      becomes the batch that AccessJournal.v validates, and the sealed ranges of
      SourceTables.v follow it;
    - the CPU model (VMR_OP_CPU_MODEL): negotiated once per program with the
      intersection of CpuModel.v;
    - a completed call ([ctx_forward_prepare], [ctx_forward]): the kernel's log of
      vacated ranges is drained into the shared-file table, and the new mapping
      is named and described (source_map_effect of Proto.v).

    Answers of the kernel are arguments. *)
From S2P Require Import Prelude Ranges CpuModel Proto Native AccessJournal SourceTables.
Open Scope Z_scope.

Module SourceServe.
Import Proto CpuModel AccessJournal SourceTables.

Definition EOPNOTSUPP : Z := 95.

(** ** The access journal *)
Definition VMCTX_ACCESS_UNMAP : Z := 1.
Definition VMCTX_ACCESS_DISCARD : Z := 2.
Definition VMCTX_ACCESS_PROTECT : Z := 3.
Definition VMCTX_ACCESS_DENY : Z := 4.
Definition VMCTX_ACCESS_ALLOW : Z := 5.
Definition VMCTX_ACCESS_CONSTRUCT : Z := 6.
Record vmctx_access_event := mk_kevent { ke_seq : Z; ke_start : Z; ke_end : Z; ke_kind : Z; ke_prot : Z }.
Record vmctx_access_log := mk_log {
  al_mm_id : Z; al_cursor : Z; al_head : Z; al_acked : Z; al_n : nat; al_error : Z; al_event : list vmctx_access_event }.
(** the switch on the kind; [None] is its default *)
Definition wire_kind (kind : Z) : option Z :=
  if kind =? VMCTX_ACCESS_UNMAP then Some VMR_ACCESS_UNMAP
  else if kind =? VMCTX_ACCESS_DISCARD then Some VMR_ACCESS_DISCARD
  else if kind =? VMCTX_ACCESS_PROTECT then Some VMR_ACCESS_PROTECT
  else if kind =? VMCTX_ACCESS_DENY then Some VMR_ACCESS_DENY
  else if kind =? VMCTX_ACCESS_ALLOW then Some VMR_ACCESS_ALLOW
  else if kind =? VMCTX_ACCESS_CONSTRUCT then Some VMR_ACCESS_CONSTRUCT
  else None.
(** what an event does to the sealed ranges *)
Definition sealing (mm : Z) (e : vmctx_access_event) : list range_op :=
  let len := u64 (ke_end e - ke_start e) in
  if (ke_kind e =? VMCTX_ACCESS_PROTECT) && negb (nz (ke_prot e .& PROT_WRITE)) then [OpNote mm (ke_start e) len]
  else if (ke_kind e =? VMCTX_ACCESS_PROTECT) || (ke_kind e =? VMCTX_ACCESS_UNMAP) || (ke_kind e =? VMCTX_ACCESS_CONSTRUCT)
  then [OpForget mm (ke_start e) len] else [].
(** The loop: the events written, whether all kinds were known, the table. *)
Fixpoint serve_events (alloc : Z -> bool) (mm : Z) (events : list vmctx_access_event) (t : relro_table)
  : result (list vmr_access_event * bool * relro_table) :=
  match events with
  | [] => Ok ([], true, t)
  | e :: events =>
      let w kind := mk_event (ke_seq e) (ke_start e) (ke_end e) kind (source_wire_protection (ke_prot e)) in
      match wire_kind (ke_kind e) with
      | None => Ok ([w 0], false, t)
      | Some kind =>
          let! t := relro_run alloc (sealing mm e) t in
          let! x := serve_events alloc mm events t in
          Ok (w kind :: x.1.1, x.1.2, x.2)
      end
  end.
Definition no_event : vmr_access_event := mk_event 0 0 0 0 0.
(** [kernel] is the answer of ACCESS_LOG.  The return value, the batch sent. *)
Definition access_request (alloc : Z -> bool) (conn_source : Z) (rq : vmr_req) (kernel : Z + vmctx_access_log) (t : relro_table)
  : result (Z * option vmr_access_batch * relro_table) :=
  let mm := mb_mm (rq_target rq) in
  if nz (rq_datalen rq) || (conn_source <=? 0) then Ok (- EINVAL, None, t)
  else if negb (default 0 (rq_args rq !! 0%nat) =? mm) then Ok (- EPROTO, None, t)
  else match kernel with
  | inl err => Ok (- err, None, t)
  | inr log =>
      if negb (al_mm_id log =? mm) || (VMR_ACCESS_MAX <? al_n log)%nat || nz (al_error log) then Ok (- EPROTO, None, t)
      else
        let! x := serve_events alloc mm (take (al_n log) (al_event log)) t in
        if x.1.2 : bool then
          Ok (sizeof_batch,
              Some (mk_batch (al_mm_id log) (al_cursor log) (al_head log) (al_acked log) (al_n log) 0
                      (x.1.1 ++ replicate (VMR_ACCESS_MAX - length x.1.1) no_event)), x.2)
        else Ok (- EPROTO, None, x.2)
  end.

(** ** The CPU model of the program *)
#[global] Instance cpu_model_eq_dec : EqDecision vmctx_cpu_model.
Proof. solve_decision. Defined.
Definition no_model : vmctx_cpu_model := mk_model 0 0 0 0 0 0 0 0 0 0 0.
(** whether the program runs ([ctx0_source]), the model ([source_cpu_model]) *)
Record model_state := mk_mstate { ms_root : bool; source_cpu_model : vmctx_cpu_model }.
(** The answer is a left error number or the model agreed. *)
Definition cpu_model_request (length_ok : bool) (peer : vmctx_cpu_model) (caps : Z + vmctx_cpu_model) (s : model_state)
  : (Z + vmctx_cpu_model) * model_state :=
  if negb length_ok || negb (vmctx_cpu_model_valid peer) then (inl EINVAL, s)
  else match caps with
  | inl err => (inl err, s)
  | inr caps =>
      let agreed := vmctx_cpu_model_intersect caps peer in
      if negb (vmctx_cpu_model_valid agreed) then (inl EOPNOTSUPP, s)
      else if ms_root s || (nz (version (source_cpu_model s)) && negb (bool_decide (source_cpu_model s = agreed)))
      then (inl EBUSY, s)
      else (inr agreed, mk_mstate (ms_root s) agreed)
  end.
Inductive model_op := Negotiate (length_ok : bool) (peer : vmctx_cpu_model) (caps : Z + vmctx_cpu_model) | StartRoot.
Definition model_step (op : model_op) (s : model_state) : option (Z + vmctx_cpu_model) * model_state :=
  match op with
  | Negotiate length_ok peer caps => let '(r, s) := cpu_model_request length_ok peer caps s in (Some r, s)
  | StartRoot => (None, mk_mstate true (source_cpu_model s))
  end.
(** the answers, in order *)
Fixpoint model_run (ops : list model_op) (s : model_state) : list (option (Z + vmctx_cpu_model)) * model_state :=
  match ops with
  | [] => ([], s)
  | op :: ops => let '(r, s) := model_step op s in let '(rs, s) := model_run ops s in (r :: rs, s)
  end.

(** ** A completed call *)
Definition SYS_munmap : Z := 11.
Definition SYS_msync : Z := 26.
(** The pages taken back before the call runs; the tables read at each step are
    those of SourceTables.v. *)
Definition ctx_forward_prepare (tab : nat -> list file_range) (tab' : nat -> list file_range)
    (scan : nat -> Z -> Z -> option (list Z)) (as_ nr arg0 arg1 : Z) : list Z :=
  (if (nr =? SYS_msync) || (nr =? SYS_munmap) then sh_file_reclaim tab as_ arg0 arg1 else []) ++
  sh_file_reclaim_held tab' scan as_.
Definition VMCTX_MMLOG_MAX : nat := 16.
Definition VMCTX_MMLOG_DISCARD : Z := 1.
Record mmlog_entry := mk_entry { le_start : Z; le_end : Z }.
Record vmctx_mmlog := mk_mmlog { ml_ent : list mmlog_entry; ml_dropped : Z; ml_cur : Z }.
Definition entry_soft (e : mmlog_entry) : bool := nz (le_start e .& VMCTX_MMLOG_DISCARD).
Definition entry_from (e : mmlog_entry) : Z := Z.ldiff (le_start e) VMCTX_MMLOG_DISCARD.
Definition drain_entry (as_ : Z) (e : mmlog_entry) (rows : list file_range) : result (list file_range) :=
  if nz (entry_from e .& (VMR_PG_SIZE - 1)) || nz (le_end e .& (VMR_PG_SIZE - 1)) || (le_end e <=? entry_from e) then Aborted
  else if entry_soft e then Ok rows else sh_file_forget as_ (entry_from e) (u64 (le_end e - entry_from e)) rows.
Fixpoint drain_entries (as_ : Z) (es : list mmlog_entry) (rows : list file_range) : result (list file_range) :=
  match es with [] => Ok rows | e :: es => let! rows := drain_entry as_ e rows in drain_entries as_ es rows end.
(** The do loop: one answer of MMLOG a turn, [None] a failure.  The table and
    the stamp of the last batch. *)
Fixpoint drain_log (as_ : Z) (answers : list (option vmctx_mmlog)) (rows : list file_range) : result (list file_range * Z) :=
  match answers with
  | [] => Hung
  | None :: _ => Aborted
  | Some ml :: answers =>
      if (VMCTX_MMLOG_MAX <? length (ml_ent ml))%nat || nz (ml_dropped ml) then Aborted
      else
        let! rows := drain_entries as_ (ml_ent ml) rows in
        if (length (ml_ent ml) =? VMCTX_MMLOG_MAX)%nat then drain_log as_ answers rows else Ok (rows, ml_cur ml)
  end.
(** the gate of the call: its raw result, the result and registers to report *)
Record syscall_gate := mk_gate { g_dispatch_ret : Z; g_ret : Z; g_regs : list Z }.
Record forwarded := mk_forwarded { fw_ret : Z; fw_regs : list Z; fw_mmseq : Z; fw_mapping : vmr_map_effect }.
Definition ctx_forward (answers : list (option vmctx_mmlog)) (query : option vmctx_mapping) (fstat : Z + Z * Z) (alloc : Z -> bool)
    (as_ nr : Z) (args : list Z) (gate : syscall_gate) (s : source_objects) : result (forwarded * source_objects) :=
  let ret := g_dispatch_ret gate in
  let! x := drain_log as_ answers (sh_file s) in
  let! y := note_shared_mapping query fstat alloc as_ nr (default 0 (args !! 1%nat)) (default 0 (args !! 3%nat)) ret
              (mk_objects (sh_shared s) x.1) in
  let shared := y.1 in
  Ok (mk_forwarded (g_ret gate) (g_regs gate) x.2
        (source_map_effect nr args ret (sm_object shared) (sm_offset shared) (sm_length shared)), y.2).

(** ** The journal as the executor reads it *)
(** Documented of the kernel's log: at most the capacity, in sequence after what
    was acknowledged, whole pages, the six kinds. *)
Definition kernel_event_ok (e : vmctx_access_event) : Prop :=
  ke_start e < ke_end e /\ ke_start e .& 4095 = 0 /\ ke_end e .& 4095 = 0 /\ VMCTX_ACCESS_UNMAP <= ke_kind e <= VMCTX_ACCESS_CONSTRUCT.
Definition log_events (l : vmctx_access_log) : list vmctx_access_event := take (al_n l) (al_event l).
Record log_ok (mm acknowledged : Z) (l : vmctx_access_log) : Prop := {
  lo_mm : al_mm_id l = mm; lo_error : al_error l = 0; lo_acked : al_acked l = acknowledged;
  lo_room : (al_n l <= VMR_ACCESS_MAX)%nat; lo_length : length (log_events l) = al_n l;
  lo_events : Forall kernel_event_ok (log_events l);
  lo_order : climbs acknowledged (ke_seq <$> log_events l);
  lo_cursor : al_cursor l = top acknowledged (ke_seq <$> log_events l); lo_head : al_cursor l <= al_head l }.
Definition wire_event (e : vmctx_access_event) : vmr_access_event :=
  mk_event (ke_seq e) (ke_start e) (ke_end e) (ke_kind e) (source_wire_protection (ke_prot e)).

Lemma wire_kind_ok kind : VMCTX_ACCESS_UNMAP <= kind <= VMCTX_ACCESS_CONSTRUCT -> wire_kind kind = Some kind.
Proof.
  unfold VMCTX_ACCESS_UNMAP, VMCTX_ACCESS_CONSTRUCT. intros H.
  assert (Hc : kind = 1 \/ kind = 2 \/ kind = 3 \/ kind = 4 \/ kind = 5 \/ kind = 6) by lia.
  by destruct Hc as [->|[->|[->|[->|[->| ->]]]]].
Qed.
Lemma wire_protection_bits p : Z.ldiff (source_wire_protection p) (VMR_PROT_READ .| VMR_PROT_WRITE .| VMR_PROT_EXEC) = 0.
Proof.
  unfold source_wire_protection. by destruct (nz (p .& Proto.PROT_READ)), (nz (p .& Proto.PROT_WRITE)), (nz (p .& Proto.PROT_EXEC)).
Qed.
Lemma land_bit p k : 0 <= k -> p .& 2 ^ k = 0 \/ p .& 2 ^ k = 2 ^ k.
Proof.
  intros Hk. destruct (Z.testbit p k) eqn:Hb; [right|left]; apply Z.bits_inj'; intros i Hi;
    rewrite Z.land_spec, ?Z.bits_0, Z.pow2_bits_eqb by done; destruct (Z.eqb_spec k i) as [<-|]; rewrite ?Hb, ?andb_false_r; done.
Qed.
Lemma protection_returns p : native_prot (source_wire_protection p) 0 = p .& 7.
Proof.
  assert (H7 : p .& 7 = (p .& 1) .| (p .& 2) .| (p .& 4)) by by rewrite <- !Z.land_lor_distr_r.
  rewrite H7. unfold native_prot, source_wire_protection, Proto.PROT_READ, Proto.PROT_WRITE, Proto.PROT_EXEC.
  assert (H1 : p .& 1 = 0 \/ p .& 1 = 1) by by apply (land_bit p 0).
  assert (H2 : p .& 2 = 0 \/ p .& 2 = 2) by by apply (land_bit p 1).
  assert (H4 : p .& 4 = 0 \/ p .& 4 = 4) by by apply (land_bit p 2).
  destruct H1 as [-> | ->], H2 as [-> | ->], H4 as [-> | ->]; done.
Qed.
Lemma relro_run_ok alloc ops t : relro_ok t ->
  match relro_run alloc ops t with
  | Ok t' => relro_ok t' /\ forall s a, relro_has s a t' = ref_run relro_ref ops (fun s a => relro_has s a t) s a
  | Aborted => True | _ => False end.
Proof.
  revert t. induction ops as [|op ops IH]; intros t Hok; simpl; [done|].
  pose proof (relro_step_spec alloc op t Hok) as Hs. destruct (relro_step alloc op t) as [t1| | | |]; try done. simpl.
  destruct Hs as [Hok1 H1]. specialize (IH t1 Hok1). destruct (relro_run alloc ops t1) as [t2| | | |]; try done.
  destruct IH as [Hok2 H2]. split; [done|]. intros s a. rewrite H2. by apply ref_run_ext.
Qed.
Lemma ref_run_app ops ops' f : ref_run relro_ref (ops ++ ops') f = ref_run relro_ref ops' (ref_run relro_ref ops f).
Proof. revert f. induction ops as [|op ops IH]; intros f; [done|]. apply IH. Qed.
Lemma serve_events_spec alloc mm events t :
  Forall kernel_event_ok events -> relro_ok t ->
  match serve_events alloc mm events t with
  | Ok (ws, known, t') => ws = wire_event <$> events /\ known = true /\ relro_ok t' /\
      forall s a, relro_has s a t' = ref_run relro_ref (events ≫= sealing mm) (fun s a => relro_has s a t) s a
  | Aborted => True | _ => False end.
Proof.
  intros Hev. revert t. induction Hev as [|e events He Hev IH]; intros t Hok; cbn [serve_events]; [done|].
  rewrite wire_kind_ok by apply He. pose proof (relro_run_ok alloc (sealing mm e) t Hok) as Hs.
  destruct (relro_run alloc (sealing mm e) t) as [t1| | | |]; try done. simpl. destruct Hs as [Hok1 H1]. specialize (IH t1 Hok1).
  destruct (serve_events alloc mm events t1) as [[[ws known] t2]| | | |]; try done. simpl. destruct IH as (-> & -> & Hok2 & H2).
  split_and!; [done..|]. intros s a. rewrite H2, ref_run_app. by apply ref_run_ext.
Qed.
Lemma wire_events_valid acknowledged head events :
  Forall kernel_event_ok events -> climbs acknowledged (ke_seq <$> events) -> top acknowledged (ke_seq <$> events) <= head ->
  events_valid acknowledged head (wire_event <$> events) = Some (top acknowledged (ke_seq <$> events)).
Proof.
  intros Hev. revert acknowledged. induction Hev as [|e events He Hev IH]; intros acknowledged; [done|].
  rewrite !fmap_cons, top_cons. cbn [climbs events_valid]. intros [Hlt Hc] Hh.
  assert (Hle : ke_seq e <= top (ke_seq e) (ke_seq <$> events)).
  { clear -Hc. revert Hc. generalize (ke_seq e). induction events as [|x l IH]; intros p; [done|].
    rewrite fmap_cons, top_cons. cbn [climbs]. intros [H1 H2]. specialize (IH _ H2). lia. }
  change (ev_sequence (wire_event e)) with (ke_seq e). change (ev_start (wire_event e)) with (ke_start e).
  change (ev_end (wire_event e)) with (ke_end e). change (ev_kind (wire_event e)) with (ke_kind e).
  change (ev_protection (wire_event e)) with (source_wire_protection (ke_prot e)).
  destruct He as (Hse & Hs & Hen & Hk). unfold VMCTX_ACCESS_UNMAP, VMCTX_ACCESS_CONSTRUCT in Hk.
  rewrite (wire_protection_bits (ke_prot e)). change (VMR_PG_SIZE - 1) with 4095. rewrite Z.land_lor_distr_l, Hs, Hen. cbn [Z.lor].
  unfold VMR_ACCESS_UNMAP, VMR_ACCESS_CONSTRUCT.
  rewrite (proj2 (Z.leb_gt _ _)), (proj2 (Z.ltb_ge _ _)), (proj2 (Z.leb_gt _ _)), !(proj2 (Z.ltb_ge _ _)) by lia. simpl. by apply IH.
Qed.

(** C21: The journal reaches the executor whole: what the source makes of a log
    the kernel documents passes the executor's validation of a batch, event by
    event the same change with its sequence, range and kind, and with the rights
    that the executor's translation turns back into the kernel's; and the source's
    sealed ranges afterwards are exactly what the events say, unless the allocator
    failed and ended the program. *)
Theorem served_batch_accepted alloc conn_source rq log t acknowledged :
  0 < conn_source -> rq_datalen rq = 0 -> rq_args rq !! 0%nat = Some (mb_mm (rq_target rq)) ->
  log_ok (mb_mm (rq_target rq)) acknowledged log -> relro_ok t ->
  match access_request alloc conn_source rq (inr log) t with
  | Ok (ret, Some b, t') =>
      ret = sizeof_batch /\ access_batch_valid b (mb_mm (rq_target rq)) acknowledged = true /\
      batch_events b = wire_event <$> log_events log /\ length (ab_event b) = VMR_ACCESS_MAX /\
      Forall (fun e => native_prot (source_wire_protection (ke_prot e)) 0 = ke_prot e .& 7) (log_events log) /\
      forall s a, relro_has s a t' = ref_run relro_ref (log_events log ≫= sealing (mb_mm (rq_target rq))) (fun s a => relro_has s a t) s a
  | Aborted => True
  | _ => False
  end.
Proof.
  intros Hc Hd Ha Hlog Ht. unfold access_request. rewrite Hd, Ha, (proj2 (Z.leb_gt _ _)) by done. simpl. rewrite Z.eqb_refl. simpl.
  destruct Hlog as [Hmm Herr Hacked Hroom Hlen Hev Hord Hcur Hhead].
  rewrite Hmm, Z.eqb_refl, Herr, (proj2 (Nat.ltb_ge _ _)) by done. simpl. fold (log_events log).
  pose proof (serve_events_spec alloc (mb_mm (rq_target rq)) (log_events log) t Hev Ht) as Hs.
  destruct (serve_events _ _ _ _) as [[[ws known] t']| | | |]; try done. destruct Hs as (-> & -> & _ & Hr). simpl.
  assert (Hb : take (al_n log) ((wire_event <$> log_events log) ++ replicate (VMR_ACCESS_MAX - length (wire_event <$> log_events log)) no_event)
    = wire_event <$> log_events log) by (apply take_app_length'; by rewrite length_fmap).
  split_and!; [done| |exact Hb| | |done].
  - unfold access_batch_valid, batch_events. simpl. rewrite Hb, Z.eqb_refl, Hacked, Z.eqb_refl, (proj2 (Nat.ltb_ge _ _)), (proj2 (Z.ltb_ge _ _)) by done.
    simpl. rewrite wire_events_valid by (done || by rewrite <- Hcur). by rewrite Hcur, Z.eqb_refl.
  - rewrite length_app, length_replicate, length_fmap, Hlen. unfold VMR_ACCESS_MAX in *. lia.
  - apply Forall_true. intros e. apply protection_returns.
Qed.

(** ** One model per program *)
Lemma trim_version m : version (vmctx_cpu_model_trim m) = VMCTX_CPU_MODEL_VERSION.
Proof. unfold vmctx_cpu_model_trim. by repeat case_match. Qed.
Lemma request_answers length_ok peer caps s m s' :
  cpu_model_request length_ok peer caps s = (inr m, s') ->
  exists c, caps = inr c /\ m = vmctx_cpu_model_intersect c peer /\ vmctx_cpu_model_valid m = true /\
    ms_root s = false /\ (version (source_cpu_model s) = 0 \/ source_cpu_model s = m) /\ s' = mk_mstate false m.
Proof.
  unfold cpu_model_request. destruct (_ || _); [done|]. destruct caps as [|c]; [done|]. cbv zeta.
  destruct (vmctx_cpu_model_valid (vmctx_cpu_model_intersect c peer)) eqn:Hv; [|done]. cbn [negb].
  destruct (ms_root s); [done|]. cbn [orb].
  destruct (nz _ && _) eqn:Hb; intros; simplify_eq. exists c. split_and!; try done.
  apply andb_false_iff in Hb as [Hb|Hb]; [left|right].
  - destruct (Z.eqb_spec (version (source_cpu_model s)) 0); [done|]. done.
  - apply negb_false_iff in Hb. by apply bool_decide_eq_true in Hb.
Qed.
Lemma request_refuses length_ok peer caps s err s' : cpu_model_request length_ok peer caps s = (inl err, s') -> s' = s.
Proof. unfold cpu_model_request. intros H. repeat case_match; by simplify_eq. Qed.
Lemma intersect_version c peer : version (vmctx_cpu_model_intersect c peer) = VMCTX_CPU_MODEL_VERSION.
Proof. apply trim_version. Qed.
(** Once a model is set or the program runs, the state only gains the flag. *)
Lemma model_settled ops s rs s' :
  model_run ops s = (rs, s') -> version (source_cpu_model s) <> 0 \/ ms_root s = true ->
  source_cpu_model s' = source_cpu_model s /\
  forall i m, rs !! i = Some (Some (inr m)) -> m = source_cpu_model s /\ ms_root s = false /\
    forall k, ops !! k = Some StartRoot -> (i < k)%nat.
Proof.
  revert s rs. induction ops as [|op ops IH]; intros s rs; cbn [model_run]; [intros; by simplify_eq|].
  destruct (model_step op s) as [r s1] eqn:Hop. destruct (model_run ops s1) as [rs1 s2] eqn:Hrun. intros Heq Hs. simplify_eq.
  assert (Hs1 : source_cpu_model s1 = source_cpu_model s /\ (ms_root s1 = false -> ms_root s = false) /\
    (version (source_cpu_model s1) <> 0 \/ ms_root s1 = true) /\ (op = StartRoot -> ms_root s1 = true) /\
    (forall m, r = Some (inr m) -> m = source_cpu_model s /\ ms_root s = false /\ op <> StartRoot)).
  { destruct op as [length_ok peer caps|]; simpl in Hop; [|injection Hop as <- <-; simpl; split_and!; try done; by right].
    destruct (cpu_model_request length_ok peer caps s) as [[err|m] s0] eqn:Hr; simplify_eq.
    - apply request_refuses in Hr as ->. split_and!; done.
    - apply request_answers in Hr as (c & -> & -> & Hv & Hroot & Hm & ->). simpl.
      destruct Hs as [Hs|Hs]; [|congruence]. destruct Hm as [?|Hm]; [done|]. rewrite Hm in *. split_and!; auto; [done|].
      intros; by simplify_eq. }
  destruct Hs1 as (Hm1 & Hr1 & Hset & Hstart & Hans). destruct (IH s1 rs1 Hrun Hset) as [Hf Hi]. split; [congruence|].
  intros [|i] m Hrs; simpl in Hrs.
  - destruct (Hans m ltac:(congruence)) as (? & ? & Hno). split_and!; try done. intros [|k] Hk; simpl in Hk; [congruence|lia].
  - destruct (Hi i m Hrs) as (-> & Hroot & Hlt). split_and!; [done|auto|]. intros [|k] Hk; simpl in Hk.
    + simplify_eq. rewrite Hstart in Hroot; done.
    + specialize (Hlt k Hk). lia.
Qed.

(** C17: A program has one CPU model.  Whatever executors ask for it, and in
    whatever order with the start of the program: every request that is granted is
    granted the same model, the one the source keeps; each grantee's machine and
    the source's own can honour it; and none is granted once the program runs, so
    no context can meet a machine that joined with other features. *)
Theorem cpu_model_agreed_once ops rs s :
  model_run ops (mk_mstate false no_model) = (rs, s) ->
  (forall i m, rs !! i = Some (Some (inr m)) -> m = source_cpu_model s /\ vmctx_cpu_model_valid m = true) /\
  (forall i k m, rs !! i = Some (Some (inr m)) -> ops !! k = Some StartRoot -> (i < k)%nat) /\
  (forall i length_ok peer caps m, ops !! i = Some (Negotiate length_ok peer (inr caps)) -> rs !! i = Some (Some (inr m)) ->
     is_model peer -> is_model caps -> vmctx_cpu_model_subset m peer = true /\ vmctx_cpu_model_subset m caps = true).
Proof.
  assert (Hgen : forall s0 rs, version (source_cpu_model s0) = 0 -> ms_root s0 = false -> model_run ops s0 = (rs, s) ->
    (forall i m, rs !! i = Some (Some (inr m)) -> m = source_cpu_model s /\ vmctx_cpu_model_valid m = true) /\
    (forall i k m, rs !! i = Some (Some (inr m)) -> ops !! k = Some StartRoot -> (i < k)%nat)).
  { clear rs. induction ops as [|op ops IH]; intros s0 rs Hv Hroot; cbn [model_run]; [intros; by simplify_eq|].
    destruct (model_step op s0) as [r s1] eqn:Hop. destruct (model_run ops s1) as [rs1 s2] eqn:Hrun. intros Heq. simplify_eq.
    destruct op as [length_ok peer caps|]; simpl in Hop.
    - destruct (cpu_model_request length_ok peer caps s0) as [[err|m] s3] eqn:Hr; simplify_eq.
      + apply request_refuses in Hr as ->. destruct (IH _ _ Hv Hroot Hrun) as [H1 H2]. split.
        * intros [|i] m Hm; simpl in Hm; [done|by eapply H1].
        * intros [|i] [|k] m Hm Hk; simpl in *; try done. specialize (H2 i k m Hm Hk). lia.
      + apply request_answers in Hr as (c & -> & -> & Hval & _ & _ & ->).
        destruct (model_settled ops _ rs1 s Hrun) as [Hf Hi]; [left; cbn [source_cpu_model]; by rewrite intersect_version|]. simpl in *. split.
        * intros [|i] m Hm; simpl in Hm; [by simplify_eq|]. destruct (Hi i m Hm) as (-> & _). done.
        * intros [|i] [|k] m Hm Hk; simpl in *; try done; [lia|]. destruct (Hi i m Hm) as (_ & _ & Hlt). specialize (Hlt k Hk). lia.
    - simplify_eq. destruct (model_settled ops _ rs1 s Hrun) as [Hf Hi]; [by right|]. split.
      + intros [|i] m Hm; simpl in Hm; [done|]. by destruct (Hi i m Hm) as (_ & ? & _).
      + intros [|i] k m Hm _; simpl in Hm; [done|]. by destruct (Hi i m Hm) as (_ & ? & _). }
  intros Hrun. destruct (Hgen (mk_mstate false no_model) rs eq_refl eq_refl Hrun) as [H1 H2]. split; [done|]. split; [done|].
  clear Hgen H2. intros i length_ok peer caps m Hop Hm Hp Hc. destruct (H1 i m Hm) as [_ Hv].
  enough (m = vmctx_cpu_model_intersect caps peer) as ->.
  { destruct (cpu_intersect_greatest caps peer Hc Hp) as (_ & Hsub & _). by destruct (Hsub Hv). }
  clear H1 Hv Hp Hc. revert i Hop Hm Hrun. generalize (mk_mstate false no_model). revert rs.
  induction ops as [|op ops IH]; intros rs s0 i Hop Hm Hrun; [done|]. cbn [model_run] in Hrun.
  destruct (model_step op s0) as [r s1] eqn:Hstep. destruct (model_run ops s1) as [rs1 s2] eqn:Hr1. simplify_eq.
  destruct i as [|i]; simpl in *; [|by eapply IH]. simplify_eq. simpl in Hstep.
  destruct (cpu_model_request length_ok peer (inr caps) s0) as [[err|m'] s3] eqn:Hr; simplify_eq.
  apply request_answers in Hr as (c & ? & -> & _). by simplify_eq.
Qed.

(** ** The log of a call *)
(** An entry the loop accepts: whole pages, in the address space. *)
Definition entry_ok (e : mmlog_entry) : Prop :=
  bound_ok (entry_from e) /\ bound_ok (le_end e) /\ entry_from e < le_end e.
Definition batch_ok (ml : vmctx_mmlog) : Prop :=
  (length (ml_ent ml) <= VMCTX_MMLOG_MAX)%nat /\ ml_dropped ml = 0 /\ Forall entry_ok (ml_ent ml).
(** the addresses that lost their mapping *)
Definition vacated (as_ : Z) (es : list mmlog_entry) (as' a : Z) : bool :=
  existsb (fun e => negb (entry_soft e) && inside as_ (entry_from e) (le_end e) as' a) es.
Definition vacates (as_ : Z) (es : list mmlog_entry) : list sh_op :=
  es ≫= fun e => if entry_soft e then [] else [ShForget as_ (entry_from e) (u64 (le_end e - entry_from e))].

Lemma bound_low x : bound_ok x -> x .& 4095 = 0.
Proof. intros [_ H]%aligned_mod. change 4095 with (Z.ones 12). rewrite Z.land_ones by done. done. Qed.
Lemma entry_bounds e : entry_ok e ->
  u64 (le_end e - entry_from e) = le_end e - entry_from e /\ range_lo (entry_from e) = entry_from e /\
  range_hi (entry_from e) (le_end e - entry_from e) = le_end e.
Proof.
  intros ([Hf Hfa] & [He Hea] & Hlt). pose proof Hea as Hmod. apply page_aligned_spec in Hmod.
  assert (Hu : u64 (le_end e - entry_from e) = le_end e - entry_from e) by (apply u64_small; unfold is_u64 in *; lia).
  split; [done|]. split; [by apply page_base_id|]. unfold range_hi. replace (entry_from e + (le_end e - entry_from e)) with (le_end e) by lia.
  rewrite (u64_small (le_end e)) by done. assert (Hle : le_end e <= U64MAX - 4095).
  { assert (HU : U64MAX = 4096 * 4503599627370495 + 4095) by reflexivity. unfold is_u64, PAGE in *.
    pose proof (Z.div_mod (le_end e) 4096). lia. }
  rewrite u64_small by (unfold is_u64 in *; lia). rewrite page_base_sub by (unfold is_u64 in *; lia).
  unfold PAGE in *. pose proof (Z.div_mod (le_end e) 4096). replace (le_end e + 4095) with (4095 + le_end e / 4096 * 4096) by lia. rewrite Z.mod_add by done.
  change (4095 mod 4096) with 4095. lia.
Qed.
Lemma vacates_ok as_ es : Forall entry_ok es -> Forall op_ok (vacates as_ es).
Proof.
  induction 1 as [|e es He _ IH]; [constructor|]. unfold vacates in *. rewrite bind_cons. apply Forall_app. split; [|done].
  destruct (entry_soft e); constructor; [apply He|constructor].
Qed.
Lemma vacates_ref as_ es f as' a : Forall entry_ok es ->
  sh_ref_run (vacates as_ es) f as' a = f as' a && negb (vacated as_ es as' a).
Proof.
  intros He. revert f. induction He as [|e es He _ IH]; intros f; [by simpl; rewrite andb_true_r|].
  unfold vacates in *. rewrite bind_cons. cbn [vacated existsb]. fold (vacated as_ es as' a).
  destruct (entry_soft e); simpl; [apply IH|]. destruct (entry_bounds e He) as (Hu & Hlo & Hhi).
  rewrite IH, Hu, Hlo, Hhi. destruct He as (_ & _ & Hlt). rewrite (proj2 (Z.eqb_neq _ _)) by lia.
  rewrite negb_orb. by rewrite andb_assoc.
Qed.
Lemma drain_entries_run as_ es rows : Forall entry_ok es ->
  drain_entries as_ es rows = (let! x := sh_run (vacates as_ es) rows in Ok x.1).
Proof.
  intros He. revert rows. induction He as [|e es He _ IH]; intros rows; [done|]. cbn [drain_entries].
  assert (Hv : vacates as_ (e :: es) = (if entry_soft e then [] else [ShForget as_ (entry_from e) (u64 (le_end e - entry_from e))]) ++ vacates as_ es)
    by apply bind_cons.
  rewrite Hv. unfold drain_entry. destruct He as (Hf & Hen & Hlt). change (VMR_PG_SIZE - 1) with 4095.
  rewrite (bound_low _ Hf), (bound_low _ Hen), (proj2 (Z.leb_gt _ _)) by done. simpl.
  destruct (entry_soft e); simpl; [apply IH|]. destruct (sh_file_forget _ _ _ _) as [r1| | | |]; try done. simpl. rewrite IH.
  by destruct (sh_run _ r1) as [[r2 fit]| | | |].
Qed.
Lemma vacates_app as_ es es' : vacates as_ (es ++ es') = vacates as_ es ++ vacates as_ es'.
Proof. apply bind_app. Qed.
Lemma sh_run_app ops ops' rows :
  (let! x := sh_run (ops ++ ops') rows in Ok x.1) = (let! x := sh_run ops rows in let! y := sh_run ops' x.1 in Ok y.1).
Proof.
  revert rows. induction ops as [|op ops IH]; intros rows; simpl; [done|].
  destruct (sh_step op rows) as [r1| | | |]; try done. simpl. specialize (IH r1).
  destruct (sh_run (ops ++ ops') r1) as [[r2 b2]| | | |], (sh_run ops r1) as [[r3 b3]| | | |]; simpl in *; done.
Qed.
(** All the entries up to the first batch that is not full. *)
Definition drained (fulls : list vmctx_mmlog) (last : vmctx_mmlog) : list mmlog_entry := (fulls ≫= ml_ent) ++ ml_ent last.
Lemma drain_log_run as_ fulls last rest rows :
  Forall (fun ml => batch_ok ml /\ length (ml_ent ml) = VMCTX_MMLOG_MAX) fulls ->
  batch_ok last -> length (ml_ent last) <> VMCTX_MMLOG_MAX ->
  drain_log as_ ((Some <$> fulls) ++ Some last :: rest) rows =
  (let! x := sh_run (vacates as_ (drained fulls last)) rows in Ok (x.1, ml_cur last)).
Proof.
  intros Hf (Hlen & Hdrop & Hes) Hne. revert rows. induction Hf as [|ml fulls [(Hl & Hd & He) Hfull] _ IH]; intros rows; cbn [drain_log].
  - simpl. rewrite Hdrop, (proj2 (Nat.ltb_ge _ _)) by done. simpl. rewrite drain_entries_run by done.
    unfold drained. simpl. destruct (sh_run _ rows) as [[r b]| | | |]; try done. simpl. by rewrite (proj2 (Nat.eqb_neq _ _) Hne).
  - simpl. rewrite Hd, (proj2 (Nat.ltb_ge _ _)) by done. simpl. rewrite drain_entries_run by done. rewrite Hfull, Nat.eqb_refl.
    assert (Hd' : drained (ml :: fulls) last = ml_ent ml ++ drained fulls last) by (unfold drained; by rewrite bind_cons, app_assoc).
    rewrite Hd', vacates_app. pose proof (sh_run_app (vacates as_ (ml_ent ml)) (vacates as_ (drained fulls last)) rows) as Happ.
    destruct (sh_run (vacates as_ (ml_ent ml)) rows) as [[r1 b1]|e1| | |]; simpl in *.
    1: rewrite IH; destruct (sh_run (vacates as_ (drained fulls last)) r1) as [[r3 b3]|e3| | |]; simpl in *.
    all: destruct (sh_run (_ ++ _) rows) as [[r2 b2]|e2| | |]; simpl in *; by simplify_eq.
Qed.

(** C22: A completed call takes what it unmapped from the source's table of
    shared files: the log is read to its end, whatever number of batches it
    takes, before the new mapping is noted; no address that lost its mapping is
    still taken for a shared file, and nothing is added but the mapping the call
    itself made.  A range whose content alone was discarded, and every other
    address, stays as it was as long as each range finds room in the table of 64
    rows for the rows it cuts; when one does not, addresses outside it may be
    dropped as well.  The reply carries the stamp of the log's end, the effect of
    the call's raw result, and the result and registers the gate reported. *)
Theorem forward_tables_follow_call fulls last rest query fstat alloc as_ nr args gate s :
  Forall (fun ml => batch_ok ml /\ length (ml_ent ml) = VMCTX_MMLOG_MAX) fulls ->
  batch_ok last -> length (ml_ent last) <> VMCTX_MMLOG_MAX -> sh_ok (sh_file s) ->
  exists rows fit, sh_run (vacates as_ (drained fulls last)) (sh_file s) = Ok (rows, fit) /\
    (forall as' a, sh_file_has as' a rows = true -> sh_file_has as' a (sh_file s) = true /\ vacated as_ (drained fulls last) as' a = false) /\
    (fit = true -> forall as' a, sh_file_has as' a rows = sh_file_has as' a (sh_file s) && negb (vacated as_ (drained fulls last) as' a)) /\
    match ctx_forward ((Some <$> fulls) ++ Some last :: rest) query fstat alloc as_ nr args gate s with
    | Ok (f, s') => exists shared,
        note_shared_mapping query fstat alloc as_ nr (default 0 (args !! 1%nat)) (default 0 (args !! 3%nat)) (g_dispatch_ret gate)
          (mk_objects (sh_shared s) rows) = Ok (shared, s') /\
        f = mk_forwarded (g_ret gate) (g_regs gate) (ml_cur last)
              (source_map_effect nr args (g_dispatch_ret gate) (sm_object shared) (sm_offset shared) (sm_length shared))
    | Aborted => note_shared_mapping query fstat alloc as_ nr (default 0 (args !! 1%nat)) (default 0 (args !! 3%nat)) (g_dispatch_ret gate)
          (mk_objects (sh_shared s) rows) = Aborted
    | _ => False
    end.
Proof.
  intros Hf Hl Hne Hok.
  assert (Hes : Forall entry_ok (drained fulls last)).
  { unfold drained. apply Forall_app. split; [|apply Hl]. clear -Hf. induction Hf as [|ml fulls [(_ & _ & ?) _] _ IH]; [constructor|].
    rewrite bind_cons. by apply Forall_app. }
  destruct (sh_run_spec (vacates as_ (drained fulls last)) (sh_file s) Hok (vacates_ok as_ _ Hes)) as (rows & fit & Hrun & _ & Hs & Hfit).
  exists rows, fit. split; [done|]. split.
  { intros as' a Ha. specialize (Hs as' a Ha). rewrite vacates_ref in Hs by done. apply andb_true_iff in Hs as [? ?%negb_true_iff]. done. }
  split. { intros Hft as' a. rewrite (Hfit Hft), vacates_ref by done. done. }
  unfold ctx_forward. rewrite drain_log_run by done. rewrite Hrun. simpl.
  assert (Hn : forall o, match note_shared_mapping query fstat alloc as_ nr (default 0 (args !! 1%nat)) (default 0 (args !! 3%nat)) (g_dispatch_ret gate) o
    with Ok _ | Aborted => True | _ => False end).
  { intros o. unfold note_shared_mapping. repeat case_match; simplify_eq; done. }
  specialize (Hn (mk_objects (sh_shared s) rows)).
  destruct (note_shared_mapping _ _ _ _ _ _ _ _ (mk_objects (sh_shared s) rows)) as [[shared s']| | | |]; try done. simpl. eauto.
Qed.

(** ** Examples *)
Definition demo_memory : vmr_mm_binding := mk_binding 1 3 0 5.
Definition demo_read : vmr_req := mk_req 0x50524d56 VMR_OP_ACCESS_READ 0 0 0 0 [3; 2; 0; 0; 0; 0] 0 demo_memory.
Definition demo_events : list vmctx_access_event :=
  [mk_kevent 4 0x10000 0x14000 VMCTX_ACCESS_PROTECT 1; mk_kevent 6 0x12000 0x13000 VMCTX_ACCESS_UNMAP 0].
Definition demo_log : vmctx_access_log := mk_log 3 6 9 2 2 0 demo_events.
Lemma served_batch_accepted_witness :
  exists b t, access_request (fun _ => true) 1 demo_read (inr demo_log) relro_empty = Ok (sizeof_batch, Some b, t) /\
    access_batch_valid b 3 2 = true /\ relro_has 3 0x11000 t = true /\ relro_has 3 0x12000 t = false.
Proof.
  pose proof (served_batch_accepted (fun _ => true) 1 demo_read demo_log relro_empty 2) as H.
  assert (Hl : log_ok 3 2 demo_log).
  { split; try reflexivity; try (vm_compute; lia); repeat constructor; vm_compute; try discriminate; done. }
  specialize (H eq_refl eq_refl eq_refl Hl ltac:(vm_compute; discriminate)). cbv zeta in H.
  eexists _, _. split; [vm_compute; reflexivity|]. split; [|split; vm_compute; reflexivity].
  destruct H as (_ & H & _). vm_compute. vm_compute in H. exact H.
Defined.
Definition demo_ops : list model_op :=
  [Negotiate true (vmctx_cpu_model_trim demo_small) (inr demo_caps); Negotiate true (vmctx_cpu_model_trim demo_caps) (inr demo_caps); StartRoot; Negotiate true (vmctx_cpu_model_trim demo_small) (inr demo_caps)].
Lemma cpu_model_agreed_once_witness :
  exists m, (model_run demo_ops (mk_mstate false no_model)).1 = [Some (inr m); Some (inl EBUSY); None; Some (inl EBUSY)] /\
    vmctx_cpu_model_subset m (vmctx_cpu_model_trim demo_small) = true /\ vmctx_cpu_model_valid m = true.
Proof.
  destruct (cpu_model_agreed_once demo_ops (model_run demo_ops (mk_mstate false no_model)).1 (model_run demo_ops (mk_mstate false no_model)).2)
    as (H1 & _ & H3); [by destruct (model_run demo_ops (mk_mstate false no_model))|].
  exists (vmctx_cpu_model_intersect demo_caps (vmctx_cpu_model_trim demo_small)). split; [vm_compute; reflexivity|]. split.
  - apply (H3 0%nat true (vmctx_cpu_model_trim demo_small) demo_caps); [reflexivity|vm_compute; reflexivity| |]; vm_compute; repeat split; discriminate.
  - apply (H1 0%nat). vm_compute. reflexivity.
Defined.
Definition demo_table : source_objects := mk_objects [] [mk_range 0x10000 0x18000 7; mk_range 0x20000 0x24000 7].
Definition demo_last : vmctx_mmlog := mk_mmlog [mk_entry 0x12000 0x14000; mk_entry 0x20001 0x22000] 0 33.
Lemma forward_tables_follow_call_witness :
  exists f s, ctx_forward [Some demo_last] None (inl 0) (fun _ => true) 7 SYS_munmap [0x12000; 0x2000; 0; 0; 0; 0] (mk_gate 0 0 []) demo_table = Ok (f, s) /\
    fw_mmseq f = 33 /\ sh_file_has 7 0x12000 (sh_file s) = false /\ sh_file_has 7 0x14000 (sh_file s) = true /\ sh_file_has 7 0x20000 (sh_file s) = true.
Proof.
  destruct (forward_tables_follow_call [] demo_last [] None (inl 0) (fun _ => true) 7 SYS_munmap [0x12000; 0x2000; 0; 0; 0; 0] (mk_gate 0 0 []) demo_table)
    as (rows & fit & Hrun & _ & Hfit & H).
  - constructor.
  - split; [vm_compute; lia|]. split; [reflexivity|]. repeat constructor; vm_compute; try discriminate; done.
  - vm_compute. discriminate.
  - split; [vm_compute; lia|]. repeat constructor; vm_compute; try discriminate; done.
  - assert (Hc : sh_run (vacates 7 (drained [] demo_last)) (sh_file demo_table) = Ok ([mk_range 0x20000 0x24000 7; mk_range 0x10000 0x12000 7; mk_range 0x14000 0x18000 7], true))
      by (vm_compute; reflexivity).
    rewrite Hc in Hrun. injection Hrun as <- <-. specialize (Hfit eq_refl).
    eexists _, _. split; [vm_compute; reflexivity|]. split; [reflexivity|]. split_and!; cbn [sh_file]; rewrite Hfit; vm_compute; reflexivity.
Defined.
End SourceServe.
